(* ===== verification/_CoqProject ===== *)
-Q . S2P
Prelude.v
PyStr.v
PyRe.v
PyShlex.v
PyFormat.v
PyNum.v
PyFloat.v
PyPath.v
PyXml.v
RadUtil.v
Topsort.v
FindCycles.v
ShellCmd.v
TestReport.v
TestJobs.v
TestWorkers.v
TestDispatch.v
TestRunner.v
PatchSet.v
CheckStyle.v
Ns3rc.v
GridData.v
GridDraw.v
GridGtk.v
Wutils.v
PyFs.v
CreateModule.v
Versioning.v
Cflags.v
WafCommand.v
FlowMon.v
VizLoop.v
VizNodes.v
VizFlows.v
VizView.v
VizTopology.v
VizStats.v
VizWifi.v
VizHud.v
VizTables.v
VizPackets.v
VizConsole.v
VizPlugins.v
VizTooltips.v
NfdStatus.v
ApiScan.v
ApiGen.v
CompileDb.v
WafMisc.v
Boost.v
