(* ===== verification/Prelude.v ===== *)
(** * Verification of the Python tools of the ns-3 / ndnSIM tree

    The repository is the ns-3 simulator with ndnSIM.  Its C++ is compiled by
    waf, its tests are run by test.py and its tree is kept by a handful of
    Python tools.  These tools are what this development models: they are the
    hand-written Python of the repository (most of its other Python files are
    bindings that a scanner generates).

    ** Parts and files

    The library of Python, as far as the tools use it:
    - Prelude: results (a value or the exception that is raised), state with
      exceptions ([eff]: what was done before an exception stays done), the
      order of dict keys as an interface ([DictOrder]), dicts that keep the
      order of insertion, slices and indices, tactics and rewrite databases.
    - PyStr, PyRe, PyShlex, PyFormat, PyPath: strings, hand-made matchers for
      the regular expressions, shlex.split, repr, the percent operator and
      str.format, os.path and fnmatch.
    - PyNum: the numbers of Python 2 (unbounded int, binary64 float); PyFloat:
      reading and rounding floats, int of a string.
    - PyXml: the events of an element tree.
    - PyFs: pathlib and a file system whose refusals are a parameter.

    The tools, by file under src/:
    - test.py: TestReport (read_test, node_to_text, translate_to_text,
      translate_to_html), TestJobs (Job, run_job_synchronously, a pass of
      worker_thread.run, the collection of the results), TestWorkers (the main
      thread, the workers and the two queues as a step relation), TestDispatch
      and TestRunner (make_paths, the selection of suites and examples, the
      dispatch, run_tests as a whole).
    - waf-tools/shellcmd.py: ShellCmd (the parser state machine of Pipeline
      and its run);
      waf-tools/command.py: WafCommand (the words of a command line with
      their variables, and the task that runs it).
    - utils/check-style.py: PatchSet (unified diffs, the whitespace pass) and
      CheckStyle (indent, indent_files, run_as_main).
    - src/utils.py: Ns3rc.
    - bindings/python/topsort.py: Topsort and FindCycles; rad_util.py: RadUtil.
    - utils/grid.py: GridData (ranges, events, timelines, colors, read_data),
      GridDraw (the renderers, down to the calls of cairo) and GridGtk (the
      window as a state machine over user events, and main).
    - utils/create-module.py: CreateModule (templates, the functions that make
      the files, make_module with its rollback, main).
    - src/wutils.py: Wutils; waf-tools/versioning.py: Versioning;
      waf-tools/cflags.py: Cflags; clang_compilation_database.py: CompileDb;
      misc.py: WafMisc (templates, copies, commands); boost.py: Boost (the
      search for headers and libraries).
    - src/flow-monitor/examples/flowmon-parse-results.py: FlowMon.
    - src/visualizer/visualizer/core.py, base.py and svgitem.py: VizLoop (the
      simulation thread, the lock, the timers and quit, as steps of two
      threads; the main thread is a stack of callbacks), VizNodes (the drawn
      objects and the operations on them), VizTopology (scan_topology, which
      makes the first of them), VizFlows (the samples of transmissions and
      drops and the arrows that show them), VizView (selection, dragging,
      panning, zoom and the updates, as the handlers of a step relation that
      starts where the scan ends: VizTopology.scanned_inv), VizPlugins (the
      loading of plugins and the start), VizTooltips (the object under the
      pointer, tooltips and screenshots); hud.py: VizHud (divisions, ticks and
      labels of the axes); ipython_view.py: VizConsole (the text buffer, the
      keys, history and completion);
    - src/visualizer/visualizer/plugins: interface_statistics.py is VizStats,
      wifi_intrastructure_link.py VizWifi, show_last_packets.py VizPackets
      (which also joins all windows and runs them in VizView.update_view);
      ipv4_routing_table.py, olsr.py and ndnsim_*.py are VizTables, behind the
      class [InformationWindow] that core.py asks of a window.
    - src/ndnSIM/NFD/tools/nfd-status-http-server.py: NfdStatus.
    - bindings/python: ApiScan (ns3modulescan-modular.py: paths of headers, the
      hook before a declaration is scanned; ns3modulescan.py: the table of
      annotations and the sections, which Topsort puts in order), ApiGen
      (ns3modulegen-modular.py and ns3modulegen_core_customizations.py: smart
      pointers, callbacks, errors, main).

    A definition has the name of the function or method it models, with the
    class as a prefix where two share a name; a class is a Record of the
    attributes the code sets; an attribute that may be unset is an option.
    What the tools only call (processes, git, uncrustify, waf's objects, the
    measure of a text, XML and option parsers, eval) is a parameter or a
    record of what it answers; the hypotheses on it are named in the theorems.

    ** What the theorems show

    - Concurrency: with a worker, and unless a job raises, no interleaving of
      the main thread, the workers and a signal deadlocks, every job comes back
      once, and a concurrent run has the summary and code of a sequential one
      (TestWorkers); what the code of run_tests means (TestRunner).
    - Round trips: the parsers of pipelines, of diffs, of trace files, of
      git's descriptions and of version tags read back what is written.
    - Equivalence and refinement: the words of a command line as templates;
      runs of a command task against the groups of its pipeline, up to the
      first call of the system that raises; the
      summary against the order of results; the line readers against the
      whole text.
    - Algorithms: topological sorts and the search for cycles are correct and
      end; the binary searches of the viewer find what is there, in ranges that
      do not overlap; the loop
      that looks for the unit of a scale ends; ticks are exact and few.
    - State: the range that the viewer shows never starts before the trace nor
      ends after it under any user events and exceptions, and is inverted only
      when it was dragged out of the trace.
    - The visualizer: it can always quit; the simulator and the callbacks that
      take its lock exclude each other, the messages of a pause arrive; the drawing agrees
      with the nodes, links, selection and samples that it shows, from the
      scan of the topology on and over all events; dragging and updating put
      nodes where the simulator says.
    - Windows: after an update each information window shows what the
      simulator answers; the options of a capture follow every change of the
      window; in a build without assertions an ndnSIM window on a node without
      it stops the view.
    - The console: completion replaces the line by what the candidates share,
      and the history can be walked up and down.
    - Plugins are loaded once, up to the first whose import fails with more
      than an ImportError; what the page of NFD answers (VizPlugins, NfdStatus).
    - The scanner of the API: sections follow the dependencies of modules; the
      annotations of a parameter are used once; which classes of callbacks are
      written until one cannot be, and where a handler is left without one.
    - The flow monitor: which documents can be read, and the flows they give.
    - Failure: a module that cannot be created leaves nothing behind, unless
      its own removal fails; whatever its arguments create-module only writes
      below src and contrib; the version task never raises and updates nothing
      when git fails; what an exit code of a program becomes.
    - The build: commands in the compilation database are read back by a shell;
      the text that a template gives; which file a library of Boost is.
    - Templates: a new module has exactly the documented files, and they name
      each other.

    Where the code does not do what it means to, the theorem states what it
    does (the notes next to the theorems say so): for example the leak summary
    of valgrind that is never found, the option that disables warnings as
    errors without effect, the picture that is saved empty, the save of a
    drawing that is never restored, the scale of one unit that divides by
    zero, the arrows that a sample without bytes leaves on the canvas.

    ** Bounds and fuel

    Recursion that is not structural is either by a measure (the binary
    searches, with Equations) or with fuel that a theorem shows to be enough:
    [closest_fuel] is one more than the number of binary digits of the width
    ([closest_terminates]); [cycles_fuel] bounds the paths from one start
    ([find_cycles_complete]); the matchers of format strings and patterns take
    the length of the text, as every turn consumes a character; the loop over
    the ticks of an axis ends for integer divisions ([axis_integer_ticks]), but
    not where floats are further apart than its steps ([ticks_far_away]).  Integers are
    unbounded, as in Python; floats are those of [SpecFloat].  Strings are
    ASCII: classes of characters that Python 3 takes from Unicode are cut to
    ASCII.

    ** Not modelled, and plans

    Generated bindings (the output of the scanner, calls of pybindgen), the
    C++ of the simulator, of ndnSIM and of NFD, the example scripts and the
    settings of Sphinx (lists of calls and values); of the scanner, the parsing
    by pygccxml, what pybindgen writes, and the lists of wrappers for single
    classes; option tables; relocation.py, which moves nodes of waf;
    the functions of rad_util.py on floats of libm (its statistics).  The file
    operations of the test runner are assumed to succeed (those of
    create-module and of the version task are not).  Of the visualizer: the construction of
    widgets and menus and the event loop of gtk; the shell window, which
    nothing opens; the construction of IPython, its system calls and the
    editor for syntax errors.  Of the page of NFD: the parser of its options
    and the loop of the server. *)
From Stdlib Require Export ZArith Lia Permutation Sorted.
From stdpp Require Export base tactics list gmap strings pretty sorting.

Declare Scope py_scope.
Delimit Scope py_scope with py.
#[local] Open Scope Z_scope.

(** ** Results: a value, or the exception that a call raises. *)
Inductive result (E A : Type) : Type :=
| Ok (a : A)
| Err (e : E).
Arguments Ok {E A} a.
Arguments Err {E A} e.

#[export] Instance result_eq_dec `{EqDecision E, EqDecision A} : EqDecision (result E A).
Proof. solve_decision. Defined.

#[export] Instance result_ret E : MRet (result E) := λ A a, Ok a.
#[export] Instance result_bind E : MBind (result E) := λ A B f r,
  match r with Ok a => f a | Err e => Err e end.
#[export] Instance result_fmap E : FMap (result E) := λ A B f r,
  match r with Ok a => Ok (f a) | Err e => Err e end.

(** The exceptions of the Python runtime that the modelled code raises. *)
Inductive exn : Type :=
| AssertionError
| IndexError
| KeyError
| AttributeError
| TypeError
| UnboundLocalError
| ZeroDivisionError
| OSError
| FileNotFoundError
| StopIteration
| ValueError (msg : string)
| PyException (msg : string)
| SystemExit (code : Z)
| Diverges. (* not an exception: the call does not return *)

#[export] Instance exn_eq_dec : EqDecision exn.
Proof. solve_decision. Defined.

Abbreviation res := (result exn).

Definition is_ok {E A} (r : result E A) : bool :=
  match r with Ok _ => true | Err _ => false end.

(** [assert b] of the sources. *)
Definition py_assert (b : bool) : res unit :=
  if b then Ok tt else Err AssertionError.

Lemma bind_ok {E A B} (r : result E A) (f : A → result E B) b :
  (r ≫= f) = Ok b ↔ ∃ a, r = Ok a ∧ f a = Ok b.
Proof. destruct r; simpl; naive_solver. Qed.

Lemma bind_err {E A B} (r : result E A) (f : A → result E B) e :
  (r ≫= f) = Err e ↔ r = Err e ∨ ∃ a, r = Ok a ∧ f a = Err e.
Proof. destruct r; simpl; naive_solver. Qed.

(** ** State with exceptions: the effects performed before an exception stay. *)
Definition eff (S E A : Type) : Type := S → S * result E A.

#[export] Instance eff_ret S E : MRet (eff S E) := λ A a s, (s, Ok a).
#[export] Instance eff_bind S E : MBind (eff S E) := λ A B f m s,
  match m s with
  | (s', Ok a) => f a s'
  | (s', Err e) => (s', Err e)
  end.

(** The part of the state that an object keeps, in a larger state. *)
Definition zoom {S T E A} (get : S → T) (put : T → S → S) (m : eff T E A) : eff S E A := λ s,
  let '(t, r) := m (get s) in (put t s, r).
Definition zoom_fst {S T E A} : eff S E A → eff (S * T) E A := zoom fst (λ x s, (x, s.2)).
Definition zoom_snd {S T E A} : eff T E A → eff (S * T) E A := zoom snd (λ x s, (s.1, x)).
Definition gets {S E A} (f : S → A) : eff S E A := λ s, (s, Ok (f s)).
Definition modify {S E} (f : S → S) : eff S E unit := λ s, (f s, Ok ()).

Definition throw {S E A} (e : E) : eff S E A := λ s, (s, Err e).
Definition lift_res {S E A} (r : result E A) : eff S E A := λ s, (s, r).
(** [try: m; except: h]: what [m] did stays done. *)
Definition catch {S E A} (m : eff S E A) (h : E → eff S E A) : eff S E A := λ s,
  match m s with
  | (s', Err e) => h e s'
  | r => r
  end.

(** The first step of a sequence is done. *)
Section eff_steps.
Context {S E A B : Type}.
Implicit Types (k : A → eff S E B) (s : S).
Lemma bind_lift_ok (a : A) k s : (lift_res (Ok a) ≫= k) s = k a s.
Proof. done. Qed.
Lemma bind_lift_err (e : E) k s : (lift_res (Err e) ≫= k) s = (s, Err e).
Proof. done. Qed.
Lemma bind_mret (a : A) k s : ((mret a : eff S E A) ≫= k) s = k a s.
Proof. done. Qed.
Lemma bind_gets (f : S → A) k s : (gets f ≫= k) s = k (f s) s.
Proof. done. Qed.
Lemma bind_modify (f : S → S) (k : unit → eff S E B) s : (modify f ≫= k) s = k () (f s).
Proof. done. Qed.
Lemma bind_run (m : eff S E A) k s s' a : m s = (s', Ok a) → (m ≫= k) s = k a s'.
Proof. unfold mbind, eff_bind. by intros ->. Qed.
Lemma bind_run_err (m : eff S E A) k s s' e : m s = (s', Err e) → (m ≫= k) s = (s', Err e).
Proof. unfold mbind, eff_bind. by intros ->. Qed.
(** What a sequence that succeeds went through. *)
Lemma bind_run_inv (m : eff S E A) k s s' b :
  (m ≫= k) s = (s', Ok b) → ∃ a s1, m s = (s1, Ok a) ∧ k a s1 = (s', Ok b).
Proof. unfold mbind, eff_bind. destruct (m s) as [s1 [a|e]]; [|done]. eauto. Qed.
End eff_steps.
Create Rewrite HintDb eff.
#[export] Hint Rewrite @bind_lift_ok @bind_lift_err @bind_mret @bind_gets @bind_modify : eff.

(** [for x in l: body] in the effect monad. *)
Fixpoint for_each {S E A} (body : A → eff S E unit) (l : list A) : eff S E unit :=
  match l with
  | [] => mret ()
  | x :: l => body x ≫= λ _, for_each body l
  end.

Lemma for_each_app {S E A} (body : A → eff S E unit) (l1 l2 : list A) s :
  for_each body (l1 ++ l2) s = (for_each body l1 ≫= λ _, for_each body l2) s.
Proof.
  revert s. induction l1 as [|x l1 IH]; intros s; [done|]. cbn [for_each app].
  unfold mbind, eff_bind in *. destruct (body x s) as [s1 [[]|e]]; [apply IH|done].
Qed.

(** ** Iteration order of a hash-based dict.
    [dict.keys()] lists every key once; the order is the implementation's.
    Clients are proved against this interface. *)
Class DictOrder (K : Type) `{Countable K} : Type := {
  dict_keys : ∀ {V}, gmap K V → list K;
  dict_keys_perm : ∀ {V} (m : gmap K V), dict_keys m ≡ₚ (map_to_list m).*1;
}.

(** The order in which stdpp's finite map lists its keys is one such order. *)
#[export] Program Instance gmap_dict_order `{Countable K} : DictOrder K :=
  {| dict_keys V m := (map_to_list m).*1 |}.
Next Obligation. done. Qed.

Section dict_order.
Context `{DictOrder K} {V : Type}.
Implicit Types m : gmap K V.

Lemma dict_keys_nodup m : NoDup (dict_keys m).
Proof. rewrite dict_keys_perm. apply NoDup_fst_map_to_list. Qed.

Lemma elem_of_dict_keys m k : k ∈ dict_keys m ↔ is_Some (m !! k).
Proof.
  rewrite dict_keys_perm, list_elem_of_fmap. split.
  - intros ([k' v] & -> & Hin). apply elem_of_map_to_list in Hin. eauto.
  - intros [v Hv]. exists (k, v). split; [done|]. by apply elem_of_map_to_list.
Qed.

Lemma length_dict_keys m : length (dict_keys m) = size m.
Proof. rewrite dict_keys_perm, length_fmap. apply length_map_to_list. Qed.
End dict_order.

(** ** A dict that keeps the order of insertion, as its list of items. *)
Section py_dict.
Context {K V : Type} `{EqDecision K}.
Implicit Types d : list (K * V).

(** [d[k] = v] *)
Fixpoint dict_set d (k : K) (v : V) : list (K * V) :=
  match d with
  | [] => [(k, v)]
  | (k', v') :: d => if decide (k' = k) then (k, v) :: d else (k', v') :: dict_set d k v
  end.
(** [d.get(k)] *)
Fixpoint dict_get d (k : K) : option V :=
  match d with
  | [] => None
  | (k', v') :: d => if decide (k' = k) then Some v' else dict_get d k
  end.

Lemma dict_get_set d k k' v :
  dict_get (dict_set d k v) k' = if decide (k = k') then Some v else dict_get d k'.
Proof.
  induction d as [|[k1 v1] d IH]; simpl; [done|].
  repeat (case_decide; simpl; subst); try done; by rewrite ?IH, ?decide_True, ?decide_False by done.
Qed.

Lemma dict_get_some d k : is_Some (dict_get d k) ↔ k ∈ d.*1.
Proof.
  induction d as [|[k1 v1] d IH]; simpl.
  { rewrite elem_of_nil. by split; [intros []|]. }
  rewrite elem_of_cons, <-IH. case_decide; subst; naive_solver.
Qed.

Lemma dict_set_fresh d k v : k ∉ d.*1 → dict_set d k v = d ++ [(k, v)].
Proof.
  induction d as [|[k1 v1] d IH]; intros Hk; simpl in *; [done|].
  apply not_elem_of_cons in Hk as [? ?]. rewrite decide_False by done. by rewrite IH.
Qed.

Lemma dict_set_keys d k v :
  NoDup d.*1 → NoDup (dict_set d k v).*1 ∧ ∀ k', k' ∈ (dict_set d k v).*1 ↔ k' = k ∨ k' ∈ d.*1.
Proof.
  induction d as [|[k1 v1] d IH]; intros Hnd; simpl in *.
  { split; [apply NoDup_singleton|set_solver]. }
  apply NoDup_cons in Hnd as [Hk1 Hnd]. case_decide; subst; simpl.
  - split; [by apply NoDup_cons|]. intros k'. rewrite elem_of_cons. naive_solver.
  - destruct (IH Hnd) as [Hnd' Hin]. split.
    + apply NoDup_cons. rewrite Hin. naive_solver.
    + intros k'. rewrite !elem_of_cons, Hin. naive_solver.
Qed.
End py_dict.

(** ** Python slices on lists: bounds may be negative and are clamped. *)
Definition slice_index {A} (l : list A) (i : Z) : nat :=
  if decide (i < 0) then Z.to_nat (Z.max 0 (Z.of_nat (length l) + i))
  else Nat.min (Z.to_nat i) (length l).
(** [l[:i]] *)
Definition slice_to {A} (l : list A) (i : Z) : list A := take (slice_index l i) l.
(** [l[i:]] *)
Definition slice_from {A} (l : list A) (i : Z) : list A := drop (slice_index l i) l.
(** [l[i:j]] *)
Definition slice {A} (l : list A) (i j : Z) : list A :=
  drop (slice_index l i) (take (slice_index l j) l).

(** [l[i]]: a negative index counts from the end; out of range raises. *)
Definition py_index {A} (l : list A) (i : Z) : res A :=
  let j := if decide (i < 0) then Z.of_nat (length l) + i else i in
  if decide (j < 0) then Err IndexError
  else match l !! Z.to_nat j with Some x => Ok x | None => Err IndexError end.

Lemma slice_to_nat {A} (l : list A) (n : nat) : slice_to l (Z.of_nat n) = take n l.
Proof.
  unfold slice_to, slice_index. rewrite decide_False by lia. rewrite Nat2Z.id.
  destruct (decide (n ≤ length l)%nat).
  - by rewrite Nat.min_l.
  - rewrite Nat.min_r, !take_ge by lia. done.
Qed.

Lemma slice_from_nat {A} (l : list A) (n : nat) : slice_from l (Z.of_nat n) = drop n l.
Proof.
  unfold slice_from, slice_index. rewrite decide_False by lia. rewrite Nat2Z.id.
  destruct (decide (n ≤ length l)%nat).
  - by rewrite Nat.min_l.
  - rewrite Nat.min_r, !drop_ge by lia. done.
Qed.

Lemma py_index_nat {A} (l : list A) (n : nat) :
  py_index l (Z.of_nat n) = match l !! n with Some x => Ok x | None => Err IndexError end.
Proof.
  unfold py_index. rewrite (decide_False (P := Z.of_nat n < 0)) by lia.
  rewrite decide_False by lia. by rewrite Nat2Z.id.
Qed.

(** ** Lists *)
Lemma filter_all {A} (P : A → Prop) `{!∀ x, Decision (P x)} l : Forall P l → filter P l = l.
Proof. induction 1; [done|]. rewrite filter_cons_True by done. by f_equal. Qed.
Lemma filter_none {A} (P : A → Prop) `{!∀ x, Decision (P x)} l :
  Forall (λ x, ¬ P x) l → filter P l = [].
Proof. induction 1; [done|]. by rewrite filter_cons_False. Qed.
(** A list up to its first element without [P]. *)
Lemma list_split_first {A} (P : A → Prop) `{!∀ x, Decision (P x)} l :
  ∃ l1 l2, l = l1 ++ l2 ∧ Forall P l1 ∧ ∀ x, head l2 = Some x → ¬ P x.
Proof.
  induction l as [|x l (l1 & l2 & -> & H1 & H2)]; [by exists [], []|]. destruct (decide (P x)).
  - exists (x :: l1), l2. split_and!; [done|by apply Forall_cons|done].
  - exists [], (x :: l1 ++ l2). split_and!; [done..|]. by intros y [= <-].
Qed.
Lemma list_fmap_eq_nil_iff {A B} (f : A → B) l : f <$> l = [] ↔ l = [].
Proof. destruct l; naive_solver. Qed.

(** ** Automation *)
Create Rewrite HintDb py.
#[export] Hint Rewrite @slice_to_nat @slice_from_nat @py_index_nat : py.

Ltac inv_bind :=
  repeat match goal with
  | H : (_ ≫= _) = Ok _ |- _ => apply bind_ok in H; destruct H as (? & ? & ?)
  end.
