(* ===== verification/PyStr.v ===== *)
(** * Python strings
    The string operations the tools use, on [string] (one [ascii] per character). *)
From Stdlib Require Import Ascii.
From S2P Require Import Prelude.

Definition chars (s : string) : list ascii := String.list_ascii_of_string s.
Definition of_chars (l : list ascii) : string := String.string_of_list_ascii l.

Lemma of_chars_chars s : of_chars (chars s) = s.
Proof. apply String.string_of_list_ascii_of_string. Qed.
Lemma chars_of_chars l : chars (of_chars l) = l.
Proof. apply String.list_ascii_of_string_of_list_ascii. Qed.
#[export] Hint Rewrite of_chars_chars chars_of_chars : py.

Lemma chars_app s t : chars (s +:+ t) = chars s ++ chars t.
Proof. induction s; simpl; [done|]. by rewrite IHs. Qed.
Lemma of_chars_app l k : of_chars (l ++ k) = of_chars l +:+ of_chars k.
Proof. induction l; simpl; [done|]. by rewrite IHl. Qed.
Lemma chars_inj s t : chars s = chars t → s = t.
Proof. intros Heq. by rewrite <-(of_chars_chars s), Heq, of_chars_chars. Qed.
Lemma length_chars s : length (chars s) = String.length s.
Proof. induction s; simpl; auto. Qed.

Lemma append_assoc (s t u : string) : (s +:+ t) +:+ u = s +:+ (t +:+ u).
Proof. apply chars_inj. by rewrite !chars_app, app_assoc. Qed.
Lemma append_nil_r (s : string) : s +:+ "" = s.
Proof. apply chars_inj. by rewrite chars_app, app_nil_r. Qed.

(** All the strings of a list, one after the other. *)
Definition cat (l : list string) : string := foldr (λ s t, s +:+ t) "" l.
Lemma cat_app l k : cat (l ++ k) = cat l +:+ cat k.
Proof. induction l as [|s l IH]; simpl; [done|]. by rewrite IH, append_assoc. Qed.

(** [''.join(l)] and [sep.join(l)] *)
Fixpoint join (sep : string) (l : list string) : string :=
  match l with
  | [] => ""
  | [s] => s
  | s :: l => s +:+ sep +:+ join sep l
  end.

(** [s.split(c)] for a one-character separator: always at least one piece. *)
Fixpoint split_chars (c : ascii) (l : list ascii) : list (list ascii) :=
  match l with
  | [] => [[]]
  | a :: l =>
      if decide (a = c) then [] :: split_chars c l
      else match split_chars c l with
           | [] => [[a]]
           | p :: ps => (a :: p) :: ps
           end
  end.
Definition split (c : ascii) (s : string) : list string := of_chars <$> split_chars c (chars s).

(** [s.split(c, 1)]: one or two pieces. *)
Fixpoint split1_chars (c : ascii) (l : list ascii) : list ascii * option (list ascii) :=
  match l with
  | [] => ([], None)
  | a :: l =>
      if decide (a = c) then ([], Some l)
      else let '(p, r) := split1_chars c l in (a :: p, r)
  end.
Definition split1 (c : ascii) (s : string) : string * option string :=
  let '(p, r) := split1_chars c (chars s) in (of_chars p, of_chars <$> r).

Definition startswith (s p : string) : bool := String.prefix p s.
Definition endswith (s p : string) : bool :=
  bool_decide (chars p `suffix_of` chars s).
Definition contains (s sub : string) : bool :=
  match String.index 0 sub s with Some _ => true | None => false end.

(** Whitespace: C's isspace, and Python 3's [str.isspace] restricted to ASCII. *)
Definition is_cspace (a : ascii) : bool :=
  let n := nat_of_ascii a in (n =? 32)%nat || ((9 <=? n)%nat && (n <=? 13)%nat).
Definition is_space (a : ascii) : bool :=
  let n := nat_of_ascii a in is_cspace a || ((28 <=? n)%nat && (n <=? 31)%nat).

Fixpoint lstrip_chars (sp : ascii → bool) (l : list ascii) : list ascii :=
  match l with
  | [] => []
  | a :: l' => if sp a then lstrip_chars sp l' else l
  end.
Definition strip_chars (sp : ascii → bool) (l : list ascii) : list ascii :=
  reverse (lstrip_chars sp (reverse (lstrip_chars sp l))).
Definition strip (s : string) : string := of_chars (strip_chars is_space (chars s)).

Definition is_digit (a : ascii) : bool :=
  let n := nat_of_ascii a in (48 <=? n)%nat && (n <=? 57)%nat.

Definition upper_char (a : ascii) : ascii :=
  let n := nat_of_ascii a in
  if (97 <=? n)%nat && (n <=? 122)%nat then ascii_of_nat (n - 32) else a.
Definition upper (s : string) : string := of_chars (upper_char <$> chars s).

(** [os.path.basename] and [os.path.join] of posixpath. *)
Definition basename (p : string) : string :=
  of_chars (List.last (split_chars "/" (chars p)) []).
Definition path_join (a b : string) : string :=
  if startswith b "/" then b
  else if bool_decide (a = "") || endswith a "/" then a +:+ b
  else a +:+ "/" +:+ b.

(** [l.sort()] on a list of strings. *)
Definition sort_strings (l : list string) : list string := merge_sort String.le l.

Definition newline : ascii := "010"%char.

(** ** Text files
    A file opened in text mode: [\r\n] and [\r] are read as [\n]. *)
Fixpoint universal_newlines (l : list ascii) : list ascii :=
  match l with
  | [] => []
  | a :: l' =>
      if decide (a = "013"%char) then
        match l' with
        | b :: l'' => if decide (b = newline) then newline :: universal_newlines l''
                      else newline :: universal_newlines l'
        | [] => [newline]
        end
      else a :: universal_newlines l'
  end.
(** The lines, each with its newline. *)
Fixpoint keep_lines (l : list ascii) : list (list ascii) :=
  match l with
  | [] => []
  | a :: l =>
      if decide (a = newline) then [a] :: keep_lines l
      else match keep_lines l with
           | [] => [[a]]
           | x :: ls => (a :: x) :: ls
           end
  end.
Definition text_lines (content : string) : list string :=
  of_chars <$> keep_lines (universal_newlines (chars content)).

Lemma split_chars_not_nil c l : split_chars c l ≠ [].
Proof. induction l; simpl; [done|]. by repeat case_match. Qed.

Fixpoint join_chars (c : ascii) (l : list (list ascii)) : list ascii :=
  match l with
  | [] => []
  | [p] => p
  | p :: ps => p ++ c :: join_chars c ps
  end.

(** Splitting at a character and joining with it gives the text back. *)
Lemma split_chars_none c l : c ∉ l → split_chars c l = [l].
Proof.
  induction l as [|a l IH]; intros Hc; simpl; [done|]. apply not_elem_of_cons in Hc as [? Hc].
  rewrite decide_False by done. by rewrite IH.
Qed.
Lemma split_chars_sep c l k : c ∉ l → split_chars c (l ++ c :: k) = l :: split_chars c k.
Proof.
  induction l as [|a l IH]; intros Hc; simpl; [by rewrite decide_True|].
  apply not_elem_of_cons in Hc as [? Hc]. rewrite decide_False by done. by rewrite IH.
Qed.
Lemma join_split_chars c l : join_chars c (split_chars c l) = l.
Proof.
  induction l as [|a l IH]; simpl; [done|].
  pose proof (split_chars_not_nil c l).
  case_decide; subst.
  - destruct (split_chars c l); [done|]. simpl in *. by rewrite IH.
  - destruct (split_chars c l) as [|p [|q ps]]; [done|..]; simpl in *; by rewrite <-IH.
Qed.

Lemma chars_join c ps :
  chars (join (String c "") (of_chars <$> ps)) = join_chars c ps.
Proof.
  induction ps as [|p [|q ps] IH]; [done|by simpl; autorewrite with py|].
  change (join _ (of_chars <$> p :: q :: ps)) with
    (of_chars p +:+ String c "" +:+ join (String c "") (of_chars <$> q :: ps)).
  by rewrite !chars_app, IH, chars_of_chars.
Qed.

Lemma join_split c s : join (String c "") (split c s) = s.
Proof. apply chars_inj. unfold split. by rewrite chars_join, join_split_chars. Qed.

Lemma split1_chars_spec c l :
  match split1_chars c l with
  | (p, None) => l = p ∧ c ∉ p
  | (p, Some r) => l = p ++ c :: r ∧ c ∉ p
  end.
Proof.
  induction l as [|a l IH]; simpl; [split; [done|set_solver]|].
  case_decide; subst; [split; [done|set_solver]|].
  destruct (split1_chars c l) as [p [r|]]; destruct IH as [-> ?]; set_solver.
Qed.

Lemma basename_no_slash p : "/"%char ∉ chars (basename p).
Proof.
  unfold basename. rewrite chars_of_chars.
  assert (∀ l, Forall (λ q, "/"%char ∉ q) (split_chars "/" l)) as Hall.
  { induction l as [|a l IH]; simpl; [repeat constructor; set_solver|].
    case_decide; [constructor; [set_solver|done]|].
    destruct (split_chars "/" l) as [|q qs];
      [apply Forall_singleton; rewrite list_elem_of_singleton; congruence|].
    apply Forall_cons in IH as [? ?]. constructor; [|done].
    rewrite elem_of_cons. naive_solver. }
  specialize (Hall (chars p)). pose proof (split_chars_not_nil "/" (chars p)) as Hne.
  destruct (exists_last Hne) as (ps & q & Heq). rewrite Heq in Hall |- *.
  rewrite last_last. apply Forall_app in Hall as [_ Hq]. by apply Forall_cons in Hq as [Hq _].
Qed.

(** Sorting depends on the elements only. *)
#[export] Instance sort_strings_proper : Proper ((≡ₚ) ==> (=)) sort_strings.
Proof.
  intros l k Hlk. unfold sort_strings. apply (Sorted_unique String.le).
  - apply Sorted_merge_sort, _.
  - apply Sorted_merge_sort, _.
  - by rewrite !merge_sort_Permutation.
Qed.
