(* ===== verification/PyRe.v ===== *)
(** * Regular expressions and decimal numbers
    The pieces of the regular expressions that the tools match by hand: a
    literal prefix, a maximal run of characters of a class, a decimal number
    ([int(s)] of a group of digits), with what they match and the round trip
    with the decimal printer. *)
From Stdlib Require Import Ascii.
From S2P Require Import Prelude PyStr.
#[local] Open Scope Z_scope.

Fixpoint drop_prefix (p l : list ascii) : option (list ascii) :=
  match p, l with
  | [], _ => Some l
  | a :: p, b :: l => if decide (a = b) then drop_prefix p l else None
  | _ :: _, [] => None
  end.
Fixpoint span (p : ascii → bool) (l : list ascii) : list ascii * list ascii :=
  match l with
  | [] => ([], [])
  | a :: l' => if p a then let '(x, y) := span p l' in (a :: x, y) else ([], l)
  end.
(** [([0-9]+)] *)
Definition digits1 (l : list ascii) : option (list ascii * list ascii) :=
  match span is_digit l with
  | ([], _) => None
  | r => Some r
  end.
(** [int(s)] of a string of decimal digits. *)
Definition digit_val (a : ascii) : Z := Z.of_nat (nat_of_ascii a) - 48.
Definition int_of_digits (s : string) : Z :=
  foldl (λ n a, 10 * n + digit_val a) 0 (chars s).

Lemma drop_prefix_spec p l r : drop_prefix p l = Some r ↔ l = p ++ r.
Proof.
  revert l; induction p as [|a p IH]; intros [|b l]; simpl; [naive_solver..|].
  case_decide; subst; [rewrite IH; naive_solver|naive_solver].
Qed.

Lemma drop_prefix_none p l : drop_prefix p l = None ↔ ¬ (p `prefix_of` l).
Proof.
  destruct (drop_prefix p l) as [r|] eqn:E.
  - apply drop_prefix_spec in E. subst. split; [done|]. intros []. by apply prefix_app_r.
  - split; [|done]. intros _ [r ->].
    assert (drop_prefix p (p ++ r) = Some r) by by apply drop_prefix_spec. congruence.
Qed.

Lemma span_app p x y :
  Forall (λ a, p a = true) x → (∀ a y', y = a :: y' → p a = false) → span p (x ++ y) = (x, y).
Proof.
  intros Hx Hy. induction Hx as [|a x Ha Hx IH]; simpl.
  - destruct y as [|a y']; simpl; [done|]. by rewrite (Hy a y').
  - by rewrite Ha, IH.
Qed.

Lemma span_spec p l x y :
  span p l = (x, y) →
  l = x ++ y ∧ Forall (λ a, p a = true) x ∧ (∀ a y', y = a :: y' → p a = false).
Proof.
  revert x; induction l as [|a l IH]; simpl; intros x Hs.
  - injection Hs as <- <-. by repeat split.
  - destruct (p a) eqn:E.
    + destruct (span p l) as [x' y'] eqn:E'. injection Hs as <- <-.
      destruct (IH x' eq_refl) as (-> & ? & ?). by repeat split; [constructor|].
    + injection Hs as <- <-. repeat split; [constructor|naive_solver].
Qed.

(** ** Decimal numbers *)
Definition all_digits (l : list ascii) : Prop := Forall (λ a, is_digit a = true) l.
Definition int_of_chars (l : list ascii) : Z := foldl (λ n a, 10 * n + digit_val a) 0 l.

Lemma pretty_N_char_digit x :
  (x < 10)%N → is_digit (pretty_N_char x) = true ∧ digit_val (pretty_N_char x) = Z.of_N x.
Proof.
  intros. assert (x = 0 ∨ x = 1 ∨ x = 2 ∨ x = 3 ∨ x = 4 ∨ x = 5 ∨ x = 6 ∨ x = 7 ∨ x = 8
    ∨ x = 9)%N as Hx by lia. by destruct_or! Hx; subst.
Qed.

Lemma pretty_N_go_digits x s :
  ∃ ds, chars (pretty_N_go x s) = ds ++ chars s ∧ all_digits ds ∧
        int_of_chars ds = Z.of_N x ∧ ((0 < x)%N → ds ≠ []).
Proof.
  revert s. induction (N.lt_wf_0 x) as [x _ IH]; intros s.
  assert (x = 0 ∨ 0 < x)%N as [->|?] by lia.
  { exists []. repeat split; [constructor|lia]. }
  rewrite pretty_N_go_step by done.
  destruct (IH (x `div` 10)%N) with (String (pretty_N_char (x `mod` 10)) s)
    as (ds & Hds & Hdig & Hval & _); [by apply N.div_lt|].
  pose proof (pretty_N_char_digit (x `mod` 10) ltac:(by apply N.mod_lt)) as [Hd Hv].
  exists (ds ++ [pretty_N_char (x `mod` 10)]). rewrite Hds, <-app_assoc. split; [done|].
  split; [by apply Forall_app; split; [|apply Forall_singleton]|]. split.
  - unfold int_of_chars in *. rewrite foldl_app. simpl. rewrite Hval, Hv.
    rewrite (N.div_mod x 10) at 3 by done. lia.
  - by destruct ds.
Qed.

Lemma pretty_Z_digits z :
  0 ≤ z → chars (pretty z) ≠ [] ∧ all_digits (chars (pretty z)) ∧ int_of_digits (pretty z) = z.
Proof.
  unfold int_of_digits. intros Hz. destruct z as [|p|p]; [by repeat constructor| |lia].
  change (pretty (Z.pos p)) with (pretty_N_go (N.pos p) "").
  destruct (pretty_N_go_digits (N.pos p) "") as (ds & Hds & ? & ? & Hne).
  rewrite app_nil_r in Hds. rewrite Hds. repeat split; [by apply Hne|done|done].
Qed.

Lemma digit_val_nonneg a : is_digit a = true → 0 ≤ digit_val a.
Proof. unfold is_digit, digit_val. intros [H _]%andb_true_iff. apply Nat.leb_le in H. lia. Qed.

Lemma int_of_chars_nonneg l : all_digits l → 0 ≤ int_of_chars l.
Proof.
  unfold int_of_chars. intros Hl. cut (∀ n, 0 ≤ n → 0 ≤ foldl (λ n a, 10 * n + digit_val a) n l).
  { intros H. by apply H. }
  induction Hl as [|a l Ha Hl IH]; intros n Hn; simpl; [done|].
  apply IH. apply digit_val_nonneg in Ha. lia.
Qed.

Lemma digits1_app x y :
  x ≠ [] → all_digits x → (∀ a y', y = a :: y' → is_digit a = false) →
  digits1 (x ++ y) = Some (x, y).
Proof. intros. unfold digits1. rewrite span_app by done. by destruct x. Qed.

Lemma digits1_digits l x y : digits1 l = Some (x, y) → all_digits x.
Proof.
  unfold digits1. destruct (span is_digit l) as [u v] eqn:E.
  apply span_spec in E as (_ & Hu & _). by destruct u; intros [= <- <-].
Qed.

Lemma drop_prefix_app p r : drop_prefix p (p ++ r) = Some r.
Proof. by apply drop_prefix_spec. Qed.
Lemma digits1_pretty z y :
  0 ≤ z → (∀ a y', y = a :: y' → is_digit a = false) →
  digits1 (chars (pretty z) ++ y) = Some (chars (pretty z), y).
Proof. intros (? & ? & _)%pretty_Z_digits ?. by apply digits1_app. Qed.
