(* ===== verification/PyShlex.v ===== *)
(** * shlex.split
    The tokens of a command line, as [shlex.split] of the Python library finds
    them: POSIX rules, words at blanks, no comments. *)
From Stdlib Require Import Ascii.
From S2P Require Import Prelude PyStr.
#[local] Open Scope Z_scope.

Inductive shlex_state : Type :=
| SWhite
| SWord
| SQuote (quote : ascii)
| SEscape (escapedstate : option ascii). (** [None] goes back to the word *)

Definition shlex_white (a : ascii) : bool :=
  bool_decide (a = " "%char ∨ a = "009"%char ∨ a = "010"%char ∨ a = "013"%char).
Definition shlex_quote (a : ascii) : bool :=
  bool_decide (a = "'"%char ∨ a = "034"%char).

Fixpoint shlex_chars (st : shlex_state) (token : list ascii) (quoted : bool) (l : list ascii)
    : res (list string) :=
  let emit := if decide (token ≠ [] ∨ quoted = true) then [of_chars token] else [] in
  match st, l with
  | (SWhite | SWord), [] => Ok emit
  | SQuote _, [] => Err (ValueError "No closing quotation")
  | SEscape _, [] => Err (ValueError "No escaped character")
  | SWhite, a :: l =>
      if shlex_white a then shlex_chars SWhite token quoted l
      else if decide (a = "\"%char) then shlex_chars (SEscape None) token quoted l
      else if shlex_quote a then shlex_chars (SQuote a) token quoted l
      else shlex_chars SWord [a] quoted l
  | SWord, a :: l =>
      if shlex_white a then
        rest ← shlex_chars SWhite [] false l;
        Ok (emit ++ rest)
      else if shlex_quote a then shlex_chars (SQuote a) token quoted l
      else if decide (a = "\"%char) then shlex_chars (SEscape None) token quoted l
      else shlex_chars SWord (token ++ [a]) quoted l
  | SQuote q, a :: l =>
      if decide (a = q) then shlex_chars SWord token true l
      else if decide (a = "\"%char ∧ q = "034"%char) then shlex_chars (SEscape (Some q)) token true l
      else shlex_chars (SQuote q) (token ++ [a]) true l
  | SEscape None, a :: l => shlex_chars SWord (token ++ [a]) quoted l
  | SEscape (Some q), a :: l =>
      let token := if decide (a ≠ "\"%char ∧ a ≠ q) then token ++ ["\"%char] else token in
      shlex_chars (SQuote q) (token ++ [a]) quoted l
  end.
Definition shlex_split (s : string) : res (list string) := shlex_chars SWhite [] false (chars s).

