(* ===== verification/PyFormat.v ===== *)
(** * repr, the percent operator and str.format of Python strings
    What ['%r'] and [str] of a list show, [template % (arg,)] for one string
    argument, and [template.format] with keywords, as the messages, the command
    templates and the file templates of the tools use them.  Strings are ASCII. *)
From Stdlib Require Import Ascii.
From S2P Require Import Prelude PyStr PyRe.
#[local] Open Scope Z_scope.

Definition squote : ascii := "039"%char.
Definition dquote : ascii := "034"%char.

Definition hex_lower (n : Z) : ascii :=
  ascii_of_nat (Z.to_nat (if n <? 10 then n + 48 else n + 87)).
Definition repr_char (q a : ascii) : list ascii :=
  let n := Z.of_nat (nat_of_ascii a) in
  if decide (a = "\"%char ∨ a = q) then ["\"%char; a]
  else if n =? 9 then ["\"%char; "t"%char]
  else if n =? 10 then ["\"%char; "n"%char]
  else if n =? 13 then ["\"%char; "r"%char]
  else if (n <? 32) || (n =? 127) then ["\"%char; "x"%char; hex_lower (n / 16); hex_lower (n mod 16)]
  else [a].
(** [repr(s)]: in single quotes, or in double quotes if only those are free. *)
Definition repr_string (s : string) : string :=
  let q := if decide (squote ∈ chars s ∧ dquote ∉ chars s) then dquote else squote in
  of_chars ([q] ++ mjoin (repr_char q <$> chars s) ++ [q]).
Definition repr_list (l : list string) : string := "[" +:+ join ", " (repr_string <$> l) +:+ "]".

(** ** [template % (arg,)] *)
Definition is_flag (a : ascii) : bool := bool_decide (a ∈ chars "#0- +").
Definition is_length (a : ascii) : bool := bool_decide (a ∈ chars "hlL").
Definition pad (left : bool) (width : nat) (l : list ascii) : list ascii :=
  let fill := replicate (width - length l) " "%char in
  if left then l ++ fill else fill ++ l.

(** A conversion after its percent sign: what it shows, whether it takes the
    argument, and the rest of the template. *)
Definition conversion (arg : string) (l : list ascii) : res (list ascii * bool * list ascii) :=
  let '(flags, l) := span is_flag l in
  let '(width, l) := span is_digit l in
  let '(prec, l) :=
    match l with
    | a :: l' => if decide (a = "."%char) then let '(p, l') := span is_digit l' in (Some p, l')
                 else (None, l)
    | [] => (None, l)
    end in
  let l := match l with a :: l' => if is_length a then l' else l | [] => l end in
  let left := bool_decide ("-"%char ∈ flags) in
  let show s :=
    let s := match prec with Some p => take (Z.to_nat (int_of_digits (of_chars p))) s | None => s end in
    pad left (Z.to_nat (int_of_digits (of_chars width))) s in
  match l with
  | [] => Err (ValueError "incomplete format")
  | a :: l =>
      if decide (a = "%"%char) then Ok (["%"%char], false, l)
      else if decide (a = "s"%char) then Ok (show (chars arg), true, l)
      else if decide (a = "r"%char) then Ok (show (chars (repr_string arg)), true, l)
      else if decide (a = "c"%char ∧ String.length arg = 1%nat) then Ok (show (chars arg), true, l)
      else if decide (a ∈ chars "diouxXeEfFgGc*(") then Err TypeError
      else Err (ValueError "unsupported format character")
  end.

(** [used] tells that the argument has been taken. *)
Fixpoint percent_loop (fuel : nat) (arg : string) (used : bool) (l : list ascii) : res (list ascii) :=
  match fuel, l with
  | O, _ | _, [] => if used then Ok [] else Err TypeError
  | S fuel, a :: l =>
      if decide (a = "%"%char) then
        '(out, takes, l) ← conversion arg l;
        if (takes && used)%bool then Err TypeError
        else rest ← percent_loop fuel arg (used || takes) l; Ok (out ++ rest)
      else rest ← percent_loop fuel arg used l; Ok (a :: rest)
  end.
(** Every turn consumes a character: the length of the template is enough. *)
Definition percent (template arg : string) : res string :=
  of_chars <$> percent_loop (S (String.length template)) arg false (chars template).

Example percent_ex :
  (percent "gdb --args %s" "/b/x", percent "%-5s|" "ab", percent "100%% %r" "a", percent "none" "a") =
  (Ok "gdb --args /b/x", Ok "ab   |", Ok "100% 'a'", Err TypeError).
Proof. vm_compute. reflexivity. Qed.

Lemma percent_loop_plain fuel arg used l :
  "%"%char ∉ l → (length l < fuel)%nat →
  percent_loop fuel arg used l = if used then Ok l else Err TypeError.
Proof.
  revert fuel. induction l as [|a l IH]; intros fuel Hl Hf; (destruct fuel as [|fuel]; [simpl in Hf; lia|]);
    simpl; [done|].
  apply not_elem_of_cons in Hl as [Ha Hl]. rewrite decide_False by done. simpl in Hf.
  rewrite IH by (done || lia). by destruct used.
Qed.
Lemma percent_loop_app fuel arg used l k :
  "%"%char ∉ l → (length l ≤ fuel)%nat →
  percent_loop fuel arg used (l ++ k) =
    (rest ← percent_loop (fuel - length l) arg used k; Ok (l ++ rest)).
Proof.
  revert fuel. induction l as [|a l IH]; intros fuel Hl Hf; simpl.
  { rewrite Nat.sub_0_r. by destruct (percent_loop _ _ _ k). }
  destruct fuel as [|fuel]; [simpl in Hf; lia|]. simpl.
  apply not_elem_of_cons in Hl as [Ha Hl]. rewrite decide_False by done. simpl in Hf.
  rewrite IH by (done || lia). by destruct (percent_loop _ _ _ k).
Qed.

Lemma percent_loop_s fuel arg l :
  percent_loop (S fuel) arg false ("%"%char :: "s"%char :: l) =
    (rest ← percent_loop fuel arg true l; Ok (chars arg ++ rest)).
Proof. reflexivity. Qed.

(** A template with one [%s]. *)
Lemma percent_s pre post arg :
  "%"%char ∉ chars pre → "%"%char ∉ chars post →
  percent (pre +:+ "%s" +:+ post) arg = Ok (pre +:+ arg +:+ post).
Proof.
  intros Hpre Hpost. unfold percent. rewrite !chars_app.
  rewrite <-(length_chars (pre +:+ "%s" +:+ post)), !chars_app, !length_app.
  rewrite percent_loop_app by (done || lia).
  change (chars "%s" ++ chars post) with ("%"%char :: "s"%char :: chars post).
  replace (S (length (chars pre) + (length (chars "%s") + length (chars post))) - length (chars pre))%nat
    with (S (S (S (length (chars post))))) by (simpl; lia).
  rewrite percent_loop_s, percent_loop_plain by (done || lia). simpl.
  by rewrite !of_chars_app, !of_chars_chars.
Qed.

(** ** [template.format( ** kwargs)]
    A template is its literal text and its replacement fields, a keyword with
    or without a conversion.  Positional fields, attributes, indices, format
    specifications and nested fields, which no template of the tools has, are
    not parsed. *)
Inductive segment : Type :=
| Lit (l : list ascii)
| Field (name : string) (conv : option ascii)
| Bad (msg : string).

Definition cons_lit (a : ascii) (segs : list segment) : list segment :=
  match segs with
  | Lit l :: segs => Lit (a :: l) :: segs
  | _ => Lit [a] :: segs
  end.
Definition parse_field (body : list ascii) : segment :=
  if existsb (λ a, bool_decide (a ∈ chars ".[:{")) body then Bad "field not supported"
  else match split1_chars "!" body with
       | (name, None) => Field (of_chars name) None
       | (name, Some [c]) => Field (of_chars name) (Some c)
       | _ => Bad "expected ':' after conversion specifier"
       end.
Fixpoint format_parse (fuel : nat) (l : list ascii) : list segment :=
  match fuel, l with
  | O, _ | _, [] => []
  | S fuel, a :: l =>
      if decide (a = "{"%char) then
        match l with
        | [] => [Bad "Single '{' encountered in format string"]
        | b :: l' =>
            if decide (b = "{"%char) then cons_lit a (format_parse fuel l')
            else match split1_chars "}" l with
                 | (body, Some rest) => parse_field body :: format_parse fuel rest
                 | (_, None) => [Bad "expected '}' before end of string"]
                 end
        end
      else if decide (a = "}"%char) then
        match l with
        | b :: l' => if decide (b = "}"%char) then cons_lit a (format_parse fuel l')
                     else [Bad "Single '}' encountered in format string"]
        | [] => [Bad "Single '}' encountered in format string"]
        end
      else cons_lit a (format_parse fuel l)
  end.
Definition show_field (v : string) (conv : option ascii) : res string :=
  match conv with
  | None => Ok v
  | Some c =>
      if decide (c = "s"%char) then Ok v
      else if decide (c ∈ chars "ra") then Ok (repr_string v)
      else Err (ValueError "Unknown conversion specifier")
  end.
(** The fields are filled from left to right. *)
Fixpoint render (kwargs : list (string * string)) (segs : list segment) : res string :=
  match segs with
  | [] => Ok ""
  | Lit l :: segs => rest ← render kwargs segs; Ok (of_chars l +:+ rest)
  | Bad msg :: _ => Err (ValueError msg)
  | Field name conv :: segs =>
      match dict_get kwargs name with
      | None => Err KeyError
      | Some v =>
          shown ← show_field v conv;
          rest ← render kwargs segs; Ok (shown +:+ rest)
      end
  end.
(** Every turn consumes a character: the length of the template is enough. *)
Definition format_template (template : string) : list segment :=
  format_parse (String.length template) (chars template).
Definition py_format (template : string) (kwargs : list (string * string)) : res string :=
  render kwargs (format_template template).

Example py_format_ex :
  (py_format "class {A} {{ {B!r}; }}" [("A", "X"); ("B", "y")], py_format "{C}" [],
   py_format "a } b" []) =
  (Ok "class X { 'y'; }", Err KeyError, Err (ValueError "Single '}' encountered in format string")).
Proof. vm_compute. reflexivity. Qed.

(** A literal text in front of a parsed template. *)
Lemma format_parse_cons_lit fuel a l :
  a ≠ "{"%char → a ≠ "}"%char →
  format_parse (S fuel) (a :: l) = cons_lit a (format_parse fuel l).
Proof. intros. simpl. by rewrite !decide_False. Qed.

(** Escaping the braces of a text and formatting it gives the text. *)
Definition escape_braces (l : list ascii) : list ascii :=
  mjoin ((λ a, if decide (a = "{"%char ∨ a = "}"%char) then [a; a] else [a]) <$> l).
Lemma render_cons_lit kwargs a segs :
  render kwargs (cons_lit a segs) = (String a) <$> render kwargs segs.
Proof.
  destruct segs as [|[l|name conv|msg] segs]; simpl; try done.
  by destruct (render kwargs segs).
Qed.
Lemma render_escaped kwargs l fuel :
  (length (escape_braces l) ≤ fuel)%nat →
  render kwargs (format_parse fuel (escape_braces l)) = Ok (of_chars l).
Proof.
  revert fuel. induction l as [|a l IH]; intros fuel Hf.
  - by destruct fuel.
  - change (escape_braces (a :: l)) with
      ((if decide (a = "{"%char ∨ a = "}"%char) then [a; a] else [a]) ++ escape_braces l) in *.
    rewrite length_app in Hf.
    destruct (decide (a = "{"%char ∨ a = "}"%char)) as [Ha|Ha]; cbn [length app] in *.
    + destruct fuel as [|fuel]; [lia|].
      destruct Ha as [-> | ->]; simpl; rewrite render_cons_lit, IH by lia; done.
    + destruct fuel as [|fuel]; [lia|]. rewrite format_parse_cons_lit by naive_solver.
      rewrite render_cons_lit, IH by lia. done.
Qed.
