(* ===== verification/PyNum.v ===== *)
(** * Numbers of Python 2
    The values that [int] (unbounded) and [float] (binary64) expressions take:
    mixed arithmetic converts to [float], [/] on two ints is the floor division
    of Python 2, comparisons are exact on the values.  The floating-point
    operations are those of the Standard Library's [SpecFloat]. *)
From Stdlib Require Import SpecFloat.
From S2P Require Import Prelude.
#[local] Open Scope Z_scope.

Inductive num : Type :=
| PInt (z : Z)
| PFloat (f : spec_float).

#[export] Instance spec_float_eq_dec : EqDecision spec_float.
Proof. intros x y. unfold Decision. decide equality; solve [apply bool_dec | apply Pos.eq_dec | apply Z.eq_dec]. Defined.
#[export] Instance num_eq_dec : EqDecision num.
Proof. solve_decision. Defined.

Definition OverflowError : exn := PyException "OverflowError".

(** ** Conversions *)
Definition prec64 : Z := 53.
Definition emax64 : Z := 1024.
Definition float_of_Z (z : Z) : spec_float := binary_normalize prec64 emax64 z 0 false.
(** [float(x)] *)
Definition as_float (x : num) : res spec_float :=
  match x with
  | PFloat f => Ok f
  | PInt z => match float_of_Z z with S754_infinity _ => Err OverflowError | f => Ok f end
  end.
Definition py_float (x : num) : res num := PFloat <$> as_float x.

Definition cond_opp (s : bool) (z : Z) : Z := if s then - z else z.
(** [int(x)]: towards zero. *)
Definition py_int (x : num) : res Z :=
  match x with
  | PInt z => Ok z
  | PFloat (S754_zero _) => Ok 0
  | PFloat (S754_finite s m e) =>
      Ok (cond_opp s (if 0 <=? e then Z.pos m * 2 ^ e else Z.pos m / 2 ^ (- e)))
  | PFloat (S754_infinity _) => Err OverflowError
  | PFloat S754_nan => Err (ValueError "cannot convert float NaN to integer")
  end.

(** ** Arithmetic *)
Definition num_op (zop : Z → Z → Z) (fop : spec_float → spec_float → spec_float)
    (a b : num) : res num :=
  match a, b with
  | PInt x, PInt y => Ok (PInt (zop x y))
  | _, _ => x ← as_float a; y ← as_float b; Ok (PFloat (fop x y))
  end.
Definition num_add : num → num → res num := num_op Z.add (SFadd prec64 emax64).
Definition num_sub : num → num → res num := num_op Z.sub (SFsub prec64 emax64).
Definition num_mul : num → num → res num := num_op Z.mul (SFmul prec64 emax64).

Definition is_zero (x : num) : bool :=
  match x with PInt z => z =? 0 | PFloat (S754_zero _) => true | _ => false end.
Definition num_div (a b : num) : res num :=
  match a, b with
  | PInt x, PInt y => if y =? 0 then Err ZeroDivisionError else Ok (PInt (x / y))
  | _, _ =>
      x ← as_float a; y ← as_float b;
      if is_zero (PFloat y) then Err ZeroDivisionError else Ok (PFloat (SFdiv prec64 emax64 x y))
  end.

(** The float remainder: the exact remainder of the C library, which has the
    sign of the dividend, then one addition when the signs differ. *)
Definition float_fmod (x y : spec_float) : spec_float :=
  match x, y with
  | S754_finite sx mx ex, S754_finite _ my ey =>
      let e := Z.min ex ey in
      let r := (Z.pos mx * 2 ^ (ex - e)) `rem` (Z.pos my * 2 ^ (ey - e)) in
      binary_normalize prec64 emax64 (cond_opp sx r) e sx
  | S754_zero _, S754_finite _ _ _ | S754_zero _, S754_infinity _
  | S754_finite _ _ _, S754_infinity _ => x
  | _, _ => S754_nan
  end.
Definition float_sign (x : spec_float) : bool :=
  match x with
  | S754_zero s | S754_infinity s | S754_finite s _ _ => s
  | S754_nan => false
  end.
Definition float_mod (x y : spec_float) : spec_float :=
  match float_fmod x y with
  | S754_zero _ => S754_zero (float_sign y)
  | S754_nan => S754_nan
  | r => if xorb (float_sign y) (float_sign r) then SFadd prec64 emax64 r y else r
  end.
Definition num_mod (a b : num) : res num :=
  match a, b with
  | PInt x, PInt y => if y =? 0 then Err ZeroDivisionError else Ok (PInt (x mod y))
  | _, _ =>
      x ← as_float a; y ← as_float b;
      if is_zero (PFloat y) then Err ZeroDivisionError else Ok (PFloat (float_mod x y))
  end.
Definition num_neg (x : num) : num :=
  match x with PInt z => PInt (- z) | PFloat f => PFloat (SFopp f) end.
Definition num_abs (x : num) : num :=
  match x with PInt z => PInt (Z.abs z) | PFloat f => PFloat (SFabs f) end.

(** ** Comparisons *)
Inductive ext : Type := NaN | Inf (neg : bool) | Fin (m e : Z).
Definition num_val (x : num) : ext :=
  match x with
  | PInt z => Fin z 0
  | PFloat (S754_zero _) => Fin 0 0
  | PFloat (S754_infinity s) => Inf s
  | PFloat S754_nan => NaN
  | PFloat (S754_finite s m e) => Fin (cond_opp s (Z.pos m)) e
  end.
Definition num_cmp (a b : num) : option comparison :=
  match num_val a, num_val b with
  | NaN, _ | _, NaN => None
  | Inf true, Inf true | Inf false, Inf false => Some Eq
  | Inf s, _ => Some (if s then Lt else Gt)
  | _, Inf s => Some (if s then Gt else Lt)
  | Fin m1 e1, Fin m2 e2 =>
      let e := Z.min e1 e2 in Some (m1 * 2 ^ (e1 - e) ?= m2 * 2 ^ (e2 - e))
  end.
Definition nlt (a b : num) : bool := match num_cmp a b with Some Lt => true | _ => false end.
Definition nle (a b : num) : bool :=
  match num_cmp a b with Some Lt | Some Eq => true | _ => false end.
Definition neqb (a b : num) : bool := match num_cmp a b with Some Eq => true | _ => false end.
Definition ngt (a b : num) : bool := match num_cmp a b with Some Gt => true | _ => false end.
Definition nge (a b : num) : bool :=
  match num_cmp a b with Some Gt | Some Eq => true | _ => false end.

(** [min(a, b)] and [max(a, b)]: the first of two equal arguments. *)
Definition py_min (a b : num) : num := if nlt b a then b else a.
Definition py_max (a b : num) : num := if ngt b a then b else a.

(** [range(start, stop, step)], a list in Python 2. *)
Definition py_range (start stop step : Z) : res (list Z) :=
  if step =? 0 then Err (ValueError "range() step argument must not be zero")
  else
    let n := if 0 <? step then (stop - start + step - 1) / step
             else (start - stop - step - 1) / (- step) in
    Ok ((λ i, start + i * step) <$> seqZ 0 (Z.max 0 n)).

(** ** Expressions: operands from left to right, the first exception wins *)
Declare Scope num_scope.
Delimit Scope num_scope with num.
Definition lift2 {A B C} (f : A → B → res C) (a : res A) (b : res B) : res C :=
  x ← a; y ← b; f x y.
(** An operand: a value, or an expression that is evaluated first. *)
Class ToNum (A : Type) := to_num : A → res num.
#[export] Instance num_to_num : ToNum num := Ok.
#[export] Instance res_to_num : ToNum (res num) := id.
Notation "# z" := (PInt z%Z) (at level 1, format "# z").
Section operators.
Context {A B : Type} `{ToNum A, ToNum B}.
Definition nadd (a : A) (b : B) : res num := lift2 num_add (to_num a) (to_num b).
Definition nsub (a : A) (b : B) : res num := lift2 num_sub (to_num a) (to_num b).
Definition nmul (a : A) (b : B) : res num := lift2 num_mul (to_num a) (to_num b).
Definition ndiv (a : A) (b : B) : res num := lift2 num_div (to_num a) (to_num b).
Definition nmod (a : A) (b : B) : res num := lift2 num_mod (to_num a) (to_num b).
End operators.
Infix "+" := nadd : num_scope.
Infix "-" := nsub : num_scope.
Infix "*" := nmul : num_scope.
Infix "/" := ndiv : num_scope.
Infix "mod" := nmod : num_scope.

(** ** The order of the values *)
Definition is_nan (x : num) : bool := match num_val x with NaN => true | _ => false end.
Definition is_finite (x : num) : bool := match num_val x with Fin _ _ => true | _ => false end.

(** All the values on one scale: a class (minus infinity, finite, plus
    infinity) and the mantissa at the exponent [- k]. *)
Definition num_exp (x : num) : Z := match num_val x with Fin _ e => e | _ => 0 end.
Definition num_class (x : num) : Z :=
  match num_val x with Inf true => -1 | Inf false => 1 | _ => 0 end.
Definition num_scaled (k : Z) (x : num) : Z :=
  match num_val x with Fin m e => m * 2 ^ (e + k) | _ => 0 end.
Definition key_cmp (k : Z) (a b : num) : comparison :=
  match num_class a ?= num_class b with
  | Eq => num_scaled k a ?= num_scaled k b
  | c => c
  end.

Lemma num_cmp_key k a b :
  is_nan a = false → is_nan b = false → 0 ≤ num_exp a + k → 0 ≤ num_exp b + k →
  num_cmp a b = Some (key_cmp k a b).
Proof.
  unfold is_nan, num_exp, num_cmp, key_cmp, num_class, num_scaled.
  destruct (num_val a) as [|[]|m1 e1], (num_val b) as [|[]|m2 e2]; intros; try done.
  simpl. apply (f_equal Some). assert (∃ e, e = Z.min e1 e2) as [e He] by eauto. rewrite <-He.
  replace (e1 + k) with (e1 - e + (e + k)) by lia.
  replace (e2 + k) with (e2 - e + (e + k)) by lia.
  rewrite (Z.pow_add_r 2 (e1 - e)), (Z.pow_add_r 2 (e2 - e)) by lia. rewrite !Z.mul_assoc.
  apply Zmult_compare_compat_r. pose proof (Z.pow_pos_nonneg 2 (e + k)). lia.
Qed.

Lemma num_cmp_nan a b : is_nan a = true ∨ is_nan b = true ↔ num_cmp a b = None.
Proof.
  unfold is_nan, num_cmp. destruct (num_val a) as [|[]|], (num_val b) as [|[]|]; naive_solver.
Qed.

Lemma nlt_not_nan a b : nlt a b = true → is_nan a = false ∧ is_nan b = false.
Proof.
  unfold nlt. intros H. split; apply not_true_iff_false; intros Hn;
    rewrite (proj1 (num_cmp_nan a b)) in H by auto; done.
Qed.
Lemma nle_not_nan a b : nle a b = true → is_nan a = false ∧ is_nan b = false.
Proof.
  unfold nle. intros H. split; apply not_true_iff_false; intros Hn;
    rewrite (proj1 (num_cmp_nan a b)) in H by auto; done.
Qed.

(** The order on one common scale for three numbers. *)
Lemma num_scale3 a b c :
  is_nan a = false → is_nan b = false → is_nan c = false →
  ∃ k, num_cmp a b = Some (key_cmp k a b) ∧ num_cmp b c = Some (key_cmp k b c) ∧
       num_cmp a c = Some (key_cmp k a c).
Proof.
  intros. exists (Z.abs (num_exp a) + Z.abs (num_exp b) + Z.abs (num_exp c)).
  repeat split; apply num_cmp_key; auto; lia.
Qed.

Lemma key_cmp_lt k a b : key_cmp k a b = Lt ↔
  num_class a < num_class b ∨ (num_class a = num_class b ∧ num_scaled k a < num_scaled k b).
Proof. unfold key_cmp. destruct (Z.compare_spec (num_class a) (num_class b)); rewrite ?Z.compare_lt_iff; intuition (try done; try lia). Qed.
Lemma key_cmp_eq k a b : key_cmp k a b = Eq ↔
  num_class a = num_class b ∧ num_scaled k a = num_scaled k b.
Proof. unfold key_cmp. destruct (Z.compare_spec (num_class a) (num_class b)); rewrite ?Z.compare_eq_iff; intuition (try done; try lia). Qed.
Lemma key_cmp_gt k a b : key_cmp k a b = Gt ↔
  num_class b < num_class a ∨ (num_class a = num_class b ∧ num_scaled k b < num_scaled k a).
Proof. unfold key_cmp. destruct (Z.compare_spec (num_class a) (num_class b)); rewrite ?Z.compare_gt_iff; intuition (try done; try lia). Qed.

Lemma nlt_key k a b : num_cmp a b = Some (key_cmp k a b) →
  nlt a b = true ↔ num_class a < num_class b ∨
    (num_class a = num_class b ∧ num_scaled k a < num_scaled k b).
Proof. intros H. unfold nlt. rewrite H, <-key_cmp_lt. destruct (key_cmp k a b); naive_solver. Qed.
Lemma ngt_key k a b : num_cmp a b = Some (key_cmp k a b) →
  ngt a b = true ↔ num_class b < num_class a ∨
    (num_class a = num_class b ∧ num_scaled k b < num_scaled k a).
Proof. intros H. unfold ngt. rewrite H, <-key_cmp_gt. destruct (key_cmp k a b); naive_solver. Qed.
Lemma nle_key k a b : num_cmp a b = Some (key_cmp k a b) →
  nle a b = true ↔ num_class a < num_class b ∨
    (num_class a = num_class b ∧ num_scaled k a ≤ num_scaled k b).
Proof.
  intros H. unfold nle. rewrite H. pose proof (key_cmp_lt k a b) as Hl.
  pose proof (key_cmp_eq k a b) as He. pose proof (key_cmp_gt k a b) as Hg.
  destruct (key_cmp k a b); split; try done; intros; intuition (try done; try lia).
Qed.

(** Decides the goal from comparisons of (at most) three numbers. *)
Ltac num_order a b c :=
  let k := fresh "k" in let Hab := fresh in let Hbc := fresh in let Hac := fresh in
  destruct (num_scale3 a b c) as (k & Hab & Hbc & Hac);
  [first [done | match goal with
    | H : nle _ _ = true |- _ => by destruct (nle_not_nan _ _ H)
    | H : nlt _ _ = true |- _ => by destruct (nlt_not_nan _ _ H) end] ..|];
  rewrite ?(nle_key k), ?(nlt_key k), ?(ngt_key k) in * by done; try lia.

Lemma nle_trans a b c : nle a b = true → nle b c = true → nle a c = true.
Proof. intros H1 H2. num_order a b c. Qed.
Lemma nlt_le_trans a b c : nlt a b = true → nle b c = true → nlt a c = true.
Proof. intros H1 H2. num_order a b c. Qed.
Lemma nle_lt_trans a b c : nle a b = true → nlt b c = true → nlt a c = true.
Proof. intros H1 H2. num_order a b c. Qed.
Lemma nlt_le a b : nlt a b = true → nle a b = true.
Proof. unfold nlt, nle. destruct (num_cmp a b) as [[]|]; done. Qed.
Lemma nle_refl a : is_nan a = false → nle a a = true.
Proof. intros H. num_order a a a. Qed.
Lemma nlt_irrefl a : nlt a a = false.
Proof.
  destruct (nlt a a) eqn:E; [|done]. destruct (nlt_not_nan _ _ E).
  num_order a a a.
Qed.
Lemma ngt_lt a b : ngt a b = nlt b a.
Proof.
  destruct (is_nan a) eqn:Ea, (is_nan b) eqn:Eb;
    try (unfold ngt, nlt; rewrite !(proj1 (num_cmp_nan _ _)) by auto; done).
  apply eq_bool_prop_intro. rewrite !Is_true_true. 
  destruct (num_scale3 a b a) as (k & H1 & H2 & _); [done..|].
  rewrite (ngt_key k), (nlt_key k) by done. lia.
Qed.
Lemma nge_le a b : nge a b = nle b a.
Proof.
  destruct (is_nan a) eqn:Ea, (is_nan b) eqn:Eb;
    try (unfold nge, nle; rewrite !(proj1 (num_cmp_nan _ _)) by auto; done).
  apply eq_bool_prop_intro. rewrite !Is_true_true.
  destruct (num_scale3 a b a) as (k & H1 & H2 & _); [done..|].
  rewrite (nle_key k) by done. unfold nge. rewrite H1.
  pose proof (key_cmp_lt k a b) as Hl.
  pose proof (key_cmp_eq k a b) as He. pose proof (key_cmp_gt k a b) as Hg.
  destruct (key_cmp k a b); split; try done; intros; intuition (try done; try lia).
Qed.
(** On numbers that are not NaN the order is total. *)
Lemma nlt_nle a b : is_nan a = false → is_nan b = false → nlt a b = negb (nle b a).
Proof.
  intros Ha Hb. apply eq_bool_prop_intro. rewrite negb_True, !Is_true_true.
  destruct (num_scale3 a b a) as (k & H1 & H2 & _); [done..|].
  rewrite (nlt_key k), (nle_key k) by done. lia.
Qed.

(** What [max] and [min] guarantee when the first argument is a number, even
    if the second one is NaN. *)
Lemma py_max_ge a b : is_nan a = false → nle a (py_max a b) = true.
Proof.
  intros Ha. unfold py_max. rewrite ngt_lt. destruct (nlt a b) eqn:E.
  - by apply nlt_le.
  - by apply nle_refl.
Qed.
Lemma py_min_le a b : is_nan a = false → nle (py_min a b) a = true.
Proof.
  intros Ha. unfold py_min. destruct (nlt b a) eqn:E.
  - by apply nlt_le.
  - by apply nle_refl.
Qed.

Lemma nle_int x y : nle (PInt x) (PInt y) = (x <=? y).
Proof.
  unfold nle, num_cmp. simpl. rewrite !Z.mul_1_r. unfold Z.leb. by destruct (x ?= y).
Qed.
Lemma nlt_int x y : nlt (PInt x) (PInt y) = (x <? y).
Proof.
  unfold nlt, num_cmp. simpl. rewrite !Z.mul_1_r. unfold Z.ltb. by destruct (x ?= y).
Qed.
#[export] Hint Rewrite nle_int nlt_int : py.

(** ** Expressions on values *)
Lemma nadd_int x y : nadd (PInt x) (PInt y) = Ok (PInt (x + y)).
Proof. done. Qed.
Lemma nsub_int x y : nsub (PInt x) (PInt y) = Ok (PInt (x - y)).
Proof. done. Qed.
Lemma nmul_int x y : nmul (PInt x) (PInt y) = Ok (PInt (x * y)).
Proof. done. Qed.
Lemma nmod_int x y : y ≠ 0 → nmod (PInt x) (PInt y) = Ok (PInt (x mod y)).
Proof. intros Hy%Z.eqb_neq. unfold nmod, lift2. simpl. by rewrite Hy. Qed.
Lemma ndiv_int x y : y ≠ 0 → ndiv (PInt x) (PInt y) = Ok (PInt (x / y)).
Proof. intros Hy%Z.eqb_neq. unfold ndiv, lift2. simpl. by rewrite Hy. Qed.

(** Once the operands have their values, the expression is on values. *)
Section operands.
Context {A B : Type} `{ToNum A, ToNum B}.
Lemma nadd_ok_l (a : num) (b : B) : nadd (Ok a : res num) b = nadd a b.
Proof. done. Qed.
Lemma nsub_ok_l (a : num) (b : B) : nsub (Ok a : res num) b = nsub a b.
Proof. done. Qed.
Lemma nsub_ok_r (a : A) (b : num) : nsub a (Ok b : res num) = nsub a b.
Proof. done. Qed.
Lemma nadd_ok_r (a : A) (b : num) : nadd a (Ok b : res num) = nadd a b.
Proof. done. Qed.
End operands.
Create Rewrite HintDb num.
#[export] Hint Rewrite nadd_int nsub_int nmul_int @nadd_ok_l @nsub_ok_l @nsub_ok_r @nadd_ok_r : num.

(** ** Converting an int gives a number *)
Lemma shr_1_nonneg r : 0 ≤ shr_m r → 0 ≤ shr_m (shr_1 r).
Proof. destruct r as [[|[p|p|]|p] b s]; simpl; lia. Qed.
Lemma iter_pos_nonneg n r : 0 ≤ shr_m r → 0 ≤ shr_m (SpecFloat.iter_pos shr_1 n r).
Proof. revert r. induction n; simpl; auto using shr_1_nonneg. Qed.
Lemma shr_fexp_nonneg m e l : 0 ≤ m → 0 ≤ shr_m (shr_fexp prec64 emax64 m e l).1.
Proof.
  intros Hm. unfold shr_fexp, shr.
  assert (0 ≤ shr_m (shr_record_of_loc m l)) by (by destruct l as [|[]]).
  destruct (_ - e); simpl; auto using iter_pos_nonneg.
Qed.
Lemma round_nonneg m l : 0 ≤ m → 0 ≤ round_nearest_even m l.
Proof. destruct l as [|[]]; simpl; try lia. destruct (Z.even m); lia. Qed.

Lemma binary_round_aux_not_nan s m e l :
  0 ≤ m → binary_round_aux prec64 emax64 s m e l ≠ S754_nan.
Proof.
  intros Hm. unfold binary_round_aux.
  pose proof (shr_fexp_nonneg m e l Hm) as H1.
  destruct (shr_fexp _ _ m e l) as [r1 e1]. simpl in H1.
  pose proof (shr_fexp_nonneg _ e1 loc_Exact (round_nonneg _ (loc_of_shr_record r1) H1)) as H2.
  destruct (shr_fexp _ _ (round_nearest_even _ _) e1 loc_Exact) as [r2 e2]. simpl in H2.
  destruct (shr_m r2); [done| |lia]. by destruct (_ <=? _).
Qed.
Lemma float_of_Z_not_nan z : float_of_Z z ≠ S754_nan.
Proof.
  unfold float_of_Z, binary_normalize. destruct z as [|p|p]; [done|..]; unfold binary_round;
    destruct (shl_align _ _ _); by apply binary_round_aux_not_nan.
Qed.
Lemma py_float_int_not_nan z x : py_float (PInt z) = Ok x → is_nan x = false.
Proof.
  unfold py_float, as_float. pose proof (float_of_Z_not_nan z).
  destruct (float_of_Z z) eqn:E; simpl; intros [= <-]; done.
Qed.

(** Rounding keeps the sign. *)
Definition signed (s : bool) (f : spec_float) : Prop :=
  match f with S754_zero s' | S754_infinity s' | S754_finite s' _ _ => s' = s | S754_nan => False end.
Lemma binary_round_aux_sign s m e l : 0 ≤ m → signed s (binary_round_aux prec64 emax64 s m e l).
Proof.
  intros Hm. pose proof (binary_round_aux_not_nan s m e l Hm) as Hn. revert Hn. unfold binary_round_aux.
  destruct (shr_fexp _ _ m e l) as [r1 e1].
  destruct (shr_fexp _ _ (round_nearest_even _ _) e1 loc_Exact) as [r2 e2].
  destruct (shr_m r2); [done| |done]. by destruct (_ <=? _).
Qed.
Lemma float_of_Z_sign z : z ≠ 0 → signed (z <? 0) (float_of_Z z).
Proof.
  unfold float_of_Z, binary_normalize. destruct z as [|p|p]; [done|..]; intros _; unfold binary_round;
    destruct (shl_align _ _ _); by apply binary_round_aux_sign.
Qed.
Lemma signed_nle s f : signed s f →
  if s then nle (PFloat f) (PInt 0) = true else nle (PInt 0) (PFloat f) = true.
Proof.
  destruct f as [s'|s'| |s' m e]; [..|done|]; simpl; intros ->; destruct s; try done;
    unfold nle, num_cmp; simpl.
  - pose proof (Z.pow_nonneg 2 (e - Z.min e 0)). rewrite Z.mul_0_l.
    set (x := 2 ^ (e - _)) in *. destruct (Z.compare_spec (- Z.pos m * x) 0); [done..|exfalso; nia].
  - pose proof (Z.pow_nonneg 2 (e - Z.min 0 e)). set (x := 2 ^ _) in *.
    destruct (Z.pos m * x) eqn:E; [done|done|exfalso; nia].
Qed.
(** The conversion of an int keeps its side of zero. *)
Lemma py_float_int_sign z x : py_float (PInt z) = Ok x →
  (z ≤ 0 → nle x (PInt 0) = true) ∧ (0 ≤ z → nle (PInt 0) x = true).
Proof.
  unfold py_float, as_float. destruct (decide (z = 0)) as [->|Hz].
  { simpl. by intros [= <-]. }
  pose proof (signed_nle _ _ (float_of_Z_sign z Hz)) as Hs.
  destruct (float_of_Z z) eqn:E; simpl; intros [= <-]; destruct (Z.ltb_spec z 0); split; intros; try done; lia.
Qed.
