(* ===== verification/PyFloat.v ===== *)
(** * Binary64 floats of Python 3: arithmetic, reading and printing
    The operations of [SpecFloat] at binary64 with the exceptions of Python,
    [float(s)] of a text, correctly rounded, and the fixed-point conversion of
    the percent operator, which rounds the exact value half to even. *)
From Stdlib Require Import Ascii SpecFloat.
From S2P Require Import Prelude PyStr PyRe PyNum.
#[local] Open Scope Z_scope.

Definition float : Type := spec_float.
#[export] Instance float_eq_dec : EqDecision float := spec_float_eq_dec.

Definition fzero : float := S754_zero false.
Definition fadd : float → float → float := SFadd prec64 emax64.
Definition fsub : float → float → float := SFsub prec64 emax64.
Definition fmul : float → float → float := SFmul prec64 emax64.
Definition fneg : float → float := SFopp.
Definition is_zero_float (x : float) : bool := match x with S754_zero _ => true | _ => false end.
Definition fdiv (x y : float) : res float :=
  if is_zero_float y then Err ZeroDivisionError else Ok (SFdiv prec64 emax64 x y).
Definition flt (x y : float) : bool := nlt (PFloat x) (PFloat y).
Definition fle (x y : float) : bool := nle (PFloat x) (PFloat y).
Definition feqb (x y : float) : bool := neqb (PFloat x) (PFloat y).
(** [min(x, y)] and [max(x, y)] *)
Definition fmin (x y : float) : float := if flt y x then y else x.
Definition fmax (x y : float) : float := if flt x y then y else x.
Definition float_int (z : Z) : float := float_of_Z z.

(** The float nearest to [n / d], for positive [n] and [d]: enough bits of the
    quotient, and one that says whether something is left. *)
Definition float_ratio (neg : bool) (n d : Z) : float :=
  let s := Z.max 0 (66 + Z.log2 d - Z.log2 n) in
  let q := n * 2 ^ s / d in
  let sticky := if decide ((n * 2 ^ s) mod d = 0) then 0 else 1 in
  binary_normalize prec64 emax64 (cond_opp neg (2 * q + sticky)) (- (s + 1)) neg.
(** The float nearest to [m * 10 ^ k]; a literal of the sources. *)
Definition float_dec (neg : bool) (m k : Z) : float :=
  if decide (m = 0) then S754_zero neg
  else if 0 <=? k then binary_normalize prec64 emax64 (cond_opp neg (m * 10 ^ k)) 0 neg
  else float_ratio neg m (10 ^ (- k)).
Definition lit (m k : Z) : float := float_dec false m k.

Example lit_tenth : lit 1 (-1) = S754_finite false 7205759403792794 (-56).
Proof. vm_compute. reflexivity. Qed.
Example lit_nano : lit 1 (-9) = S754_finite false 4835703278458517 (-82).
Proof. vm_compute. reflexivity. Qed.

(** ** float(s) *)

(** A run of digits with single underscores between them. *)
Fixpoint digit_part (l : list ascii) : list ascii * list ascii :=
  match l with
  | [] => ([], [])
  | a :: l' =>
      if is_digit a then
        let '(ds, r) :=
          match l' with
          | u :: l2 =>
              if decide (u = "_"%char) then
                match l2 with
                | b :: _ => if is_digit b then digit_part l2 else ([], l')
                | [] => ([], l')
                end
              else digit_part l'
          | [] => ([], [])
          end in
        (a :: ds, r)
      else ([], l)
  end.
Definition sign_part (l : list ascii) : bool * list ascii :=
  match l with
  | "-"%char :: l => (true, l)
  | "+"%char :: l => (false, l)
  | _ => (false, l)
  end.
Definition exponent_part (l : list ascii) : option Z :=
  match l with
  | [] => Some 0
  | e :: l =>
      if decide (e = "e"%char ∨ e = "E"%char) then
        let '(neg, l) := sign_part l in
        match digit_part l with
        | ((_ :: _) as ds, []) => Some (cond_opp neg (int_of_chars ds))
        | _ => None
        end
      else None
  end.
Definition float_chars (l : list ascii) : option float :=
  let '(neg, l) := sign_part l in
  let up := upper_char <$> l in
  if decide (up = chars "INF" ∨ up = chars "INFINITY") then Some (S754_infinity neg)
  else if decide (up = chars "NAN") then Some S754_nan
  else
    let '(ip, l) := digit_part l in
    let '(fp, l) := match l with "."%char :: l => digit_part l | _ => ([], l) end in
    if decide (ip = [] ∧ fp = []) then None
    else e ← exponent_part l;
         Some (float_dec neg (int_of_chars (ip ++ fp)) (e - Z.of_nat (length fp))).
Definition float_str (s : string) : res float :=
  match float_chars (strip_chars is_space (chars s)) with
  | Some f => Ok f
  | None => Err (ValueError "could not convert string to float")
  end.

Example float_str_ok :
  float_str <$> ["12"; " -1.5e1 "; ".5"; "1_0.0"; "+1e-1"; "inf"] =
  [Ok (lit 12 0); Ok (float_dec true 15 0); Ok (lit 5 (-1)); Ok (lit 10 0); Ok (lit 1 (-1));
   Ok (S754_infinity false)].
Proof. vm_compute. reflexivity. Qed.
Example float_str_bad :
  is_ok <$> (float_str <$> [""; "."; "1__0"; "_1"; "1_"; "1e"; "1 2"; "0x1"; "--1"; "1.e+"])
  = replicate 10 false.
Proof. vm_compute. reflexivity. Qed.

(** [int(s)] *)
Definition int_str (s : string) : res Z :=
  let '(neg, l) := sign_part (strip_chars is_space (chars s)) in
  match digit_part l with
  | ((_ :: _) as ds, []) => Ok (cond_opp neg (int_of_chars ds))
  | _ => Err (ValueError "invalid literal for int() with base 10")
  end.
Example int_str_ok :
  (int_str <$> [" 12 "; "-0_7"], is_ok <$> (int_str <$> [""; "1.0"; "+"])) =
  ([Ok 12; Ok (-7)], [false; false; false]).
Proof. reflexivity. Qed.

Lemma digit_part_digits l : all_digits l → digit_part l = (l, []).
Proof.
  induction l as [|a l IH]; intros H; [done|]. apply Forall_cons in H as [Ha H].
  specialize (IH H). cbn [digit_part]. rewrite Ha. destruct l as [|u l]; [done|].
  apply Forall_cons in H as [Hu _]. rewrite decide_False by (by intros ->). by rewrite IH.
Qed.
Lemma digit_other a : is_digit a = true → is_space a = false ∧ a ≠ "-"%char ∧ a ≠ "+"%char.
Proof. destruct a as [[] [] [] [] [] [] [] []]; done. Qed.
Lemma strip_digits l : all_digits l → strip_chars is_space l = l.
Proof.
  assert (∀ k, all_digits k → lstrip_chars is_space k = k) as Hd.
  { intros [|a k] Hk; [done|]. apply Forall_cons in Hk as [Ha _]. simpl.
    by destruct (digit_other a Ha) as [-> _]. }
  intros Hl. unfold strip_chars. rewrite (Hd l Hl), Hd, reverse_involutive; [done|].
  unfold all_digits. by rewrite reverse_Permutation.
Qed.
(** [int(str(n))] *)
Lemma int_str_pretty z : 0 ≤ z → int_str (pretty z) = Ok z.
Proof.
  intros Hz. destruct (pretty_Z_digits z Hz) as (Hne & Hd & Hv). unfold int_str.
  rewrite strip_digits by done. unfold int_of_digits in Hv.
  destruct (chars (pretty z)) as [|a l]; [done|]. pose proof Hd as [Ha _]%Forall_cons.
  assert (sign_part (a :: l) = (false, a :: l)) as ->.
  { destruct (digit_other a Ha) as (_ & H1 & H2). unfold sign_part.
    destruct a as [[] [] [] [] [] [] [] []]; done. }
  rewrite digit_part_digits by done. unfold cond_opp, int_of_chars. by f_equal.
Qed.

(** ** Fixed-point conversion *)

(** [n / d] rounded to an integer, half to even. *)
Definition div_half_even (n d : Z) : Z :=
  let q := n / d in
  let r := 2 * (n mod d) in
  if decide (r < d) then q else if decide (d < r) then q + 1
  else if Z.even q then q else q + 1.
(** [|x| * 10 ^ p], rounded. *)
Definition scaled_round (p : nat) (m e : Z) : Z :=
  let n := m * 10 ^ Z.of_nat p in
  if 0 <=? e then n * 2 ^ e else div_half_even n (2 ^ (- e)).
Definition pad_zeros (p : nat) (s : string) : string :=
  of_chars (replicate (p - String.length s) "0"%char) +:+ s.
Definition fixed_digits (p : nat) (n : Z) : string :=
  if decide (p = O) then pretty n
  else pretty (n / 10 ^ Z.of_nat p) +:+ "." +:+ pad_zeros p (pretty (n mod 10 ^ Z.of_nat p)).
(** The percent operator with conversion f and precision [p]. *)
Definition format_fixed (p : nat) (x : float) : string :=
  match x with
  | S754_nan => "nan"
  | S754_infinity s => if s then "-inf" else "inf"
  | S754_zero s => (if s then "-" else "") +:+ fixed_digits p 0
  | S754_finite s m e => (if s then "-" else "") +:+ fixed_digits p (scaled_round p (Z.pos m) e)
  end.

Example format_fixed_ok :
  format_fixed 2 <$> [lit 1 (-1); lit 25 (-3); lit 35 (-3); lit 2675 (-3); float_dec true 1 (-3); lit 12 2]
  = ["0.10"; "0.03"; "0.04"; "2.67"; "-0.00"; "1200.00"].
Proof. vm_compute. reflexivity. Qed.

Lemma div_half_even_spec n d :
  0 < d → 2 * Z.abs (div_half_even n d * d - n) ≤ d ∧
  (2 * Z.abs (div_half_even n d * d - n) = d → Z.even (div_half_even n d) = true).
Proof.
  intros Hd. unfold div_half_even.
  pose proof (Z.div_mod n d ltac:(lia)) as Hn. pose proof (Z.mod_pos_bound n d Hd) as Hr.
  set (q := n / d) in *. set (r := n mod d) in *.
  repeat case_decide; [lia..|].
  destruct (Z.even q) eqn:Eq; [|rewrite Z.even_add, Eq]; (split; [lia|done]).
Qed.
