(* ===== verification/PyPath.v ===== *)
(** * Paths and file name patterns of the Python library
    [os.path] of POSIX systems and [fnmatch], as far as the tools use them. *)
From Stdlib Require Import Ascii.
From S2P Require Import Prelude PyStr.

(** One component of [os.path.normpath], on the components kept so far
    (innermost first). *)
Definition norm_step (absolute : bool) (new : list string) (comp : string) : list string :=
  if decide (comp = "" ∨ comp = ".") then new
  else match new with
       | [] => if decide (comp = ".." ∧ absolute = true) then [] else [comp]
       | top :: rest => if decide (comp = ".." ∧ top ≠ "..") then rest else comp :: new
       end.
Definition normpath (path : string) : string :=
  let slashes := if startswith path "/" then
                   (if startswith path "//" && negb (startswith path "///") then "//" else "/")
                 else "" in
  let comps := reverse (foldl (norm_step (startswith path "/")) [] (split "/" path)) in
  let result := slashes +:+ join "/" comps in
  if decide (result = "") then "." else result.
Definition abspath (cwd path : string) : string := normpath (path_join cwd path).

(** [os.path.relpath(path, start)] *)
Fixpoint strip_common (l k : list string) : list string * list string :=
  match l, k with
  | x :: l', y :: k' => if decide (x = y) then strip_common l' k' else (l, k)
  | _, _ => (l, k)
  end.
Definition relpath (cwd path start : string) : res string :=
  if decide (path = "") then Err (ValueError "no path specified")
  else
    let comps p := filter (λ x, x ≠ "") (split "/" (abspath cwd p)) in
    let '(up, down) := strip_common (comps start) (comps path) in
    let rel := ((λ _, "..") <$> up) ++ down in
    Ok (if decide (rel = []) then "." else join "/" rel).

Example relpath_ex :
  (relpath "/ns3" "build/examples/udp" "build", relpath "/ns3" "/ns3/./a/../b" "/ns3/c/d") =
  (Ok "examples/udp", Ok "../../b").
Proof. reflexivity. Qed.

(** [os.path.splitext]: the last dot of the base name; dots at its start are
    no part of an extension. *)
Fixpoint last_dot (l : list ascii) : option (list ascii * list ascii) :=
  match l with
  | [] => None
  | a :: l =>
      match last_dot l with
      | Some (x, y) => Some (a :: x, y)
      | None => if decide (a = "."%char) then Some ([], a :: l) else None
      end
  end.
Definition splitext (p : string) : string * string :=
  match last_dot (chars (basename p)) with
  | Some (x, ext) =>
      if bool_decide (Exists (λ a, a ≠ "."%char) x)
      then (of_chars (take (String.length p - length ext) (chars p)), of_chars ext) else (p, "")
  | None => (p, "")
  end.
Example splitext_ok :
  splitext <$> ["olsr.py"; "a.b/c"; "/x.y/.rc"; "p/f.tar.gz"; "..x"; "f."] =
  [("olsr", ".py"); ("a.b/c", ""); ("/x.y/.rc", ""); ("p/f.tar", ".gz"); ("..x", ""); ("f", ".")].
Proof. reflexivity. Qed.

(** ** fnmatch *)

Inductive glob : Type :=
| GAny                                        (** [*] *)
| GOne                                        (** [?] *)
| GSet (negated : bool) (ranges : list (ascii * ascii))
| GChar (c : ascii).

(** The members of a bracket: [a-b] is a range. *)
Fixpoint glob_ranges (fuel : nat) (l : list ascii) : list (ascii * ascii) :=
  match fuel, l with
  | S fuel, a :: "-"%char :: b :: l => (a, b) :: glob_ranges fuel l
  | S fuel, a :: l => (a, a) :: glob_ranges fuel l
  | _, _ => []
  end.
(** The characters up to the closing bracket, which may not be the first one. *)
Definition glob_bracket (l : list ascii) : option (bool * list ascii * list ascii) :=
  let '(negated, l) := match l with "!"%char :: l => (true, l) | _ => (false, l) end in
  let '(first, l) := match l with "]"%char :: l => (["]"%char], l) | _ => ([], l) end in
  match split1_chars "]" l with
  | (body, Some rest) => Some (negated, first ++ body, rest)
  | (_, None) => None
  end.
Fixpoint glob_parse (fuel : nat) (l : list ascii) : list glob :=
  match fuel, l with
  | O, _ | _, [] => []
  | S fuel, c :: l =>
      if decide (c = "*"%char) then GAny :: glob_parse fuel l
      else if decide (c = "?"%char) then GOne :: glob_parse fuel l
      else if decide (c = "["%char) then
        match glob_bracket l with
        | Some (negated, body, rest) =>
            GSet negated (glob_ranges (length body) body) :: glob_parse fuel rest
        | None => GChar c :: glob_parse fuel l
        end
      else GChar c :: glob_parse fuel l
  end.
Definition in_range (c : ascii) (r : ascii * ascii) : bool :=
  (nat_of_ascii r.1 <=? nat_of_ascii c) && (nat_of_ascii c <=? nat_of_ascii r.2).
Fixpoint glob_match (p : list glob) (s : list ascii) : bool :=
  match p with
  | [] => bool_decide (s = [])
  | GAny :: p =>
      (fix any (s : list ascii) : bool :=
         glob_match p s || match s with [] => false | _ :: s => any s end) s
  | g :: p =>
      match s with
      | [] => false
      | c :: s =>
          match g with
          | GSet negated ranges => xorb negated (existsb (in_range c) ranges)
          | GChar c' => bool_decide (c = c')
          | _ => true
          end && glob_match p s
      end
  end.
(** [fnmatch.filter(names, pat)] *)
Definition fnmatch_filter (names : list string) (pat : string) : list string :=
  let p := glob_parse (String.length pat) (chars pat) in
  filter (λ s, glob_match p (chars s) = true) names.

Example fnmatch_ex :
  fnmatch_filter ["tcp-a"; "tcp-b"; "udp-a"; "tcp-]"] "t?p-[!b-z]" = ["tcp-a"; "tcp-]"].
Proof. reflexivity. Qed.

(** A pattern without special characters only matches itself. *)
Definition plain (c : ascii) : Prop := c ≠ "*"%char ∧ c ≠ "?"%char ∧ c ≠ "["%char.
Lemma glob_parse_plain l n : Forall plain l → (length l ≤ n)%nat → glob_parse n l = GChar <$> l.
Proof.
  intros Hl. revert n. induction Hl as [|c l (?&?&?) _ IH]; intros [|n] Hn; simpl in *; try done; [lia|].
  rewrite !decide_False by done. csimpl. rewrite IH by lia. done.
Qed.
Lemma glob_match_chars l s : glob_match (GChar <$> l) s = bool_decide (s = l).
Proof.
  revert s. induction l as [|c l IH]; intros s; csimpl; [by apply bool_decide_ext|].
  destruct s as [|c' s]; [done|]. rewrite IH. apply eq_bool_prop_intro.
  rewrite andb_True, !bool_decide_spec. naive_solver.
Qed.
Lemma fnmatch_plain names pat :
  Forall plain (chars pat) → fnmatch_filter names pat = filter (λ s, s = pat) names.
Proof.
  intros Hp. unfold fnmatch_filter. rewrite <-length_chars.
  apply list_filter_iff. intros s. rewrite glob_parse_plain by done.
  rewrite glob_match_chars, bool_decide_eq_true. split; [apply chars_inj|by intros ->].
Qed.
