(* ===== verification/PyXml.v ===== *)
(** * Element trees
    The tree that ElementTree makes of an XML document, and the lookups that
    the tools use. *)
From S2P Require Import Prelude PyStr.

Inductive element : Type :=
  Element (tag : string) (attrib : list (string * string)) (text : option string)
    (children : list element).
Definition tag (e : element) : string := let 'Element t _ _ _ := e in t.
Definition attrib (e : element) : list (string * string) := let 'Element _ a _ _ := e in a.
Definition text (e : element) : option string := let 'Element _ _ t _ := e in t.
Definition children (e : element) : list element := let 'Element _ _ _ c := e in c.

(** The direct children with a tag; [find] is the first. *)
Definition findall (e : element) (t : string) : list element :=
  filter (λ c, tag c = t) (children e).
Definition find (e : element) (t : string) : option element := head (findall e t).
(** [e.find(t).text]: None has no attribute [text]. *)
Definition find_text (e : element) (t : string) : res (option string) :=
  match find e t with Some c => Ok (text c) | None => Err AttributeError end.
(** [e.get(key)] *)
Definition get (e : element) (key : string) : option string :=
  match list_find (λ kv, kv.1 = key) (attrib e) with Some (_, kv) => Some kv.2 | None => None end.

(** Induction over the tree. *)
Lemma element_ind' (P : element → Prop) :
  (∀ e, Forall P (children e) → P e) → ∀ e, P e.
Proof.
  intros HP. fix IH 1. intros [t a tx c]. apply HP. simpl.
  induction c as [|x c IHc]; constructor; [apply IH|exact IHc].
Qed.
