(* ===== verification/RadUtil.v ===== *)
(** * bindings/python/rad_util.py: the utility functions
    Each function of the module is a definition of the same name.  The module
    is Python 2 (its doctests print [123L] and the code calls [has_key] in its
    client), so [/] on integers is the floor division.  Numbers are the
    integers: the functions that only make sense on floats ([quantile],
    [trim], [nice_units], [float_range]) are not modelled. *)
From Stdlib Require Import Ascii QArith SpecFloat.
From S2P Require Import Prelude PyStr.
#[local] Open Scope Z_scope.

(** ** Binary strings *)

Definition hex_digit (d : Z) : ascii :=
  match d with
  | 0 => "0" | 1 => "1" | 2 => "2" | 3 => "3" | 4 => "4" | 5 => "5"
  | 6 => "6" | 7 => "7" | 8 => "8" | 9 => "9" | 10 => "a" | 11 => "b"
  | 12 => "c" | 13 => "d" | 14 => "e" | _ => "f"
  end%char.

(** The hexadecimal digits of a positive number, most significant first. *)
Fixpoint hex_digits (fuel : nat) (z : Z) (acc : list ascii) : list ascii :=
  match fuel with
  | O => acc
  | S fuel =>
      let acc := hex_digit (z mod 16) :: acc in
      if decide (z / 16 = 0) then acc else hex_digits fuel (z / 16) acc
  end.

(** [hex(i)]; a [long] prints a trailing [L]. *)
Definition hex (is_long : bool) (i : Z) : list ascii :=
  (if decide (i < 0) then ["-"%char] else [])
  ++ "0"%char :: "x"%char :: hex_digits (S (Z.to_nat (Z.log2 (Z.abs i)))) (Z.abs i) []
  ++ (if is_long then ["L"%char] else []).

Definition lower_char (a : ascii) : ascii :=
  let n := nat_of_ascii a in
  if (65 <=? n)%nat && (n <=? 90)%nat then ascii_of_nat (n + 32) else a.

(** The table [hex2bin]; a character that is no key raises. *)
Definition hex2bin (x : ascii) : res (list ascii) :=
  match x with
  | "0" => Ok (chars "0000") | "1" => Ok (chars "0001")
  | "2" => Ok (chars "0010") | "3" => Ok (chars "0011")
  | "4" => Ok (chars "0100") | "5" => Ok (chars "0101")
  | "6" => Ok (chars "0110") | "7" => Ok (chars "0111")
  | "8" => Ok (chars "1000") | "9" => Ok (chars "1001")
  | "a" => Ok (chars "1010") | "b" => Ok (chars "1011")
  | "c" => Ok (chars "1100") | "d" => Ok (chars "1101")
  | "e" => Ok (chars "1110") | "f" => Ok (chars "1111")
  | _ => Err KeyError
  end%char.

Definition too_large : exn := ValueError "Value too large for given number of bits.".

Definition int2bin (is_long : bool) (i n : Z) : res (list ascii) :=
  let h := filter (λ c, c ≠ "l"%char) (lower_char <$> hex is_long i) in
  groups ← mapM hex2bin (drop 2 h);
  let result := concat groups in
  if decide ("1"%char ∈ slice_to result (- n)) then Err too_large
  else
    let result := slice_from result (- n) in
    Ok (replicate (Z.to_nat (n - Z.of_nat (length result))) "0"%char ++ result).

(** [int(s, 2)]: surrounding blanks, a sign, a [0b] prefix, then digits. *)
Fixpoint digits2 (acc : Z) (l : list ascii) : res Z :=
  match l with
  | [] => Ok acc
  | "0"%char :: l => digits2 (2 * acc) l
  | "1"%char :: l => digits2 (2 * acc + 1) l
  | _ :: _ => Err (ValueError "invalid literal for int() with base 2")
  end.
Definition unsigned2 (l : list ascii) : res Z :=
  match l with
  | [] => Err (ValueError "invalid literal for int() with base 2")
  | "0"%char :: ("b"%char | "B"%char) :: (_ :: _) as l' => digits2 0 (drop 2 l')
  | _ => digits2 0 l
  end.
Definition bin2int (bin_string : list ascii) : res Z :=
  match strip_chars is_cspace bin_string with
  | "-"%char :: l => v ← unsigned2 l; Ok (- v)
  | "+"%char :: l => unsigned2 l
  | l => unsigned2 l
  end.

Definition reverse (input_string : list ascii) : list ascii :=
  let str_list := input_string in list.reverse str_list.

(** [zip] of the rows stops at the shortest row; [transpose] lists the columns. *)
Fixpoint zip_rows {A} (n : nat) (matrix : list (list A)) : list (list A) :=
  match n with
  | O => []
  | S n =>
      match mapM head matrix with
      | Some column => column :: zip_rows n (tail <$> matrix)
      | None => []
      end
  end.
Definition transpose {A} (matrix : list (list A)) : list (list A) :=
  match matrix with
  | [] => []
  | row :: _ => zip_rows (length row) matrix
  end.

(** [polygon_area] on integer coordinates.  The argument list is rebound in
    place: the first component is the caller's list after the call. *)
Definition scale_points (precision : Z) (points : list (Z * Z)) : list (Z * Z) :=
  (λ p, (p.1 * precision, p.2 * precision)) <$> points.
Fixpoint shoelace (area : Z) (points : list (Z * Z)) : Z :=
  match points with
  | (x_i, y_i) :: (((x_i_plus_1, y_i_plus_1) :: _) as rest) =>
      shoelace (area + (x_i_plus_1 * y_i) - (y_i_plus_1 * x_i)) rest
  | _ => area
  end.
(** [float(z)] and the division of floats, in binary64. *)
Definition py_float (z : Z) : spec_float := binary_normalize 53 1024 z 0 false.
Definition float_div : spec_float → spec_float → spec_float := SFdiv 53 1024.

Definition polygon_area (points_list : list (Z * Z)) (precision : Z)
    : list (Z * Z) * res spec_float :=
  let points_list := scale_points precision points_list in
  match head points_list, last points_list with
  | Some first, Some final =>
      let points_list := if decide (final = first) then points_list else points_list ++ [first] in
      let area := Z.abs (shoelace 0 points_list / 2) in
      (points_list,
        if decide (precision ^ 2 = 0) then Err ZeroDivisionError
        else Ok (float_div (py_float area) (py_float (precision ^ 2))))
  | _, _ => (points_list, Err IndexError)
  end.

(** ** Arithmetic *)

(** The loop of [gcf]: [%] is the modulo whose sign is the divisor's, Rocq's
    [Z.modulo].  [fuel] bounds the iterations; |remainder| decreases. *)
Fixpoint gcf_loop (fuel : nat) (epsilon : Q) (result remainder : Z) : option Z :=
  if decide (remainder = 0) then Some result
  else if negb (Qle_bool (inject_Z (Z.abs remainder)) epsilon) then
    match fuel with
    | O => None
    | S fuel => gcf_loop fuel epsilon remainder (result mod remainder)
    end
  else Some result.
Definition default_epsilon : Q := 1 # 10000000000000000.
Definition gcf_eps (a b : Z) (epsilon : Q) : option Z :=
  let result := Z.max a b in
  let remainder := Z.min a b in
  Z.abs <$> gcf_loop (S (Z.to_nat (Z.abs remainder))) epsilon result remainder.
Definition gcf (a b : Z) : option Z := gcf_eps a b default_epsilon.

Definition lcm (a b : Z) : option Z :=
  denom ← gcf a b;
  Some (if decide (denom = 0) then 0 else a * (b / denom)).

Definition reduce_fraction (fraction : Z * Z) : option (res (Z * Z)) :=
  let '(numerator, denominator) := fraction in
  g ← gcf numerator denominator;
  let common_factor := Z.abs g in
  Some (if decide (common_factor = 0) then Err ZeroDivisionError
        else Ok (numerator / common_factor, denominator / common_factor)).

Definition lsb (x n : Z) : res Z :=
  if decide (n < 0) then Err TypeError else Ok (Z.land x (2 ^ n - 1)).

Definition gray_encode (i : Z) : Z := Z.lxor i (Z.shiftr i 1).

(** [round_grid] on integers: [add_one] is unbound when no branch sets it. *)
Definition round_grid (value grid mode : Z) : res Z :=
  if decide (grid = 0) then Err ZeroDivisionError
  else
    let off_grid := value mod grid in
    add_one ←
      (if decide (mode = 0) then Ok (if decide (grid ≤ 2 * off_grid) then 1 else 0)
       else if decide (mode = 1 ∧ off_grid ≠ 0) then Ok 1
       else if decide (mode = -1 ∧ off_grid ≠ 0) then Ok 0
       else Err UnboundLocalError);
    Ok ((value / grid + add_one) * grid).

(** ** Lists *)

(** [l.insert(i, x)] *)
Definition insert_at {A} (i : nat) (x : A) (l : list A) : list A := take i l ++ x :: drop i l.

Fixpoint permutations {A} (input_list : list A) : list (list A) :=
  match input_list with
  | item :: ((_ :: _) as rest) =>
      sub_list ← permutations rest;
      (λ i, insert_at i item sub_list) <$> seq 0 (length input_list)
  | _ => [input_list]
  end.
Arguments permutations {A} !input_list / : simpl nomatch.

Section uniquify.
Context {A : Type} `{Countable A} `{!DictOrder A}.
(** Which items have a hash. *)
Context (hashable : A → bool).

(** [[x for x in seq if (x not in d) and not d.__setitem__(x, 0)]] *)
Fixpoint uniq_ordered (d : gmap A Z) (items : list A) : list A :=
  match items with
  | [] => []
  | x :: items =>
      if decide (is_Some (d !! x)) then uniq_ordered d items
      else x :: uniq_ordered (<[x := 0]> d) items
  end.
(** The slow algorithm: [if x not in result: app(x)]. *)
Definition uniq_slow (items : list A) : list A :=
  foldl (λ result x, if decide (x ∈ result) then result else result ++ [x]) [] items.

(** An unhashable item raises TypeError inside the [try] and the whole
    sequence is processed again by the slow algorithm. *)
Definition uniquify (items : list A) (preserve_order : bool) : list A :=
  if forallb hashable items then
    if preserve_order then uniq_ordered ∅ items
    else dict_keys (foldl (λ d x, <[x := 0]> d) (∅ : gmap A Z) items)
  else uniq_slow items.
End uniquify.

(** [for key, value in d.items(): result[value] = key] *)
Definition reverse_dict `{DictOrder K, Countable V} (d : gmap K V) : gmap V K :=
  foldl (λ result key, match d !! key with
                       | Some value => <[value := key]> result
                       | None => result
                       end) ∅ (dict_keys d).

(** The two loops of [find_common_fixes] over the indices [i]. *)
Fixpoint prefix_loop `{EqDecision A} (fuel i : nat) (s1 s2 : list A) (acc : list A) : list A :=
  match fuel with
  | O => acc
  | S fuel =>
      match s1 !! i, s2 !! i with
      | Some a, Some b =>
          if decide (a = b) then prefix_loop fuel (S i) s1 s2 (acc ++ [a]) else acc
      | _, _ => acc
      end
  end.
Fixpoint suffix_loop `{EqDecision A} (fuel i : nat) (s1 s2 : list A) (acc : list A) : list A :=
  match fuel with
  | O => acc
  | S fuel =>
      match py_index s1 (- Z.of_nat i), py_index s2 (- Z.of_nat i) with
      | Ok a, Ok b =>
          if decide (a = b) then suffix_loop fuel (S i) s1 s2 (acc ++ [a]) else acc
      | _, _ => acc
      end
  end.
Definition find_common_fixes `{EqDecision A} (s1 s2 : list A) : list A * list A :=
  let common_len := Nat.min (length s1) (length s2) in
  (prefix_loop common_len 0 s1 s2 [], list.reverse (suffix_loop common_len 1 s1 s2 [])).

Definition is_rotated `{EqDecision A} (seq1 seq2 : list A) : res bool :=
  if decide (length seq1 ≠ length seq2) then Ok false
  else
    head_item ← py_index seq2 0;
    let start_indexes :=
      filter (λ index1, seq1 !! index1 = Some head_item) (seq 0 (length seq1)) in
    let double_seq1 := seq1 ++ seq1 in
    Ok (existsb (λ index1,
          bool_decide (slice double_seq1 (Z.of_nat index1)
                         (Z.of_nat index1 + Z.of_nat (length seq1)) = seq2)) start_indexes).

(** ** Binary vectors *)

(** One pass of the inner [while] of [binary_range]: [i] runs up while
    [toggle[i] == 1]. *)
Fixpoint toggle_loop (fuel : nat) (bits i : nat) (v : list ascii) (toggle : list Z)
    : list ascii * list Z :=
  match fuel with
  | O => (v, toggle)
  | S fuel =>
      if decide ((i < bits)%nat ∧ toggle !! i = Some 1) then
        if decide (v !! i = Some "0"%char)
        then toggle_loop fuel bits (S i) (<[i := "1"%char]> v) (<[S i := 0]> toggle)
        else toggle_loop fuel bits (S i) (<[i := "0"%char]> v) (<[S i := 1]> toggle)
      else (v, toggle)
  end.
(** The outer [while toggle[bits] != 1]; [None] when the fuel runs out. *)
Fixpoint binary_range_loop (fuel bits : nat) (v : list ascii) (toggle : list Z)
    (l : list (list ascii)) : option (list (list ascii)) :=
  if decide (toggle !! bits = Some 1) then Some l
  else match fuel with
  | O => None
  | S fuel =>
      let l := l ++ [list.reverse v] in
      let '(v, toggle) := toggle_loop bits bits 0 v (1 :: replicate bits 0) in
      binary_range_loop fuel bits v toggle l
  end.
Definition binary_range (bits : nat) : option (list (list ascii)) :=
  binary_range_loop (2 ^ bits) bits (replicate bits "0"%char) (1 :: replicate bits 0) [].

(** [random_vec]: [draws k] is [int((2**10) * random.random())] of the k-th call. *)
Fixpoint draw_bits (draws : nat → Z) (k n : nat) : res (list ascii) :=
  match n with
  | O => Ok []
  | S n =>
      chunk ← int2bin false (draws k) 10;
      rest ← draw_bits draws (S k) n;
      Ok (chunk ++ rest)
  end.
Definition random_vec (draws : nat → Z) (bits : Z) (max_value : option Z) : res (list ascii) :=
  vector ← draw_bits draws 0 (Z.to_nat (bits / 10 + 1));
  vector ←
    match max_value with
    | Some m =>
        if decide (m ≠ 0 ∧ m < 2 ^ bits - 1) then
          v ← bin2int vector;
          if decide (2 ^ bits - 1 = 0) then Err ZeroDivisionError
          else int2bin false (v / (2 ^ bits - 1) * m) bits
        else Ok vector
    | None => Ok vector
    end;
  Ok (slice vector 0 bits).

(** ** Command lines *)

Inductive argval : Type :=
| ArgNone
| ArgStr (s : string)
| ArgList (l : list string).

(** [re.sub(r'^-+', '', arg)] *)
Fixpoint drop_dashes (l : list ascii) : list ascii :=
  match l with
  | "-"%char :: l => drop_dashes l
  | _ => l
  end.
Definition get_args_step (st : gmap string argval * list string) (arg : string)
    : gmap string argval * list string :=
  let '(d, args) := st in
  if startswith arg "-" then
    match split "=" (of_chars (drop_dashes (chars arg))) with
    | [k; v] => (<[k := ArgStr v]> d, args)
    | k :: _ => (<[k := ArgNone]> d, args)
    | [] => (d, args)
    end
  else (d, args ++ [arg]).
Definition get_args (argv : list string) : gmap string argval :=
  let '(d, args) := foldl get_args_step (∅, []) argv in
  <["args" := ArgList args]> d.

(** ** Values of binary strings *)

Definition is_bit (c : ascii) : Prop := c = "0"%char ∨ c = "1"%char.
#[export] Instance is_bit_dec c : Decision (is_bit c).
Proof. unfold is_bit. apply _. Defined.
Fixpoint binval (acc : Z) (l : list ascii) : Z :=
  match l with
  | [] => acc
  | c :: l => binval (2 * acc + (if decide (c = "1"%char) then 1 else 0)) l
  end.

Lemma binval_app acc l k : binval acc (l ++ k) = binval (binval acc l) k.
Proof. revert acc. induction l; simpl; auto. Qed.

Lemma digits2_bits acc l : Forall is_bit l → digits2 acc l = Ok (binval acc l).
Proof.
  intros Hl. revert acc. induction Hl as [|c l [-> | ->] _ IH]; intros acc; simpl; [done|..];
    rewrite IH; f_equal; f_equal; lia.
Qed.

Lemma binval_bounds acc l :
  acc * 2 ^ Z.of_nat (length l) ≤ binval acc l < (acc + 1) * 2 ^ Z.of_nat (length l).
Proof.
  revert acc. induction l as [|c l IH]; intros acc; [simpl; lia|].
  cbn [binval length]. rewrite Nat2Z.inj_succ, Z.pow_succ_r by lia.
  case_decide; [specialize (IH (2 * acc + 1)) | specialize (IH (2 * acc + 0))]; nia.
Qed.

Lemma binval_no_ones l : "1"%char ∉ l → binval 0 l = 0.
Proof.
  induction l as [|c l IH]; [done|]. intros Hn. apply not_elem_of_cons in Hn as [? ?].
  cbn [binval]. rewrite decide_False by done. by apply IH.
Qed.

Lemma binval_one l : "1"%char ∈ l → 0 < binval 0 l.
Proof.
  intros Hin. apply list_elem_of_split in Hin as (l1 & l2 & ->).
  rewrite binval_app. cbn [binval]. rewrite decide_True by done.
  pose proof (binval_bounds 0 l1). pose proof (binval_bounds (2 * binval 0 l1 + 1) l2).
  assert (0 < 2 ^ Z.of_nat (length l2)) by lia. nia.
Qed.

Lemma hex2bin_digit d :
  0 ≤ d < 16 → ∃ g, hex2bin (hex_digit d) = Ok g ∧ length g = 4%nat ∧ Forall is_bit g ∧
    ∀ acc, binval acc g = 16 * acc + d.
Proof.
  intros Hd.
  assert (d = 0 ∨ d = 1 ∨ d = 2 ∨ d = 3 ∨ d = 4 ∨ d = 5 ∨ d = 6 ∨ d = 7 ∨ d = 8 ∨ d = 9 ∨
    d = 10 ∨ d = 11 ∨ d = 12 ∨ d = 13 ∨ d = 14 ∨ d = 15) as Hcases by lia.
  assert (∀ d' g, d = d' → hex2bin (hex_digit d') = Ok g →
    (length g =? 4)%nat && forallb (λ c, bool_decide (is_bit c)) g = true →
    (∀ acc, binval acc g = 16 * acc + d') → ∃ g, hex2bin (hex_digit d) = Ok g ∧
      length g = 4%nat ∧ Forall is_bit g ∧ ∀ acc, binval acc g = 16 * acc + d) as Hcase.
  { intros d' g -> Hg [Hlen Hb]%andb_prop Hv. exists g.
    apply Nat.eqb_eq in Hlen. split_and!; [done..| |done].
    apply Forall_forall. intros c Hc. rewrite forallb_forall in Hb.
    apply list_elem_of_In in Hc. specialize (Hb c Hc). by apply bool_decide_eq_true in Hb. }
  destruct_or! Hcases;
    (eapply Hcase; [exact Hcases|reflexivity|vm_compute; reflexivity|intros acc; simpl; lia]).
Qed.

Lemma hex_digits_groups fuel z acc ga :
  0 ≤ z < 16 ^ Z.of_nat fuel → (0 < fuel)%nat → mapM hex2bin acc = Ok ga →
  ∃ g, mapM hex2bin (hex_digits fuel z acc) = Ok (g ++ ga) ∧
    Forall is_bit (concat g) ∧ binval 0 (concat g) = z.
Proof.
  revert z acc ga. induction fuel as [|fuel IH]; intros z acc ga Hz Hf Hacc; [lia|].
  cbn [hex_digits].
  destruct (hex2bin_digit (z mod 16)) as (g & Hg & _ & Hbits & Hval);
    [apply Z.mod_pos_bound; lia|].
  assert (mapM hex2bin (hex_digit (z mod 16) :: acc) = Ok (g :: ga)) as Hacc'.
  { cbn [mapM]. rewrite Hg. cbn. by rewrite Hacc. }
  case_decide as Hq.
  - exists [g]. simpl. rewrite app_nil_r, Hval. split_and!; [done|done|].
    pose proof (Z.div_mod z 16). lia.
  - rewrite Nat2Z.inj_succ, Z.pow_succ_r in Hz by lia.
    assert (0 < fuel)%nat.
    { destruct fuel; [|lia]. simpl in Hz. destruct Hq. apply Z.div_small. lia. }
    destruct (IH (z / 16) (hex_digit (z mod 16) :: acc) (g :: ga)) as (g' & -> & Hb' & Hv');
      [split; [apply Z.div_pos; lia|apply Z.div_lt_upper_bound; lia]|done|done|].
    exists (g' ++ [g]). rewrite <-app_assoc. split_and!; [done|..].
    + rewrite concat_app, Forall_app. simpl. by rewrite app_nil_r.
    + rewrite concat_app, binval_app, Hv'. simpl. rewrite app_nil_r, Hval.
      pose proof (Z.div_mod z 16). lia.
Qed.

Lemma hex_digit_lower d : lower_char (hex_digit d) = hex_digit d ∧ hex_digit d ≠ "l"%char.
Proof. unfold hex_digit. by repeat case_match. Qed.

Lemma hex_digits_lower fuel z acc :
  Forall (λ c, lower_char c = c ∧ c ≠ "l"%char) acc →
  Forall (λ c, lower_char c = c ∧ c ≠ "l"%char) (hex_digits fuel z acc).
Proof.
  revert z acc. induction fuel as [|fuel IH]; intros z acc Hacc; [done|]. cbn [hex_digits].
  assert (Forall (λ c, lower_char c = c ∧ c ≠ "l"%char) (hex_digit (z mod 16) :: acc))
    by (constructor; auto using hex_digit_lower).
  case_decide; auto.
Qed.

Lemma lower_filter_id l :
  Forall (λ c, lower_char c = c ∧ c ≠ "l"%char) l →
  filter (λ c, c ≠ "l"%char) (lower_char <$> l) = l.
Proof.
  induction 1 as [|c l [Hlow Hne] _ IH]; [done|]. cbn [fmap list_fmap].
  rewrite Hlow, filter_cons_True, IH by done. done.
Qed.

Lemma hex_clean is_long i :
  0 ≤ i →
  drop 2 (filter (λ c, c ≠ "l"%char) (lower_char <$> hex is_long i)) =
  hex_digits (S (Z.to_nat (Z.log2 i))) i [].
Proof.
  intros Hi. unfold hex. rewrite decide_False, Z.abs_eq by lia. cbn [app].
  rewrite !fmap_cons, fmap_app.
  rewrite (filter_cons_True _ (lower_char "0")), (filter_cons_True _ (lower_char "x")) by done.
  cbn [drop]. rewrite filter_app, lower_filter_id by (apply hex_digits_lower; constructor).
  by destruct is_long; rewrite ?app_nil_r.
Qed.

Lemma int2bin_groups is_long i :
  0 ≤ i →
  ∃ g, mapM hex2bin (drop 2 (filter (λ c, c ≠ "l"%char) (lower_char <$> hex is_long i))) = Ok g ∧
    Forall is_bit (concat g) ∧ binval 0 (concat g) = i.
Proof.
  intros Hi. rewrite hex_clean by done.
  destruct (hex_digits_groups (S (Z.to_nat (Z.log2 i))) i [] []) as (g & Hg & Hb & Hv).
  - split; [done|]. rewrite Nat2Z.inj_succ, Z2Nat.id by apply Z.log2_nonneg.
    destruct (decide (i = 0)) as [->|Hne]; [by vm_compute|].
    apply Z.lt_le_trans with (2 ^ Z.succ (Z.log2 i)); [apply Z.log2_spec; lia|].
    apply Z.pow_le_mono_l. lia.
  - lia.
  - done.
  - exists g. by rewrite Hg, app_nil_r.
Qed.

Lemma slice_split_neg {A} (l : list A) (n : Z) :
  0 < n → slice_to l (- n) ++ slice_from l (- n) = l ∧
    length (slice_from l (- n)) = Nat.min (Z.to_nat n) (length l).
Proof.
  intros Hn. unfold slice_to, slice_from. rewrite take_drop. split; [done|].
  rewrite length_drop. unfold slice_index. rewrite decide_True by lia. lia.
Qed.

Lemma bin2int_bits bs : bs ≠ [] → Forall is_bit bs → bin2int bs = Ok (binval 0 bs).
Proof.
  intros Hne Hb.
  assert (∀ l, Forall is_bit l → lstrip_chars is_cspace l = l) as Hstrip.
  { intros l Hl. destruct Hl as [|c l [-> | ->] _]; done. }
  unfold bin2int, strip_chars. rewrite (Hstrip bs) by done.
  rewrite Hstrip by by apply Forall_reverse. rewrite reverse_involutive.
  assert (unsigned2 bs = Ok (binval 0 bs)) as Hu.
  { rewrite <-digits2_bits by done. destruct Hb as [|c l Hc Hl]; [done|].
    destruct Hc as [-> | ->]; [|done]. destruct Hl as [|c' l' [-> | ->] Hl']; done. }
  rewrite <-Hu. destruct Hb as [|c l [-> | ->] _]; done.
Qed.

Lemma Forall_replicate_bit n : Forall is_bit (replicate n "0"%char).
Proof. apply Forall_replicate. by left. Qed.

Lemma binval_zeros n l : binval 0 (replicate n "0"%char ++ l) = binval 0 l.
Proof. induction n; [done|]. done. Qed.

Lemma high_ones l n :
  0 < n → "1"%char ∈ slice_to l (- n) ↔ 2 ^ n ≤ binval 0 l.
Proof.
  intros Hn. destruct (slice_split_neg l n Hn) as [Hsplit Hlen].
  set (hi := slice_to l (- n)) in *. set (lo := slice_from l (- n)) in *.
  assert (binval 0 l = binval (binval 0 hi) lo) as Hval by by rewrite <-Hsplit, binval_app.
  apply (f_equal length) in Hsplit. rewrite length_app in Hsplit. split; intros Hcmp.
  - pose proof (binval_one _ Hcmp). pose proof (binval_bounds (binval 0 hi) lo).
    destruct hi as [|c hi']; [by apply elem_of_nil in Hcmp|]. cbn [length] in Hsplit.
    assert (Z.of_nat (length lo) = n) as Hlo by lia. rewrite Hlo in *. nia.
  - destruct (decide ("1"%char ∈ hi)) as [|Hno]; [done|].
    rewrite (binval_no_ones hi Hno) in Hval. pose proof (binval_bounds 0 lo).
    assert (2 ^ Z.of_nat (length lo) ≤ 2 ^ n) by (apply Z.pow_le_mono_r; lia). nia.
Qed.

(** For a positive width [n], [int2bin] returns exactly [n] binary digits
    that [bin2int] reads back as [i] when [0 <= i < 2^n], and raises ValueError
    when [i >= 2^n]; an [int] and a [long] of the same value print alike. *)
Theorem int2bin_roundtrip is_long i n :
  0 ≤ i → 0 < n →
  (i < 2 ^ n → ∃ bs, int2bin is_long i n = Ok bs ∧ length bs = Z.to_nat n ∧ Forall is_bit bs ∧
     bin2int bs = Ok i) ∧
  (2 ^ n ≤ i → int2bin is_long i n = Err too_large).
Proof.
  intros Hi Hn. destruct (int2bin_groups is_long i Hi) as (g & Hg & Hbits & Hval).
  unfold int2bin. rewrite Hg. cbn [mbind result_bind].
  destruct (slice_split_neg (concat g) n Hn) as [Hsplit Hlen].
  pose proof (high_ones (concat g) n Hn) as Hones. rewrite Hval in Hones.
  split; intros Hcmp; [|by rewrite decide_True by by apply Hones].
  assert ("1"%char ∉ slice_to (concat g) (- n)) as Hno by (intros ?%Hones; lia).
  rewrite decide_False by done. eexists. split; [done|].
  rewrite <-Hsplit in Hbits, Hval. apply Forall_app in Hbits as [_ Hblo].
  rewrite binval_app, binval_no_ones in Hval by done.
  rewrite length_app, length_replicate. split; [lia|].
  assert (Forall is_bit (replicate (Z.to_nat (n - Z.of_nat (length (slice_from (concat g) (- n)))))
    "0"%char ++ slice_from (concat g) (- n))) as Hall
    by (apply Forall_app; auto using Forall_replicate_bit).
  split; [done|]. rewrite bin2int_bits, binval_zeros, Hval; [done|intros Heq|done].
  apply (f_equal length) in Heq. rewrite length_app, length_replicate in Heq. simpl in Heq. lia.
Qed.

Lemma int2bin_roundtrip_witness :
  ∃ bs, int2bin false 123 8 = Ok bs ∧ length bs = 8%nat ∧ Forall is_bit bs ∧ bin2int bs = Ok 123.
Proof. apply (int2bin_roundtrip false 123 8); lia. Defined.

(** ** Greatest common factor and fractions *)

Lemma default_epsilon_small m : m ≠ 0 → Qle_bool (inject_Z (Z.abs m)) default_epsilon = false.
Proof.
  intros Hm. apply not_true_iff_false. intros Hle%Qle_bool_iff.
  unfold Qle, inject_Z, default_epsilon in Hle. simpl in Hle. lia.
Qed.

Lemma gcf_loop_gcd fuel r m :
  Z.abs m < Z.of_nat fuel →
  ∃ v, gcf_loop fuel default_epsilon r m = Some v ∧ Z.abs v = Z.gcd r m.
Proof.
  revert r m. induction fuel as [|fuel IH]; intros r m Hf; [lia|]. cbn [gcf_loop].
  case_decide as Hm; [subst; exists r; by rewrite Z.gcd_0_r|].
  rewrite default_epsilon_small by done. cbn [negb].
  destruct (IH m (r mod m)) as (v & -> & Hv).
  - destruct (decide (0 < m)); [pose proof (Z.mod_pos_bound r m)|pose proof (Z.mod_neg_bound r m)]; lia.
  - exists v. split; [done|]. rewrite Hv, Z.gcd_comm, Z.gcd_mod by done. apply Z.gcd_comm.
Qed.

Lemma gcf_gcd a b : gcf a b = Some (Z.gcd a b).
Proof.
  unfold gcf, gcf_eps.
  destruct (gcf_loop_gcd (S (Z.to_nat (Z.abs (Z.min a b)))) (Z.max a b) (Z.min a b))
    as (v & -> & Hv); [lia|]. cbn. f_equal. rewrite Hv.
  destruct (decide (a ≤ b)); [rewrite Z.max_r, Z.min_l, Z.gcd_comm by lia|
    rewrite Z.max_l, Z.min_r by lia]; done.
Qed.

(** The Euclidean loop of [gcf] ends on all integers, and [gcf], [lcm] and
    [reduce_fraction] return the greatest common divisor, the least common
    multiple up to sign, and an equal fraction in lowest terms; only [0/0]
    raises. *)
Theorem gcf_lcm_reduce_correct a b :
  gcf a b = Some (Z.gcd a b) ∧
  (∃ m, lcm a b = Some m ∧ Z.abs m = Z.lcm a b) ∧
  (reduce_fraction (0, 0) = Some (Err ZeroDivisionError)) ∧
  ((a ≠ 0 ∨ b ≠ 0) → ∃ p q, reduce_fraction (a, b) = Some (Ok (p, q)) ∧
     Z.gcd p q = 1 ∧ a = Z.gcd a b * p ∧ b = Z.gcd a b * q).
Proof.
  split_and!; [apply gcf_gcd| |done|].
  - unfold lcm. rewrite gcf_gcd. cbn. case_decide as H0; eexists; (split; [done|]).
    + apply Z.gcd_eq_0 in H0 as [-> ->]. done.
    + done.
  - intros Hab. unfold reduce_fraction. rewrite gcf_gcd. cbn.
    pose proof (Z.gcd_nonneg a b). rewrite Z.abs_eq by done.
    assert (Z.gcd a b ≠ 0) as Hne by (rewrite Z.gcd_eq_0; lia).
    rewrite decide_False by done. eexists _, _. split; [done|].
    split_and!; [by apply Z.gcd_div_gcd|..];
      (apply Z.div_exact; [done|]; apply Z.mod_divide; [done|]);
      [apply Z.gcd_divide_l|apply Z.gcd_divide_r].
Qed.

(** ** Permutations *)

Lemma insert_at_perm {A} i (x : A) l : insert_at i x l ≡ₚ x :: l.
Proof.
  unfold insert_at. rewrite <-Permutation_middle. by rewrite take_drop.
Qed.

Lemma permutations_cons {A} (x y : A) l :
  permutations (x :: y :: l) =
  (sub_list ← permutations (y :: l);
   (λ i, insert_at i x sub_list) <$> seq 0 (S (S (length l)))).
Proof. done. Qed.

Lemma elem_of_permutations {A} (l k : list A) : k ∈ permutations l ↔ k ≡ₚ l.
Proof.
  revert k. induction l as [|x [|y l] IH]; intros k.
  - change (permutations []) with [@nil A]. rewrite list_elem_of_singleton. split; [by intros ->|].
    by intros ->%Permutation_nil_r.
  - change (permutations [x]) with [[x]]. rewrite list_elem_of_singleton. split; [by intros ->|].
    by intros ->%Permutation_singleton_r.
  - rewrite permutations_cons, list_elem_of_bind. split.
    + intros (sub & Hk & Hsub). apply IH in Hsub.
      apply list_elem_of_fmap in Hk as (i & -> & _). by rewrite insert_at_perm, Hsub.
    + intros Hk.
      assert (x ∈ k) as Hx by (rewrite Hk; left).
      apply list_elem_of_split in Hx as (l1 & l2 & ->).
      exists (l1 ++ l2). rewrite IH. rewrite <-Permutation_middle in Hk.
      apply Permutation_cons_inv in Hk. split; [|done].
      apply list_elem_of_fmap. exists (length l1). split.
      * unfold insert_at. by rewrite take_app_length, drop_app_length.
      * apply Permutation_length in Hk. rewrite length_app in Hk. cbn [length] in Hk.
        apply elem_of_seq. lia.
Qed.

Lemma length_permutations {A} (l : list A) : length (permutations l) = fact (length l).
Proof.
  induction l as [|x [|y l] IH]; [done..|].
  rewrite permutations_cons.
  change (fact (length (x :: y :: l))) with (S (S (length l)) * fact (length (y :: l)))%nat.
  rewrite <-IH. generalize (permutations (y :: l)). intros ls.
  induction ls as [|s ls IHls]; [cbn; lia|]. cbn [mbind list_bind].
  rewrite length_app, length_fmap, length_seq. cbn [mbind] in IHls. rewrite IHls. cbn [length]. lia.
Qed.

(** [permutations] returns exactly the rearrangements of its argument,
    [n!] lists for [n] items. *)
Theorem permutations_complete {A} (l : list A) :
  (∀ k, k ∈ permutations l ↔ k ≡ₚ l) ∧ length (permutations l) = fact (length l).
Proof. split; [apply elem_of_permutations|apply length_permutations]. Qed.

Lemma gcf_lcm_reduce_correct_witness :
  gcf (-2) 4 = Some (Z.gcd (-2) 4) ∧
  ∃ p q, reduce_fraction (-2, 4) = Some (Ok (p, q)) ∧
     Z.gcd p q = 1 ∧ -2 = Z.gcd (-2) 4 * p ∧ 4 = Z.gcd (-2) 4 * q.
Proof.
  destruct (gcf_lcm_reduce_correct (-2) 4) as (H1 & _ & _ & H2).
  split; [exact H1|]. apply H2. lia.
Defined.

(** ** Rotations *)

Lemma slice_nat {A} (l : list A) (i j : nat) :
  slice l (Z.of_nat i) (Z.of_nat j) = drop i (take j l).
Proof.
  change (drop (slice_index l (Z.of_nat i)) (slice_to l (Z.of_nat j)) = drop i (take j l)).
  rewrite slice_to_nat. unfold slice_index. rewrite decide_False, Nat2Z.id by lia.
  destruct (decide (i ≤ length l)%nat); [by rewrite Nat.min_l|].
  rewrite Nat.min_r by lia. rewrite !drop_ge; [done|rewrite length_take; lia..].
Qed.

Lemma rotation_slice {A} (l : list A) k :
  (k ≤ length l)%nat →
  slice (l ++ l) (Z.of_nat k) (Z.of_nat k + Z.of_nat (length l)) = drop k l ++ take k l.
Proof.
  intros Hk. rewrite <-Nat2Z.inj_add, slice_nat.
  rewrite take_app, drop_app. rewrite (take_ge l) by lia.
  replace (k + length l - length l)%nat with k by lia.
  replace (k - length l)%nat with 0%nat by lia. done.
Qed.

(** The second sequence is the first one cut at some point with its two parts
    exchanged. *)
Definition rotation {A} (seq1 seq2 : list A) : Prop := ∃ k, seq2 = drop k seq1 ++ take k seq1.

Lemma is_rotated_rotation {A} `{EqDecision A} (seq1 seq2 : list A) :
  seq1 ≠ [] ∨ seq2 ≠ [] →
  ∃ b, is_rotated seq1 seq2 = Ok b ∧ (b = true ↔ rotation seq1 seq2).
Proof.
  unfold rotation. intros Hne. unfold is_rotated. case_decide as Hlen.
  { exists false. split; [done|]. split; [done|]. intros [k ->]. destruct Hlen.
    rewrite length_app, length_drop, length_take. lia. }
  destruct seq2 as [|h t].
  { destruct Hne as [Hne|]; [|done]. destruct seq1; [done|]. discriminate Hlen. }
  change (py_index (h :: t) 0) with (Ok (E := exn) h). cbn [mbind result_bind].
  eexists. split; [done|]. rewrite existsb_exists. split.
  - intros (k & Hk & Heq%bool_decide_eq_true). exists k.
    apply list_elem_of_In, list_elem_of_filter in Hk as [_ Hk%elem_of_seq].
    by rewrite <-Heq, rotation_slice by lia.
  - intros [k Heq]. destruct (decide (k < length seq1)%nat) as [Hk|Hk].
    + exists k. split.
      * apply list_elem_of_In, list_elem_of_filter. split; [|apply elem_of_seq; lia].
        rewrite <-(Nat.add_0_r k), <-lookup_drop.
        apply (f_equal (.!! 0%nat)) in Heq. cbn in Heq.
        rewrite lookup_app_l in Heq; [done|]. rewrite length_drop. lia.
      * apply bool_decide_eq_true. by rewrite rotation_slice by lia.
    + exists 0%nat. rewrite drop_ge, take_ge in Heq by lia. cbn [app] in Heq. split.
      * apply list_elem_of_In, list_elem_of_filter. subst seq1. split; [done|].
        apply elem_of_seq. cbn [length]. lia.
      * apply bool_decide_eq_true. rewrite rotation_slice by lia.
        by rewrite drop_0, take_0, app_nil_r.
Qed.

(** On sequences that are not both empty, [is_rotated] answers whether the
    second sequence is the first one cut at some point with its two parts
    exchanged; on two empty sequences it raises IndexError. *)
Theorem is_rotated_spec {A} `{EqDecision A} (seq1 seq2 : list A) :
  (seq1 ≠ [] ∨ seq2 ≠ [] →
     ∃ b, is_rotated seq1 seq2 = Ok b ∧
       (b = true ↔ ∃ k, seq2 = drop k seq1 ++ take k seq1)) ∧
  is_rotated (A := A) [] [] = Err IndexError.
Proof. split; [apply is_rotated_rotation|done]. Qed.

Lemma is_rotated_spec_witness :
  ∃ b, is_rotated [1; 2; 3] [3; 1; 2] = Ok b ∧
    (b = true ↔ ∃ k, [3; 1; 2] = drop k [1; 2; 3] ++ take k [1; 2; 3]).
Proof. apply (is_rotated_spec [1; 2; 3] [3; 1; 2]). by left. Defined.

(** ** Gray codes *)

Lemma gray_encode_bit i n :
  0 ≤ n → Z.testbit (gray_encode i) n = xorb (Z.testbit i n) (Z.testbit i (n + 1)).
Proof. intros Hn. unfold gray_encode. by rewrite Z.lxor_spec, Z.shiftr_spec. Qed.

Lemma gray_encode_lxor a b : Z.lxor (gray_encode a) (gray_encode b) = gray_encode (Z.lxor a b).
Proof.
  apply Z.bits_inj'. intros n Hn. rewrite Z.lxor_spec, !gray_encode_bit, !Z.lxor_spec by done.
  by destruct (Z.testbit a n), (Z.testbit b n), (Z.testbit a (n + 1)), (Z.testbit b (n + 1)).
Qed.

Lemma lxor_odd_even a c : Z.lxor (2 * a + 1) (2 * c) = 2 * Z.lxor a c + 1.
Proof.
  apply Z.bits_inj'. intros n Hn. rewrite Z.lxor_spec.
  destruct (decide (n = 0)) as [->|Hne].
  - by rewrite !Z.testbit_odd_0, Z.testbit_even_0.
  - replace n with (Z.succ (n - 1)) by lia.
    by rewrite !Z.testbit_odd_succ, Z.testbit_even_succ, Z.lxor_spec by lia.
Qed.

Lemma lxor_even_odd a : Z.lxor (2 * a) (2 * a + 1) = 1.
Proof. by rewrite Z.lxor_comm, lxor_odd_even, Z.lxor_nilpotent. Qed.

Lemma lxor_succ_ones (i : nat) : ∃ k : nat, Z.lxor (Z.of_nat i) (Z.of_nat i + 1) = Z.ones (Z.of_nat k + 1).
Proof.
  induction (lt_wf i) as [i _ IH].
  destruct (Nat.Even_or_Odd i) as [[j ->]|[j ->]].
  - exists 0%nat. rewrite Nat2Z.inj_mul. apply lxor_even_odd.
  - destruct (IH j) as [k Hk]; [lia|]. exists (S k).
    replace (Z.of_nat (2 * j + 1) + 1) with (2 * (Z.of_nat j + 1)) by lia.
    replace (Z.of_nat (2 * j + 1)) with (2 * Z.of_nat j + 1) by lia.
    rewrite lxor_odd_even, Hk. rewrite !Z.ones_equiv, Nat2Z.inj_succ.
    replace (Z.succ (Z.of_nat k) + 1) with (Z.succ (Z.of_nat k + 1)) by lia.
    rewrite (Z.pow_succ_r 2) by lia. lia.
Qed.

Lemma gray_encode_ones (k : nat) : gray_encode (Z.ones (Z.of_nat k + 1)) = 2 ^ Z.of_nat k.
Proof.
  apply Z.bits_inj'. intros n Hn. rewrite gray_encode_bit, Z.pow2_bits_eqb by lia.
  rewrite !Z.testbit_ones by lia.
  repeat match goal with |- context [?a <? ?b] => destruct (Z.ltb_spec a b) end;
    destruct (Z.leb_spec 0 n), (Z.leb_spec 0 (n + 1)), (Z.eqb_spec (Z.of_nat k) n); simpl; lia.
Qed.

Lemma gray_encode_zero c : 0 ≤ c → gray_encode c = 0 → c = 0.
Proof.
  unfold gray_encode. intros Hc Heq%Z.lxor_eq. rewrite Z.shiftr_div_pow2 in Heq by done.
  pose proof (Z.div_mod c 2). pose proof (Z.mod_pos_bound c 2). change (2 ^ 1) with 2 in Heq. lia.
Qed.

(** Gray codes of consecutive numbers differ in exactly one bit, and
    different non-negative numbers have different codes. *)
Theorem gray_encode_gray i j :
  0 ≤ i → 0 ≤ j →
  (∃ k : nat, Z.lxor (gray_encode i) (gray_encode (i + 1)) = 2 ^ Z.of_nat k) ∧
  (gray_encode i = gray_encode j → i = j).
Proof.
  intros Hi Hj. split.
  - destruct (lxor_succ_ones (Z.to_nat i)) as [k Hk]. exists k.
    rewrite Z2Nat.id in Hk by done. by rewrite gray_encode_lxor, Hk, gray_encode_ones.
  - intros Heq. apply Z.lxor_eq, gray_encode_zero; [by apply Z.lxor_nonneg|].
    by rewrite <-gray_encode_lxor, Heq, Z.lxor_nilpotent.
Qed.

Lemma gray_encode_gray_witness :
  (∃ k : nat, Z.lxor (gray_encode 7) (gray_encode (7 + 1)) = 2 ^ Z.of_nat k) ∧
  (gray_encode 7 = gray_encode 5 → 7 = 5).
Proof. apply (gray_encode_gray 7 5); lia. Defined.

(** ** Removing duplicates *)

Section uniquify_facts.
Context {A : Type} `{Countable A} `{!DictOrder A}.

Lemma uniq_slow_ordered_gen (d : gmap A Z) acc items :
  (∀ x, x ∈ acc ↔ is_Some (d !! x)) →
  foldl (λ result x, if decide (x ∈ result) then result else result ++ [x]) acc items =
  acc ++ uniq_ordered d items.
Proof.
  revert d acc. induction items as [|x items IH]; intros d acc Hd; simpl;
    [by rewrite app_nil_r|].
  destruct (decide (is_Some (d !! x))) as [Hx|Hx].
  - rewrite decide_True by by apply Hd. auto.
  - rewrite decide_False by by rewrite Hd. rewrite (IH (<[x:=0]> d)).
    + by rewrite <-app_assoc.
    + intros y. rewrite elem_of_app, list_elem_of_singleton, Hd, lookup_insert_is_Some'.
      naive_solver.
Qed.

Lemma uniq_ordered_slow (items : list A) : uniq_ordered ∅ items = uniq_slow items.
Proof.
  symmetry. apply (uniq_slow_ordered_gen ∅ []). intros x. rewrite lookup_empty.
  rewrite elem_of_nil. split; [done|]. by intros [].
Qed.

Lemma elem_of_uniq_ordered (d : gmap A Z) items x :
  x ∈ uniq_ordered d items ↔ x ∈ items ∧ d !! x = None.
Proof.
  revert d. induction items as [|y items IH]; intros d; simpl; [set_solver|].
  case_decide as Hy.
  - rewrite IH. rewrite elem_of_cons. destruct Hy as [z Hy]. split; [naive_solver|].
    intros [[->|?] ?]; [congruence|done].
  - rewrite !elem_of_cons, IH, lookup_insert_None. apply eq_None_not_Some in Hy.
    destruct (decide (x = y)); naive_solver.
Qed.

Lemma uniq_ordered_nodup (d : gmap A Z) items : NoDup (uniq_ordered d items).
Proof.
  revert d. induction items as [|y items IH]; intros d; simpl; [constructor|].
  case_decide; [done|]. constructor; [|done].
  rewrite elem_of_uniq_ordered, lookup_insert_None. naive_solver.
Qed.

Lemma uniq_ordered_sublist (d : gmap A Z) items : uniq_ordered d items `sublist_of` items.
Proof.
  revert d. induction items as [|y items IH]; intros d; simpl; [constructor|].
  case_decide; by constructor.
Qed.

Lemma lookup_uniq_dict (d : gmap A Z) (items : list A) x :
  is_Some (foldl (λ d x, <[x := 0]> d) d items !! x) ↔ is_Some (d !! x) ∨ x ∈ items.
Proof.
  revert d. induction items as [|y items IH]; intros d; simpl; [set_solver|].
  rewrite IH, lookup_insert_is_Some', elem_of_cons. naive_solver.
Qed.

(** The fast order-preserving [uniquify] computes the same list as the
    slow algorithm it falls back to for unhashable items: the distinct items
    at their first occurrences, each once; without [preserve_order] it
    returns the same items in some order. *)
Theorem uniquify_equiv (hashable : A → bool) (items : list A) :
  uniquify hashable items true = uniq_slow items ∧
  uniquify hashable items false ≡ₚ uniq_slow items ∧
  NoDup (uniq_slow items) ∧ uniq_slow items `sublist_of` items ∧
  (∀ x, x ∈ uniq_slow items ↔ x ∈ items).
Proof.
  assert (∀ x, x ∈ uniq_slow items ↔ x ∈ items) as Helem.
  { intros x. rewrite <-uniq_ordered_slow, elem_of_uniq_ordered, lookup_empty. naive_solver. }
  assert (NoDup (uniq_slow items)) as Hnd
    by (rewrite <-uniq_ordered_slow; apply uniq_ordered_nodup).
  split_and!; [| |done| |done].
  - unfold uniquify. case_match; [apply uniq_ordered_slow|done].
  - unfold uniquify. case_match; [|done]. apply NoDup_Permutation; [apply dict_keys_nodup|done|].
    intros x. rewrite elem_of_dict_keys, lookup_uniq_dict, lookup_empty, Helem.
    split; [by intros [[]|]|auto].
  - rewrite <-uniq_ordered_slow. apply uniq_ordered_sublist.
Qed.
End uniquify_facts.

(** ** Reversing a dictionary *)

Section reverse_dict_facts.
Context `{DictOrder K} `{Countable V}.
Implicit Types d : gmap K V.

Lemma reverse_dict_gen d keys (result : gmap V K) v :
  let step := λ (result : gmap V K) (key : K), match d !! key with
                | Some value => <[value := key]> result | None => result end in
  (∀ k, foldl step result keys !! v = Some k → d !! k = Some v ∨ result !! v = Some k) ∧
  ((∃ k, k ∈ keys ∧ d !! k = Some v) ∨ is_Some (result !! v) → is_Some (foldl step result keys !! v)).
Proof.
  intros step. revert result. induction keys as [|key keys IH]; intros result; simpl.
  { split; [auto|]. by intros [(k & ?%elem_of_nil & _)|?]. }
  destruct (IH (step result key)) as [IH1 IH2]. unfold step in *. split.
  - intros k Hk. apply IH1 in Hk as [?|Hk]; [auto|].
    destruct (d !! key) as [value|] eqn:Hkey; [|auto].
    apply lookup_insert_Some in Hk as [[-> ->]|[_ ?]]; auto.
  - intros Hin. apply IH2. destruct Hin as [(k & Hk & Hv)|Hr].
    + apply elem_of_cons in Hk as [->|Hk]; [|eauto].
      right. rewrite Hv, lookup_insert_eq. eauto.
    + right. destruct (d !! key); [|done]. rewrite lookup_insert_is_Some'. auto.
Qed.

(** In the reversed dictionary every value of [d] is a key, and it maps to
    a key of [d] that held it; when no value repeats, it is the inverse map. *)
Theorem reverse_dict_spec d :
  (∀ v k, reverse_dict d !! v = Some k → d !! k = Some v) ∧
  (∀ k v, d !! k = Some v → is_Some (reverse_dict d !! v)) ∧
  ((∀ k1 k2 v, d !! k1 = Some v → d !! k2 = Some v → k1 = k2) →
     ∀ k v, d !! k = Some v ↔ reverse_dict d !! v = Some k).
Proof.
  assert (∀ v k, reverse_dict d !! v = Some k → d !! k = Some v) as Hback.
  { intros v k Hk. destruct (reverse_dict_gen d (dict_keys d) ∅ v) as [Hgen _].
    apply Hgen in Hk as [?|Hk]; [done|]. by rewrite lookup_empty in Hk. }
  assert (∀ k v, d !! k = Some v → is_Some (reverse_dict d !! v)) as Hdom.
  { intros k v Hk. destruct (reverse_dict_gen d (dict_keys d) ∅ v) as [_ Hgen].
    apply Hgen. left. exists k. split; [|done]. apply elem_of_dict_keys. eauto. }
  split_and!; [done..|]. intros Hinj k v. split; [|apply Hback].
  intros Hk. destruct (Hdom k v Hk) as [k' Hk']. by rewrite (Hinj k k' v Hk (Hback v k' Hk')).
Qed.
End reverse_dict_facts.

Lemma reverse_dict_spec_witness :
  reverse_dict ({[1 := true; 2 := false]} : gmap Z bool) !! true = Some 1.
Proof.
  assert (({[1 := true; 2 := false]} : gmap Z bool) !! 1 = Some true) as H1 by reflexivity.
  revert H1. apply (reverse_dict_spec ({[1 := true; 2 := false]} : gmap Z bool)).
  intros k1 k2 v H1 H2.
  apply lookup_insert_Some in H1 as [[? ?]|[? [? ?]%lookup_singleton_Some]];
  apply lookup_insert_Some in H2 as [[? ?]|[? [? ?]%lookup_singleton_Some]]; congruence.
Defined.

(** ** Common prefix and suffix *)

Section common_fixes.
Context {A : Type} `{EqDecision A}.
Implicit Types s p q : list A.

Lemma prefix_loop_spec fuel i s1 s2 acc :
  (Nat.min (length s1) (length s2) ≤ fuel + i)%nat →
  prefix_loop fuel i s1 s2 acc = acc ++ (max_prefix (drop i s1) (drop i s2)).2.
Proof.
  revert i acc. induction fuel as [|fuel IH]; intros i acc Hf; cbn [prefix_loop].
  - destruct (decide (length s1 ≤ i)%nat).
    + rewrite (drop_ge s1) by lia.
      destruct (drop i s2); simpl; by rewrite app_nil_r.
    + rewrite (drop_ge s2) by lia. destruct (drop i s1); simpl; by rewrite app_nil_r.
  - destruct (s1 !! i) as [a|] eqn:H1; [destruct (s2 !! i) as [b|] eqn:H2|].
    + rewrite (drop_S _ _ _ H1), (drop_S _ _ _ H2). simpl. unfold decide_rel, decide.
      destruct (EqDecision0 a b); [|by simpl; rewrite app_nil_r].
      rewrite IH by lia. by destruct (max_prefix _ _) as [[]]; simpl; rewrite <-app_assoc.
    + apply lookup_ge_None in H2. rewrite (drop_ge s2) by lia.
      destruct (drop i s1); simpl; by rewrite app_nil_r.
    + apply lookup_ge_None in H1. rewrite (drop_ge s1) by lia.
      destruct (drop i s2); simpl; by rewrite app_nil_r.
Qed.

Lemma py_index_neg s i :
  py_index s (- Z.of_nat (S i)) =
  match list.reverse s !! i with Some x => Ok x | None => Err IndexError end.
Proof.
  unfold py_index. rewrite (decide_True (P := - Z.of_nat (S i) < 0)) by lia.
  destruct (decide (i < length s)%nat).
  - rewrite decide_False by lia. rewrite reverse_lookup by done.
    by replace (Z.to_nat (Z.of_nat (length s) + - Z.of_nat (S i))) with (length s - S i)%nat by lia.
  - rewrite decide_True by lia. rewrite lookup_ge_None_2; [done|]. rewrite length_reverse. lia.
Qed.

Lemma suffix_loop_prefix fuel i s1 s2 acc :
  suffix_loop fuel (S i) s1 s2 acc = prefix_loop fuel i (list.reverse s1) (list.reverse s2) acc.
Proof.
  revert i acc. induction fuel as [|fuel IH]; intros i acc; [done|].
  cbn [prefix_loop suffix_loop]. rewrite !py_index_neg.
  destruct (list.reverse s1 !! i), (list.reverse s2 !! i); [|done..].
  case_decide; [apply IH|done].
Qed.

(** [find_common_fixes] returns the longest common prefix and the longest
    common suffix of its two arguments. *)
Theorem find_common_fixes_longest s1 s2 :
  let '(prefix, suffix) := find_common_fixes s1 s2 in
  prefix `prefix_of` s1 ∧ prefix `prefix_of` s2 ∧
  (∀ p, p `prefix_of` s1 → p `prefix_of` s2 → p `prefix_of` prefix) ∧
  suffix `suffix_of` s1 ∧ suffix `suffix_of` s2 ∧
  (∀ q, q `suffix_of` s1 → q `suffix_of` s2 → q `suffix_of` suffix).
Proof.
  unfold find_common_fixes. rewrite suffix_loop_prefix, !prefix_loop_spec
    by (rewrite ?length_reverse; lia).
  rewrite !drop_0. cbn [app].
  set (r1 := list.reverse s1). set (r2 := list.reverse s2).
  assert (∀ t1 t2 : list A, (max_prefix t1 t2).2 `prefix_of` t1) as Hl
    by (intros; eexists; apply max_prefix_fst).
  assert (∀ t1 t2 : list A, (max_prefix t1 t2).2 `prefix_of` t2) as Hr
    by (intros; eexists; apply max_prefix_snd).
  split_and!; [done|done|intros p; apply max_prefix_max|..].
  - apply suffix_prefix_reverse. rewrite reverse_involutive. apply Hl.
  - apply suffix_prefix_reverse. rewrite reverse_involutive. apply Hr.
  - intros q Hq1 Hq2. apply suffix_prefix_reverse. rewrite reverse_involutive.
    apply max_prefix_max; by apply suffix_prefix_reverse.
Qed.
End common_fixes.

(** ** The odometer of [binary_range] *)

(** Value of a vector whose lowest bit comes first. *)
Fixpoint lval (v : list ascii) : Z :=
  match v with
  | [] => 0
  | c :: v => (if decide (c = "1"%char) then 1 else 0) + 2 * lval v
  end.
(** One step of the odometer, with its carry. *)
Fixpoint incr (v : list ascii) : list ascii * bool :=
  match v with
  | [] => ([], true)
  | c :: v =>
      if decide (c = "0"%char) then ("1"%char :: v, false)
      else let '(v, carry) := incr v in ("0"%char :: v, carry)
  end.

Lemma binval_reverse v : binval 0 (list.reverse v) = lval v.
Proof.
  induction v as [|c v IH]; [done|]. rewrite reverse_cons, binval_app, IH.
  cbn [binval lval]. lia.
Qed.

Lemma lval_bounds v : 0 ≤ lval v < 2 ^ Z.of_nat (length v).
Proof.
  rewrite <-binval_reverse. pose proof (binval_bounds 0 (list.reverse v)).
  rewrite length_reverse in *. lia.
Qed.

Lemma lval_cons0 v : lval ("0"%char :: v) = 2 * lval v.
Proof. done. Qed.
Lemma lval_cons1 v : lval ("1"%char :: v) = 1 + 2 * lval v.
Proof. done. Qed.

Lemma incr_spec v :
  Forall is_bit v →
  Forall is_bit (incr v).1 ∧ length (incr v).1 = length v ∧
  lval (incr v).1 + (if (incr v).2 then 2 ^ Z.of_nat (length v) else 0) = lval v + 1.
Proof.
  induction 1 as [|c v Hc Hv (IHb & IHl & IHv)]; [done|].
  cbn [incr length]. rewrite Nat2Z.inj_succ, Z.pow_succ_r by lia.
  destruct Hc as [-> | ->].
  - rewrite decide_True by done. cbn [fst snd]. rewrite lval_cons0, lval_cons1.
    split_and!; [constructor; [by right|done]|done|lia].
  - rewrite decide_False by done. destruct (incr v) as [v' carry]. cbn [fst snd length] in *.
    rewrite lval_cons0, lval_cons1.
    split_and!; [constructor; [by left|done]|lia|]. destruct carry; lia.
Qed.

Lemma toggle_loop_incr fuel pre suf toggle :
  let i := length pre in let bits := (i + length suf)%nat in
  (length suf ≤ fuel)%nat → length toggle = S bits → toggle !! i = Some 1 →
  (∀ j, (i < j ≤ bits)%nat → toggle !! j = Some 0) → Forall is_bit suf →
  ∃ t', toggle_loop fuel bits i (pre ++ suf) toggle = (pre ++ (incr suf).1, t') ∧
    t' !! bits = Some (if (incr suf).2 then 1 else 0).
Proof.
  intros i bits. subst i bits. revert pre toggle fuel.
  induction suf as [|c suf IH]; intros pre toggle fuel Hf Hlen Hone Hzero Hb.
  - rewrite Nat.add_0_r in *. destruct fuel; cbn [toggle_loop incr fst snd];
      [|rewrite decide_False by lia]; eauto.
  - destruct fuel as [|fuel]; cbn [length] in *; [lia|]. cbn [toggle_loop].
    rewrite decide_True by (split; [lia|done]). apply Forall_cons in Hb as [Hc Hb].
    rewrite list_lookup_middle by done.
    assert (∀ x d, <[length pre := x]> (pre ++ d :: suf) = pre ++ x :: suf) as Hins
      by (intros; rewrite insert_app_r_alt by done; by rewrite Nat.sub_diag).
    cbn [incr]. destruct Hc as [-> | ->].
    + rewrite !decide_True, Hins by done. cbn [fst snd].
      exists (<[S (length pre) := 0]> toggle). split.
      * destruct fuel; [done|]. cbn [toggle_loop]. rewrite decide_False; [done|].
        rewrite list_lookup_insert_eq by lia. by intros [_ [=]].
      * destruct (decide (S (length pre) = length pre + S (length suf)))%nat as [<-|].
        -- apply list_lookup_insert_eq. lia.
        -- rewrite list_lookup_insert_ne by done. apply Hzero. lia.
    + rewrite !decide_False, Hins by (done || by intros [=]). destruct (incr suf) as [suf' carry] eqn:Hincr.
      destruct (IH (pre ++ ["0"%char]) (<[S (length pre) := 1]> toggle) fuel) as (t' & Ht' & Hbit).
      * lia.
      * rewrite length_insert, length_app. cbn [length]. lia.
      * rewrite length_app, Nat.add_1_r. apply list_lookup_insert_eq. lia.
      * rewrite length_app. cbn [length]. intros j Hj.
        rewrite list_lookup_insert_ne by lia. apply Hzero. lia.
      * done.
      * rewrite length_app, <-app_assoc in Ht'. rewrite length_app in Hbit.
        cbn [length app fst snd] in *.
        replace (length pre + 1 + length suf)%nat with (length pre + S (length suf))%nat in * by lia.
        rewrite Nat.add_1_r in Ht'. exists t'. rewrite Ht', <-app_assoc. done.
Qed.

Lemma binary_range_loop_spec fuel bits v toggle l :
  length v = bits → Forall is_bit v → toggle !! bits = Some 0 →
  2 ^ Z.of_nat bits - lval v ≤ Z.of_nat fuel →
  ∃ rest, binary_range_loop fuel bits v toggle l = Some (l ++ rest) ∧
    Z.of_nat (length rest) = 2 ^ Z.of_nat bits - lval v ∧
    ∀ k bs, rest !! k = Some bs → length bs = bits ∧ Forall is_bit bs ∧
      binval 0 bs = lval v + Z.of_nat k.
Proof.
  revert v toggle l. induction fuel as [|fuel IH]; intros v toggle l Hlen Hb Ht Hf.
  { pose proof (lval_bounds v). rewrite Hlen in *. lia. }
  cbn [binary_range_loop]. rewrite decide_False by (rewrite Ht; by intros [=]).
  destruct (toggle_loop_incr bits [] v (1 :: replicate bits 0)) as (t' & Hloop & Hbit);
    cbn [length]; rewrite ?length_replicate; try done; try lia.
  { intros j Hj. destruct j; [lia|]. cbn. apply lookup_replicate_2. lia. }
  cbn [length app Nat.add] in Hloop, Hbit. rewrite Hlen in Hloop, Hbit. rewrite Hloop.
  destruct (incr_spec v Hb) as (Hb' & Hlen' & Hval). rewrite Hlen in Hlen', Hval.
  assert (length (list.reverse v) = bits ∧ Forall is_bit (list.reverse v) ∧
    binval 0 (list.reverse v) = lval v) as Hv
    by (rewrite length_reverse, binval_reverse; split_and!; [done|by apply Forall_reverse|done]).
  destruct (incr v).2 eqn:Hcarry.
  - pose proof (lval_bounds (incr v).1) as Hbd. pose proof (lval_bounds v) as Hbd'.
    rewrite Hlen in Hbd'. exists [list.reverse v].
    split_and!; [|cbn [length]; lia|].
    + destruct fuel; cbn [binary_range_loop]; by rewrite decide_True.
    + intros [|k] bs; [intros [= <-]|done]. rewrite Z.add_0_r. done.
  - destruct (IH (incr v).1 t' (l ++ [list.reverse v])) as (rest & Hrest & Hlr & Hk); [done|done|done|lia|].
    exists (list.reverse v :: rest). rewrite Hrest, <-app_assoc. split_and!; [done|cbn [length]; lia|].
    intros [|k] bs; [intros [= <-]; rewrite Z.add_0_r; done|]. intros (? & ? & ?)%Hk.
    split_and!; [done|done|lia].
Qed.

Lemma binval_inj l k acc acc' :
  length l = length k → Forall is_bit l → Forall is_bit k →
  binval acc l = binval acc' k → acc = acc' ∧ l = k.
Proof.
  revert k acc acc'. induction l as [|c l IH]; intros [|d k] acc acc' Hlen Hl Hk Hv;
    try discriminate; [done|]. cbn [binval] in Hv.
  apply Forall_cons in Hl as [Hc Hl]. apply Forall_cons in Hk as [Hd Hk].
  apply IH in Hv as [Hacc ->]; [|by injection Hlen|done|done].
  destruct Hc as [-> | ->], Hd as [-> | ->]; repeat case_decide; try done; (split; [lia|try done]); lia.
Qed.

(** For a positive width, [binary_range] ends after [2^bits] steps and its
    k-th entry is the string that [int2bin] gives for [k]; for width 0 it
    returns the empty list. *)
Theorem binary_range_int2bin (bits : nat) :
  binary_range 0 = Some [] ∧
  ((0 < bits)%nat → ∃ l, binary_range bits = Some l ∧ Z.of_nat (length l) = 2 ^ Z.of_nat bits ∧
     ∀ k bs, l !! k = Some bs → int2bin false (Z.of_nat k) (Z.of_nat bits) = Ok bs).
Proof.
  split; [done|]. intros Hbits. unfold binary_range.
  assert (lval (replicate bits "0"%char) = 0) as Hzero.
  { clear. induction bits; [done|]. cbn [replicate]. rewrite lval_cons0. lia. }
  destruct (binary_range_loop_spec (2 ^ bits) bits (replicate bits "0"%char) (1 :: replicate bits 0) [])
    as (l & -> & Hlen & Hl).
  - apply length_replicate.
  - apply Forall_replicate_bit.
  - destruct bits as [|b]; [lia|]. change (replicate (S b) 0 !! b = Some 0).
    apply lookup_replicate_2. lia.
  - rewrite Hzero, Nat2Z.inj_pow. lia.
  - rewrite Hzero in *. exists l. split_and!; [done|lia|]. intros k bs Hk.
    pose proof (lookup_lt_Some _ _ _ Hk). apply Hl in Hk as (Hlbs & Hbs & Hv).
    destruct (int2bin_roundtrip false (Z.of_nat k) (Z.of_nat bits)) as [Hok _]; [lia|lia|].
    destruct Hok as (bs' & -> & Hlen' & Hb' & Hback); [lia|]. f_equal.
    rewrite bin2int_bits in Hback; [|destruct bs'; [cbn in Hlen'; lia|done]|done].
    injection Hback as Hback. apply (binval_inj bs' bs 0 0); try done; lia.
Qed.

Lemma binary_range_int2bin_witness :
  ∃ l, binary_range 3 = Some l ∧ Z.of_nat (length l) = 2 ^ Z.of_nat 3 ∧
     ∀ k bs, l !! k = Some bs → int2bin false (Z.of_nat k) (Z.of_nat 3) = Ok bs.
Proof. apply (binary_range_int2bin 3). lia. Defined.

(** ** Random vectors *)

Lemma draw_bits_ok draws k n :
  (∀ j, 0 ≤ draws j < 1024) →
  ∃ v, draw_bits draws k n = Ok v ∧ length v = (10 * n)%nat.
Proof.
  intros Hd. revert k. induction n as [|n IH]; intros k; [by exists []|]. cbn [draw_bits].
  destruct (int2bin_roundtrip false (draws k) 10) as [Hok _]; [apply Hd|lia|].
  destruct Hok as (c & -> & Hc & _); [apply Hd|]. destruct (IH (S k)) as (v & Hv & Hlen).
  cbn [mbind result_bind]. rewrite Hv. exists (c ++ v). split; [done|].
  rewrite length_app, Hc, Hlen. lia.
Qed.

(** Without a maximum, [random_vec] returns exactly [bits] binary digits
    whatever the generator draws; with a maximum it can raise ValueError,
    because the drawn vector is longer than [bits] before it is scaled. *)
Theorem random_vec_length (draws : nat → Z) bits :
  (∀ k, 0 ≤ draws k < 1024) → 0 ≤ bits →
  (∃ v, random_vec draws bits None = Ok v ∧ length v = Z.to_nat bits) ∧
  random_vec (λ _, 1023) 4 (Some 3) = Err too_large.
Proof.
  intros Hd Hb. split; [|done]. unfold random_vec.
  destruct (draw_bits_ok draws 0 (Z.to_nat (bits / 10 + 1)) Hd) as (v & -> & Hlen).
  cbn [mbind result_bind]. eexists. split; [done|].
  rewrite <-(Z2Nat.id bits) at 1 by done. change 0 with (Z.of_nat 0). rewrite slice_nat.
  rewrite drop_0, length_take. pose proof (Z.div_mod bits 10). pose proof (Z.mod_pos_bound bits 10).
  lia.
Qed.

Lemma random_vec_length_witness :
  (∃ v, random_vec (λ k, Z.of_nat k mod 1024) 12 None = Ok v ∧ length v = Z.to_nat 12) ∧
  random_vec (λ _, 1023) 4 (Some 3) = Err too_large.
Proof.
  apply (random_vec_length (λ k, Z.of_nat k mod 1024) 12); [|lia].
  intros k. apply Z.mod_pos_bound. lia.
Defined.

(** ** Rounding to a grid *)

(** On a positive grid the nearest mode returns a multiple of the grid at
    distance at most half a grid step, the up and down modes return the
    multiple just above and just below a value off the grid, and on a value
    that is on the grid the up and down modes raise UnboundLocalError. *)
Theorem round_grid_spec value grid :
  0 < grid →
  (∃ r, round_grid value grid 0 = Ok r ∧ (grid | r) ∧ 2 * Z.abs (r - value) ≤ grid) ∧
  (value mod grid ≠ 0 → ∃ up down, round_grid value grid 1 = Ok up ∧
     round_grid value grid (-1) = Ok down ∧ (grid | up) ∧ down < value < up ∧ up = down + grid) ∧
  (value mod grid = 0 → round_grid value grid 1 = Err UnboundLocalError ∧
     round_grid value grid (-1) = Err UnboundLocalError).
Proof.
  intros Hg. unfold round_grid. rewrite !(decide_False (P := grid = 0)) by lia.
  pose proof (Z.div_mod value grid). pose proof (Z.mod_pos_bound value grid Hg).
  split_and!.
  - rewrite decide_True by done. cbn [mbind result_bind]. eexists. split; [done|].
    split; [apply Z.divide_factor_r|]. case_decide; nia.
  - intros Hoff. rewrite (decide_True (P := 1 = 1 ∧ _)) by (split; [done|exact Hoff]).
    rewrite (decide_True (P := -1 = -1 ∧ _)) by (split; [done|exact Hoff]).
    exists ((value / grid + 1) * grid), ((value / grid + 0) * grid). split; [done|].
    split; [done|]. split; [apply Z.divide_factor_r|]. nia.
  - intros Hon. rewrite !(decide_False (P := _ ∧ value mod grid ≠ 0)) by naive_solver.
    done.
Qed.

Lemma round_grid_spec_witness :
  (∃ r, round_grid 7 5 0 = Ok r ∧ (5 | r) ∧ 2 * Z.abs (r - 7) ≤ 5) ∧
  (10 mod 5 = 0 → round_grid 10 5 1 = Err UnboundLocalError ∧
     round_grid 10 5 (-1) = Err UnboundLocalError).
Proof. split; [apply (round_grid_spec 7 5); lia|apply (round_grid_spec 10 5); lia]. Defined.
