(* ===== verification/Topsort.v ===== *)
(** * bindings/python/topsort.py: dependency sorting
    The nodes are the values of a countable type [A].  A dict that only counts
    or looks up is a [gmap]; where the code lists its keys, the order is the
    one of the [DictOrder] interface, so every theorem holds for any order of
    the interpreter.  Counters are integers, as in the code: nothing keeps
    [num_parents[child] -= 1] from going below zero but the proofs. *)
From S2P Require Import Prelude.
#[local] Open Scope Z_scope.

Section topsort.
  Context {A : Type} `{Countable A} `{!DictOrder A}.

(** [CycleError(answer, num_parents, children)] and, from the levels version,
    [CycleError(num_parents, children)]. *)
Inductive top_exn : Type :=
| TopKeyError
| CycleError (answer : option (list A)) (num_parents : gmap A Z) (children : gmap A (list A)).

(** One pass of the loop that reads [pairlist]. *)
Definition add_pair (st : gmap A Z * gmap A (list A)) (pair : A * A)
    : gmap A Z * gmap A (list A) :=
  let '(num_parents, children) := st in
  let '(parent, child) := pair in
  let num_parents := if decide (is_Some (num_parents !! parent)) then num_parents
                     else <[parent := 0]> num_parents in
  let num_parents := if decide (is_Some (num_parents !! child)) then num_parents
                     else <[child := 0]> num_parents in
  let num_parents := alter (λ n, n + 1) child num_parents in
  let children := <[parent := default [] (children !! parent) ++ [child]]> children in
  (num_parents, children).
Definition count_parents (pairlist : list (A * A)) : gmap A Z * gmap A (list A) :=
  foldl add_pair (∅, ∅) pairlist.

(** [[x for x in num_parents.keys() if num_parents[x] == 0]] *)
Definition without_parents (num_parents : gmap A Z) : list A :=
  filter (λ x, num_parents !! x = Some 0) (dict_keys num_parents).

(** [for child in children[parent]: num_parents[child] -= 1; ...append] *)
Fixpoint knock_down (num_parents : gmap A Z) (answer cs : list A)
    : result top_exn (gmap A Z * list A) :=
  match cs with
  | [] => Ok (num_parents, answer)
  | child :: cs =>
      match num_parents !! child with
      | None => Err TopKeyError
      | Some n =>
          knock_down (<[child := n - 1]> num_parents)
            (if decide (n - 1 = 0) then answer ++ [child] else answer) cs
      end
  end.

(** [for parent in answer]: the list grows while it is iterated by index.
    [fuel] bounds the iterations; each deletes a key of [num_parents]. *)
Fixpoint topsort_loop (fuel idx : nat) (answer : list A) (num_parents : gmap A Z)
    (children : gmap A (list A)) : option (result top_exn (list A * gmap A Z * gmap A (list A))) :=
  match answer !! idx with
  | None => Some (Ok (answer, num_parents, children))
  | Some parent =>
      match fuel with
      | O => None
      | S fuel =>
          match num_parents !! parent with
          | None => Some (Err TopKeyError)
          | Some _ =>
              let num_parents := delete parent num_parents in
              match children !! parent with
              | Some cs =>
                  match knock_down num_parents answer cs with
                  | Ok (num_parents, answer) =>
                      topsort_loop fuel (S idx) answer num_parents (delete parent children)
                  | Err e => Some (Err e)
                  end
              | None => topsort_loop fuel (S idx) answer num_parents children
              end
          end
      end
  end.

Definition topsort (pairlist : list (A * A)) : option (result top_exn (list A)) :=
  let '(num_parents, children) := count_parents pairlist in
  let answer := without_parents num_parents in
  r ← topsort_loop (size num_parents) 0 answer num_parents children;
  Some ('(answer, num_parents, children) ← r;
        if decide (num_parents = ∅) then Ok answer
        else Err (CycleError (Some answer) num_parents children)).

(** [for level_parent in level_parents: ...] of the levels version. *)
Fixpoint dec_children (num_parents : gmap A Z) (cs : list A) : result top_exn (gmap A Z) :=
  match cs with
  | [] => Ok num_parents
  | child :: cs =>
      match num_parents !! child with
      | None => Err TopKeyError
      | Some n => dec_children (<[child := n - 1]> num_parents) cs
      end
  end.
Fixpoint drop_level (num_parents : gmap A Z) (children : gmap A (list A)) (level_parents : list A)
    : result top_exn (gmap A Z * gmap A (list A)) :=
  match level_parents with
  | [] => Ok (num_parents, children)
  | level_parent :: level_parents =>
      match num_parents !! level_parent with
      | None => Err TopKeyError
      | Some _ =>
          let num_parents := delete level_parent num_parents in
          match children !! level_parent with
          | Some cs =>
              num_parents ← dec_children num_parents cs;
              drop_level num_parents (delete level_parent children) level_parents
          | None => drop_level num_parents children level_parents
          end
      end
  end.

(** The generator: the levels it yields, and how it ends: [Ok tt] is
    StopIteration.  [None] when the fuel runs out. *)
Fixpoint topsort_levels_core (fuel : nat) (num_parents : gmap A Z) (children : gmap A (list A))
    : option (list (list A) * result top_exn unit) :=
  let level_parents := without_parents num_parents in
  match level_parents with
  | [] =>
      Some ([], if decide (num_parents = ∅) then Ok tt
                else Err (CycleError None num_parents children))
  | _ :: _ =>
      match fuel with
      | O => None
      | S fuel =>
          match drop_level num_parents children level_parents with
          | Err e => Some ([level_parents], Err e)
          | Ok (num_parents, children) =>
              '(levels, r) ← topsort_levels_core fuel num_parents children;
              Some (level_parents :: levels, r)
          end
      end
  end.
Definition topsort_levels (pairlist : list (A * A)) : option (list (list A) * result top_exn unit) :=
  let '(num_parents, children) := count_parents pairlist in
  topsort_levels_core (size num_parents) num_parents children.

(** ** The graph, and what the two dicts hold of it *)

Implicit Types (E : list (A * A)) (P : list A) (np : gmap A Z) (ch : gmap A (list A)).

Definition edge E (x y : A) : Prop := (x, y) ∈ E.
#[local] Instance edge_dec E x y : Decision (edge E x y) := decide ((x, y) ∈ E).
Definition vertex E (x : A) : Prop := ∃ y, edge E x y ∨ edge E y x.
(** The number of edges into [x] from nodes that are not in [P]. *)
Fixpoint pending E P (x : A) : Z :=
  match E with
  | [] => 0
  | (q, y) :: E => pending E P x + (if decide (y = x ∧ q ∉ P) then 1 else 0)
  end.
Fixpoint kids E (x : A) : list A :=
  match E with
  | [] => []
  | (q, y) :: E => if decide (q = x) then y :: kids E x else kids E x
  end.
Fixpoint occ (x : A) (l : list A) : Z :=
  match l with
  | [] => 0
  | y :: l => occ x l + (if decide (y = x) then 1 else 0)
  end.

(** After the nodes of [P] have been taken out: the counters count the edges
    from the other nodes, and [children] has the successors of the others. *)
Record dict_inv E P np ch : Prop := {
  inv_np : ∀ x n, np !! x = Some n ↔ vertex E x ∧ (x ∉ P) ∧ n = pending E P x;
  inv_ch : ∀ x cs, ch !! x = Some cs ↔ (x ∉ P) ∧ cs = kids E x ∧ cs ≠ [];
  inv_closed : ∀ q x, edge E q x → x ∈ P → q ∈ P;
}.

Lemma elem_of_kids E p c : c ∈ kids E p ↔ edge E p c.
Proof.
  unfold edge. induction E as [|[q y] E IH]; simpl; [by rewrite !elem_of_nil|].
  rewrite elem_of_cons. case_decide; [rewrite elem_of_cons|]; naive_solver.
Qed.

Lemma pending_nonneg E P x : 0 ≤ pending E P x.
Proof. induction E as [|[q y] E IH]; simpl; [done|]. case_decide; lia. Qed.

Lemma occ_nonneg x l : 0 ≤ occ x l.
Proof. induction l as [|y l IH]; simpl; [done|]. case_decide; lia. Qed.

Lemma occ_pos x l : 0 < occ x l ↔ x ∈ l.
Proof.
  induction l as [|y l IH]; simpl; [rewrite elem_of_nil; lia|].
  pose proof (occ_nonneg x l). rewrite elem_of_cons, <-IH. case_decide; subst; naive_solver lia.
Qed.

Lemma pending_zero E P x : pending E P x = 0 ↔ ∀ q, edge E q x → q ∈ P.
Proof.
  unfold edge. induction E as [|[q y] E IH]; simpl.
  { split; [|done]. by intros _ q ?%elem_of_nil. }
  pose proof (pending_nonneg E P x). case_decide as Hqy.
  - split; [lia|]. intros Hall. destruct Hqy as [-> Hq]. destruct Hq. apply Hall. left.
  - rewrite Z.add_0_r, IH. split.
    + intros Hall q' [[= -> ->]|Hin]%elem_of_cons; [|auto].
      destruct (decide (q ∈ P)); naive_solver.
    + intros Hall q' Hin. apply Hall. by right.
Qed.

Lemma pending_snoc E P p x :
  p ∉ P → pending E (P ++ [p]) x + occ x (kids E p) = pending E P x.
Proof.
  intros Hp. induction E as [|[q y] E IH]; simpl; [done|].
  rewrite <-IH. destruct (decide (q = p)) as [->|Hqp].
  - simpl. destruct (decide (y = x)) as [->|].
    + rewrite (decide_True (P := x = x ∧ p ∉ P)) by done.
      rewrite decide_False by set_solver. lia.
    + rewrite !decide_False by naive_solver. lia.
  - destruct (decide (y = x ∧ q ∉ P)).
    + rewrite decide_True by set_solver. lia.
    + rewrite decide_False by set_solver. lia.
Qed.

Lemma edge_vertex_l E x y : edge E x y → vertex E x.
Proof. intros. exists y. by left. Qed.
Lemma edge_vertex_r E x y : edge E x y → vertex E y.
Proof. intros. exists x. by right. Qed.

(** ** Reading the pairs *)

Lemma pending_app E1 E2 P x : pending (E1 ++ E2) P x = pending E1 P x + pending E2 P x.
Proof. induction E1 as [|[q y] E1 IH]; simpl; [done|]. lia. Qed.
Lemma kids_app E1 E2 x : kids (E1 ++ E2) x = kids E1 x ++ kids E2 x.
Proof. induction E1 as [|[q y] E1 IH]; simpl; [done|]. case_decide; simpl; by rewrite IH. Qed.
Lemma vertex_snoc E p c x : vertex (E ++ [(p, c)]) x ↔ vertex E x ∨ x = p ∨ x = c.
Proof.
  unfold vertex, edge. setoid_rewrite elem_of_app. setoid_rewrite list_elem_of_singleton.
  naive_solver.
Qed.
Lemma pending_not_vertex E P x : ¬ vertex E x → pending E P x = 0.
Proof. intros Hx. apply pending_zero. intros q Hq. destruct Hx. eauto using edge_vertex_r. Qed.

Lemma setdefault_lookup np k x :
  (if decide (is_Some (np !! k)) then np else <[k := 0]> np) !! x =
  if decide (x = k) then Some (default 0 (np !! x)) else np !! x.
Proof.
  case_decide as Hk.
  - case_decide; [subst|done]. by destruct Hk as [n ->].
  - apply eq_None_not_Some in Hk. rewrite lookup_insert.
    repeat case_decide; subst; try done. by rewrite Hk.
Qed.

Lemma dict_inv_lookup E P np ch x :
  dict_inv E P np ch → vertex E x → x ∉ P → np !! x = Some (pending E P x).
Proof. intros Hinv ??. by apply Hinv. Qed.

Lemma count_parents_inv E : dict_inv E [] (count_parents E).1 (count_parents E).2.
Proof.
  induction E as [|[p c] E IH] using rev_ind.
  { split; simpl; [..|set_solver]; intros; rewrite lookup_empty; unfold vertex, edge; set_solver. }
  unfold count_parents in *. rewrite foldl_app. simpl.
  destruct (foldl add_pair (∅, ∅) E) as [np ch]. destruct IH as [Hnp Hch _]. simpl in *.
  split; [intros x n|intros x cs|set_solver].
  - rewrite vertex_snoc, pending_app, lookup_alter. simpl.
    assert ((x ∉ []) ↔ True) as -> by set_solver.
    assert (default 0 (np !! x) = pending E [] x ∧ (is_Some (np !! x) ↔ vertex E x)) as [Hd Hv].
    { destruct (np !! x) as [m|] eqn:Hx; simpl.
      - apply Hnp in Hx as (? & _ & ->). naive_solver.
      - assert (¬ vertex E x) as Hnv by (intros Hv; assert (np !! x = Some (pending E [] x)) by (apply Hnp; set_solver); congruence).
        rewrite pending_not_vertex by done. split; [done|]. split; [by intros []|done]. }
    destruct (decide (c = x)) as [->|Hcx].
    + rewrite (decide_True (P := x = x ∧ p ∉ [])) by set_solver.
      rewrite (setdefault_lookup _ x x), (setdefault_lookup _ p x), decide_True by done.
      assert (default 0 (if decide (x = p) then Some (default 0 (np !! x)) else np !! x) =
        pending E [] x) as -> by (case_decide; simpl; done).
      simpl. split; [intros [= <-]; auto|]. by intros (_ & _ & ->).
    + rewrite (setdefault_lookup _ c x), (setdefault_lookup _ p x).
      rewrite (decide_False (P := c = x ∧ _)) by naive_solver.
      rewrite (decide_False (P := x = c)) by done. rewrite Z.add_0_r, <-Hd.
      destruct (decide (x = p)) as [->|].
      { split; [intros [= <-]; auto|]. by intros (_ & _ & ->). }
      destruct (np !! x) eqn:Hx; simpl; split.
      * intros [= ->]. split_and!; [left; by apply Hv|done|done].
      * by intros (_ & _ & ->).
      * done.
      * intros ([Hvx|[?|?]] & _); [|done..]. apply Hv in Hvx as [? ?]. done.
  - rewrite kids_app, lookup_insert. simpl.
    assert ((x ∉ []) ↔ True) as -> by set_solver.
    assert (default [] (ch !! x) = kids E x) as Hd.
    { destruct (ch !! x) as [l|] eqn:Hx; [by apply Hch in Hx as (_ & -> & _)|].
      destruct (kids E x) as [|y l] eqn:Hk; [done|].
      assert (ch !! x = Some (y :: l)) by (apply Hch; rewrite Hk; set_solver). congruence. }
    case_decide as Hpx; [subst|].
    + rewrite Hd. split; [intros [= <-]; by destruct (kids E x)|naive_solver].
    + rewrite app_nil_r, Hch. set_solver.
Qed.

(** ** Taking one node out *)

Lemma dec_children_spec np cs (t : A → Z) :
  (∀ x n, np !! x = Some n → n = t x + occ x cs) → (∀ x, x ∈ cs → is_Some (np !! x)) →
  ∃ np', dec_children np cs = Ok np' ∧ ∀ x, np' !! x = (λ _, t x) <$> np !! x.
Proof.
  revert np. induction cs as [|c cs IH]; intros np Ht Hin; simpl.
  - exists np. split; [done|]. intros x. destruct (np !! x) as [n|] eqn:Hx; [|done].
    apply Ht in Hx. simpl in *. by rewrite Hx, Z.add_0_r.
  - destruct (Hin c) as [n Hn]; [left|]. rewrite Hn.
    destruct (IH (<[c := n - 1]> np)) as (np' & -> & Hnp').
    + intros x m [[<- <-]|[Hne Hx]]%lookup_insert_Some.
      * apply Ht in Hn. simpl in Hn. rewrite decide_True in Hn by done. lia.
      * apply Ht in Hx. simpl in Hx. rewrite decide_False in Hx by done. lia.
    + intros x Hx. rewrite lookup_insert_is_Some'. right. apply Hin. by right.
    + exists np'. split; [done|]. intros x. rewrite Hnp', lookup_insert.
      case_decide; [subst; by rewrite Hn|done].
Qed.

Lemma knock_down_spec np answer cs (t : A → Z) :
  (∀ x, 0 ≤ t x) →
  (∀ x n, np !! x = Some n → n = t x + occ x cs) → (∀ x, x ∈ cs → is_Some (np !! x)) →
  ∃ np' new, knock_down np answer cs = Ok (np', answer ++ new) ∧
    (∀ x, np' !! x = (λ _, t x) <$> np !! x) ∧
    NoDup new ∧ (∀ x, x ∈ new ↔ x ∈ cs ∧ t x = 0).
Proof.
  intros Hpos. revert np answer. induction cs as [|c cs IH]; intros np answer Ht Hin; simpl.
  - exists np, []. rewrite app_nil_r. split_and!; [done| |constructor|set_solver].
    intros x. destruct (np !! x) as [n|] eqn:Hx; [|done].
    apply Ht in Hx. simpl in *. by rewrite Hx, Z.add_0_r.
  - destruct (Hin c) as [n Hn]; [left|]. rewrite Hn.
    pose proof (Ht _ _ Hn) as Hn'. simpl in Hn'. rewrite decide_True in Hn' by done.
    edestruct (IH (<[c := n - 1]> np)) as (np' & new & -> & Hnp' & Hnd & Hnew).
    + intros x m [[<- <-]|[Hne Hx]]%lookup_insert_Some; [lia|].
      apply Ht in Hx. simpl in Hx. rewrite decide_False in Hx by done. lia.
    + intros x Hx. rewrite lookup_insert_is_Some'. right. apply Hin. by right.
    + pose proof (Hpos c). pose proof (occ_nonneg c cs). pose proof (occ_pos c cs) as Hocc.
      exists np', (if decide (n - 1 = 0) then c :: new else new). split_and!.
      * case_decide; [by rewrite <-app_assoc|done].
      * intros x. rewrite Hnp', lookup_insert. case_decide; [subst; by rewrite Hn|done].
      * case_decide; [|done]. constructor; [|done]. rewrite Hnew, <-Hocc. lia.
      * intros x. rewrite elem_of_cons. case_decide as Hn1.
        -- rewrite elem_of_cons, Hnew. destruct (decide (x = c)) as [->|]; [|naive_solver].
           split; [|auto]. intros _. split; [auto|]. lia.
        -- rewrite Hnew. destruct (decide (x = c)) as [->|]; [|naive_solver].
           split; [naive_solver|]. intros [_ Hz]. split; [|done]. apply Hocc. lia.
Qed.

(** A node without pending edges can be taken out: the counters of its
    successors are exact after the decrements, and no key is missing. *)
Lemma remove_parent E P np ch p :
  dict_inv E P np ch → vertex E p → (p ∉ P) → pending E P p = 0 →
  let t := pending E (P ++ [p]) in
  (∀ x n, delete p np !! x = Some n → n = t x + occ x (kids E p)) ∧
  (∀ x, x ∈ kids E p → is_Some (delete p np !! x)) ∧
  (∀ x, x ∈ kids E p → 0 < pending E P x) ∧
  (∀ np', (∀ x, np' !! x = (λ _, t x) <$> delete p np !! x) →
     dict_inv E (P ++ [p]) np' (delete p ch)).
Proof.
  intros Hinv Hv Hp H0 t. pose proof (proj1 (pending_zero E P p) H0) as Hpreds.
  assert (∀ c, edge E p c → (c ∉ P) ∧ c ≠ p) as Hkids.
  { intros c Hc. split; [intros HcP; destruct Hp; by eapply inv_closed|].
    intros ->. destruct Hp. auto. }
  split_and!.
  - intros x n [_ Hx]%lookup_delete_Some. apply Hinv in Hx as (_ & _ & ->).
    unfold t. by rewrite pending_snoc.
  - intros c Hc%elem_of_kids. destruct (Hkids c Hc). rewrite lookup_delete_ne by done.
    erewrite dict_inv_lookup by eauto using edge_vertex_r. eauto.
  - intros c Hc%elem_of_kids. pose proof (pending_nonneg E P c).
    destruct (decide (pending E P c = 0)) as [Hz|]; [|lia].
    destruct Hp. by apply (proj1 (pending_zero E P c) Hz).
  - intros np' Hnp'. split.
    + intros x n. rewrite Hnp', fmap_Some. setoid_rewrite lookup_delete_Some.
      setoid_rewrite (inv_np _ _ _ _ Hinv). rewrite elem_of_app, list_elem_of_singleton.
      split; [naive_solver|]. intros (? & ? & ->). eexists. split; [|done]. split; [naive_solver|].
      split_and!; [done|naive_solver|done].
    + intros x cs. rewrite lookup_delete_Some, (inv_ch _ _ _ _ Hinv), elem_of_app, list_elem_of_singleton.
      naive_solver.
    + intros q x Hq. rewrite !elem_of_app, !list_elem_of_singleton.
      intros [Hx| ->]; left; [by eapply inv_closed|auto].
Qed.

Lemma lookup_kids E P np ch p :
  dict_inv E P np ch → p ∉ P →
  ch !! p = match kids E p with [] => None | l => Some l end.
Proof.
  intros Hinv Hp. destruct (kids E p) as [|y l] eqn:Hk.
  - destruct (ch !! p) as [cs|] eqn:Hc; [|done].
    apply Hinv in Hc as (_ & -> & Hne). by rewrite Hk in Hne.
  - apply Hinv. rewrite Hk. done.
Qed.

Lemma same_dom_size np np' (f : A → Z) :
  (∀ x, np' !! x = (λ _, f x) <$> np !! x) → size np' = size np.
Proof.
  intros Hnp. rewrite <-!(size_dom (D := gset A)). f_equal. apply set_eq. intros x.
  by rewrite !elem_of_dom, Hnp, fmap_is_Some.
Qed.

Lemma without_parents_spec E P np ch :
  dict_inv E P np ch →
  NoDup (without_parents np) ∧
  ∀ x, x ∈ without_parents np ↔ vertex E x ∧ (x ∉ P) ∧ pending E P x = 0.
Proof.
  intros Hinv. unfold without_parents. split; [apply NoDup_filter, dict_keys_nodup|].
  intros x. rewrite list_elem_of_filter, elem_of_dict_keys.
  rewrite (inv_np _ _ _ _ Hinv). split.
  - naive_solver.
  - intros (? & ? & Hz). split; [done|]. exists 0. apply Hinv. done.
Qed.

(** ** topsort *)

(** The list has the nodes of the graph, each once, parents before children. *)
Definition top_sorted E (l : list A) : Prop :=
  NoDup l ∧ (∀ x, x ∈ l ↔ vertex E x) ∧
  (∀ j x q, l !! j = Some x → edge E q x → q ∈ take j l).

Record loop_inv E (idx : nat) (answer : list A) np ch : Prop := {
  li_dict : dict_inv E (take idx answer) np ch;
  li_idx : (idx ≤ length answer)%nat;
  li_nodup : NoDup answer;
  li_elem : ∀ x, x ∈ answer ↔ vertex E x ∧ pending E (take idx answer) x = 0;
  li_order : ∀ j x q, answer !! j = Some x → edge E q x → q ∈ take j answer;
}.

Lemma loop_inv_fresh E idx answer np ch parent :
  loop_inv E idx answer np ch → answer !! idx = Some parent →
  vertex E parent ∧ (parent ∉ take idx answer) ∧ pending E (take idx answer) parent = 0.
Proof.
  intros Hinv Hp. pose proof (list_elem_of_lookup_2 _ _ _ Hp) as Hin.
  apply (li_elem _ _ _ _ _ Hinv) in Hin as [? ?]. split_and!; [done| |done].
  intros (j & Hj & Hlt)%elem_of_take. pose proof (NoDup_lookup _ _ _ _ (li_nodup _ _ _ _ _ Hinv) Hp Hj).
  lia.
Qed.

(** One iteration: the new nodes without pending edges are appended. *)
Lemma loop_inv_step E idx answer np ch parent np' new :
  loop_inv E idx answer np ch → answer !! idx = Some parent →
  let t := pending E (take idx answer ++ [parent]) in
  (∀ x, np' !! x = (λ _, t x) <$> delete parent np !! x) →
  NoDup new → (∀ x, x ∈ new ↔ x ∈ kids E parent ∧ t x = 0) →
  loop_inv E (S idx) (answer ++ new) np' (delete parent ch).
Proof.
  intros Hinv Hp t Hnp' Hnd Hnew.
  destruct (loop_inv_fresh _ _ _ _ _ _ Hinv Hp) as (Hv & Hnot & Hz).
  destruct (remove_parent _ _ _ _ _ (li_dict _ _ _ _ _ Hinv) Hv Hnot Hz) as (_ & _ & Hpos & Hdict).
  pose proof (lookup_lt_Some _ _ _ Hp) as Hlt.
  assert (take (S idx) (answer ++ new) = take idx answer ++ [parent]) as Htake.
  { rewrite take_app_le by lia. by apply take_S_r. }
  assert (∀ x, t x + occ x (kids E parent) = pending E (take idx answer) x) as Ht
    by (intros x; by apply pending_snoc).
  split.
  - rewrite Htake. by apply Hdict.
  - rewrite length_app. lia.
  - apply NoDup_app. split_and!; [apply Hinv| |done].
    intros x Hx [Hk _]%Hnew. apply (li_elem _ _ _ _ _ Hinv) in Hx as [_ Hx].
    specialize (Hpos x Hk). lia.
  - intros x. rewrite elem_of_app, Htake, Hnew, (li_elem _ _ _ _ _ Hinv). fold (t x).
    specialize (Ht x). pose proof (pending_nonneg E (take idx answer ++ [parent]) x) as Hnn.
    fold (t x) in Hnn. pose proof (occ_nonneg x (kids E parent)). split.
    + intros [[? ?]|[Hk%elem_of_kids ?]]; (split; [eauto using edge_vertex_r|lia]).
    + intros [Hx Htx]. destruct (decide (pending E (take idx answer) x = 0)); [by left|].
      right. split; [|done]. apply occ_pos. lia.
  - intros j x q Hj Hq. destruct (decide (j < length answer)%nat).
    + rewrite lookup_app_l in Hj by done. rewrite take_app_le by lia. by eapply li_order.
    + assert (x ∈ new) as [Hk Htx]%Hnew.
      { apply list_elem_of_lookup. eexists. by rewrite lookup_app_r in Hj by lia. }
      apply (proj1 (pending_zero _ _ _) Htx) in Hq. rewrite <-Htake in Hq.
      apply elem_of_take in Hq as (i & Hi & ?). apply elem_of_take. exists i. split; [done|lia].
Qed.

Lemma topsort_loop_spec E fuel idx answer np ch :
  loop_inv E idx answer np ch → (size np ≤ fuel)%nat →
  ∃ answer' np' ch', topsort_loop fuel idx answer np ch = Some (Ok (answer', np', ch')) ∧
    loop_inv E (length answer') answer' np' ch'.
Proof.
  revert idx answer np ch. induction fuel as [|fuel IH]; intros idx answer np ch Hinv Hsz;
    simpl; destruct (answer !! idx) as [parent|] eqn:Hp.
  2,4: exists answer, np, ch; split; [done|]; apply lookup_ge_None in Hp;
    by replace (length answer) with idx by (pose proof (li_idx _ _ _ _ _ Hinv); lia).
  all: destruct (loop_inv_fresh _ _ _ _ _ _ Hinv Hp) as (Hv & Hnot & Hz);
    pose proof (dict_inv_lookup _ _ _ _ _ (li_dict _ _ _ _ _ Hinv) Hv Hnot) as Hnp.
  { assert (size np = 0)%nat as ->%map_size_empty_inv by lia. by rewrite lookup_empty in Hnp. }
  destruct (remove_parent _ _ _ _ _ (li_dict _ _ _ _ _ Hinv) Hv Hnot Hz) as (Hcnt & Hdom & _ & _).
  destruct (knock_down_spec (delete parent np) answer (kids E parent)
    (pending E (take idx answer ++ [parent]))) as (np' & new & Hkd & Hnp' & Hnd & Hnew);
    [apply pending_nonneg|done|done|].
  pose proof (loop_inv_step _ _ _ _ _ _ _ _ Hinv Hp Hnp' Hnd Hnew) as Hinv'.
  assert (size np' ≤ fuel)%nat as Hsz'.
  { rewrite (same_dom_size _ _ _ Hnp'), map_size_delete, Hnp. simpl. lia. }
  rewrite Hnp, (lookup_kids _ _ _ _ _ (li_dict _ _ _ _ _ Hinv) Hnot).
  destruct (kids E parent) as [|y cs] eqn:Hk.
  - injection Hkd as <- Happ. rewrite <-Happ in Hinv'.
    assert (delete parent ch = ch) as Hch
      by (apply delete_id; by rewrite (lookup_kids _ _ _ _ _ (li_dict _ _ _ _ _ Hinv) Hnot), Hk).
    rewrite Hch in Hinv'. by apply IH.
  - rewrite Hkd. by apply IH.
Qed.

(** A non-empty finite set in which every node has a parent contains a cycle. *)
Lemma closed_cycle E (rs : list A) x vis n :
  (∀ y, y ∈ rs → ∃ q, q ∈ rs ∧ edge E q y) →
  NoDup (x :: vis) → x :: vis ⊆ rs → (∀ v, v ∈ vis → tc (edge E) x v) →
  (length rs ≤ n + length vis)%nat → ∃ y, y ∈ rs ∧ tc (edge E) y y.
Proof.
  intros Hrs. revert x vis. induction n as [|n IH]; intros x vis Hnd Hsub Hreach Hlen.
  { assert (x :: vis ⊆+ rs) as Hle%submseteq_length by (by apply NoDup_submseteq).
    simpl in Hle. lia. }
  destruct (Hrs x) as (q & Hq & Hqx); [apply Hsub; left|].
  destruct (decide (q ∈ x :: vis)) as [[->|Hin]%elem_of_cons|Hnin].
  - exists x. split; [done|by apply tc_once].
  - exists q. split; [done|]. eapply tc_l; eauto.
  - apply (IH q (x :: vis)).
    + by constructor.
    + intros y [->|Hy]%elem_of_cons; [done|by apply Hsub].
    + intros v [->|Hv]%elem_of_cons; [by apply tc_once|]. eapply tc_l; eauto.
    + simpl. lia.
Qed.

Lemma top_sorted_acyclic E l x : top_sorted E l → ¬ tc (edge E) x x.
Proof.
  intros (Hnd & Helem & Hord) Hx.
  assert (∀ y z, tc (edge E) y z → ∀ j, l !! j = Some z → y ∈ take j l) as Hlt.
  { intros y z. induction 1 as [y z Hyz|y w z Hyw _ IH]; intros j Hj; [by eapply Hord|].
    destruct (proj1 (elem_of_take _ _ _) (IH j Hj)) as (i & Hi & ?).
    pose proof (Hord _ _ _ Hi Hyw) as (i' & ? & ?)%elem_of_take.
    apply elem_of_take. exists i'. split; [done|lia]. }
  assert (vertex E x) as Hv by (inversion Hx; subst; eauto using edge_vertex_l).
  apply Helem in Hv as [j Hj]%list_elem_of_lookup.
  apply (Hlt _ _ Hx) in Hj as Hin. apply elem_of_take in Hin as (i & Hi & ?).
  pose proof (NoDup_lookup _ _ _ _ Hnd Hi Hj). lia.
Qed.

Lemma initial_loop_inv E np ch :
  dict_inv E [] np ch → loop_inv E 0 (without_parents np) np ch.
Proof.
  intros Hinv. destruct (without_parents_spec _ _ _ _ Hinv) as [Hnd Helem]. split.
  - by rewrite take_0.
  - lia.
  - done.
  - intros x. rewrite take_0, Helem. set_solver.
  - intros j x q Hj Hq. apply list_elem_of_lookup_2, Helem in Hj as (_ & _ & Hz).
    by apply (proj1 (pending_zero _ _ _) Hz), elem_of_nil in Hq.
Qed.

(** If no node that is left is without pending edges, there is a cycle among
    the nodes that are left. *)
Lemma stuck_cycle E P np ch :
  dict_inv E P np ch → (∀ x, vertex E x → x ∉ P → pending E P x ≠ 0) → np ≠ ∅ →
  ∃ y, is_Some (np !! y) ∧ tc (edge E) y y.
Proof.
  intros Hdict Hstuck Hnp. destruct (map_choose _ Hnp) as (x & n & Hx).
  destruct (closed_cycle E (dict_keys np) x [] (length (dict_keys np))) as (y & Hy & Hcyc).
  - intros y [m Hm]%elem_of_dict_keys. apply Hdict in Hm as (Hv & Hny & _).
    assert (¬ ∀ q, edge E q y → q ∈ P) as Hnot by (rewrite <-pending_zero; by apply Hstuck).
    destruct (decide (Exists (λ q, edge E q y) (dict_keys np))) as [Hex|Hno].
    { apply Exists_exists in Hex as (q & ? & ?). eauto. }
    destruct Hnot. intros q Hq. apply dec_stable. intros Hqn. apply Hno, Exists_exists.
    exists q. split; [|done]. apply elem_of_dict_keys.
    eexists. eapply dict_inv_lookup; eauto using edge_vertex_l.
  - apply NoDup_singleton.
  - intros y ->%list_elem_of_singleton. apply elem_of_dict_keys. eauto.
  - by intros v ?%elem_of_nil.
  - simpl. lia.
  - exists y. by apply elem_of_dict_keys in Hy.
Qed.

(** How the loop of [topsort] ends: with the sorted list, or with nodes left
    that all wait for a parent. *)
Lemma topsort_ends E :
  (∃ l, topsort E = Some (Ok l) ∧ top_sorted E l) ∨
  (∃ answer np ch, topsort E = Some (Err (CycleError (Some answer) np ch)) ∧ np ≠ ∅ ∧ dict_inv E answer np ch ∧
     ∀ y, vertex E y → (y ∉ answer) → pending E answer y ≠ 0).
Proof.
  unfold topsort. pose proof (count_parents_inv E) as Hinv.
  destruct (count_parents E) as [np ch]. simpl in *.
  destruct (topsort_loop_spec E (size np) 0 _ np ch (initial_loop_inv _ _ _ Hinv))
    as (answer & np' & ch' & -> & Hend); [done|]. cbn.
  destruct Hend as [Hdict _ Hnd Helem Hord]. rewrite take_ge in Hdict, Helem by done.
  case_decide as Hnp.
  - left. exists answer. split; [done|]. split_and!; [done| |done]. intros x. rewrite Helem.
    split; [naive_solver|]. intros Hv.
    split; [done|]. destruct (decide (x ∈ answer)) as [Hx|Hx]; [by apply Helem in Hx as []|].
    assert (np' !! x = Some (pending E answer x)) as Hbad by by eapply dict_inv_lookup.
    by rewrite Hnp, lookup_empty in Hbad.
  - right. exists answer, np', ch'. split_and!; [done..|].
    intros y Hv Hny Hz. destruct Hny. by apply Helem.
Qed.

(** C40: [topsort] always ends, without a KeyError, in one of two ways.  It
    returns a list with every node of the pairs exactly once, each parent
    before its children, and then the graph has no cycle; or it raises
    CycleError, and then there is a cycle among the keys left in
    [num_parents]. *)
Theorem topsort_correct E :
  (∃ l, topsort E = Some (Ok l) ∧ top_sorted E l ∧ ∀ x, ¬ tc (edge E) x x) ∨
  (∃ answer np ch x, topsort E = Some (Err (CycleError (Some answer) np ch)) ∧
     is_Some (np !! x) ∧ tc (edge E) x x).
Proof.
  destruct (topsort_ends E) as [(l & -> & Hs)|(answer & np & ch & -> & Hnp & Hdict & Hwait)].
  - left. exists l. split_and!; [done|done|]. intros x. by eapply top_sorted_acyclic.
  - right. destruct (stuck_cycle _ _ _ _ Hdict Hwait Hnp) as (y & Hy & Hcyc). by exists answer, np, ch, y.
Qed.

(** ** topsort_levels *)

(** The nodes that can come next once those of [P] are out, each once. *)
Definition is_level E P (level : list A) : Prop :=
  level ≠ [] ∧ NoDup level ∧
  ∀ x, x ∈ level ↔ vertex E x ∧ (x ∉ P) ∧ ∀ q, edge E q x → q ∈ P.

(** Each node once, after all of its parents. *)
Definition parents_first E P : Prop :=
  NoDup P ∧ ∀ j x q, P !! j = Some x → edge E q x → q ∈ take j P.

Lemma parents_first_level E P level :
  parents_first E P → is_level E P level → parents_first E (P ++ level).
Proof.
  intros [HndP HP] (_ & Hnd & Hlevel). split.
  - apply NoDup_app. split_and!; [done| |done]. intros x Hx Hin. by apply Hlevel in Hin as (_ & ? & _).
  - intros j x q Hj Hq. destruct (decide (j < length P)%nat).
    + rewrite lookup_app_l in Hj by done. rewrite take_app_le by lia. by eapply HP.
    + rewrite lookup_app_r in Hj by lia. apply list_elem_of_lookup_2, Hlevel in Hj as (_ & _ & Hall).
      rewrite take_app_ge by lia. apply elem_of_app. auto.
Qed.

Lemma drop_level_spec E P np ch level :
  dict_inv E P np ch → NoDup level →
  (∀ x, x ∈ level → vertex E x ∧ (x ∉ P) ∧ pending E P x = 0) →
  ∃ np' ch', drop_level np ch level = Ok (np', ch') ∧ dict_inv E (P ++ level) np' ch' ∧
    (size np' + length level = size np)%nat.
Proof.
  revert P np ch. induction level as [|p level IH]; intros P np ch Hinv Hnd Hlevel; simpl.
  { exists np, ch. rewrite app_nil_r. split_and!; [done..|lia]. }
  apply NoDup_cons in Hnd as [Hp Hnd].
  destruct (Hlevel p) as (Hv & Hnot & Hz); [left|].
  destruct (remove_parent _ _ _ _ _ Hinv Hv Hnot Hz) as (Hcnt & Hdom & _ & Hdict).
  pose proof (dict_inv_lookup _ _ _ _ _ Hinv Hv Hnot) as Hnp. rewrite Hnp.
  destruct (dec_children_spec (delete p np) (kids E p) _ Hcnt Hdom) as (np1 & Hdec & Hnp1).
  destruct (IH (P ++ [p]) np1 (delete p ch)) as (np' & ch' & Hdrop & Hinv' & Hsz); [by apply Hdict|done| |].
  { intros x Hx. destruct (Hlevel x) as (? & ? & Hxz); [by right|].
    pose proof (pending_snoc E P p x Hnot). pose proof (occ_nonneg x (kids E p)).
    pose proof (pending_nonneg E (P ++ [p]) x). split_and!; [done|set_solver|lia]. }
  exists np', ch'. rewrite <-app_assoc in Hinv'. split_and!; [|exact Hinv'|].
  - rewrite (lookup_kids _ _ _ _ _ Hinv Hnot). destruct (kids E p) as [|y cs] eqn:Hk.
    + injection Hdec as <-. assert (delete p ch = ch) as Hch; [|by rewrite Hch in Hdrop].
      apply delete_id. by rewrite (lookup_kids _ _ _ _ _ Hinv Hnot), Hk.
    + by rewrite Hdec.
  - rewrite (same_dom_size _ _ _ Hnp1), map_size_delete, Hnp in Hsz. simpl in Hsz.
    assert (size np ≠ 0)%nat; [|lia]. apply map_size_ne_0_lookup. eauto.
Qed.

Lemma without_parents_level E P np ch :
  dict_inv E P np ch → without_parents np ≠ [] → is_level E P (without_parents np).
Proof.
  intros Hinv Hne. destruct (without_parents_spec _ _ _ _ Hinv) as [Hnd Helem].
  split_and!; [done..|]. intros x. by rewrite Helem, pending_zero.
Qed.

Lemma topsort_levels_core_spec E fuel P np ch :
  dict_inv E P np ch → parents_first E P → (size np ≤ fuel)%nat →
  ∃ levels r, topsort_levels_core fuel np ch = Some (levels, r) ∧
    (∀ k level, levels !! k = Some level → is_level E (P ++ concat (take k levels)) level) ∧
    parents_first E (P ++ concat levels) ∧
    ((r = Ok () ∧ ∀ x, vertex E x → x ∈ P ++ concat levels) ∨
     ∃ np' ch' x, r = Err (CycleError None np' ch') ∧ is_Some (np' !! x) ∧
       (x ∉ P ++ concat levels) ∧ tc (edge E) x x).
Proof.
  revert P np ch. induction fuel as [|fuel IH]; intros P np ch Hinv HP Hsz; simpl;
    destruct (without_parents np) as [|x0 rest] eqn:Hw.
  1,3: exists [], (if decide (np = ∅) then Ok () else Err (CycleError None np ch));
    rewrite app_nil_r; split_and!; [done|by intros k level ?|done|];
    destruct (without_parents_spec _ _ _ _ Hinv) as [_ Helem]; rewrite Hw in Helem;
    case_decide as Hnp.
  1,3: left; split; [done|]; intros x Hv; destruct (decide (x ∈ P)) as [|Hx]; [done|];
    pose proof (dict_inv_lookup _ _ _ _ _ Hinv Hv Hx) as Hl; by rewrite Hnp, lookup_empty in Hl.
  1,2: right; destruct (stuck_cycle _ _ _ _ Hinv) as (y & Hy & Hcyc);
    [intros x Hv Hx Hz; by apply (not_elem_of_nil x), Helem|done|];
    exists np, ch, y; split_and!; [done..| |done]; destruct Hy as [n Hy]; by apply Hinv in Hy as (_ & ? & _).
  - exfalso. assert (x0 ∈ without_parents np) as Hx0 by (rewrite Hw; left).
    apply (without_parents_spec _ _ _ _ Hinv) in Hx0 as (Hv & Hx & _).
    pose proof (dict_inv_lookup _ _ _ _ _ Hinv Hv Hx) as Hl.
    assert (size np = 0)%nat as ->%map_size_empty_inv by lia. by rewrite lookup_empty in Hl.
  - assert (is_level E P (x0 :: rest)) as Hlev
      by (rewrite <-Hw; apply (without_parents_level _ _ _ _ Hinv); by rewrite Hw).
    destruct (without_parents_spec _ _ _ _ Hinv) as [Hnd Helem]. rewrite Hw in Hnd, Helem.
    destruct (drop_level_spec E P np ch (x0 :: rest) Hinv Hnd) as (np' & ch' & -> & Hinv' & Hsz');
      [by intros; apply Helem|]. simpl in Hsz'.
    destruct (IH (P ++ x0 :: rest) np' ch') as (levels & r & -> & Hlevels & HP' & Hr);
      [done|by apply parents_first_level|lia|].
    rewrite <-app_assoc in HP'. exists ((x0 :: rest) :: levels), r. split_and!; [done| |exact HP'|].
    + intros [|k] level Hk; simpl in *; [injection Hk as <-; by rewrite app_nil_r|].
      apply Hlevels in Hk. by rewrite <-app_assoc in Hk.
    + simpl. destruct Hr as [[-> Hr]|(np2 & ch2 & x & -> & Hx & Hxn & Hcyc)].
      * left. split; [done|]. intros x Hv. specialize (Hr x Hv). by rewrite <-app_assoc in Hr.
      * right. exists np2, ch2, x. rewrite <-app_assoc in Hxn. done.
Qed.

Lemma parents_first_sorted E l :
  parents_first E l → (∀ x, x ∈ l ↔ vertex E x) → top_sorted E l.
Proof. intros [? ?] ?. by split_and!. Qed.

Lemma levels_vertex E levels x :
  (∀ k level, levels !! k = Some level → is_level E (concat (take k levels)) level) →
  x ∈ concat levels → vertex E x.
Proof.
  intros Hlevels Hx. apply list_elem_of_In, in_concat in Hx as (level & Hlevel & Hx).
  apply list_elem_of_In, list_elem_of_lookup in Hlevel as [k Hk].
  apply Hlevels in Hk as (_ & _ & Helem). by apply Helem, list_elem_of_In.
Qed.

(** [topsort_levels] always ends without a KeyError.  Each level it yields
    holds, once each, exactly the nodes that are in no earlier level and whose
    parents all are; it ends normally exactly when the graph has no cycle, and
    then the levels in a row list every node once, parents first; otherwise it
    raises CycleError after the last such level, and a node left in
    [num_parents] is on a cycle. *)
Theorem topsort_levels_correct E :
  ∃ levels r, topsort_levels E = Some (levels, r) ∧
    (∀ k level, levels !! k = Some level → is_level E (concat (take k levels)) level) ∧
    (r = Ok () ↔ ∀ x, ¬ tc (edge E) x x) ∧
    match r with
    | Ok _ => top_sorted E (concat levels)
    | Err e => ∃ np ch x, e = CycleError None np ch ∧ is_Some (np !! x) ∧ tc (edge E) x x
    end.
Proof.
  unfold topsort_levels. pose proof (count_parents_inv E) as Hinv.
  destruct (count_parents E) as [np ch]. simpl in *.
  destruct (topsort_levels_core_spec E (size np) [] np ch) as (levels & r & -> & Hlevels & HP & Hr);
    [done|split; [constructor|done]|done|]. simpl in *.
  exists levels, r. split; [done|]. split; [done|].
  destruct Hr as [[-> Hall]|(np' & ch' & x & -> & Hx & _ & Hcyc)].
  - assert (top_sorted E (concat levels)) as Hsorted.
    { apply parents_first_sorted; [done|]. intros x. split; [by apply levels_vertex|apply Hall]. }
    split; [|done]. split; [|done]. intros _ x. by apply (top_sorted_acyclic E (concat levels)).
  - split; [|by exists np', ch', x]. split; [done|]. intros Hno. by destruct (Hno x).
Qed.
End topsort.
Arguments top_exn _ {_ _}.
