(* ===== verification/FindCycles.v ===== *)
(** * bindings/python/topsort.py: find_cycles
    The generator as the list of the cycles it yields.  The search keeps a
    stack of paths, whose top is the head of the list here, and pushes every
    extension of the path it pops; a fuel bounds the paths it pops from one
    start, and the theorem shows that [cycles_fuel] is enough. *)
From S2P Require Import Prelude RadUtil.
#[local] Open Scope nat_scope.

Section find_cycles.
Context {A : Type} `{Countable A} `{!DictOrder A}.

(** [path.index(child)] for a child that is in the path. *)
Fixpoint path_index (path : list A) (child : A) : nat :=
  match path with
  | [] => 0
  | x :: path => if decide (x = child) then 0 else S (path_index path child)
  end.

(** [for other_cycle in cycles: if is_rotated(other_cycle, cycle): break] *)
Fixpoint is_dup (cycles : list (list A)) (cycle : list A) : res bool :=
  match cycles with
  | [] => Ok false
  | other_cycle :: cycles =>
      b ← is_rotated other_cycle cycle;
      if (b : bool) then Ok true else is_dup cycles cycle
  end.

(** The state of the search: the cycles yielded so far, the stack of paths (its
    top first) and the visited nodes. *)
Record search : Type := Search {
  cycles : list (list A);
  paths : list (list A);
  visited_nodes : gset A;
}.

Definition visit_child (path : list A) (st : search) (child : A) : res search :=
  if decide (child ∈ path) then
    let cycle := drop (path_index path child) path in
    dup ← is_dup (cycles st) cycle;
    Ok (if (dup : bool) then st else Search (cycles st ++ [cycle]) (paths st) (visited_nodes st))
  else Ok (Search (cycles st) ((path ++ [child]) :: paths st) ({[child]} ∪ visited_nodes st)).

Fixpoint visit_children (path : list A) (st : search) (children : list A) : res search :=
  match children with
  | [] => Ok st
  | child :: children => st ← visit_child path st child; visit_children path st children
  end.

(** [while paths: path = paths.pop(); ...]; a parent without children is
    skipped (KeyError is caught). *)
Fixpoint search_loop (fuel : nat) (parent_children : gmap A (list A)) (st : search)
    : option (res search) :=
  match paths st with
  | [] => Some (Ok st)
  | path :: rest =>
      match fuel with
      | O => None
      | S fuel =>
          let st := Search (cycles st) rest (visited_nodes st) in
          match last path with
          | None => Some (Err IndexError)
          | Some parent =>
              match parent_children !! parent with
              | None => search_loop fuel parent_children st
              | Some children =>
                  match visit_children path st children with
                  | Ok st => search_loop fuel parent_children st
                  | Err e => Some (Err e)
                  end
              end
          end
      end
  end.

(** [for parent in parent_children], skipping the nodes already visited. *)
Fixpoint find_cycles_from (fuel : nat) (parent_children : gmap A (list A)) (parents : list A)
    (st : search) : option (res search) :=
  match parents with
  | [] => Some (Ok st)
  | parent :: parents =>
      if decide (parent ∈ visited_nodes st) then find_cycles_from fuel parent_children parents st
      else
        r ← search_loop fuel parent_children (Search (cycles st) [[parent]] (visited_nodes st));
        match r with
        | Ok st => find_cycles_from fuel parent_children parents st
        | Err e => Some (Err e)
        end
  end.

(** The nodes of the graph, its largest number of children, and a bound on the
    number of paths the search can push from one start. *)
Definition graph_nodes (parent_children : gmap A (list A)) : list A :=
  remove_dups ((map_to_list parent_children).*1 ++ mjoin ((map_to_list parent_children).*2)).
Definition max_children (parent_children : gmap A (list A)) : nat :=
  max_list (length <$> (map_to_list parent_children).*2).
Definition cycles_fuel (parent_children : gmap A (list A)) : nat :=
  S (max_children parent_children) ^ length (graph_nodes parent_children).

Definition find_cycles (parent_children : gmap A (list A)) : option (res (list (list A))) :=
  match find_cycles_from (cycles_fuel parent_children) parent_children (dict_keys parent_children)
          (Search [] [] ∅) with
  | None => None
  | Some r => Some (cycles <$> r)
  end.

(** ** Paths and cycles of the graph *)
Implicit Types (g : gmap A (list A)) (p q c : list A).

Definition child g (x y : A) : Prop := ∃ cs, g !! x = Some cs ∧ y ∈ cs.

Fixpoint is_path g p : Prop :=
  match p with
  | [] => True
  | x :: p' => match p' with [] => True | y :: _ => child g x y end ∧ is_path g p'
  end.
(** A path without repetitions. *)
Definition simple_path g p : Prop := p ≠ [] ∧ NoDup p ∧ is_path g p.
(** A simple path whose last node has the first one as a child. *)
Definition simple_cycle g c : Prop :=
  simple_path g c ∧ ∃ x y, last c = Some x ∧ head c = Some y ∧ child g x y.

Lemma is_path_snoc g p x y : is_path g (p ++ [x]) → child g x y → is_path g (p ++ [x; y]).
Proof.
  induction p as [|a p IH]; simpl; [naive_solver|]. intros [Ha Hp] Hxy. split; [|by apply IH].
  by destruct p.
Qed.
Lemma is_path_app g p q : is_path g (p ++ q) → is_path g p ∧ is_path g q.
Proof.
  induction p as [|a p IH]; simpl; [done|]. intros [Ha Hp]. apply IH in Hp as [Hp Hq].
  split; [|done]. split; [|done]. by destruct p.
Qed.
Lemma is_path_join g p x y q :
  is_path g (p ++ [x]) → child g x y → is_path g (y :: q) → is_path g (p ++ x :: y :: q).
Proof.
  intros Hp Hxy Hq. induction p as [|a p IH]; [done|]. simpl in *. destruct Hp as [Ha Hp].
  split; [|by apply IH]. by destruct p.
Qed.
Lemma is_path_drop g n p : is_path g p → is_path g (drop n p).
Proof. rewrite <-(take_drop n p) at 1. by intros [_ ?]%is_path_app. Qed.

Lemma rotation_refl c : rotation c c.
Proof. exists 0. by rewrite drop_0, take_0, app_nil_r. Qed.

(** ** One path *)
Lemma path_index_spec p (x : A) :
  x ∈ p → ∃ q r, p = q ++ x :: r ∧ (x ∉ q) ∧ path_index p x = length q.
Proof.
  induction p as [|y p IH]; [by intros ?%not_elem_of_nil|]. simpl. intros Hx.
  case_decide as Hyx.
  - subst. exists [], p. split_and!; [done|apply not_elem_of_nil|done].
  - destruct IH as (q & r & -> & Hq & Hi); [by apply elem_of_cons in Hx as [->|]|].
    exists (y :: q), r. rewrite not_elem_of_cons, Hi. naive_solver.
Qed.

(** The cycle that a child closes is simple. *)
Lemma drop_cycle g p x y :
  simple_path g p → last p = Some x → child g x y → y ∈ p →
  simple_cycle g (drop (path_index p y) p).
Proof.
  intros (_ & Hnd & Hp) Hx Hxy Hy. destruct (path_index_spec p y Hy) as (q & r & -> & Hq & ->).
  rewrite drop_app_length. apply NoDup_app in Hnd as (_ & _ & Hnd).
  apply is_path_app in Hp as [_ Hp]. split; [by split_and!|].
  exists x, y. split_and!; [|done|done]. rewrite last_app in Hx.
  destruct (last (y :: r)) eqn:E; [done|]. by apply last_None in E.
Qed.

Lemma simple_path_snoc g p x y :
  simple_path g p → last p = Some x → child g x y → y ∉ p → simple_path g (p ++ [y]).
Proof.
  intros (_ & Hnd & Hp) Hx Hxy Hy. split_and!.
  - by destruct p.
  - apply NoDup_app. split_and!; [done| |apply NoDup_singleton].
    intros z Hz ->%list_elem_of_singleton. done.
  - apply last_Some in Hx as [p' ->]. rewrite <-app_assoc. by apply is_path_snoc.
Qed.

(** The same cycle was found, from some node of it. *)
Definition found (cs : list (list A)) c : Prop := ∃ c', c' ∈ cs ∧ rotation c' c.

Lemma is_dup_spec (cs : list (list A)) c :
  c ≠ [] → ∃ b, is_dup cs c = Ok b ∧ (b = true ↔ found cs c).
Proof.
  intros Hc. induction cs as [|c' cs IH]; simpl.
  { exists false. split; [done|]. split; [done|]. by intros (c' & ?%not_elem_of_nil & _). }
  destruct (is_rotated_rotation c' c) as (b & -> & Hb); [by right|]. simpl.
  destruct b.
  - exists true. split; [done|]. split; [|done]. intros _. exists c'. split; [left|by apply Hb].
  - destruct IH as (b & -> & Hb'). exists b. split; [done|]. rewrite Hb'. unfold found. split.
    + intros (d & ? & ?). exists d. split; [by right|done].
    + intros (d & [->|?]%elem_of_cons & Hd); [by apply Hb in Hd|]. eauto.
Qed.

(** ** The cycles found so far *)
Lemma rotation_sym c d : rotation c d → rotation d c.
Proof.
  intros [k ->]. destruct (decide (k ≤ length c)) as [Hk|Hk].
  - exists (length c - k). rewrite <-(length_drop c k), drop_app_length, take_app_length.
    by rewrite take_drop.
  - rewrite drop_ge, take_ge by lia. apply rotation_refl.
Qed.

(** Simple cycles of the graph, no two the same from different nodes. *)
Definition cycles_inv g (cs : list (list A)) : Prop :=
  (∀ c, c ∈ cs → simple_cycle g c) ∧
  (∀ i j c d, cs !! i = Some c → cs !! j = Some d → rotation c d → i = j).

Lemma cycles_inv_snoc g (cs : list (list A)) c :
  cycles_inv g cs → simple_cycle g c → ¬ found cs c → cycles_inv g (cs ++ [c]).
Proof.
  intros [Hs Hr] Hc Hf. split.
  - intros d [?| ->%list_elem_of_singleton]%elem_of_app; auto.
  - intros i j d e Hd He Hde. apply lookup_snoc_Some in Hd as [[Hi Hd]|[-> <-]], He as [[Hj He]|[-> <-]].
    + by eapply Hr.
    + destruct Hf. exists d. split; [by eapply list_elem_of_lookup_2|done].
    + destruct Hf. exists e. split; [by eapply list_elem_of_lookup_2|by apply rotation_sym].
    + done.
Qed.

Lemma found_mono (cs cs' : list (list A)) c : cs `prefix_of` cs' → found cs c → found cs' c.
Proof. intros [k ->] (d & ? & ?). exists d. split; [|done]. apply elem_of_app. by left. Qed.

Lemma simple_cycle_not_nil g c : simple_cycle g c → c ≠ [].
Proof. by intros [(? & _) _]. Qed.

Lemma visit_child_spec g p x y st :
  simple_path g p → last p = Some x → child g x y → cycles_inv g (cycles st) →
  ∃ st', visit_child p st y = Ok st' ∧ cycles_inv g (cycles st') ∧
    cycles st `prefix_of` cycles st' ∧
    (y ∈ p → found (cycles st') (drop (path_index p y) p)) ∧
    paths st' = (if decide (y ∈ p) then [] else [p ++ [y]]) ++ paths st ∧
    visited_nodes st' = (if decide (y ∈ p) then ∅ else {[y]}) ∪ visited_nodes st.
Proof.
  intros Hp Hx Hxy Hinv. unfold visit_child. destruct (decide (y ∈ p)) as [Hy|Hy].
  - pose proof (drop_cycle g p x y Hp Hx Hxy Hy) as Hc.
    destruct (is_dup_spec (cycles st) (drop (path_index p y) p)) as (b & -> & Hb);
      [by eapply simple_cycle_not_nil|]. simpl. destruct b.
    + exists st. split_and!; [done..| |done|set_solver]. intros _. by apply Hb.
    + eexists. split; [done|]. simpl. split_and!; [|by apply prefix_app_r| |done|set_solver].
      * apply cycles_inv_snoc; [done..|]. intros Hf. by apply Hb in Hf.
      * intros _. eexists. split; [apply elem_of_app; right; left|apply rotation_refl].
  - eexists. split; [done|]. simpl. by split_and!.
Qed.

Lemma visit_children_spec g p x cs st :
  simple_path g p → last p = Some x → (∀ y, y ∈ cs → child g x y) → cycles_inv g (cycles st) →
  ∃ st' ext, visit_children p st cs = Ok st' ∧ cycles_inv g (cycles st') ∧
    cycles st `prefix_of` cycles st' ∧
    (∀ y, y ∈ cs → y ∈ p → found (cycles st') (drop (path_index p y) p)) ∧
    paths st' = ext ++ paths st ∧ length ext ≤ length cs ∧
    (∀ q, q ∈ ext ↔ ∃ y, y ∈ cs ∧ (y ∉ p) ∧ q = p ++ [y]) ∧
    (∀ v, v ∈ visited_nodes st' → v ∈ visited_nodes st ∨ v ∈ cs).
Proof.
  intros Hp Hx. revert st. induction cs as [|y cs IH]; intros st Hcs Hinv; simpl.
  { exists st, []. split_and!; try done; [by intros y ?%not_elem_of_nil| |by left].
    intros q. split; [by intros ?%not_elem_of_nil|]. by intros (y & ?%not_elem_of_nil & _). }
  destruct (visit_child_spec g p x y st Hp Hx) as (st1 & -> & Hinv1 & Hpre1 & Hf1 & Hp1 & Hv1);
    [apply Hcs; left|done|]. simpl.
  destruct (IH st1) as (st2 & ext & -> & Hinv2 & Hpre2 & Hf2 & Hp2 & Hlen & Hext & Hv2);
    [intros z ?; apply Hcs; by right|done|].
  exists st2, (ext ++ (if decide (y ∈ p) then [] else [p ++ [y]])). split_and!; [done..| | | | | |].
  - by etrans.
  - intros z [->|Hz]%elem_of_cons Hzp; [|by apply Hf2]. by eapply found_mono, Hf1.
  - by rewrite Hp2, Hp1, app_assoc.
  - rewrite length_app. case_decide; simpl; lia.
  - intros q. rewrite elem_of_app, Hext. split.
    + intros [(z & Hz & Hzp & Hq)|Hq].
      * exists z. split; [by right|done].
      * case_decide as Hy; [by apply not_elem_of_nil in Hq|].
        apply list_elem_of_singleton in Hq. exists y. split; [left|done].
    + intros (z & Hz & Hzp & Hq). apply elem_of_cons in Hz as [->|Hz]; [right|left; eauto].
      rewrite decide_False by done. by apply list_elem_of_singleton.
  - intros v [Hv|Hv]%Hv2; [|right; by right]. rewrite Hv1 in Hv.
    case_decide; [set_solver|]. apply elem_of_union in Hv as [->%elem_of_singleton|?]; [|by left].
    right. left.
Qed.

(** ** The paths from one start *)
Lemma elem_of_graph_nodes g x :
  x ∈ graph_nodes g ↔ is_Some (g !! x) ∨ ∃ y, child g y x.
Proof.
  unfold graph_nodes, child. rewrite elem_of_remove_dups, elem_of_app, list_elem_of_fmap.
  rewrite list_join_bind, list_elem_of_bind. unfold id. split.
  - intros [([k cs] & -> & Hk%elem_of_map_to_list)|(cs & Hx & Hcs)].
    + left. by exists cs.
    + apply list_elem_of_fmap in Hcs as ([k cs'] & -> & Hk%elem_of_map_to_list).
      right. by exists k, cs'.
  - intros [[cs Hcs]|(y & cs & Hcs & Hx)].
    + left. exists (x, cs). split; [done|]. by apply elem_of_map_to_list.
    + right. exists cs. split; [done|]. apply list_elem_of_fmap. exists (y, cs).
      split; [done|]. by apply elem_of_map_to_list.
Qed.

Lemma path_in_graph g p s :
  is_path g p → head p = Some s → s ∈ graph_nodes g → p ⊆ graph_nodes g.
Proof.
  revert s. induction p as [|x p IH]; intros s Hp Hs Hin z Hz; [by apply not_elem_of_nil in Hz|].
  injection Hs as ->. apply elem_of_cons in Hz as [->|Hz]; [done|]. destruct Hp as [Hxy Hp].
  destruct p as [|y p]; [by apply not_elem_of_nil in Hz|].
  apply (IH y Hp); [done| |done]. apply elem_of_graph_nodes. right. by exists s.
Qed.

Lemma simple_path_length g p s :
  simple_path g p → head p = Some s → s ∈ graph_nodes g → length p ≤ length (graph_nodes g).
Proof.
  intros (_ & Hnd & Hp) Hs Hin. apply submseteq_length, NoDup_submseteq; [done|].
  by eapply path_in_graph.
Qed.

Lemma max_children_le g x cs : g !! x = Some cs → length cs ≤ max_children g.
Proof.
  intros Hx. apply max_list_elem_of_le, list_elem_of_fmap. exists cs. split; [done|].
  apply list_elem_of_fmap. exists (x, cs). split; [done|]. by apply elem_of_map_to_list.
Qed.

(** A bound on the paths that are popped from a path of [k] nodes on. *)
Definition weight g (p : list A) : nat :=
  S (max_children g) ^ (length (graph_nodes g) - length p).
Definition stack_weight g (ps : list (list A)) : nat := sum_list (weight g <$> ps).

Lemma stack_weight_cons g p ps : stack_weight g (p :: ps) = weight g p + stack_weight g ps.
Proof. done. Qed.
Lemma stack_weight_app g ps qs : stack_weight g (ps ++ qs) = stack_weight g ps + stack_weight g qs.
Proof. induction ps as [|p ps IH]; [done|]. cbn [app]. rewrite !stack_weight_cons, IH. lia. Qed.

Lemma weight_pos g p : 1 ≤ weight g p.
Proof. unfold weight. pose proof (Nat.pow_nonzero (S (max_children g)) (length (graph_nodes g) - length p)). lia. Qed.

Lemma weight_step g p (ext : list (list A)) :
  length ext ≤ max_children g →
  (∀ q, q ∈ ext → length q = S (length p) ∧ length q ≤ length (graph_nodes g)) →
  S (stack_weight g ext) ≤ weight g p.
Proof.
  intros Hlen Hext. destruct ext as [|q0 ext0] eqn:E; [apply weight_pos|]. rewrite <-E in *.
  destruct (Hext q0) as [Hq0 Hq0']; [rewrite E; left|].
  set (n := length (graph_nodes g)) in *. set (M := max_children g) in *.
  assert (stack_weight g ext = length ext * S M ^ (n - S (length p))) as ->.
  { clear E Hlen. induction ext as [|q ext IH]; [done|]. rewrite stack_weight_cons, IH.
    - unfold weight. fold n M. destruct (Hext q) as [-> _]; [left|]. simpl. lia.
    - intros r Hr. apply Hext. by right. }
  unfold weight. fold n M. replace (n - length p) with (S (n - S (length p))) by lia.
  rewrite Nat.pow_succ_r'. pose proof (Nat.pow_nonzero (S M) (n - S (length p))). nia.
Qed.

(** ** The search from one start *)

(** Every cycle that a child of the last node of [p] closes was found. *)
Definition closed g (cs : list (list A)) p : Prop :=
  ∀ x y, last p = Some x → child g x y → y ∈ p → found cs (drop (path_index p y) p).

Record search_inv g (s : A) (st : search) : Prop := {
  si_paths : ∀ p, p ∈ paths st → simple_path g p ∧ head p = Some s;
  si_cycles : cycles_inv g (cycles st);
  (** A path from [s] is on the stack, will be made from one that is, or is done. *)
  si_cover : ∀ p, simple_path g p → head p = Some s →
    (∃ q, q ∈ paths st ∧ q `prefix_of` p) ∨ closed g (cycles st) p;
}.

Lemma path_reach g p s x : is_path g p → head p = Some s → x ∈ p → rtc (child g) s x.
Proof.
  revert s. induction p as [|y p IH]; intros s Hp Hs Hx; [by apply not_elem_of_nil in Hx|].
  injection Hs as ->. apply elem_of_cons in Hx as [->|Hx]; [done|]. destruct Hp as [Hy Hp].
  destruct p as [|z p]; [by apply not_elem_of_nil in Hx|].
  eapply rtc_l; [exact Hy|]. by apply IH.
Qed.

(** How a longer simple path goes on. *)
Lemma simple_path_next g p x y r :
  simple_path g (p ++ y :: r) → last p = Some x → child g x y ∧ (y ∉ p).
Proof.
  intros (_ & Hnd & Hp) Hx. split.
  - apply last_Some in Hx as [p' ->]. rewrite <-app_assoc in Hp. simpl in Hp.
    apply is_path_app in Hp as [_ Hp]. by destruct Hp.
  - intros Hy. apply NoDup_app in Hnd as (_ & Hdis & _). apply (Hdis y Hy). left.
Qed.

Lemma closed_mono g (cs cs' : list (list A)) p :
  cs `prefix_of` cs' → closed g cs p → closed g cs' p.
Proof. intros Hpre Hc x y Hx Hxy Hy. eapply found_mono, Hc; eauto. Qed.

(** The stack after one path [p] was popped and its extensions were pushed. *)
Lemma search_inv_step g s st p rest x (st' : search) (ext : list (list A)) :
  search_inv g s st → paths st = p :: rest → last p = Some x →
  cycles_inv g (cycles st') → cycles st `prefix_of` cycles st' → paths st' = ext ++ rest →
  (∀ q, q ∈ ext ↔ ∃ y, child g x y ∧ (y ∉ p) ∧ q = p ++ [y]) → closed g (cycles st') p →
  search_inv g s st'.
Proof.
  intros [Hpaths _ Hcover] Hst Hx Hinv Hpre Hst' Hext Hclosed. rewrite Hst in Hpaths, Hcover.
  destruct (Hpaths p) as [Hp Hs]; [left|]. split; [|done|].
  - rewrite Hst'. intros q [Hq|Hq]%elem_of_app; [|apply Hpaths; by right].
    apply Hext in Hq as (y & Hxy & Hy & ->). split; [by eapply simple_path_snoc|].
    by destruct p.
  - rewrite Hst'. intros p' Hp' Hs'. destruct (Hcover p' Hp' Hs') as [(q & Hq & Hqp)|Hc].
    2:{ right. by eapply closed_mono. }
    apply elem_of_cons in Hq as [->|Hq].
    2:{ left. exists q. split; [|done]. apply elem_of_app. by right. }
    destruct Hqp as [[|y r] ->]; [right; by rewrite app_nil_r|]. left.
    destruct (simple_path_next g p x y r Hp' Hx) as [Hxy Hy].
    exists (p ++ [y]). split; [apply elem_of_app; left; apply Hext; eauto|].
    exists r. by rewrite <-app_assoc.
Qed.

Lemma search_loop_spec fuel g s st :
  search_inv g s st → s ∈ graph_nodes g → stack_weight g (paths st) ≤ fuel →
  ∃ st', search_loop fuel g st = Some (Ok st') ∧ cycles_inv g (cycles st') ∧
    cycles st `prefix_of` cycles st' ∧
    (∀ p, simple_path g p → head p = Some s → closed g (cycles st') p) ∧
    (∀ v, v ∈ visited_nodes st' → v ∈ visited_nodes st ∨ rtc (child g) s v).
Proof.
  intros Hinv Hs. revert st Hinv. induction fuel as [|fuel IH]; intros st Hinv Hfuel; simpl;
    destruct (paths st) as [|p rest] eqn:Hst.
  1,3: exists st; split_and!; [done|apply Hinv|done| |by left]; intros p Hp Hps;
    destruct (si_cover g s st Hinv p Hp Hps) as [(q & Hq & _)|]; [|done];
    rewrite Hst in Hq; by apply not_elem_of_nil in Hq.
  { rewrite stack_weight_cons in Hfuel. pose proof (weight_pos g p). lia. }
  destruct (si_paths g s st Hinv p) as [Hp Hps]; [rewrite Hst; left|].
  rewrite stack_weight_cons in Hfuel. pose proof (weight_pos g p) as Hw.
  destruct (last p) as [x|] eqn:Hx; [|by apply last_None in Hx; destruct Hp as [? _]].
  destruct (g !! x) as [cs|] eqn:Hcs.
  - destruct (visit_children_spec g p x cs (Search (cycles st) rest (visited_nodes st)) Hp Hx)
      as (st1 & ext & -> & Hc1 & Hpre1 & Hf1 & Hp1 & Hlen & Hext & Hv1);
      [by intros y Hy; exists cs|apply Hinv|]. simpl in *.
    assert (∀ y, child g x y ↔ y ∈ cs) as Hchild.
    { intros y. split; [|by exists cs]. intros (cs' & Hcs' & Hy). congruence. }
    destruct (IH st1) as (st' & -> & Hc' & Hpre' & Hd' & Hv').
    + apply (search_inv_step g s st p rest x st1 ext); try done.
      * intros q. rewrite Hext. by setoid_rewrite Hchild.
      * intros x' y Hx' Hxy Hy. assert (x' = x) as -> by congruence. apply Hf1; [by apply Hchild|done].
    + rewrite Hp1, stack_weight_app.
      assert (S (stack_weight g ext) ≤ weight g p); [|lia]. apply weight_step.
      * etrans; [exact Hlen|]. by eapply max_children_le.
      * intros q (y & Hy & Hyp & ->)%Hext. split; [rewrite length_app; simpl; lia|].
        apply (simple_path_length g _ s); [|by destruct p|done].
        apply (simple_path_snoc g p x); [done..|by apply Hchild|done].
    + exists st'. split_and!; [done..|by etrans|done|]. intros v [Hv|Hv]%Hv'; [|by right].
      apply Hv1 in Hv as [Hv|Hv]; [by left|]. right. eapply rtc_r; [|by apply Hchild].
      apply (path_reach g p); [apply Hp|done|]. by apply last_Some_elem_of.
  - destruct (IH (Search (cycles st) rest (visited_nodes st))) as (st' & -> & Hst'); [| |by exists st'].
    + apply (search_inv_step g s st p rest x _ []); try done; [apply Hinv| |].
      * intros q. split; [by intros ?%not_elem_of_nil|]. intros (y & (cs & Hcs' & _) & _). congruence.
      * intros x' y Hx' (cs & Hcs' & _). congruence.
    + simpl. lia.
Qed.

(** ** From the paths of one start to the cycles it reaches *)
Lemma rotation_split c d : rotation c d ↔ ∃ a b, c = a ++ b ∧ d = b ++ a.
Proof.
  split.
  - intros [k ->]. exists (take k c), (drop k c). by rewrite take_drop.
  - intros (a & b & -> & ->). exists (length a). by rewrite drop_app_length, take_app_length.
Qed.

Lemma rotation_trans c d e : rotation c d → rotation d e → rotation c e.
Proof.
  rewrite !rotation_split. intros (a & b & -> & ->) (a' & b' & Hd & ->).
  apply app_eq_inv in Hd as [(k & -> & ->)|(k & -> & ->)].
  - exists (a ++ a'), k. by rewrite !app_assoc.
  - exists k, (b' ++ b). by rewrite !app_assoc.
Qed.

Lemma simple_cycle_rotate g a b : simple_cycle g (a ++ b) → simple_cycle g (b ++ a).
Proof.
  intros Hc. destruct a as [|a0 a]; [by rewrite app_nil_r|]. destruct b as [|b0 b].
  { by rewrite app_nil_r in Hc. }
  destruct Hc as [(_ & Hnd & Hp) (x & y & Hx & Hy & Hxy)]. injection Hy as <-.
  rewrite last_app in Hx. pose proof (is_path_app _ _ _ Hp) as [Hpa Hpb].
  destruct (last (b0 :: b)) as [x'|] eqn:E; [|by apply last_None in E]. injection Hx as ->.
  apply last_Some in E as [b' Hb]. split; [split_and!|].
  - done.
  - by rewrite (Permutation_app_comm (b0 :: b)).
  - rewrite Hb, <-app_assoc. simpl. apply is_path_join; [by rewrite <-Hb|done|done].
  - destruct (last (a0 :: a)) as [z|] eqn:E; [|by apply last_None in E].
    exists z, b0. rewrite last_app, E. split_and!; [done..|].
    apply last_Some in E as [a' Ha]. rewrite Ha, <-app_assoc in Hp. simpl in Hp.
    apply is_path_app in Hp as [_ Hp]. by destruct Hp.
Qed.

(** A shortest way from [s] into a set of nodes, as a simple path. *)
Lemma reach_path g c s x :
  rtc (child g) s x → x ∈ c →
  ∃ p y, simple_path g (p ++ [y]) ∧ head (p ++ [y]) = Some s ∧ y ∈ c ∧ ∀ z, z ∈ p → z ∉ c.
Proof.
  intros Hr Hx. induction Hr as [s|s s' x Hss' _ IH].
  { exists [], s. split_and!; try done; [|by intros z ?%not_elem_of_nil].
    split_and!; [done|apply NoDup_singleton|done]. }
  destruct (decide (s ∈ c)) as [Hs|Hs].
  { exists [], s. split_and!; try done; [|by intros z ?%not_elem_of_nil].
    split_and!; [done|apply NoDup_singleton|done]. }
  destruct (IH Hx) as (p & y & (_ & Hnd & Hp) & Hh & Hy & Hpc).
  destruct (decide (s ∈ p)) as [Hsp|Hsp].
  - apply list_elem_of_split in Hsp as (p1 & p2 & ->). exists (s :: p2), y.
    rewrite <-app_assoc in Hnd, Hp. simpl in Hnd, Hp.
    split_and!; try done.
    + split_and!; [done|by apply NoDup_app in Hnd as (_ & _ & ?)|by apply is_path_app in Hp as [_ ?]].
    + intros z Hz. apply Hpc. apply elem_of_app. by right.
  - exists (s :: p), y. split_and!; try done.
    + split_and!; [done| |].
      * simpl. apply NoDup_cons. split; [|done]. rewrite elem_of_app, list_elem_of_singleton.
        intros [?| ->]; naive_solver.
      * simpl. split; [|done]. destruct p; simpl in *; by injection Hh as ->.
    + intros z [->|Hz]%elem_of_cons; [done|]. by apply Hpc.
Qed.

(** Every simple cycle that can be reached from [s] was found. *)
Definition covers g (cs : list (list A)) (s : A) : Prop :=
  ∀ c x, simple_cycle g c → x ∈ c → rtc (child g) s x → found cs c.

Lemma closed_covers g (cs : list (list A)) s :
  (∀ p, simple_path g p → head p = Some s → closed g cs p) → covers g cs s.
Proof.
  intros Hclosed c x Hc Hx Hr. destruct (reach_path g c s x Hr Hx) as (p & y & (_ & Hnd & Hp) & Hh & Hy & Hpc).
  apply list_elem_of_split in Hy as (c1 & c2 & ->).
  pose proof (simple_cycle_rotate g c1 (y :: c2) Hc) as Hc'.
  destruct Hc' as [(_ & Hnd' & Hp') (z & y' & Hz & Hy' & Hzy)]. injection Hy' as <-.
  set (c' := (y :: c2) ++ c1) in *.
  assert (found cs c') as (d & Hd & Hdc).
  { assert (y ∉ p) as Hyp. { intros Hyp. apply (Hpc y Hyp). rewrite elem_of_app. right. left. }
    assert (path_index (p ++ c') y = length p) as Hidx.
    { destruct (path_index_spec (p ++ c') y) as (q & r & Heq & Hq & ->);
        [apply elem_of_app; right; left|].
      clear -Heq Hq Hyp. revert q Heq Hq. induction p as [|a p IH]; intros [|b q] Heq Hq; simpl in *; try done.
      - injection Heq as -> _. destruct Hq. left.
      - injection Heq as -> _. destruct Hyp. left.
      - injection Heq as -> Heq. f_equal. apply not_elem_of_cons in Hyp as [_ Hyp], Hq as [_ Hq].
        by apply (IH Hyp). }
    rewrite <-(drop_app_length p c'), <-Hidx. apply (Hclosed (p ++ c')) with (x := z).
    - split_and!; [by destruct p| |].
      + apply NoDup_app in Hnd as (Hndp & _ & _). apply NoDup_app. split; [done|]. split; [|done].
        intros w Hw Hwc. apply (Hpc w Hw). revert Hwc. unfold c'.
        rewrite !elem_of_app. naive_solver.
      + unfold c'. simpl. clear -Hp Hp'. induction p as [|a p IH]; [done|].
        simpl in *. destruct Hp as [Ha Hp]. split; [|by apply IH]. by destruct p.
    - by destruct p.
    - rewrite last_app, Hz. done.
    - done.
    - apply elem_of_app. right. left. }
  exists d. split; [done|]. apply (rotation_trans d c'); [done|].
  apply rotation_split. exists (y :: c2), c1. done.
Qed.

Lemma covers_mono g (cs cs' : list (list A)) s : cs `prefix_of` cs' → covers g cs s → covers g cs' s.
Proof. intros Hpre Hc c x ???. eapply found_mono, Hc; eauto. Qed.
Lemma covers_reach g (cs : list (list A)) s v : rtc (child g) s v → covers g cs s → covers g cs v.
Proof. intros Hr Hc c x ???. eapply Hc; [done..|]. by etrans. Qed.

Lemma search_start g s (cs : list (list A)) vis :
  cycles_inv g cs → search_inv g s (Search cs [[s]] vis).
Proof.
  intros Hinv. split; [|done|]; simpl.
  - intros p ->%list_elem_of_singleton. split; [|done].
    split_and!; [done|apply NoDup_singleton|done].
  - intros p Hp Hs. left. exists [s]. split; [left|]. destruct p; [done|]. injection Hs as ->.
    by exists p.
Qed.

Lemma find_cycles_from_spec g parents st :
  (∀ s, s ∈ parents → s ∈ graph_nodes g) → cycles_inv g (cycles st) →
  (∀ v, v ∈ visited_nodes st → covers g (cycles st) v) →
  ∃ st', find_cycles_from (cycles_fuel g) g parents st = Some (Ok st') ∧
    cycles_inv g (cycles st') ∧ cycles st `prefix_of` cycles st' ∧
    ∀ s, s ∈ parents → covers g (cycles st') s.
Proof.
  revert st. induction parents as [|s parents IH]; intros st Hnodes Hinv Hvis; simpl.
  { exists st. split_and!; try done. by intros s ?%not_elem_of_nil. }
  assert (∀ s', s' ∈ parents → s' ∈ graph_nodes g) as Hnodes' by (intros; apply Hnodes; by right).
  case_decide as Hs.
  - destruct (IH st) as (st' & -> & Hinv' & Hpre & Hcov); [done..|].
    exists st'. split_and!; [done..|]. intros s' [->|Hs']%elem_of_cons; [|by apply Hcov].
    eapply covers_mono, Hvis; done.
  - destruct (search_loop_spec (cycles_fuel g) g s (Search (cycles st) [[s]] (visited_nodes st)))
      as (st1 & -> & Hinv1 & Hpre1 & Hclosed & Hvis1); [by apply search_start|apply Hnodes; left| |].
    { simpl. unfold stack_weight, weight, cycles_fuel. simpl. rewrite Nat.add_0_r.
      apply Nat.pow_le_mono_r; lia. }
    apply closed_covers in Hclosed. simpl in *.
    destruct (IH st1) as (st' & -> & Hinv' & Hpre & Hcov); [done..| |].
    { intros v [Hv|Hv]%Hvis1; [by eapply covers_mono, Hvis|by eapply covers_reach]. }
    exists st'. split_and!; [done..|by etrans|].
    intros s' [->|Hs']%elem_of_cons; [|by apply Hcov]. by eapply covers_mono.
Qed.

(** A node on a cycle lies on a simple one. *)
Lemma tc_simple_cycle g x : tc (child g) x x → ∃ c, simple_cycle g c ∧ x ∈ c.
Proof.
  intros Hx. assert (∃ y, child g x y ∧ rtc (child g) y x) as (y & Hxy & Hr).
  { inversion Hx as [? ? Hc|? z ? Hc Ht]; subst; [by exists x|]. exists z. split; [done|]. by apply tc_rtc. }
  destruct (reach_path g [x] y x Hr) as (p & z & Hp & Hh & Hz & _); [left|].
  apply list_elem_of_singleton in Hz as ->. exists (p ++ [x]). split; [|apply elem_of_app; right; left].
  split; [done|]. exists x, y. by rewrite last_snoc.
Qed.

Lemma simple_cycle_tc g c : simple_cycle g c → ∃ x, tc (child g) x x.
Proof.
  intros [(_ & _ & Hp) (x & y & Hx & Hy & Hxy)]. exists y.
  assert (rtc (child g) y x) as Hr.
  { apply (path_reach g c); [done..|]. by apply last_Some_elem_of. }
  eapply tc_rtc_l; [exact Hr|]. by apply tc_once.
Qed.

(** C39: [find_cycles] ends without an exception.  What it yields are simple
    cycles of the graph, no two of them rotations of each other, and every
    simple cycle of the graph is a rotation of one of them, whatever the order
    of the dict; in particular it yields nothing exactly when the graph has no
    cycle. *)
Theorem find_cycles_complete g :
  ∃ cs, find_cycles g = Some (Ok cs) ∧
    (∀ c, c ∈ cs → simple_cycle g c) ∧
    (∀ i j c d, cs !! i = Some c → cs !! j = Some d → rotation c d → i = j) ∧
    (∀ c, simple_cycle g c → ∃ c', c' ∈ cs ∧ rotation c' c) ∧
    (cs = [] ↔ ∀ x, ¬ tc (child g) x x).
Proof.
  destruct (find_cycles_from_spec g (dict_keys g) (Search [] [] ∅)) as (st & Hst & [Hs Hr] & _ & Hcov).
  - intros s Hs. apply elem_of_graph_nodes. left. by apply elem_of_dict_keys.
  - split; [by intros c ?%not_elem_of_nil|done].
  - by intros v ?%elem_of_empty.
  - assert (∀ c, simple_cycle g c → found (cycles st) c) as Hall.
    { intros c Hc. pose proof Hc as [_ (x & y & Hx & Hy & (cs & Hcs & Hxy))].
      apply (Hcov x) with (x := x); [|done|by apply last_Some_elem_of|done].
      apply elem_of_dict_keys. eauto. }
    exists (cycles st). unfold find_cycles. rewrite Hst. split_and!; [done..|]. split.
    + intros Hnil x Hx. apply tc_simple_cycle in Hx as (c & Hc & _).
      apply Hall in Hc as (c' & Hc' & _). rewrite Hnil in Hc'. by apply not_elem_of_nil in Hc'.
    + intros Hno. destruct (cycles st) as [|c cs] eqn:E; [done|].
      destruct (simple_cycle_tc g c) as (x & Hx); [apply Hs; left|]. by destruct (Hno x).
Qed.
End find_cycles.
Arguments search _ {_ _}.

(** The diamond of the module's doctests: three cycles, each once. *)
Example find_cycles_diamond :
  length <$> (default [] (match find_cycles
    {[ "A" := ["B1"; "B2"]; "B1" := ["C"]; "B2" := ["C"]; "C" := ["A"; "B1"] ]} with
    | Some (Ok cs) => Some cs | _ => None end)) = [2; 3; 3]%nat.
Proof. by vm_compute. Qed.
