(* ===== verification/ShellCmd.v ===== *)
(** * waf-tools/shellcmd.py: shell-like command lines
    The tokens of a command line ([shlex.split]), the state machine of
    [Pipeline.parse], and [Pipeline.run], which starts and waits for the
    processes.  The operating system is a parameter: the exit code of the k-th
    process, and which calls of Popen and open raise.  What [run] does to it
    is the trace of its calls. *)
From Stdlib Require Import Ascii.
From S2P Require Import Prelude PyStr PyShlex.
#[local] Open Scope Z_scope.

(** ** Data *)

(** What [stdout] and [stderr] of a command can be, besides None. *)
Inductive redirect : Type :=
| PIPE
| STDOUT
| ToFile (filename : string).

Record command : Type := Command {
  name : string;
  argv : list string;
  stdin : option string;
  stdout : option redirect;
  stderr : option redirect;
  env_vars : option (list (string * string));
}.

Inductive node : Type :=
| NCommand (c : command)
| NChdir (dir : option string)
| NPipe
| NAnd
| NOr.

#[export] Instance redirect_eq_dec : EqDecision redirect.
Proof. solve_decision. Defined.
#[export] Instance command_eq_dec : EqDecision command.
Proof. solve_decision. Defined.
#[export] Instance node_eq_dec : EqDecision node.
Proof. solve_decision. Defined.

(** [Command(name)] *)
Definition new_command (name : string) : command := Command name [name] None None None None.

(** ** Pipeline.parse *)

Definition is_key_char (a : ascii) : bool :=
  let n := nat_of_ascii a in
  is_digit a || ((65 <=? n)%nat && (n <=? 90)%nat) || ((97 <=? n)%nat && (n <=? 122)%nat)
  || (n =? 95)%nat.
(** [env_var_rx.match(token)]; [$] also matches before a final newline. *)
Definition env_var_match (token : string) : option (string * string) :=
  match split1_chars "=" (chars token) with
  | (key, Some value) =>
      let value := match list.reverse value with
                   | "010"%char :: v => list.reverse v
                   | _ => value
                   end in
      if decide (key ≠ [] ∧ forallb is_key_char key = true
                 ∧ value ≠ [] ∧ forallb (λ a, negb (is_space a)) value = true)
      then Some (of_chars key, of_chars value) else None
  | (_, None) => None
  end.

Inductive parse_state : Type := BEGIN | COMMAND | CHDIR | STDERR | STDOUT_ | STDIN.

Record parser : Type := Parser {
  state : parse_state;
  current_command : option node;
  pipeline : list node;
  env : list (string * string);
}.

Definition _commit_command (p : parser) : res parser :=
  match current_command p with
  | None => Err AssertionError
  | Some node => Ok (Parser (state p) None (pipeline p ++ [node]) (env p))
  end.

(** An update of the attributes of [self.current_command], which must be a
    Command to have them. *)
Definition with_command (p : parser) (st : parse_state) (f : command → res command) : res parser :=
  match current_command p with
  | Some (NCommand c) => c ← f c; Ok (Parser st (Some (NCommand c)) (pipeline p) (env p))
  | _ => Err AttributeError
  end.
Definition is_unset {A} (o : option A) : bool := match o with None => true | Some _ => false end.
Definition set_stdin (token : string) (c : command) : res command :=
  _ ← py_assert (is_unset (stdin c));
  Ok (Command (name c) (argv c) (Some token) (stdout c) (stderr c) (env_vars c)).
Definition set_stdout (r : redirect) (c : command) : res command :=
  _ ← py_assert (is_unset (stdout c));
  Ok (Command (name c) (argv c) (stdin c) (Some r) (stderr c) (env_vars c)).
Definition set_stderr (r : redirect) (c : command) : res command :=
  _ ← py_assert (is_unset (stderr c));
  Ok (Command (name c) (argv c) (stdin c) (stdout c) (Some r) (env_vars c)).
Definition add_arg (token : string) (c : command) : res command :=
  Ok (Command (name c) (argv c ++ [token]) (stdin c) (stdout c) (stderr c) (env_vars c)).

(** [self._commit_command(); self.pipeline.append(op); state = BEGIN] *)
Definition commit_op (p : parser) (op : node) : res parser :=
  p ← _commit_command p;
  Ok (Parser BEGIN (current_command p) (pipeline p ++ [op]) (env p)).

Definition step_begin (p : parser) (token : string) : res parser :=
  match env_var_match token with
  | Some (k, v) => Ok (Parser BEGIN (current_command p) (pipeline p) (dict_set (env p) k v))
  | None =>
      _ ← py_assert (is_unset (current_command p));
      if decide (token = "cd") then
        _ ← py_assert (bool_decide (env p = []));
        Ok (Parser CHDIR (Some (NChdir None)) (pipeline p) (env p))
      else
        let c := new_command token in
        Ok (if decide (env p = []) then
              Parser COMMAND (Some (NCommand c)) (pipeline p) (env p)
            else
              Parser COMMAND
                (Some (NCommand (Command (name c) (argv c) (stdin c) (stdout c) (stderr c)
                                   (Some (env p)))))
                (pipeline p) [])
  end.

Definition step_command (p : parser) (token : string) : res parser :=
  let goto st := Ok (Parser st (current_command p) (pipeline p) (env p)) in
  if decide (token = ">") then goto STDOUT_
  else if decide (token = "2>") then goto STDERR
  else if decide (token = "2>&1") then with_command p COMMAND (set_stderr STDOUT)
  else if decide (token = "<") then goto STDIN
  else if decide (token = "|") then
    p ← with_command p COMMAND (set_stdout PIPE);
    commit_op p NPipe
  else if decide (token = "&&") then commit_op p NAnd
  else if decide (token = "||") then commit_op p NOr
  else with_command p COMMAND (add_arg token).

Definition step_chdir (p : parser) (token : string) : res parser :=
  if decide (token = "&&") then commit_op p NAnd
  else match current_command p with
       | Some (NChdir dir) =>
           _ ← py_assert (is_unset dir);
           Ok (Parser CHDIR (Some (NChdir (Some token))) (pipeline p) (env p))
       | _ => Err AttributeError
       end.

(** One pass of [while tokens]. *)
Definition parse_step (p : parser) (token : string) : res parser :=
  match state p with
  | BEGIN => step_begin p token
  | COMMAND => step_command p token
  | CHDIR => step_chdir p token
  | STDOUT_ => with_command p COMMAND (set_stdout (ToFile token))
  | STDERR => with_command p COMMAND (set_stderr (ToFile token))
  | STDIN => with_command p COMMAND (set_stdin token)
  end.
Fixpoint parse_loop (p : parser) (tokens : list string) : res parser :=
  match tokens with
  | [] => Ok p
  | token :: tokens => p ← parse_step p token; parse_loop p tokens
  end.
Definition parse_tokens (tokens : list string) : res (list node) :=
  p ← parse_loop (Parser BEGIN None [] []) tokens;
  pipeline <$> _commit_command p.

(** The argument of [parse] is a list of tokens or a string. *)
Definition parse (cmd : list string + string) : res (list node) :=
  tokens ← (match cmd with inl l => Ok l | inr s => shlex_split s end);
  parse_tokens tokens.

(** [get_abbreviated_command]: as in the code, the branch that would print
    [||] repeats the test for [And]. *)
Definition show_dir (dir : option string) : string := default "None" dir.
Definition abbreviate (n : node) : list string :=
  match n with
  | NCommand c => [name c]
  | NChdir dir => ["cd " +:+ show_dir dir]
  | NPipe => ["|"]
  | NAnd => ["&&"]
  | NOr => []
  end.
Definition get_abbreviated_command (pipeline : list node) : string :=
  join " " (mjoin (abbreviate <$> pipeline)).

Example parse_doc :
  parse (inr "./foo.py 2>&1 < xxx | cat && ls") =
  Ok [NCommand (Command "./foo.py" ["./foo.py"] (Some "xxx") (Some PIPE) (Some STDOUT) None);
      NPipe; NCommand (new_command "cat"); NAnd; NCommand (new_command "ls")].
Proof. reflexivity. Qed.

(** ** Pipeline.run *)

Inductive file : Type :=
| DevNull
| Opened (filename : string) (writing : bool).
#[export] Instance file_eq_dec : EqDecision file.
Proof. solve_decision. Defined.

Inductive proc_in : Type := InInherit | InPipeOf (k : nat) | InFile (f : file).
Inductive proc_out : Type := OutInherit | OutPipe | OutStdout | OutFile (f : file).

#[export] Instance proc_out_eq_dec : EqDecision proc_out.
Proof. solve_decision. Defined.

(** The arguments of [subprocess.Popen]. *)
Record popen_args : Type := Popen {
  p_argv : list string;
  p_stdin : proc_in;
  p_stdout : proc_out;
  p_stderr : proc_out;
  p_env : option (gmap string string);
  p_cwd : option string;
}.

Inductive event : Type :=
| EvOpen (f : file)
| EvPopen (k : nat) (a : popen_args)
| EvWait (k : nat)
| EvClose (f : file)
| EvPrint (line : string).

Section run.
(** The exit code of the k-th process, the calls that raise, and [os.environ]. *)
Context (exit_code : nat → Z).
Context (popen_error : popen_args → option exn) (open_error : string → option exn).
Context (environ : gmap string string).

(** The calls made so far and the number of processes started. *)
Record world : Type := World { trace : list event; nproc : nat }.
Definition io : Type → Type := eff world exn.

Definition emit (e : event) : io unit := λ w, (World (trace w ++ [e]) (nproc w), Ok tt).
Definition print (verbose : bool) (line : string) : io unit :=
  if verbose then emit (EvPrint line) else mret ().
Definition open (filename : string) (writing : bool) : io file :=
  match open_error filename with
  | Some e => throw e
  | None => _ ← emit (EvOpen (Opened filename writing)); mret (Opened filename writing)
  end.
Definition _open_out_file (filename : string) : io file :=
  if decide (filename = "NUL:" ∨ filename = "/dev/null") then mret DevNull
  else open filename true.
Definition popen (a : popen_args) : io nat := λ w,
  match popen_error a with
  | Some e => (w, Err e)
  | None => (World (trace w ++ [EvPopen (nproc w) a]) (S (nproc w)), Ok (nproc w))
  end.
(** A started process: its number and whether its stdout is a pipe. *)
Definition process : Type := nat * bool.
Definition wait (p : process) : io Z := _ ← emit (EvWait p.1); mret (exit_code p.1).

Fixpoint wait_all (commands : list process) : io (list Z) :=
  match commands with
  | [] => mret []
  | cmd :: commands => r ← wait cmd; rs ← wait_all commands; mret (r :: rs)
  end.
(** [for r in retvals: if r: retval = retvals[-1]; break] *)
Definition _exec_piped_commands (commands : list process) : io Z :=
  retvals ← wait_all commands;
  mret (if existsb (λ r, negb (r =? 0)) retvals then default 0 (last retvals) else 0).

Definition close_files (files_to_close : list file) : io unit :=
  for_each (λ f, if decide (f = DevNull) then mret () else emit (EvClose f)) files_to_close.

(** The local variables of the loop; [piping] is [state == PIPE]. *)
Record locals : Type := Locals {
  files_to_close : list file;
  piped_commands : list process;
  piped_commands_display : list string;
  piping : bool;
  cwd : string;
}.

Definition show_env (vars : list (string * string)) : string :=
  join " " ((λ kv, kv.1 +:+ "=" +:+ kv.2) <$> vars).
Definition show_command (cmd : command) : string :=
  match env_vars cmd with
  | Some ((_ :: _) as vars) => show_env vars +:+ " " +:+ join " " (argv cmd)
  | _ => join " " (argv cmd)
  end.

(** The three redirections: the handle, the files to close and what is shown. *)
Definition redirect_stdin (l : locals) (cmd : command) : io (proc_in * list file * list string) :=
  if piping l then
    match last (piped_commands l) with
    | None => throw IndexError
    | Some (k, is_pipe) => mret (if (is_pipe : bool) then InPipeOf k else InInherit, [], [])
    end
  else match stdin cmd with
       | Some filename => f ← open filename false; mret (InFile f, [f], ["< " +:+ filename])
       | None => mret (InInherit, [], [])
       end.
Definition redirect_stdout (cmd : command) : io (proc_out * list file * list string) :=
  match stdout cmd with
  | None => mret (OutInherit, [], [])
  | Some PIPE => mret (OutPipe, [], [])
  | Some STDOUT => throw TypeError
  | Some (ToFile filename) =>
      f ← _open_out_file filename; mret (OutFile f, [f], ["> " +:+ filename])
  end.
Definition redirect_stderr (cmd : command) : io (proc_out * list file * list string) :=
  match stderr cmd with
  | None => mret (OutInherit, [], [])
  | Some PIPE => mret (OutPipe, [], [])
  | Some STDOUT => mret (OutStdout, [], ["2>&1"])
  | Some (ToFile filename) =>
      f ← _open_out_file filename; mret (OutFile f, [f], ["2> " +:+ filename])
  end.

(** One command is started: everything up to [piped_commands.append(proc)]. *)
Definition start_command (verbose : bool) (l : locals) (cmd : command) : io locals :=
  let shown (d : list string) := if verbose then d else [] in
  '(stdin, files1, d1) ← redirect_stdin l cmd;
  '(stdout, files2, d2) ← redirect_stdout cmd;
  '(stderr, files3, d3) ← redirect_stderr cmd;
  let env := match env_vars cmd with
             | Some ((_ :: _) as vars) =>
                 Some (foldl (λ m kv, <[kv.1 := kv.2]> m) environ vars)
             | _ => None
             end in
  let proc_cwd := if decide (cwd l = ".") then None else Some (cwd l) in
  k ← popen (Popen (argv cmd) stdin stdout stderr env proc_cwd);
  mret (Locals (files_to_close l ++ files1 ++ files2 ++ files3)
          (piped_commands l ++ [(k, bool_decide (stdout = OutPipe))])
          (piped_commands_display l ++ shown ([show_command cmd] ++ d1 ++ d2 ++ d3))
          (piping l) (cwd l)).

Definition show_exit (l : locals) (retval : Z) (what : string) : string :=
  join " " (piped_commands_display l) +:+ ": exit code " +:+ pretty retval +:+ what.

(** The end of a piped group: wait, close the files. *)
Definition finish_group (l : locals) : io Z :=
  r ← _exec_piped_commands (piped_commands l);
  _ ← close_files (files_to_close l);
  mret r.
Definition next_group (l : locals) : locals := Locals [] [] [] false (cwd l).

(** [retval] has no value when the two operators print it. *)
Definition print_retval (verbose : bool) : io unit :=
  if verbose then throw UnboundLocalError else mret ().

(** [while pipeline]; the result is the returned exit code, or None. *)
Fixpoint run_loop (verbose : bool) (l : locals) (pipeline : list node) : io (option Z) :=
  match pipeline with
  | [] => mret None
  | NChdir dir :: pipeline =>
      match pipeline with
      | [] => throw IndexError
      | NAnd :: pipeline =>
          match dir with
          | None => throw TypeError
          | Some d =>
              run_loop verbose
                (Locals (files_to_close l) (piped_commands l)
                   (piped_commands_display l ++ if verbose then ["cd " +:+ d +:+ " &&"] else [])
                   (piping l) (path_join (cwd l) d))
                pipeline
          end
      | _ :: _ => throw AssertionError
      end
  | NCommand cmd :: pipeline =>
      l ← start_command verbose l cmd;
      match pipeline with
      | [] =>
          r ← _exec_piped_commands (piped_commands l);
          _ ← print verbose (show_exit l r "");
          _ ← close_files (files_to_close l);
          mret (Some r)
      | NPipe :: pipeline =>
          run_loop verbose
            (Locals (files_to_close l) (piped_commands l) (piped_commands_display l ++ ["|"])
               true (cwd l)) pipeline
      | NOr :: pipeline =>
          this_retval ← finish_group l;
          _ ← print_retval verbose;
          if decide (this_retval = 0) then mret (Some this_retval)
          else run_loop verbose (next_group l) pipeline
      | NAnd :: pipeline =>
          this_retval ← finish_group l;
          _ ← print_retval verbose;
          if decide (this_retval ≠ 0) then mret (Some this_retval)
          else run_loop verbose (next_group l) pipeline
      | _ :: pipeline => run_loop verbose l pipeline
      end
  | _ :: _ => throw AssertionError
  end.
Definition run (verbose : bool) (pipeline : list node) : world * res (option Z) :=
  run_loop verbose (Locals [] [] [] false ".") pipeline (World [] 0).
End run.

(** ** What the parser accepts *)

Definition wf_var (kv : string * string) : Prop :=
  chars kv.1 ≠ [] ∧ forallb is_key_char (chars kv.1) = true ∧
  chars kv.2 ≠ [] ∧ forallb (λ a, negb (is_space a)) (chars kv.2) = true.
Definition operators : list string := [">"; "2>"; "2>&1"; "<"; "|"; "&&"; "||"].

Record wf_command (c : command) : Prop := {
  wf_name : name c ≠ "cd" ∧ env_var_match (name c) = None;
  wf_argv : ∃ args, argv c = name c :: args ∧ Forall (λ a, a ∉ operators) args;
  wf_stdout : stdout c ≠ Some STDOUT;
  wf_stderr : stderr c ≠ Some PIPE;
  wf_env : ∀ vars, env_vars c = Some vars → vars ≠ [] ∧ Forall wf_var vars ∧ NoDup vars.*1;
}.

Inductive wf_nodes : list node → Prop :=
| wf_last c : wf_command c → stdout c ≠ Some PIPE → wf_nodes [NCommand c]
| wf_pipe c l :
    wf_command c → stdout c = Some PIPE → wf_nodes l → wf_nodes (NCommand c :: NPipe :: l)
| wf_op c op l :
    op = NAnd ∨ op = NOr → wf_command c → stdout c ≠ Some PIPE → wf_nodes l →
    wf_nodes (NCommand c :: op :: l)
| wf_chdir_last d : d ≠ Some "&&" → wf_nodes [NChdir d]
| wf_chdir d l : d ≠ Some "&&" → wf_nodes l → wf_nodes (NChdir d :: NAnd :: l).

(** The tokens of a parsed pipeline. *)
Definition unparse_redirect (op : string) (r : option redirect) : list string :=
  match r with
  | Some (ToFile f) => [op; f]
  | Some STDOUT => ["2>&1"]
  | _ => []
  end.
Definition unparse_command (c : command) : list string :=
  ((λ kv, kv.1 +:+ "=" +:+ kv.2) <$> default [] (env_vars c)) ++ argv c
  ++ (match stdin c with Some f => ["<"; f] | None => [] end)
  ++ unparse_redirect ">" (stdout c) ++ unparse_redirect "2>" (stderr c).
Definition unparse_node (n : node) : list string :=
  match n with
  | NCommand c => unparse_command c
  | NChdir d => "cd" :: match d with Some d => [d] | None => [] end
  | NPipe => ["|"]
  | NAnd => ["&&"]
  | NOr => ["||"]
  end.
Definition unparse (l : list node) : list string := mjoin (unparse_node <$> l).

Lemma parse_loop_app p t1 t2 :
  parse_loop p (t1 ++ t2) = (p ← parse_loop p t1; parse_loop p t2).
Proof.
  revert p. induction t1 as [|t t1 IH]; intros p; simpl; [done|].
  destruct (parse_step p t); simpl; [apply IH|done].
Qed.

Lemma key_char_not_eq l : forallb is_key_char l = true → "="%char ∉ l.
Proof. intros Hl Hin%list_elem_of_In. rewrite forallb_forall in Hl. by apply Hl in Hin. Qed.

Lemma split1_chars_app c k v : c ∉ k → split1_chars c (k ++ c :: v) = (k, Some v).
Proof.
  induction k as [|a k IH]; intros Hk; simpl; [by rewrite decide_True|].
  apply not_elem_of_cons in Hk as [? ?]. rewrite decide_False by done. by rewrite IH.
Qed.

(** An assignment that the regular expression accepts is read back. *)
Lemma env_var_match_wf k v :
  wf_var (k, v) → env_var_match (k +:+ "=" +:+ v) = Some (k, v).
Proof.
  intros (Hk & Hkc & Hv & Hvc). simpl in *. unfold env_var_match.
  rewrite !chars_app. simpl. rewrite split1_chars_app by by apply key_char_not_eq.
  assert (∀ v', list.reverse (chars v) ≠ "010"%char :: v') as Hnl.
  { intros v' Heq. assert ("010"%char ∈ chars v) as Hin.
    { apply elem_of_reverse. rewrite Heq. left. }
    rewrite forallb_forall in Hvc. by apply list_elem_of_In, Hvc in Hin. }
  assert (match list.reverse (chars v) with "010"%char :: v0 => list.reverse v0 | _ => chars v end
          = chars v) as ->.
  { destruct (list.reverse (chars v)) as [|a v'] eqn:Hr; [done|].
    destruct (decide (a = "010"%char)) as [->|Ha]; [by destruct (Hnl v')|].
    repeat (let b := fresh "b" in destruct a as [b ? ? ? ? ? ? ?]); by repeat case_match. }
  rewrite decide_True by done. by rewrite !of_chars_chars.
Qed.

Lemma env_var_match_sound t k v : env_var_match t = Some (k, v) → wf_var (k, v).
Proof.
  unfold env_var_match. destruct (split1_chars "=" (chars t)) as [k' [v'|]]; [|done].
  case_decide as Hd; [|done]. intros [= <- <-]. unfold wf_var. simpl. by rewrite !chars_of_chars.
Qed.

Lemma dict_set_wf d k v :
  wf_var (k, v) → Forall wf_var d → Forall wf_var (dict_set d k v).
Proof.
  intros Hkv. induction 1 as [|[k1 v1] d Hkv1 Hd IH]; simpl; [by apply Forall_singleton|].
  case_decide; by apply Forall_cons.
Qed.

Lemma parse_env vars l e :
  Forall wf_var vars → NoDup (e ++ vars).*1 →
  parse_loop (Parser BEGIN None l e) ((λ kv, kv.1 +:+ "=" +:+ kv.2) <$> vars) =
  Ok (Parser BEGIN None l (e ++ vars)).
Proof.
  revert e. induction vars as [|[k v] vars IH]; intros e Hwf Hnd; simpl; [by rewrite app_nil_r|].
  apply Forall_cons in Hwf as [Hkv Hwf]. unfold parse_step; simpl. unfold step_begin.
  change (String "=" v) with ("=" +:+ v). rewrite env_var_match_wf by done. simpl.
  rewrite dict_set_fresh, IH; [by rewrite <-app_assoc|done|by rewrite <-app_assoc|].
  rewrite fmap_app in Hnd. simpl in Hnd. apply NoDup_app in Hnd as (_ & Hk & _).
  intros Hin. by eapply Hk; [|left].
Qed.

Lemma step_command_arg c l token :
  token ∉ operators →
  step_command (Parser COMMAND (Some (NCommand c)) l []) token =
  with_command (Parser COMMAND (Some (NCommand c)) l []) COMMAND (add_arg token).
Proof.
  unfold operators. intros Hop. unfold step_command. rewrite !not_elem_of_cons in Hop.
  destruct Hop as (? & ? & ? & ? & ? & ? & ? & _).
  by do 7 (rewrite decide_False by done).
Qed.

Lemma parse_args args c l :
  Forall (λ a, a ∉ operators) args →
  parse_loop (Parser COMMAND (Some (NCommand c)) l []) args =
  Ok (Parser COMMAND (Some (NCommand (Command (name c) (argv c ++ args) (stdin c) (stdout c)
        (stderr c) (env_vars c)))) l []).
Proof.
  revert c. induction args as [|a args IH]; intros c Hargs; simpl.
  { rewrite app_nil_r. by destruct c. }
  apply Forall_cons in Hargs as [Ha Hargs]. unfold parse_step; simpl.
  rewrite step_command_arg by done. simpl. rewrite IH by done. simpl. by rewrite <-app_assoc.
Qed.

(** Without the pipe, which the operator after the command sets. *)
Definition no_pipe (c : command) : command :=
  Command (name c) (argv c) (stdin c)
    (match stdout c with Some PIPE => None | r => r end) (stderr c) (env_vars c).

Lemma parse_command c l :
  wf_command c →
  parse_loop (Parser BEGIN None l []) (unparse_command c) =
  Ok (Parser COMMAND (Some (NCommand (no_pipe c))) l []).
Proof.
  intros [[Hcd Hname] (args & Hargv & Hargs) Hout Herr Henv]. unfold unparse_command.
  assert (Forall wf_var (default [] (env_vars c)) ∧ NoDup (default [] (env_vars c)).*1) as [Hvars Hnd].
  { destruct (env_vars c) as [vars|]; simpl; [|split; [constructor|apply NoDup_nil_2]].
    by destruct (Henv _ eq_refl) as (_ & ? & ?). }
  rewrite parse_loop_app, parse_env by done. simpl. rewrite parse_loop_app, Hargv. simpl.
  unfold parse_step; simpl. unfold step_begin. rewrite Hname. simpl. rewrite decide_False by done.
  set (vars := default [] (env_vars c)).
  assert ((if decide (vars = []) then
      Parser COMMAND (Some (NCommand (new_command (name c)))) l vars
    else Parser COMMAND (Some (NCommand (Command (name c) [name c] None None None (Some vars)))) l [])
    = Parser COMMAND (Some (NCommand (Command (name c) [name c] None None None (env_vars c)))) l [])
    as Hv.
  { subst vars. destruct (env_vars c) as [vs|]; simpl; [|done].
    destruct (Henv _ eq_refl) as (? & _). by rewrite decide_False. }
  simpl in Hv. rewrite Hv. simpl.
  rewrite parse_args by done. simpl.
  unfold no_pipe. rewrite Hargv.
  destruct c as [n a i [[| |fo]|] [[| |fe]|] e]; simpl in *; try done; destruct i; reflexivity.
Qed.

Definition parse_from (l : list node) (tokens : list string) : res (list node) :=
  p ← parse_loop (Parser BEGIN None l []) tokens; pipeline <$> _commit_command p.

Lemma parse_from_app l t1 t2 p :
  parse_loop (Parser BEGIN None l []) t1 = Ok p →
  parse_from l (t1 ++ t2) = (p ← parse_loop p t2; pipeline <$> _commit_command p).
Proof. intros Hp. unfold parse_from. by rewrite parse_loop_app, Hp. Qed.

Lemma parse_step_dir l d :
  d ≠ "&&" →
  parse_step (Parser CHDIR (Some (NChdir None)) l []) d =
  Ok (Parser CHDIR (Some (NChdir (Some d))) l []).
Proof. intros Hd. unfold parse_step, step_chdir. cbn [state]. by rewrite decide_False. Qed.

(** Every well-formed pipeline is the parse of its tokens. *)
Lemma parse_from_unparse nodes l :
  wf_nodes nodes → parse_from l (unparse nodes) = Ok (l ++ nodes).
Proof.
  intros Hwf. revert l.
  assert (∀ c, stdout c ≠ Some PIPE → no_pipe c = c) as Hnp
    by (by intros [? ? ? [[]|] ? ?] ?; simpl in *).
  induction Hwf as [c Hc Ho|c nodes Hc Ho _ IH|c op nodes Hop Hc Ho _ IH|d Hd|d nodes Hd _ IH];
    intros l; unfold unparse; simpl.
  - rewrite app_nil_r. unfold parse_from. rewrite parse_command by done. simpl. by rewrite Hnp.
  - erewrite parse_from_app by by apply parse_command. simpl.
    fold (unparse nodes). unfold parse_step; simpl. unfold step_command. simpl.
    destruct c as [n a i o e v]; simpl in *; subst. simpl.
    etrans; [apply IH|]. by rewrite <-!app_assoc.
  - erewrite parse_from_app by by apply parse_command. rewrite Hnp by done.
    destruct Hop as [-> | ->]; simpl; (etrans; [apply IH|]); by rewrite <-!app_assoc.
  - destruct d as [d|]; [|reflexivity]. unfold parse_from. simpl.
    change (parse_step _ "cd") with (Ok (E := exn) (Parser CHDIR (Some (NChdir None)) l [])).
    cbn [mbind result_bind]. by rewrite parse_step_dir by congruence.
  - unfold parse_from. simpl.
    change (parse_step _ "cd") with (Ok (E := exn) (Parser CHDIR (Some (NChdir None)) l [])).
    cbn [mbind result_bind]. destruct d as [d|]; simpl.
    + rewrite parse_step_dir by congruence. simpl. etrans; [apply IH|]. by rewrite <-!app_assoc.
    + etrans; [apply IH|]. by rewrite <-!app_assoc.
Qed.

(** ** What the parser returns *)

Definition wf_prefix (l : list node) : Prop := ∀ q, wf_nodes q → wf_nodes (l ++ q).
Definition open_command (c : command) : Prop := wf_command c ∧ stdout c ≠ Some PIPE.

(** The invariant of [parse_loop]. *)
Definition parser_inv (p : parser) : Prop :=
  wf_prefix (pipeline p) ∧
  match state p with
  | BEGIN => current_command p = None ∧ Forall wf_var (env p) ∧ NoDup (env p).*1
  | CHDIR => env p = [] ∧ ∃ d, current_command p = Some (NChdir d) ∧ d ≠ Some "&&"
  | _ => env p = [] ∧ ∃ c, current_command p = Some (NCommand c) ∧ open_command c
  end.

Definition inv_or_assert (r : res parser) : Prop :=
  r = Err AssertionError ∨ ∃ p, r = Ok p ∧ parser_inv p.

Lemma inv_or_assert_ok p : parser_inv p → inv_or_assert (Ok p).
Proof. right. eauto. Qed.
#[local] Hint Resolve inv_or_assert_ok : core.

(** Completing [with_command] by an update that keeps the command well-formed. *)
Lemma with_command_inv p st f c :
  wf_prefix (pipeline p) → env p = [] → current_command p = Some (NCommand c) →
  st = COMMAND → (f c = Err AssertionError ∨ ∃ c', f c = Ok c' ∧ open_command c') →
  inv_or_assert (with_command p st f).
Proof.
  intros Hp He Hc -> [Hf|(c' & Hf & Hc')]; unfold with_command; rewrite Hc, Hf; simpl.
  - by left.
  - apply inv_or_assert_ok. split; [done|]. simpl. eauto.
Qed.

Lemma set_stdin_wf token c :
  open_command c → set_stdin token c = Err AssertionError ∨
    ∃ c', set_stdin token c = Ok c' ∧ open_command c'.
Proof.
  intros [[]?]. unfold set_stdin. destruct (is_unset (stdin c)); simpl; [right|by left].
  eexists. split; [done|]. split; [|done]. by split.
Qed.

Lemma set_stdout_wf r c :
  r ≠ STDOUT → wf_command c → set_stdout r c = Err AssertionError ∨
    ∃ c', set_stdout r c = Ok c' ∧ wf_command c' ∧ stdout c' = Some r.
Proof.
  intros Hr []. unfold set_stdout. destruct (is_unset (stdout c)); simpl; [right|by left].
  eexists. split; [done|]. split; [|done]. split; simpl; try done. congruence.
Qed.

Lemma set_stderr_wf r c :
  r ≠ PIPE → open_command c → set_stderr r c = Err AssertionError ∨
    ∃ c', set_stderr r c = Ok c' ∧ open_command c'.
Proof.
  intros Hr [[]?]. unfold set_stderr. destruct (is_unset (stderr c)); simpl; [right|by left].
  eexists. split; [done|]. split; [|done]. split; simpl; try done. congruence.
Qed.

Lemma add_arg_wf token c :
  token ∉ operators → open_command c → ∃ c', add_arg token c = Ok c' ∧ open_command c'.
Proof.
  intros Ht [[Hn (args & Ha & Hargs) ???]?]. eexists. split; [done|]. split; [|done].
  split; simpl; try done. exists (args ++ [token]). rewrite Ha. split; [done|].
  apply Forall_app. by split; [|apply Forall_singleton].
Qed.

Lemma commit_op_inv p op n :
  current_command p = Some n → env p = [] → wf_prefix (pipeline p) →
  (∀ q, wf_nodes q → wf_nodes (n :: op :: q)) → inv_or_assert (commit_op p op).
Proof.
  intros Hn He Hp Hop. unfold commit_op, _commit_command. rewrite Hn. simpl.
  apply inv_or_assert_ok. split; simpl.
  - intros q Hq. rewrite <-!app_assoc. apply Hp. simpl. by apply Hop.
  - rewrite He. split_and!; [done|constructor|apply NoDup_nil_2].
Qed.

Lemma step_begin_inv p token :
  parser_inv p → state p = BEGIN → inv_or_assert (step_begin p token).
Proof.
  intros [Hp Hinv] Hst. rewrite Hst in Hinv. destruct Hinv as (Hc & Hwf & Hnd).
  unfold step_begin. rewrite Hc. destruct (env_var_match token) as [[k v]|] eqn:Hm.
  - apply env_var_match_sound in Hm.
    pose proof (dict_set_wf _ k v Hm Hwf). destruct (dict_set_keys _ k v Hnd) as [? _].
    apply inv_or_assert_ok. by split.
  - cbn [is_unset py_assert mbind result_bind]. destruct (decide (token = "cd")) as [|Hcd].
    + destruct (bool_decide_reflect (env p = [])) as [He|]; simpl; [|by left].
      apply inv_or_assert_ok. split; [done|]. simpl. eauto.
    + assert (∀ vars, (∀ vs, vars = Some vs → vs ≠ [] ∧ Forall wf_var vs ∧ NoDup vs.*1) →
        open_command (Command token [token] None None None vars)) as Hopen.
      { intros vars Hvars. split; [|done]. split; simpl; try done.
        exists []. by split; [|constructor]. }
      case_decide as He; apply inv_or_assert_ok; (split; [done|]); simpl;
        (split; [done|]); eexists; (split; [done|]); apply Hopen; intros vs [= <-]; done.
Qed.

Lemma step_command_inv p token :
  parser_inv p → state p = COMMAND → inv_or_assert (step_command p token).
Proof.
  intros [Hp Hinv] Hst. rewrite Hst in Hinv. destruct Hinv as (He & c & Hc & Hopen).
  assert (∀ st, st = STDIN ∨ st = STDOUT_ ∨ st = STDERR →
    inv_or_assert (Ok (Parser st (current_command p) (pipeline p) (env p)))) as Hgoto.
  { intros st Hs. apply inv_or_assert_ok. split; [done|]. simpl.
    destruct Hs as [-> | [-> | ->]]; eauto. }
  unfold step_command. destruct (decide (token = ">")); [by eauto|].
  destruct (decide (token = "2>")); [by eauto|].
  destruct (decide (token = "2>&1")).
  { eapply with_command_inv; eauto. by apply set_stderr_wf. }
  destruct (decide (token = "<")); [by eauto|].
  destruct (decide (token = "|")).
  { unfold with_command. rewrite Hc.
    destruct (set_stdout_wf PIPE c) as [-> | (c' & -> & Hc' & Ho)]; [done|apply Hopen|by left|].
    simpl. eapply commit_op_inv; [done|done|done|]. intros q Hq. by apply wf_pipe. }
  destruct Hopen as [? ?].
  destruct (decide (token = "&&")).
  { eapply commit_op_inv; [done..|]. intros q Hq. apply wf_op; auto. }
  destruct (decide (token = "||")).
  { eapply commit_op_inv; [done..|]. intros q Hq. apply wf_op; auto. }
  eapply with_command_inv; eauto. right. apply add_arg_wf; [|by split].
  unfold operators. rewrite !not_elem_of_cons. split_and!; try done. apply not_elem_of_nil.
Qed.

Lemma parse_step_inv p token : parser_inv p → inv_or_assert (parse_step p token).
Proof.
  intros Hinv. pose proof Hinv as [Hp Hst]. unfold parse_step.
  destruct (state p) eqn:Hs; [by apply step_begin_inv|by apply step_command_inv| |..].
  - destruct Hst as (He & d & Hc & Hd). unfold step_chdir. rewrite Hc. case_decide as Ht.
    + eapply commit_op_inv; [done..|]. intros q Hq. by apply wf_chdir.
    + destruct d; simpl; [by left|]. apply inv_or_assert_ok. split; [done|]. simpl.
      split; [done|]. eexists. split; [done|]. congruence.
  - destruct Hst as (He & c & Hc & Hopen). eapply with_command_inv; eauto. by apply set_stderr_wf.
  - destruct Hst as (He & c & Hc & [Hwf ?]). eapply with_command_inv; eauto.
    destruct (set_stdout_wf (ToFile token) c) as [?|(c' & ? & ? & Ho)]; [done..|by left|].
    right. exists c'. split; [done|]. split; [done|]. by rewrite Ho.
  - destruct Hst as (He & c & Hc & Hopen). eapply with_command_inv; eauto. by apply set_stdin_wf.
Qed.

Lemma parse_loop_inv p tokens : parser_inv p → inv_or_assert (parse_loop p tokens).
Proof.
  revert p. induction tokens as [|t tokens IH]; intros p Hp; simpl; [by apply inv_or_assert_ok|].
  destruct (parse_step_inv p t Hp) as [-> | (p' & -> & Hp')]; [by left|]. by apply IH.
Qed.

Lemma parse_tokens_wf tokens :
  parse_tokens tokens = Err AssertionError ∨
  ∃ nodes, parse_tokens tokens = Ok nodes ∧ wf_nodes nodes.
Proof.
  unfold parse_tokens. destruct (parse_loop_inv (Parser BEGIN None [] []) tokens)
    as [Herr | (p & Hok & [Hp Hst])].
  { split; [by intros q|]. simpl. split_and!; [done|constructor|apply NoDup_nil_2]. }
  { left. by rewrite Herr. }
  rewrite Hok. simpl. unfold _commit_command. destruct (current_command p) as [n|] eqn:Hc; [|by left].
  right. eexists. split; [done|]. simpl. apply Hp.
  destruct (state p); [by destruct Hst|..];
    destruct Hst as (_ & x & [= ->] & Hx);
    first [by apply wf_chdir_last | by destruct Hx; apply wf_last].
Qed.

(** C29: on every list of tokens, [parse] either fails an assertion or returns
    a well-formed pipeline, and the tokens of every well-formed pipeline parse
    back to it. *)
Theorem parse_roundtrip :
  (∀ tokens, parse (inl tokens) = Err AssertionError ∨
     ∃ nodes, parse (inl tokens) = Ok nodes ∧ wf_nodes nodes) ∧
  (∀ nodes, wf_nodes nodes → parse (inl (unparse nodes)) = Ok nodes).
Proof.
  split; [apply parse_tokens_wf|]. intros nodes Hwf. exact (parse_from_unparse nodes [] Hwf).
Qed.

Lemma parse_roundtrip_witness :
  parse (inl ["cd"; "d"; "&&"; "ls"]) =
    Ok [NChdir (Some "d"); NAnd; NCommand (new_command "ls")].
Proof.
  assert (wf_nodes [NChdir (Some "d"); NAnd; NCommand (new_command "ls")]) as Hwf.
  { apply wf_chdir; [done|]. apply wf_last; [|done]. split; simpl; try done.
    exists []. by split; [|constructor]. }
  exact (proj2 parse_roundtrip _ Hwf).
Defined.

(** ** What [run] does, without the loop's state *)

Section run_spec.
Context (exit_code : nat → Z) (environ : gmap string string).

(** The pipeline cut at [&&] and [||]: the commands of a group with their
    working directories, and what ends it: an operator, the end of the line, or
    a [cd] at the end of the line. *)
Definition group : Type := list (string * command) * option node.
Fixpoint groups (cwd : string) (l : list node) : list group :=
  match l with
  | NCommand c :: NPipe :: l =>
      match groups cwd l with
      | (g, op) :: gs => ((cwd, c) :: g, op) :: gs
      | [] => [([(cwd, c)], None)]
      end
  | NCommand c :: NAnd :: l => ([(cwd, c)], Some NAnd) :: groups cwd l
  | NCommand c :: NOr :: l => ([(cwd, c)], Some NOr) :: groups cwd l
  | [NCommand c] => [([(cwd, c)], None)]
  | NChdir (Some d) :: NAnd :: l => groups (path_join cwd d) l
  | [NChdir (Some d)] => [([], Some (NChdir (Some d)))]
  | _ => []
  end.

(** The files a command opens, and its call of Popen as the k-th process. *)
Definition in_file (piped : bool) (c : command) : list file :=
  match stdin c with
  | Some f => if piped then [] else [Opened f false]
  | None => []
  end.
Definition out_name (f : string) : file :=
  if decide (f = "NUL:" ∨ f = "/dev/null") then DevNull else Opened f true.
Definition out_file (r : option redirect) : list file :=
  match r with Some (ToFile f) => [out_name f] | _ => [] end.
Definition command_files (piped : bool) (c : command) : list file :=
  in_file piped c ++ out_file (stdout c) ++ out_file (stderr c).
Definition real (fs : list file) : list file := filter (λ f, f ≠ DevNull) fs.

Definition out_of (r : option redirect) : proc_out :=
  match r with
  | None => OutInherit
  | Some PIPE => OutPipe
  | Some STDOUT => OutStdout
  | Some (ToFile f) => OutFile (out_name f)
  end.
Definition popen_of (k : nat) (piped : bool) (cwd : string) (c : command) : popen_args :=
  Popen (argv c)
    (if piped then InPipeOf (pred k)
     else match stdin c with Some f => InFile (Opened f false) | None => InInherit end)
    (out_of (stdout c)) (out_of (stderr c))
    (match env_vars c with
     | Some ((_ :: _) as vars) => Some (foldl (λ m kv, <[kv.1 := kv.2]> m) environ vars)
     | _ => None
     end)
    (if decide (cwd = ".") then None else Some cwd).

(** All the commands of a group are started, each reading from the one before;
    then they are waited for in order; then the files are closed. *)
Fixpoint launch (k : nat) (piped : bool) (g : list (string * command)) : list event :=
  match g with
  | [] => []
  | (cwd, c) :: g =>
      (EvOpen <$> real (command_files piped c)) ++ EvPopen k (popen_of k piped cwd c)
      :: launch (S k) true g
  end.
Fixpoint group_files (piped : bool) (g : list (string * command)) : list file :=
  match g with
  | [] => []
  | (_, c) :: g => command_files piped c ++ group_files true g
  end.
Definition group_trace (k : nat) (g : list (string * command)) : list event :=
  launch k false g ++ (EvWait <$> seq k (length g)) ++ (EvClose <$> real (group_files false g)).

(** The code of the last process of the group decides. *)
Definition stops (op : option node) (code : Z) : bool :=
  match op with
  | Some NAnd => negb (code =? 0)
  | Some NOr => code =? 0
  | _ => true
  end.
Definition cut_off (op : option node) : bool :=
  match op with Some (NChdir _) => true | _ => false end.
(** A group that a [cd] at the end of the line cuts off is started, and neither
    waited for nor closed: the line's next token is popped from an empty list. *)
Fixpoint run_groups (k : nat) (gs : list group) : list event * res (option Z) :=
  match gs with
  | [] => ([], Ok None)
  | (g, op) :: gs =>
      let code := exit_code (pred (k + length g)) in
      if cut_off op then (launch k false g, Err IndexError)
      else if stops op code then (group_trace k g, Ok (Some code))
      else let '(tr, r) := run_groups (k + length g) gs in (group_trace k g ++ tr, r)
  end.
End run_spec.

Section until_error.
Context (popen_error : popen_args → option exn) (open_error : string → option exn).
(** What the call of an event raises, and the calls up to the first that raises. *)
Definition call_error (e : event) : option exn :=
  match e with
  | EvPopen _ a => popen_error a
  | EvOpen (Opened f _) => open_error f
  | _ => None
  end.
Fixpoint until_error (tr : list event) : list event * option exn :=
  match tr with
  | [] => ([], None)
  | e :: tr =>
      match call_error e with
      | Some x => ([], Some x)
      | None => let '(tr, r) := until_error tr in (e :: tr, r)
      end
  end.
Lemma until_error_app tr tr' :
  until_error (tr ++ tr') =
    match until_error tr with
    | (done, None) => let '(done', r) := until_error tr' in (done ++ done', r)
    | r => r
    end.
Proof.
  induction tr as [|e tr IH]; simpl; [by destruct (until_error tr')|].
  destruct (call_error e); [done|]. rewrite IH.
  destruct (until_error tr) as [? [|]], (until_error tr'); done.
Qed.
Lemma until_error_none tr done : until_error tr = (done, None) → done = tr.
Proof.
  revert done. induction tr as [|e tr IH]; intros done H; simpl in H; [by injection H as <-|].
  destruct (call_error e); [done|]. destruct (until_error tr) as [d x]. injection H as <- ->.
  by rewrite (IH d).
Qed.
End until_error.

(** The pipelines with a directory for each [cd]. *)
Inductive runnable : list node → Prop :=
| run_last c : stdout c = None ∨ (∃ f, stdout c = Some (ToFile f)) → runnable [NCommand c]
| run_pipe c l : stdout c = Some PIPE → runnable l → runnable (NCommand c :: NPipe :: l)
| run_op c op l :
    op = NAnd ∨ op = NOr → stdout c = None ∨ (∃ f, stdout c = Some (ToFile f)) →
    runnable l → runnable (NCommand c :: op :: l)
| run_chdir_last d : runnable [NChdir (Some d)]
| run_chdir d l : runnable l → runnable (NChdir (Some d) :: NAnd :: l).

Lemma wf_runnable l : wf_nodes l → NChdir None ∉ l → runnable l.
Proof.
  assert (∀ c, wf_command c → stdout c ≠ Some PIPE →
    stdout c = None ∨ (∃ f, stdout c = Some (ToFile f))) as Hout.
  { intros [? ? ? [[]|] ? ?] []; simpl in *; naive_solver. }
  induction 1 as [c Hc Ho|c l Hc Ho Hl IH|c op l Hop Hc Ho Hl IH|d Hd|d l Hd Hl IH]; intros Hdirs.
  - apply run_last. auto.
  - apply run_pipe; [done|]. apply IH. set_solver.
  - apply run_op; [done|auto|]. apply IH. set_solver.
  - destruct d as [d|]; [apply run_chdir_last|set_solver].
  - destruct d as [d|]; [|set_solver]. apply run_chdir. apply IH. set_solver.
Qed.

Section run_proofs.
Context (exit_code : nat → Z) (environ : gmap string string).
(** No call of Popen or open raises. *)
Context (popen_error : popen_args → option exn) (open_error : string → option exn).
Hypothesis no_popen_error : ∀ a, popen_error a = None.
Hypothesis no_open_error : ∀ f, open_error f = None.

Abbreviation run := (run exit_code popen_error open_error environ).
Abbreviation run_loop := (run_loop exit_code popen_error open_error environ).
Abbreviation start_command := (start_command popen_error open_error environ).

Lemma redirect_stdin_spec l c w k cwd :
  (piping l = true → last (piped_commands l) = Some (pred k, true)) →
  ∃ d, redirect_stdin open_error l c w =
    (World (trace w ++ (EvOpen <$> real (in_file (piping l) c))) (nproc w),
     Ok (p_stdin (popen_of environ k (piping l) cwd c), in_file (piping l) c, d)).
Proof.
  intros Hp. destruct w as [tr n]. unfold redirect_stdin, in_file, popen_of. simpl.
  destruct (piping l).
  - rewrite Hp by done. destruct (stdin c); cbn; rewrite app_nil_r; eauto.
  - destruct (stdin c); [|cbn; rewrite app_nil_r; eauto]. unfold open. rewrite no_open_error.
    cbn. eauto.
Qed.

Lemma open_out_file_spec f w :
  _open_out_file open_error f w =
  (World (trace w ++ (EvOpen <$> real [out_name f])) (nproc w), Ok (out_name f)).
Proof.
  destruct w as [tr n]. unfold _open_out_file, out_name. case_decide; cbn.
  - by rewrite app_nil_r.
  - unfold open. by rewrite no_open_error.
Qed.

Lemma redirect_stdout_spec c w :
  stdout c ≠ Some STDOUT →
  ∃ d, redirect_stdout open_error c w =
    (World (trace w ++ (EvOpen <$> real (out_file (stdout c)))) (nproc w),
     Ok (out_of (stdout c), out_file (stdout c), d)).
Proof.
  intros Hs. unfold redirect_stdout. destruct w as [tr n]. destruct (stdout c) as [[| |f]|];
    simpl; [|done| |]; try (rewrite app_nil_r; by eexists).
  unfold mbind, eff_bind. rewrite open_out_file_spec. by eexists.
Qed.

Lemma redirect_stderr_spec c w :
  ∃ d, redirect_stderr open_error c w =
    (World (trace w ++ (EvOpen <$> real (out_file (stderr c)))) (nproc w),
     Ok (out_of (stderr c), out_file (stderr c), d)).
Proof.
  unfold redirect_stderr. destruct w as [tr n]. destruct (stderr c) as [[| |f]|];
    simpl; try (rewrite app_nil_r; by eexists).
  unfold mbind, eff_bind. rewrite open_out_file_spec. by eexists.
Qed.

Lemma real_app fs gs : real (fs ++ gs) = real fs ++ real gs.
Proof. apply filter_app. Qed.

Lemma start_command_spec verbose l c w k :
  (piping l = true → last (piped_commands l) = Some (pred k, true)) → nproc w = k →
  stdout c ≠ Some STDOUT →
  ∃ d, start_command verbose l c w =
    (World (trace w ++ (EvOpen <$> real (command_files (piping l) c))
              ++ [EvPopen k (popen_of environ k (piping l) (cwd l) c)]) (S k),
     Ok (Locals (files_to_close l ++ command_files (piping l) c)
           (piped_commands l ++ [(k, bool_decide (stdout c = Some PIPE))]) d (piping l) (cwd l))).
Proof.
  intros Hp Hk Hs. unfold start_command, mbind, eff_bind. subst k.
  destruct (redirect_stdin_spec l c w (nproc w) (cwd l) Hp) as [d1 ->].
  edestruct (redirect_stdout_spec c) as [d2 ->]; [done|].
  edestruct (redirect_stderr_spec c) as [d3 ->]. unfold popen. rewrite no_popen_error. simpl.
  unfold command_files. rewrite !real_app, !fmap_app, <-!app_assoc.
  assert (bool_decide (out_of (stdout c) = OutPipe) = bool_decide (stdout c = Some PIPE)) as ->.
  { apply bool_decide_ext. destruct (stdout c) as [[]|]; naive_solver. }
  by eexists.
Qed.

Lemma wait_all_spec ps w :
  wait_all exit_code ps w =
  (World (trace w ++ (EvWait <$> ps.*1)) (nproc w), Ok (exit_code <$> ps.*1)).
Proof.
  revert w. induction ps as [|p ps IH]; intros [tr n]; simpl; [by rewrite app_nil_r|].
  unfold mbind, eff_bind in *. simpl. rewrite IH. simpl. by rewrite <-app_assoc.
Qed.

(** The loop over the return values computes the last one. *)
Lemma retval_last rs x :
  last rs = Some x →
  (if existsb (λ r, negb (r =? 0)) rs then default 0 (last rs) else 0) = x.
Proof.
  intros Hlast. rewrite Hlast. destruct (existsb _ rs) eqn:He; [done|].
  destruct (Z.eqb_spec x 0) as [|Hne]; [done|].
  assert (existsb (λ r, negb (r =? 0)) rs = true) as Ht; [|congruence].
  apply existsb_exists. exists x. split; [by apply list_elem_of_In, last_Some_elem_of|].
  by apply negb_true_iff, Z.eqb_neq.
Qed.

Lemma exec_piped_commands_spec ps w n m :
  ps.*1 = seq n (S m) →
  _exec_piped_commands exit_code ps w =
  (World (trace w ++ (EvWait <$> seq n (S m))) (nproc w), Ok (exit_code (n + m)%nat)).
Proof.
  intros Hps. unfold _exec_piped_commands, mbind, eff_bind. rewrite wait_all_spec, Hps.
  rewrite (retval_last _ (exit_code (n + m)%nat)); [done|].
  rewrite seq_S, fmap_app. apply last_snoc.
Qed.

Lemma close_files_spec fs w :
  close_files fs w = (World (trace w ++ (EvClose <$> real fs)) (nproc w), Ok tt).
Proof.
  unfold close_files. revert w. induction fs as [|f fs IH]; intros [tr n]; simpl.
  { by rewrite app_nil_r. }
  unfold mbind, eff_bind, real in *. case_decide as Hf.
  - rewrite filter_cons_False by naive_solver. etrans; [apply IH|done].
  - rewrite filter_cons_True by done. etrans; [apply IH|]. simpl. by rewrite <-app_assoc.
Qed.

Lemma finish_group_spec l w n m :
  (piped_commands l).*1 = seq n (S m) →
  finish_group exit_code l w =
  (World (trace w ++ (EvWait <$> seq n (S m)) ++ (EvClose <$> real (files_to_close l))) (nproc w),
   Ok (exit_code (n + m)%nat)).
Proof.
  intros Hps. unfold finish_group. unfold mbind, eff_bind.
  erewrite exec_piped_commands_spec by done. rewrite close_files_spec. simpl.
  by rewrite <-app_assoc.
Qed.

(** The events from the middle of a group, [k] of whose processes run already,
    to its end. *)
Definition group_end (l : locals) (w : world) (n k : nat) (g : list (string * command))
    (op : option node) : list event :=
  trace w ++ launch environ (n + k) (piping l) g ++
  if cut_off op then []
  else (EvWait <$> seq n (k + length g))
    ++ (EvClose <$> real (files_to_close l ++ group_files (piping l) g)).

Definition group_result (verbose : bool) (tr : list event) (n : nat) (g : list (string * command))
    (op : option node) (gs : list group) (r : world * res (option Z)) : Prop :=
  let code := exit_code (pred (n + length g)) in
  if verbose then
    r.2 = match op with
          | None => Ok (Some code)
          | Some (NChdir _) => Err IndexError
          | Some _ => Err UnboundLocalError
          end
  else ∃ n', r = (if cut_off op then (World tr n', Err IndexError)
                  else if stops op code then (World tr n', Ok (Some code))
                  else let '(tr', c) := run_groups exit_code environ (n + length g) gs in
                       (World (tr ++ tr') n', c)).

(** One more process of a group is running. *)
Lemma group_end_cons l w n k c g op d b :
  group_end (Locals (files_to_close l ++ command_files (piping l) c)
      (piped_commands l ++ [((n + k)%nat, b)]) d true (cwd l))
    (World (trace w ++ (EvOpen <$> real (command_files (piping l) c))
              ++ [EvPopen (n + k) (popen_of environ (n + k) (piping l) (cwd l) c)]) (S (n + k)))
    n (S k) g op =
  group_end l w n k ((cwd l, c) :: g) op.
Proof.
  unfold group_end. cbn [trace files_to_close piping launch group_files length].
  rewrite <-!plus_n_Sm, <-!app_assoc. done.
Qed.

Lemma group_result_cons verbose tr n k x g op gs r :
  group_result verbose tr (n + S k) g op gs r →
  group_result verbose tr (n + k) (x :: g) op gs r.
Proof.
  unfold group_result. cbn [length].
  by replace (n + k + S (length g))%nat with (n + S k + length g)%nat by lia.
Qed.

Lemma group_end_one l w n k c op : cut_off op = false →
  (trace w ++ (EvOpen <$> real (command_files (piping l) c))
     ++ [EvPopen (n + k) (popen_of environ (n + k) (piping l) (cwd l) c)])
  ++ (EvWait <$> seq n (S k)) ++ (EvClose <$> real (files_to_close l ++ command_files (piping l) c))
  = group_end l w n k [(cwd l, c)] op.
Proof.
  intros Hop. unfold group_end. cbn [launch group_files length]. rewrite Hop, app_nil_r, Nat.add_1_r, <-!app_assoc.
  done.
Qed.

Lemma next_group_result l w n g op gs r :
  group_result false (group_end (next_group l) w n 0 g op) (n + 0) g op gs r →
  ∃ n', r = (let '(tr, c) := run_groups exit_code environ n ((g, op) :: gs) in
             (World (trace w ++ tr) n', c)).
Proof.
  intros [n' ->]. exists n'. cbn [run_groups]. rewrite !Nat.add_0_r.
  unfold group_end. rewrite Nat.add_0_r. destruct (cut_off op) eqn:Hop; [by rewrite app_nil_r|].
  destruct (stops op _); [done|]. destruct (run_groups _ _ _ gs). by rewrite <-app_assoc.
Qed.

Lemma groups_cons p cwd : runnable p → ∃ g op gs, groups cwd p = (g, op) :: gs.
Proof.
  intros Hp. revert cwd. induction Hp as [c|c l _ _ IH|c op l [-> | ->] _ _ _|d|d l _ IH];
    intros cwd; simpl; [by do 3 eexists| |by do 3 eexists..|apply IH].
  destruct (IH cwd) as (g & op & gs & ->). by do 3 eexists.
Qed.

Lemma run_loop_spec verbose p :
  runnable p → ∀ l w n k,
  piped_commands l = (λ i, (i, true)) <$> seq n k → piping l = negb (k =? 0)%nat →
  nproc w = (n + k)%nat →
  ∃ g op gs, groups (cwd l) p = (g, op) :: gs ∧
    group_result verbose (group_end l w n k g op) (n + k) g op gs (run_loop verbose l p w).
Proof.
  assert (∀ l n k, piped_commands l = (λ i, (i, true)) <$> seq n k → piping l = negb (k =? 0)%nat →
    piping l = true → last (piped_commands l) = Some (pred (n + k), true)) as Hlast.
  { intros l n k -> -> Hk. destruct k as [|k]; [done|]. rewrite seq_S, fmap_app. simpl.
    rewrite last_snoc. by rewrite <-plus_n_Sm. }
  assert (∀ l n k b, piped_commands l = (λ i, (i, true)) <$> seq n k →
    (piped_commands l ++ [((n + k)%nat, b)]).*1 = seq n (S k)) as Hids.
  { intros l n k b ->. rewrite seq_S, fmap_app, <-list_fmap_compose. simpl.
    f_equal. apply list_fmap_id. }
  induction 1 as [c Ho|c p Ho Hp IH|c op p Hop Ho Hp IH|d|d p Hp IH]; intros l w n k Hps Hpi Hn.
  - do 3 eexists. split; [reflexivity|].
    destruct (start_command_spec verbose l c w (n + k) (Hlast _ _ _ Hps Hpi) Hn) as [dsp Hs];
      [naive_solver|]. simpl. unfold mbind, eff_bind. rewrite Hs.
    erewrite exec_piped_commands_spec by by apply Hids.
    unfold group_result, group_end. simpl. rewrite !Nat.add_1_r. simpl. destruct verbose.
    + unfold print. simpl. by rewrite close_files_spec.
    + simpl. rewrite close_files_spec. simpl. rewrite app_nil_r, <-!app_assoc. simpl. by eexists.
  - destruct (start_command_spec verbose l c w (n + k) (Hlast _ _ _ Hps Hpi) Hn) as [dsp Hs];
      [congruence|].
    simpl. unfold mbind, eff_bind. rewrite Hs.
    edestruct (IH (Locals (files_to_close l ++ command_files (piping l) c)
      (piped_commands l ++ [((n + k)%nat, bool_decide (stdout c = Some PIPE))]) (dsp ++ ["|"])
      true (cwd l)) (World (trace w ++ (EvOpen <$> real (command_files (piping l) c))
              ++ [EvPopen (n + k) (popen_of environ (n + k) (piping l) (cwd l) c)]) (S (n + k)))
      n (S k)) as (g & op & gs & Hg & Hr).
    { cbn [piped_commands]. rewrite Hps, seq_S, fmap_app, bool_decide_eq_true_2 by done. done. }
    { done. }
    { simpl. lia. }
    simpl in Hg |- *. rewrite Hg. do 3 eexists. split; [done|].
    apply group_result_cons. by rewrite <-group_end_cons with (d := dsp ++ ["|"]) (b := true).
  - destruct (groups_cons p (cwd l) Hp) as (g' & op' & gs' & Hg').
    exists [(cwd l, c)], (Some op), (groups (cwd l) p). split; [by destruct Hop as [-> | ->]|].
    destruct (start_command_spec verbose l c w (n + k) (Hlast _ _ _ Hps Hpi) Hn) as [dsp Hs];
      [naive_solver|].
    destruct Hop as [-> | ->]; simpl; unfold mbind, eff_bind; rewrite Hs;
      (erewrite finish_group_spec by by apply Hids); unfold print_retval;
      (destruct verbose; [done|]); cbn [mret eff_ret files_to_close trace nproc];
      unfold group_result; cbn [length]; rewrite !Nat.add_1_r; cbn [pred stops].
    all: match goal with |- context [group_end _ _ _ _ _ ?op] => rewrite (group_end_one _ _ _ _ _ op) by done end.
    all: set (l' := Locals _ _ _ _ _); set (w' := World _ (S (n + k))).
    all: destruct (IH (next_group l') w' (S (n + k)) 0%nat) as (g & op & gs & Hg & Hr);
      [done|done|simpl; lia|]; apply next_group_result in Hr as [n' Hr]; simpl in Hg.
    + destruct (Z.eqb_spec (exit_code (n + k)%nat) 0) as [He|He].
      * rewrite decide_False by lia. rewrite Hg, Hr. exists n'. by destruct (run_groups _ _ _ _).
      * rewrite decide_True by done. by eexists.
    + destruct (Z.eqb_spec (exit_code (n + k)%nat) 0) as [He|He].
      * rewrite decide_True by done. by eexists.
      * rewrite decide_False by done. rewrite Hg, Hr. exists n'. by destruct (run_groups _ _ _ _).
  - do 3 eexists. split; [reflexivity|]. unfold group_result, group_end. simpl.
    destruct verbose; [done|]. rewrite app_nil_r. exists (nproc w). by destruct w.
  - simpl. by eapply (IH (Locals _ _ _ _ _) w n k).
Qed.

(** A silent run has the trace and the result of its groups. *)
Lemma run_groups_trace p :
  runnable p →
  ∃ n, run false p =
    (let '(tr, r) := run_groups exit_code environ 0 (groups "." p) in (World tr n, r)).
Proof.
  intros Hp. destruct (run_loop_spec false p Hp (Locals [] [] [] false ".") (World [] 0) 0 0)
    as (g & op & gs & Hg & Hr); [done..|]. simpl in Hg. rewrite Hg.
  exact (next_group_result (Locals [] [] [] false ".") (World [] 0) 0 g op gs _ Hr).
Qed.

(** When no call raises, a silent [run] starts, waits for and closes
    exactly what the groups of the pipeline say, in that order, and returns the
    exit code of the last process of the last group it ran, or raises IndexError
    at a [cd] that ends the line. *)
Theorem run_refines_groups p :
  runnable p →
  ∃ n, run false p =
    (let '(tr, r) := run_groups exit_code environ 0 (groups "." p) in (World tr n, r)).
Proof. apply run_groups_trace. Qed.

(** A verbose [run] of a pipeline without [&&] and [||] between commands
    returns its exit code, or raises IndexError when it ends in a [cd];
    otherwise it raises UnboundLocalError when its first group has ended. *)
Theorem run_verbose_unbound p :
  runnable p →
  ∃ g op gs, groups "." p = (g, op) :: gs ∧
    (run true p).2 = match op with
                     | None => Ok (Some (exit_code (pred (length g))))
                     | Some (NChdir _) => Err IndexError
                     | Some _ => Err UnboundLocalError
                     end.
Proof.
  intros Hp. destruct (run_loop_spec true p Hp (Locals [] [] [] false ".") (World [] 0) 0 0)
    as (g & op & gs & Hg & Hr); [done..|]. by exists g, op, gs.
Qed.

(** The processes started and waited for, the files opened and closed. *)
Definition started (tr : list event) : list nat :=
  omap (λ e, match e with EvPopen k _ => Some k | _ => None end) tr.
Definition waited (tr : list event) : list nat :=
  omap (λ e, match e with EvWait k => Some k | _ => None end) tr.
Definition opened (tr : list event) : list file :=
  omap (λ e, match e with EvOpen f => Some f | _ => None end) tr.
Definition closed (tr : list event) : list file :=
  omap (λ e, match e with EvClose f => Some f | _ => None end) tr.

Lemma omap_fmap_const {A B C} (f : B → option C) (h : A → B) (o : A → option C) (l : list A) :
  (∀ x, f (h x) = o x) → omap f (h <$> l) = omap o l.
Proof. intros Hf. induction l as [|x l IH]; csimpl; [done|]. by rewrite Hf, IH. Qed.
Lemma omap_none {A B} (l : list A) : omap (λ _, @None B) l = [].
Proof. by induction l. Qed.
Lemma omap_some {A} (l : list A) : omap Some l = l.
Proof. induction l as [|x l IH]; csimpl; [done|]. by rewrite IH. Qed.

Ltac omap_events :=
  unfold started, waited, opened, closed in *; rewrite ?omap_app;
  repeat (erewrite omap_fmap_const by done; rewrite ?omap_none, ?omap_some).

Lemma launch_balance k piped g :
  started (launch environ k piped g) = seq k (length g) ∧
  waited (launch environ k piped g) = [] ∧ closed (launch environ k piped g) = [] ∧
  opened (launch environ k piped g) = real (group_files piped g).
Proof.
  revert k piped. induction g as [|[cwd c] g IH]; intros k piped; [done|].
  destruct (IH (S k) true) as (H1 & H2 & H3 & H4). cbn [launch group_files length seq].
  rewrite real_app. omap_events. csimpl. by rewrite H1, H2, H3, H4.
Qed.

Lemma group_trace_balance k g :
  started (group_trace environ k g) = seq k (length g) ∧
  waited (group_trace environ k g) = seq k (length g) ∧
  opened (group_trace environ k g) = closed (group_trace environ k g).
Proof.
  unfold group_trace. destruct (launch_balance k false g) as (H1 & H2 & H3 & H4).
  omap_events. rewrite H1, H2, H3, H4. by rewrite !app_nil_r.
Qed.

Lemma run_groups_balance k gs :
  let '(tr, r) := run_groups exit_code environ k gs in
  match r with
  | Ok _ => started tr = waited tr ∧ opened tr = closed tr
  | Err e => e = IndexError ∧ ∃ g d, (g, Some (NChdir d)) ∈ gs
  end.
Proof.
  revert k. induction gs as [|[g op] gs IH]; intros k; [done|]. simpl.
  destruct (group_trace_balance k g) as (H1 & H2 & H3).
  destruct (cut_off op) eqn:Hop.
  { split; [done|]. destruct op as [[| d | | |]|]; try done. exists g, d. left. }
  destruct (stops op _); simpl; [by rewrite H1, H2, H3|].
  specialize (IH (k + length g)%nat). destruct (run_groups _ _ _ gs) as [tr [r|e]]; simpl in *.
  - destruct IH as [H4 H5]. unfold started, waited, opened, closed in *.
    by rewrite !omap_app, H1, H2, H3, H4, H5.
  - destruct IH as (-> & g' & d & Hl). split; [done|]. exists g', d. by right.
Qed.

(** A silent [run] that returns has waited for every process it started and
    closed every file it opened. *)
Theorem run_waits_and_closes p r :
  runnable p → (run false p).2 = Ok r →
  let tr := trace (run false p).1 in started tr = waited tr ∧ opened tr = closed tr.
Proof.
  intros Hp. destruct (run_groups_trace p Hp) as [n Hr].
  pose proof (run_groups_balance 0 (groups "." p)) as Hbal. rewrite Hr.
  destruct (run_groups _ _ _ _) as [tr r']. by intros [= ->].
Qed.
End run_proofs.

(** The groups of a pipeline end in a code, if they end. *)
Lemma run_groups_some exit_code environ k gs c :
  gs ≠ [] → (∀ g op, last gs = Some (g, op) → op = None ∨ ∃ d, op = Some (NChdir d)) →
  (run_groups exit_code environ k gs).2 = Ok c → ∃ code, c = Some code.
Proof.
  revert k. induction gs as [|[g op] gs IH]; intros k Hne Hl; [done|]. simpl.
  destruct (cut_off op) eqn:Hop; [done|].
  destruct (stops op _) eqn:Hst; [intros [= <-]; eauto|]. destruct gs as [|x gs].
  { destruct (Hl g op eq_refl) as [->|[d ->]]; done. }
  specialize (IH (k + length g)%nat ltac:(done) ltac:(intros ???; by eapply Hl)).
  by destruct (run_groups _ _ _ (x :: gs)).
Qed.
Lemma groups_last cwd p g op :
  runnable p → last (groups cwd p) = Some (g, op) → op = None ∨ ∃ d, op = Some (NChdir d).
Proof.
  intros Hp. revert cwd g op. induction Hp as [c|c l _ Hp IH|c op' l Hop _ Hp IH|d'|d' l Hp IH];
    intros cwd g op Hl; simpl in Hl.
  - injection Hl as <- <-. by left.
  - specialize (IH cwd). destruct (groups cwd l) as [|[g' op'] gs]; [injection Hl as <- <-; by left|].
    destruct gs as [|x gs]; [|by apply (IH g)]. injection Hl as <- <-. by apply (IH g').
  - destruct (groups_cons l cwd Hp) as (g' & op'' & gs & Hg). specialize (IH cwd). rewrite Hg in IH.
    destruct Hop as [-> | ->]; rewrite Hg in Hl; by apply (IH g).
  - injection Hl as <- <-. eauto.
  - eauto.
Qed.
Lemma run_groups_code exit_code environ k p c :
  runnable p → (run_groups exit_code environ k (groups "." p)).2 = Ok c → ∃ code, c = Some code.
Proof.
  intros Hp. apply run_groups_some; [|intros g op; by apply groups_last].
  destruct (groups_cons p "." Hp) as (g & op & gs & ->). done.
Qed.

(** A group that a [cd] cuts off is at the end of the line. *)
Lemma groups_cut_off cwd p g d :
  runnable p → (g, Some (NChdir d)) ∈ groups cwd p → last p = Some (NChdir d).
Proof.
  assert (∀ (n : node) l, runnable l → last (n :: l) = last l) as Hl by by destruct 1.
  intros Hp. revert cwd g. induction Hp as [c|c l _ Hp IH|c op l Hop _ Hp IH|d'|d' l Hp IH]; intros cwd g Hin.
  - simpl in Hin. set_solver.
  - change (last (NPipe :: l) = Some (NChdir d)). rewrite Hl by done. simpl in Hin.
    destruct (groups_cons l cwd Hp) as (g' & op & gs & Hg). specialize (IH cwd). rewrite Hg in Hin, IH.
    apply elem_of_cons in Hin as [[= -> <-]|Hin]; [apply (IH g')|apply (IH g)]; set_solver.
  - change (last (op :: l) = Some (NChdir d)). rewrite Hl by done.
    destruct Hop as [-> | ->]; simpl in Hin; apply elem_of_cons in Hin as [[=]|?]; eauto.
  - simpl in Hin. set_solver.
  - change (last (NAnd :: l) = Some (NChdir d)). rewrite Hl by done. simpl in Hin. eauto.
Qed.

(** ** Calls that raise *)
Section follows.
Context (exit_code : nat → Z) (environ : gmap string string).
Context (popen_error : popen_args → option exn) (open_error : string → option exn).
Abbreviation until_error := (until_error popen_error open_error).

(** [m1] does what [m2] does up to the first call that raises. *)
Definition follows {A} (m1 m2 : io A) : Prop := ∀ w, ∃ tr,
  trace (m2 w).1 = trace w ++ tr ∧
  match until_error tr with
  | (_, None) => m1 w = m2 w
  | (done, Some e) => ∃ n, m1 w = (World (trace w ++ done) n, Err e)
  end.

Lemma follows_quiet {A} (m : io A) :
  (∀ w, ∃ tr, trace (m w).1 = trace w ++ tr ∧ until_error tr = (tr, None)) → follows m m.
Proof. intros Hm w. destruct (Hm w) as (tr & Htr & Hu). exists tr. by rewrite Hu. Qed.
Lemma follows_value {A} (x : res A) : follows (λ w, (w, x)) (λ w, (w, x)).
Proof. apply follows_quiet. intros w. exists []. by rewrite app_nil_r. Qed.
Lemma follows_emit e : call_error popen_error open_error e = None → follows (emit e) (emit e).
Proof. intros He. apply follows_quiet. intros w. exists [e]. simpl. by rewrite He. Qed.
Lemma follows_bind {A B} (m1 m2 : io A) (k1 k2 : A → io B) :
  follows m1 m2 → (∀ a, follows (k1 a) (k2 a)) → follows (m1 ≫= k1) (m2 ≫= k2).
Proof.
  intros Hm Hk w. destruct (Hm w) as (tr & Htr & Hu). unfold mbind, eff_bind.
  destruct (m2 w) as [w2 [a|x]] eqn:E2; simpl in Htr.
  - destruct (Hk a w2) as (tr' & Htr' & Hu'). exists (tr ++ tr'). rewrite Htr', Htr, app_assoc.
    split; [done|]. rewrite until_error_app.
    destruct (until_error tr) as [done [e|]] eqn:E; [destruct Hu as [n ->]; by exists n|].
    rewrite Hu, (until_error_none _ _ _ _ E). destruct (until_error tr') as [done' [e|]]; [|done].
    destruct Hu' as [n ->]. exists n. by rewrite Htr, app_assoc.
  - exists tr. split; [done|]. destruct (until_error tr) as [done [e|]]; [|by rewrite Hu].
    destruct Hu as [n ->]. by exists n.
Qed.
Lemma follows_open f writing : follows (open open_error f writing) (open (λ _, None) f writing).
Proof.
  intros w. exists [EvOpen (Opened f writing)]. split; [done|]. simpl. unfold open.
  destruct (open_error f) as [e|]; [|done]. exists (nproc w). rewrite app_nil_r. by destruct w.
Qed.
Lemma follows_popen a : follows (popen popen_error a) (popen (λ _, None) a).
Proof.
  intros w. exists [EvPopen (nproc w) a]. split; [done|]. simpl. unfold popen.
  destruct (popen_error a) as [e|]; [|done]. exists (nproc w). rewrite app_nil_r. by destruct w.
Qed.
Create HintDb follows.
#[local] Hint Resolve follows_value follows_emit follows_bind follows_open follows_popen : follows.
#[local] Hint Extern 1 (follows (mret _) _) => apply follows_value : follows.
#[local] Hint Extern 1 (follows (throw _) _) => apply follows_value : follows.

Lemma follows_wait_all ps : follows (wait_all exit_code ps) (wait_all exit_code ps).
Proof. induction ps; simpl; unfold wait; eauto 8 with follows. Qed.
Lemma follows_exec ps :
  follows (_exec_piped_commands exit_code ps) (_exec_piped_commands exit_code ps).
Proof. apply follows_bind; [apply follows_wait_all|eauto with follows]. Qed.
Lemma follows_close fs : follows (close_files fs) (close_files fs).
Proof.
  unfold close_files. induction fs as [|f fs IH]; simpl; [apply follows_value|].
  apply follows_bind; [|done]. case_decide; eauto with follows.
Qed.
Lemma follows_print verbose s : follows (print verbose s) (print verbose s).
Proof. destruct verbose; eauto with follows. Qed.
#[local] Hint Resolve follows_exec follows_close follows_print : follows.

Lemma follows_out_file f : follows (_open_out_file open_error f) (_open_out_file (λ _, None) f).
Proof. unfold _open_out_file. case_decide; eauto with follows. Qed.
#[local] Hint Resolve follows_out_file : follows.
Lemma follows_redirects l c :
  follows (redirect_stdin open_error l c) (redirect_stdin (λ _, None) l c) ∧
  follows (redirect_stdout open_error c) (redirect_stdout (λ _, None) c) ∧
  follows (redirect_stderr open_error c) (redirect_stderr (λ _, None) c).
Proof.
  unfold redirect_stdin, redirect_stdout, redirect_stderr.
  split_and!; repeat case_match; eauto with follows.
Qed.
Lemma follows_start verbose l c :
  follows (start_command popen_error open_error environ verbose l c)
    (start_command (λ _, None) (λ _, None) environ verbose l c).
Proof.
  destruct (follows_redirects l c) as (Hin & Hout & Herr). unfold start_command.
  apply follows_bind; [done|]. intros [[i f1] d1].
  apply follows_bind; [done|]. intros [[o f2] d2].
  apply follows_bind; [done|]. intros [[e f3] d3]. eauto with follows.
Qed.
Lemma follows_loop verbose p l :
  follows (run_loop exit_code popen_error open_error environ verbose l p)
    (run_loop exit_code (λ _, None) (λ _, None) environ verbose l p).
Proof.
  remember (length p) as n eqn:Hn. revert p l Hn.
  induction (lt_wf n) as [n _ IH]; intros [|[c|d| | |] p] l ->; simpl; try apply follows_value.
  - apply follows_bind; [apply follows_start|]. intros l'.
    destruct p as [|[c'|d'| | |] p]; unfold finish_group, print_retval;
      repeat first [apply follows_exec | apply follows_close | apply follows_print
                   | apply follows_value | eapply IH; [|reflexivity]; simpl; lia
                   | case_match | apply follows_bind; [|intros]].
  - destruct p as [|[c'|d'| | |] p]; try apply follows_value.
    destruct d; [|apply follows_value]. eapply IH; [|reflexivity]; simpl; lia.
Qed.

(** Any silent [run] does what the groups of its pipeline say, up to the first
    call that raises. *)
Lemma run_until_error p : runnable p → ∃ n,
  run exit_code popen_error open_error environ false p =
    let '(tr, r) := run_groups exit_code environ 0 (groups "." p) in
    let '(done, error) := until_error tr in
    (World done n, match error with Some e => Err e | None => r end).
Proof.
  intros Hp. destruct (run_groups_trace exit_code environ (λ _, None) (λ _, None) (λ _, eq_refl)
    (λ _, eq_refl) p Hp) as [n Hrun]. unfold run in *.
  destruct (follows_loop false p (Locals [] [] [] false ".") (World [] 0)) as (tr & Htr & Hu).
  rewrite Hrun in *. destruct (run_groups _ _ _ _) as [tr' r]. simpl in Htr, Hu. subst tr'.
  destruct (until_error tr) as [done [e|]] eqn:E; [destruct Hu as [n' ->]; by exists n'|].
  rewrite Hu, (until_error_none _ _ _ _ E). by exists n.
Qed.
End follows.

Definition demo : list node :=
  [NCommand (Command "gen" ["gen"] None (Some PIPE) None None); NPipe;
   NCommand (Command "sort" ["sort"; "-u"] None (Some (ToFile "out")) (Some STDOUT) None); NOr;
   NChdir (Some "d"); NAnd; NCommand (new_command "ls")].
Lemma demo_runnable : runnable demo.
Proof. by apply run_pipe, run_op, run_chdir, run_last; eauto. Qed.

Lemma run_refines_groups_witness :
  runnable demo ∧
  ∃ n, run (λ k, if decide (k = 1%nat) then 3 else 0) (λ _, None) (λ _, None) ∅ false demo =
    (World
      [EvPopen 0 (Popen ["gen"] InInherit OutPipe OutInherit None None);
       EvOpen (Opened "out" true);
       EvPopen 1 (Popen ["sort"; "-u"] (InPipeOf 0) (OutFile (Opened "out" true)) OutStdout None None);
       EvWait 0; EvWait 1; EvClose (Opened "out" true);
       EvPopen 2 (Popen ["ls"] InInherit OutInherit OutInherit None (Some "./d")); EvWait 2] n,
     Ok (Some 0)).
Proof.
  split; [exact demo_runnable|].
  exact (run_refines_groups (λ k, if decide (k = 1%nat) then 3 else 0) ∅ (λ _, None) (λ _, None)
    (λ _, eq_refl) (λ _, eq_refl) demo demo_runnable).
Defined.

Lemma run_verbose_unbound_witness :
  runnable demo ∧
  ∃ g op gs, groups "." demo = (g, op) :: gs ∧
    (run (λ _, 1) (λ _, None) (λ _, None) ∅ true demo).2 =
      match op with
      | None => Ok (Some 1)
      | Some (NChdir _) => Err IndexError
      | Some _ => Err UnboundLocalError
      end.
Proof.
  split; [exact demo_runnable|].
  exact (run_verbose_unbound (λ _, 1) ∅ (λ _, None) (λ _, None)
    (λ _, eq_refl) (λ _, eq_refl) demo demo_runnable).
Defined.

Lemma run_waits_and_closes_witness :
  runnable demo ∧
  let tr := trace (run (λ _, 1) (λ _, None) (λ _, None) ∅ false demo).1 in
  started tr = waited tr ∧ opened tr = closed tr.
Proof.
  split; [exact demo_runnable|].
  exact (run_waits_and_closes (λ _, 1) ∅ (λ _, None) (λ _, None)
    (λ _, eq_refl) (λ _, eq_refl) demo (Some 1) demo_runnable eq_refl).
Defined.
