(* ===== verification/TestReport.v ===== *)
(** * test.py: the translation of the XML results into text and HTML
    [read_test], [node_to_text], [translate_to_text] and [translate_to_html].
    The state is the program's standard output and the files; a document is
    the tree that ElementTree makes of the XML file, whose parser is a
    parameter. *)
From Stdlib Require Import Ascii.
From S2P Require Import Prelude PyStr PyXml.

(** [%s] of a string or None. *)
Definition py_str (s : option string) : string := default "None" s.
(** [if s:] *)
Definition truthy (s : option string) : bool :=
  match s with Some (String _ _) => true | _ => false end.

(** ** Files *)

Record fs : Type := Fs { stdout : string; files : gmap string string }.
Definition io : Type → Type := eff fs exn.

Definition print (s : string) : io unit := λ st, (Fs (stdout st +:+ s) (files st), Ok tt).
(** [open(f, 'w')] *)
Definition open_w (f : string) : io unit := λ st,
  (Fs (stdout st) (<[f := ""]> (files st)), Ok tt).
Definition write (f : string) (s : string) : io unit := λ st,
  (Fs (stdout st) (alter (λ content, content +:+ s) f (files st)), Ok tt).
Definition write_all (f : string) (l : list string) : io unit := for_each (write f) l.

(** ** Reading one test *)

Definition read_test (test : element)
    : res (option string * option string * option string * option string) :=
  result ← find_text test "Result";
  name ← find_text test "Name";
  let reason := match find test "Reason" with Some r => text r | None => Some "" end in
  let time_real := match find test "Time" with Some t => get t "real" | None => Some "" end in
  Ok (result, name, reason, time_real).

(** ** The text report *)

Definition dq : string := String "034" "".
Definition nl : string := String "010" "".

Definition text_line (result name reason time_real : option string) (test_type : string) : string :=
  let reason := if truthy reason then Some (" (" +:+ py_str reason +:+ ")") else reason in
  py_str result +:+ ": Test " +:+ test_type +:+ " " +:+ dq +:+ py_str name +:+ dq +:+ " ("
  +:+ py_str time_real +:+ ")" +:+ py_str reason +:+ nl.

(** [f.write("      Message:   %s\n" % details.find('Message').text)] *)
Definition write_field (f label field after : string) (details : element) : io unit :=
  t ← lift_res (find_text details field);
  write f (label +:+ py_str t +:+ after).

Definition text_details (f : string) (details : element) : io unit :=
  _ ← write f ("    Details:" +:+ nl);
  _ ← write_field f "      Message:   " "Message" nl details;
  _ ← write_field f "      Condition: " "Condition" nl details;
  _ ← write_field f "      Actual:    " "Actual" nl details;
  _ ← write_field f "      Limit:     " "Limit" nl details;
  _ ← write_field f "      File:      " "File" nl details;
  write_field f "      Line:      " "Line" nl details.

(** The recursion goes through the children whose tag is [Test]. *)
Fixpoint node_to_text (f test_type : string) (test : element) : io unit :=
  '(result, name, reason, time_real) ← lift_res (read_test test);
  _ ← write f (text_line result name reason time_real test_type);
  _ ← for_each (text_details f) (findall test "FailureDetails");
  (fix loop (l : list element) : io unit :=
     match l with
     | [] => mret ()
     | child :: l =>
         _ ← (if decide (tag child = "Test") then node_to_text f "Case" child else mret ());
         loop l
     end) (children test).

Definition text_example (f : string) (example : element) : io unit :=
  result ← lift_res (find_text example "Result");
  name ← lift_res (find_text example "Name");
  let time_real := match find example "Time" with Some t => get t "real" | None => Some "" end in
  write f (py_str result +:+ ": Example " +:+ dq +:+ py_str name +:+ dq +:+ " ("
           +:+ py_str time_real +:+ ")" +:+ nl).

Section translate.
(** [ET.parse] on the content of a file. *)
Context (parse_xml : string → res element).

Definition et_parse (results_file : string) : io element := λ st,
  (st, match files st !! results_file with
       | Some content => parse_xml content
       | None => Err FileNotFoundError
       end).

Definition translate_to_text (results_file text_file : string) : io unit :=
  let text_file := text_file +:+ ".txt" in
  _ ← print ("Writing results to text file " +:+ dq +:+ text_file +:+ dq +:+ "...");
  et ← et_parse results_file;
  _ ← open_w text_file;
  _ ← for_each (node_to_text text_file "Suite") (findall et "Test");
  _ ← for_each (text_example text_file) (findall et "Example");
  print ("done." +:+ nl).

(** ** The HTML report *)

Definition td (s : string) : string := "<td>" +:+ s +:+ "</td>" +:+ nl.
Definition styled (element color s : string) : string :=
  "<" +:+ element +:+ " style=" +:+ dq +:+ "color:" +:+ color +:+ dq +:+ ">" +:+ s +:+ "</"
  +:+ element +:+ ">" +:+ nl.

Definition html_suite_header (result name reason time : option string) : string :=
  let plain := py_str result +:+ ": " +:+ py_str name +:+ " (" +:+ py_str time +:+ ")" in
  if decide (result = Some "PASS") then styled "h3" "green" plain
  else if decide (result = Some "SKIP") then
    styled "h3" "#ff6600" (plain +:+ " (" +:+ py_str reason +:+ ")")
  else styled "h3" "red" plain.

(** One row of failure details; the row is closed by [</td>], as in the code. *)
Definition html_details (f : string) (result name time : option string) (first_row : bool)
    (details : element) : io unit :=
  _ ← write f ("<tr>" +:+ nl);
  _ ← (if first_row then
         write_all f [styled "td" "red" (py_str result); td (py_str name); td (py_str time)]
       else write_all f [td ""; td ""; td ""]);
  _ ← write f "<td>";
  _ ← write_field f "<b>Message: </b>" "Message" ", " details;
  _ ← write_field f "<b>Condition: </b>" "Condition" ", " details;
  _ ← write_field f "<b>Actual: </b>" "Actual" ", " details;
  _ ← write_field f "<b>Limit: </b>" "Limit" ", " details;
  _ ← write_field f "<b>File: </b>" "File" ", " details;
  _ ← write_field f "<b>Line: </b>" "Line" "" details;
  _ ← write f ("</td>" +:+ nl);
  write f ("</td>" +:+ nl).

Definition html_case (f : string) (case : element) : io unit :=
  '(result, name, reason, time) ← lift_res (read_test case);
  if decide (result = Some "FAIL") then
    match findall case "FailureDetails" with
    | [] => mret ()
    | details :: rest =>
        _ ← html_details f result name time true details;
        for_each (html_details f result name time false) rest
    end
  else
    write_all f ["<tr>" +:+ nl; styled "td" "green" (py_str result); td (py_str name);
                 td (py_str time); td (py_str reason); "</tr>" +:+ nl].

Definition html_suite (f : string) (suite : element) : io unit :=
  '(result, name, reason, time) ← lift_res (read_test suite);
  _ ← write f (html_suite_header result name reason time);
  _ ← write f ("<table border=" +:+ dq +:+ "1" +:+ dq +:+ ">" +:+ nl);
  _ ← write f ("<th> Result </th>" +:+ nl);
  if decide (result ∈ [Some "CRASH"; Some "SKIP"; Some "VALGR"]) then
    write_all f ["<tr>" +:+ nl;
                 styled "td" (if decide (result = Some "SKIP") then "#ff6600" else "red")
                   (py_str result);
                 "</tr>" +:+ nl; "</table>" +:+ nl]
  else
    _ ← write f ("<th>Test Case Name</th>" +:+ nl);
    _ ← write f ("<th> Time </th>" +:+ nl);
    _ ← (if decide (result = Some "FAIL") then write f ("<th>Failure Details</th>" +:+ nl)
         else mret ());
    _ ← for_each (html_case f) (findall suite "Test");
    write f ("</table>" +:+ nl).

(** The skipped row is closed by [</fd>], as in the code. *)
Definition html_example (f : string) (example : element) : io unit :=
  _ ← write f ("<tr>" +:+ nl);
  '(result, name, reason, time) ← lift_res (read_test example);
  _ ← write f (if decide (result = Some "PASS") then styled "td" "green" (py_str result)
               else if decide (result = Some "SKIP") then
                 "<td style=" +:+ dq +:+ "color:#ff6600" +:+ dq +:+ ">" +:+ py_str result
                 +:+ "</fd>" +:+ nl
               else styled "td" "red" (py_str result));
  write_all f [td (py_str name); td (py_str time); td (py_str reason); "</tr>" +:+ nl].

Definition translate_to_html (results_file html_file : string) : io unit :=
  let html_file := html_file +:+ ".html" in
  _ ← print ("Writing results to html file " +:+ html_file +:+ "...");
  _ ← open_w html_file;
  _ ← write_all html_file ["<html>" +:+ nl; "<body>" +:+ nl;
        "<center><h1>ns-3 Test Results</h1></center>" +:+ nl];
  et ← et_parse results_file;
  _ ← write html_file ("<h2>Test Suites</h2>" +:+ nl);
  _ ← for_each (html_suite html_file) (findall et "Test");
  _ ← write_all html_file ["<h2>Examples</h2>" +:+ nl;
        "<table border=" +:+ dq +:+ "1" +:+ dq +:+ ">" +:+ nl;
        "<th> Result </th>" +:+ nl; "<th>Example Name</th>" +:+ nl;
        "<th>Elapsed Time</th>" +:+ nl; "<th>Details</th>" +:+ nl];
  _ ← for_each (html_example html_file) (findall et "Example");
  _ ← write_all html_file ["</table>" +:+ nl; "</body>" +:+ nl; "</html>" +:+ nl];
  print ("done." +:+ nl).
End translate.

(** ** Writers: what a piece of the translation adds to its file *)

(** [m] appends [s] to the file [f] and does nothing else. *)
Definition writes (f : string) (m : io unit) (s : string) : Prop :=
  ∀ st c, files st !! f = Some c → m st = (Fs (stdout st) (<[f := c +:+ s]> (files st)), Ok tt).

Lemma writes_ret f : writes f (mret ()) "".
Proof. intros [o m] c Hc. simpl. by rewrite append_nil_r, insert_id. Qed.

Lemma writes_write f s : writes f (write f s) s.
Proof.
  intros [o m] c Hc. unfold write. simpl in *. do 2 f_equal.
  rewrite <-(insert_id m f c Hc) at 1. by rewrite alter_insert_eq.
Qed.

Lemma writes_bind f m s (k : unit → io unit) t :
  writes f m s → writes f (k tt) t → writes f (m ≫= k) (s +:+ t).
Proof.
  intros Hm Hk st c Hc. unfold mbind, eff_bind. rewrite (Hm st c Hc).
  rewrite (Hk _ (c +:+ s)) by apply lookup_insert_eq.
  simpl. by rewrite insert_insert_eq, append_assoc.
Qed.

Lemma writes_lift {A} f (r : res A) a (k : A → io unit) s :
  r = Ok a → writes f (k a) s → writes f (lift_res r ≫= k) s.
Proof. intros -> Hk st c Hc. by apply Hk. Qed.

Lemma writes_for_each {A} f (body : A → io unit) (render : A → string) l :
  (∀ x, x ∈ l → writes f (body x) (render x)) → writes f (for_each body l) (cat (render <$> l)).
Proof.
  induction l as [|x l IH]; intros Hl; simpl; [apply writes_ret|].
  apply writes_bind; [apply Hl; left|]. apply IH. intros y Hy. apply Hl. by right.
Qed.

Lemma writes_all f l : writes f (write_all f l) (cat l).
Proof.
  pose proof (writes_for_each f (write f) id l (λ x _, writes_write f x)) as Hw.
  by rewrite list_fmap_id in Hw.
Qed.

Lemma writes_field f label field after details t :
  find_text details field = Ok t →
  writes f (write_field f label field after details) (label +:+ py_str t +:+ after).
Proof. intros Ht. eapply writes_lift; [done|]. apply writes_write. Qed.

(** ** Documents with the elements the translation expects *)

Definition fields : list string := ["Message"; "Condition"; "Actual"; "Limit"; "File"; "Line"].
Definition details_ok (details : element) : Prop :=
  Forall (λ t, is_Some (find details t)) fields.
Inductive test_ok (test : element) : Prop :=
| TestOk :
    is_Some (find test "Result") → is_Some (find test "Name") →
    Forall details_ok (findall test "FailureDetails") →
    Forall test_ok (findall test "Test") → test_ok test.
Definition example_ok (example : element) : Prop :=
  is_Some (find example "Result") ∧ is_Some (find example "Name").
Definition document_ok (et : element) : Prop :=
  Forall test_ok (findall et "Test") ∧ Forall example_ok (findall et "Example").

Definition field_of (e : element) (t : string) : option string := find e t ≫= text.
Lemma find_text_some e t : is_Some (find e t) → find_text e t = Ok (field_of e t).
Proof. intros [c Hc]. unfold find_text, field_of. by rewrite Hc. Qed.

Definition reason_of (e : element) : option string :=
  match find e "Reason" with Some r => text r | None => Some "" end.
Definition time_of (e : element) : option string :=
  match find e "Time" with Some t => get t "real" | None => Some "" end.

Lemma read_test_ok e :
  is_Some (find e "Result") → is_Some (find e "Name") →
  read_test e = Ok (field_of e "Result", field_of e "Name", reason_of e, time_of e).
Proof.
  intros Hr Hn. unfold read_test.
  by rewrite (find_text_some e "Result"), (find_text_some e "Name") by done.
Qed.

(** ** The text report as a function of the document *)

Definition render_details (d : element) : string :=
  cat (("    Details:" +:+ nl) ::
    zip_with (λ label t, label +:+ py_str (field_of d t) +:+ nl)
      ["      Message:   "; "      Condition: "; "      Actual:    "; "      Limit:     ";
       "      File:      "; "      Line:      "] fields).
Definition render_node (node : string * element) : string :=
  let '(test_type, e) := node in
  text_line (field_of e "Result") (field_of e "Name") (reason_of e) (time_of e) test_type
  +:+ cat (render_details <$> findall e "FailureDetails").
(** A test and the tests inside it, in document order. *)
Fixpoint preorder (test_type : string) (e : element) : list (string * element) :=
  (test_type, e) ::
  (fix loop (l : list element) :=
     match l with
     | [] => []
     | c :: l => (if decide (tag c = "Test") then preorder "Case" c else []) ++ loop l
     end) (children e).
Definition render_example (e : element) : string :=
  py_str (field_of e "Result") +:+ ": Example " +:+ dq +:+ py_str (field_of e "Name") +:+ dq
  +:+ " (" +:+ py_str (time_of e) +:+ ")" +:+ nl.
Definition text_report (et : element) : string :=
  cat (render_node <$> (findall et "Test" ≫= preorder "Suite"))
  +:+ cat (render_example <$> findall et "Example").

Lemma writes_text_details f d : details_ok d → writes f (text_details f d) (render_details d).
Proof.
  intros Hd. unfold details_ok, fields in Hd. rewrite !Forall_cons in Hd.
  destruct Hd as (H1 & H2 & H3 & H4 & H5 & H6 & _).
  unfold text_details, render_details, fields. cbn [zip_with cat foldr]. rewrite append_nil_r.
  apply writes_bind; [apply writes_write|].
  repeat (apply writes_bind; [by apply writes_field, find_text_some|]).
  by apply writes_field, find_text_some.
Qed.

Lemma writes_eq f m s t : writes f m s → s = t → writes f m t.
Proof. by intros ? <-. Qed.

(** The recursions over the children are those over [findall('Test')]. *)
Lemma node_to_text_eq f test_type test :
  node_to_text f test_type test =
  ('(result, name, reason, time_real) ← lift_res (read_test test);
   _ ← write f (text_line result name reason time_real test_type);
   _ ← for_each (text_details f) (findall test "FailureDetails");
   for_each (node_to_text f "Case") (findall test "Test")).
Proof.
  assert (∀ c, (fix loop (l : list element) : io unit :=
      match l with
      | [] => mret ()
      | child :: l =>
          _ ← (if decide (tag child = "Test") then node_to_text f "Case" child else mret ());
          loop l
      end) c = for_each (node_to_text f "Case") (filter (λ c, tag c = "Test") c)) as Hloop.
  { induction c as [|x c IH]; [done|]. cbn -[node_to_text filter decide]. case_decide.
    - rewrite filter_cons_True by done. cbn [for_each]. by rewrite <-IH.
    - rewrite filter_cons_False by done. rewrite IH. done. }
  destruct test as [t a tx c]. cbn [node_to_text children]. by rewrite Hloop.
Qed.

Lemma preorder_eq test_type e :
  preorder test_type e = (test_type, e) :: (findall e "Test" ≫= preorder "Case").
Proof.
  destruct e as [t a tx c]. cbn [preorder children]. f_equal. unfold findall. cbn [children].
  induction c as [|x c IH]; [done|]. case_decide.
  - rewrite filter_cons_True by done. rewrite IH. done.
  - rewrite filter_cons_False by done. rewrite IH. done.
Qed.

Lemma cat_render_bind (l : list element) ty :
  cat (render_node <$> (l ≫= preorder ty)) = cat ((λ e, cat (render_node <$> preorder ty e)) <$> l).
Proof. induction l as [|x l IH]; csimpl; [done|]. by rewrite fmap_app, cat_app, IH. Qed.

Lemma writes_node_to_text f ty e :
  test_ok e → writes f (node_to_text f ty e) (cat (render_node <$> preorder ty e)).
Proof.
  revert ty. induction e as [e IH] using element_ind'. intros ty [Hr Hn Hd Ht].
  rewrite node_to_text_eq, preorder_eq. eapply writes_lift; [by apply read_test_ok|].
  csimpl. unfold render_node at 1. rewrite append_assoc.
  apply writes_bind; [apply writes_write|]. apply writes_bind.
  - apply writes_for_each. intros d Hin. apply writes_text_details.
    rewrite Forall_forall in Hd. by apply Hd.
  - rewrite cat_render_bind. apply writes_for_each. intros c Hc.
    rewrite Forall_forall in IH, Ht. apply IH; [|by apply Ht].
    by apply list_elem_of_filter in Hc as [_ Hc].
Qed.

Lemma writes_text_example f e :
  example_ok e → writes f (text_example f e) (render_example e).
Proof.
  intros [Hr Hn]. eapply writes_lift; [by apply find_text_some|].
  eapply writes_lift; [by apply find_text_some|]. apply writes_write.
Qed.

(** On a results file with the expected elements, [translate_to_text]
    writes one line per test, nested tests after the one that contains them,
    its failures below it, then one line per example, and changes no other
    file. *)
Theorem translate_to_text_report parse_xml results text_file st content et :
  files st !! results = Some content → parse_xml content = Ok et → document_ok et →
  translate_to_text parse_xml results text_file st =
  (Fs (stdout st +:+ "Writing results to text file " +:+ dq +:+ text_file +:+ ".txt" +:+ dq
         +:+ "...done." +:+ nl)
      (<[text_file +:+ ".txt" := text_report et]> (files st)), Ok tt).
Proof.
  intros Hf Hx [Ht He]. destruct st as [o m]. unfold translate_to_text. unfold mbind, eff_bind.
  unfold print at 1. cbn [files stdout] in *. unfold et_parse. cbn [files]. rewrite Hf, Hx.
  unfold open_w. cbn [files stdout]. set (f := text_file +:+ ".txt").
  rewrite Forall_forall in Ht, He.
  rewrite (writes_for_each f (node_to_text f "Suite") (λ e, cat (render_node <$> preorder "Suite" e))
    (findall et "Test")) with (c := ""); [|by eauto using writes_node_to_text|apply lookup_insert_eq].
  rewrite (writes_for_each f (text_example f) render_example (findall et "Example"))
    with (c := cat ((λ e, cat (render_node <$> preorder "Suite" e)) <$> findall et "Test"));
    [|by eauto using writes_text_example|apply lookup_insert_eq].
  cbn [files stdout]. unfold print. cbn [files stdout].
  rewrite !insert_insert_eq. unfold text_report. rewrite cat_render_bind.
  assert (∀ s t (x : gmap string string), s = t → (Fs s x, Ok (E := exn) tt) = (Fs t x, Ok tt))
    as Hs by naive_solver.
  apply Hs. unfold f. by rewrite !append_assoc.
Qed.

(** ** Nesting of the HTML tags *)

(** Reads the tags of a text: [stack] has the open elements, [buf] the
    characters of the tag being read.  [None] when a tag closes an element
    that is not the innermost one. *)
Fixpoint scan (stack : list (list ascii)) (buf : option (list ascii)) (l : list ascii)
    : option (list (list ascii)) :=
  match l, buf with
  | [], None => Some stack
  | [], Some _ => None
  | a :: l, None => if decide (a = "<"%char) then scan stack (Some []) l else scan stack None l
  | a :: l, Some name =>
      if decide (a = ">"%char) then
        match name with
        | "/"%char :: name =>
            match stack with
            | top :: stack => if decide (top = name) then scan stack None l else None
            | [] => None
            end
        | _ => scan ((split1_chars " " name).1 :: stack) None l
        end
      else if decide (a = "<"%char) then None
      else scan stack (Some (name ++ [a])) l
  end.
Definition well_nested (s : string) : Prop := scan [] None (chars s) = Some [].

(** [s] takes the open elements [x] to [y], or closes one out of turn ([b]). *)
Definition nests (x y : list string) (b : bool) (s : string) : Prop :=
  ∀ st rest, scan ((chars <$> x) ++ st) None (chars s ++ rest) =
             (if b then None else scan ((chars <$> y) ++ st) None rest).

Lemma nests_app x y z b1 b2 s t :
  nests x y b1 s → nests y z b2 t → nests x z (b1 || b2) (s +:+ t).
Proof.
  intros Hs Ht st rest. rewrite chars_app, <-app_assoc, Hs. destruct b1; [done|]. by rewrite Ht.
Qed.

Lemma nests_frame x b s : nests [] [] b s → nests x x b s.
Proof. intros Hs st rest. apply (Hs ((chars <$> x) ++ st)). Qed.

Lemma nests_nil x : nests x x false "".
Proof. by intros st rest. Qed.

Lemma nests_text x s : "<"%char ∉ chars s → nests x x false s.
Proof.
  intros Hs. apply nests_frame. intros st rest. cbn [fmap list_fmap app].
  induction (chars s) as [|a l IH]; [done|]. apply not_elem_of_cons in Hs as [Ha Hl].
  cbn [app scan]. rewrite decide_False by done. by apply IH.
Qed.

Lemma nests_well_nested b s : nests [] [] b s → well_nested s ↔ b = false.
Proof.
  intros Hs. unfold well_nested. rewrite <-(app_nil_r (chars s)).
  change (scan [] None (chars s ++ [])) with (scan ((chars <$> []) ++ []) None (chars s ++ [])).
  rewrite Hs. by destruct b.
Qed.

Lemma nests_cat {A} (render : A → string) (bad : A → bool) l :
  (∀ x, x ∈ l → nests [] [] (bad x) (render x)) → nests [] [] (existsb bad l) (cat (render <$> l)).
Proof.
  induction l as [|x l IH]; intros Hl; simpl; [apply nests_nil|].
  eapply nests_app; [apply Hl; left|]. apply IH. intros y Hy. apply Hl. by right.
Qed.

Definition clean (o : option string) : Prop := "<"%char ∉ chars (py_str o).

Lemma nests_td s : "<"%char ∉ chars s → nests [] [] false (td s).
Proof.
  intros Hs. unfold td. eapply (nests_app _ ["td"] _ false false); [by intros st rest|].
  eapply (nests_app _ ["td"] _ false false); [by apply nests_text|]. by intros st rest.
Qed.

(** The elements and colors the reports use. *)
Lemma nests_styled e c s :
  (e, c) ∈ [("h3", "green"); ("h3", "#ff6600"); ("h3", "red");
            ("td", "green"); ("td", "#ff6600"); ("td", "red")] →
  "<"%char ∉ chars s → nests [] [] false (styled e c s).
Proof.
  intros Hec Hs.
  assert (nests [] [e] false ("<" +:+ e +:+ " style=" +:+ dq +:+ "color:" +:+ c +:+ dq +:+ ">")
    ∧ nests [e] [] false ("</" +:+ e +:+ ">" +:+ nl)) as [H1 H2].
  { rewrite !elem_of_cons, elem_of_nil in Hec.
    destruct_or! Hec; try done; injection Hec as -> ->; by split; intros st rest. }
  unfold styled. pose proof (nests_app _ _ _ _ _ _ _ H1 (nests_app _ _ _ _ _ _ _
    (nests_text [e] s Hs) H2)) as Hall. by rewrite !append_assoc in Hall.
Qed.

(** What a piece of the translation writes, and its effect on the nesting. *)
Definition renders (f : string) (m : io unit) (x y : list string) (b : bool) : Prop :=
  ∃ s, writes f m s ∧ nests x y b s.

Lemma renders_ret f x : renders f (mret ()) x x false.
Proof. exists "". split; [apply writes_ret|apply nests_nil]. Qed.
Lemma renders_write f x y b s : nests x y b s → renders f (write f s) x y b.
Proof. exists s. split; [apply writes_write|done]. Qed.
Lemma renders_frame f m x b : renders f m [] [] b → renders f m x x b.
Proof. intros (s & ? & ?). exists s. split; [done|by apply nests_frame]. Qed.
Lemma renders_bind f m (k : unit → io unit) x y z b1 b2 :
  renders f m x y b1 → renders f (k tt) y z b2 → renders f (m ≫= k) x z (b1 || b2).
Proof.
  intros (s & ? & ?) (t & ? & ?). exists (s +:+ t).
  split; [by apply writes_bind|by eapply nests_app].
Qed.
Lemma renders_lift {A} f (r : res A) a (k : A → io unit) x y b :
  r = Ok a → renders f (k a) x y b → renders f (lift_res r ≫= k) x y b.
Proof. intros Hr (s & ? & ?). exists s. split; [by eapply writes_lift|done]. Qed.
Lemma renders_for_each {A} f (body : A → io unit) (bad : A → bool) l :
  (∀ a, a ∈ l → renders f (body a) [] [] (bad a)) →
  renders f (for_each body l) [] [] (existsb bad l).
Proof.
  induction l as [|a l IH]; intros Hl; simpl; [apply renders_ret|].
  eapply renders_bind; [apply Hl; left|]. apply IH. intros c Hc. apply Hl. by right.
Qed.
Lemma renders_write_cons f s l x y z b1 b2 :
  nests x y b1 s → renders f (write_all f l) y z b2 → renders f (write_all f (s :: l)) x z (b1 || b2).
Proof. intros ??. eapply renders_bind; [by apply renders_write|done]. Qed.
Lemma renders_field f label field after x d :
  is_Some (find d field) → clean (field_of d field) →
  nests [] [] false label → nests [] [] false after →
  renders f (write_field f label field after d) x x false.
Proof.
  intros Hd Hc Hl Ha. apply renders_frame. eexists.
  split; [by apply writes_field, find_text_some|].
  eapply (nests_app _ [] _ false false); [done|].
  eapply (nests_app _ [] _ false false); [by apply nests_text|done].
Qed.

(** Texts without a [<]. *)
Definition clean_test (e : element) : Prop :=
  clean (field_of e "Result") ∧ clean (field_of e "Name") ∧ clean (reason_of e) ∧ clean (time_of e).
Definition clean_details (d : element) : Prop := Forall (λ t, clean (field_of d t)) fields.
Definition clean_case (c : element) : Prop :=
  clean_test c ∧ Forall clean_details (findall c "FailureDetails").
Definition clean_suite (s : element) : Prop := clean_test s ∧ Forall clean_case (findall s "Test").
Definition clean_document (et : element) : Prop :=
  Forall clean_suite (findall et "Test") ∧ Forall clean_test (findall et "Example").

(** The rows that close the wrong element. *)
Definition bad_case (c : element) : bool :=
  bool_decide (field_of c "Result" = Some "FAIL")
  && bool_decide (findall c "FailureDetails" ≠ []).
Definition bad_suite (s : element) : bool :=
  negb (bool_decide (field_of s "Result" ∈ [Some "CRASH"; Some "SKIP"; Some "VALGR"]))
  && existsb bad_case (findall s "Test").
Definition bad_example (e : element) : bool := bool_decide (field_of e "Result" = Some "SKIP").

Ltac closed_nests := by intros st rest.
(** A cell of a table. *)
Ltac cell_nests :=
  apply nests_frame; first [closed_nests | by apply nests_td | by apply nests_styled; [set_solver|]].
Ltac render_cells x :=
  repeat (eapply (renders_write_cons _ _ _ _ x _ false false); [cell_nests|]).

Lemma renders_html_details f result name time first_row d :
  clean result → clean name → clean time → details_ok d → clean_details d →
  renders f (html_details f result name time first_row d) [] [] true.
Proof.
  intros Hr Hn Ht Hd Hc. unfold details_ok, clean_details, fields in Hd, Hc.
  rewrite !Forall_cons in Hd, Hc. destruct_and! Hd. destruct_and! Hc. unfold html_details.
  eapply (renders_bind _ _ _ _ ["tr"] _ false true); [apply renders_write; closed_nests|].
  eapply (renders_bind _ _ _ _ ["tr"] _ false true).
  { destruct first_row; render_cells ["tr"]; apply renders_ret. }
  eapply (renders_bind _ _ _ _ ["td"; "tr"] _ false true); [apply renders_write; closed_nests|].
  repeat (eapply (renders_bind _ _ _ _ ["td"; "tr"] _ false true);
    [by apply renders_field; [..|closed_nests|closed_nests]|]).
  eapply (renders_bind _ _ _ _ ["tr"] _ false true); [apply renders_write; closed_nests|].
  apply renders_write. closed_nests.
Qed.

Lemma renders_html_case f c :
  test_ok c → clean_case c → renders f (html_case f c) [] [] (bad_case c).
Proof.
  intros [Hr Hn Hd _] [(Cr & Cn & Ce & Ct) Cd]. unfold html_case, bad_case.
  eapply renders_lift; [by apply read_test_ok|]. cbn beta iota.
  destruct (decide (field_of c "Result" = Some "FAIL")) as [Hf|Hf].
  - rewrite bool_decide_eq_true_2 by done.
    destruct (findall c "FailureDetails") as [|d rest]; [apply renders_ret|].
    rewrite bool_decide_eq_true_2 by done. apply Forall_cons in Hd as [Hd Hrest].
    apply Forall_cons in Cd as [Cd Crest].
    eapply (renders_bind _ _ _ _ [] _ true); [by apply renders_html_details|].
    apply (renders_for_each _ _ (λ _, true)). intros x Hx. rewrite Forall_forall in Hrest, Crest.
    apply renders_html_details; auto.
  - rewrite bool_decide_eq_false_2 by done.
    eapply (renders_write_cons _ _ _ _ ["tr"] _ false false); [closed_nests|].
    render_cells ["tr"].
    eapply (renders_write_cons _ _ _ _ [] _ false false); [closed_nests|apply renders_ret].
Qed.

Lemma nests_suite_header r n e t :
  clean r → clean n → clean e → clean t → nests [] [] false (html_suite_header r n e t).
Proof.
  intros Hr Hn He Ht. unfold html_suite_header.
  assert (∀ s u, "<"%char ∉ chars s → "<"%char ∉ chars u → "<"%char ∉ chars (s +:+ u)) as Happ
    by (intros s u ??; rewrite chars_app; set_solver).
  assert (∀ s, "<"%char ∉ chars s → "<"%char ∉ chars (": " +:+ s)) as Hc
    by (intros s ?; apply Happ; [set_solver|done]).
  unfold clean in *.
  repeat case_decide; (apply nests_styled; [set_solver|]);
    repeat first [done | apply Happ | vm_compute; set_solver].
Qed.

Lemma renders_html_suite f s :
  test_ok s → clean_suite s → renders f (html_suite f s) [] [] (bad_suite s).
Proof.
  intros [Hr Hn _ Ht] [(Cr & Cn & Ce & Ct) Cs]. unfold html_suite, bad_suite.
  eapply renders_lift; [by apply read_test_ok|]. cbn beta iota.
  eapply (renders_bind _ _ _ _ [] _ false); [by apply renders_write, nests_suite_header|].
  eapply (renders_bind _ _ _ _ ["table"] _ false); [apply renders_write; closed_nests|].
  eapply (renders_bind _ _ _ _ ["table"] _ false); [apply renders_write; closed_nests|].
  destruct (decide (field_of s "Result" ∈ [Some "CRASH"; Some "SKIP"; Some "VALGR"])) as [Hb|Hb].
  - rewrite bool_decide_eq_true_2 by done. cbn [negb andb].
    eapply (renders_write_cons _ _ _ _ ["tr"; "table"] _ false false); [closed_nests|].
    eapply (renders_write_cons _ _ _ _ ["tr"; "table"] _ false false).
    { apply nests_frame, nests_styled; [case_decide; set_solver|done]. }
    eapply (renders_write_cons _ _ _ _ ["table"] _ false false); [closed_nests|].
    eapply (renders_write_cons _ _ _ _ [] _ false false); [closed_nests|apply renders_ret].
  - rewrite bool_decide_eq_false_2 by done. cbn [negb andb].
    remember (existsb bad_case (findall s "Test")) as b eqn:Hbad.
    eapply (renders_bind _ _ _ _ ["table"] _ false); [apply renders_write; closed_nests|].
    eapply (renders_bind _ _ _ _ ["table"] _ false); [apply renders_write; closed_nests|].
    eapply (renders_bind _ _ _ _ ["table"] _ false).
    { case_decide; [apply renders_write; closed_nests|apply renders_ret]. }
    rewrite <-(orb_false_r b).
    eapply (renders_bind _ _ _ _ ["table"]); [|apply renders_write; closed_nests].
    subst b. apply renders_frame, renders_for_each. intros c Hc. rewrite Forall_forall in Ht, Cs.
    apply renders_html_case; auto.
Qed.

Lemma renders_html_example f e :
  example_ok e → clean_test e → renders f (html_example f e) [] [] (bad_example e).
Proof.
  intros [Hr Hn] (Cr & Cn & Ce & Ct). unfold html_example, bad_example.
  remember (bool_decide (field_of e "Result" = Some "SKIP")) as b eqn:Hbad.
  eapply (renders_bind _ _ _ _ ["tr"] _ false); [apply renders_write; closed_nests|].
  eapply renders_lift; [by apply read_test_ok|]. cbn beta iota.
  rewrite <-(orb_false_r b). eapply (renders_bind _ _ _ _ ["tr"]).
  - apply renders_write. subst b.
    destruct (decide (field_of e "Result" = Some "PASS")) as [Hp|Hp].
    { rewrite bool_decide_eq_false_2 by congruence. cell_nests. }
    destruct (decide (field_of e "Result" = Some "SKIP")) as [Hs|Hs].
    + rewrite bool_decide_eq_true_2 by done. rewrite Hs. closed_nests.
    + rewrite bool_decide_eq_false_2 by done. cell_nests.
  - render_cells ["tr"].
    eapply (renders_write_cons _ _ _ _ [] _ false false); [closed_nests|apply renders_ret].
Qed.

(** On a results file with the expected elements and no [<] in its texts,
    [translate_to_html] writes a page.  The page is well nested if and only if
    no test case failed with details (outside a crashed, skipped or valgrind
    suite) and no example was skipped: their rows close the wrong element. *)
Theorem translate_to_html_nesting parse_xml results html_file st content et :
  results ≠ html_file +:+ ".html" →
  files st !! results = Some content → parse_xml content = Ok et →
  document_ok et → clean_document et →
  ∃ out html, translate_to_html parse_xml results html_file st =
      (Fs out (<[html_file +:+ ".html" := html]> (files st)), Ok tt) ∧
    (well_nested html ↔
     existsb bad_suite (findall et "Test") = false ∧ existsb bad_example (findall et "Example") = false).
Proof.
  intros Hne Hf Hx [Ht He] [Ct Ce]. destruct st as [o m]. cbn [files] in Hf.
  rewrite Forall_forall in Ht, He, Ct, Ce. set (f := html_file +:+ ".html") in *.
  assert (renders f (write_all f ["<html>" +:+ nl; "<body>" +:+ nl;
        "<center><h1>ns-3 Test Results</h1></center>" +:+ nl]) [] ["body"; "html"] false)
    as (s1 & Hw1 & Hn1).
  { eapply (renders_write_cons _ _ _ _ ["html"] _ false false); [closed_nests|].
    eapply (renders_write_cons _ _ _ _ ["body"; "html"] _ false false); [closed_nests|].
    eapply (renders_write_cons _ _ _ _ ["body"; "html"] _ false false); [closed_nests|apply renders_ret]. }
  destruct (renders_for_each f (html_suite f) bad_suite (findall et "Test")) as (s2 & Hw2 & Hn2).
  { intros. apply renders_html_suite; auto. }
  assert (renders f (write_all f ["<h2>Examples</h2>" +:+ nl;
        "<table border=" +:+ dq +:+ "1" +:+ dq +:+ ">" +:+ nl;
        "<th> Result </th>" +:+ nl; "<th>Example Name</th>" +:+ nl;
        "<th>Elapsed Time</th>" +:+ nl; "<th>Details</th>" +:+ nl])
    ["body"; "html"] ["table"; "body"; "html"] false) as (s3 & Hw3 & Hn3).
  { eapply (renders_write_cons _ _ _ _ ["body"; "html"] _ false false); [closed_nests|].
    eapply (renders_write_cons _ _ _ _ ["table"; "body"; "html"] _ false false); [closed_nests|].
    render_cells ["table"; "body"; "html"]. apply renders_ret. }
  destruct (renders_for_each f (html_example f) bad_example (findall et "Example"))
    as (s4 & Hw4 & Hn4).
  { intros. apply renders_html_example; auto. }
  assert (renders f (write_all f ["</table>" +:+ nl; "</body>" +:+ nl; "</html>" +:+ nl])
    ["table"; "body"; "html"] [] false) as (s5 & Hw5 & Hn5).
  { eapply (renders_write_cons _ _ _ _ ["body"; "html"] _ false false); [closed_nests|].
    eapply (renders_write_cons _ _ _ _ ["html"] _ false false); [closed_nests|].
    eapply (renders_write_cons _ _ _ _ [] _ false false); [closed_nests|apply renders_ret]. }
  set (h2 := "<h2>Test Suites</h2>" +:+ nl).
  assert (nests [] [] (existsb bad_suite (findall et "Test")
    || existsb bad_example (findall et "Example")) (s1 +:+ h2 +:+ s2 +:+ s3 +:+ s4 +:+ s5)) as Hn.
  { apply (nests_app _ _ _ false _ _ _ Hn1).
    apply (nests_app _ ["body"; "html"] _ false); [closed_nests|].
    apply (nests_app _ ["body"; "html"]); [by apply nests_frame|].
    apply (nests_app _ _ _ false _ _ _ Hn3). rewrite <-(orb_false_r (existsb bad_example _)).
    apply (nests_app _ ["table"; "body"; "html"]); [by apply nests_frame|done]. }
  eexists _, _. split; [|by rewrite (nests_well_nested _ _ Hn), orb_false_iff].
  unfold translate_to_html. fold f. unfold mbind, eff_bind.
  unfold print at 1, open_w. cbn [files stdout].
  rewrite (Hw1 _ "") by apply lookup_insert_eq. cbn [files stdout].
  unfold et_parse. cbn [files stdout]. rewrite insert_insert_eq, lookup_insert_ne, Hf, Hx by done.
  rewrite (writes_write f h2 _ s1) by apply lookup_insert_eq. cbn [files stdout].
  rewrite (Hw2 _ (s1 +:+ h2)) by apply lookup_insert_eq. cbn [files stdout].
  rewrite (Hw3 _ ((s1 +:+ h2) +:+ s2)) by apply lookup_insert_eq. cbn [files stdout].
  rewrite (Hw4 _ (((s1 +:+ h2) +:+ s2) +:+ s3)) by apply lookup_insert_eq. cbn [files stdout].
  rewrite (Hw5 _ ((((s1 +:+ h2) +:+ s2) +:+ s3) +:+ s4)) by apply lookup_insert_eq.
  unfold print. cbn [files stdout]. by rewrite !insert_insert_eq, !append_assoc.
Qed.

Definition leaf (t x : string) : element := Element t [] (Some x) [].
Definition demo_case : element := Element "Test" [] None [leaf "Result" "PASS"; leaf "Name" "inner"].
Definition demo_doc : element :=
  Element "Results" [] None
    [Element "Test" [] None [leaf "Result" "PASS"; leaf "Name" "suite";
                             Element "Time" [("real", "1.0")] None []; demo_case];
     Element "Example" [] None [leaf "Name" "ex"; leaf "Result" "SKIP"]].
Lemma demo_case_ok : test_ok demo_case.
Proof. constructor; [by eexists|by eexists|constructor|constructor]. Qed.
Lemma demo_doc_ok : document_ok demo_doc.
Proof.
  split.
  - apply Forall_singleton. constructor; [by eexists|by eexists|constructor|].
    apply Forall_singleton, demo_case_ok.
  - apply Forall_singleton. by split; eexists.
Qed.

Lemma translate_to_text_report_witness :
  document_ok demo_doc ∧
  ∃ out, translate_to_text (λ _, Ok demo_doc) "r.xml" "r" (Fs "" {["r.xml" := ""]}) =
    (Fs out (<["r.txt" := "PASS: Test Suite " +:+ dq +:+ "suite" +:+ dq +:+ " (1.0)" +:+ nl +:+
                          "PASS: Test Case " +:+ dq +:+ "inner" +:+ dq +:+ " ()" +:+ nl +:+
                          "SKIP: Example " +:+ dq +:+ "ex" +:+ dq +:+ " ()" +:+ nl]>
               {["r.xml" := ""]}), Ok tt).
Proof.
  split; [exact demo_doc_ok|]. eexists.
  exact (translate_to_text_report (λ _, Ok demo_doc) "r.xml" "r" (Fs "" {["r.xml" := ""]})
    "" demo_doc eq_refl eq_refl demo_doc_ok).
Defined.

Lemma demo_doc_clean : clean_document demo_doc.
Proof.
  assert (∀ t, bool_decide ("<"%char ∈ chars t) = false → "<"%char ∉ chars t) as Hc
    by (intros t Ht; by apply bool_decide_eq_false in Ht).
  repeat split; try apply Forall_singleton; repeat split; try (apply Hc; reflexivity).
  - apply Forall_singleton. repeat split; try (apply Hc; reflexivity). constructor.
Qed.

(** The skipped example of this document breaks the nesting. *)
Lemma translate_to_html_nesting_witness :
  ∃ out html, translate_to_html (λ _, Ok demo_doc) "r.xml" "r" (Fs "" {["r.xml" := ""]}) =
      (Fs out (<["r.html" := html]> {["r.xml" := ""]}), Ok tt) ∧
    (well_nested html ↔ false = false ∧ true = false).
Proof.
  assert ("r.xml" ≠ "r" +:+ ".html") as Hne by (intros Heq; discriminate Heq).
  exact (translate_to_html_nesting (λ _, Ok demo_doc) "r.xml" "r" (Fs "" {["r.xml" := ""]})
    "" demo_doc Hne eq_refl eq_refl demo_doc_ok demo_doc_clean).
Defined.
