(* ===== verification/TestJobs.v ===== *)
(** * test.py: jobs, their execution, and the collection of their results
    [Job], [run_job_synchronously], one pass of [worker_thread.run], and the
    part of [run_tests] that collects the jobs that come back: the counters,
    the lines printed, the XML results file, the summary and the return code.
    A process is a parameter: what it prints, its return code, its duration
    and the files it writes, or the exception that Popen raises. *)
From Stdlib Require Import Ascii QArith Qround Qabs.
From S2P Require Import Prelude PyStr PyXml TestReport.
#[local] Open Scope Z_scope.

(** The options of the command line, as [optparse] stores them. *)
Record options_t : Type := Options {
  opt_buildpath : string; opt_constrain : string; opt_duration : bool; opt_example : string;
  opt_update_data : bool; opt_fullness : string; opt_valgrind : bool; opt_kinds : bool;
  opt_list : bool; opt_multiple : bool; opt_nowaf : bool; opt_pyexample : string;
  opt_retain : bool; opt_suite : string; opt_text : string; opt_verbose : bool;
  opt_html : string; opt_xml : string; opt_nocolor : bool; opt_process_limit : Z;
}.
(** The defaults of [parser.add_option]. *)
Definition default_options : options_t :=
  Options "" "" false "" false "QUICK" false false false false false "" false "" "" false "" ""
    false 0.

(** ** Colors *)

Definition esc (s : string) : string := String "027" s.
Definition colors_lst : gmap string string :=
  list_to_map [("BOLD", esc "[01;1m"); ("RED", esc "[01;31m"); ("GREEN", esc "[32m");
    ("YELLOW", esc "[33m"); ("PINK", esc "[35m"); ("BLUE", esc "[01;34m"); ("CYAN", esc "[36m");
    ("GREY", esc "[37m"); ("NORMAL", esc "[0m"); ("cursor_on", esc "[?25h");
    ("cursor_off", esc "[?25l")].
(** [colors_lst['USE']] is the argument [use]. *)
Definition get_color (use : bool) (cl : string) : string :=
  if use then default "" (colors_lst !! cl) else "".

(** ** [Job] *)

Record job : Type := Job {
  is_break : bool; is_skip : bool; skip_reason : string; is_example : bool; is_pyexample : bool;
  shell_command : string; display_name : string; basedir : string; tempdir : string; cwd : string;
  tmp_file_name : string; returncode : Z; elapsed_time : Q; build_path : string;
}.
(** [Job()]; [returncode] is [False], which is the integer 0. *)
Definition new_job : job := Job false false "" false false "" "" "" "" "" "" 0 0 "".

Definition set_is_break (b : bool) (j : job) : job :=
  Job b (is_skip j) (skip_reason j) (is_example j) (is_pyexample j) (shell_command j)
    (display_name j) (basedir j) (tempdir j) (cwd j) (tmp_file_name j) (returncode j)
    (elapsed_time j) (build_path j).
Definition set_is_skip (b : bool) (j : job) : job :=
  Job (is_break j) b (skip_reason j) (is_example j) (is_pyexample j) (shell_command j)
    (display_name j) (basedir j) (tempdir j) (cwd j) (tmp_file_name j) (returncode j)
    (elapsed_time j) (build_path j).
Definition set_skip_reason (s : string) (j : job) : job :=
  Job (is_break j) (is_skip j) s (is_example j) (is_pyexample j) (shell_command j)
    (display_name j) (basedir j) (tempdir j) (cwd j) (tmp_file_name j) (returncode j)
    (elapsed_time j) (build_path j).
Definition set_is_example (b : bool) (j : job) : job :=
  Job (is_break j) (is_skip j) (skip_reason j) b (is_pyexample j) (shell_command j)
    (display_name j) (basedir j) (tempdir j) (cwd j) (tmp_file_name j) (returncode j)
    (elapsed_time j) (build_path j).
Definition set_is_pyexample (b : bool) (j : job) : job :=
  Job (is_break j) (is_skip j) (skip_reason j) (is_example j) b (shell_command j)
    (display_name j) (basedir j) (tempdir j) (cwd j) (tmp_file_name j) (returncode j)
    (elapsed_time j) (build_path j).
Definition set_shell_command (s : string) (j : job) : job :=
  Job (is_break j) (is_skip j) (skip_reason j) (is_example j) (is_pyexample j) s
    (display_name j) (basedir j) (tempdir j) (cwd j) (tmp_file_name j) (returncode j)
    (elapsed_time j) (build_path j).
Definition set_build_path (s : string) (j : job) : job :=
  Job (is_break j) (is_skip j) (skip_reason j) (is_example j) (is_pyexample j) (shell_command j)
    (display_name j) (basedir j) (tempdir j) (cwd j) (tmp_file_name j) (returncode j)
    (elapsed_time j) s.
Definition set_display_name (s : string) (j : job) : job :=
  Job (is_break j) (is_skip j) (skip_reason j) (is_example j) (is_pyexample j) (shell_command j)
    s (basedir j) (tempdir j) (cwd j) (tmp_file_name j) (returncode j)
    (elapsed_time j) (build_path j).
Definition set_basedir (s : string) (j : job) : job :=
  Job (is_break j) (is_skip j) (skip_reason j) (is_example j) (is_pyexample j) (shell_command j)
    (display_name j) s (tempdir j) (cwd j) (tmp_file_name j) (returncode j)
    (elapsed_time j) (build_path j).
Definition set_tempdir (s : string) (j : job) : job :=
  Job (is_break j) (is_skip j) (skip_reason j) (is_example j) (is_pyexample j) (shell_command j)
    (display_name j) (basedir j) s (cwd j) (tmp_file_name j) (returncode j)
    (elapsed_time j) (build_path j).
Definition set_cwd (s : string) (j : job) : job :=
  Job (is_break j) (is_skip j) (skip_reason j) (is_example j) (is_pyexample j) (shell_command j)
    (display_name j) (basedir j) (tempdir j) s (tmp_file_name j) (returncode j)
    (elapsed_time j) (build_path j).
Definition set_tmp_file_name (s : string) (j : job) : job :=
  Job (is_break j) (is_skip j) (skip_reason j) (is_example j) (is_pyexample j) (shell_command j)
    (display_name j) (basedir j) (tempdir j) (cwd j) s (returncode j)
    (elapsed_time j) (build_path j).
Definition set_returncode (z : Z) (j : job) : job :=
  Job (is_break j) (is_skip j) (skip_reason j) (is_example j) (is_pyexample j) (shell_command j)
    (display_name j) (basedir j) (tempdir j) (cwd j) (tmp_file_name j) z
    (elapsed_time j) (build_path j).
Definition set_elapsed_time (t : Q) (j : job) : job :=
  Job (is_break j) (is_skip j) (skip_reason j) (is_example j) (is_pyexample j) (shell_command j)
    (display_name j) (basedir j) (tempdir j) (cwd j) (tmp_file_name j) (returncode j)
    t (build_path j).

(** ** Running a job *)

(** What a pipe of the process held: text, or bytes that are not UTF-8, shown
    as Python prints them. *)
Inductive captured : Type :=
| Text (s : string)
| Bytes (repr : string).
Definition shown (c : captured) : string := match c with Text s => s | Bytes r => r end.
Definition decodable (c : captured) : bool := match c with Text _ => true | Bytes _ => false end.

Record process : Type := Process {
  proc_returncode : Z;
  proc_stdout : captured;
  proc_stderr : captured;
  proc_elapsed : Q;
  proc_files : gmap string string; (** the files it writes *)
}.

(** The globals that [read_waf_config] sets from waf's configuration. *)
Record config : Type := Config {
  NS3_BASEDIR : string; NS3_BUILDDIR : string; PYTHON : list string;
  APPNAME : string; VERSION : string; BUILD_PROFILE : string;
  NSC_ENABLED : bool; ENABLE_EXAMPLES : bool; ENABLE_TESTS : bool;
  ENABLE_PYTHON_BINDINGS : bool; VALGRIND_FOUND : bool;
  EXAMPLE_DIRECTORIES : list string; NS3_ENABLED_MODULES : list string;
  NS3_ENABLED_CONTRIBUTED_MODULES : list string; NS3_MODULE_PATH : list string;
}.
(** The values before the configuration is read. *)
Definition default_config : config :=
  Config "" "" [] "" "" "" false true true false true [] [] [] [].
Definition VALGRIND_SUPPRESSIONS_FILE : string := "testpy.supp".

Section run_job.
(** The shell command and its directory determine what the process does. *)
Context (popen : string → string → res process).
Context (options : options_t) (cfg : config).

Definition job_command (shell_command : string) (valgrind is_python : bool) (build_path : string)
    : res string :=
  let suppressions_path := path_join (NS3_BASEDIR cfg) VALGRIND_SUPPRESSIONS_FILE in
  path_cmd ←
    (if is_python then
       python ← py_index (PYTHON cfg) 0;
       Ok (python +:+ " " +:+ path_join (NS3_BASEDIR cfg) shell_command)
     else if bool_decide (build_path = "") then Ok (path_join (NS3_BUILDDIR cfg) shell_command)
     else Ok (path_join build_path shell_command));
  Ok (if valgrind then
        "valgrind --suppressions=" +:+ suppressions_path
        +:+ " --leak-check=full --show-reachable=yes --error-exitcode=2 --errors-for-leak-kinds=all "
        +:+ path_cmd
      else path_cmd).

Definition verbosely (s : string) : io unit :=
  if opt_verbose options then print (s +:+ nl) else mret ().

(** [stdout_results.decode()] and its handler. *)
Definition decode (c : captured) (what cmd : string) (retval : Z) : io Z :=
  if decodable c then mret retval
  else
    _ ← print ("Non-decodable character in " +:+ what +:+ " output of " +:+ cmd +:+ nl);
    _ ← print (shown c +:+ nl);
    mret 1.

Definition run_job_synchronously (shell_command directory : string) (valgrind is_python : bool)
    (build_path : string) : io (Z * captured * captured * Q) :=
  cmd ← lift_res (job_command shell_command valgrind is_python build_path);
  _ ← verbosely ("Synchronously execute " +:+ cmd);
  proc ← lift_res (popen cmd directory);
  _ ← (λ st, (Fs (stdout st) (proc_files proc ∪ files st), Ok tt));
  retval ← decode (proc_stdout proc) "stdout" cmd (proc_returncode proc);
  retval ← decode (proc_stderr proc) "stderr" cmd retval;
  _ ← verbosely ("Return code =  " +:+ pretty retval);
  _ ← verbosely ("stderr =  " +:+ shown (proc_stderr proc));
  mret (retval, proc_stdout proc, proc_stderr proc, proc_elapsed proc).

(** One pass of [worker_thread.run] with a job of the input queue: the job it
    puts into the output queue, or None when the worker ends. *)
Definition worker_pass (thread_exit : bool) (j : job) : io (option job) :=
  if is_break j then mret None
  else if thread_exit then mret (Some (set_is_break true j))
  else if is_skip j then
    _ ← verbosely ("Skip " +:+ shell_command j);
    mret (Some j)
  else
    _ ← verbosely ("Launch " +:+ shell_command j);
    '(rc, standard_out, standard_err, et) ←
      (if is_example j || is_pyexample j then
         run_job_synchronously (shell_command j) (cwd j) (opt_valgrind options) (is_pyexample j)
           (build_path j)
       else
         let update_data := if opt_update_data options then "--update-data" else "" in
         run_job_synchronously
           (shell_command j +:+ " --xml --tempdir=" +:+ tempdir j +:+ " --out=" +:+ tmp_file_name j
            +:+ " " +:+ update_data)
           (cwd j) (opt_valgrind options) false "");
    let j := set_elapsed_time et (set_returncode rc j) in
    _ ← verbosely ("returncode = " +:+ pretty (returncode j));
    _ ← verbosely "---------- begin standard out ----------";
    _ ← verbosely (shown standard_out);
    _ ← verbosely "---------- begin standard err ----------";
    _ ← verbosely (shown standard_err);
    _ ← verbosely "---------- end standard err ----------";
    mret (Some j).
End run_job.

(** ** Numbers as printed *)

(** Rounding to the nearest integer, ties to even. *)
Definition round_half_even (q : Q) : Z :=
  let n := Qfloor q in
  match Qcompare (q - inject_Z n) (1 # 2) with
  | Lt => n
  | Gt => n + 1
  | Eq => if Z.even n then n else n + 1
  end.
(** ["%.3f" % x] *)
Definition fmt3 (x : Q) : string :=
  let n := round_half_even (Qabs x * 1000) in
  let digits := pretty (n mod 1000) in
  let pad := of_chars (replicate (3 - String.length digits) "0"%char) in
  (if decide (Qcompare x 0 = Lt) then "-" else "") +:+ pretty (n / 1000) +:+ "." +:+ pad +:+ digits.

(** ** Collecting the results *)

Inductive status : Type := PASS | FAIL | VALGR | CRASH | SKIP.
#[export] Instance status_eq_dec : EqDecision status.
Proof. solve_decision. Defined.

Definition show_status (s : status) : string :=
  match s with
  | PASS => "PASS" | FAIL => "FAIL" | VALGR => "VALGR" | CRASH => "CRASH" | SKIP => "SKIP"
  end.
Definition status_color (s : status) : string :=
  match s with
  | PASS => "GREEN" | FAIL => "RED" | VALGR => "CYAN" | CRASH => "PINK" | SKIP => "GREY"
  end.
Definition status_of (j : job) : status :=
  if is_skip j then SKIP
  else if decide (returncode j = 0) then PASS
  else if decide (returncode j = 1) then FAIL
  else if decide (returncode j = 2) then VALGR
  else CRASH.

Record tally : Type := Tally {
  passed_tests : Z;
  failed_tests : Z; failed_testnames : list string;
  crashed_tests : Z; crashed_testnames : list string;
  valgrind_errors : Z; valgrind_testnames : list string;
  skipped_tests : Z; skipped_testnames : list string;
}.
Definition new_tally : tally := Tally 0 0 [] 0 [] 0 [] 0 [].

(** The counters and the lists of names. *)
Definition count (t : tally) (j : job) : tally :=
  let '(Tally p f fn c cn v vn s sn) := t in
  match status_of j with
  | SKIP => Tally p f fn c cn v vn (s + 1)
              (sn ++ [display_name j +:+ " (" +:+ skip_reason j +:+ ")"])
  | PASS => Tally (p + 1) f fn c cn v vn s sn
  | FAIL => Tally p (f + 1) (fn ++ [display_name j]) c cn v vn s sn
  | VALGR => Tally p f fn c cn (v + 1) (vn ++ [display_name j]) s sn
  | CRASH => Tally p f fn (c + 1) (cn ++ [display_name j]) v vn s sn
  end.

(** [open(f, 'a')] and its writes. *)
Definition append (f : string) (s : string) : io unit := λ st,
  (Fs (stdout st) (<[f := default "" (files st !! f) +:+ s]> (files st)), Ok tt).
Definition read_file (f : string) : io string := λ st,
  (st, match files st !! f with Some c => Ok c | None => Err FileNotFoundError end).

Definition example_entry (j : job) : string :=
  "<Example>" +:+ nl
  +:+ "  <Name>" +:+ display_name j +:+ "</Name>" +:+ nl
  +:+ "  <Result>" +:+ show_status (status_of j) +:+ "</Result>" +:+ nl
  +:+ "  <Time real=" +:+ dq +:+ fmt3 (elapsed_time j) +:+ dq +:+ "/>" +:+ nl
  +:+ "</Example>" +:+ nl.
Definition skip_entry (j : job) : string :=
  "<Test>" +:+ nl
  +:+ "  <Name>" +:+ display_name j +:+ "</Name>" +:+ nl
  +:+ "  <Result>SKIP</Result>" +:+ nl
  +:+ "  <Reason>" +:+ skip_reason j +:+ "</Reason>" +:+ nl
  +:+ "</Test>" +:+ nl.
Definition crash_entry (j : job) : string :=
  "<Test>" +:+ nl
  +:+ "  <Name>" +:+ display_name j +:+ "</Name>" +:+ nl
  +:+ "  <Result>CRASH</Result>" +:+ nl
  +:+ "</Test>" +:+ nl.

Section collect.
Context (options : options_t) (use_colors : bool).

(** What is appended to the XML results file for a job. *)
Definition record_result (xml_results_file : string) (j : job) : io unit :=
  if is_example j || is_pyexample j then append xml_results_file (example_entry j)
  else if is_skip j then append xml_results_file (skip_entry j)
  else if decide (returncode j = 0 ∨ returncode j = 1 ∨ returncode j = 2) then
    _ ← append xml_results_file "";
    content ← read_file (tmp_file_name j);
    append xml_results_file content
  else append xml_results_file (crash_entry j).

Definition progress (total_tests : Z) (t : tally) (j : job) : string :=
  let kind := if is_example j || is_pyexample j then "Example" else "TestSuite" in
  let status_print := get_color use_colors (status_color (status_of j))
                      +:+ show_status (status_of j) +:+ get_color use_colors "NORMAL" in
  "[" +:+ pretty (passed_tests t + failed_tests t + skipped_tests t + crashed_tests t)
  +:+ "/" +:+ pretty total_tests +:+ "] "
  +:+ (if opt_duration options || bool_decide (opt_constrain options = "performance") then
         status_print +:+ " (" +:+ fmt3 (elapsed_time j) +:+ "): " +:+ kind +:+ " " +:+ display_name j
       else status_print +:+ ": " +:+ kind +:+ " " +:+ display_name j)
  +:+ nl.

(** One pass of [for i in range(jobs)] with the job taken from the queue. *)
Definition collect_job (xml_results_file : string) (total_tests : Z) (t : tally) (j : job)
    : io tally :=
  if is_break j then mret t
  else
    let t := count t j in
    _ ← print (progress total_tests t j);
    _ ← record_result xml_results_file j;
    mret t.
Fixpoint collect (xml_results_file : string) (total_tests : Z) (t : tally) (js : list job)
    : io tally :=
  match js with
  | [] => mret t
  | j :: js => t ← collect_job xml_results_file total_tests t j;
               collect xml_results_file total_tests t js
  end.

(** ** The summary and the return code *)

Definition show_names (what : string) (names : list string) : string :=
  match names with
  | [] => ""
  | _ => "List of " +:+ what +:+ ":" +:+ nl +:+ "    "
         +:+ join (nl +:+ "    ") (sort_strings names) +:+ nl
  end.
Definition summary (total_tests : Z) (t : tally) : string :=
  pretty (passed_tests t) +:+ " of " +:+ pretty total_tests +:+ " tests passed ("
  +:+ pretty (passed_tests t) +:+ " passed, " +:+ pretty (skipped_tests t) +:+ " skipped, "
  +:+ pretty (failed_tests t) +:+ " failed, " +:+ pretty (crashed_tests t) +:+ " crashed, "
  +:+ pretty (valgrind_errors t) +:+ " valgrind errors)" +:+ nl
  +:+ show_names "SKIPped tests" (skipped_testnames t)
  +:+ show_names "FAILed tests" (failed_testnames t)
  +:+ show_names "CRASHed tests" (crashed_testnames t)
  +:+ show_names "VALGR failures" (valgrind_testnames t).

Definition return_code (total_tests : Z) (t : tally) : Z :=
  if decide (passed_tests t + skipped_tests t = total_tests) then 0 else 1.
End collect.

Definition notes (enable_tests enable_examples valgrind valgrind_found : bool) : string :=
  (if negb enable_tests || negb enable_examples then
     nl
     +:+ (if enable_tests then "" else
            "***  Note: ns-3 tests are currently disabled. Enable them by adding" +:+ nl
            +:+ "***  " +:+ dq +:+ "--enable-tests" +:+ dq
            +:+ " to ./waf configure or modifying your .ns3rc file." +:+ nl +:+ nl)
     +:+ (if enable_examples then "" else
            "***  Note: ns-3 examples are currently disabled. Enable them by adding" +:+ nl
            +:+ "***  " +:+ dq +:+ "--enable-examples" +:+ dq
            +:+ " to ./waf configure or modifying your .ns3rc file." +:+ nl +:+ nl)
   else "")
  +:+ (if valgrind && negb valgrind_found then
         nl +:+ "***  Note: you are trying to use valgrind, but valgrind could not be found" +:+ nl
         +:+ "***  on your machine.  All tests and examples will crash or be skipped." +:+ nl +:+ nl
       else "").

(** [shutil.rmtree]: the files below a directory go. *)
Definition rmtree (dir : string) : io unit := λ st,
  (Fs (stdout st) (filter (λ kv, startswith kv.1 (dir +:+ "/") = false) (files st)), Ok tt).

(** From the first result to the return code: the jobs [js] come back from the
    output queue in this order. *)
Definition finish_run (parse_xml : string → res element) (options : options_t) (use_colors : bool)
    (enable_tests enable_examples valgrind_found : bool)
    (testpy_output_dir xml_results_file : string) (total_tests : Z) (t : tally) (js : list job)
    : io Z :=
  t ← collect options use_colors xml_results_file total_tests t js;
  _ ← append xml_results_file ("</Results>" +:+ nl);
  _ ← print (summary total_tests t);
  _ ← (if decide (opt_html options = "" ∧ opt_text options = "" ∧ opt_xml options = "")
       then mret () else print nl);
  _ ← (if decide (opt_html options = "") then mret ()
       else translate_to_html parse_xml xml_results_file (opt_html options));
  _ ← (if decide (opt_text options = "") then mret ()
       else translate_to_text parse_xml xml_results_file (opt_text options));
  _ ← (if decide (opt_xml options = "") then mret ()
       else
         let xml_file := opt_xml options +:+ ".xml" in
         _ ← print ("Writing results to xml file " +:+ xml_file +:+ "...");
         _ ← (if decide (xml_file = xml_results_file) then throw (PyException "SameFileError")
              else mret ());
         content ← read_file xml_results_file;
         _ ← open_w xml_file;
         _ ← append xml_file content;
         print ("done." +:+ nl));
  _ ← print (notes enable_tests enable_examples (opt_valgrind options) valgrind_found);
  _ ← (if opt_retain options then mret () else rmtree testpy_output_dir);
  mret (return_code total_tests t).

Example fmt3_ties : (fmt3 (1 # 16), fmt3 (3 # 16), fmt3 (-5), fmt3 (12345 # 10000)) =
  ("0.062", "0.188", "-5.000", "1.234").
Proof. vm_compute. reflexivity. Qed.

(** ** What a worker makes of a job *)

Section run_spec.
Context (popen : string → string → res process) (options : options_t) (cfg : config).

Abbreviation yields m r := (∀ st, (m st).2 = r).

Lemma yields_bind {A B} (m : io A) (k : A → io B) a r :
  yields m (Ok a) → yields (k a) r → yields (m ≫= k) r.
Proof.
  intros Hm Hk st. unfold mbind, eff_bind. specialize (Hm st). destruct (m st) as [st' x].
  simpl in Hm. by rewrite Hm.
Qed.
Lemma yields_raise {A B} (m : io A) (k : A → io B) e :
  yields m (Err e) → yields (m ≫= k) (Err e).
Proof.
  intros Hm st. unfold mbind, eff_bind. specialize (Hm st). destruct (m st) as [st' x].
  simpl in Hm. by rewrite Hm.
Qed.
Lemma yields_verbosely s : yields (verbosely options s) (Ok tt).
Proof. intros st. unfold verbosely. by case_match. Qed.
Lemma yields_decode c what cmd rc :
  yields (decode c what cmd rc) (Ok (if decodable c then rc else 1)).
Proof. intros st. unfold decode. by destruct (decodable c). Qed.

(** The command line of a job and the arguments of its process. *)
Definition command_of (j : job) : res string :=
  if is_example j || is_pyexample j then
    job_command cfg (shell_command j) (opt_valgrind options) (is_pyexample j) (build_path j)
  else
    job_command cfg
      (shell_command j +:+ " --xml --tempdir=" +:+ tempdir j +:+ " --out=" +:+ tmp_file_name j +:+ " "
       +:+ (if opt_update_data options then "--update-data" else ""))
      (opt_valgrind options) false "".
(** The job with the return code and the duration of its process; output that
    does not decode counts as return code 1. *)
Definition finish (j : job) : res job :=
  cmd ← command_of j;
  proc ← popen cmd (cwd j);
  Ok (set_elapsed_time (proc_elapsed proc)
       (set_returncode
          (if decodable (proc_stdout proc) && decodable (proc_stderr proc)
           then proc_returncode proc else 1) j)).

Lemma finish_kind j j' :
  finish j = Ok j' → is_skip j' = is_skip j ∧ is_break j' = is_break j.
Proof.
  unfold finish. destruct (command_of j) as [cmd|]; [|done]. simpl.
  destruct (popen cmd (cwd j)); [|done]. simpl. by intros [= <-].
Qed.

Lemma run_job_yields shell_command directory valgrind is_python build_path :
  yields (run_job_synchronously popen options cfg shell_command directory valgrind is_python build_path)
    (cmd ← job_command cfg shell_command valgrind is_python build_path;
     proc ← popen cmd directory;
     Ok (if decodable (proc_stdout proc) && decodable (proc_stderr proc)
         then proc_returncode proc else 1, proc_stdout proc, proc_stderr proc, proc_elapsed proc)).
Proof.
  unfold run_job_synchronously.
  destruct (job_command _ _ _ _ _) as [cmd|e]; [|by apply yields_raise].
  eapply yields_bind; [done|]. eapply yields_bind; [apply yields_verbosely|]. simpl.
  destruct (popen cmd directory) as [proc|e]; [|by apply yields_raise].
  eapply yields_bind; [done|]. eapply (yields_bind _ _ tt); [done|].
  eapply yields_bind; [apply yields_decode|]. eapply yields_bind; [apply yields_decode|].
  eapply yields_bind; [apply yields_verbosely|]. eapply yields_bind; [apply yields_verbosely|].
  intros st. simpl. by destruct (decodable (proc_stdout proc)), (decodable (proc_stderr proc)).
Qed.

(** What comes back from a worker's pass does not depend on the verbosity
    or on the files: nothing for a break job; the job marked as a break after a
    SIGINT; a skipped job as it is; otherwise the job with the return code and
    the duration of its process. *)
Theorem worker_pass_result thread_exit j st :
  (worker_pass popen options cfg thread_exit j st).2 =
  if is_break j then Ok None
  else if thread_exit then Ok (Some (set_is_break true j))
  else if is_skip j then Ok (Some j)
  else Some <$> finish j.
Proof.
  unfold worker_pass. destruct (is_break j); [done|]. destruct thread_exit; [done|].
  destruct (is_skip j).
  { revert st. eapply yields_bind; [apply yields_verbosely|]. done. }
  revert st. eapply yields_bind; [apply yields_verbosely|].
  assert (yields (if is_example j || is_pyexample j then
       run_job_synchronously popen options cfg (shell_command j) (cwd j) (opt_valgrind options)
         (is_pyexample j) (build_path j)
     else
       run_job_synchronously popen options cfg
         (shell_command j +:+ " --xml --tempdir=" +:+ tempdir j +:+ " --out=" +:+ tmp_file_name j
          +:+ " " +:+ (if opt_update_data options then "--update-data" else ""))
         (cwd j) (opt_valgrind options) false "")
    (cmd ← command_of j;
     proc ← popen cmd (cwd j);
     Ok (if decodable (proc_stdout proc) && decodable (proc_stderr proc)
         then proc_returncode proc else 1, proc_stdout proc, proc_stderr proc, proc_elapsed proc)))
    as Hrun.
  { unfold command_of. destruct (_ || _); apply run_job_yields. }
  unfold finish. destruct (command_of j) as [cmd|e]; simpl in *; [|by apply yields_raise].
  destruct (popen cmd (cwd j)) as [proc|e]; simpl in *; [|by apply yields_raise].
  eapply yields_bind; [exact Hrun|]. cbn beta iota.
  repeat (eapply yields_bind; [apply yields_verbosely|]). done.
Qed.
End run_spec.

(** ** The counters *)

Definition tally_of (js : list job) : tally :=
  foldl count new_tally (filter (λ j, is_break j = false) js).
Definition with_status (s : status) (js : list job) : list job :=
  filter (λ j, is_break j = false ∧ status_of j = s) js.

Lemma count_step t j :
  count t j =
  Tally (passed_tests t + (if decide (status_of j = PASS) then 1 else 0))
    (failed_tests t + (if decide (status_of j = FAIL) then 1 else 0))
    (failed_testnames t ++ if decide (status_of j = FAIL) then [display_name j] else [])
    (crashed_tests t + (if decide (status_of j = CRASH) then 1 else 0))
    (crashed_testnames t ++ if decide (status_of j = CRASH) then [display_name j] else [])
    (valgrind_errors t + (if decide (status_of j = VALGR) then 1 else 0))
    (valgrind_testnames t ++ if decide (status_of j = VALGR) then [display_name j] else [])
    (skipped_tests t + (if decide (status_of j = SKIP) then 1 else 0))
    (skipped_testnames t ++ if decide (status_of j = SKIP)
                            then [display_name j +:+ " (" +:+ skip_reason j +:+ ")"] else []).
Proof.
  destruct t as [p f fn c cn v vn s sn]. unfold count.
  by destruct (status_of j); simpl; rewrite ?Z.add_0_r, ?app_nil_r.
Qed.

(** Each counter is the number of the jobs with its status; the names are theirs. *)
Definition number (s : status) (js : list job) : Z := Z.of_nat (length (with_status s js)).
Definition skip_name (j : job) : string := display_name j +:+ " (" +:+ skip_reason j +:+ ")".
Lemma tally_of_spec js :
  tally_of js =
  Tally (number PASS js)
    (number FAIL js) (display_name <$> with_status FAIL js)
    (number CRASH js) (display_name <$> with_status CRASH js)
    (number VALGR js) (display_name <$> with_status VALGR js)
    (number SKIP js) (skip_name <$> with_status SKIP js).
Proof.
  unfold tally_of, number, with_status. induction js as [|j js IH] using rev_ind; [done|].
  rewrite !filter_app, !filter_cons, !filter_nil.
  destruct (decide (is_break j = false)) as [Hb|Hb].
  - rewrite foldl_app, IH. cbn [foldl]. rewrite count_step. simpl.
    rewrite !fmap_app, !length_app, !Nat2Z.inj_add.
    assert (∀ s, (if decide (is_break j = false ∧ status_of j = s) then [j] else []) =
                 if decide (status_of j = s) then [j] else []) as Hs.
    { intros s. destruct (decide (status_of j = s)); [by rewrite decide_True|].
      rewrite decide_False; naive_solver. }
    rewrite !Hs. destruct (status_of j); simpl; by rewrite ?Z.add_0_r, ?app_nil_r.
  - rewrite app_nil_r, IH.
    assert (∀ s, (if decide (is_break j = false ∧ status_of j = s) then [j] else []) = []) as Hnil
      by (intros s; rewrite decide_False; naive_solver).
    by rewrite !Hnil, !app_nil_r.
Qed.

Definition ok_job (j : job) : Prop := is_break j = false ∧ (is_skip j = true ∨ returncode j = 0).

Lemma status_ok j : is_skip j = true ∨ returncode j = 0 ↔ status_of j = PASS ∨ status_of j = SKIP.
Proof.
  unfold status_of. destruct (is_skip j); [naive_solver|]. repeat case_decide; naive_solver.
Qed.

Lemma with_status_cons s j js :
  with_status s (j :: js) =
  if decide (is_break j = false ∧ status_of j = s) then j :: with_status s js else with_status s js.
Proof.
  unfold with_status. destruct (decide (is_break j = false ∧ status_of j = s)) as [Hs|Hs].
  - by rewrite filter_cons_True.
  - by rewrite filter_cons_False.
Qed.

Lemma return_code_zero_iff js :
  return_code (Z.of_nat (length js)) (tally_of js) = 0 ↔ Forall ok_job js.
Proof.
  rewrite tally_of_spec. unfold return_code. simpl.
  assert (number PASS js + number SKIP js ≤ Z.of_nat (length js) ∧
    (number PASS js + number SKIP js = Z.of_nat (length js) ↔ Forall ok_job js)) as [_ Hiff].
  { unfold number. induction js as [|j js [IHle IH]]; [split; [simpl; lia|split; [constructor|done]]|].
    rewrite !with_status_cons, Forall_cons, <-IH. unfold ok_job at 1. rewrite status_ok.
    destruct (decide (is_break j = false ∧ status_of j = PASS)) as [Hp|Hp];
      destruct (decide (is_break j = false ∧ status_of j = SKIP)) as [Hs|Hs]; simpl length;
      [naive_solver congruence|..]; (split; [lia|]); split; intros; try split; try lia; naive_solver lia. }
  case_decide; naive_solver.
Qed.

(** [run_tests] returns 0 if and only if every job came back, and passed
    or was skipped. *)
Theorem return_code_zero js :
  return_code (Z.of_nat (length js)) (tally_of js) = 0 ↔ Forall ok_job js.
Proof. apply return_code_zero_iff. Qed.

Lemma with_status_perm s js js' : js ≡ₚ js' → with_status s js ≡ₚ with_status s js'.
Proof. intros Hjs. unfold with_status. by rewrite Hjs. Qed.

#[export] Instance show_names_proper what : Proper ((≡ₚ) ==> (=)) (show_names what).
Proof.
  intros l k Hlk. unfold show_names.
  destruct l as [|x l]; [by apply Permutation_nil_l in Hlk; subst|].
  destruct k as [|y k]; [by apply Permutation_nil_r in Hlk|]. by rewrite Hlk.
Qed.

Lemma tally_perm total js js' :
  js ≡ₚ js' →
  summary total (tally_of js) = summary total (tally_of js') ∧
  return_code total (tally_of js) = return_code total (tally_of js').
Proof.
  intros Hjs. pose proof (λ s, with_status_perm s _ _ Hjs) as Hs.
  assert (∀ s, number s js = number s js') as Hn by (intros s; unfold number; by rewrite (Hs s)).
  rewrite !tally_of_spec. unfold summary, return_code. simpl. rewrite !Hn.
  by rewrite (Hs FAIL), (Hs CRASH), (Hs VALGR), (Hs SKIP).
Qed.

(** The summary printed and the return code do not depend on the order in
    which the results come back. *)
Theorem summary_order total js js' :
  js ≡ₚ js' →
  summary total (tally_of js) = summary total (tally_of js') ∧
  return_code total (tally_of js) = return_code total (tally_of js').
Proof. apply tally_perm. Qed.

(** ** The XML results file *)

Definition is_suite (j : job) : bool := negb (is_example j || is_pyexample j).
(** The suites whose own XML file is copied. *)
Definition copied (j : job) : Prop :=
  is_break j = false ∧ is_suite j = true ∧ is_skip j = false ∧
  (returncode j = 0 ∨ returncode j = 1 ∨ returncode j = 2).
Definition entry (fs : gmap string string) (j : job) : string :=
  if is_break j then ""
  else if is_suite j then
    if is_skip j then skip_entry j
    else if decide (returncode j = 0 ∨ returncode j = 1 ∨ returncode j = 2)
    then default "" (fs !! tmp_file_name j)
    else crash_entry j
  else example_entry j.

Lemma append_some f s st c :
  files st !! f = Some c → append f s st = (Fs (stdout st) (<[f := c +:+ s]> (files st)), Ok tt).
Proof. intros Hc. unfold append. by rewrite Hc. Qed.

Lemma record_result_spec xml j st c :
  files st !! xml = Some c → is_break j = false →
  (copied j → is_Some (files st !! tmp_file_name j) ∧ tmp_file_name j ≠ xml) →
  record_result xml j st =
  (Fs (stdout st) (<[xml := c +:+ entry (files st) j]> (files st)), Ok tt).
Proof.
  intros Hc Hb Hcopy. destruct st as [o m]. simpl in *. unfold record_result, entry, is_suite.
  rewrite Hb. destruct (is_example j || is_pyexample j) eqn:Hex; simpl; [by apply append_some|].
  destruct (is_skip j) eqn:Hsk; [by apply append_some|].
  case_decide as Hrc; [|by apply append_some].
  destruct Hcopy as [[content Hf] Hne].
  { unfold copied, is_suite. by rewrite Hex. }
  unfold mbind, eff_bind. rewrite (append_some _ _ _ c) by done. simpl.
  unfold read_file. simpl. rewrite lookup_insert_ne, Hf by done.
  rewrite (append_some _ _ _ (c +:+ "")) by apply lookup_insert_eq. simpl.
  by rewrite insert_insert_eq, append_nil_r.
Qed.

Lemma collect_run options use_colors xml total js st old :
  files st !! xml = Some old →
  (∀ j, j ∈ js → copied j → is_Some (files st !! tmp_file_name j) ∧ tmp_file_name j ≠ xml) →
  ∃ out, collect options use_colors xml total new_tally js st =
    (Fs (stdout st +:+ out) (<[xml := old +:+ cat (entry (files st) <$> js)]> (files st)),
     Ok (tally_of js)).
Proof.
  unfold tally_of. generalize new_tally as t. revert st old.
  induction js as [|j js IH]; intros [o m] old t Hold Hfiles; simpl in *.
  { exists "". by rewrite !append_nil_r, insert_id. }
  unfold mbind, eff_bind. unfold collect_job. destruct (is_break j) eqn:Hb.
  - simpl. destruct (IH (Fs o m) old t Hold) as [out Hout]; [intros; apply Hfiles; [by right|done]|].
    exists out. rewrite Hout. simpl. unfold entry at 2. rewrite Hb.
    rewrite filter_cons_False by (by rewrite Hb). done.
  - unfold mbind, eff_bind, print. simpl.
    rewrite (record_result_spec _ _ _ old);
      [|done|done|intros Hc; apply (Hfiles j); [left|done]]. simpl.
    edestruct (IH (Fs (o +:+ progress options use_colors total (count t j) j)
      (<[xml := old +:+ entry m j]> m)) (old +:+ entry m j) (count t j)) as [out Hout].
    { apply lookup_insert_eq. }
    { intros j' Hj' Hc. simpl. destruct (Hfiles j') as [??]; [by right|done|].
      by rewrite lookup_insert_ne. }
    exists (progress options use_colors total (count t j) j +:+ out). rewrite Hout. simpl.
    rewrite insert_insert_eq, !append_assoc, filter_cons_True by done.
    assert (entry (<[xml := old +:+ entry m j]> m) <$> js = entry m <$> js) as ->; [|done].
    apply list_fmap_ext. intros i j' Hj'%list_elem_of_lookup_2. unfold entry.
    destruct (is_break j') eqn:Hb'; [done|]. destruct (is_suite j') eqn:Hs; [|done].
    destruct (is_skip j') eqn:Hsk; [done|]. case_decide as Hrc; [|done].
    destruct (Hfiles j') as [_ Hne]; [by right|done|]. by rewrite lookup_insert_ne.
Qed.

(** What the results file should say of a job, and which jobs a counter should
    count: written from the return codes, without [status_of] and [count]. *)
Definition tagged (tag text : string) : string := "<" +:+ tag +:+ ">" +:+ text +:+ "</" +:+ tag +:+ ">".
Definition result_name (j : job) : string :=
  if is_skip j then "SKIP"
  else match returncode j with 0 => "PASS" | 1 => "FAIL" | 2 => "VALGR" | _ => "CRASH" end.
Definition xml_lines (tag : string) (fields : list string) : string :=
  cat ((λ l, l +:+ nl) <$> ["<" +:+ tag +:+ ">"] ++ ((λ l, "  " +:+ l) <$> fields) ++ ["</" +:+ tag +:+ ">"]).
Definition expected_entry (fs : gmap string string) (j : job) : string :=
  if is_break j then ""
  else if is_example j || is_pyexample j then
    xml_lines "Example" [tagged "Name" (display_name j); tagged "Result" (result_name j);
                         "<Time real=" +:+ dq +:+ fmt3 (elapsed_time j) +:+ dq +:+ "/>"]
  else if is_skip j then
    xml_lines "Test" [tagged "Name" (display_name j); tagged "Result" "SKIP";
                      tagged "Reason" (skip_reason j)]
  else match fs !! tmp_file_name j with
       | Some content => if decide (0 ≤ returncode j ≤ 2) then content
                         else xml_lines "Test" [tagged "Name" (display_name j); tagged "Result" "CRASH"]
       | None => xml_lines "Test" [tagged "Name" (display_name j); tagged "Result" "CRASH"]
       end.
(** The jobs that came back and were run, with a return code in [P]. *)
Definition ran (P : Z → Prop) `{!∀ z, Decision (P z)} (js : list job) : list job :=
  filter (λ j, is_break j = false ∧ is_skip j = false ∧ P (returncode j)) js.
Definition left_out (js : list job) : list job :=
  filter (λ j, is_break j = false ∧ is_skip j = true) js.

Lemma with_status_ran s P `{!∀ z, Decision (P z)} js :
  s ≠ SKIP → (∀ j, is_skip j = false → status_of j = s ↔ P (returncode j)) →
  with_status s js = ran P js.
Proof.
  intros Hs HP. apply list_filter_iff. intros j. specialize (HP j). unfold status_of in *.
  destruct (is_skip j); naive_solver.
Qed.
Lemma with_status_skip js : with_status SKIP js = left_out js.
Proof.
  apply list_filter_iff. intros j. unfold status_of. destruct (is_skip j); repeat case_decide; naive_solver.
Qed.
Lemma tally_of_ran js :
  tally_of js =
  Tally (Z.of_nat (length (ran (λ r, r = 0) js)))
    (Z.of_nat (length (ran (λ r, r = 1) js))) (display_name <$> ran (λ r, r = 1) js)
    (Z.of_nat (length (ran (λ r, r < 0 ∨ 2 < r) js))) (display_name <$> ran (λ r, r < 0 ∨ 2 < r) js)
    (Z.of_nat (length (ran (λ r, r = 2) js))) (display_name <$> ran (λ r, r = 2) js)
    (Z.of_nat (length (left_out js)))
    ((λ j, display_name j +:+ " (" +:+ skip_reason j +:+ ")") <$> left_out js).
Proof.
  rewrite tally_of_spec. unfold number. rewrite with_status_skip.
  rewrite !(with_status_ran PASS (λ r, r = 0)), !(with_status_ran FAIL (λ r, r = 1)),
    !(with_status_ran VALGR (λ r, r = 2)), !(with_status_ran CRASH (λ r, r < 0 ∨ 2 < r)); try done;
    intros j Hj; unfold status_of; rewrite Hj; repeat case_decide; split; intros; try done; lia.
Qed.
Lemma entry_expected fs j : (copied j → is_Some (fs !! tmp_file_name j)) → entry fs j = expected_entry fs j.
Proof.
  unfold copied, entry, expected_entry, is_suite. intros Hc.
  destruct (is_break j); [done|]. destruct (is_example j || is_pyexample j) eqn:Hex; cbn [negb].
  - unfold example_entry, result_name, status_of, xml_lines, tagged. simpl.
    rewrite !append_assoc. simpl. rewrite !append_nil_r.
    destruct (is_skip j); [done|]. repeat case_decide; simplify_eq/=; try done.
    + by rewrite H.
    + by rewrite H0.
    + by rewrite H1.
    + by destruct (returncode j) as [|[[]|[]|]|].
  - destruct (is_skip j).
    { unfold skip_entry, xml_lines, tagged. simpl. rewrite !append_assoc. simpl. by rewrite !append_nil_r. }
    assert (crash_entry j = xml_lines "Test" [tagged "Name" (display_name j); tagged "Result" "CRASH"])
      as Hcrash.
    { unfold crash_entry, xml_lines, tagged. simpl. rewrite !append_assoc. simpl. by rewrite !append_nil_r. }
    rewrite <-!Hcrash. case_decide as Hr.
    + destruct Hc as [content ->]; [done|]. rewrite decide_True by lia. done.
    + case_match; [|done]. rewrite decide_False by lia. done.
Qed.


Lemma return_code_zero_witness :
  return_code 2 (tally_of [set_is_skip true new_job; new_job]) = 0.
Proof. apply (return_code_zero [set_is_skip true new_job; new_job]). by repeat constructor; left || right. Defined.

Lemma summary_order_witness :
  let a := set_display_name "a" (set_returncode 1 new_job) in
  let b := set_display_name "b" (set_returncode 1 new_job) in
  [a; b] ≡ₚ [b; a] ∧ summary 2 (tally_of [a; b]) = summary 2 (tally_of [b; a]).
Proof.
  intros a b. assert ([a; b] ≡ₚ [b; a]) as Hp by apply Permutation_swap.
  split; [exact Hp|]. exact (proj1 (summary_order 2 [a; b] [b; a] Hp)).
Defined.

