(* ===== verification/TestWorkers.v ===== *)
(** * test.py: the main thread, the worker threads and their queues
    The threads of [run_tests] as a transition system.  The main thread puts
    the jobs and one break job per worker into [input_queue], takes as many
    results from [output_queue] as it put jobs, and joins the workers; each
    worker is a [worker_thread].  Every step is one queue operation, one test
    of [thread_exit], or one run of a job; a SIGINT can come at any time.
    What running a job does is a parameter: the job with its result, or the
    exception that ends the thread. *)
From S2P Require Import Prelude PyStr PyXml TestReport TestJobs.
#[local] Open Scope nat_scope.

Inductive worker : Type :=
| Waiting            (** in [input_queue.get()] *)
| Got (j : job)      (** about to test [thread_exit] *)
| Running (j : job)
| Ended              (** returned after a break job *)
| Died.              (** ended by an exception; its job is lost *)

Inductive main_thread : Type :=
| Dispatching (todo : list job)
| Collecting (left : nat)
| Joining
| Finished.

Record threads : Type := Threads {
  main : main_thread;
  input_queue : list job;
  output_queue : list job;
  workers : list worker;
  thread_exit : bool;
  collected : list job;
}.

Definition break_job : job := set_is_break true new_job.

Section workers.
(** The jobs dispatched, the number of workers, and the run of a job. *)
Context (jobs : list job) (processors : nat) (run : job → res job).

Definition start : threads :=
  Threads (Dispatching (jobs ++ replicate processors break_job)) [] []
    (replicate processors Waiting) false [].

(** A worker after [input_queue.get()] returned [j]. *)
Definition receive (j : job) : worker := if is_break j then Ended else Got j.

(** The steps of worker [i] in state [w]: its next state and what it puts into
    [output_queue]. *)
Inductive worker_step (exit : bool) : worker → worker → list job → Prop :=
| WBreak j : exit = true → worker_step exit (Got j) Waiting [set_is_break true j]
| WSkip j : exit = false → is_skip j = true → worker_step exit (Got j) Waiting [j]
| WLaunch j : exit = false → is_skip j = false → worker_step exit (Got j) (Running j) []
| WDone j j' : run j = Ok j' → worker_step exit (Running j) Waiting [j']
| WRaise j e : run j = Err e → worker_step exit (Running j) Died [].

Inductive step : threads → threads → Prop :=
| SPut j todo i o ws x c :
    step (Threads (Dispatching (j :: todo)) i o ws x c)
         (Threads (Dispatching todo) (i ++ [j]) o ws x c)
| SDispatched i o ws x c :
    step (Threads (Dispatching []) i o ws x c)
         (Threads (Collecting (length jobs)) i o ws x c)
| SCollect n i j o ws x c :
    step (Threads (Collecting (S n)) i (j :: o) ws x c)
         (Threads (Collecting n) i o ws x (c ++ [j]))
| SCollected i o ws x c :
    step (Threads (Collecting 0) i o ws x c) (Threads Joining i o ws x c)
| SJoin i o ws x c :
    Forall (λ w, w = Ended ∨ w = Died) ws →
    step (Threads Joining i o ws x c) (Threads Finished i o ws x c)
| SGet m j i o ws x c k :
    ws !! k = Some Waiting →
    step (Threads m (j :: i) o ws x c) (Threads m i o (<[k := receive j]> ws) x c)
| SWork m i o ws x c k w w' put :
    ws !! k = Some w → worker_step x w w' put →
    step (Threads m i o ws x c) (Threads m i (o ++ put) (<[k := w']> ws) x c)
| SSigint m i o ws c :
    step (Threads m i o ws false c) (Threads m i o ws true c).

(** ** What happened to every job *)

(** A job comes back with its result, or with [is_break] after a SIGINT. *)
Inductive outcome (exit : bool) (j : job) : job → Prop :=
| OInterrupted : exit = true → outcome exit j (set_is_break true j)
| OSkipped : is_skip j = true → outcome exit j j
| ORan j' : is_skip j = false → run j = Ok j' → outcome exit j j'.

Definition in_hand (w : worker) : list job :=
  match w with Got j | Running j => [j] | _ => [] end.
Definition held (ws : list worker) : list job := ws ≫= in_hand.
Definition todo_of (m : main_thread) : list job :=
  match m with Dispatching todo => todo | _ => [] end.
(** The results the main thread has still to take. *)
Definition left_of (m : main_thread) : nat :=
  match m with Dispatching _ => length jobs | Collecting n => n | _ => 0 end.
Definition count_workers (p : worker → bool) (ws : list worker) : nat := length (filter p ws).
Definition is_died (w : worker) : bool := match w with Died => true | _ => false end.
Definition is_ended (w : worker) : bool := match w with Ended => true | _ => false end.

(** The invariant: [js] are the jobs still queued, [n] the break jobs still
    queued, [lost] the jobs of the workers that died, and [origs] the jobs as
    they were dispatched whose results are in [collected ++ output_queue]. *)
Record inv (s : threads) (js : list job) (n : nat) (lost origs : list job) : Prop := {
  inv_queue : input_queue s ++ todo_of (main s) = js ++ replicate n break_job;
  inv_breaks : n + count_workers is_ended (workers s) = processors;
  inv_outcome : Forall2 (outcome (thread_exit s)) origs (collected s ++ output_queue s);
  inv_jobs : origs ++ lost ++ held (workers s) ++ js ≡ₚ jobs;
  inv_lost : length lost = count_workers is_died (workers s);
  inv_raised : Forall (λ j, is_skip j = false ∧ ∃ e, run j = Err e) lost;
  inv_workers : length (workers s) = processors;
  inv_last : 0 < count_workers is_ended (workers s) → js = [];
  inv_left : length (collected s) + left_of (main s) = length jobs;
  inv_running : ∀ j, Running j ∈ workers s → is_skip j = false;
}.
Definition invariant (s : threads) : Prop := ∃ js n lost origs, inv s js n lost origs.

(** None of the dispatched jobs is a break job. *)
Hypothesis no_breaks : Forall (λ j, is_break j = false) jobs.

Lemma held_insert ws k w w' :
  ws !! k = Some w → in_hand w ++ held (<[k := w']> ws) ≡ₚ in_hand w' ++ held ws.
Proof.
  intros Hk. unfold held. rewrite <-(take_drop_middle _ _ _ Hk) at 2.
  rewrite insert_take_drop by (by eapply lookup_lt_Some).
  rewrite !bind_app, !bind_cons. solve_Permutation.
Qed.

Lemma count_insert p ws k w w' :
  ws !! k = Some w →
  count_workers p (<[k := w']> ws) + (if p w then 1 else 0) =
  count_workers p ws + (if p w' then 1 else 0).
Proof.
  intros Hk. unfold count_workers. rewrite <-(take_drop_middle _ _ _ Hk) at 2.
  rewrite insert_take_drop by (by eapply lookup_lt_Some).
  rewrite !filter_app, !length_app, !filter_cons.
  destruct (p w) eqn:Hw, (p w') eqn:Hw'; simpl; repeat case_decide; simpl; try congruence; lia.
Qed.

Lemma outcome_mono j j' : outcome false j j' → outcome true j j'.
Proof. destruct 1; [done|by apply OSkipped|by apply ORan]. Qed.

Lemma outcome_interrupt exit origs l :
  Forall2 (outcome exit) origs l → Forall2 (outcome true) origs l.
Proof. intros Hl. destruct exit; [done|]. eapply Forall2_impl; [done|apply outcome_mono]. Qed.

Lemma inv_nonbreak s js n lost origs j :
  inv s js n lost origs → j ∈ js ++ held (workers s) → is_break j = false.
Proof.
  intros Hinv Hj. rewrite Forall_forall in no_breaks. apply no_breaks.
  rewrite <-(inv_jobs _ _ _ _ _ Hinv). set_solver.
Qed.

Lemma start_inv : inv start jobs processors [] [].
Proof.
  assert (∀ n, held (replicate n Waiting) = []) as Hheld by (by induction n).
  assert (∀ p n, p Waiting = false → count_workers p (replicate n Waiting) = 0) as Hcount.
  { intros p n Hp. induction n as [|n IH]; [done|]. unfold count_workers in *. simpl.
    by rewrite filter_cons_False by (rewrite Hp; by intros []). }
  split; simpl; rewrite ?Hheld, ?Hcount by done; simpl; rewrite ?app_nil_r; try done; try lia.
  - by rewrite length_replicate.
  - by intros j [? _]%elem_of_replicate.
Qed.

(** A worker takes the head of the queue. *)
Lemma get_inv m j i o ws x c k js n lost origs :
  inv (Threads m (j :: i) o ws x c) js n lost origs → ws !! k = Some Waiting →
  invariant (Threads m i o (<[k := receive j]> ws) x c).
Proof.
  intros Hinv Hk. pose proof (λ j, inv_nonbreak _ _ _ _ _ j Hinv) as Hnb.
  destruct Hinv as [Hq Hb Ho Hj Hlost Hraise Hws Hlast Hleft Hrun]; simpl in *.
  pose proof (held_insert ws k Waiting (receive j) Hk) as Hheld.
  pose proof (count_insert is_ended ws k Waiting (receive j) Hk) as He.
  pose proof (count_insert is_died ws k Waiting (receive j) Hk) as Hd.
  assert (∀ j', Running j' ∈ <[k := receive j]> ws → is_skip j' = false) as Hrun'.
  { intros j' Hin. apply Hrun. apply list_elem_of_lookup in Hin as [k' Hk'].
    apply list_lookup_insert_Some in Hk' as [(_ & Hr & _)|[_ Hk']];
      [unfold receive in Hr; by case_match|by eapply list_elem_of_lookup_2]. }
  destruct js as [|j' js].
  - destruct n as [|n]; [done|]. injection Hq as -> Hq. simpl in *.
    exists [], n, lost, origs. split; simpl; try done; [lia| |lia| ].
    + by rewrite <-Hj, <-Hheld.
    + by rewrite length_insert.
  - injection Hq as -> Hq. unfold receive in *. rewrite Hnb in * by set_solver. simpl in *.
    exists js, n, lost, origs. split; simpl; try done; try lia.
    + rewrite Hheld, <-Hj. solve_Permutation.
    + by rewrite length_insert.
    + intros Hpos. assert (j' :: js = []) by (apply Hlast; lia). done.
Qed.

Lemma work_inv m i o ws x c k w w' put js n lost origs :
  inv (Threads m i o ws x c) js n lost origs → ws !! k = Some w → worker_step x w w' put →
  invariant (Threads m i (o ++ put) (<[k := w']> ws) x c).
Proof.
  intros Hinv Hk Hw. destruct Hinv as [Hq Hb Ho Hj Hlost Hraise Hws Hlast Hleft Hrun]; simpl in *.
  pose proof (held_insert ws k w w' Hk) as Hheld.
  pose proof (count_insert is_ended ws k w w' Hk) as He.
  pose proof (count_insert is_died ws k w w' Hk) as Hd.
  pose proof (list_elem_of_lookup_2 _ _ _ Hk) as Hin.
  assert (∀ j', Running j' ∈ <[k := w']> ws → w' = Running j' ∨ Running j' ∈ ws) as Hrun'.
  { intros j' [k' Hk']%list_elem_of_lookup. apply list_lookup_insert_Some in Hk' as [(_ & Hr & _)|[_ Hk']];
      [by left|right; by eapply list_elem_of_lookup_2]. }
  destruct Hw as [j Hx|j Hx Hs|j Hx Hs|j j' Hr|j e Hr]; simpl in *.
  - exists js, n, lost, (origs ++ [j]). split; simpl; try done; try lia; try (by rewrite length_insert).
    + rewrite app_assoc. apply Forall2_app; [done|]. constructor; [|done]. by apply OInterrupted.
    + rewrite <-Hj, <-Hheld. solve_Permutation.
    + intros Hpos. apply Hlast. lia.
    + intros j' Hj'. destruct (Hrun' j' Hj'); [done|auto].
  - exists js, n, lost, (origs ++ [j]). split; simpl; try done; try lia; try (by rewrite length_insert).
    + rewrite app_assoc. apply Forall2_app; [done|]. constructor; [|done]. by apply OSkipped.
    + rewrite <-Hj, <-Hheld. solve_Permutation.
    + intros Hpos. apply Hlast. lia.
    + intros j' Hj'. destruct (Hrun' j' Hj'); [done|auto].
  - exists js, n, lost, origs. split; simpl; try done; try lia; try (by rewrite length_insert).
    + by rewrite app_nil_r.
    + by apply (inj (cons j)) in Hheld as ->.
    + intros Hpos. apply Hlast. lia.
    + intros j' Hj'. destruct (Hrun' j' Hj') as [[= ->]|]; auto.
  - exists js, n, lost, (origs ++ [j]). split; simpl; try done; try lia; try (by rewrite length_insert).
    + rewrite app_assoc. apply Forall2_app; [done|]. constructor; [|done]. apply ORan; auto.
    + rewrite <-Hj, <-Hheld. solve_Permutation.
    + intros Hpos. apply Hlast. lia.
    + intros j1 Hj1. destruct (Hrun' j1 Hj1); [done|auto].
  - exists js, n, (lost ++ [j]), origs. rewrite app_nil_r.
    split; simpl; rewrite ?length_app; simpl; try done; try lia; try (by rewrite length_insert).
    + rewrite <-Hj, <-Hheld. solve_Permutation.
    + apply Forall_app. split; [done|]. apply Forall_singleton. eauto.
    + intros Hpos. apply Hlast. lia.
    + intros j1 Hj1. destruct (Hrun' j1 Hj1); [done|auto].
Qed.

Lemma step_inv s s' : invariant s → step s s' → invariant s'.
Proof.
  intros (js & n & lost & origs & Hinv) Hstep. destruct Hstep as
    [j todo i o ws x c|i o ws x c|m i j o ws x c|i o ws x c|i o ws x c Hall|m j i o ws x c k Hk
    |m i o ws x c k w w' put Hk Hw|m i o ws c]; pose proof Hinv as [Hq Hb Ho Hj Hlost Hraise Hws Hlast Hleft Hrun];
    simpl in *.
  - exists js, n, lost, origs. split; simpl; try done. by rewrite <-app_assoc.
  - exists js, n, lost, origs. by split.
  - exists js, n, lost, origs. split; simpl; try done.
    + by rewrite <-app_assoc.
    + rewrite length_app. simpl. lia.
  - exists js, n, lost, origs. by split.
  - exists js, n, lost, origs. by split.
  - by eapply get_inv.
  - by eapply work_inv.
  - exists js, n, lost, origs. split; simpl; try done. by eapply outcome_interrupt.
Qed.

Lemma reachable_inv s : rtc step start s → invariant s.
Proof.
  intros Hs. assert (invariant start) as Hinv by (do 4 eexists; apply start_inv). revert Hinv.
  induction Hs as [|s1 s2 s3 Hstep _ IH]; eauto using step_inv.
Qed.

(** ** Every execution ends *)

Definition weight (w : worker) : nat :=
  match w with Got _ => 5 | Running _ => 4 | _ => 0 end.
Definition main_weight (m : main_thread) : nat :=
  match m with
  | Dispatching todo => 3 + 7 * length todo
  | Collecting _ => 2
  | Joining => 1
  | Finished => 0
  end.
Definition measure (s : threads) : nat :=
  main_weight (main s) + 6 * length (input_queue s) + length (output_queue s)
  + sum_list (weight <$> workers s) + (if thread_exit s then 0 else 1).

Lemma weight_insert ws k w w' :
  ws !! k = Some w →
  sum_list (weight <$> <[k := w']> ws) + weight w = sum_list (weight <$> ws) + weight w'.
Proof.
  intros Hk. rewrite <-(take_drop_middle _ _ _ Hk) at 2.
  rewrite insert_take_drop by (by eapply lookup_lt_Some).
  rewrite !fmap_app, !sum_list_with_app. simpl. lia.
Qed.

Lemma step_measure s s' : step s s' → measure s' < measure s.
Proof.
  destruct 1 as [| | | | |m j i o ws x c k Hk|m i o ws x c k w w' put Hk Hw|];
    unfold measure; simpl; rewrite ?length_app; simpl; try lia.
  - pose proof (weight_insert ws k Waiting (receive j) Hk) as Hw. simpl in Hw.
    unfold receive in *. destruct (is_break j); simpl in *; lia.
  - pose proof (weight_insert ws k w w' Hk) as He. destruct Hw; simpl in *; lia.
Qed.

(** ** No deadlock *)

Lemma worker_can_step x w j :
  w = Got j ∨ w = Running j → ∃ w' put, worker_step x w w' put.
Proof.
  intros [-> | ->].
  - destruct x; [by do 2 eexists; apply WBreak|].
    destruct (is_skip j) eqn:Hs; do 2 eexists; [by apply WSkip|by apply WLaunch].
  - destruct (run j) eqn:Hr; do 2 eexists; [by eapply WDone|by eapply WRaise].
Qed.

Lemma held_step m i o ws x c : held ws ≠ [] → ∃ s, step (Threads m i o ws x c) s.
Proof.
  intros Hne. destruct (held ws) as [|j l] eqn:Hh; [done|].
  assert (j ∈ held ws) as Hj by (rewrite Hh; left).
  apply list_elem_of_bind in Hj as (w & Hin & Hw). apply list_elem_of_lookup in Hw as [k Hk].
  destruct (worker_can_step x w j) as (w' & put & Hw').
  { destruct w; simpl in Hin; try set_solver; apply list_elem_of_singleton in Hin as ->; auto. }
  eexists. by eapply SWork.
Qed.

Lemma not_held_waiting ws :
  held ws = [] → Forall (λ w, w = Waiting ∨ w = Ended ∨ w = Died) ws.
Proof.
  unfold held. induction ws as [|w ws IH]; [done|]. rewrite bind_cons. intros [Hw Hh]%app_eq_nil.
  constructor; [destruct w; auto; done|auto].
Qed.

(** Some worker waits unless all have ended or died. *)
Lemma waiting_or_all_ended ws :
  held ws = [] → (∃ k, ws !! k = Some Waiting) ∨
    count_workers is_ended ws + count_workers is_died ws = length ws.
Proof.
  intros Hh%not_held_waiting. unfold count_workers.
  induction Hh as [|w ws Hw _ IH]; [by right|].
  destruct Hw as [-> | [-> | ->]]; [by left; exists 0|..];
    (destruct IH as [[k Hk]|IH]; [left; by exists (S k)|right]); rewrite !filter_cons; simpl;
    repeat case_decide; simpl; try (exfalso; naive_solver); lia.
Qed.

Lemma count_replicate_le (p : worker → bool) ws : count_workers p ws ≤ length ws.
Proof. apply length_filter. Qed.

(** A state with a living worker is stuck only when the main thread is done. *)
Lemma progress s :
  invariant s → count_workers is_died (workers s) = 0 → 0 < processors →
  main s ≠ Finished → ∃ s', step s s'.
Proof.
  intros (js & n & lost & origs & Hinv) Hd Hp Hm.
  pose proof (λ j, inv_nonbreak _ _ _ _ _ j Hinv) as Hnb.
  destruct Hinv as [Hq Hb Ho Hj Hlost _ Hws Hlast Hleft _].
  destruct s as [m i o ws x c]; simpl in *. rewrite Hd in Hlost.
  apply nil_length_inv in Hlost as ->. apply Forall2_length in Ho.
  apply Permutation_length in Hj. rewrite !length_app in *. simpl in Hj.
  destruct m as [[|j todo]|[|left]| |]; simpl in *; rewrite ?app_nil_r in *; try done.
  - eexists. apply SDispatched.
  - eexists. apply SPut.
  - eexists. apply SCollected.
  - destruct o as [|j o]; [|eexists; apply SCollect]. simpl in *.
    destruct (decide (held ws = [])) as [Hh|Hh]; [|by apply held_step]. rewrite Hh in Hj. simpl in Hj.
    assert (js ≠ []) as Hjs by (intros ->; simpl in *; lia).
    destruct (waiting_or_all_ended ws Hh) as [[k Hk]|Hall].
    + destruct i as [|j i]; [by destruct js|]. eexists. by eapply SGet.
    + destruct Hjs. apply Hlast. lia.
  - assert (held ws = []) as Hh by (apply nil_length_inv; lia).
    assert (js = []) as -> by (apply nil_length_inv; lia). simpl in Hq.
    destruct (waiting_or_all_ended ws Hh) as [[k Hk]|Hall].
    + assert (count_workers is_ended ws < length ws).
      { pose proof (count_insert is_ended ws k Waiting Ended Hk) as He. simpl in He.
        pose proof (count_replicate_le is_ended (<[k := Ended]> ws)) as Hle.
        rewrite length_insert in Hle. lia. }
      destruct i as [|j i]; [|eexists; by eapply SGet]. destruct n; [lia|done].
    + eexists. apply SJoin. pose proof (not_held_waiting ws Hh) as Hw.
      unfold count_workers in Hall, Hd. apply nil_length_inv in Hd. rewrite Hd in Hall.
      simpl in Hall. rewrite Nat.add_0_r in Hall. clear -Hall Hw.
      apply Forall_forall. intros w Hin. left.
      assert (filter is_ended ws = ws) as Heq.
      { clear Hw Hin w. induction ws as [|w ws IH]; [done|]. rewrite filter_cons in *.
        pose proof (length_filter is_ended ws). case_decide; simpl in *; [f_equal; auto|lia]. }
      rewrite <-Heq in Hin. apply list_elem_of_filter in Hin as [He _]. by destruct w.
Qed.

(** No job raises: those that are not skipped end with a result. *)
Definition no_raise : Prop := ∀ j, j ∈ jobs → is_skip j = false → ∃ j', run j = Ok j'.

Lemma no_raise_no_died s : no_raise → invariant s → count_workers is_died (workers s) = 0.
Proof.
  intros Hok (js & n & lost & origs & Hinv). destruct Hinv as [_ _ _ Hj Hlost Hraise _ _ _ _].
  rewrite <-Hlost. destruct lost as [|j lost]; [done|]. exfalso.
  apply Forall_cons in Hraise as [[Hs [e He]] _]. destruct (Hok j) as [j' Hj']; [|done|congruence].
  rewrite <-Hj. set_solver.
Qed.

Lemma finished_inv s :
  invariant s → main s = Finished → ∃ origs, origs ≡ₚ jobs ∧
    Forall2 (outcome (thread_exit s)) origs (collected s) ∧ output_queue s = [] ∧
    held (workers s) = [] ∧ count_workers is_died (workers s) = 0.
Proof.
  intros (js & n & lost & origs & Hinv) Hm. destruct Hinv as [_ _ Ho Hj Hlost _ _ _ Hleft _].
  rewrite Hm in Hleft. simpl in Hleft. pose proof (Forall2_length _ _ _ Ho) as Hlen.
  pose proof (Permutation_length Hj) as Hlen'. rewrite !length_app in *.
  assert (lost = []) as -> by (apply nil_length_inv; lia).
  assert (held (workers s) = []) as Hh by (apply nil_length_inv; lia).
  assert (js = []) as -> by (apply nil_length_inv; lia).
  assert (output_queue s = []) as Hout by (apply nil_length_inv; lia).
  rewrite Hout, app_nil_r in Ho. rewrite Hh, !app_nil_r in Hj. by exists origs.
Qed.

(** C1: if no job raises and there is a worker, no interleaving of the main
    thread, the workers and SIGINT deadlocks, and each has at most
    [7 * (jobs + workers) + 4] steps: [run_tests] always gets all its results
    and joins all its workers. *)
Theorem workers_finish :
  0 < processors → no_raise →
  (∀ s, rtc step start s → main s = Finished ∨ ∃ s', step s s') ∧
  (∀ n s, nsteps step n start s → n ≤ 7 * (length jobs + processors) + 4).
Proof.
  intros Hp Hok. split.
  - intros s Hs%reachable_inv. pose proof (no_raise_no_died s Hok Hs).
    destruct (main s) eqn:Hm; [right..|by left]; (apply progress; [done..|congruence]).
  - assert (∀ n s s', nsteps step n s s' → n + measure s' ≤ measure s) as Hn.
    { intros n. induction n as [|n IH]; intros s s'; inversion 1; subst; [lia|].
      match goal with H : nsteps _ _ _ _ |- _ => apply IH in H end.
      match goal with H : step _ _ |- _ => apply step_measure in H end. lia. }
    intros n s Hs%Hn. unfold measure in Hs at 2. simpl in Hs.
    assert (sum_list (weight <$> replicate processors Waiting) = 0) as Hz
      by (generalize processors as k; intros k; by induction k).
    rewrite Hz, length_app, length_replicate in Hs. lia.
Qed.

(** The result of a job that is run to its end or skipped. *)
Definition result_of (j : job) : job :=
  if is_skip j then j else match run j with Ok j' => j' | Err _ => j end.

Lemma outcomes_run origs c :
  Forall2 (outcome false) origs c → c = result_of <$> origs.
Proof.
  induction 1 as [|j j' origs c Hj _ IH]; [done|]. csimpl. rewrite IH. f_equal.
  unfold result_of. destruct Hj as [|Hsk|j' Hsk Hr]; [done|by rewrite Hsk|by rewrite Hsk, Hr].
Qed.

(** C2: when the main thread is done, every job has come back exactly once,
    with its own result or with [is_break] if there was a SIGINT; without one,
    the results are those of running the jobs one after the other, in some
    order. *)
Theorem workers_results s :
  rtc step start s → main s = Finished →
  (∃ origs, origs ≡ₚ jobs ∧ Forall2 (outcome (thread_exit s)) origs (collected s)) ∧
  (thread_exit s = false → collected s ≡ₚ result_of <$> jobs).
Proof.
  intros Hs%reachable_inv Hm.
  destruct (finished_inv s Hs Hm) as (origs & Hperm & Hall & _). split; [by exists origs|].
  intros Hx. rewrite Hx in Hall. rewrite <-Hperm. by apply outcomes_run in Hall as ->.
Qed.

Lemma died_stays s s' : step s s' → Died ∈ workers s → Died ∈ workers s'.
Proof.
  assert (∀ (ws : list worker) k w w', ws !! k = Some w → w ≠ Died → Died ∈ ws → Died ∈ <[k := w']> ws) as Hins.
  { intros ws k w w' Hk Hw (k' & Hk')%list_elem_of_lookup. apply list_elem_of_lookup.
    exists k'. rewrite list_lookup_insert_ne; [done|]. intros <-. congruence. }
  destruct 1 as [| | | | |m j i o ws x c k Hk|m i o ws x c k w w' put Hk Hw|]; simpl; try done;
    (eapply Hins; [done|]); [done|]. by destruct Hw.
Qed.

(** C5: once a job has raised in a worker, the main thread never finishes: it
    waits for that job's result for ever. *)
Theorem raised_job_hangs s s' :
  rtc step start s → Died ∈ workers s → rtc step s s' → main s' ≠ Finished.
Proof.
  intros Hs Hd Hs' Hm.
  assert (Died ∈ workers s') as Hd'.
  { clear Hs Hm. induction Hs' as [|a b c Hab _ IH]; [done|]. by eapply IH, died_stays. }
  assert (invariant s') as Hinv by (eapply reachable_inv; by transitivity s).
  destruct (finished_inv s' Hinv Hm) as (_ & _ & _ & _ & _ & Hz).
  unfold count_workers in Hz. apply nil_length_inv in Hz.
  assert (Died ∈ filter is_died (workers s')) as Hin by (by apply list_elem_of_filter).
  rewrite Hz in Hin. by apply elem_of_nil in Hin.
Qed.
End workers.

(** ** One skipped job and one that raises, with one worker *)

Definition skipped_job : job := set_is_skip true new_job.
Definition demo_run (j : job) : res job := Err OSError.

Lemma skipped_run run :
  ∃ s, rtc (step [skipped_job] run) (start [skipped_job] 1) s ∧
    main s = Finished ∧ thread_exit s = false.
Proof.
  eexists. split.
  - unfold start. eapply rtc_l; [apply SPut|]. eapply rtc_l; [apply SPut|].
    eapply rtc_l; [apply SDispatched|].
    eapply rtc_l; [by apply SGet with (k := 0)|].
    eapply rtc_l; [by eapply SWork with (k := 0), WSkip|].
    eapply rtc_l; [apply SCollect|]. eapply rtc_l; [apply SCollected|].
    eapply rtc_l; [by apply SGet with (k := 0)|].
    eapply rtc_l; [apply SJoin|apply rtc_refl].
    apply Forall_singleton. by left.
  - done.
Qed.

Lemma workers_finish_witness :
  Forall (λ j, is_break j = false) [skipped_job] ∧ 0 < 1 ∧ no_raise [skipped_job] demo_run ∧
  ∀ n s, nsteps (step [skipped_job] demo_run) n (start [skipped_job] 1) s → n ≤ 18.
Proof.
  assert (Forall (λ j, is_break j = false) [skipped_job]) as Hb by by apply Forall_singleton.
  assert (no_raise [skipped_job] demo_run) as Hok by by intros j ->%list_elem_of_singleton.
  assert (0 < 1) as H1 by lia. split_and!; [done..|].
  exact (proj2 (workers_finish [skipped_job] 1 demo_run Hb H1 Hok)).
Defined.

Lemma workers_results_witness :
  ∃ s, main s = Finished ∧ (thread_exit s = false → collected s ≡ₚ [skipped_job]).
Proof.
  assert (Forall (λ j, is_break j = false) [skipped_job]) as Hb by by apply Forall_singleton.
  destruct (skipped_run demo_run) as (s & Hs & Hm & Hx). exists s. split; [done|].
  exact (proj2 (workers_results [skipped_job] 1 demo_run Hb s Hs Hm)).
Defined.

Lemma raised_run :
  ∃ s, rtc (step [new_job] demo_run) (start [new_job] 1) s ∧ Died ∈ workers s.
Proof.
  eexists. split.
  - unfold start. eapply rtc_l; [apply SPut|].
    eapply rtc_l; [by apply SGet with (k := 0)|].
    eapply rtc_l; [by eapply SWork with (k := 0), WLaunch|].
    eapply rtc_l; [by eapply SWork with (k := 0), WRaise|]. apply rtc_refl.
  - left.
Qed.

Lemma raised_job_hangs_witness :
  ∃ s, Died ∈ workers s ∧ ∀ s', rtc (step [new_job] demo_run) s s' → main s' ≠ Finished.
Proof.
  assert (Forall (λ j, is_break j = false) [new_job]) as Hb by by apply Forall_singleton.
  destruct raised_run as (s & Hs & Hd). exists s. split; [done|]. intros s' Hs'.
  exact (raised_job_hangs [new_job] 1 demo_run Hb s s' Hs Hd Hs').
Defined.

(** ** The whole run *)

Section whole_run.
Context (popen : string → string → res process) (options : options_t) (cfg : config).
Context (jobs : list job) (processors : nat).
Abbreviation run_job := (finish popen options cfg).

(** The return code, from the jobs that were dispatched. *)
Lemma results_code rs :
  Forall (λ j, is_break j = false) jobs → rs ≡ₚ result_of run_job <$> jobs →
  return_code (Z.of_nat (length jobs)) (tally_of rs) = 0%Z ↔
  ∀ j, j ∈ jobs → is_skip j = true ∨ returncode (result_of run_job j) = 0%Z.
Proof.
  intros Hb Hperm. set (total := Z.of_nat (length jobs)).
  pose proof (tally_perm total _ _ Hperm) as [_ Hcode]. rewrite Hcode.
  set (sequential := result_of run_job <$> jobs).
  replace total with (Z.of_nat (length sequential)) by (unfold total, sequential; by rewrite length_fmap).
  rewrite return_code_zero_iff. unfold sequential. rewrite Forall_fmap, Forall_forall.
  rewrite Forall_forall in Hb. unfold ok_job, result_of. simpl. split; intros Hall j Hj.
  - destruct (Hall j Hj) as [_ Hok]. destruct (is_skip j) eqn:Hsk; [by left|].
    destruct (run_job j) as [j'|e] eqn:Hr; [|naive_solver].
    apply finish_kind in Hr as [Hk _]. rewrite Hk, Hsk in Hok. naive_solver.
  - specialize (Hall j Hj). specialize (Hb j Hj). destruct (is_skip j) eqn:Hsk; [naive_solver|].
    destruct (run_job j) as [j'|e] eqn:Hr; [|naive_solver].
    apply finish_kind in Hr as [Hk Hk']. rewrite Hk'. naive_solver.
Qed.
(** C3: for all interleavings without a SIGINT, the summary and the return
    code are those of running the jobs one after the other, and the return code
    is 0 if and only if every job is skipped or its process returns 0. *)
Theorem run_deterministic s :
  Forall (λ j, is_break j = false) jobs →
  rtc (step jobs run_job) (start jobs processors) s → main s = Finished → thread_exit s = false →
  let total := Z.of_nat (length jobs) in
  let sequential := result_of run_job <$> jobs in
  summary total (tally_of (collected s)) = summary total (tally_of sequential) ∧
  return_code total (tally_of (collected s)) = return_code total (tally_of sequential) ∧
  (return_code total (tally_of (collected s)) = 0%Z ↔
   ∀ j, j ∈ jobs → is_skip j = true ∨ returncode (result_of run_job j) = 0%Z).
Proof.
  intros Hb Hs Hm Hx total sequential.
  assert (collected s ≡ₚ sequential) as Hperm.
  { pose proof (reachable_inv jobs processors run_job Hb s Hs) as Hinv.
    destruct (finished_inv jobs processors run_job s Hinv Hm) as (origs & Ho & Hall & _).
    rewrite Hx in Hall. unfold sequential. rewrite <-Ho. by apply outcomes_run in Hall as ->. }
  pose proof (tally_perm total _ _ Hperm) as [Hsum Hcode].
  split_and!; [done|done|]. by apply results_code.
Qed.
End whole_run.

Lemma run_deterministic_witness :
  ∃ s, main s = Finished ∧
    (return_code 1 (tally_of (collected s)) = 0%Z ↔
     ∀ j, j ∈ [skipped_job] →
       is_skip j = true ∨
       returncode (result_of (finish (λ _ _, Err OSError) default_options default_config) j) = 0%Z).
Proof.
  assert (Forall (λ j, is_break j = false) [skipped_job]) as Hb by by apply Forall_singleton.
  destruct (skipped_run (finish (λ _ _, Err OSError) default_options default_config))
    as (s & Hs & Hm & Hx). exists s. split; [done|].
  exact (proj2 (proj2 (run_deterministic (λ _ _, Err OSError) default_options default_config
    [skipped_job] 1 s Hb Hs Hm Hx))).
Defined.
