(* ===== verification/TestDispatch.v ===== *)
(** * test.py: what is built, which tests are selected, the jobs dispatched
    The parts of [run_tests] before the worker threads have work: the waf
    target, the library paths, the lists of examples, the selection of the
    test suites, the number of workers and the job of every test.  Parameters:
    the processes (as in [TestJobs]), the files that exist, the lists read
    from the [examples-to-run.py] files and the evaluation of the conditions
    they contain. *)
From Stdlib Require Import Ascii.
From S2P Require Import Prelude PyStr PyPath PyXml TestReport TestJobs.
#[local] Open Scope Z_scope.

Definition core_kinds : list string := ["core"; "performance"; "system"; "unit"].
Definition core_valgrind_skip_tests : list string :=
  ["ns3-tcp-cwnd"; "nsc-tcp-loss"; "ns3-tcp-interoperability"; "routing-click";
   "lte-rr-ff-mac-scheduler"; "lte-tdmt-ff-mac-scheduler"; "lte-fdmt-ff-mac-scheduler";
   "lte-pf-ff-mac-scheduler"; "lte-tta-ff-mac-scheduler"; "lte-fdbet-ff-mac-scheduler";
   "lte-ttbet-ff-mac-scheduler"; "lte-fdtbfq-ff-mac-scheduler"; "lte-tdtbfq-ff-mac-scheduler";
   "lte-pss-ff-mac-scheduler"].
Definition core_nsc_missing_skip_tests : list string :=
  ["ns3-tcp-cwnd"; "nsc-tcp-loss"; "ns3-tcp-interoperability"].
Definition TMP_OUTPUT_DIR : string := "testpy-output".

(** [len(s)] as a condition. *)
Definition nonempty (s : string) : bool := negb (bool_decide (s = "")).

(** ** The build *)

Definition BUILD_PROFILE_SUFFIX (cfg : config) : string :=
  if decide (BUILD_PROFILE cfg = "release") then "" else "-" +:+ BUILD_PROFILE cfg.
(** ["%s%s-%s%s" % (APPNAME, VERSION, name, BUILD_PROFILE_SUFFIX)] *)
Definition program_name (cfg : config) (name : string) : string :=
  APPNAME cfg +:+ VERSION cfg +:+ "-" +:+ name +:+ BUILD_PROFILE_SUFFIX cfg.
Definition test_runner_name (cfg : config) : string := program_name cfg "test-runner".

Definition waf_cmd (options : options_t) : string :=
  if opt_kinds options || opt_list options
     || (nonempty (opt_constrain options) && bool_decide (opt_constrain options ∈ core_kinds))
  then "./waf --target=test-runner"
  else if nonempty (opt_example options)
  then "./waf --target=" +:+ basename (opt_example options)
  else "./waf".

(** [make_paths]: the changes to [os.environ]; [platform] is [sys.platform]. *)
Definition add_paths (var sep : string) (paths : list string) (environ : gmap string string)
    : gmap string string :=
  let environ := if decide (is_Some (environ !! var)) then environ else <[var := ""]> environ in
  foldl (λ environ path, alter (λ v, v +:+ sep +:+ path) var environ) environ paths.
Definition make_paths (cfg : config) (platform : string) (environ : gmap string string)
    : gmap string string :=
  let have_PYTHONPATH := bool_decide (is_Some (environ !! "PYTHONPATH")) in
  let pypath := path_join (path_join (NS3_BUILDDIR cfg) "bindings") "python" in
  let environ := <["PYTHONPATH" := pypath]> environ in
  let environ := if have_PYTHONPATH then alter (λ v, v +:+ ":" +:+ pypath) "PYTHONPATH" environ
                 else <["PYTHONPATH" := pypath]> environ in
  if decide (platform = "darwin") then
    add_paths "DYLD_LIBRARY_PATH" ":" (NS3_MODULE_PATH cfg) environ
  else if decide (platform = "win32") then add_paths "PATH" ";" (NS3_MODULE_PATH cfg) environ
  else if decide (platform = "cygwin") then add_paths "PATH" ":" (NS3_MODULE_PATH cfg) environ
  else add_paths "LD_LIBRARY_PATH" ":" (NS3_MODULE_PATH cfg) environ.

(** What [make_paths] prints when verbose. *)
Definition show_paths (options : options_t) (platform : string) (environ : gmap string string)
    : io unit :=
  let show var := verbosely options
    ("os.environ[" +:+ dq +:+ var +:+ dq +:+ "] == " +:+ default "" (environ !! var)) in
  _ ← show "PYTHONPATH";
  show (if decide (platform = "darwin") then "DYLD_LIBRARY_PATH"
        else if decide (platform = "win32" ∨ platform = "cygwin") then "PATH"
        else "LD_LIBRARY_PATH").

(** ** The examples *)

(** The lists [cpp_examples] and [python_examples] of an examples file. *)
Record examples_file : Type := ExamplesFile {
  cpp_examples : list (string * string * string);
  python_examples : list (string * string);
}.
(** [(example_name, example_path, do_run, do_valgrind_run)] and
    [(example_path, do_run)]. *)
Record example_lists : Type := ExampleLists {
  example_tests : list (string * string * string * string);
  example_names_original : list string;
  python_tests : list (string * string);
}.

Section dispatch.
Context (popen : string → string → res process) (options : options_t) (cfg : config).
Context (getcwd : string).
Context (exists_ : string → bool) (examples_of : string → examples_file).
(** [eval] of a condition: it can raise. *)
Context (eval : string → res bool).

Definition add_cpp_example (cpp_executable_dir : string) (l : example_lists)
    (example : string * string * string) : res example_lists :=
  let '(example_name_original, do_run, do_valgrind_run) := example in
  let '(example_name, example_arguments) := split1 " " example_name_original in
  let example_path := path_join cpp_executable_dir (program_name cfg example_name) in
  rel ← relpath getcwd cpp_executable_dir (NS3_BUILDDIR cfg);
  let example_name := path_join rel example_name in
  Ok (if exists_ example_path then
        let with_arguments s := match example_arguments with
                                | Some args => s +:+ " " +:+ args
                                | None => s
                                end in
        ExampleLists
          (example_tests l
           ++ [(with_arguments example_name, with_arguments example_path, do_run, do_valgrind_run)])
          (example_names_original l ++ [example_name_original])
          (python_tests l)
      else l).
Definition add_python_example (python_script_dir : string) (l : example_lists)
    (example : string * string) : example_lists :=
  let '(example_name, do_run) := example in
  let '(example_name, example_arguments) := split1 " " example_name in
  let example_path := path_join python_script_dir example_name in
  if exists_ example_path then
    let example_path := match example_arguments with
                        | Some args => example_path +:+ " " +:+ args
                        | None => example_path
                        end in
    ExampleLists (example_tests l) (example_names_original l)
      (python_tests l ++ [(example_path, do_run)])
  else l.
(** A loop whose body can raise. *)
Fixpoint fold_res {A B} (f : A → B → res A) (a : A) (l : list B) : res A :=
  match l with
  | [] => Ok a
  | b :: l => a ← f a b; fold_res f a l
  end.
Definition parse_examples_to_run_file (examples_to_run_path cpp_executable_dir
    python_script_dir : string) (l : example_lists) : res example_lists :=
  if exists_ examples_to_run_path then
    let examples := examples_of examples_to_run_path in
    l ← fold_res (add_cpp_example cpp_executable_dir) l (cpp_examples examples);
    Ok (foldl (add_python_example python_script_dir) l (python_examples examples))
  else Ok l.

(** [for directory in EXAMPLE_DIRECTORIES] *)
Definition parse_directory (l : example_lists) (directory : string) : res example_lists :=
  let example_directory := path_join "examples" directory in
  parse_examples_to_run_file (path_join example_directory "examples-to-run.py")
    (path_join (NS3_BUILDDIR cfg) example_directory) example_directory l.
(** [for module in NS3_ENABLED_MODULES], and the contributed ones with [base]. *)
Definition parse_module (base : string) (l : example_lists) (module : string) : res example_lists :=
  let module := of_chars (drop 4 (chars module)) in
  let module_directory := path_join base module in
  let example_directory := path_join module_directory "examples" in
  parse_examples_to_run_file
    (path_join (path_join module_directory "test") "examples-to-run.py")
    (path_join (NS3_BUILDDIR cfg) example_directory) example_directory l.
Definition collect_examples : res example_lists :=
  l ← fold_res parse_directory (ExampleLists [] [] []) (EXAMPLE_DIRECTORIES cfg);
  l ← fold_res (parse_module "src") l (NS3_ENABLED_MODULES cfg);
  fold_res (parse_module "contrib") l (NS3_ENABLED_CONTRIBUTED_MODULES cfg).

(** [ns3_runnable_programs_dictionary] *)
Definition programs_dictionary (ns3_runnable_programs : list string) : list (string * string) :=
  foldl (λ d program, dict_set d (basename program) program) [] ns3_runnable_programs.

(** ** The test suites *)

(** [run_job_synchronously] of the test runner with a list of its tests. *)
Definition ask_runner (arguments : string) : io (Z * captured) :=
  '(rc, standard_out, _, _) ←
    run_job_synchronously popen options cfg
      (path_join "utils" (test_runner_name cfg +:+ arguments)) getcwd false false "";
  mret (rc, standard_out).
(** [if isinstance(s, bytes): s = s.decode()] *)
Definition decode_again (c : captured) : io string :=
  match c with
  | Text s => mret s
  | Bytes _ => throw (PyException "UnicodeDecodeError")
  end.

(** The list of suites and [single_suite]. *)
Definition requested_suites : io (list string * bool) :=
  if nonempty (opt_suite options) then
    '(_, out) ← ask_runner " --print-test-name-list";
    suites ← decode_again out;
    let suites_found := fnmatch_filter (split "010" suites) (opt_suite options) in
    match suites_found with
    | [] =>
        (** printed on the standard error *)
        throw (SystemExit 2)
    | _ => mret (split "010" (join nl suites_found), bool_decide (length suites_found = 1%nat))
    end
  else if bool_decide (opt_example options = "") && bool_decide (opt_pyexample options = "") then
    '(_, out) ←
      ask_runner (if nonempty (opt_constrain options)
                  then " --print-test-name-list --test-type=" +:+ opt_constrain options
                  else " --print-test-name-list");
    suites ← decode_again out;
    mret (split "010" suites, false)
  else mret (split "010" "", false).

(** [if x in l: l.remove(x)]: the first occurrence. *)
Fixpoint remove_first (x : string) (l : list string) : list string :=
  match l with
  | [] => []
  | y :: l => if decide (y = x) then l else y :: remove_first x l
  end.
Definition select_suites : io (list string) :=
  '(suite_list, single_suite) ← requested_suites;
  if negb single_suite && negb (bool_decide (opt_constrain options = "performance")) then
    '(_, out) ← ask_runner " --print-test-name-list --test-type=performance";
    performance_tests ← decode_again out;
    mret (foldl (λ l t, remove_first t l) suite_list (split "010" performance_tests))
  else mret suite_list.

(** ** The worker threads *)

(** [available] is the number of processors of the system. *)
Definition choose_processors (available : Z) : io Z :=
  if decide (opt_process_limit options ≠ 0) then
    if decide (available < opt_process_limit options) then
      _ ← print ("Using all " +:+ pretty available +:+ " processors" +:+ nl);
      mret available
    else
      _ ← print ("Limiting to " +:+ pretty (opt_process_limit options) +:+ " worker processes" +:+ nl);
      mret (opt_process_limit options)
  else mret available.

(** ** The jobs *)

Definition queue_job (what : string) (j : job) : io (list job) :=
  _ ← verbosely options ("Queue " +:+ what);
  mret [j].

Definition suite_job (testpy_output_dir test : string) : job :=
  let j := set_tmp_file_name (path_join testpy_output_dir (test +:+ ".xml"))
             (set_display_name test (set_is_pyexample false (set_is_example false new_job))) in
  let j := set_tempdir testpy_output_dir (set_basedir getcwd (set_cwd getcwd j)) in
  let multiple := if opt_multiple options then "" else " --stop-on-failure" in
  let fullness := if nonempty (opt_fullness options)
                  then " --fullness=" +:+ upper (opt_fullness options) else " --fullness=QUICK" in
  let path_cmd := path_join "utils"
                    (test_runner_name cfg +:+ " --test-name=" +:+ test +:+ multiple +:+ fullness) in
  let j := set_shell_command path_cmd j in
  let j := if opt_valgrind options && bool_decide (test ∈ core_valgrind_skip_tests)
           then set_skip_reason "crashes valgrind" (set_is_skip true j) else j in
  if negb (NSC_ENABLED cfg) && bool_decide (test ∈ core_nsc_missing_skip_tests)
  then set_skip_reason "requires NSC" (set_is_skip true j) else j.
Fixpoint dispatch_suites (testpy_output_dir : string) (suite_list : list string) : io (list job) :=
  match suite_list with
  | [] => mret []
  | test :: suite_list =>
      let test := strip test in
      js ← (if nonempty test then queue_job test (suite_job testpy_output_dir test) else mret []);
      rest ← dispatch_suites testpy_output_dir suite_list;
      mret (js ++ rest)
  end.

(** The job of a C++ example. *)
Definition example_job (testpy_output_dir name test : string) : job :=
  set_build_path (opt_buildpath options) (set_shell_command test
    (set_tempdir testpy_output_dir (set_basedir getcwd (set_cwd testpy_output_dir
      (set_tmp_file_name "" (set_display_name name
        (set_is_pyexample false (set_is_example true new_job)))))))).
(** No suite, example or Python example is named on the command line. *)
Definition none_requested : bool :=
  bool_decide (opt_suite options = "") && bool_decide (opt_example options = "")
  && bool_decide (opt_pyexample options = "").

(** [os.path.basename(test.split(' ', 1)[0])] *)
Definition script_of (test : string) : string := basename (split1 " " test).1.

Definition dispatch_example (programs : list (string * string)) (testpy_output_dir : string)
    (example : string * string * string * string) : io (list job) :=
  let '(name, test, do_run, do_valgrind_run) := example in
  if decide (is_Some (dict_get programs (script_of test))) then
    run ← lift_res (eval do_run);
    if (run : bool) then
      skip ← (if opt_valgrind options
              then ok ← lift_res (eval do_valgrind_run); mret (negb ok) else mret false);
      let j := example_job testpy_output_dir name test in
      queue_job test (if (skip : bool)
                      then set_skip_reason "skip in valgrind runs" (set_is_skip true j) else j)
    else mret []
  else mret [].
Definition dispatch_named_example (programs : list (string * string)) (testpy_output_dir : string)
    (key : string) : io (list job) :=
  match dict_get programs key with
  | Some example_path =>
      let example_path := abspath getcwd example_path in
      queue_job key (example_job testpy_output_dir example_path example_path)
  | None => throw KeyError
  end.
(** The jobs of a loop whose body queues some. *)
Fixpoint concat_io {A} (f : A → io (list job)) (l : list A) : io (list job) :=
  match l with
  | [] => mret []
  | x :: l => js ← f x; rest ← concat_io f l; mret (js ++ rest)
  end.
Definition dispatch_examples (programs : list (string * string)) (testpy_output_dir : string)
    (tests : list (string * string * string * string)) : io (list job) :=
  if none_requested then
    if (bool_decide (opt_constrain options = "") || bool_decide (opt_constrain options = "example"))
       && ENABLE_EXAMPLES cfg
    then concat_io (dispatch_example programs testpy_output_dir) tests
    else mret []
  else if nonempty (opt_example options) then
    match fnmatch_filter programs.*1 (program_name cfg (opt_example options)) with
    | [] => _ ← print ("No example matching the name " +:+ opt_example options +:+ nl); mret []
    | keys => concat_io (dispatch_named_example programs testpy_output_dir) keys
    end
  else mret [].

(** The job of a Python example. *)
Definition pyexample_job (testpy_output_dir test : string) : job :=
  set_build_path "" (set_shell_command test
    (set_tempdir testpy_output_dir (set_basedir getcwd (set_cwd testpy_output_dir
      (set_tmp_file_name "" (set_display_name test (set_is_pyexample true new_job))))))).
Definition dispatch_pyexample (ns3_runnable_scripts : list string) (testpy_output_dir : string)
    (example : string * string) : io (list job) :=
  let '(test, do_run) := example in
  if decide (script_of test ∈ ns3_runnable_scripts) then
    run ← lift_res (eval do_run);
    if (run : bool) then
      let j := set_is_example false (pyexample_job testpy_output_dir test) in
      let j := if opt_valgrind options
               then set_skip_reason "skip in valgrind runs" (set_is_skip true j) else j in
      let j := if ENABLE_PYTHON_BINDINGS cfg then j
               else set_skip_reason "requires Python bindings" (set_is_skip true j) in
      queue_job test j
    else mret []
  else mret [].
Definition dispatch_pyexamples (ns3_runnable_scripts : list string) (testpy_output_dir : string)
    (tests : list (string * string)) : io (list job) :=
  if none_requested then
    if (bool_decide (opt_constrain options = "") || bool_decide (opt_constrain options = "pyexample"))
       && ENABLE_EXAMPLES cfg
    then concat_io (dispatch_pyexample ns3_runnable_scripts testpy_output_dir) tests
    else mret []
  else if nonempty (opt_pyexample options) then
    if decide (basename (opt_pyexample options) ∉ ns3_runnable_scripts) then
      _ ← print ("Example " +:+ basename (opt_pyexample options) +:+ " is not runnable." +:+ nl);
      mret []
    else queue_job (opt_pyexample options)
           (pyexample_job testpy_output_dir (opt_pyexample options))
  else mret [].

(** All the jobs put into [input_queue] before the break jobs; [jobs] and
    [total_tests] are both their number. *)
Definition dispatch (programs : list (string * string)) (ns3_runnable_scripts : list string)
    (examples : example_lists) (testpy_output_dir : string) (suite_list : list string)
    : io (list job) :=
  suites ← dispatch_suites testpy_output_dir suite_list;
  cpp ← dispatch_examples programs testpy_output_dir (example_tests examples);
  python ← dispatch_pyexamples ns3_runnable_scripts testpy_output_dir (python_tests examples);
  mret (suites ++ cpp ++ python).

(** ** --kinds and --list *)

Definition list_tests (example_names : list string) : io unit :=
  _ ← (if opt_kinds options then
         '(_, out) ← ask_runner " --print-test-type-list";
         print (shown out +:+ nl)
       else mret ());
  if opt_list options then
    '(rc, out) ←
      ask_runner (if nonempty (opt_constrain options)
                  then " --print-test-name-list --print-test-types --test-type="
                       +:+ opt_constrain options
                  else " --print-test-name-list --print-test-types");
    if decide (rc ≠ 0) then
      _ ← print ("test.py error:  test-runner return code returned " +:+ pretty rc +:+ nl);
      print ("To debug, try running './waf --run " +:+ dq +:+ "test-runner --print-test-name-list"
             +:+ dq +:+ "'" +:+ nl +:+ nl)
    else
      text ← decode_again out;
      _ ← print ("Test Type    Test Name" +:+ nl +:+ "---------    ---------" +:+ nl);
      _ ← for_each (λ item, if nonempty (strip item) then print (item +:+ nl) else mret ())
            (sort_strings (split "010" text));
      _ ← for_each (λ item, print ("example      " +:+ item +:+ nl)) (sort_strings example_names);
      print nl
  else mret ().
End dispatch.
