(* ===== verification/TestRunner.v ===== *)
(** * test.py: [run_tests] as a whole
    The composition of the parts: build, select, dispatch, run in the worker
    threads, collect and report.  The exchange with the worker threads is an
    argument, [exchange]: from the dispatched jobs to the results in the order
    of [output_queue]; [TestWorkers] shows what it can be. *)
From Stdlib Require Import Ascii.
From S2P Require Import Prelude PyStr PyPath PyXml TestReport TestJobs TestWorkers TestDispatch.
#[local] Open Scope Z_scope.

Section run_tests.
(** A process also depends on its environment. *)
Context (popen : gmap string string → string → string → res process).
Context (platform : string) (environ : gmap string string).
Context (options : options_t) (cfg : config).
Context (getcwd : string) (exists_ : string → bool) (examples_of : string → examples_file).
Context (eval : string → res bool) (parse_xml : string → res element).
(** The exit code of waf, the build status file, the date and time as a
    directory name, the number of processors, and [colors_lst['USE']]. *)
Context (waf : string → Z) (build_status : option (list string * list string)).
Context (date_and_time : string) (available : Z) (use_colors : bool).
Context (exchange : list job → Z → io (list job)).

Definition testpy_output_dir : string := path_join TMP_OUTPUT_DIR date_and_time.
Definition xml_results_file : string := path_join testpy_output_dir "results.xml".

(** [os.environ] after [make_paths()] and [os.environ["NS_LOG"] = ""]. *)
Definition run_environ : gmap string string :=
  <["NS_LOG" := ""]> (make_paths cfg platform environ).

(** The results file, with its first lines. *)
Definition open_results : io unit :=
  _ ← open_w xml_results_file;
  _ ← write xml_results_file ("<?xml version=" +:+ dq +:+ "1.0" +:+ dq +:+ "?>" +:+ nl);
  write xml_results_file ("<Results>" +:+ nl).
(** From the creation of the results file to the return code. *)
Definition run_selected (programs : list (string * string)) (scripts : list string)
    (examples : example_lists) : io (option Z) :=
  _ ← open_results;
  suite_list ← select_suites (popen run_environ) options cfg getcwd;
  processors ← choose_processors options available;
  jobs ← dispatch options cfg getcwd eval programs scripts examples testpy_output_dir suite_list;
  results ← exchange jobs processors;
  code ← finish_run parse_xml options use_colors (ENABLE_TESTS cfg) (ENABLE_EXAMPLES cfg)
           (VALGRIND_FOUND cfg) testpy_output_dir xml_results_file
           (Z.of_nat (length jobs)) new_tally results;
  mret (Some code).

(** The build with waf. *)
Definition run_waf : io Z :=
  if opt_nowaf options then mret 0
  else _ ← verbosely options ("Building: " +:+ waf_cmd options); mret (waf (waf_cmd options)).
(** The result None makes [sys.exit] end with code 0. *)
Definition run_tests : io (option Z) :=
  waf_code ← run_waf;
  if decide (waf_code ≠ 0) then mret (Some waf_code)
  else
    _ ← show_paths options platform (make_paths cfg platform environ);
    '(programs, scripts) ← lift_res (match build_status with
                                     | Some p => Ok p
                                     | None => Err (SystemExit 2)
                                     end);
    examples ← lift_res (collect_examples cfg getcwd exists_ examples_of);
    if opt_kinds options || opt_list options then
      _ ← list_tests (popen run_environ) options cfg getcwd (example_names_original examples);
      mret None
    else run_selected (programs_dictionary programs) scripts examples.
End run_tests.

(** ** The jobs that are dispatched *)

Section dispatch_proofs.
Context (options : options_t) (cfg : config) (getcwd : string) (eval : string → res bool).

(** What a computation of jobs returns when it returns. *)
Definition returns {A} (m : io A) (P : A → Prop) : Prop :=
  ∀ st st' a, m st = (st', Ok a) → P a.

Lemma returns_ret {A} (a : A) (P : A → Prop) : P a → returns (mret a) P.
Proof. by intros Ha st st' b [= _ <-]. Qed.
Lemma returns_throw {A} e (P : A → Prop) : returns (throw e) P.
Proof. by intros st st' b. Qed.
Lemma returns_bind {A B} (m : io A) (k : A → io B) (Q : A → Prop) (P : B → Prop) :
  returns m Q → (∀ a, Q a → returns (k a) P) → returns (m ≫= k) P.
Proof.
  intros Hm Hk st st' b. unfold mbind, eff_bind. destruct (m st) as [st1 [a|e]] eqn:He; [|done].
  apply Hk. by eapply Hm.
Qed.
Lemma returns_any {A} (m : io A) : returns m (λ _, True).
Proof. by intros st st' a. Qed.
Lemma returns_impl {A} (m : io A) (P Q : A → Prop) :
  returns m P → (∀ a, P a → Q a) → returns m Q.
Proof. intros Hm HPQ st st' a Ha. eapply HPQ, Hm, Ha. Qed.

Lemma returns_queue what j (P : list job → Prop) : P [j] → returns (queue_job options what j) P.
Proof.
  intros Hj. eapply returns_bind; [apply returns_any|]. intros _ _. by apply returns_ret.
Qed.
Lemma returns_concat {A} (f : A → io (list job)) (P : job → Prop) l :
  (∀ x, x ∈ l → returns (f x) (Forall P)) → returns (concat_io f l) (Forall P).
Proof.
  induction l as [|x l IH]; intros Hl; simpl; [by apply returns_ret|].
  eapply returns_bind; [apply Hl; left|]. intros js Hjs.
  eapply returns_bind; [apply IH; intros; apply Hl; by right|]. intros rest Hrest.
  apply returns_ret. by apply Forall_app.
Qed.

(** [j] is a proper job of one of the three kinds. *)
Definition suite_kind (j : job) : Prop :=
  is_break j = false ∧ is_example j = false ∧ is_pyexample j = false.
Definition example_kind (j : job) : Prop :=
  is_break j = false ∧ is_example j = true ∧ is_pyexample j = false.
Definition pyexample_kind (j : job) : Prop :=
  is_break j = false ∧ is_example j = false ∧ is_pyexample j = true.

Lemma suite_job_kind dir test : suite_kind (suite_job options cfg getcwd dir test).
Proof. unfold suite_job, suite_kind. by repeat case_match. Qed.

(** Each suite is dispatched once, in order; blank names are left out. *)
Lemma dispatch_suites_jobs dir suite_list st :
  ∃ st', dispatch_suites options cfg getcwd dir suite_list st =
    (st', Ok (suite_job options cfg getcwd dir <$>
              filter (λ t, t ≠ "") (strip <$> suite_list))).
Proof.
  revert st. induction suite_list as [|t l IH]; intros st; [by eexists|].
  cbn [dispatch_suites]. unfold nonempty. csimpl. unfold mbind, eff_bind.
  destruct (decide (strip t = "")) as [He|He].
  - rewrite bool_decide_eq_true_2 by done. simpl. destruct (IH st) as [st' Hst]. rewrite Hst.
    rewrite filter_cons_False by naive_solver. by eexists.
  - rewrite bool_decide_eq_false_2 by done. simpl. unfold queue_job, verbosely, mbind, eff_bind.
    rewrite filter_cons_True by done.
    destruct (opt_verbose options); simpl;
      (edestruct IH as [st' Hst]; rewrite Hst; by eexists).
Qed.

Lemma dispatch_examples_kind programs dir tests :
  returns (dispatch_examples options cfg getcwd eval programs dir tests) (Forall example_kind).
Proof.
  unfold dispatch_examples. destruct (none_requested options).
  - destruct (_ && _); [|by apply returns_ret]. apply returns_concat. intros [[[name test] run] vrun] _.
    unfold dispatch_example. case_decide; [|by apply returns_ret].
    eapply returns_bind; [apply returns_any|]. intros [] _; [|by apply returns_ret].
    eapply returns_bind; [apply returns_any|]. intros skip _. apply returns_queue.
    by destruct skip; repeat constructor.
  - destruct (nonempty (opt_example options)); [|by apply returns_ret].
    destruct (fnmatch_filter _ _) as [|key keys].
    + eapply returns_bind; [apply returns_any|]. intros _ _. by apply returns_ret.
    + apply returns_concat. intros k _. unfold dispatch_named_example.
      destruct (dict_get programs k); [|apply returns_throw]. apply returns_queue. by repeat constructor.
Qed.

Lemma dispatch_pyexamples_kind scripts dir tests :
  returns (dispatch_pyexamples options cfg getcwd eval scripts dir tests) (Forall pyexample_kind).
Proof.
  unfold dispatch_pyexamples. destruct (none_requested options).
  - destruct (_ && _); [|by apply returns_ret]. apply returns_concat. intros [test run] _.
    unfold dispatch_pyexample. case_decide; [|by apply returns_ret].
    eapply returns_bind; [apply returns_any|]. intros [] _; [|by apply returns_ret].
    apply returns_queue. apply Forall_singleton.
    by destruct (opt_valgrind options), (ENABLE_PYTHON_BINDINGS cfg).
  - destruct (nonempty (opt_pyexample options)); [|by apply returns_ret]. case_decide.
    + eapply returns_bind; [apply returns_any|]. intros _ _. by apply returns_ret.
    + apply returns_queue. by repeat constructor.
Qed.

Lemma dispatch_shape programs scripts examples dir suite_list st st' jobs :
  dispatch options cfg getcwd eval programs scripts examples dir suite_list st = (st', Ok jobs) →
  ∃ cpp python,
    jobs = (suite_job options cfg getcwd dir <$> filter (λ t, t ≠ "") (strip <$> suite_list))
           ++ cpp ++ python ∧
    Forall example_kind cpp ∧ Forall pyexample_kind python ∧ Forall (λ j, is_break j = false) jobs.
Proof.
  unfold dispatch. unfold mbind, eff_bind.
  destruct (dispatch_suites_jobs dir suite_list st) as [st1 ->].
  destruct (dispatch_examples _ _ _ _ _ _ _ st1) as [st2 [cpp|e]] eqn:Hcpp; [|done].
  destruct (dispatch_pyexamples _ _ _ _ _ _ _ st2) as [st3 [python|e]] eqn:Hpy; [|done].
  intros [= <- <-]. apply dispatch_examples_kind in Hcpp. apply dispatch_pyexamples_kind in Hpy.
  exists cpp, python. split_and!; [done..|]. rewrite !Forall_app. split_and!.
  - apply Forall_fmap, Forall_forall. intros t _. apply suite_job_kind.
  - by eapply Forall_impl; [done|intros j []].
  - by eapply Forall_impl; [done|intros j []].
Qed.
(** The dispatched jobs are the suites, one per name that is not blank, in
    the order of the list, then C++ examples, then Python examples; none is a
    break job, so the worker threads end only after the last of them. *)
Theorem dispatch_jobs programs scripts examples dir suite_list st st' jobs :
  dispatch options cfg getcwd eval programs scripts examples dir suite_list st = (st', Ok jobs) →
  ∃ cpp python,
    jobs = (suite_job options cfg getcwd dir <$> filter (λ t, t ≠ "") (strip <$> suite_list))
           ++ cpp ++ python ∧
    Forall example_kind cpp ∧ Forall pyexample_kind python ∧ Forall (λ j, is_break j = false) jobs.
Proof. apply dispatch_shape. Qed.
End dispatch_proofs.

(** ** Which suites and examples are selected *)

Lemma suite_job_skip options cfg getcwd dir test :
  is_skip (suite_job options cfg getcwd dir test) = true ↔
  (opt_valgrind options = true ∧ test ∈ core_valgrind_skip_tests) ∨
  (NSC_ENABLED cfg = false ∧ test ∈ core_nsc_missing_skip_tests).
Proof.
  unfold suite_job.
  destruct (bool_decide_reflect (test ∈ core_valgrind_skip_tests)),
    (bool_decide_reflect (test ∈ core_nsc_missing_skip_tests)),
    (opt_valgrind options), (NSC_ENABLED cfg); simpl; naive_solver.
Qed.

Lemma remove_first_elem x l : x ∉ l → remove_first x l = l.
Proof.
  induction l as [|y l IH]; intros Hx; simpl; [done|]. apply not_elem_of_cons in Hx as [? ?].
  rewrite decide_False by done. by rewrite IH.
Qed.
Lemma remove_first_nodup x l :
  NoDup l → NoDup (remove_first x l) ∧ ∀ y, y ∈ remove_first x l ↔ y ∈ l ∧ y ≠ x.
Proof.
  induction 1 as [|z l Hz Hl [IH IHin]]; simpl; [split; [constructor|set_solver]|].
  case_decide; [subst; split; [done|set_solver]|]. split.
  - constructor; [|done]. rewrite IHin. naive_solver.
  - intros y. rewrite !elem_of_cons, IHin. naive_solver.
Qed.
Lemma remove_all_nodup xs l :
  NoDup l → NoDup (foldl (λ l t, remove_first t l) l xs) ∧
    ∀ y, y ∈ foldl (λ l t, remove_first t l) l xs ↔ y ∈ l ∧ y ∉ xs.
Proof.
  revert l. induction xs as [|x xs IH]; intros l Hl; simpl; [set_solver|].
  destruct (remove_first_nodup x l Hl) as [Hnd Hin]. destruct (IH _ Hnd) as [Hnd' Hin'].
  split; [done|]. intros y. rewrite Hin', Hin, elem_of_cons. naive_solver.
Qed.

(** Unless one single suite or the performance tests are asked for, the
    suites selected are those that the test runner lists (each once) and that
    it does not list as performance tests. *)
Theorem select_suites_performance popen options cfg getcwd st st1 st2 suites rc rc' perf :
  opt_suite options = "" → opt_example options = "" → opt_pyexample options = "" →
  opt_constrain options ≠ "performance" →
  ask_runner popen options cfg getcwd
    (if nonempty (opt_constrain options)
     then " --print-test-name-list --test-type=" +:+ opt_constrain options
     else " --print-test-name-list") st = (st1, Ok (rc, Text suites)) →
  ask_runner popen options cfg getcwd " --print-test-name-list --test-type=performance" st1
    = (st2, Ok (rc', Text perf)) →
  NoDup (split "010"%char suites) →
  ∃ l, select_suites popen options cfg getcwd st = (st2, Ok l) ∧ NoDup l ∧
    ∀ t, t ∈ l ↔ t ∈ split "010"%char suites ∧ t ∉ split "010"%char perf.
Proof.
  intros Hs He Hp Hc Hask Hperf Hnd. unfold select_suites, requested_suites.
  rewrite Hs, He, Hp. change (nonempty "") with false. change (bool_decide ("" = "")) with true.
  cbn [andb]. unfold mbind, eff_bind. rewrite Hask. cbn.
  rewrite (bool_decide_eq_false_2 (opt_constrain options = "performance")) by done. cbn.
  rewrite Hperf. cbn.
  destruct (remove_all_nodup (split "010"%char perf) _ Hnd). by eexists.
Qed.

(** What the comments of the source promise about the options: without
    --suite, --example and --pyexample, C++ examples run only when the kind is
    unconstrained or [example], and Python examples only when it is
    unconstrained or [pyexample]; a suite named alone runs no example. *)
Theorem dispatch_options options cfg getcwd eval programs scripts examples dir suite_list
    st st' jobs j :
  dispatch options cfg getcwd eval programs scripts examples dir suite_list st = (st', Ok jobs) →
  opt_example options = "" → opt_pyexample options = "" → j ∈ jobs →
  (is_example j = true →
     opt_suite options = "" ∧ ENABLE_EXAMPLES cfg = true ∧
     (opt_constrain options = "" ∨ opt_constrain options = "example")) ∧
  (is_pyexample j = true →
     opt_suite options = "" ∧ ENABLE_EXAMPLES cfg = true ∧
     (opt_constrain options = "" ∨ opt_constrain options = "pyexample")).
Proof.
  unfold dispatch. unfold mbind, eff_bind.
  destruct (dispatch_suites_jobs options cfg getcwd dir suite_list st) as [st1 ->].
  destruct (dispatch_examples _ _ _ _ _ _ _ st1) as [st2 [cpp|e]] eqn:Hcpp; [|done].
  destruct (dispatch_pyexamples _ _ _ _ _ _ _ st2) as [st3 [python|e]] eqn:Hpy; [|done].
  intros [= <- <-] He Hp Hj.
  pose proof (dispatch_examples_kind _ _ _ _ _ _ _ _ _ _ Hcpp) as Hck.
  pose proof (dispatch_pyexamples_kind _ _ _ _ _ _ _ _ _ _ Hpy) as Hpk.
  rewrite Forall_forall in Hck, Hpk. unfold none_requested, dispatch_examples, dispatch_pyexamples in *.
  unfold none_requested, nonempty in *. rewrite He, Hp in Hcpp, Hpy.
  change (bool_decide ("" = "")) with true in *. cbn [negb] in *. rewrite !andb_true_r in *.
  apply elem_of_app in Hj as [Hj|[Hj|Hj]%elem_of_app].
  - apply list_elem_of_fmap in Hj as (t & -> & _).
    destruct (suite_job_kind options cfg getcwd dir t) as (_ & -> & ->). done.
  - destruct (Hck j Hj) as (_ & _ & ->). split; [|done]. intros _.
    destruct (bool_decide_reflect (opt_suite options = "")); [|by injection Hcpp as <- <-; set_solver].
    destruct (bool_decide_reflect (opt_constrain options = ""));
      destruct (bool_decide_reflect (opt_constrain options = "example"));
      destruct (ENABLE_EXAMPLES cfg); simpl in Hcpp; try (by injection Hcpp as <- <-; set_solver); auto.
  - destruct (Hpk j Hj) as (_ & -> & _). split; [done|]. intros _.
    destruct (bool_decide_reflect (opt_suite options = "")); [|by injection Hpy as <- <-; set_solver].
    destruct (bool_decide_reflect (opt_constrain options = ""));
      destruct (bool_decide_reflect (opt_constrain options = "pyexample"));
      destruct (ENABLE_EXAMPLES cfg); simpl in Hpy; try (by injection Hpy as <- <-; set_solver); auto.
Qed.

(** The old PYTHONPATH is lost: [make_paths] leaves the directory of the
    bindings, twice if there was a PYTHONPATH; on Linux every module path is
    appended to LD_LIBRARY_PATH, and no other variable changes. *)
Theorem make_paths_environ cfg environ :
  let pypath := path_join (path_join (NS3_BUILDDIR cfg) "bindings") "python" in
  let environ' := make_paths cfg "linux" environ in
  environ' !! "PYTHONPATH" = Some (match environ !! "PYTHONPATH" with
                                   | Some _ => pypath +:+ ":" +:+ pypath
                                   | None => pypath
                                   end) ∧
  environ' !! "LD_LIBRARY_PATH" =
    Some (default "" (environ !! "LD_LIBRARY_PATH")
          +:+ cat ((λ p, ":" +:+ p) <$> NS3_MODULE_PATH cfg)) ∧
  (∀ v, v ≠ "PYTHONPATH" → v ≠ "LD_LIBRARY_PATH" → environ' !! v = environ !! v).
Proof.
  intros pypath environ'. unfold environ', make_paths. fold pypath.
  rewrite !decide_False by done. set (e1 := <["PYTHONPATH" := pypath]> environ).
  set (e2 := if bool_decide _ then _ else _).
  assert (e2 !! "PYTHONPATH" = Some (match environ !! "PYTHONPATH" with
    | Some _ => pypath +:+ ":" +:+ pypath | None => pypath end) ∧
    ∀ v, v ≠ "PYTHONPATH" → e2 !! v = environ !! v) as [H1 H2].
  { unfold e2, e1. destruct (environ !! "PYTHONPATH") as [old|] eqn:Hold; simpl.
    - split; [by rewrite lookup_alter_eq, lookup_insert_eq|].
      intros v Hv. by rewrite lookup_alter_ne, lookup_insert_ne by done.
    - split; [by rewrite lookup_insert_eq|].
      intros v Hv. by rewrite !lookup_insert_ne by done. }
  assert (∀ ps (e : gmap string string) c, e !! "LD_LIBRARY_PATH" = Some c →
    let e' := foldl (λ (e : gmap string string) p, alter (λ v, v +:+ ":" +:+ p) "LD_LIBRARY_PATH" e) e ps in
    e' !! "LD_LIBRARY_PATH" = Some (c +:+ cat ((λ p, ":" +:+ p) <$> ps)) ∧
    ∀ v, v ≠ "LD_LIBRARY_PATH" → e' !! v = e !! v) as Hfold.
  { intros ps. induction ps as [|p ps IH]; intros e c Hc; csimpl; [by rewrite append_nil_r|].
    destruct (IH (alter (λ v, v +:+ ":" +:+ p) "LD_LIBRARY_PATH" e) (c +:+ ":" +:+ p)) as [Hl Ho].
    { by rewrite lookup_alter_eq, Hc. }
    rewrite Hl. split; [by rewrite !append_assoc|]. intros v Hv. by rewrite Ho, lookup_alter_ne. }
  unfold add_paths. set (e3 := if decide _ then _ else _).
  assert (e3 !! "LD_LIBRARY_PATH" = Some (default "" (environ !! "LD_LIBRARY_PATH")) ∧
    ∀ v, v ≠ "LD_LIBRARY_PATH" → e3 !! v = e2 !! v) as [H3 H4].
  { unfold e3. case_decide as Hd.
    - split; [|done]. rewrite H2 in * by done. by destruct Hd as [x ->].
    - rewrite lookup_insert_eq, H2 in * by done. split.
      + by destruct (environ !! "LD_LIBRARY_PATH"); [destruct Hd|].
      + intros v Hv. by rewrite lookup_insert_ne. }
  destruct (Hfold (NS3_MODULE_PATH cfg) e3 _ H3) as [H5 H6]. split_and!.
  - rewrite H6, H4 by done. done.
  - done.
  - intros v Hv Hv'. by rewrite H6, H4, H2.
Qed.

(** ** The return code *)

Section exit_code.
Context (popen : gmap string string → string → string → res process).
Context (platform : string) (environ : gmap string string).
Context (options : options_t) (cfg : config).
Context (getcwd : string) (exists_ : string → bool) (examples_of : string → examples_file).
Context (eval : string → res bool) (parse_xml : string → res element).
Context (waf : string → Z) (build_status : option (list string * list string)).
Context (date_and_time : string) (available : Z) (use_colors : bool).
Context (exchange : list job → Z → io (list job)).
Abbreviation run_job := (finish (popen (run_environ platform environ cfg)) options cfg).

Lemma collect_returns xml total t js :
  returns (collect options use_colors xml total t js)
    (λ t', t' = foldl count t (filter (λ j, is_break j = false) js)).
Proof.
  revert t. induction js as [|j js IH]; intros t; simpl; [by apply returns_ret|].
  apply (returns_bind _ _ (λ t', t' = if decide (is_break j = false) then count t j else t)).
  - unfold collect_job. destruct (is_break j); [by apply returns_ret|].
    eapply returns_bind; [apply returns_any|]. intros _ _.
    eapply returns_bind; [apply returns_any|]. intros _ _. by apply returns_ret.
  - intros t' ->. eapply returns_impl; [apply IH|]. intros t' ->. case_decide.
    + by rewrite filter_cons_True.
    + by rewrite filter_cons_False.
Qed.

Lemma finish_run_returns et ee vf dir xml total js :
  returns (finish_run parse_xml options use_colors et ee vf dir xml total new_tally js)
    (λ c, c = return_code total (tally_of js)).
Proof.
  unfold finish_run. eapply returns_bind; [apply collect_returns|]. intros t ->.
  do 8 (eapply returns_bind; [apply returns_any|]; intros _ _). by apply returns_ret.
Qed.

(** C4: if the exchange with the worker threads returns the results of all the
    jobs in some order, a run of [run_tests] that returns a code returns that of
    waf when waf failed.  Otherwise the code is 0 if and only if every job of
    this run was skipped or its process returned 0: the jobs are those that
    [dispatch] made of the programs and scripts of the build status file, of the
    examples of the modules and of the suites that [select_suites] chose, each
    step in the state that the one before it left. *)
Theorem run_tests_code st st' c :
  (∀ jobs n st st' rs, Forall (λ j, is_break j = false) jobs →
     exchange jobs n st = (st', Ok rs) → rs ≡ₚ result_of run_job <$> jobs) →
  run_tests popen platform environ options cfg getcwd exists_ examples_of eval parse_xml waf build_status
    date_and_time available use_colors exchange st = (st', Ok (Some c)) →
  (opt_nowaf options = false ∧ waf (waf_cmd options) = c ∧ c ≠ 0) ∨
  ((opt_nowaf options = true ∨ waf (waf_cmd options) = 0) ∧
   opt_kinds options = false ∧ opt_list options = false ∧
   ∃ programs scripts examples st0 st1 st2 st3 st4 st5 st6 suite_list n jobs rs,
     build_status = Some (programs, scripts) ∧
     collect_examples cfg getcwd exists_ examples_of = Ok examples ∧
     run_waf options waf st = (st0, Ok 0) ∧
     show_paths options platform (make_paths cfg platform environ) st0 = (st1, Ok ()) ∧
     open_results date_and_time st1 = (st2, Ok ()) ∧
     select_suites (popen (run_environ platform environ cfg)) options cfg getcwd st2
       = (st3, Ok suite_list) ∧
     choose_processors options available st3 = (st4, Ok n) ∧
     dispatch options cfg getcwd eval (programs_dictionary programs) scripts examples
       (testpy_output_dir date_and_time) suite_list st4 = (st5, Ok jobs) ∧
     exchange jobs n st5 = (st6, Ok rs) ∧
     (c = 0 ↔ ∀ j, j ∈ jobs → is_skip j = true ∨ returncode (result_of run_job j) = 0)).
Proof.
  intros Hex (w & st0 & Hwaf & Hrun)%bind_run_inv.
  assert (if opt_nowaf options then w = 0 else w = waf (waf_cmd options)) as Hw.
  { unfold run_waf in Hwaf. destruct (opt_nowaf options); [by injection Hwaf|].
    by apply bind_run_inv in Hwaf as (? & ? & _ & [= _ <-]). }
  case_decide as Hw0.
  { injection Hrun as _ ->. left. by destruct (opt_nowaf options). }
  subst w. right.
  split; [destruct (opt_nowaf options); auto|].
  apply bind_run_inv in Hrun as ([] & st1 & Hpaths & Hrun).
  apply bind_run_inv in Hrun as ([programs scripts] & s1 & Hstatus & Hrun).
  apply bind_run_inv in Hrun as (examples & s2 & Hexamples & Hrun).
  assert (s1 = st1 ∧ build_status = Some (programs, scripts)) as [-> ->].
  { unfold lift_res in Hstatus. by destruct build_status; simplify_eq. }
  unfold lift_res in Hexamples. injection Hexamples as <- Hexamples.
  destruct (opt_kinds options), (opt_list options); cbn [orb] in Hrun;
    try by apply bind_run_inv in Hrun as (? & ? & _ & ?).
  split; [done|]. split; [done|]. unfold run_selected in Hrun.
  apply bind_run_inv in Hrun as ([] & st2 & Hopen & Hrun).
  apply bind_run_inv in Hrun as (suite_list & st3 & Hsuites & Hrun).
  apply bind_run_inv in Hrun as (n & st4 & Hn & Hrun).
  apply bind_run_inv in Hrun as (jobs & st5 & Hjobs & Hrun).
  apply bind_run_inv in Hrun as (rs & st6 & Hrs & Hrun).
  apply bind_run_inv in Hrun as (c' & st7 & Hfinish & [= _ <-]).
  exists programs, scripts, examples, st0, st1, st2, st3, st4, st5, st6, suite_list, n, jobs, rs.
  do 9 (split; [done|]). rewrite (finish_run_returns _ _ _ _ _ _ _ _ _ _ Hfinish).
  assert (Forall (λ j, is_break j = false) jobs) as Hb.
  { by apply dispatch_shape in Hjobs as (? & ? & _ & _ & _ & ?). }
  apply results_code; [done|]. by eapply Hex.
Qed.
End exit_code.

(** ** Concrete runs *)

Definition demo_options : options_t :=
  Options "" "" false "" false "QUICK" false false false false true "" true "" "" false "" "" false 0.
(** A test runner with the suites [a] and [p], of which [p] is a performance
    test; every process returns 0. *)
Definition demo_popen (cmd _ : string) : res process :=
  Ok (Process 0 (Text (if endswith cmd "performance" then "p" else "a" +:+ nl +:+ "p")) (Text "") (QArith_base.Qmake 1 1)
        {["testpy-output/now/a.xml" := "<Test/>"]}).
Definition demo_dispatch (st : fs) : fs * res (list job) :=
  dispatch demo_options default_config "/ns3" (λ _, Ok true) [] [] (ExampleLists [] [] []) "out"
    ["a"; " "] st.

Lemma dispatch_jobs_witness :
  ∃ jobs, demo_dispatch (Fs "" ∅) = (Fs "" ∅, Ok jobs) ∧
  ∃ cpp python,
    jobs = [suite_job demo_options default_config "/ns3" "out" "a"] ++ cpp ++ python ∧
    Forall example_kind cpp ∧ Forall pyexample_kind python ∧ Forall (λ j, is_break j = false) jobs.
Proof.
  eexists. split; [reflexivity|].
  exact (dispatch_jobs demo_options default_config "/ns3" (λ _, Ok true) [] []
    (ExampleLists [] [] []) "out" ["a"; " "] (Fs "" ∅) (Fs "" ∅) _ eq_refl).
Defined.

Lemma dispatch_options_witness :
  ∃ jobs j, demo_dispatch (Fs "" ∅) = (Fs "" ∅, Ok jobs) ∧ j ∈ jobs ∧
    (is_example j = true → opt_suite demo_options = "").
Proof.
  eexists _, _. split; [reflexivity|]. split; [left|]. intros Hx.
  apply (proj1 (dispatch_options demo_options default_config "/ns3" (λ _, Ok true) [] []
    (ExampleLists [] [] []) "out" ["a"; " "] (Fs "" ∅) (Fs "" ∅) _ _ eq_refl eq_refl eq_refl
    (list_elem_of_here _ _)) Hx).
Defined.

Lemma select_suites_performance_witness :
  ∃ st2 l, select_suites demo_popen demo_options default_config "/ns3" (Fs "" ∅) = (st2, Ok l) ∧
    NoDup l ∧ ∀ t, t ∈ l ↔ t ∈ ["a"; "p"] ∧ t ∉ ["p"].
Proof.
  assert (NoDup (split "010"%char ("a" +:+ nl +:+ "p"))) as Hnd
    by (apply (bool_decide_unpack _); vm_compute; exact I).
  eexists. exact (select_suites_performance demo_popen demo_options default_config "/ns3" (Fs "" ∅)
    _ _ ("a" +:+ nl +:+ "p") 0 0 "p" eq_refl eq_refl eq_refl ltac:(discriminate)
    eq_refl eq_refl Hnd).
Defined.

Definition demo_exchange (jobs : list job) (_ : Z) : io (list job) := λ st,
  (Fs (stdout st) ({["testpy-output/now/a.xml" := "<Test/>"]} ∪ files st),
   Ok (result_of (finish demo_popen demo_options default_config) <$> jobs)).

Abbreviation demo_run := (run_tests (λ _, demo_popen) "linux" ∅ demo_options default_config
  "/ns3" (λ _, false) (λ _, ExamplesFile [] []) (λ _, Ok true) (λ _, Err AttributeError) (λ _, 1)
  (Some ([], [])) "now" 1 false demo_exchange (Fs "" ∅)).
Lemma run_tests_code_witness :
  (∃ st', demo_run = (st', Ok (Some 0))) ∧
  (demo_run).2 = Ok (Some 0) ∧
  ∃ jobs : list job, jobs ≠ [] ∧ ∀ j, j ∈ jobs →
    is_skip j = true ∨ returncode (result_of (finish demo_popen demo_options default_config) j) = 0.
Proof.
  set (r := demo_run).
  assert (r = (r.1, Ok (Some 0))) as Hr by (vm_compute; reflexivity).
  destruct (run_tests_code (λ _, demo_popen) "linux" ∅ demo_options default_config "/ns3" (λ _, false)
    (λ _, ExamplesFile [] []) (λ _, Ok true) (λ _, Err AttributeError) (λ _, 1) (Some ([], []))
    "now" 1 false demo_exchange (Fs "" ∅) r.1 0)
    as [(_ & H & _)|(_ & _ & _ & H)].
  - intros jobs n st st' rs _ [= <- <-]. done.
  - exact Hr.
  - discriminate H.
  - split; [exists r.1; exact Hr|]. split; [by rewrite Hr|].
    destruct H as (programs & scripts & examples & st0 & st1 & st2 & st3 & st4 & st5 & st6 & suite_list & n &
      jobs & rs & [= <- <-] & [= <-] & [= <-] & [= <-] & [= <-] & Hsuites & Hn & Hjobs & _ & Hiff).
    exists jobs. split; [|by apply Hiff].
    vm_compute in Hsuites. injection Hsuites as <- <-. vm_compute in Hn. injection Hn as <- <-.
    vm_compute in Hjobs. injection Hjobs as _ <-. discriminate.
Defined.
