(* ===== verification/PatchSet.v ===== *)
(** * Patch sets of utils/check-style.py
    The lines, chunks and patches of a unified diff, the parser
    [parse_patchset], the writers, and the pass
    [remove_trailing_whitespace_changes].  A line is an object that the lists
    of [PatchChunk.src] and [PatchChunk.dst] share, so these lists hold
    positions in the chunk, and a change of a line is seen through both. *)
From Stdlib Require Import Ascii.
From S2P Require Import Prelude PyStr PyRe.
#[local] Open Scope Z_scope.

Definition nl : string := String newline "".

(** A file opened for writing: the strings written to it, in order. *)
Abbreviation out_file := (list string).
Definition f_write (s : string) : eff out_file exn unit := λ f, (f ++ [s], Ok ()).

(** ** class PatchChunkLine *)
Definition SRC : Z := 1.
Definition DST : Z := 2.
Definition BOTH : Z := 3.

Record PatchChunkLine := { l_type : Z; l_line : string }.
#[export] Instance line_eq_dec : EqDecision PatchChunkLine.
Proof. solve_decision. Defined.

Definition new_line : PatchChunkLine := {| l_type := 0; l_line := "" |}.
Definition line_set_src (line : string) (self : PatchChunkLine) : PatchChunkLine :=
  {| l_type := SRC; l_line := line |}.
Definition line_set_dst (line : string) (self : PatchChunkLine) : PatchChunkLine :=
  {| l_type := DST; l_line := line |}.
Definition line_set_both (line : string) (self : PatchChunkLine) : PatchChunkLine :=
  {| l_type := BOTH; l_line := line |}.
Definition append_to_line (s : string) (self : PatchChunkLine) : PatchChunkLine :=
  {| l_type := l_type self; l_line := l_line self +:+ s |}.
Definition is_src (self : PatchChunkLine) : bool :=
  (l_type self =? SRC) || (l_type self =? BOTH).
Definition is_dst (self : PatchChunkLine) : bool :=
  (l_type self =? DST) || (l_type self =? BOTH).
Definition line_write (self : PatchChunkLine) : eff out_file exn unit :=
  if l_type self =? SRC then f_write ("-" +:+ l_line self +:+ nl)
  else if l_type self =? DST then f_write ("+" +:+ l_line self +:+ nl)
  else if l_type self =? BOTH then f_write (" " +:+ l_line self +:+ nl)
  else throw (PyException "invalid patch").

(** ** class PatchChunk *)
Record PatchChunk := { c_lines : list PatchChunkLine; c_src_pos : Z; c_dst_pos : Z }.
#[export] Instance chunk_eq_dec : EqDecision PatchChunk.
Proof. solve_decision. Defined.

Definition new_chunk (src_pos dst_pos : string) : PatchChunk :=
  {| c_lines := []; c_src_pos := int_of_digits src_pos; c_dst_pos := int_of_digits dst_pos |}.
Definition add_line (line : PatchChunkLine) (self : PatchChunk) : PatchChunk :=
  {| c_lines := c_lines self ++ [line]; c_src_pos := c_src_pos self; c_dst_pos := c_dst_pos self |}.

(** The positions, counted from [n], of the elements that satisfy [p]. *)
Fixpoint positions {A} (p : A → bool) (n : nat) (l : list A) : list nat :=
  match l with
  | [] => []
  | x :: l => if p x then n :: positions p (S n) l else positions p (S n) l
  end.
Definition chunk_src (self : PatchChunk) : list nat := positions is_src 0 (c_lines self).
Definition chunk_dst (self : PatchChunk) : list nat := positions is_dst 0 (c_lines self).
Definition src_len (self : PatchChunk) : Z := Z.of_nat (length (chunk_src self)).
Definition dst_len (self : PatchChunk) : Z := Z.of_nat (length (chunk_dst self)).

Definition chunk_header (src_pos src_len dst_pos dst_len : Z) : string :=
  "@@ -" +:+ pretty src_pos +:+ "," +:+ pretty src_len +:+ " +" +:+
  pretty dst_pos +:+ "," +:+ pretty dst_len +:+ " @@" +:+ nl.
Definition chunk_write (self : PatchChunk) : eff out_file exn unit :=
  _ ← f_write (chunk_header (c_src_pos self) (src_len self) (c_dst_pos self) (dst_len self));
  for_each line_write (c_lines self).

(** ** class Patch *)
Record Patch := { p_src : string; p_dst : string; p_chunks : list PatchChunk }.
#[export] Instance patch_eq_dec : EqDecision Patch.
Proof. solve_decision. Defined.

Definition new_patch : Patch := {| p_src := ""; p_dst := ""; p_chunks := [] |}.
Definition add_chunk (chunk : PatchChunk) (self : Patch) : Patch :=
  {| p_src := p_src self; p_dst := p_dst self; p_chunks := p_chunks self ++ [chunk] |}.
Definition patch_set_src (src : string) (self : Patch) : Patch :=
  {| p_src := src; p_dst := p_dst self; p_chunks := p_chunks self |}.
Definition patch_set_dst (dst : string) (self : Patch) : Patch :=
  {| p_src := p_src self; p_dst := dst; p_chunks := p_chunks self |}.
Definition set_chunks (chunks : list PatchChunk) (self : Patch) : Patch :=
  {| p_src := p_src self; p_dst := p_dst self; p_chunks := chunks |}.
Definition set_lines (lines : list PatchChunkLine) (self : PatchChunk) : PatchChunk :=
  {| c_lines := lines; c_src_pos := c_src_pos self; c_dst_pos := c_dst_pos self |}.
Definition patch_write (self : Patch) : eff out_file exn unit :=
  _ ← f_write ("--- " +:+ p_src self +:+ nl);
  _ ← f_write ("+++ " +:+ p_dst self +:+ nl);
  for_each chunk_write (p_chunks self).

(** ** The regular expressions of the parser *)
(** The group of dot-star and then the end of the line: the dot is no newline,
    the end may stand before one final newline. *)
Definition dot_star_end (l : list ascii) : option (list ascii) :=
  let '(body, rest) := span (λ a, negb (bool_decide (a = newline))) l in
  match rest with
  | [] => Some body
  | [_] => Some body
  | _ => None
  end.
(** A literal prefix [p], then the rest of the line: the first group. *)
Definition search_prefix (p : string) (line : string) : option string :=
  of_chars <$> (drop_prefix (chars p) (chars line) ≫= dot_star_end).
(** [^@@ -([0-9]+),([0-9]+) \+([0-9]+),([0-9]+) @@]: groups 1 and 3. *)
Definition chunk_start (line : string) : option (string * string) :=
  l ← drop_prefix (chars "@@ -") (chars line);
  '(g1, l) ← digits1 l;
  l ← drop_prefix (chars ",") l;
  '(g2, l) ← digits1 l;
  l ← drop_prefix (chars " +") l;
  '(g3, l) ← digits1 l;
  l ← drop_prefix (chars ",") l;
  '(g4, l) ← digits1 l;
  _ ← drop_prefix (chars " @@") l;
  Some (of_chars g1, of_chars g3).

(** ** parse_patchset
    [current_patch] and [current_chunk] are references: positions of the patch
    in the patch set, and of the chunk in a patch that need not be the
    current one. *)
Record pstate := {
  patchset : list Patch;
  current_patch : option nat;
  current_chunk : option (nat * nat);
}.
Definition pstate0 : pstate :=
  {| patchset := []; current_patch := None; current_chunk := None |}.

Definition upd_patch (i : nat) (f : Patch → Patch) (st : pstate) : pstate :=
  {| patchset := alter f i (patchset st); current_patch := current_patch st;
     current_chunk := current_chunk st |}.

(** [current_chunk.add_line(l)]: unbound before the first chunk. *)
Definition add_to_chunk (l : PatchChunkLine) (st : pstate) : res pstate :=
  match current_chunk st with
  | None => Err UnboundLocalError
  | Some (i, j) =>
      Ok (upd_patch i (λ p, set_chunks (alter (add_line l) j (p_chunks p)) p) st)
  end.

(** The body of the loop over the lines. *)
Definition parse_line (st : pstate) (line : string) : res pstate :=
  match search_prefix "--- " line with
  | Some g => Ok {| patchset := patchset st ++ [patch_set_src g new_patch];
                    current_patch := Some (length (patchset st));
                    current_chunk := current_chunk st |}
  | None =>
  match search_prefix "+++ " line with
  | Some g =>
      match current_patch st with
      | None => Err AttributeError
      | Some i => Ok (upd_patch i (patch_set_dst g) st)
      end
  | None =>
  match chunk_start line with
  | Some (g1, g3) =>
      match current_patch st with
      | None => Err AttributeError
      | Some i =>
          let st' := upd_patch i (add_chunk (new_chunk g1 g3)) st in
          Ok {| patchset := patchset st'; current_patch := current_patch st';
                current_chunk :=
                  Some (i, default 0%nat ((λ p, length (p_chunks p)) <$> patchset st !! i)) |}
      end
  | None =>
  match search_prefix "-" line with
  | Some g => add_to_chunk (line_set_src g new_line) st
  | None =>
  match search_prefix "+" line with
  | Some g => add_to_chunk (line_set_dst g new_line) st
  | None =>
  match search_prefix " " line with
  | Some g => add_to_chunk (line_set_both g new_line) st
  | None => Err (PyException "")
  end end end end end end.

Fixpoint parse_lines (st : pstate) (generator : list string) : res pstate :=
  match generator with
  | [] => Ok st
  | line :: generator => st ← parse_line st line; parse_lines st generator
  end.
Definition parse_patchset (generator : list string) : res (list Patch) :=
  patchset <$> parse_lines pstate0 generator.

(** ** remove_trailing_whitespace_changes *)
Definition is_blank (a : ascii) : bool :=
  bool_decide (a = " "%char) || bool_decide (a = "009"%char).
(** Anything, then one blank or more up to the end of the line: the first group
    is greedy and leaves one blank to the second. *)
Definition whitespace (s : string) : option (string * string) :=
  body ← dot_star_end (chars s);
  match reverse body with
  | c :: front => if is_blank c then Some (of_chars (reverse front), String c "") else None
  | [] => None
  end.

(** The test and the change of a pair of lines; the store holds the chunk's lines. *)
Definition ws_pair (s d : nat) : eff (list PatchChunkLine) exn unit := λ lines,
  let line k := default "" (l_line <$> lines !! k) in
  match whitespace (line s) with
  | Some (g1, g2) =>
      if decide (g1 = line d) then (alter (append_to_line g2) d lines, Ok ())
      else (lines, Ok ())
  | None => (lines, Ok ())
  end.
(** One turn of the loop over the positions. *)
Definition ws_turn (src dst : list nat) (i : nat) : eff (list PatchChunkLine) exn unit :=
  s ← lift_res (py_index src (Z.of_nat i));
  d ← lift_res (py_index dst (Z.of_nat i));
  ws_pair s d.
Definition ws_chunk (c : PatchChunk) : PatchChunk * res unit :=
  let src := chunk_src c in
  let dst := chunk_dst c in
  let '(lines, r) := for_each (ws_turn src dst) (seq 0 (length src)) (c_lines c) in
  (set_lines lines c, r).

(** The bare [except] returns from the function: [false]. *)
Fixpoint ws_chunks (cs : list PatchChunk) : list PatchChunk * bool :=
  match cs with
  | [] => ([], true)
  | c :: cs =>
      match ws_chunk c with
      | (c', Ok _) => let '(cs', b) := ws_chunks cs in (c' :: cs', b)
      | (c', Err _) => (c' :: cs, false)
      end
  end.
Fixpoint ws_patches (ps : list Patch) : list Patch :=
  match ps with
  | [] => []
  | p :: ps =>
      match ws_chunks (p_chunks p) with
      | (cs, true) => set_chunks cs p :: ws_patches ps
      | (cs, false) => set_chunks cs p :: ps
      end
  end.
Definition remove_trailing_whitespace_changes (patch_generator : list string)
    : res (list Patch) :=
  ps ← parse_patchset patch_generator; Ok (ws_patches ps).

(** ** What the regular expressions match *)
Definition no_newline (s : string) : Prop := newline ∉ chars s.
#[export] Instance no_newline_dec s : Decision (no_newline s).
Proof. unfold no_newline. apply _. Defined.

Lemma dot_star_end_spec l b :
  dot_star_end l = Some b ↔ (newline ∉ b) ∧ (l = b ∨ l = b ++ [newline]).
Proof.
  unfold dot_star_end. destruct (span _ l) as [x y] eqn:E.
  pose proof E as Hs. apply span_spec in Hs as (-> & Hx & Hy).
  assert (newline ∉ x) as Hnx.
  { intros Hin. rewrite Forall_forall in Hx. apply Hx in Hin. by rewrite bool_decide_eq_true_2 in Hin. }
  assert (∀ a y', y = a :: y' → a = newline) as Hy'.
  { intros a y' ->. specialize (Hy a y' eq_refl). apply negb_false_iff in Hy.
    by apply bool_decide_eq_true in Hy. }
  split.
  - destruct y as [|a [|]]; intros [= <-]; (split; [done|]); [left; by rewrite app_nil_r|].
    right. by rewrite (Hy' a []).
  - intros [Hb Hl].
    assert (span (λ a, negb (bool_decide (a = newline))) (x ++ y)
      = (b, if decide (x ++ y = b) then [] else [newline])) as E2.
    { assert (Forall (λ a, negb (bool_decide (a = newline)) = true) b).
      { apply Forall_forall. intros a Ha. apply negb_true_iff, bool_decide_eq_false. naive_solver. }
      case_decide as Hd.
      - rewrite Hd. rewrite <-(app_nil_r b) at 1. by apply span_app.
      - destruct Hl as [| ->]; [done|]. apply span_app; [done|].
        intros a y' [= <- <-]. by rewrite bool_decide_eq_true_2. }
    rewrite E in E2. injection E2 as -> ->. by case_decide.
Qed.

Lemma search_prefix_spec p s g :
  search_prefix p s = Some g ↔ no_newline g ∧ (s = p +:+ g ∨ s = p +:+ g +:+ nl).
Proof.
  unfold search_prefix, no_newline. rewrite fmap_Some. setoid_rewrite bind_Some. split.
  - intros (b & (r & Hr%drop_prefix_spec & Hb%dot_star_end_spec) & ->).
    rewrite chars_of_chars. destruct Hb as [? Hb]. split; [done|].
    destruct Hb as [-> | ->]; [left|right]; apply chars_inj;
      rewrite !chars_app, chars_of_chars; done.
  - intros [? Hs]. exists (chars g). rewrite of_chars_chars. split; [|done].
    setoid_rewrite drop_prefix_spec. setoid_rewrite dot_star_end_spec.
    destruct Hs as [-> | ->]; rewrite !chars_app; eexists; eauto.
Qed.

Lemma search_prefix_written p g : no_newline g → search_prefix p (p +:+ g +:+ nl) = Some g.
Proof. intros. apply search_prefix_spec. auto. Qed.

Lemma search_prefix_none p s :
  ¬ (chars p `prefix_of` chars s) → search_prefix p s = None.
Proof. intros Hn. unfold search_prefix. by apply drop_prefix_none in Hn as ->. Qed.

(** ** The line that opens a chunk *)
Lemma chunk_start_header a b c d :
  0 ≤ a → 0 ≤ b → 0 ≤ c → 0 ≤ d →
  chunk_start (chunk_header a b c d) = Some (pretty a, pretty c).
Proof.
  intros Ha Hb Hc Hd. unfold chunk_start, chunk_header.
  apply pretty_Z_digits in Ha as (? & ? & _), Hb as (? & ? & _), Hc as (? & ? & _),
    Hd as (? & ? & _).
  rewrite !chars_app.
  rewrite drop_prefix_app.
  repeat (cbv beta iota delta [mbind option_bind];
          rewrite ?digits1_app by (done || by intros ? ? [= <- _]);
          rewrite ?drop_prefix_app).
  by rewrite !of_chars_chars.
Qed.

Lemma chunk_start_digits line g1 g3 :
  chunk_start line = Some (g1, g3) → all_digits (chars g1) ∧ all_digits (chars g3).
Proof.
  unfold chunk_start. intros H.
  repeat match goal with
  | H : (_ ≫= _) = Some _ |- _ => apply bind_Some in H; destruct H as (? & ? & H)
  | H : (let '(_, _) := ?x in _) = Some _ |- _ => destruct x
  end.
  injection H as <- <-. rewrite !chars_of_chars. split; by eapply digits1_digits.
Qed.

(** ** The six kinds of lines *)
Inductive line_kind :=
| LSrcFile (g : string)
| LDstFile (g : string)
| LChunk (g1 g3 : string)
| LLine (l : PatchChunkLine)
| LBad.

Definition classify (line : string) : line_kind :=
  match search_prefix "--- " line with Some g => LSrcFile g | None =>
  match search_prefix "+++ " line with Some g => LDstFile g | None =>
  match chunk_start line with Some (g1, g3) => LChunk g1 g3 | None =>
  match search_prefix "-" line with Some g => LLine {| l_type := SRC; l_line := g |} | None =>
  match search_prefix "+" line with Some g => LLine {| l_type := DST; l_line := g |} | None =>
  match search_prefix " " line with Some g => LLine {| l_type := BOTH; l_line := g |} | None =>
  LBad end end end end end end.

Definition open_chunk (g1 g3 : string) (i : nat) (st : pstate) : pstate :=
  {| patchset := alter (add_chunk (new_chunk g1 g3)) i (patchset st);
     current_patch := current_patch st;
     current_chunk :=
       Some (i, default 0%nat ((λ p, length (p_chunks p)) <$> patchset st !! i)) |}.

Lemma parse_line_classify st line :
  parse_line st line =
  match classify line with
  | LSrcFile g => Ok {| patchset := patchset st ++ [patch_set_src g new_patch];
                        current_patch := Some (length (patchset st));
                        current_chunk := current_chunk st |}
  | LDstFile g => match current_patch st with
                  | None => Err AttributeError
                  | Some i => Ok (upd_patch i (patch_set_dst g) st)
                  end
  | LChunk g1 g3 => match current_patch st with
                    | None => Err AttributeError
                    | Some i => Ok (open_chunk g1 g3 i st)
                    end
  | LLine l => add_to_chunk l st
  | LBad => Err (PyException "")
  end.
Proof.
  unfold parse_line, classify, open_chunk.
  destruct (search_prefix "--- " line); [done|].
  destruct (search_prefix "+++ " line); [done|].
  destruct (chunk_start line) as [[]|]; [done|].
  destruct (search_prefix "-" line); [done|].
  destruct (search_prefix "+" line); [done|].
  by destruct (search_prefix " " line).
Qed.

(** ** The patch sets the parser returns *)
Definition line_ok (l : PatchChunkLine) : Prop :=
  no_newline (l_line l) ∧
  (l_type l = SRC ∧ ¬ (chars "-- " `prefix_of` chars (l_line l)) ∨
   l_type l = DST ∧ ¬ (chars "++ " `prefix_of` chars (l_line l)) ∨
   l_type l = BOTH).
Definition chunk_ok (c : PatchChunk) : Prop :=
  0 ≤ c_src_pos c ∧ 0 ≤ c_dst_pos c ∧ Forall line_ok (c_lines c).
Definition patch_ok (p : Patch) : Prop :=
  no_newline (p_src p) ∧ no_newline (p_dst p) ∧ Forall chunk_ok (p_chunks p).

Lemma search_no_newline p s g : search_prefix p s = Some g → no_newline g.
Proof. intros H. by apply search_prefix_spec in H as [? _]. Qed.

Lemma search_longer p q line g :
  search_prefix p line = Some g → search_prefix (p +:+ q) line = None →
  ¬ (chars q `prefix_of` chars g).
Proof.
  intros [Hg Hline]%search_prefix_spec Hnone [r Hr].
  cut (search_prefix (p +:+ q) line = Some (of_chars r)); [congruence|].
  assert (g = q +:+ of_chars r) as ->.
  { apply chars_inj. by rewrite chars_app, chars_of_chars. }
  apply search_prefix_spec. split.
  - unfold no_newline in *. rewrite chars_app in Hg. set_solver.
  - rewrite !append_assoc in *. destruct Hline as [-> | ->]; auto.
Qed.

Lemma classify_line_ok line l : classify line = LLine l → line_ok l.
Proof.
  unfold classify, line_ok. intros Hc.
  destruct (search_prefix "--- " line) eqn:E1; [done|].
  destruct (search_prefix "+++ " line) eqn:E2; [done|].
  destruct (chunk_start line) as [[]|]; [done|].
  destruct (search_prefix "-" line) eqn:E3.
  { injection Hc as <-; simpl. split; [by eapply search_no_newline|]. left.
    split; [done|]. by apply (search_longer "-" "-- " line). }
  destruct (search_prefix "+" line) eqn:E4.
  { injection Hc as <-; simpl. split; [by eapply search_no_newline|]. right; left.
    split; [done|]. by apply (search_longer "+" "++ " line). }
  destruct (search_prefix " " line) eqn:E5; [|done].
  injection Hc as <-; simpl. split; [by eapply search_no_newline|]. auto.
Qed.

Lemma classify_ok line :
  match classify line with
  | LSrcFile g | LDstFile g => no_newline g
  | LChunk g1 g3 => chunk_ok (new_chunk g1 g3)
  | LLine l => line_ok l
  | LBad => True
  end.
Proof.
  destruct (classify line) eqn:E; try by eapply classify_line_ok. 4: done.
  all: unfold classify in E; repeat case_match; simplify_eq; try by eapply search_no_newline.
  apply chunk_start_digits in H1 as [? ?].
  repeat split; simpl; [by apply int_of_chars_nonneg..|constructor].
Qed.

Lemma parse_line_ok st line st' :
  Forall patch_ok (patchset st) → parse_line st line = Ok st' → Forall patch_ok (patchset st').
Proof.
  rewrite parse_line_classify. pose proof (classify_ok line) as Hk. intros Hst Hp.
  destruct (classify line) as [g|g|g1 g3|l|]; unfold add_to_chunk in Hp;
    repeat case_match; simplify_eq/=; try (apply Forall_alter; [done|]).
  - apply Forall_app; split; [done|]. apply Forall_singleton. repeat split; simpl; [done|apply not_elem_of_nil|constructor].
  - intros p _ (? & ? & ?). by repeat split.
  - intros p _ (? & ? & ?). repeat split; simpl; [done..|].
    apply Forall_app; split; [done|]. by apply Forall_singleton.
  - intros p _ (? & ? & ?). repeat split; simpl; [done..|].
    apply Forall_alter; [done|]. intros c _ (? & ? & ?). repeat split; simpl; [done..|].
    apply Forall_app; split; [done|]. by apply Forall_singleton.
Qed.

Lemma parse_lines_ok st lines st' :
  Forall patch_ok (patchset st) → parse_lines st lines = Ok st' → Forall patch_ok (patchset st').
Proof.
  revert st; induction lines as [|line lines IH]; simpl; intros st Hst Hp; [by simplify_eq|].
  apply bind_ok in Hp as (st1 & ? & ?). eauto using parse_line_ok.
Qed.

Lemma parse_patchset_ok lines ps : parse_patchset lines = Ok ps → Forall patch_ok ps.
Proof.
  unfold parse_patchset. destruct (parse_lines pstate0 lines) as [st|] eqn:E; [|done].
  intros [= <-]. by eapply (parse_lines_ok pstate0); [apply Forall_nil|].
Qed.

(** ** What the writers write *)
Definition line_mark (l : PatchChunkLine) : string :=
  if l_type l =? SRC then "-" else if l_type l =? DST then "+" else " ".
Definition line_text (l : PatchChunkLine) : string := line_mark l +:+ l_line l +:+ nl.
Definition chunk_text (c : PatchChunk) : list string :=
  chunk_header (c_src_pos c) (src_len c) (c_dst_pos c) (dst_len c) :: (line_text <$> c_lines c).
Definition patch_text (p : Patch) : list string :=
  ("--- " +:+ p_src p +:+ nl) :: ("+++ " +:+ p_dst p +:+ nl) :: (p_chunks p ≫= chunk_text).

Lemma for_each_write {A} (w : A → eff out_file exn unit) (text : A → list string) l :
  Forall (λ x, ∀ f, w x f = (f ++ text x, Ok ())) l →
  ∀ f, for_each w l f = (f ++ (l ≫= text), Ok ()).
Proof.
  induction 1 as [|x l Hx Hl IH]; intros f; simpl.
  - by rewrite app_nil_r.
  - unfold mbind, eff_bind. rewrite Hx, IH. by rewrite <-app_assoc.
Qed.

Definition typed (l : PatchChunkLine) : Prop := l_type l = SRC ∨ l_type l = DST ∨ l_type l = BOTH.

Lemma line_write_text l f : typed l → line_write l f = (f ++ [line_text l], Ok ()).
Proof. destruct l as [ty s]. intros [|[|]]; simpl in *; by subst. Qed.

Lemma bind_singleton {A B} (g : A → B) (l : list A) : (l ≫= λ x, [g x]) = g <$> l.
Proof.
  induction l as [|x l IH]; [done|].
  change (g x :: (l ≫= λ x, [g x]) = g x :: (g <$> l)). by rewrite IH.
Qed.

Lemma chunk_write_text c f : Forall typed (c_lines c) → chunk_write c f = (f ++ chunk_text c, Ok ()).
Proof.
  intros Hl. unfold chunk_write. unfold mbind at 1, eff_bind at 1. simpl.
  rewrite (for_each_write _ (λ l, [line_text l])).
  2:{ eapply Forall_impl; [exact Hl|]. intros. by apply line_write_text. }
  by rewrite <-app_assoc, bind_singleton.
Qed.

Lemma patch_write_text p f :
  Forall (λ c, Forall typed (c_lines c)) (p_chunks p) →
  patch_write p f = (f ++ patch_text p, Ok ()).
Proof.
  intros Hp. unfold patch_write. unfold mbind, eff_bind. simpl.
  rewrite (for_each_write _ chunk_text).
  2:{ eapply Forall_impl; [exact Hp|]. intros. by apply chunk_write_text. }
  by rewrite <-!app_assoc.
Qed.

Lemma line_ok_typed l : line_ok l → typed l.
Proof. unfold line_ok, typed. naive_solver. Qed.
Lemma chunk_ok_typed c : chunk_ok c → Forall typed (c_lines c).
Proof. intros (_ & _ & H). eapply Forall_impl; [exact H|]. apply line_ok_typed. Qed.

Lemma write_patches_text ps f :
  Forall patch_ok ps → for_each patch_write ps f = (f ++ (ps ≫= patch_text), Ok ()).
Proof.
  intros Hps. apply for_each_write. eapply Forall_impl; [exact Hps|].
  intros p (_ & _ & Hp) f'. apply patch_write_text.
  eapply Forall_impl; [exact Hp|]. apply chunk_ok_typed.
Qed.

(** ** Reading what was written *)
Lemma prefix_snoc_inv {A} (p l : list A) x : p `prefix_of` l ++ [x] → x ∉ p → p `prefix_of` l.
Proof.
  intros [r Hr] Hx. induction r as [|y r _] using rev_ind.
  - rewrite app_nil_r in Hr. subst. set_solver.
  - rewrite app_assoc in Hr. apply app_inj_tail in Hr as [-> _]. by apply prefix_app_r.
Qed.

Lemma search_longer_none p q s :
  no_newline q → ¬ (chars q `prefix_of` chars s) →
  search_prefix (p +:+ q) (p +:+ s +:+ nl) = None.
Proof.
  intros Hq Hp. apply search_prefix_none. rewrite !chars_app. intros Hpre.
  apply prefix_app_inv in Hpre. by apply Hp, (prefix_snoc_inv _ _ newline).
Qed.

Lemma classify_line_text l : line_ok l → classify (line_text l) = LLine l.
Proof.
  destruct l as [ty s]. intros [Hn Hty]. unfold classify, line_text, line_mark. simpl in Hn, Hty.
  assert (no_newline "-- " ∧ no_newline "++ ") as [Hq1 Hq2].
  { by split; apply (bool_decide_unpack (no_newline _)); vm_compute. }
  destruct Hty as [[-> Hp]|[[-> Hp]| ->]]; simpl l_line; simpl l_type; cbv beta iota delta [Z.eqb SRC DST BOTH Pos.eqb].
  - rewrite (search_longer_none "-" "-- ") by done.
    change (search_prefix "+++ " ("-" +:+ s +:+ nl)) with (@None string).
    change (chunk_start ("-" +:+ s +:+ nl)) with (@None (string * string)).
    cbv beta iota. by rewrite search_prefix_written.
  - change (search_prefix "--- " ("+" +:+ s +:+ nl)) with (@None string).
    rewrite (search_longer_none "+" "++ ") by done.
    change (chunk_start ("+" +:+ s +:+ nl)) with (@None (string * string)).
    change (search_prefix "-" ("+" +:+ s +:+ nl)) with (@None string).
    cbv beta iota. by rewrite search_prefix_written.
  - change (search_prefix "--- " (" " +:+ s +:+ nl)) with (@None string).
    change (search_prefix "+++ " (" " +:+ s +:+ nl)) with (@None string).
    change (chunk_start (" " +:+ s +:+ nl)) with (@None (string * string)).
    change (search_prefix "-" (" " +:+ s +:+ nl)) with (@None string).
    change (search_prefix "+" (" " +:+ s +:+ nl)) with (@None string).
    cbv beta iota. by rewrite search_prefix_written.
Qed.

Lemma classify_header a b c d :
  0 ≤ a → 0 ≤ b → 0 ≤ c → 0 ≤ d →
  classify (chunk_header a b c d) = LChunk (pretty a) (pretty c).
Proof.
  intros. unfold classify. rewrite chunk_start_header by done.
  change (search_prefix "--- " (chunk_header a b c d)) with (@None string).
  by change (search_prefix "+++ " (chunk_header a b c d)) with (@None string).
Qed.

Lemma alter_last {A} (f : A → A) l x : alter f (length l) (l ++ [x]) = l ++ [f x].
Proof. rewrite <-(Nat.add_0_r (length l)) at 1. by rewrite alter_app_r. Qed.

Definition reading (ps : list Patch) (p : Patch) (k : option (nat * nat)) : pstate :=
  {| patchset := ps ++ [p]; current_patch := Some (length ps); current_chunk := k |}.

Lemma parse_lines_app st l1 l2 :
  parse_lines st (l1 ++ l2) = (st ← parse_lines st l1; parse_lines st l2).
Proof.
  revert st; induction l1 as [|x l1 IH]; intros st; simpl; [done|].
  destruct (parse_line st x); simpl; [apply IH|done].
Qed.

Lemma parse_line_text ps p cs c l :
  line_ok l → p_chunks p = cs ++ [c] →
  parse_line (reading ps p (Some (length ps, length cs))) (line_text l) =
  Ok (reading ps (set_chunks (cs ++ [add_line l c]) p) (Some (length ps, length cs))).
Proof.
  intros Hl Hp. rewrite parse_line_classify, classify_line_text by done.
  unfold add_to_chunk, upd_patch, reading. simpl. by rewrite alter_last, Hp, alter_last.
Qed.

Lemma parse_body ps p cs c ls :
  Forall line_ok ls → p_chunks p = cs ++ [c] →
  parse_lines (reading ps p (Some (length ps, length cs))) (line_text <$> ls) =
  Ok (reading ps (set_chunks (cs ++ [set_lines (c_lines c ++ ls) c]) p)
        (Some (length ps, length cs))).
Proof.
  intros Hls. revert p c. induction Hls as [|l ls Hl Hls IH]; intros p c Hp.
  - destruct p as [s d pc], c; simpl in *; subst. by rewrite app_nil_r.
  - rewrite fmap_cons. simpl parse_lines. rewrite (parse_line_text _ _ _ c) by done. simpl.
    rewrite (IH _ (add_line l c)) by done. unfold add_line, set_lines. simpl.
    by rewrite <-app_assoc.
Qed.

Lemma parse_header ps p k a b c d :
  0 ≤ a → 0 ≤ b → 0 ≤ c → 0 ≤ d →
  parse_line (reading ps p k) (chunk_header a b c d) =
  Ok (reading ps (add_chunk {| c_lines := []; c_src_pos := a; c_dst_pos := c |} p)
        (Some (length ps, length (p_chunks p)))).
Proof.
  intros Ha Hb Hc Hd. rewrite parse_line_classify, classify_header by done.
  unfold open_chunk, reading, new_chunk. simpl. rewrite alter_last, lookup_app_r by done.
  rewrite Nat.sub_diag. simpl.
  apply pretty_Z_digits in Ha as (_ & _ & ->), Hc as (_ & _ & ->). done.
Qed.

Lemma parse_chunk ps p c k :
  chunk_ok c →
  ∃ k', parse_lines (reading ps p k) (chunk_text c) =
        Ok (reading ps (set_chunks (p_chunks p ++ [c]) p) k').
Proof.
  intros (Hs & Hd & Hl). exists (Some (length ps, length (p_chunks p))).
  unfold chunk_text. simpl parse_lines.
  rewrite parse_header by (unfold src_len, dst_len; lia). simpl.
  erewrite parse_body by done. by destruct c.
Qed.

Lemma parse_chunks ps p cs k :
  Forall chunk_ok cs →
  ∃ k', parse_lines (reading ps p k) (cs ≫= chunk_text) =
        Ok (reading ps (set_chunks (p_chunks p ++ cs) p) k').
Proof.
  intros Hcs. revert p k. induction Hcs as [|c cs Hc Hcs IH]; intros p k.
  - exists k. destruct p; simpl. unfold set_chunks; simpl. by rewrite app_nil_r.
  - destruct (parse_chunk ps p c k Hc) as [k1 H1].
    destruct (IH (set_chunks (p_chunks p ++ [c]) p) k1) as [k2 H2].
    exists k2. rewrite bind_cons, parse_lines_app, H1. simpl in *. rewrite H2.
    unfold set_chunks. simpl. by rewrite <-app_assoc.
Qed.

Lemma parse_patch p st :
  patch_ok p →
  ∃ k, parse_lines st (patch_text p) = Ok (reading (patchset st) p k).
Proof.
  intros (Hs & Hd & Hcs).
  destruct (parse_chunks (patchset st) (patch_set_dst (p_dst p) (patch_set_src (p_src p) new_patch))
    (p_chunks p) (current_chunk st) Hcs) as [k Hk].
  exists k. unfold patch_text. simpl parse_lines. rewrite !parse_line_classify.
  assert (classify ("--- " +:+ p_src p +:+ nl) = LSrcFile (p_src p)) as ->.
  { unfold classify. by rewrite search_prefix_written. }
  assert (classify ("+++ " +:+ p_dst p +:+ nl) = LDstFile (p_dst p)) as Hdst.
  { unfold classify. change (search_prefix "--- " ("+++ " +:+ p_dst p +:+ nl)) with (@None string).
    by rewrite search_prefix_written. }
  simpl mbind. unfold result_bind. rewrite parse_line_classify, Hdst. simpl.
  unfold upd_patch. simpl. rewrite alter_last.
  etrans; [exact Hk|]. by destruct p.
Qed.

Lemma parse_patches ps st :
  Forall patch_ok ps →
  ∃ st', parse_lines st (ps ≫= patch_text) = Ok st' ∧ patchset st' = patchset st ++ ps.
Proof.
  intros Hps. revert st. induction Hps as [|p ps Hp Hps IH]; intros st.
  - exists st. by rewrite app_nil_r.
  - destruct (parse_patch p st Hp) as [k Hk]. destruct (IH (reading (patchset st) p k)) as (st' & H1 & H2).
    exists st'. rewrite bind_cons, parse_lines_app, Hk. split; [exact H1|].
    rewrite H2. simpl. by rewrite <-app_assoc.
Qed.

(** C33: writing a patch set and parsing the text gives the patch set back
    exactly when every name and line is free of newlines, the positions are not
    negative, and no removed line starts with [-- ] and no added line with
    [++ ]; these are also the only patch sets the parser ever returns, so the
    writers never raise on a parsed patch set and what they write parses to
    itself. *)
Theorem parse_write_roundtrip ps :
  (Forall patch_ok ps ↔
    ∃ out, for_each patch_write ps [] = (out, Ok ()) ∧ parse_patchset out = Ok ps) ∧
  (Forall patch_ok ps ↔ ∃ lines, parse_patchset lines = Ok ps).
Proof.
  assert (Forall patch_ok ps →
    ∃ out, for_each patch_write ps [] = (out, Ok ()) ∧ parse_patchset out = Ok ps) as Hw.
  { intros Hps. exists (ps ≫= patch_text). split; [by apply write_patches_text|].
    unfold parse_patchset. destruct (parse_patches ps pstate0 Hps) as (st & -> & Hst).
    simpl. by rewrite Hst. }
  split; (split; [naive_solver|]); intros (? & Hp); eapply parse_patchset_ok; naive_solver.
Qed.

(** ** Which line sequences are rejected, and how *)
(** What is wrong with a line after the lines [before] it. *)
Definition is_patch_line (line : string) : bool :=
  match classify line with LSrcFile _ => true | _ => false end.
Definition is_chunk_line (line : string) : bool :=
  match classify line with LChunk _ _ => true | _ => false end.
Definition offence (before : list string) (line : string) : option exn :=
  match classify line with
  | LSrcFile _ => None
  | LDstFile _ | LChunk _ _ => if existsb is_patch_line before then None else Some AttributeError
  | LLine _ => if existsb is_chunk_line before then None else Some UnboundLocalError
  | LBad => Some (PyException "")
  end.

(** The references agree with the lines read so far. *)
Definition follows (before : list string) (st : pstate) : Prop :=
  existsb is_patch_line before = match current_patch st with Some _ => true | None => false end ∧
  existsb is_chunk_line before = match current_chunk st with Some _ => true | None => false end.

Lemma parse_line_follows before st line :
  follows before st →
  match offence before line with
  | Some e => parse_line st line = Err e
  | None => ∃ st', parse_line st line = Ok st' ∧ follows (before ++ [line]) st'
  end.
Proof.
  intros [Hp Hc]. unfold follows. rewrite !existsb_app. simpl. rewrite !orb_false_r.
  rewrite parse_line_classify, Hp, Hc. unfold offence, add_to_chunk. rewrite Hp, Hc.
  replace (is_patch_line line) with (match classify line with LSrcFile _ => true | _ => false end)
    by done.
  replace (is_chunk_line line) with (match classify line with LChunk _ _ => true | _ => false end)
    by done.
  destruct (classify line), (current_patch st) eqn:Ei, (current_chunk st) as [[]|] eqn:Ek;
    simpl; try done; (eexists; split; [done|]); simpl; by rewrite ?Ei, ?Ek.
Qed.

Lemma parse_lines_follows before st lines :
  follows before st →
  match parse_lines st lines with
  | Ok _ => ∀ l1 line l2, lines = l1 ++ line :: l2 → offence (before ++ l1) line = None
  | Err e => ∃ l1 line l2, lines = l1 ++ line :: l2 ∧ offence (before ++ l1) line = Some e ∧
      ∀ k1 line' k2, l1 = k1 ++ line' :: k2 → offence (before ++ k1) line' = None
  end.
Proof.
  revert before st. induction lines as [|line lines IH]; intros before st Hf; simpl.
  { intros l1 line l2 Heq. by destruct l1. }
  apply parse_line_follows with (line := line) in Hf.
  destruct (offence before line) as [e|] eqn:Eo.
  - rewrite Hf. simpl. exists [], line, lines. rewrite app_nil_r. split_and!; [done..|].
    intros k1 ? ? Heq. by destruct k1.
  - destruct Hf as (st' & -> & Hf). simpl. specialize (IH _ _ Hf).
    destruct (parse_lines st' lines) as [st2|e].
    + intros [|y l1] x l2 [= -> Heq]; [by rewrite app_nil_r|].
      apply IH in Heq. by rewrite <-app_assoc in Heq.
    + destruct IH as (l1 & x & l2 & -> & Ho & Hb). exists (line :: l1), x, l2.
      rewrite <-app_assoc in Ho. split_and!; [done..|].
      intros [|y k1] x' k2 [= -> Heq]; [by rewrite app_nil_r|].
      apply Hb in Heq. by rewrite <-app_assoc in Heq.
Qed.

(** The parser accepts the line sequences in which every line is one of
    the six kinds, a ["--- "] line comes before any ["+++ "] or ["@@"] line and
    a ["@@"] line before any text line; otherwise the first line that is wrong
    decides the exception: [Exception] for no kind, AttributeError ([None] is
    no patch) and UnboundLocalError (no chunk yet). *)
Theorem parse_patchset_rejects lines :
  match parse_patchset lines with
  | Ok _ => ∀ l1 line l2, lines = l1 ++ line :: l2 → offence l1 line = None
  | Err e => ∃ l1 line l2, lines = l1 ++ line :: l2 ∧ offence l1 line = Some e ∧
      ∀ k1 line' k2, l1 = k1 ++ line' :: k2 → offence k1 line' = None
  end.
Proof.
  assert (follows [] pstate0) as H0 by done.
  apply parse_lines_follows with (lines := lines) in H0. unfold parse_patchset.
  by destruct (parse_lines pstate0 lines).
Qed.

(** ** The pass over the trailing whitespace *)
Lemma elem_of_positions {A} (p : A → bool) n l k :
  k ∈ positions p n l ↔ (n ≤ k)%nat ∧ ∃ x, l !! (k - n)%nat = Some x ∧ p x = true.
Proof.
  revert n. induction l as [|y l IH]; intros n; simpl.
  { split; [by intros ?%not_elem_of_nil|naive_solver]. }
  assert (k ∈ positions p (S n) l ↔
    (S n ≤ k)%nat ∧ ∃ x, l !! (k - S n)%nat = Some x ∧ p x = true) as IH' by apply IH.
  destruct (decide (k = n)) as [->|Hkn].
  - rewrite Nat.sub_diag. simpl. destruct (p y) eqn:E.
    + rewrite elem_of_cons. naive_solver.
    + rewrite IH'. split; [lia|]. intros (_ & x & [= ->] & ?). congruence.
  - assert (k ∈ positions p n (y :: l) ↔ k ∈ positions p (S n) l) as H.
    { simpl. destruct (p y); [|done]. rewrite elem_of_cons. naive_solver. }
    simpl in H. rewrite H, IH'. split; intros [? Hx]; (split; [lia|]).
    + by replace (k - n)%nat with (S (k - S n)) by lia.
    + by replace (k - n)%nat with (S (k - S n)) in Hx by lia.
Qed.

Lemma NoDup_positions {A} (p : A → bool) n l : NoDup (positions p n l).
Proof.
  revert n. induction l as [|y l IH]; intros n; simpl; [constructor|].
  destruct (p y); [|done]. constructor; [|done]. rewrite elem_of_positions. lia.
Qed.

Lemma elem_of_chunk_src c k :
  k ∈ chunk_src c ↔ ∃ l, c_lines c !! k = Some l ∧ is_src l = true.
Proof. unfold chunk_src. rewrite elem_of_positions, Nat.sub_0_r. naive_solver lia. Qed.
Lemma elem_of_chunk_dst c k :
  k ∈ chunk_dst c ↔ ∃ l, c_lines c !! k = Some l ∧ is_dst l = true.
Proof. unfold chunk_dst. rewrite elem_of_positions, Nat.sub_0_r. naive_solver lia. Qed.

Lemma positions_types (p : PatchChunkLine → bool) (q : Z → bool) n l l' :
  (∀ x, p x = q (l_type x)) → l_type <$> l = l_type <$> l' → positions p n l = positions p n l'.
Proof.
  intros Hq. revert n l'. induction l as [|x l IH]; intros n [|x' l'] Hl; simpl in *; try done.
  injection Hl as Hx Hl. by rewrite !Hq, Hx, (IH _ l').
Qed.

(** The walk over the pairs of positions. *)
Definition ws_walk (pairs : list (nat * nat)) (lines : list PatchChunkLine) :=
  foldl (λ ls '(s, d), fst (ws_pair s d ls)) lines pairs.

Lemma ws_pair_ok s d lines : ws_pair s d lines = (fst (ws_pair s d lines), Ok ()).
Proof. unfold ws_pair. by repeat case_match. Qed.

Lemma ws_turn_eq src dst i lines :
  ws_turn src dst i lines =
  match src !! i, dst !! i with
  | Some s, Some d => (fst (ws_pair s d lines), Ok ())
  | _, _ => (lines, Err IndexError)
  end.
Proof.
  unfold ws_turn, mbind, eff_bind, lift_res. rewrite !py_index_nat.
  destruct (src !! i), (dst !! i); try done. apply ws_pair_ok.
Qed.

Lemma ws_turns src dst i n lines :
  (i + n = length src)%nat →
  for_each (ws_turn src dst) (seq i n) lines =
  (ws_walk (zip (drop i src) (drop i dst)) lines,
   if (length src <=? length dst)%nat || (n =? 0)%nat then Ok () else Err IndexError).
Proof.
  revert i lines. induction n as [|n IH]; intros i lines Hi; simpl.
  { rewrite drop_ge by lia. by rewrite orb_true_r. }
  unfold mbind, eff_bind. rewrite ws_turn_eq.
  destruct (lookup_lt_is_Some_2 src i) as [s Hs]; [lia|]. rewrite Hs.
  rewrite (drop_S _ s) by done.
  destruct (dst !! i) as [d|] eqn:Hd.
  - rewrite (drop_S dst d) by done. simpl.
    rewrite IH by lia. f_equal.
    apply lookup_lt_Some in Hd.
    destruct (length src <=? length dst)%nat eqn:E; [done|]. apply Nat.leb_gt in E.
    by destruct n; [lia|].
  - apply lookup_ge_None in Hd. rewrite (drop_ge dst) by lia. simpl.
    by destruct (Nat.leb_spec (length src) (length dst)); [lia|].
Qed.

Lemma ws_chunk_walk c :
  ws_chunk c = (set_lines (ws_walk (zip (chunk_src c) (chunk_dst c)) (c_lines c)) c,
                if src_len c <=? dst_len c then Ok () else Err IndexError).
Proof.
  unfold ws_chunk, src_len, dst_len. rewrite ws_turns by done. rewrite !drop_0. f_equal.
  destruct (Nat.leb_spec (length (chunk_src c)) (length (chunk_dst c))),
    (Z.leb_spec (Z.of_nat (length (chunk_src c))) (Z.of_nat (length (chunk_dst c)))); try lia; [done|].
  by destruct (Nat.eqb_spec (length (chunk_src c)) 0); [lia|].
Qed.

(** *** What the expression for trailing blanks finds *)
Lemma whitespace_spec s g1 g2 :
  no_newline s →
  whitespace s = Some (g1, g2) ↔ ∃ b, is_blank b = true ∧ g2 = String b "" ∧ s = g1 +:+ g2.
Proof.
  intros Hs. unfold whitespace.
  assert (dot_star_end (chars s) = Some (chars s)) as ->.
  { apply dot_star_end_spec. split; [done|by left]. }
  simpl. destruct (chars s) as [|b front _] eqn:E using rev_ind.
  - split; [done|]. intros (b & _ & -> & ->). rewrite chars_app in E. by destruct (chars g1).
  - rewrite reverse_snoc. rewrite reverse_involutive. split.
    + destruct (is_blank b) eqn:Eb; [|done]. intros [= <- <-]. exists b. split_and!; [done..|].
      apply chars_inj. by rewrite chars_app, chars_of_chars.
    + intros (b' & Hb & -> & ->). rewrite chars_app in E. simpl in E.
      apply app_inj_tail in E as [<- <-]. by rewrite Hb, of_chars_chars.
Qed.

(** *** What a walk over pairs of lines leaves *)
(** The destination line [l] after it was compared with the source text [o]. *)
Definition restored (o : string) (l : PatchChunkLine) : PatchChunkLine :=
  match whitespace o with
  | Some (g1, g2) => if decide (g1 = l_line l) then append_to_line g2 l else l
  | None => l
  end.
Definition text (lines : list PatchChunkLine) (k : nat) : string :=
  default "" (l_line <$> lines !! k).

Lemma ws_pair_lookup s d lines k :
  fst (ws_pair s d lines) !! k =
  if decide (k = d) then restored (text lines s) <$> lines !! k else lines !! k.
Proof.
  unfold ws_pair, restored. fold (text lines s) (text lines d).
  destruct (decide (k = d)) as [->|Hkd].
  - replace (text lines d) with (default "" (l_line <$> lines !! d)) by done.
    destruct (whitespace (text lines s)) as [[g1 g2]|]; [|simpl; by destruct (lines !! d)].
    destruct (lines !! d) as [l|] eqn:Hd; simpl.
    + case_decide; simpl; [by rewrite list_lookup_alter_eq, Hd|done].
    + case_decide; simpl; [by rewrite list_lookup_alter_eq, Hd|done].
  - destruct (whitespace (text lines s)) as [[g1 g2]|]; [|done].
    case_decide; simpl; [by rewrite list_lookup_alter_ne|done].
Qed.

Lemma ws_walk_cons s d pairs lines :
  ws_walk ((s, d) :: pairs) lines = ws_walk pairs (fst (ws_pair s d lines)).
Proof. done. Qed.

Lemma ws_walk_other pairs lines k :
  k ∉ pairs.*2 → ws_walk pairs lines !! k = lines !! k.
Proof.
  revert lines. induction pairs as [|[s d] pairs IH]; intros lines Hk; [done|].
  simpl in Hk. apply not_elem_of_cons in Hk as [? ?].
  rewrite ws_walk_cons, IH, ws_pair_lookup by done. by rewrite decide_False.
Qed.

Lemma ws_walk_pair pairs lines s d :
  NoDup pairs.*2 → (s, d) ∈ pairs →
  ∃ o, ws_walk pairs lines !! d = restored o <$> lines !! d ∧
       (s = d ∨ s ∉ pairs.*2 → o = text lines s).
Proof.
  revert lines. induction pairs as [|[s1 d1] pairs IH]; intros lines Hnd Hin.
  { by apply not_elem_of_nil in Hin. }
  simpl in Hnd. apply NoDup_cons in Hnd as [Hd1 Hnd]. rewrite ws_walk_cons.
  apply elem_of_cons in Hin as [[= -> ->]|Hin].
  - exists (text lines s1). split; [|done].
    rewrite ws_walk_other, ws_pair_lookup by done. by rewrite decide_True.
  - destruct (IH (fst (ws_pair s1 d1 lines)) Hnd Hin) as (o & Ho & Hs).
    assert (d ∈ pairs.*2) as Hd by (apply list_elem_of_fmap; by exists (s, d)).
    exists o. rewrite Ho, ws_pair_lookup, decide_False by naive_solver.
    split; [done|]. simpl. rewrite not_elem_of_cons. intros Hor.
    rewrite Hs by naive_solver. unfold text. rewrite ws_pair_lookup, decide_False; [done|].
    naive_solver.
Qed.

Lemma snd_zip_take {A B} (l : list A) (k : list B) : (zip l k).*2 = take (length l) k.
Proof. revert k; induction l as [|x l IH]; intros [|y k]; simpl; [done..|]. by rewrite <-IH. Qed.

Lemma NoDup_chunk_pairs c : NoDup (zip (chunk_src c) (chunk_dst c)).*2.
Proof.
  rewrite snd_zip_take. pose proof (NoDup_positions is_dst 0 (c_lines c)) as Hnd.
  fold (chunk_dst c) in Hnd. rewrite <-(take_drop (length (chunk_src c)) (chunk_dst c)) in Hnd.
  by apply NoDup_app in Hnd as [? _].
Qed.

Lemma elem_of_zip {A B} (l : list A) (k : list B) x y :
  (x, y) ∈ zip l k ↔ ∃ i, l !! i = Some x ∧ k !! i = Some y.
Proof.
  rewrite list_elem_of_lookup. split; intros [i Hi]; exists i.
  - apply lookup_zip_with_Some in Hi as (? & ? & [= -> ->] & ? & ?). done.
  - apply lookup_zip_with_Some. naive_solver.
Qed.

(** A destination line after the pass: as it was, or with one blank more. *)
Definition line_ext (l l' : PatchChunkLine) : Prop :=
  l' = l ∨ is_dst l = true ∧ ∃ b, is_blank b = true ∧ l' = append_to_line (String b "") l.

Lemma whitespace_blank s g1 g2 :
  whitespace s = Some (g1, g2) → ∃ b, is_blank b = true ∧ g2 = String b "".
Proof.
  unfold whitespace. intros (body & _ & H)%bind_Some.
  destruct (reverse body) as [|b front]; [done|]. destruct (is_blank b) eqn:E; naive_solver.
Qed.

Lemma restored_ext o l : is_dst l = true → line_ext l (restored o l).
Proof.
  intros Hl. unfold restored, line_ext. destruct (whitespace o) as [[g1 g2]|] eqn:E; [|by left].
  case_decide; [|by left]. right. apply whitespace_blank in E as (b & ? & ->). eauto.
Qed.

Lemma ws_chunk_lines c k :
  match c_lines c !! k, c_lines (fst (ws_chunk c)) !! k with
  | Some l, Some l' => line_ext l l'
  | None, None => True
  | _, _ => False
  end.
Proof.
  rewrite ws_chunk_walk. simpl. set (pairs := zip (chunk_src c) (chunk_dst c)).
  destruct (decide (k ∈ pairs.*2)) as [Hk|Hk].
  - apply list_elem_of_fmap in Hk as ([s d] & -> & Hin). simpl.
    destruct (ws_walk_pair pairs (c_lines c) s d (NoDup_chunk_pairs c) Hin) as (o & -> & _).
    apply elem_of_zip in Hin as (i & _ & Hd). apply list_elem_of_lookup_2 in Hd.
    apply elem_of_chunk_dst in Hd as (l & Hl & Hdst). rewrite Hl. simpl. by apply restored_ext.
  - rewrite ws_walk_other by done. destruct (c_lines c !! k); [by left|done].
Qed.

Lemma ws_chunk_ext c : Forall2 line_ext (c_lines c) (c_lines (fst (ws_chunk c))).
Proof.
  apply Forall2_same_length_lookup. split.
  - apply Nat.le_antisymm.
    + apply Nat.nlt_ge. intros Hlt. destruct (lookup_lt_is_Some_2 _ _ Hlt) as [x Hx].
      pose proof (ws_chunk_lines c (length (c_lines (fst (ws_chunk c))))) as H.
      by rewrite Hx, (lookup_ge_None_2 (c_lines (fst (ws_chunk c)))) in H.
    + apply Nat.nlt_ge. intros Hlt. destruct (lookup_lt_is_Some_2 _ _ Hlt) as [x Hx].
      pose proof (ws_chunk_lines c (length (c_lines c))) as H.
      by rewrite Hx, (lookup_ge_None_2 (c_lines c)) in H.
  - intros k x y Hx Hy. pose proof (ws_chunk_lines c k) as H. by rewrite Hx, Hy in H.
Qed.

Lemma ws_chunk_types c : l_type <$> c_lines (fst (ws_chunk c)) = l_type <$> c_lines c.
Proof.
  pose proof (ws_chunk_ext c) as H. induction H as [|l l' ls ls' Hl _ IH]; [done|].
  rewrite !fmap_cons, IH. f_equal. destruct Hl as [->|(_ & b & _ & ->)]; done.
Qed.

Lemma ws_chunk_positions c :
  chunk_src (fst (ws_chunk c)) = chunk_src c ∧ chunk_dst (fst (ws_chunk c)) = chunk_dst c.
Proof.
  split; [apply (positions_types _ (λ t, (t =? SRC) || (t =? BOTH)))
         |apply (positions_types _ (λ t, (t =? DST) || (t =? BOTH)))];
    try done; apply ws_chunk_types.
Qed.

(** *** The texts of the two sides of a chunk *)
Definition old_text (c : PatchChunk) : list string := text (c_lines c) <$> chunk_src c.
Definition new_text (c : PatchChunk) : list string := text (c_lines c) <$> chunk_dst c.

(** The [i]-th source and destination lines are one context line, or a removed
    line and an added line. *)
Definition aligned (c : PatchChunk) : Prop :=
  ∀ i s d, chunk_src c !! i = Some s → chunk_dst c !! i = Some d →
    s = d ∨ (s ∉ chunk_dst c) ∧ (d ∉ chunk_src c).

(** The text [n'] of a destination line that replaced [o] by [n]. *)
Definition merged (o n n' : string) : Prop :=
  (∃ b, is_blank b = true ∧ o = n +:+ String b "" ∧ n' = o) ∨
  ((¬ ∃ b, is_blank b = true ∧ o = n +:+ String b "") ∧ n' = n).

Lemma restored_merged o l : no_newline o → merged o (l_line l) (l_line (restored o l)).
Proof.
  intros Ho. unfold restored, merged. destruct (whitespace o) as [[g1 g2]|] eqn:E.
  - apply whitespace_spec in E as (b & Hb & -> & ->); [|done]. case_decide; subst; simpl.
    + left. eauto.
    + right. split; [|done]. intros (b' & _ & Heq). apply (f_equal chars) in Heq.
      rewrite !chars_app in Heq. simpl in Heq. apply app_inj_tail in Heq as [Heq _].
      by apply chars_inj in Heq.
  - right. split; [|done]. intros (b & Hb & ->).
    assert (whitespace (l_line l +:+ String b "") = Some (l_line l, String b "")); [|congruence].
    apply whitespace_spec; eauto.
Qed.

Lemma merged_self o n : merged o o n → n = o.
Proof.
  intros [(b & _ & Ho & ->)|[_ ->]]; [|done]. apply (f_equal chars), (f_equal length) in Ho.
  rewrite chars_app, length_app in Ho. simpl in Ho. lia.
Qed.

Lemma text_no_newline c k : chunk_ok c → no_newline (text (c_lines c) k).
Proof.
  intros (_ & _ & Hl). unfold text. destruct (c_lines c !! k) as [l|] eqn:E.
  - rewrite Forall_lookup in Hl. apply (Hl k l E).
  - apply not_elem_of_nil.
Qed.

(** What an aligned pair becomes. *)
Lemma ws_chunk_pair c i s d :
  chunk_ok c → aligned c → chunk_src c !! i = Some s → chunk_dst c !! i = Some d →
  merged (text (c_lines c) s) (text (c_lines c) d) (text (c_lines (fst (ws_chunk c))) d).
Proof.
  intros Hok Hal Hs Hd. pose proof Hd as Hin. apply list_elem_of_lookup_2, elem_of_chunk_dst in Hin
    as (l & Hl & _).
  destruct (ws_walk_pair (zip (chunk_src c) (chunk_dst c)) (c_lines c) s d) as (o & Ho & Hor).
  { apply NoDup_chunk_pairs. }
  { apply elem_of_zip. eauto. }
  rewrite ws_chunk_walk. simpl. unfold text at 2 3. rewrite Ho, Hl. simpl.
  rewrite Hor. { apply restored_merged, text_no_newline, Hok. }
  destruct (Hal i s d Hs Hd) as [->|[Hn _]]; [by left|right]. rewrite snd_zip_take.
  intros Hin. apply Hn. rewrite <-(take_drop (length (chunk_src c)) (chunk_dst c)). set_solver.
Qed.

(** A line without a partner at its position stays. *)
Lemma ws_chunk_unpaired c k :
  (∀ i s, chunk_src c !! i = Some s → chunk_dst c !! i ≠ Some k) →
  text (c_lines (fst (ws_chunk c))) k = text (c_lines c) k.
Proof.
  intros Hk. rewrite ws_chunk_walk. simpl. unfold text. rewrite ws_walk_other; [done|].
  intros ([s d] & -> & Hin)%list_elem_of_fmap. apply elem_of_zip in Hin as (i & Hs & Hd).
  by apply (Hk i s).
Qed.

(** The destination position [k] stands at one place of the list only. *)
Lemma chunk_dst_unique c i j k :
  chunk_dst c !! i = Some k → chunk_dst c !! j = Some k → i = j.
Proof.
  intros. eapply (NoDup_lookup (chunk_dst c)); [|done..].
  apply (NoDup_positions is_dst 0 (c_lines c)).
Qed.

(** The old text survives in an aligned chunk. *)
Lemma ws_chunk_old c k :
  chunk_ok c → aligned c → k ∈ chunk_src c →
  text (c_lines (fst (ws_chunk c))) k = text (c_lines c) k.
Proof.
  intros Hok Hal Hk. destruct (decide (k ∈ chunk_dst c)) as [Hin|Hin].
  - apply list_elem_of_lookup in Hin as [i Hd].
    destruct (chunk_src c !! i) as [s|] eqn:Hs.
    + destruct (Hal i s k Hs Hd) as [->|[_ Hn]]; [|done].
      apply merged_self. by apply (ws_chunk_pair c i k k).
    + apply ws_chunk_unpaired. intros j s Hj Hd'.
      rewrite (chunk_dst_unique c i j k) in Hs by done. congruence.
  - apply ws_chunk_unpaired. intros i s _ Hd. by apply Hin, (list_elem_of_lookup_2 _ i).
Qed.

(** In a chunk whose removed and added lines pair up by position, the
    pass leaves the positions, the kinds of the lines and the old text, and in
    the new text it puts back a line that lost exactly one trailing blank and
    leaves every other line; it raises IndexError exactly when the chunk has
    more source than destination lines. *)
Theorem ws_chunk_aligned c (Hok : chunk_ok c) (Hal : aligned c) :
  let c' := fst (ws_chunk c) in
  snd (ws_chunk c) = (if src_len c <=? dst_len c then Ok () else Err IndexError) ∧
  c_src_pos c' = c_src_pos c ∧ c_dst_pos c' = c_dst_pos c ∧
  l_type <$> c_lines c' = l_type <$> c_lines c ∧
  old_text c' = old_text c ∧
  length (new_text c') = length (new_text c) ∧
  ∀ i n n', new_text c !! i = Some n → new_text c' !! i = Some n' →
    match old_text c !! i with Some o => merged o n n' | None => n' = n end.
Proof.
  intros c'. subst c'. pose proof (ws_chunk_positions c) as [Hps Hpd].
  split; [by rewrite ws_chunk_walk|]. split; [by rewrite ws_chunk_walk|].
  split; [by rewrite ws_chunk_walk|]. split; [apply ws_chunk_types|].
  unfold old_text, new_text. rewrite Hps, Hpd. split; [|split; [by rewrite !length_fmap|]].
  - apply list_fmap_ext. intros j k Hj. apply ws_chunk_old; [done..|].
    by apply (list_elem_of_lookup_2 _ j).
  - intros i n n'. rewrite !list_lookup_fmap.
    destruct (chunk_dst c !! i) as [d|] eqn:Hd; [|done]. simpl. intros [= <-] [= <-].
    destruct (chunk_src c !! i) as [s|] eqn:Hs; simpl.
    + by eapply ws_chunk_pair.
    + apply ws_chunk_unpaired. intros i' s' Hs' Hd'.
      rewrite (chunk_dst_unique c i i' d) in Hs by done. congruence.
Qed.

(** An aligned chunk: a line that lost one blank, a context line, and a line
    that lost two. *)
Definition sample_chunk : PatchChunk :=
  {| c_lines := [{| l_type := SRC; l_line := "x " |}; {| l_type := DST; l_line := "x" |};
                 {| l_type := BOTH; l_line := "y" |};
                 {| l_type := SRC; l_line := "z  " |}; {| l_type := DST; l_line := "z" |}];
     c_src_pos := 1; c_dst_pos := 1 |}.

Lemma sample_chunk_ok : chunk_ok sample_chunk.
Proof.
  repeat split; try done. apply Forall_forall. intros l Hl. simpl in Hl.
  rewrite !elem_of_cons, elem_of_nil in Hl. destruct_or! Hl; subst; try done;
    (split; [apply (bool_decide_unpack (no_newline _)); by vm_compute|]); simpl;
    (left; split; [done|by intros [? ?]]) || (right; left; split; [done|by intros [? ?]])
    || (by right; right).
Qed.

Lemma ws_chunk_aligned_witness :
  new_text sample_chunk = ["x"; "y"; "z"] ∧
  new_text (fst (ws_chunk sample_chunk)) = ["x "; "y"; "z"] ∧
  snd (ws_chunk sample_chunk) = (if src_len sample_chunk <=? dst_len sample_chunk
                                 then Ok () else Err IndexError) ∧
  old_text (fst (ws_chunk sample_chunk)) = old_text sample_chunk.
Proof.
  assert (aligned sample_chunk) as Hal.
  { intros i s d Hs Hd. do 3 (destruct i as [|i]; [simpl in Hs, Hd; simplify_eq;
      (by left) || (right; split; apply (bool_decide_unpack (_ ∉ _)); by vm_compute)|]). done. }
  destruct (ws_chunk_aligned sample_chunk sample_chunk_ok Hal) as (H1 & _ & _ & _ & H2 & _).
  by repeat split.
Defined.

(** ** The whole pass *)
(** How many chunks the loops reach: the first one with more source than
    destination lines is the last. *)
Fixpoint reached (cs : list PatchChunk) : nat :=
  match cs with
  | [] => 0
  | c :: cs => if src_len c <=? dst_len c then S (reached cs) else 1
  end.
Definition ws_reached (cs : list PatchChunk) : list PatchChunk :=
  ((λ c, fst (ws_chunk c)) <$> take (reached cs) cs) ++ drop (reached cs) cs.

Lemma ws_reached_cons c cs :
  ws_reached (c :: cs) =
  fst (ws_chunk c) :: (if src_len c <=? dst_len c then ws_reached cs else cs).
Proof. unfold ws_reached. simpl. by destruct (src_len c <=? dst_len c). Qed.

Lemma ws_chunks_reached cs :
  ws_chunks cs = (ws_reached cs, forallb (λ c, src_len c <=? dst_len c) cs).
Proof.
  induction cs as [|c cs IH]; [done|]. rewrite ws_reached_cons. simpl.
  destruct (ws_chunk c) as [c' r] eqn:E.
  pose proof (ws_chunk_walk c) as Hw. rewrite E in Hw. injection Hw as Hc' ->.
  by destruct (src_len c <=? dst_len c); simpl; rewrite ?IH.
Qed.

Lemma ws_reached_app cs1 cs2 :
  ws_reached (cs1 ++ cs2) =
  ws_reached cs1 ++ (if forallb (λ c, src_len c <=? dst_len c) cs1 then ws_reached cs2 else cs2).
Proof.
  induction cs1 as [|c cs1 IH]; [done|]. rewrite <-app_comm_cons, !ws_reached_cons. simpl.
  destruct (src_len c <=? dst_len c); simpl; [by rewrite IH|done].
Qed.

Lemma ws_reached_ext cs :
  Forall2 (λ c c', c_src_pos c' = c_src_pos c ∧ c_dst_pos c' = c_dst_pos c ∧
    src_len c' = src_len c ∧ dst_len c' = dst_len c ∧
    Forall2 line_ext (c_lines c) (c_lines c')) cs (ws_reached cs).
Proof.
  rewrite <-(take_drop (reached cs) cs) at 1. unfold ws_reached. apply Forall2_app.
  - apply Forall2_fmap_r, Forall_Forall2_diag, Forall_true. intros c.
    unfold compose. unfold src_len, dst_len. pose proof (ws_chunk_positions c) as [-> ->].
    split_and!; [(done || by rewrite ws_chunk_walk)..|apply ws_chunk_ext].
  - apply Forall_Forall2_diag, Forall_true. intros c. split_and!; try done.
    apply Forall_Forall2_diag, Forall_true. intros l. by left.
Qed.

(** The pass keeps the patches with their file names and, chunk by chunk,
    the positions and the counts of the header; it changes a chunk's lines
    only by one trailing blank on a destination line; and it treats the chunks
    of all patches in order up to and including the first that has more
    source than destination lines, leaving the rest as it was. *)
Theorem ws_patches_structure ps :
  p_src <$> ws_patches ps = p_src <$> ps ∧ p_dst <$> ws_patches ps = p_dst <$> ps ∧
  (ws_patches ps ≫= p_chunks) = ws_reached (ps ≫= p_chunks) ∧
  Forall2 (λ c c', c_src_pos c' = c_src_pos c ∧ c_dst_pos c' = c_dst_pos c ∧
    src_len c' = src_len c ∧ dst_len c' = dst_len c ∧
    Forall2 line_ext (c_lines c) (c_lines c')) (ps ≫= p_chunks) (ws_patches ps ≫= p_chunks).
Proof.
  assert ((ws_patches ps ≫= p_chunks) = ws_reached (ps ≫= p_chunks)) as Hr.
  { induction ps as [|p ps IH]; [done|]. simpl ws_patches. rewrite bind_cons, ws_reached_app.
    rewrite ws_chunks_reached. destruct (forallb _ _); rewrite bind_cons; [by rewrite IH|done]. }
  assert (p_src <$> ws_patches ps = p_src <$> ps ∧ p_dst <$> ws_patches ps = p_dst <$> ps) as [? ?].
  { clear Hr. induction ps as [|p ps IH]; [done|]. simpl ws_patches. rewrite ws_chunks_reached.
    destruct (forallb _ _); [|done]. rewrite !fmap_cons. simpl.
    split; f_equal; apply IH. }
  split_and!; [done..|]. rewrite Hr. apply ws_reached_ext.
Qed.

(** The pass does not see through two trailing blanks, whatever the line;
    and a line that lost its blank above an equal context line makes it change
    the context line, so that the chunk's old text is no longer the file's. *)
Theorem ws_chunk_limits x b b' (Hb : is_blank b = true) (Hb' : is_blank b' = true)
    (Hx : no_newline x) :
  let removed s := {| l_type := SRC; l_line := s |} in
  let chunk ls := {| c_lines := ls; c_src_pos := 1; c_dst_pos := 1 |} in
  let one := x +:+ String b "" in
  let two := one +:+ String b' "" in
  let c2 := chunk [removed two; {| l_type := DST; l_line := x |}] in
  let cx := chunk [removed one; {| l_type := BOTH; l_line := x |}] in
  ws_chunk c2 = (c2, Ok ()) ∧
  old_text cx = [one; x] ∧
  old_text (fst (ws_chunk cx)) = [one; one] ∧ snd (ws_chunk cx) = Err IndexError.
Proof.
  assert (∀ c, is_blank c = true → no_newline (String c "")) as Hc.
  { intros c H. unfold no_newline. simpl. rewrite list_elem_of_singleton.
    unfold is_blank in H. by intros <-. }
  assert (∀ s c, no_newline s → is_blank c = true → no_newline (s +:+ String c "")) as Hn.
  { intros s c Hs H. apply Hc in H. unfold no_newline in *. rewrite chars_app. set_solver. }
  intros removed chunk one two c2 cx.
  assert (whitespace two = Some (one, String b' "")) as H2.
  { apply whitespace_spec; [by apply Hn, Hb'; apply Hn|]. by exists b'. }
  assert (whitespace one = Some (x, String b "")) as H1.
  { apply whitespace_spec; [by apply Hn|]. by exists b. }
  assert (one ≠ x) as Hne.
  { intros Heq. apply (f_equal chars), (f_equal length) in Heq. unfold one in Heq.
    rewrite chars_app, length_app in Heq. simpl in Heq. lia. }
  split_and!; [|done| |].
  - rewrite ws_chunk_walk. unfold ws_walk, ws_pair. simpl. rewrite H2. by rewrite decide_False.
  - unfold old_text. rewrite (proj1 (ws_chunk_positions cx)), ws_chunk_walk.
    unfold ws_walk, ws_pair. simpl. rewrite H1. by rewrite decide_True.
  - by rewrite ws_chunk_walk.
Qed.

Lemma ws_chunk_limits_witness :
  let c := {| c_lines := [{| l_type := SRC; l_line := "x  " |}; {| l_type := DST; l_line := "x" |}];
              c_src_pos := 1; c_dst_pos := 1 |} in
  ws_chunk c = (c, Ok ()).
Proof.
  apply (ws_chunk_limits "x" " " " "); [done..|].
  apply (bool_decide_unpack (no_newline _)); by vm_compute.
Defined.

(** ** The hunk headers of difflib
    [unified_diff] leaves out the count of a range of one line. *)
Definition format_range_unified (start stop : Z) : string :=
  let beginning := start + 1 in
  let length := stop - start in
  if length =? 1 then pretty beginning
  else let beginning := if length =? 0 then beginning - 1 else beginning in
       pretty beginning +:+ "," +:+ pretty length.
Definition hunk_header (i1 i2 j1 j2 : Z) : string :=
  "@@ -" +:+ format_range_unified i1 i2 +:+ " +" +:+ format_range_unified j1 j2 +:+ " @@" +:+ nl.

Lemma chunk_start_hunk i1 i2 j1 j2 :
  0 ≤ i1 ≤ i2 → 0 ≤ j1 ≤ j2 →
  chunk_start (hunk_header i1 i2 j1 j2) =
  if (i2 - i1 =? 1) || (j2 - j1 =? 1) then None
  else Some (pretty (if i2 - i1 =? 0 then i1 else i1 + 1),
             pretty (if j2 - j1 =? 0 then j1 else j1 + 1)).
Proof.
  intros Hi Hj. unfold hunk_header, format_range_unified, chunk_start.
  destruct (Z.eqb_spec (i2 - i1) 1), (Z.eqb_spec (j2 - j1) 1);
    destruct (Z.eqb_spec (i2 - i1) 0), (Z.eqb_spec (j2 - j1) 0); try lia;
    rewrite ?Z.add_simpl_r, !chars_app, drop_prefix_app; simpl orb;
    repeat (cbv beta iota delta [mbind option_bind];
            rewrite <-?app_assoc, ?digits1_pretty by (lia || by intros ? ? [= <- _]);
            rewrite ?drop_prefix_app);
    cbv beta iota delta [mbind option_bind]; by rewrite ?of_chars_chars.
Qed.

(** A header that difflib writes opens a chunk at its positions, except
    that the parser raises on every hunk with a range of exactly one line. *)
Theorem parse_line_hunk st i i1 i2 j1 j2 (Hp : current_patch st = Some i)
    (Hi : 0 ≤ i1 ≤ i2) (Hj : 0 ≤ j1 ≤ j2) :
  parse_line st (hunk_header i1 i2 j1 j2) =
  if (i2 - i1 =? 1) || (j2 - j1 =? 1) then Err (PyException "")
  else Ok (open_chunk (pretty (if i2 - i1 =? 0 then i1 else i1 + 1))
                      (pretty (if j2 - j1 =? 0 then j1 else j1 + 1)) i st).
Proof.
  rewrite parse_line_classify. unfold classify. rewrite chunk_start_hunk by done.
  assert (∀ p, p ∈ ["--- "; "+++ "; "-"; "+"; " "] →
    search_prefix p (hunk_header i1 i2 j1 j2) = None) as Hno.
  { apply Forall_forall. by repeat constructor. }
  rewrite !Hno by set_solver. by destruct (_ || _); rewrite ?Hp.
Qed.

Lemma parse_line_hunk_witness :
  hunk_header 0 1 0 1 = "@@ -1 +1 @@" +:+ nl ∧
  parse_line (reading [] new_patch None) (hunk_header 0 1 0 1) = Err (PyException "") ∧
  ∃ st, parse_line (reading [] new_patch None) (hunk_header 2 9 2 8) = Ok st.
Proof.
  split; [done|]. split; [by apply (parse_line_hunk _ 0)|].
  eexists. rewrite (parse_line_hunk (reading [] new_patch None) 0) by (done || lia). reflexivity.
Defined.
