(* ===== verification/CheckStyle.v ===== *)
(** * utils/check-style.py
    The check of a source file's indentation: the configuration written for
    uncrustify, [indent], [indent_files] and [run_as_main], over a file system
    that maps path names to contents.  The programs the tool starts (git,
    uncrustify, patch), the choice of temporary names, difflib's comparison and
    filecmp's are parameters. *)
From Stdlib Require Import Ascii.
From S2P Require Import Prelude PyStr PatchSet.
#[local] Open Scope Z_scope.

(** The double quote. *)
Definition dq : string := String "034" "".

(** ** uncrustify_config_file *)
Definition level2 : string := "
nl_if_brace=Add
nl_brace_else=Add
nl_elseif_brace=Add
nl_else_brace=Add
nl_while_brace=Add
nl_do_brace=Add
nl_for_brace=Add
nl_brace_while=Add
nl_switch_brace=Add
nl_after_case=True
nl_namespace_brace=ignore
nl_after_brace_open=True
nl_class_leave_one_liners=False
nl_enum_leave_one_liners=False
nl_func_leave_one_liners=False
nl_if_leave_one_liners=False
nl_class_colon=Ignore
nl_before_access_spec=2
nl_after_access_spec=0
indent_access_spec=-indent_columns
nl_after_semicolon=True
pos_class_colon=Lead
pos_class_comma=Trail
indent_constr_colon=true
pos_bool=Lead
nl_class_init_args=Add
nl_template_class=Add
nl_class_brace=Add
# does not work very well
nl_func_type_name=Ignore
nl_func_scope_name=Ignore
nl_func_type_name_class=Ignore
nl_func_proto_type_name=Ignore
# function\n(
nl_func_paren=Remove
nl_fdef_brace=Add
nl_struct_brace=Add
nl_enum_brace=Add
nl_union_brace=Add
mod_full_brace_do=Add
mod_full_brace_for=Add
mod_full_brace_if=Add
mod_full_brace_while=Add
mod_full_brace_for=Add
mod_remove_extra_semicolon=True
# max code width
#code_width=128
#ls_for_split_full=True
#ls_func_split_full=True
nl_cpp_lambda_leave_one_liners=True
".
Definition level1 : string := "
# extra spaces here and there
sp_brace_typedef=Add
sp_enum_assign=Add
sp_before_sparen=Add
sp_after_semi_for=Add
sp_arith=Add
sp_assign=Add
sp_compare=Add
sp_func_class_paren=Add
sp_after_type=Add
sp_type_func=Add
sp_angle_paren=Add
".
Definition level0 : string := "
sp_func_proto_paren=Add
sp_func_def_paren=Add
sp_func_call_paren=Add
sp_after_semi_for=Ignore
sp_before_sparen=Ignore
sp_before_ellipsis=Remove
sp_type_func=Ignore
sp_after_type=Ignore
nl_class_leave_one_liners=True
nl_enum_leave_one_liners=True
nl_func_leave_one_liners=True
nl_assign_leave_one_liners=True
nl_collapse_empty_body=True
nl_getset_leave_one_liners=True
nl_if_leave_one_liners=True
nl_fdef_brace=Ignore
# finally, indentation configuration
indent_with_tabs=0
indent_namespace=false
indent_columns=2
indent_brace=2
indent_case_brace=indent_columns
indent_class=true
indent_class_colon=True
indent_switch_case=indent_columns
# alignment
indent_align_assign=False
align_left_shift=True
# comment reformating disabled
cmt_reflow_mode=1 # do not touch comments at all
cmt_indent_multi=False # really, do not touch them
disable_processing_cmt= " +:+ dq +:+
  " *NS_CHECK_STYLE_OFF*" +:+ dq +:+
  "
enable_processing_cmt=  " +:+ dq +:+
  " *NS_CHECK_STYLE_ON*" +:+ dq +:+
  "
".

(** ** The world of the tool *)
Abbreviation filesystem := (gmap string string).
Record world := { fs : filesystem; stdout : list string; stderr : list string }.
Abbreviation io := (eff world exn).

Definition set_fs (f : filesystem) (w : world) : world :=
  {| fs := f; stdout := stdout w; stderr := stderr w |}.
Definition write_file (path content : string) : io unit :=
  λ w, (set_fs (<[path := content]> (fs w)) w, Ok ()).
Definition read_file (path : string) : io string :=
  λ w, (w, match fs w !! path with Some c => Ok c | None => Err FileNotFoundError end).
Definition readlines (path : string) : io (list string) :=
  c ← read_file path; mret (text_lines c).
(** [shutil.copyfile] *)
Definition copyfile (src dst : string) : io unit :=
  if decide (src = dst) then throw OSError
  else c ← read_file src; write_file dst c.
Definition err_write (s : string) : io unit :=
  λ w, ({| fs := fs w; stdout := stdout w; stderr := stderr w ++ [s] |}, Ok ()).
Definition out_write (s : string) : io unit :=
  λ w, ({| fs := fs w; stdout := stdout w ++ [s]; stderr := stderr w |}, Ok ()).
Definition when (b : bool) (m : io unit) : io unit := if b then m else mret ().

Section check_style.
(** The name [tempfile.mkstemp] picks. *)
Context (mkstemp_name : filesystem → string).
(** A program, with its arguments, run to its end: the file system it leaves
    and its output; [None] when it cannot be started. *)
Context (popen : list string → filesystem → option (filesystem * string * string)).
(** [os.popen(command)]: the output of a shell command. *)
Context (shell : string → filesystem → string).
(** [difflib.unified_diff a b fromfile tofile], all its lines. *)
Context (unified_diff : list string → list string → string → string → list string).
(** [filecmp.cmp] *)
Context (filecmp : filesystem → string → string → bool).
(** [str] of an exception. *)
Context (str_exn : exn → string).

Definition mkstemp : io string := λ w,
  let path := mkstemp_name (fs w) in
  (set_fs (<[path := ""]> (fs w)) w, Ok path).

Definition run_program (args : list string) : io (string * string) := λ w,
  match popen args (fs w) with
  | Some (f, out, err) => (set_fs f w, Ok (out, err))
  | None => (w, Err OSError)
  end.

Definition git_modified_files : io (list string) := λ w,
  let files := shell "git diff --name-only" (fs w) in
  (io_root ← run_program ["git"; "rev-parse"; "--show-toplevel"];
   let root_dir := fst io_root in
   let files_changed := strip <$> text_lines files in
   let files_changed := filter (λ item, endswith item ".h" || endswith item ".cc") files_changed in
   mret ((λ filename, of_chars (slice_to (chars root_dir) (-1)) +:+ "/" +:+ strip filename)
           <$> files_changed)) w.

Definition copy_file (filename : string) : io string :=
  pathname ← mkstemp;
  c ← read_file filename;
  _ ← write_file pathname (of_chars (universal_newlines (chars c)));
  mret pathname.

Definition config_text (level : Z) : string :=
  level0 +:+ (if 1 <=? level then level1 else "") +:+ (if 2 <=? level then level2 else "").
Definition uncrustify_config_file (level : Z) : io string :=
  pathname ← mkstemp;
  _ ← write_file pathname (config_text level);
  mret pathname.

(** [except OSError: raise Exception ('uncrustify not installed')] *)
Definition run_uncrustify (args : list string) : io (string * string) := λ w,
  match run_program args w with
  | (w', Err OSError) => (w', Err (PyException "uncrustify not installed"))
  | r => r
  end.

(** The final diff file; the generator [diff] holds the lines not read yet. *)
Definition write_final_diff (final_diff : string) (level : Z) (diff : list string) : io unit :=
  if level <? 3 then
    patchset ← lift_res (remove_trailing_whitespace_changes diff);
    match patchset with
    | [] => mret ()
    | p :: _ =>
        let '(out, r) := patch_write p [] in
        _ ← write_file final_diff (cat out); lift_res r
    end
  else write_file final_diff (cat diff).

Definition indent (source : string) (debug : bool) (level : Z) : io string :=
  output ← mkstemp;
  cfg ← uncrustify_config_file level;
  _ ← when debug (
    _ ← err_write ("original file=" +:+ source +:+ nl);
    _ ← err_write ("uncrustify config file=" +:+ cfg +:+ nl);
    err_write ("temporary file=" +:+ output +:+ nl));
  '(out, err) ← run_uncrustify ["uncrustify"; "-c"; cfg; "-f"; source; "-o"; output];
  _ ← when debug (_ ← err_write out; err_write err);
  src ← readlines source;
  dst ← readlines output;
  let diff := unified_diff src dst source output in
  (* debug mode reads the generator to its end *)
  diff ← (if debug then
            initial_diff ← mkstemp;
            _ ← err_write ("initial diff file=" +:+ initial_diff +:+ nl);
            _ ← write_file initial_diff (cat diff);
            mret []
          else mret diff);
  final_diff ← mkstemp;
  _ ← write_final_diff final_diff level diff;
  _ ← when debug (err_write ("final diff file=" +:+ final_diff +:+ nl));
  _ ← copyfile source output;
  '(out, err) ← run_program ["patch"; "-p1"; "-i"; final_diff; output];
  _ ← when debug (_ ← err_write out; err_write err);
  mret output.

Fixpoint indent_all (files : list string) (debug : bool) (level : Z)
    : io (list (string * string)) :=
  match files with
  | [] => mret []
  | f :: files =>
      dst ← indent f debug level;
      output ← indent_all files debug level;
      mret ((f, dst) :: output)
  end.

(** The comparison reads the file system; it raises on a missing file. *)
Fixpoint compare_all (output : list (string * string)) : io (list (string * string)) :=
  match output with
  | [] => mret []
  | (src, dst) :: output =>
      _ ← read_file src;
      _ ← read_file dst;
      same ← (λ w, (w, Ok (filecmp (fs w) src dst)));
      failed ← compare_all output;
      mret (if negb same then (src, dst) :: failed else failed)
  end.

Definition print_diff (sd : string * string) : io unit :=
  let '(src, dst) := sd in
  s ← readlines src;
  d ← readlines dst;
  for_each out_write (unified_diff s d src dst).

Definition indent_files (files : list string) (diff debug : bool) (level : Z) (inplace : bool)
    : io bool :=
  output ← indent_all files debug level;
  if inplace then
    _ ← for_each (λ sd, copyfile (snd sd) (fst sd)) output;
    mret true
  else
    failed ← compare_all output;
    match failed with
    | [] => mret true
    | _ =>
        _ ← (if negb diff then
               _ ← out_write ("Found " +:+ pretty (length failed) +:+ " badly indented files:" +:+ nl);
               for_each (λ sd, out_write ("  " +:+ fst sd +:+ nl)) failed
             else for_each print_diff failed);
        mret false
    end.

(** The options that [run_as_main] reads. *)
Record options := {
  opt_debug : bool;
  opt_level : Z;
  opt_git : bool;
  opt_file : string;
  opt_diff : bool;
  opt_in_place : bool;
}.
Definition default_options : options :=
  {| opt_debug := false; opt_level := 0; opt_git := false; opt_file := "";
     opt_diff := false; opt_in_place := false |}.

(** [os.path.exists(file)] and [os.path.isfile(file)] *)
Definition isfile (file : string) : io bool := λ w, (w, Ok (bool_decide (is_Some (fs w !! file)))).

Definition run_as_main (o : options) : io unit :=
  style_is_correct ←
    (if opt_git o then
       files ← git_modified_files;
       indent_files files (opt_diff o) (opt_debug o) (opt_level o) (opt_in_place o)
     else if negb (bool_decide (opt_file o = "")) then
       found ← isfile (opt_file o);
       _ ← (if negb found then
              _ ← out_write ("file " +:+ opt_file o +:+ " does not exist" +:+ nl);
              throw (SystemExit 1)
            else mret ());
       indent_files [opt_file o] (opt_diff o) (opt_debug o) (opt_level o) (opt_in_place o)
     else mret false);
  if negb style_is_correct then throw (SystemExit 1) else throw (SystemExit 0).

(** The program: every exception but SystemExit is printed. *)
Definition main (o : options) (w : world) : world * Z :=
  match run_as_main o w with
  | (w', Ok _) => (w', 0)
  | (w', Err (SystemExit c)) => (w', c)
  | (w', Err e) => (fst (err_write (str_exn e +:+ nl) w'), 1)
  end.
End check_style.

(** ** Runs of the effect monad *)
(** [runs m w a w']: [m] gives [a] from [w] and leaves [w']. *)
Definition runs {A} (m : io A) (w : world) (a : A) (w' : world) : Prop := m w = (w', Ok a).

Lemma runs_bind {A B} (m : io A) (k : A → io B) w a w1 b w2 :
  runs m w a w1 → runs (k a) w1 b w2 → runs (m ≫= k) w b w2.
Proof. unfold runs, mbind, eff_bind. intros -> H. exact H. Qed.
Lemma runs_ret {A} (a : A) w : runs (mret a) w a w.
Proof. done. Qed.
Lemma runs_read path w c : fs w !! path = Some c → runs (read_file path) w c w.
Proof. unfold runs, read_file. by intros ->. Qed.
Lemma runs_readlines path w c :
  fs w !! path = Some c → runs (readlines path) w (text_lines c) w.
Proof. intros H. eapply runs_bind; [by apply runs_read|apply runs_ret]. Qed.
Lemma runs_copyfile src dst w c :
  src ≠ dst → fs w !! src = Some c →
  runs (copyfile src dst) w () (set_fs (<[dst := c]> (fs w)) w).
Proof.
  intros Hne H. unfold copyfile. rewrite decide_False by done.
  eapply runs_bind; [by apply runs_read|done].
Qed.

(** An action that leaves the files alone and does not raise. *)
Definition quiet (m : io unit) : Prop := ∀ w, ∃ w', runs m w () w' ∧ fs w' = fs w.

Lemma quiet_err s : quiet (err_write s).
Proof. intros w. eexists. by split. Qed.
Lemma quiet_out s : quiet (out_write s).
Proof. intros w. eexists. by split. Qed.
Lemma quiet_seq m k : quiet m → quiet k → quiet (m ≫= λ _, k).
Proof.
  intros Hm Hk w. destruct (Hm w) as (w1 & H1 & E1). destruct (Hk w1) as (w2 & H2 & E2).
  exists w2. split; [by eapply runs_bind|congruence].
Qed.
Lemma quiet_when b m : quiet m → quiet (when b m).
Proof. intros Hm. destruct b; [done|]. intros w. by exists w. Qed.
Lemma quiet_for_each {A} (m : A → io unit) l : (∀ x, quiet (m x)) → quiet (for_each m l).
Proof.
  intros Hm. induction l as [|x l IH]; simpl; [intros w; by exists w|]. by apply quiet_seq.
Qed.
Create HintDb quiet.
#[export] Hint Resolve quiet_err quiet_out quiet_seq quiet_when quiet_for_each : quiet.

(** ** Runs that return, with a condition on the result and the files *)
Definition gives {A} (m : io A) (w : world) (Q : A → filesystem → Prop) : Prop :=
  ∃ a w', runs m w a w' ∧ Q a (fs w').

Lemma gives_bind {A B} (m : io A) (k : A → io B) w P Q :
  gives m w P → (∀ a w', P a (fs w') → gives (k a) w' Q) → gives (m ≫= k) w Q.
Proof.
  intros (a & w1 & H1 & Ha) Hk. destruct (Hk a w1 Ha) as (b & w2 & H2 & Hb).
  exists b, w2. split; [by eapply runs_bind|done].
Qed.
Lemma gives_ret {A} (a : A) w (Q : A → filesystem → Prop) : Q a (fs w) → gives (mret a) w Q.
Proof. intros. exists a, w. by split. Qed.
Lemma gives_quiet {B} (m : io unit) (k : unit → io B) w Q :
  quiet m → (∀ w', fs w' = fs w → gives (k ()) w' Q) → gives (m ≫= k) w Q.
Proof.
  intros Hm Hk. apply (gives_bind _ _ _ (λ _ f, f = fs w)).
  - destruct (Hm w) as (w1 & H1 & E1). by exists (), w1.
  - intros [] w' Hw'. by apply Hk.
Qed.
Lemma gives_step {A B} (m : io A) (k : A → io B) w a w1 Q :
  runs m w a w1 → gives (k a) w1 Q → gives (m ≫= k) w Q.
Proof. intros H (b & w2 & H2 & Hb). exists b, w2. split; [by eapply runs_bind|done]. Qed.

Section indenting.
Context (mkstemp_name : filesystem → string).
Context (popen : list string → filesystem → option (filesystem * string * string)).
Context (shell : string → filesystem → string).
Context (unified_diff : list string → list string → string → string → list string).
Context (filecmp : filesystem → string → string → bool).
Context (str_exn : exn → string).

(** mkstemp picks a name that is not in use. *)
Hypothesis mkstemp_fresh : ∀ f, f !! mkstemp_name f = None.
(** uncrustify is installed; it writes the file [-o], which is there, and no
    other. *)
Definition uncrustify_args (cfg source output : string) : list string :=
  ["uncrustify"; "-c"; cfg; "-f"; source; "-o"; output].
Hypothesis uncrustify_writes : ∀ f cfg source output,
  is_Some (f !! source) → is_Some (f !! output) →
  ∃ c out err, popen (uncrustify_args cfg source output) f = Some (<[output := c]> f, out, err).
(** patch is installed, and an empty patch file changes nothing. *)
Hypothesis patch_empty : ∀ f i o,
  f !! i = Some "" → ∃ out err, popen ["patch"; "-p1"; "-i"; i; o] f = Some (f, out, err).
(** Equal lines have no differences. *)
Hypothesis unified_diff_same : ∀ l from to, unified_diff l l from to = [].
(** Files with the same contents compare equal. *)
Hypothesis filecmp_same : ∀ f a b, f !! a = f !! b → filecmp f a b = true.

(** Every file of [f] has its content in [g]. *)
Definition keeps (f g : filesystem) : Prop := ∀ p c, f !! p = Some c → g !! p = Some c.

Lemma keeps_refl f : keeps f f.
Proof. by intros p c. Qed.
Lemma keeps_trans f g h : keeps f g → keeps g h → keeps f h.
Proof. intros H1 H2 p c Hp. by apply H2, H1. Qed.
Lemma keeps_insert f g p c : keeps f g → f !! p = None → keeps f (<[p := c]> g).
Proof.
  intros H Hp q d Hq. destruct (decide (p = q)) as [->|]; [congruence|].
  rewrite lookup_insert_ne by done. by apply H.
Qed.

Lemma gives_mkstemp {B} (k : string → io B) w Q :
  (∀ p w', fs w !! p = None → fs w' = <[p := ""]> (fs w) → gives (k p) w' Q) →
  gives (mkstemp mkstemp_name ≫= k) w Q.
Proof. intros Hk. eapply gives_step; [done|]. by apply Hk. Qed.

Lemma indent_step_config level w :
  gives (uncrustify_config_file mkstemp_name level) w
    (λ cfg f, fs w !! cfg = None ∧ f = <[cfg := config_text level]> (fs w)).
Proof.
  apply gives_mkstemp. intros p w' Hp Hw'. eapply gives_step; [done|].
  apply gives_ret. simpl. rewrite Hw'. split; [done|apply insert_insert_eq].
Qed.

(** With the configuration of the level, uncrustify would give the lines of the
    source back, as they are in [c]. *)
Definition formatted (level : Z) (source c : string) : Prop := ∀ f cfg output f' out err,
  f !! source = Some c → f !! cfg = Some (config_text level) → output ≠ source → output ≠ cfg →
  popen (uncrustify_args cfg source output) f = Some (f', out, err) →
  ∃ c', f' !! output = Some c' ∧ text_lines c' = text_lines c.

Lemma write_no_diff final level w :
  fs w !! final = Some "" →
  gives (write_final_diff final level []) w (λ _ f, f = fs w).
Proof.
  intros Hf. unfold write_final_diff. destruct (level <? 3).
  - eapply gives_step; [done|]. by apply gives_ret.
  - exists (), (set_fs (<[final := ""]> (fs w)) w). split; [done|]. simpl. by apply insert_id.
Qed.

Lemma runs_uncrustify cfg source output w :
  is_Some (fs w !! source) → is_Some (fs w !! output) →
  ∃ d out err,
    popen (uncrustify_args cfg source output) (fs w) = Some (<[output := d]> (fs w), out, err) ∧
    runs (run_uncrustify popen (uncrustify_args cfg source output)) w (out, err)
      (set_fs (<[output := d]> (fs w)) w).
Proof.
  intros Hs Ho. destruct (uncrustify_writes (fs w) cfg source output Hs Ho) as (d & out & err & H).
  exists d, out, err. split; [done|].
  unfold runs, run_uncrustify, run_program. by rewrite H.
Qed.

Lemma gives_patch final output w (Q : string * string → filesystem → Prop) :
  fs w !! final = Some "" → (∀ r, Q r (fs w)) →
  gives (run_program popen ["patch"; "-p1"; "-i"; final; output]) w Q.
Proof.
  intros Hf HQ. destruct (patch_empty (fs w) final output Hf) as (out & err & H).
  exists (out, err), (set_fs (fs w) w). split; [|apply HQ]. unfold runs, run_program. by rewrite H.
Qed.

(** The last part of [indent], when no difference is left to apply. *)
Lemma indent_tail source output debug level w c :
  fs w !! source = Some c → is_Some (fs w !! output) → output ≠ source →
  gives (final_diff ← mkstemp mkstemp_name;
    _ ← write_final_diff final_diff level [];
    _ ← when debug (err_write ("final diff file=" +:+ final_diff +:+ nl));
    _ ← copyfile source output;
    '(out, err) ← run_program popen ["patch"; "-p1"; "-i"; final_diff; output];
    _ ← when debug (_ ← err_write out; err_write err);
    mret output) w
    (λ r f, r = output ∧ f !! output = Some c ∧
            ∀ p d, p ≠ output → fs w !! p = Some d → f !! p = Some d).
Proof.
  intros Hs Ho Hne. apply gives_mkstemp. intros final w1 Hfinal Hw1.
  assert (source ≠ final) by naive_solver. assert (output ≠ final) by (destruct Ho; naive_solver).
  eapply gives_bind. { apply write_no_diff. by rewrite Hw1, lookup_insert_eq. }
  intros u w2 Hw2. apply gives_quiet; [by auto with quiet|]. intros w3 Hw3.
  eapply gives_step.
  { apply (runs_copyfile source output w3 c); [done|].
    by rewrite Hw3, Hw2, Hw1, lookup_insert_ne. }
  eapply gives_bind.
  { apply (gives_patch _ _ _ (λ _ f, f = <[output := c]> (fs w3))); [|done]. simpl.
    by rewrite Hw3, Hw2, Hw1, lookup_insert_ne, lookup_insert_eq. }
  intros [out err] w4 Hw4. apply gives_quiet; [by auto with quiet|]. intros w5 Hw5.
  apply gives_ret. rewrite Hw5, Hw4, Hw3, Hw2, Hw1. split_and!; [done|by rewrite lookup_insert_eq|].
  intros p d Hp Hd. rewrite !lookup_insert_ne by naive_solver. done.
Qed.

(** The lines that are left to parse: none in debug mode. *)
Lemma gives_diff debug diff w :
  debug = true ∨ diff = [] →
  gives (if debug then
             initial_diff ← mkstemp mkstemp_name;
             _ ← err_write ("initial diff file=" +:+ initial_diff +:+ nl);
             _ ← write_file initial_diff (cat diff);
             mret []
           else mret diff) w
    (λ d f, d = [] ∧ keeps (fs w) f).
Proof.
  intros Hd. destruct debug.
  - apply gives_mkstemp. intros p w1 Hp Hw1. apply gives_quiet; [by auto with quiet|].
    intros w2 Hw2. eapply gives_step; [done|]. apply gives_ret. split; [done|].
    simpl. rewrite Hw2, Hw1, insert_insert_eq. by apply keeps_insert; [apply keeps_refl|].
  - destruct Hd as [| ->]; [done|]. apply gives_ret. split; [done|apply keeps_refl].
Qed.

Lemma indent_no_diff source debug level w c :
  fs w !! source = Some c → debug = true ∨ formatted level source c →
  gives (indent mkstemp_name popen unified_diff source debug level) w
    (λ output f, fs w !! output = None ∧ f !! output = Some c ∧ keeps (fs w) f).
Proof.
  intros Hc Hd. apply gives_mkstemp. intros output w1 Ho Hw1.
  assert (output ≠ source) as Hne by naive_solver.
  eapply gives_bind; [apply indent_step_config|]. intros cfg w2 [Hcfg Hw2].
  assert (output ≠ cfg) as Hoc. { intros ->. by rewrite Hw1, lookup_insert_eq in Hcfg. }
  assert (keeps (fs w) (fs w2)) as Hk2.
  { rewrite Hw2, Hw1 in *. intros p d Hp. rewrite !lookup_insert_ne; [done|naive_solver|].
    intros ->. rewrite lookup_insert_ne in Hcfg by done. congruence. }
  assert (fs w2 !! cfg = Some (config_text level)) as Hcfg2 by by rewrite Hw2, lookup_insert_eq.
  apply gives_quiet; [by auto 6 with quiet|]. intros w3 Hw3. rewrite <-Hw3 in Hk2, Hcfg2.
  pose proof (Hk2 _ _ Hc) as Hc3.
  destruct (runs_uncrustify cfg source output w3) as (d & out & err & Hp & Hr);
    [by rewrite Hc3|by rewrite Hw3, Hw2, lookup_insert_ne, Hw1, lookup_insert_eq|].
  eapply gives_step; [exact Hr|]. apply gives_quiet; [by auto with quiet|].
  intros w4 Hw4. simpl in Hw4.
  eapply gives_step. { apply (runs_readlines source w4 c). by rewrite Hw4, lookup_insert_ne. }
  eapply gives_step. { apply (runs_readlines output w4 d). by rewrite Hw4, lookup_insert_eq. }
  eapply gives_bind.
  { apply gives_diff. destruct Hd as [->|Hf]; [by left|right].
    destruct (Hf _ _ _ _ _ _ Hc3 Hcfg2 Hne Hoc Hp) as (c' & Hc' & Hl).
    rewrite lookup_insert_eq in Hc'. injection Hc' as <-. rewrite Hl. apply unified_diff_same. }
  intros diff w5 [-> Hk5].
  assert (∀ p e, p ≠ output → fs w3 !! p = Some e → fs w5 !! p = Some e) as Hk35.
  { intros p e Hpo Hpe. apply Hk5. by rewrite Hw4, lookup_insert_ne. }
  destruct (indent_tail source output debug level w5 c) as (r & w6 & Hr6 & -> & Ho6 & Hk6); [|..|done|].
  { by apply Hk35. }
  { exists d. apply Hk5. by rewrite Hw4, lookup_insert_eq. }
  exists output, w6. split; [exact Hr6|]. split_and!; [done..|].
  intros p e Hpe. assert (p ≠ output) by naive_solver. by apply Hk6, Hk35, Hk2.
Qed.

(** The verdict on one file without differences, and the files it leaves. *)
Lemma indent_files_no_diff source diff debug level inplace w c :
  fs w !! source = Some c → debug = true ∨ formatted level source c →
  gives (indent_files mkstemp_name popen unified_diff filecmp [source] diff debug level inplace) w
    (λ b f, b = true ∧ keeps (fs w) f).
Proof.
  intros Hc Hd.
  destruct (indent_no_diff source debug level w c Hc Hd) as (output & w1 & H1 & Ho & Ho1 & Hk).
  eapply gives_step.
  { eapply runs_bind; [exact H1|]. eapply runs_bind; apply runs_ret. }
  destruct inplace; simpl for_each.
  - eapply gives_step.
    { eapply runs_bind; [|apply runs_ret]. apply (runs_copyfile output source w1 c); [|done].
      intros ->. congruence. }
    apply gives_ret. split; [done|]. simpl. intros p d Hp.
    destruct (decide (p = source)) as [->|]; [rewrite lookup_insert_eq; congruence|].
    rewrite lookup_insert_ne by done. by apply Hk.
  - eapply gives_step.
    { eapply runs_bind; [by apply (runs_read source w1 c), Hk|].
      eapply runs_bind; [by apply (runs_read output w1 c)|].
      eapply runs_bind; [done|]. eapply runs_bind; [apply runs_ret|]. apply runs_ret. }
    rewrite filecmp_same by (by rewrite Ho1, (Hk _ _ Hc)). simpl.
    by apply gives_ret.
Qed.

(** C32: with uncrustify and patch installed, a file whose own lines
    uncrustify would not change, with the configuration of the level, passes the check, and
    with --debug every file passes, whatever uncrustify makes of it: the
    difference is read once for the log and is empty when it is applied.  The
    files keep their contents, in place or not. *)
Theorem check_passes o w c (Hgit : opt_git o = false) (Hfile : opt_file o ≠ "")
    (Hc : fs w !! opt_file o = Some c) 
    (Hd : opt_debug o = true ∨ formatted (opt_level o) (opt_file o) c) :
  ∃ w', main mkstemp_name popen shell unified_diff filecmp str_exn o w = (w', 0) ∧
        keeps (fs w) (fs w').
Proof.
  destruct (indent_files_no_diff (opt_file o) (opt_diff o) (opt_debug o) (opt_level o)
    (opt_in_place o) w c Hc Hd) as (b & w' & Hr & -> & Hk).
  exists w'. split; [|done]. unfold main, run_as_main. rewrite Hgit, bool_decide_eq_false_2 by done.
  simpl. unfold isfile. unfold mbind, eff_bind. rewrite Hc, bool_decide_eq_true_2 by done. simpl.
  unfold runs in Hr. by rewrite Hr.
Qed.

End indenting.

Section verdicts.
Context (mkstemp_name : filesystem → string).
Context (popen : list string → filesystem → option (filesystem * string * string)).
Context (shell : string → filesystem → string).
Context (unified_diff : list string → list string → string → string → list string).
Context (filecmp : filesystem → string → string → bool).
Context (str_exn : exn → string).

(** ** The verdict on several files *)
Definition bad_pair (f : filesystem) (sd : string * string) : Prop := filecmp f (fst sd) (snd sd) = false.
#[local] Instance bad_pair_dec f sd : Decision (bad_pair f sd).
Proof. unfold bad_pair. apply _. Defined.

Lemma runs_compare output w :
  Forall (λ sd, is_Some (fs w !! fst sd) ∧ is_Some (fs w !! snd sd)) output →
  runs (compare_all filecmp output) w (filter (bad_pair (fs w)) output) w.
Proof.
  induction 1 as [|[s d] output [[cs Hs] [cd Hd]] Hall IH]; [done|].
  eapply runs_bind; [by apply runs_read|]. eapply runs_bind; [by apply runs_read|].
  eapply runs_bind; [done|]. eapply runs_bind; [exact IH|]. rewrite filter_cons.
  case_decide as Hb; unfold bad_pair in Hb; simpl in Hb.
  - by rewrite Hb.
  - by destruct (filecmp (fs w) s d).
Qed.

Lemma for_each_out {A} (g : A → string) l w :
  runs (for_each (λ x, out_write (g x)) l) w ()
    {| fs := fs w; stdout := stdout w ++ (g <$> l); stderr := stderr w |}.
Proof.
  revert w. induction l as [|x l IH]; intros w; simpl for_each.
  - unfold runs. destruct w. simpl. by rewrite app_nil_r.
  - eapply runs_bind; [done|]. specialize (IH {| fs := fs w; stdout := stdout w ++ [g x]; stderr := stderr w |}).
    simpl in IH. by rewrite <-app_assoc in IH.
Qed.

(** Without --diff and --in-place the verdict is true exactly when every
    file compares equal to its indented copy; otherwise the badly indented
    ones, and no others, are printed in the order of the command line. *)
Theorem indent_files_verdict files debug level w output w1
    (Hi : indent_all mkstemp_name popen unified_diff files debug level w = (w1, Ok output))
    (He : Forall (λ sd, is_Some (fs w1 !! fst sd) ∧ is_Some (fs w1 !! snd sd)) output) :
  let bad := filter (bad_pair (fs w1)) output in
  indent_files mkstemp_name popen unified_diff filecmp files false debug level false w =
  ({| fs := fs w1;
      stdout := stdout w1 ++
        (if decide (bad = []) then []
         else ("Found " +:+ pretty (length bad) +:+ " badly indented files:" +:+ nl)
              :: ((λ sd, "  " +:+ fst sd +:+ nl) <$> bad));
      stderr := stderr w1 |},
   Ok (bool_decide (bad = []))).
Proof.
  intros bad. change (runs (indent_files mkstemp_name popen unified_diff filecmp files false debug
    level false) w (bool_decide (bad = [])) {| fs := fs w1;
      stdout := stdout w1 ++
        (if decide (bad = []) then []
         else ("Found " +:+ pretty (length bad) +:+ " badly indented files:" +:+ nl)
              :: ((λ sd, "  " +:+ fst sd +:+ nl) <$> bad));
      stderr := stderr w1 |}).
  eapply runs_bind; [exact Hi|]. cbv iota. eapply runs_bind; [by apply runs_compare|].
  fold bad. destruct bad as [|sd bad']; simpl.
  - destruct w1. unfold runs. simpl. by rewrite app_nil_r.
  - eapply runs_bind; [|apply runs_ret]. eapply runs_bind; [done|].
    pose proof (for_each_out (λ sd, "  " +:+ fst sd +:+ nl) (sd :: bad')
      {| fs := fs w1; stdout := stdout w1 ++ ["Found " +:+ pretty (S (length bad')) +:+
           " badly indented files:" +:+ nl]; stderr := stderr w1 |}) as H.
    simpl in H. by rewrite <-app_assoc in H.
Qed.

(** In place, every file gets the contents of its indented copy and no
    other file changes. *)
Theorem indent_files_inplace files diff debug level w output w1
    (Hi : indent_all mkstemp_name popen unified_diff files debug level w = (w1, Ok output))
    (He : Forall (λ sd, is_Some (fs w1 !! snd sd)) output)
    (Hnd : NoDup output.*1) (Hdisj : ∀ p, p ∈ output.*1 → p ∉ output.*2) :
  ∃ w2, indent_files mkstemp_name popen unified_diff filecmp files diff debug level true w = (w2, Ok true) ∧
        (∀ s d, (s, d) ∈ output → fs w2 !! s = fs w1 !! d) ∧
        (∀ p, p ∉ output.*1 → fs w2 !! p = fs w1 !! p).
Proof.
  clear shell str_exn.
  assert (∃ w2, runs (for_each (λ sd, copyfile (snd sd) (fst sd)) output) w1 () w2 ∧
    (∀ s d, (s, d) ∈ output → fs w2 !! s = fs w1 !! d) ∧
    (∀ p, p ∉ output.*1 → fs w2 !! p = fs w1 !! p)) as (w2 & Hr & H1 & H2).
  { clear Hi. revert w1 He. induction output as [|[s d] output IH]; intros w1 He.
    { exists w1. split_and!; [done| |done]. by intros s d ?%not_elem_of_nil. }
    apply Forall_cons in He as [[c Hc] He]. simpl in *. apply NoDup_cons in Hnd as [Hs Hnd].
    assert (s ∉ d :: output.*2) as Hsd by (apply Hdisj; set_solver).
    destruct (IH Hnd) with (w1 := set_fs (<[s := c]> (fs w1)) w1) as (w2 & Hr & H1 & H2).
    { intros p Hp. assert (p ∉ d :: output.*2) by (apply Hdisj; set_solver). set_solver. }
    { eapply Forall_impl; [exact He|]. intros [s' d'] H. simpl in *.
      by rewrite lookup_insert_is_Some'; right. }
    exists w2. split; [|split].
    - eapply runs_bind; [|exact Hr]. apply runs_copyfile; [set_solver|done].
    - intros s' d' [[= -> ->]|Hin]%elem_of_cons.
      + rewrite H2 by done. simpl. by rewrite lookup_insert_eq.
      + rewrite (H1 _ _ Hin). simpl. rewrite lookup_insert_ne; [done|].
        intros <-. apply Hsd. apply elem_of_cons. right. apply list_elem_of_fmap. by exists (s', s).
    - intros p Hp. apply not_elem_of_cons in Hp as [? ?]. rewrite H2 by done. simpl.
      by rewrite lookup_insert_ne. }
  exists w2. split; [|done]. eapply (runs_bind _ _ _ _ w1); [exact Hi|].
  eapply runs_bind; [exact Hr|apply runs_ret].
Qed.

(** ** The exit code *)
(** Only [run_as_main] itself ends the process. *)
Definition no_exit {A} (m : io A) : Prop := ∀ w w' c, m w ≠ (w', Err (SystemExit c)).

Lemma no_exit_bind {A B} (m : io A) (k : A → io B) :
  no_exit m → (∀ a, no_exit (k a)) → no_exit (m ≫= k).
Proof.
  intros Hm Hk w w' c. unfold mbind, eff_bind. destruct (m w) as [w1 [a|e]] eqn:E; [apply Hk|].
  intros [= -> ->]. by eapply Hm.
Qed.
Lemma no_exit_ret {A} (a : A) : no_exit (mret a).
Proof. by intros w w' c. Qed.
Lemma no_exit_quiet m : quiet m → no_exit m.
Proof. intros Hm w w' c. destruct (Hm w) as (w1 & H & _). unfold runs in H. congruence. Qed.
Lemma no_exit_read path : no_exit (read_file path).
Proof. intros w w' c. unfold read_file. destruct (fs w !! path); congruence. Qed.
Lemma no_exit_write path s : no_exit (write_file path s).
Proof. by intros w w' c. Qed.
Lemma no_exit_mkstemp : no_exit (mkstemp mkstemp_name).
Proof. by intros w w' c. Qed.
Lemma no_exit_run args : no_exit (run_program popen args).
Proof. intros w w' c. unfold run_program. by destruct (popen args (fs w)) as [[[? ?] ?]|]. Qed.
Lemma no_exit_uncrustify args : no_exit (run_uncrustify popen args).
Proof.
  intros w w' c. unfold run_uncrustify, run_program.
  by destruct (popen args (fs w)) as [[[? ?] ?]|].
Qed.
Lemma no_exit_lift {A} (r : res A) : (∀ c, r ≠ Err (SystemExit c)) → no_exit (lift_res r).
Proof. intros Hr w w' c [= _ ->]. by eapply Hr. Qed.
Lemma no_exit_for_each {A} (m : A → io unit) l : (∀ x, no_exit (m x)) → no_exit (for_each m l).
Proof.
  intros Hm. induction l as [|x l IH]; [apply no_exit_ret|]. by apply no_exit_bind.
Qed.
Create HintDb no_exit.
#[local] Hint Resolve no_exit_ret no_exit_read no_exit_write no_exit_mkstemp
  no_exit_run no_exit_uncrustify no_exit_for_each : no_exit.
#[local] Hint Extern 3 (no_exit (_ ≫= _)) => apply no_exit_bind; [|intros] : no_exit.
#[local] Hint Extern 5 (no_exit _) => solve [apply no_exit_quiet; auto with quiet] : no_exit.

Lemma readlines_no_exit path : no_exit (readlines path).
Proof. unfold readlines. auto with no_exit. Qed.
Lemma copyfile_no_exit a b : no_exit (copyfile a b).
Proof. unfold copyfile. case_decide; [by intros w w' c|auto with no_exit]. Qed.
#[local] Hint Resolve readlines_no_exit copyfile_no_exit : no_exit.

Lemma rtw_no_exit diff c : remove_trailing_whitespace_changes diff ≠ Err (SystemExit c).
Proof.
  unfold remove_trailing_whitespace_changes, parse_patchset.
  pose proof (parse_lines_follows [] pstate0 diff) as H.
  destruct (parse_lines pstate0 diff) as [|e]; [done|].
  destruct H as (l1 & x & l2 & _ & Ho & _); [done|]. simpl. intros [= ->].
  unfold offence in Ho. by repeat case_match.
Qed.

Lemma patch_write_no_exit p c : snd (patch_write p []) ≠ Err (SystemExit c).
Proof.
  assert (∀ {A} (w : A → eff out_file exn unit) l f c,
    (∀ x f c, snd (w x f) ≠ Err (SystemExit c)) → snd (for_each w l f) ≠ Err (SystemExit c)) as Hfor.
  { intros A w l f c' Hw. revert f. induction l as [|x l IH]; intros f; [done|]. simpl.
    unfold mbind, eff_bind. specialize (Hw x f c'). destruct (w x f) as [f' [a|e]]; [apply IH|done]. }
  unfold patch_write, mbind, eff_bind. simpl. apply Hfor. intros ch f c'.
  unfold chunk_write, mbind, eff_bind. simpl. apply Hfor. intros l f' c2.
  unfold line_write. by repeat case_match.
Qed.

Lemma indent_no_exit f debug level : no_exit (indent mkstemp_name popen unified_diff f debug level).
Proof.
  assert (∀ final diff, no_exit (write_final_diff final level diff)) as Hw.
  { intros final diff. unfold write_final_diff. destruct (level <? 3); [|auto with no_exit].
    apply no_exit_bind; [apply no_exit_lift, rtw_no_exit|]. intros [|p ?]; [auto with no_exit|].
    destruct (patch_write p []) as [out r] eqn:E. apply no_exit_bind; [auto with no_exit|].
    intros _. apply no_exit_lift. intros c ->. apply (patch_write_no_exit p c). by rewrite E. }
  unfold indent, uncrustify_config_file.
  repeat first [solve [auto 10 with no_exit] | apply no_exit_bind; [|intros] | case_match].
Qed.
Lemma indent_files_no_exit files diff debug level inplace :
  no_exit (indent_files mkstemp_name popen unified_diff filecmp files diff debug level inplace).
Proof.
  assert (∀ files, no_exit (indent_all mkstemp_name popen unified_diff files debug level)) as Ha.
  { clear files. induction files as [|f files IH]; simpl; [auto with no_exit|].
    apply no_exit_bind; [apply indent_no_exit|intros]. auto with no_exit. }
  assert (∀ output, no_exit (compare_all filecmp output)) as Hc.
  { induction output as [|[s d] output IH]; simpl; [auto with no_exit|].
    do 2 (apply no_exit_bind; [auto with no_exit|intros]).
    apply no_exit_bind; [by intros w w' c|intros]. auto with no_exit. }
  assert (∀ sd, no_exit (print_diff unified_diff sd)) as Hp.
  { intros [s d]. unfold print_diff. auto 10 with no_exit quiet. }
  unfold indent_files.
  repeat first [solve [auto 10 with no_exit] | apply no_exit_bind; [|intros] | case_match].
Qed.

(** How a run ends: with the codes of the verdict, or with another exception. *)
Definition ends (r : res unit) : Prop :=
  r = Err (SystemExit 0) ∨ r = Err (SystemExit 1) ∨
  ∃ e, r = Err e ∧ ∀ c, e ≠ SystemExit c.

Lemma ends_verdict (m : io bool) w :
  no_exit m → ends (snd ((m ≫= λ b, if negb b then throw (SystemExit 1) else throw (SystemExit 0)) w)).
Proof.
  intros Hm. unfold mbind, eff_bind, ends. destruct (m w) as [w' [[]|e]] eqn:E; simpl; [by left|by auto|].
  right; right. exists e. split; [done|]. intros c ->. by eapply Hm.
Qed.

Lemma run_as_main_ends o w :
  ends (snd (run_as_main mkstemp_name popen shell unified_diff filecmp o w)).
Proof.
  unfold run_as_main. destruct (opt_git o).
  { apply ends_verdict, no_exit_bind; [|intros; apply indent_files_no_exit].
    intros w1. unfold git_modified_files. apply no_exit_bind; auto with no_exit. }
  destruct (negb _); [|by apply ends_verdict, no_exit_ret].
  destruct (fs w !! opt_file o) as [c|] eqn:E; simpl.
  - pose proof (ends_verdict _ w (indent_files_no_exit [opt_file o] (opt_diff o) (opt_debug o)
      (opt_level o) (opt_in_place o))) as H.
    unfold isfile, mbind, eff_bind in *. by rewrite E, bool_decide_eq_true_2 by done.
  - unfold isfile, mbind, eff_bind. rewrite E, bool_decide_eq_false_2 by apply is_Some_None.
    simpl. right; by left.
Qed.

(** The process ends with 0 or 1, and with 0 exactly when [run_as_main]
    found the style correct; every exception ends it with 1 and its message
    on stderr; without --check-git and --check-file it ends with 1 and does
    nothing, and a file that does not exist is reported and ends it with 1. *)
Theorem main_exit_code o w :
  let run := run_as_main mkstemp_name popen shell unified_diff filecmp o w in
  let '(w', code) := main mkstemp_name popen shell unified_diff filecmp str_exn o w in
  code = (if decide (snd run = Err (SystemExit 0)) then 0 else 1) ∧
  (match snd run with
   | Err (SystemExit _) => w' = fst run
   | Err e => stderr w' = stderr (fst run) ++ [str_exn e +:+ nl]
   | Ok _ => False
   end) ∧
  (opt_git o = false → opt_file o = "" → w' = w ∧ code = 1) ∧
  (opt_git o = false → opt_file o ≠ "" → fs w !! opt_file o = None →
     code = 1 ∧ fs w' = fs w ∧
     stdout w' = stdout w ++ ["file " +:+ opt_file o +:+ " does not exist" +:+ nl]).
Proof.
  intros run. pose proof (run_as_main_ends o w) as Hends. fold run in Hends. unfold main. fold run.
  assert (opt_git o = false → opt_file o = "" → run = (w, Err (SystemExit 1))) as H1.
  { intros Hg Hf. subst run. unfold run_as_main. by rewrite Hg, Hf. }
  assert (opt_git o = false → opt_file o ≠ "" → fs w !! opt_file o = None →
    run = ({| fs := fs w; stdout := stdout w ++ ["file " +:+ opt_file o +:+ " does not exist" +:+ nl];
              stderr := stderr w |}, Err (SystemExit 1))) as H2.
  { intros Hg Hf Hn. subst run. unfold run_as_main. rewrite Hg, bool_decide_eq_false_2 by done. simpl.
    unfold isfile, mbind, eff_bind. by rewrite Hn, bool_decide_eq_false_2 by apply is_Some_None. }
  destruct run as [w' r]. simpl in *.
  destruct Hends as [->|[->|(e & -> & He)]].
  - split_and!; [done..| |]; intros; exfalso; naive_solver.
  - split_and!; [done..|by intros Hg Hf; injection (H1 Hg Hf) as ->|].
    intros Hg Hf Hn. by injection (H2 Hg Hf Hn) as ->.
  - destruct e; try (by destruct (He code)); simpl;
      (split_and!; [done..| |]; intros; exfalso; naive_solver).
Qed.

End verdicts.

(** ** Instances
    A uncrustify that writes one fixed text, a patch that writes it when it
    gets a difference, and names that are fresh. *)
Definition sample_name (f : filesystem) : string :=
  let used : gset string := dom f in fresh used.
Definition sample_popen (args : list string) (f : filesystem)
    : option (filesystem * string * string) :=
  match args with
  | [_; _; _; _; _; _; output] => Some (<[output := "int x;" +:+ nl]> f, "", "")
  | [_; _; _; final; output] =>
      if decide (f !! final = Some "") then Some (f, "", "")
      else Some (<[output := "int x;" +:+ nl]> f, "", "")
  | _ => Some (f, "/ns3" +:+ nl, "")
  end.
Definition sample_diff (a b : list string) (from to : string) : list string :=
  if decide (a = b) then []
  else ["--- " +:+ from +:+ nl; "+++ " +:+ to +:+ nl; "@@ -1,2 +1,2 @@" +:+ nl; " a" +:+ nl; "-b" +:+ nl; "+c" +:+ nl].
Definition sample_cmp (f : filesystem) (a b : string) : bool := bool_decide (f !! a = f !! b).
Definition sample_world : world :=
  {| fs := {[ "a.cc" := "int  x ;" +:+ nl; "b.cc" := "int x;" +:+ nl ]}; stdout := []; stderr := [] |}.
(** Names by the number of files, enough where nothing is removed. *)
Definition counted_name (f : filesystem) : string := "/tmp/" +:+ pretty (size f).

Definition check_file (file : string) (debug : bool) : options :=
  {| opt_debug := debug; opt_level := 0; opt_git := false; opt_file := file;
     opt_diff := false; opt_in_place := false |}.
Abbreviation sample_main :=
  (main sample_name sample_popen (λ _ _, "") sample_diff sample_cmp (λ _, "")).
(** The lines of b.cc are kept; those of a.cc are not, and --debug hides it. *)
Lemma check_passes_witness :
  (∃ w', sample_main (check_file "b.cc" false) sample_world = (w', 0) ∧ keeps (fs sample_world) (fs w')) ∧
  (∃ w', sample_main (check_file "a.cc" true) sample_world = (w', 0) ∧ keeps (fs sample_world) (fs w')).
Proof.
  assert (∀ f : filesystem, f !! sample_name f = None) as Hfresh.
  { intros f. apply (not_elem_of_dom (D := gset string)), (is_fresh (dom f : gset string)). }
  assert (∀ f i o, f !! i = Some "" →
    ∃ out err, sample_popen ["patch"; "-p1"; "-i"; i; o] f = Some (f, out, err)) as Hpatch.
  { intros f i o Hi. exists "", "". unfold sample_popen. by rewrite decide_True. }
  assert (∀ l from to, sample_diff l l from to = []) as Hdiff.
  { intros l from to. unfold sample_diff. by rewrite decide_True. }
  split.
  - apply (check_passes sample_name sample_popen (λ _ _, "") sample_diff sample_cmp (λ _, ""))
      with (c := "int x;" +:+ nl); try done.
    + intros f cfg source output _ _. by exists ("int x;" +:+ nl), "", "".
    + intros f a b Hab. by apply bool_decide_eq_true_2.
    + right. intros f cfg output f' out err _ _ _ _ [= <- <- <-].
      exists ("int x;" +:+ nl). split; [apply lookup_insert_eq|done].
  - apply (check_passes sample_name sample_popen (λ _ _, "") sample_diff sample_cmp (λ _, ""))
      with (c := "int  x ;" +:+ nl); try done.
    + intros f cfg source output _ _. by exists ("int x;" +:+ nl), "", "".
    + intros f a b Hab. by apply bool_decide_eq_true_2.
    + by left.
Defined.
(** Without --debug a.cc does not pass. *)
Example check_fails : (sample_main (check_file "a.cc" false) sample_world).2 = 1.
Proof. vm_compute. reflexivity. Qed.

(** The files and the copies after indenting both sample files. *)
Definition sample_run : world * res (list (string * string)) :=
  indent_all counted_name sample_popen sample_diff ["a.cc"; "b.cc"] false 0 sample_world.

Lemma indent_files_verdict_witness :
  snd sample_run = Ok [("a.cc", "/tmp/2"); ("b.cc", "/tmp/5")] ∧
  snd (indent_files counted_name sample_popen sample_diff sample_cmp ["a.cc"; "b.cc"]
         false false 0 false sample_world) = Ok false ∧
  stdout (fst (indent_files counted_name sample_popen sample_diff sample_cmp ["a.cc"; "b.cc"]
         false false 0 false sample_world)) =
    ["Found 1 badly indented files:" +:+ nl; "  a.cc" +:+ nl].
Proof.
  assert (sample_run = (fst sample_run, Ok [("a.cc", "/tmp/2"); ("b.cc", "/tmp/5")])) as Hrun
    by by vm_compute.
  split; [by vm_compute|].
  rewrite (indent_files_verdict counted_name sample_popen sample_diff sample_cmp _ _ _ _ _ _ Hrun).
  - split; by vm_compute.
  - apply (bool_decide_unpack _). by vm_compute.
Defined.

Lemma indent_files_inplace_witness :
  ∃ w2, indent_files counted_name sample_popen sample_diff sample_cmp ["a.cc"; "b.cc"]
          false false 0 true sample_world = (w2, Ok true) ∧
        fs w2 !! "a.cc" = Some ("int x;" +:+ nl).
Proof.
  assert (sample_run = (fst sample_run, Ok [("a.cc", "/tmp/2"); ("b.cc", "/tmp/5")])) as Hrun
    by by vm_compute.
  destruct (indent_files_inplace counted_name sample_popen sample_diff sample_cmp _ false _ _ _ _ _ Hrun)
    as (w2 & Hw2 & Hs & _).
  - apply (bool_decide_unpack _). by vm_compute.
  - apply (bool_decide_unpack _). by vm_compute.
  - apply Forall_forall. apply (bool_decide_unpack _). by vm_compute.
  - exists w2. split; [exact Hw2|]. rewrite (Hs "a.cc" "/tmp/2") by (apply elem_of_cons; by left). by vm_compute.
Defined.
