(* ===== verification/Ns3rc.v ===== *)
(** * src/utils.py
    The readers of the [.ns3rc] configuration file: [get_list_from_file],
    [get_bool_from_file] and [read_config_file], over a file system of text
    files.  The values that [eval] returns and [eval] itself are behind the
    interface [PyEval]. *)
From Stdlib Require Import Ascii.
From S2P Require Import Prelude PyStr.
#[local] Open Scope Z_scope.

(** Python values, as far as the module builds and tests them, and [eval]. *)
Class PyEval (V : Type) := {
  of_list : list string → V;
  of_bool : bool → V;
  truthy : V → bool;
  eval : string → res V;
  truthy_list : ∀ l, truthy (of_list l) = negb (bool_decide (l = []));
}.

Section ns3rc.
Context `{PyEval V}.

(** [(line, comment) = line.split('#', 1)] where there is a comment. *)
Definition strip_comment (line : string) : string :=
  if contains line "#" then fst (split1 "#" line) else line.

(** [eval(s.split('=', 1)[1].strip())] *)
Definition eval_assigned (s : string) : res V :=
  match snd (split1 "=" s) with
  | Some value => eval (strip value)
  | None => Err IndexError
  end.

(** ** get_list_from_file *)
Fixpoint list_loop (list_name : string) (file_in : list string) (list_string : string)
    (parsing_multiline_list : bool) : res V :=
  match file_in with
  | [] => Ok (of_list [])
  | line :: file_in =>
      let line := strip_comment line in
      if contains line list_name || parsing_multiline_list then
        let list_string := list_string +:+ line in
        if negb (contains list_string "]") then list_loop list_name file_in list_string true
        else eval_assigned list_string
      else list_loop list_name file_in list_string parsing_multiline_list
  end.
Definition get_list_from_file (fs : gmap string string) (file_path list_name : string) : res V :=
  match fs !! file_path with
  | Some content => list_loop list_name (text_lines content) "" false
  | None => Ok (of_list [])
  end.

(** ** get_bool_from_file
    [bool_found] and [bool] are bound by the loop only. *)
Fixpoint bool_loop (bool_name : string) (file_in : list string) : res (option V) :=
  match file_in with
  | [] => Ok None
  | line :: file_in =>
      let line := strip_comment line in
      if contains line bool_name then v ← eval_assigned line; Ok (Some v)
      else bool_loop bool_name file_in
  end.
Definition get_bool_from_file (fs : gmap string string) (file_path bool_name : string)
    (value_if_missing : V) : res V :=
  match fs !! file_path with
  | Some content =>
      found ← bool_loop bool_name (text_lines content);
      Ok (default value_if_missing found)
  | None => Err UnboundLocalError
  end.

(** ** read_config_file
    [home] is [os.path.expanduser('~/')]. *)
Definition read_config_file (home : string) (fs : gmap string string) : res (bool * V * V * V) :=
  let exists_file path := bool_decide (is_Some (fs !! path)) in
  let dot_ns3rc_name := ".ns3rc" in
  let home_path := home +:+ dot_ns3rc_name in
  if negb (exists_file dot_ns3rc_name) && negb (exists_file home_path) then
    Ok (false, of_list ["all_modules"], of_bool false, of_bool false)
  else
    let dot_ns3rc_path := if exists_file dot_ns3rc_name then dot_ns3rc_name else home_path in
    modules_enabled ← get_list_from_file fs dot_ns3rc_path "modules_enabled";
    let modules_enabled :=
      if truthy modules_enabled then modules_enabled else of_list ["all_modules"] in
    examples_enabled ← get_bool_from_file fs dot_ns3rc_path "examples_enabled" (of_bool false);
    tests_enabled ← get_bool_from_file fs dot_ns3rc_path "tests_enabled" (of_bool false);
    Ok (true, modules_enabled, examples_enabled, tests_enabled).

(** ** What a file says, read at once
    The lines from the first one that names the variable. *)
Fixpoint from_name (name : string) (lines : list string) : list string :=
  match lines with
  | [] => []
  | l :: lines' => if contains l name then lines else from_name name lines'
  end.
(** The first text that closes a bracket. *)
Definition first_closed (texts : list string) : option string :=
  head (filter (λ s, contains s "]" = true) texts).
(** The shortest run of them that closes a bracket. *)
Definition list_entry (name : string) (lines : list string) : option string :=
  let rest := from_name name lines in
  first_closed ((λ k, cat (take k rest)) <$> seq 1 (length rest)).
Definition eval_entry (missing : V) (entry : option string) : res V :=
  match entry with Some s => eval_assigned s | None => Ok missing end.
Definition config_lines (content : string) : list string := strip_comment <$> text_lines content.

Lemma list_loop_multi name file_in acc :
  list_loop name file_in acc true =
  eval_entry (of_list []) (first_closed
    ((λ k, acc +:+ cat (take k (strip_comment <$> file_in))) <$> seq 1 (length file_in))).
Proof.
  revert acc. induction file_in as [|l file_in IH]; intros acc; [done|].
  cbn [list_loop]. rewrite orb_true_r. cbn [seq length]. unfold first_closed.
  rewrite !fmap_cons, filter_cons. cbn [take]. rewrite take_0. cbn [cat foldr].
  rewrite append_nil_r.
  destruct (contains (acc +:+ strip_comment l) "]") eqn:E; cbn [negb].
  - by rewrite decide_True.
  - rewrite decide_False by done. rewrite IH. unfold first_closed. do 3 f_equal.
    rewrite <-(fmap_S_seq 1), <-list_fmap_compose. apply list_fmap_ext. intros i k Hk. simpl.
    by rewrite append_assoc.
Qed.

Lemma list_loop_entry name file_in :
  list_loop name file_in "" false =
  eval_entry (of_list []) (list_entry name (strip_comment <$> file_in)).
Proof.
  induction file_in as [|l file_in IH]; [done|].
  unfold list_entry. rewrite fmap_cons. cbn [from_name list_loop].
  destruct (contains (strip_comment l) name) eqn:E; [|exact IH].
  trans (list_loop name (l :: file_in) "" true).
  - cbn [list_loop]. by rewrite orb_true_r.
  - rewrite list_loop_multi. by rewrite fmap_cons, !length_cons, length_fmap.
Qed.

Lemma bool_loop_entry name file_in :
  bool_loop name file_in =
  match head (from_name name (strip_comment <$> file_in)) with
  | Some s => v ← eval_assigned s; Ok (Some v)
  | None => Ok None
  end.
Proof.
  induction file_in as [|l file_in IH]; [done|]. rewrite fmap_cons. cbn [from_name bool_loop].
  by destruct (contains (strip_comment l) name).
Qed.

(** A list is read from the first line that names it, comments removed,
    over the fewest lines whose text holds a closing bracket; the value is
    that of the text after the first equals sign, IndexError without one; a
    missing file, a missing name and a bracket that is never closed give the
    empty list. *)
Theorem get_list_from_file_spec fs path name :
  get_list_from_file fs path name =
  match fs !! path with
  | Some content => eval_entry (of_list []) (list_entry name (config_lines content))
  | None => Ok (of_list [])
  end.
Proof. unfold get_list_from_file. destruct (fs !! path); [apply list_loop_entry|done]. Qed.

Lemma get_bool_entry fs path name missing content :
  fs !! path = Some content →
  get_bool_from_file fs path name missing =
  eval_entry missing (head (from_name name (config_lines content))).
Proof.
  unfold get_bool_from_file. intros ->. rewrite bool_loop_entry. unfold config_lines.
  destruct (head _) as [s|]; simpl; [|done]. by destruct (eval_assigned s).
Qed.

(** The configuration is that of [.ns3rc] in the working directory, else
    of the one in the home directory, else the defaults; an empty or missing
    list of modules means all modules, and a missing flag means false. *)
Theorem read_config_file_spec home fs :
  read_config_file home fs =
  match (match fs !! ".ns3rc" with Some c => Some c | None => fs !! (home +:+ ".ns3rc") end) with
  | None => Ok (false, of_list ["all_modules"], of_bool false, of_bool false)
  | Some content =>
      let lines := config_lines content in
      modules ← eval_entry (of_list []) (list_entry "modules_enabled" lines);
      examples ← eval_entry (of_bool false) (head (from_name "examples_enabled" lines));
      tests ← eval_entry (of_bool false) (head (from_name "tests_enabled" lines));
      Ok (true, if truthy modules then modules else of_list ["all_modules"], examples, tests)
  end.
Proof.
  unfold read_config_file, get_list_from_file.
  destruct (fs !! ".ns3rc") as [c|] eqn:E1; simpl.
  - rewrite E1, list_loop_entry, !(get_bool_entry _ _ _ _ _ E1). done.
  - destruct (fs !! (home +:+ ".ns3rc")) as [c|] eqn:E2; simpl; [|done].
    rewrite list_loop_entry, !(get_bool_entry _ _ _ _ _ E2). done.
Qed.

(** A flag that is asked of a file that does not exist does not give the
    value for a missing flag: it raises UnboundLocalError.  Of a file that
    exists and does not name the flag it gives that value. *)
Theorem get_bool_from_file_missing fs path name missing :
  match fs !! path with
  | None => get_bool_from_file fs path name missing = Err UnboundLocalError
  | Some content =>
      Forall (λ l, contains l name = false) (config_lines content) →
      get_bool_from_file fs path name missing = Ok missing
  end.
Proof.
  destruct (fs !! path) as [content|] eqn:E.
  - intros Hl. rewrite (get_bool_entry _ _ _ _ _ E).
    assert (from_name name (config_lines content) = []) as ->; [|done].
    induction Hl as [|l ls Hl _ IH]; simpl; [done|]. by rewrite Hl.
  - unfold get_bool_from_file. by rewrite E.
Qed.
End ns3rc.

(** ** An instance
    The literals of the configuration files: [True], [False] and lists of
    strings in single quotes. *)
Inductive literal :=
| LList (l : list string)
| LBool (b : bool).

(** Every second piece between single quotes. *)
Fixpoint quoted (pieces : list string) : list string :=
  match pieces with
  | _ :: s :: pieces => s :: quoted pieces
  | _ => []
  end.
Definition eval_literal (s : string) : res literal :=
  if decide (s = "True") then Ok (LBool true)
  else if decide (s = "False") then Ok (LBool false)
  else if startswith s "[" then Ok (LList (quoted (split "'" s)))
  else Err (PyException "NameError").

#[export] Program Instance literal_eval : PyEval literal := {|
  of_list := LList;
  of_bool := LBool;
  truthy v := match v with LList l => negb (bool_decide (l = [])) | LBool b => b end;
  eval := eval_literal;
|}.
Next Obligation. done. Qed.

(** A list over three lines, with comments, and a flag that is commented out. *)
Definition sample_ns3rc : string :=
  cat ["# modules"; String newline "";
       "modules_enabled = ['core', # the core"; String newline "";
       "  'network',"; String newline "";
       "  'ndnSIM' ]   # and NDN"; String newline "";
       "examples_enabled = True"; String newline "";
       "# tests_enabled = True"; String newline ""].

Lemma read_sample :
  read_config_file "/home/u/" {[ "/home/u/.ns3rc" := sample_ns3rc ]} =
  Ok (true, LList ["core"; "network"; "ndnSIM"], LBool true, LBool false).
Proof. by vm_compute. Qed.

Lemma get_bool_from_file_missing_witness :
  get_bool_from_file {[ "rc" := sample_ns3rc ]} "rc" "tests_enabled" (LBool true) = Ok (LBool true) ∧
  get_bool_from_file (V := literal) ∅ "rc" "tests_enabled" (LBool true) = Err UnboundLocalError.
Proof.
  split.
  - pose proof (get_bool_from_file_missing {[ "rc" := sample_ns3rc ]} "rc" "tests_enabled"
      (LBool true)) as H.
    rewrite lookup_singleton_eq in H. apply H.
    apply (bool_decide_unpack _). by vm_compute.
  - pose proof (get_bool_from_file_missing ∅ "rc" "tests_enabled" (LBool true)) as H.
    by rewrite lookup_empty in H.
Defined.
