(* ===== verification/GridData.v ===== *)
(** * Data of the grid viewer (src/utils/grid.py, classes DataRange to Colors)
    Ranges and events with their binary searches, the timelines that find or
    create their members by name, the colors that names are given, and
    [read_data], which parses a trace file.  An object that a list holds is
    referred to by its position in that list: it is held nowhere else. *)
From Stdlib Require Import Ascii.
From Equations Require Import Equations.
From S2P Require Import Prelude PyStr PyRe PyNum.
#[local] Open Scope Z_scope.
Set Equations Transparent.

(** ** class DataRange, EventString, EventInt
    (EventFloat is never instantiated.) *)
Record DataRange := { r_start : Z; r_end : Z; r_value : string }.
#[export] Instance DataRange_eq_dec : EqDecision DataRange.
Proof. solve_decision. Defined.

Inductive Event :=
| EventString (at_ : Z) (value : string)
| EventInt (at_ : Z) (value : Z).
#[export] Instance Event_eq_dec : EqDecision Event.
Proof. solve_decision. Defined.
Definition ev_at (e : Event) : Z :=
  match e with EventString a _ | EventInt a _ => a end.

Definition ranges_cmp (a b : DataRange) : Z :=
  let diff := r_start a - r_start b in
  if diff <? 0 then -1 else if diff >? 0 then 1 else 0.
Definition events_cmp (a b : Event) : Z :=
  let diff := ev_at a - ev_at b in
  if diff <? 0 then -1 else if diff >? 0 then 1 else 0.

(** ** [l.sort(cmp)]: the stable sort by a comparison function *)
Section py_sort.
Context {A : Type} (cmp : A → A → Z).
Fixpoint insert_by (x : A) (l : list A) : list A :=
  match l with
  | [] => [x]
  | y :: l' => if cmp x y <=? 0 then x :: l else y :: insert_by x l'
  end.
Definition py_sort (l : list A) : list A := foldr insert_by [] l.
End py_sort.

(** ** class TimelineDataRange *)
Record TimelineDataRange := { dr_name : string; ranges : list DataRange }.

(** The loop of [__search]. *)
Equations? range_search_loop (rs : list DataRange) (key : num) (l u : Z) : res Z
  by wf (Z.to_nat (u + 1 - l)) lt :=
range_search_loop rs key l u with decide (l ≤ u) => {
  | right _ => Ok (-1)
  | left _ =>
      let i := (l + u) / 2 in
      match py_index rs i with
      | Err e => Err e
      | Ok r =>
          if nge key (PInt (r_start r)) && nle key (PInt (r_end r)) then Ok i
          else if nlt key (PInt (r_start r)) then range_search_loop rs key l (i - 1)
          else range_search_loop rs key (i + 1) u
      end }.
Proof. all: pose proof (Z.div_mod (l + u) 2); pose proof (Z.mod_pos_bound (l + u) 2); lia. Qed.

Definition range_search (self : TimelineDataRange) (key : num) : res Z :=
  range_search_loop (ranges self) key 0 (Z.of_nat (length (ranges self)) - 1).
Definition add_range (r : DataRange) (self : TimelineDataRange) : TimelineDataRange :=
  {| dr_name := dr_name self; ranges := ranges self ++ [r] |}.
Definition get_ranges (self : TimelineDataRange) (start end_ : num) : res (list DataRange) :=
  s ← range_search self start;
  e ← range_search self end_;
  mret (if (s =? -1) && (e =? -1) then []
        else if s =? -1 then slice (ranges self) 0 (e + 1)
        else if e =? -1 then slice (ranges self) s (Z.of_nat (length (ranges self)))
        else slice (ranges self) s (e + 1)).
Definition get_ranges_bounds (self : TimelineDataRange) (start end_ : num) : res (Z * Z) :=
  s ← range_search self start;
  e ← range_search self end_;
  mret (if (s =? -1) && (e =? -1) then (0, 0)
        else if s =? -1 then (0, e + 1)
        else if e =? -1 then (s, Z.of_nat (length (ranges self)))
        else (s, e + 1)).
Definition ranges_sort (self : TimelineDataRange) : TimelineDataRange :=
  {| dr_name := dr_name self; ranges := py_sort ranges_cmp (ranges self) |}.
Definition ranges_get_bounds (self : TimelineDataRange) : Z * Z :=
  match ranges self, last (ranges self) with
  | r0 :: _, Some r1 => (r_start r0, r_end r1)
  | _, _ => (0, 0)
  end.

(** ** class TimelineEvent *)
Record TimelineEvent := { te_name : string; events : list Event }.

(** The loop of [__search]: it returns [l], the insertion point, if no event
    is at the key. *)
Equations? event_search_loop (es : list Event) (key : num) (l u : Z) : res Z
  by wf (Z.to_nat (u + 1 - l)) lt :=
event_search_loop es key l u with decide (l ≤ u) => {
  | right _ => Ok l
  | left _ =>
      let i := (l + u) / 2 in
      match py_index es i with
      | Err e => Err e
      | Ok ev =>
          if neqb key (PInt (ev_at ev)) then Ok i
          else if nlt key (PInt (ev_at ev)) then event_search_loop es key l (i - 1)
          else event_search_loop es key (i + 1) u
      end }.
Proof. all: pose proof (Z.div_mod (l + u) 2); pose proof (Z.mod_pos_bound (l + u) 2); lia. Qed.

Definition event_search (self : TimelineEvent) (key : num) : res Z :=
  event_search_loop (events self) key 0 (Z.of_nat (length (events self)) - 1).
Definition add_event (e : Event) (self : TimelineEvent) : TimelineEvent :=
  {| te_name := te_name self; events := events self ++ [e] |}.
Definition get_events (self : TimelineEvent) (start end_ : num) : res (list Event) :=
  s ← event_search self start;
  e ← event_search self end_;
  mret (slice (events self) s (e + 1)).
Definition get_events_bounds (self : TimelineEvent) (start end_ : num) : res (Z * Z) :=
  s ← event_search self start;
  e ← event_search self end_;
  mret (s, e + 1).
Definition events_sort (self : TimelineEvent) : TimelineEvent :=
  {| te_name := te_name self; events := py_sort events_cmp (events self) |}.
Definition events_get_bounds (self : TimelineEvent) : Z * Z :=
  match events self, last (events self) with
  | e0 :: _, Some e1 => (ev_at e0, ev_at e1)
  | _, _ => (0, 0)
  end.

(** ** Finding a member of a list by its name, or appending a new one *)
Section find_or_create.
Context {A : Type} (name_of : A → string) (new : string → A).
Fixpoint find_name (name : string) (l : list A) : option nat :=
  match l with
  | [] => None
  | x :: l => if decide (name_of x = name) then Some 0%nat else S <$> find_name name l
  end.
(** The list after the call, and the position of the member returned. *)
Definition find_or_create (name : string) (l : list A) : list A * nat :=
  match find_name name l with
  | Some i => (l, i)
  | None => (l ++ [new name], length l)
  end.
End find_or_create.

Definition new_data_range (name : string) : TimelineDataRange :=
  {| dr_name := name; ranges := [] |}.
Definition new_event (name : string) : TimelineEvent := {| te_name := name; events := [] |}.

(** The loop of the three [get_bounds]: [lo] and [hi] start from 0. *)
Definition widen (b : Z * Z) (x : Z * Z) : Z * Z :=
  let '(lo, hi) := b in
  let '(x_lo, x_hi) := x in
  ((if x_lo <? lo then x_lo else lo), (if x_hi >? hi then x_hi else hi)).

(** ** class Timeline *)
Record Timeline := {
  t_name : string;
  t_ranges : list TimelineDataRange;
  event_str : list TimelineEvent;
  event_int : list TimelineEvent;
}.
Definition new_timeline (name : string) : Timeline :=
  {| t_name := name; t_ranges := []; event_str := []; event_int := [] |}.
Definition get_range (name : string) (self : Timeline) : Timeline * nat :=
  let '(l, i) := find_or_create dr_name new_data_range name (t_ranges self) in
  ({| t_name := t_name self; t_ranges := l; event_str := event_str self;
      event_int := event_int self |}, i).
Definition get_event_str (name : string) (self : Timeline) : Timeline * nat :=
  let '(l, i) := find_or_create te_name new_event name (event_str self) in
  ({| t_name := t_name self; t_ranges := t_ranges self; event_str := l;
      event_int := event_int self |}, i).
Definition get_event_int (name : string) (self : Timeline) : Timeline * nat :=
  let '(l, i) := find_or_create te_name new_event name (event_int self) in
  ({| t_name := t_name self; t_ranges := t_ranges self; event_str := event_str self;
      event_int := l |}, i).
Definition timeline_sort (self : Timeline) : Timeline :=
  {| t_name := t_name self; t_ranges := ranges_sort <$> t_ranges self;
     event_str := events_sort <$> event_str self;
     event_int := events_sort <$> event_int self |}.
Definition timeline_get_bounds (self : Timeline) : Z * Z :=
  let b := foldl (λ b r, widen b (ranges_get_bounds r)) (0, 0) (t_ranges self) in
  let b := foldl (λ b e, widen b (events_get_bounds e)) b (event_str self) in
  foldl (λ b e, widen b (events_get_bounds e)) b (event_int self).

(** Changes through the references that the three methods return. *)
Definition upd_range (f : TimelineDataRange → TimelineDataRange) (i : nat) (self : Timeline)
    : Timeline :=
  {| t_name := t_name self; t_ranges := alter f i (t_ranges self);
     event_str := event_str self; event_int := event_int self |}.
Definition upd_event_str (f : TimelineEvent → TimelineEvent) (i : nat) (self : Timeline)
    : Timeline :=
  {| t_name := t_name self; t_ranges := t_ranges self;
     event_str := alter f i (event_str self); event_int := event_int self |}.
Definition upd_event_int (f : TimelineEvent → TimelineEvent) (i : nat) (self : Timeline)
    : Timeline :=
  {| t_name := t_name self; t_ranges := t_ranges self; event_str := event_str self;
     event_int := alter f i (event_int self) |}.

(** ** class Timelines *)
Abbreviation Timelines := (list Timeline).
Definition timelines_get (name : string) (self : Timelines) : Timelines * nat :=
  find_or_create t_name new_timeline name self.
Definition timelines_sort (self : Timelines) : Timelines := timeline_sort <$> self.
Definition timelines_get_bounds (self : Timelines) : Z * Z :=
  foldl (λ b t, widen b (timeline_get_bounds t)) (0, 0) self.
(** The keys of the dict [range_values], in the dict's order. *)
Definition get_all_range_values `{DictOrder string} (self : Timelines) : list string :=
  dict_keys
    (foldl (λ m t,
       foldl (λ m rs, foldl (λ m ran, <[r_value ran := tt]> m) m (ranges rs)) m (t_ranges t))
       (∅ : gmap string unit) self).

(** ** class Color *)
Record Color := { c_r : num; c_g : num; c_b : num }.
#[export] Instance Color_eq_dec : EqDecision Color.
Proof. solve_decision. Defined.
Definition rgb (r g b : Z) : Color := {| c_r := PInt r; c_g := PInt g; c_b := PInt b |}.
Definition color_set (r g b : num) (self : Color) : Color :=
  {| c_r := r; c_g := g; c_b := b |}.

(** ** class Colors
    [default_colors] is an attribute of the class: every call of [lookup]
    pops from the one list. *)
Record Colors := { colors_map : gmap string Color; default_colors : list Color }.
Definition class_default_colors : list Color :=
  [rgb 1 0 0; rgb 0 1 0; rgb 0 0 1; rgb 1 1 0; rgb 1 0 1; rgb 0 1 1].
Definition new_colors (defaults : list Color) : Colors :=
  {| colors_map := ∅; default_colors := defaults |}.
Definition colors_add (name : string) (color : Color) (self : Colors) : Colors :=
  {| colors_map := <[name := color]> (colors_map self); default_colors := default_colors self |}.
Definition pop_default : eff Colors exn Color := λ self,
  match last (default_colors self) with
  | Some c =>
      ({| colors_map := colors_map self;
          default_colors := take (length (default_colors self) - 1) (default_colors self) |}, Ok c)
  | None => (self, Err IndexError)
  end.
(** [dict.get] answers None for a missing key. *)
Definition colors_get (name : string) : eff Colors exn (option Color) := λ self,
  (self, Ok (colors_map self !! name)).
Definition add_eff (name : string) (c : Color) : eff Colors exn unit := λ self,
  (colors_add name c self, Ok ()).
Definition lookup_color (name : string) : eff Colors exn (option Color) := λ self,
  (_ ← (if decide (colors_map self !! name = None) then c ← pop_default; add_eff name c
        else mret ());
   colors_get name) self.

(** The loop of [main] that looks up the color of every range value. *)
Fixpoint lookup_all (names : list string) : eff Colors exn (list (option Color)) :=
  match names with
  | [] => mret []
  | name :: names => c ← lookup_color name; cs ← lookup_all names; mret (c :: cs)
  end.

(** ** read_data *)
(** [([^ ]+)], greedy; what follows it in the patterns is a space. *)
Definition not_space (a : ascii) : bool := negb (bool_decide (a = " "%char)).
Definition word1 (l : list ascii) : option (list ascii * list ascii) :=
  match span not_space l with
  | ([], _) => None
  | r => Some r
  end.
Definition hex_val (a : ascii) : option Z :=
  let n := Z.of_nat (nat_of_ascii a) in
  if (48 <=? n) && (n <=? 57) then Some (n - 48)
  else if (97 <=? n) && (n <=? 102) then Some (n - 87)
  else if (65 <=? n) && (n <=? 70) then Some (n - 55)
  else None.
(** [([a-fA-F0-9]{2,2})] and [int(s, 16)] of the group. *)
Definition hex2 (l : list ascii) : option (Z * list ascii) :=
  match l with
  | a :: b :: l => x ← hex_val a; y ← hex_val b; Some (16 * x + y, l)
  | _ => None
  end.

Definition m1 (line : list ascii) : option (string * string * string * Z * Z) :=
  l ← drop_prefix (chars "range ") line;
  '(g1, l) ← word1 l; l ← drop_prefix [" "%char] l;
  '(g2, l) ← word1 l; l ← drop_prefix [" "%char] l;
  '(g3, l) ← word1 l; l ← drop_prefix [" "%char] l;
  '(g4, l) ← digits1 l; l ← drop_prefix [" "%char] l;
  '(g5, l) ← digits1 l;
  Some (of_chars g1, of_chars g2, of_chars g3, int_of_digits (of_chars g4),
        int_of_digits (of_chars g5)).
Definition m2 (line : list ascii) : option (string * string * string * Z) :=
  l ← drop_prefix (chars "event-str ") line;
  '(g1, l) ← word1 l; l ← drop_prefix [" "%char] l;
  '(g2, l) ← word1 l; l ← drop_prefix [" "%char] l;
  '(g3, l) ← word1 l; l ← drop_prefix [" "%char] l;
  '(g4, l) ← digits1 l;
  Some (of_chars g1, of_chars g2, of_chars g3, int_of_digits (of_chars g4)).
Definition m3 (line : list ascii) : option (string * string * Z * Z) :=
  l ← drop_prefix (chars "event-int ") line;
  '(g1, l) ← word1 l; l ← drop_prefix [" "%char] l;
  '(g2, l) ← word1 l; l ← drop_prefix [" "%char] l;
  '(g3, l) ← digits1 l; l ← drop_prefix [" "%char] l;
  '(g4, l) ← digits1 l;
  Some (of_chars g1, of_chars g2, int_of_digits (of_chars g3), int_of_digits (of_chars g4)).
Definition m4 (line : list ascii) : option (string * Z * Z * Z) :=
  l ← drop_prefix (chars "color ") line;
  '(g1, l) ← word1 l; l ← drop_prefix (chars " #") l;
  '(r, l) ← hex2 l; '(g, l) ← hex2 l; '(b, l) ← hex2 l;
  Some (of_chars g1, r, g, b).

Abbreviation rstate := (Colors * Timelines)%type.
Definition read_line (st : rstate) (line : string) : rstate :=
  let '(colors, timelines) := st in
  match m1 (chars line) with
  | Some (g1, g2, g3, g4, g5) =>
      let '(timelines, i) := timelines_get g1 timelines in
      (colors, alter (λ timeline,
         let '(timeline, j) := get_range g2 timeline in
         upd_range (add_range {| r_start := g4; r_end := g5; r_value := g3 |}) j timeline)
         i timelines)
  | None =>
  match m2 (chars line) with
  | Some (g1, g2, g3, g4) =>
      let '(timelines, i) := timelines_get g1 timelines in
      (colors, alter (λ timeline,
         let '(timeline, j) := get_event_str g2 timeline in
         upd_event_str (add_event (EventString g4 g3)) j timeline) i timelines)
  | None =>
  match m3 (chars line) with
  | Some (g1, g2, g3, g4) =>
      let '(timelines, i) := timelines_get g1 timelines in
      (colors, alter (λ timeline,
         let '(timeline, j) := get_event_int g2 timeline in
         upd_event_int (add_event (EventInt g4 g3)) j timeline) i timelines)
  | None =>
  match m4 (chars line) with
  | Some (g1, r, g, b) =>
      (colors_add g1 (rgb (r / 255) (g / 255) (b / 255)) colors, timelines)
  | None => st
  end end end end.

(** The lines of a file, which Python 2 opens without newline conversion. *)
Definition read_data (content : string) : rstate :=
  let '(colors, timelines) :=
    foldl read_line (new_colors class_default_colors, []) (of_chars <$> keep_lines (chars content)) in
  (colors, timelines_sort timelines).

Example range_search_ex :
  let rs := {| dr_name := ""; ranges :=
    [{| r_start := 0; r_end := 3; r_value := "a" |}; {| r_start := 5; r_end := 7; r_value := "b" |};
     {| r_start := 8; r_end := 9; r_value := "c" |}] |} in
  (range_search rs (PInt 8), range_search rs (PInt 4), range_search rs (PInt 2)) = (Ok 2, Ok (-1), Ok 0).
Proof. vm_compute. reflexivity. Qed.

(** ** The binary search of ranges *)
Definition range_contains (key : num) (r : DataRange) : bool :=
  nge key (PInt (r_start r)) && nle key (PInt (r_end r)).
(** Ranges in order that do not overlap. *)
Definition ranges_ok (rs : list DataRange) : Prop :=
  ∀ i r, rs !! i = Some r → r_start r ≤ r_end r ∧
    ∀ j r', (i < j)%nat → rs !! j = Some r' → r_end r < r_start r'.

Lemma py_index_Z {A} (l : list A) (i : Z) :
  0 ≤ i → i < Z.of_nat (length l) → ∃ x, l !! Z.to_nat i = Some x ∧ py_index l i = Ok x.
Proof.
  intros. destruct (lookup_lt_is_Some_2 l (Z.to_nat i)) as [x Hx]; [lia|].
  exists x. split; [done|]. rewrite <-(Z2Nat.id i) by done. by rewrite py_index_nat, Hx.
Qed.

Lemma mid_bounds l u : l ≤ u → l ≤ (l + u) / 2 ≤ u.
Proof. intros. pose proof (Z.div_mod (l + u) 2). pose proof (Z.mod_pos_bound (l + u) 2). lia. Qed.

(** A key on the left of a range is not in the ranges after it, and a key on
    its right is not in the ranges before it. *)
Lemma ranges_ok_left rs i r j r' key :
  ranges_ok rs → rs !! i = Some r → rs !! j = Some r' → nlt key (PInt (r_start r)) = true →
  (i ≤ j)%nat → range_contains key r' = false.
Proof.
  intros Hok Hi Hj Hlt Hij. apply andb_false_iff. left. apply not_true_iff_false.
  rewrite nge_le. intros Hle. pose proof (nle_lt_trans _ _ _ Hle Hlt) as H.
  autorewrite with py in H. apply Z.ltb_lt in H.
  assert (i = j ∨ (i < j)%nat) as [<- | Hlt'] by lia; [simplify_eq; lia|].
  pose proof (Hok i r Hi) as [? Hr]. specialize (Hr j r' Hlt' Hj). lia.
Qed.
Lemma ranges_ok_right rs i r j r' key :
  ranges_ok rs → rs !! i = Some r → rs !! j = Some r' → nlt key (PInt (r_start r)) = false →
  range_contains key r = false → (j ≤ i)%nat → range_contains key r' = false.
Proof.
  intros Hok Hi Hj Hnlt Hnc Hij. apply not_true_iff_false. intros Hc.
  apply andb_true_iff in Hc as [Hc1 Hc2]. rewrite nge_le in Hc1.
  destruct (nle_not_nan _ _ Hc2) as [Hn _].
  assert (i = j ∨ (j < i)%nat) as [-> | Hlt] by lia.
  { simplify_eq. unfold range_contains in Hnc. by rewrite nge_le, Hc1, Hc2 in Hnc. }
  assert (nlt key (PInt (r_start r)) = true) as H; [|congruence].
  eapply nle_lt_trans; [exact Hc2|]. autorewrite with py. apply Z.ltb_lt.
  pose proof (Hok j r' Hj) as [? Hr]. by apply (Hr i).
Qed.

Lemma range_search_loop_spec rs key l u :
  ranges_ok rs → 0 ≤ l → u < Z.of_nat (length rs) →
  (∀ j r, rs !! j = Some r → Z.of_nat j < l ∨ u < Z.of_nat j → range_contains key r = false) →
  ∃ i, range_search_loop rs key l u = Ok i ∧
    (i = -1 ∧ (∀ r, r ∈ rs → range_contains key r = false) ∨
     0 ≤ i ∧ ∃ r, rs !! Z.to_nat i = Some r ∧ range_contains key r = true).
Proof.
  intros Hok. remember (Z.to_nat (u + 1 - l)) as n eqn:Hn. revert l u Hn.
  induction (lt_wf n) as [n _ IH]; intros l u -> Hl Hu Hout.
  rewrite range_search_loop_equation_1. destruct (decide (l ≤ u)) as [Hlu|Hlu]; simpl.
  2:{ exists (-1). split; [done|]. left. split; [done|]. intros r [j Hj]%list_elem_of_lookup_1.
      apply (Hout j r Hj). lia. }
  pose proof (mid_bounds l u Hlu) as Hm. set (i := (l + u) / 2) in *.
  destruct (py_index_Z rs i) as (r & Hr & ->); [lia..|].
  fold (range_contains key r). destruct (range_contains key r) eqn:Hc.
  { exists i. split; [done|]. right. split; [lia|]. eauto. }
  destruct (nlt key (PInt (r_start r))) eqn:Hlt.
  - apply (IH (Z.to_nat (i - 1 + 1 - l))); [lia|done..|lia|]. intros j r' Hj [Hj'|Hj'].
    + apply (Hout j r' Hj). lia.
    + eapply (ranges_ok_left rs (Z.to_nat i) r j r'); eauto. lia.
  - apply (IH (Z.to_nat (u + 1 - (i + 1)))); [lia|done|lia|done|]. intros j r' Hj [Hj'|Hj'].
    + eapply (ranges_ok_right rs (Z.to_nat i) r j r'); eauto. lia.
    + apply (Hout j r' Hj). lia.
Qed.

Lemma range_search_spec self key :
  ranges_ok (ranges self) →
  ∃ i, range_search self key = Ok i ∧
    (i = -1 ∧ (∀ r, r ∈ ranges self → range_contains key r = false) ∨
     0 ≤ i ∧ ∃ r, ranges self !! Z.to_nat i = Some r ∧ range_contains key r = true).
Proof.
  intros Hok. apply range_search_loop_spec; [done|lia..|].
  intros j r Hj%lookup_lt_Some. lia.
Qed.

(** Whatever the ranges, the search ends, and a position it answers is right. *)
Lemma range_search_loop_sound rs key l u :
  0 ≤ l → u < Z.of_nat (length rs) →
  ∃ i, range_search_loop rs key l u = Ok i ∧
    (i = -1 ∨ 0 ≤ i ∧ ∃ r, rs !! Z.to_nat i = Some r ∧ range_contains key r = true).
Proof.
  remember (Z.to_nat (u + 1 - l)) as n eqn:Hn. revert l u Hn.
  induction (lt_wf n) as [n _ IH]; intros l u -> Hl Hu.
  rewrite range_search_loop_equation_1. destruct (decide (l ≤ u)) as [Hlu|Hlu]; simpl; [|eauto].
  pose proof (mid_bounds l u Hlu) as Hm. set (i := (l + u) / 2) in *.
  destruct (py_index_Z rs i) as (r & Hr & ->); [lia..|].
  fold (range_contains key r). destruct (range_contains key r) eqn:Hc.
  { exists i. split; [done|]. right. split; [lia|]. eauto. }
  destruct (nlt key (PInt (r_start r))).
  - apply (IH (Z.to_nat (i - 1 + 1 - l))); lia.
  - apply (IH (Z.to_nat (u + 1 - (i + 1)))); lia.
Qed.

(** C10: [TimelineDataRange.__search] ends and never indexes out of range,
    whatever the ranges; it answers -1, or the position of a range that contains
    the key.  On ranges that are in order and do not overlap it answers a
    position exactly when there is such a range ([overlapping_ranges] shows that
    this needs the condition, which nothing in the program establishes). *)
Theorem range_search_correct self key :
  ∃ i, range_search self key = Ok i ∧
    (i = -1 ∨ 0 ≤ i ∧ ∃ r, ranges self !! Z.to_nat i = Some r ∧ range_contains key r = true) ∧
    (ranges_ok (ranges self) → (0 ≤ i ↔ ∃ r, r ∈ ranges self ∧ range_contains key r = true)).
Proof.
  destruct (range_search_loop_sound (ranges self) key 0 (Z.of_nat (length (ranges self)) - 1))
    as (i & Hi & Hs); [lia..|]. exists i. split_and!; [done..|].
  intros Hok. destruct (range_search_spec self key Hok) as (i' & Hi' & Hr).
  assert (i' = i) as -> by (unfold range_search in Hi'; congruence).
  destruct Hr as [[-> Hno]|(Hpos & r & Hr & Hc)].
  - split; [lia|]. intros (r & Hr & Hc). rewrite Hno in Hc; done.
  - split; [|done]. intros _. exists r. split; [by eapply list_elem_of_lookup_2|done].
Qed.
Example overlapping_ranges :
  let range s e := {| r_start := s; r_end := e; r_value := "" |} in
  range_search {| dr_name := ""; ranges := [range 0 100; range 10 20; range 30 40] |} (PInt 50) = Ok (-1).
Proof. vm_compute. reflexivity. Qed.

(** ** The window of ranges that is drawn *)
(** Elements chosen by their positions form a slice. *)
Lemma filter_positions {A} (P : A → Prop) `{!∀ x, Decision (P x)} (l : list A) (s e : nat) :
  (s ≤ e)%nat → (∀ j x, l !! j = Some x → P x ↔ (s ≤ j < e)%nat) →
  filter P l = drop s (take e l).
Proof.
  intros Hse HP.
  rewrite <-(take_drop s l) at 1. rewrite <-(take_drop (e - s) (drop s l)).
  rewrite !filter_app, (filter_none P (take s l)), (filter_all P), (filter_none P (drop _ _)).
  - rewrite app_nil_r. simpl. rewrite take_drop_commute.
    by replace (s + (e - s))%nat with e by lia.
  - apply Forall_lookup. intros j x. rewrite !lookup_drop.
    intros Hx HPx%(HP _ _ Hx). lia.
  - apply Forall_lookup. intros j x [Hx Hj]%lookup_take_Some.
    rewrite lookup_drop in Hx. apply (HP _ _ Hx). lia.
  - apply Forall_lookup. intros j x [Hx Hj]%lookup_take_Some HPx%(HP _ _ Hx). lia.
Qed.

Lemma slice_Z {A} (l : list A) (s e : Z) :
  0 ≤ s → 0 ≤ e → slice l s e = drop (Z.to_nat s) (take (Z.to_nat e) l).
Proof.
  intros. unfold slice, slice_index. rewrite !decide_False by lia.
  assert (take (Z.to_nat e `min` length l) l = take (Z.to_nat e) l) as ->.
  { destruct (decide (Z.to_nat e ≤ length l)%nat); [by rewrite Nat.min_l|].
    by rewrite Nat.min_r, !take_ge by lia. }
  destruct (decide (Z.to_nat s ≤ length l)%nat); [by rewrite Nat.min_l by lia|].
  rewrite Nat.min_r by lia. rewrite !drop_ge; rewrite ?length_take; [done|lia..].
Qed.

(** The range shares a time with [start, end]. *)
Definition visible (start end_ : num) (r : DataRange) : Prop :=
  nle start (PInt (r_end r)) = true ∧ nle (PInt (r_start r)) end_ = true.
#[export] Instance visible_dec start end_ r : Decision (visible start end_ r).
Proof. unfold visible. apply _. Defined.

Lemma contains_spec key r : range_contains key r = true ↔
  nle (PInt (r_start r)) key = true ∧ nle key (PInt (r_end r)) = true.
Proof. unfold range_contains. by rewrite nge_le, andb_true_iff. Qed.

Lemma nlt_nle_false a b : nlt a b = true → nle b a = true → False.
Proof. intros H1 H2. pose proof (nlt_le_trans _ _ _ H1 H2) as H. by rewrite nlt_irrefl in H. Qed.

Lemma visible_positions rs start end_ s e rs_s rs_e :
  ranges_ok rs → nle start end_ = true →
  rs !! s = Some rs_s → range_contains start rs_s = true →
  rs !! e = Some rs_e → range_contains end_ rs_e = true →
  (s ≤ e)%nat ∧ ∀ j x, rs !! j = Some x → visible start end_ x ↔ (s ≤ j < S e)%nat.
Proof.
  intros Hok Hle Hs [Hs1 Hs2]%contains_spec He [He1 He2]%contains_spec.
  assert (∀ i r j r', rs !! i = Some r → rs !! j = Some r' → (i < j)%nat →
    nlt (PInt (r_end r)) (PInt (r_start r')) = true) as Hlt.
  { intros i r j r' Hi Hj Hij. autorewrite with py. apply Z.ltb_lt. by eapply (Hok i r Hi). }
  assert (∀ i r, rs !! i = Some r → nle (PInt (r_start r)) (PInt (r_end r)) = true) as Hse.
  { intros i r Hi. autorewrite with py. apply Z.leb_le. by eapply (Hok i r Hi). }
  split.
  - destruct (decide (s ≤ e)%nat) as [|Hn]; [done|exfalso].
    apply (nlt_nle_false (PInt (r_end rs_e)) (PInt (r_start rs_s))); [eapply Hlt; eauto; lia|].
    eapply nle_trans; [exact Hs1|]. by apply (nle_trans _ end_).
  - intros j x Hj. unfold visible. split.
    + intros [Hv1 Hv2]. split.
      * destruct (decide (s ≤ j)%nat) as [|Hn]; [done|exfalso].
        apply (nlt_nle_false (PInt (r_end x)) (PInt (r_start rs_s))); [eapply Hlt; eauto; lia|].
        by apply (nle_trans _ start).
      * destruct (decide (j < S e)%nat) as [|Hn]; [done|exfalso].
        apply (nlt_nle_false (PInt (r_end rs_e)) (PInt (r_start x))); [eapply Hlt; eauto; lia|].
        by apply (nle_trans _ end_).
    + intros [Hj1 Hj2]. split.
      * assert (s = j ∨ (s < j)%nat) as [->|Hj'] by lia; [by simplify_eq|].
        eapply nle_trans; [exact Hs2|]. eapply nle_trans; [|by apply (Hse j)].
        apply nlt_le. eapply Hlt; eauto.
      * assert (j = e ∨ (j < e)%nat) as [->|Hj'] by lia; [by simplify_eq|].
        eapply nle_trans; [by apply (Hse j)|]. eapply nle_trans; [|exact He1].
        apply nlt_le. eapply Hlt; eauto.
Qed.

(** When both ends of the window fall inside ranges, [get_ranges] answers
    exactly the ranges that share a time with the window, and
    [get_ranges_bounds] their positions; when both ends fall between ranges it
    answers none, whatever lies between them. *)
Theorem get_ranges_window self start end_ :
  ranges_ok (ranges self) → nle start end_ = true →
  ((∃ r, r ∈ ranges self ∧ range_contains start r = true) →
   (∃ r, r ∈ ranges self ∧ range_contains end_ r = true) →
   get_ranges self start end_ = Ok (filter (visible start end_) (ranges self)) ∧
   ∃ lo hi, get_ranges_bounds self start end_ = Ok (lo, hi) ∧
     slice (ranges self) lo hi = filter (visible start end_) (ranges self)) ∧
  ((∀ r, r ∈ ranges self → range_contains start r = false) →
   (∀ r, r ∈ ranges self → range_contains end_ r = false) →
   get_ranges self start end_ = Ok [] ∧ get_ranges_bounds self start end_ = Ok (0, 0)).
Proof.
  intros Hok Hle. unfold get_ranges, get_ranges_bounds.
  destruct (range_search_spec self start Hok) as (s & -> & Hs).
  destruct (range_search_spec self end_ Hok) as (e & -> & He). simpl. split.
  - intros (r1 & Hr1 & Hc1) (r2 & Hr2 & Hc2).
    destruct Hs as [[_ Hs]|(Hs & rs_s & Hrs & Hcs)]; [by rewrite Hs in Hc1|].
    destruct He as [[_ He]|(He & rs_e & Hre & Hce)]; [by rewrite He in Hc2|].
    destruct (visible_positions _ start end_ _ _ _ _ Hok Hle Hrs Hcs Hre Hce) as [? Hpos].
    pose proof (lookup_lt_Some _ _ _ Hre).
    assert (slice (ranges self) s (e + 1) = filter (visible start end_) (ranges self)) as Heq.
    { rewrite slice_Z by lia. replace (Z.to_nat (e + 1)) with (S (Z.to_nat e)) by lia.
      symmetry. apply filter_positions; [lia|done]. }
    rewrite (proj2 (Z.eqb_neq s (-1))), (proj2 (Z.eqb_neq e (-1))) by lia. simpl.
    rewrite Heq. split; [done|]. by exists s, (e + 1).
  - intros Hn1 Hn2.
    destruct Hs as [[-> _]|(_ & r & Hr%list_elem_of_lookup_2 & Hc)]; [|by rewrite Hn1 in Hc].
    by destruct He as [[-> _]|(_ & r & Hr%list_elem_of_lookup_2 & Hc)]; [|rewrite Hn2 in Hc].
Qed.

(** ** The binary search of events *)
Definition events_ok (es : list Event) : Prop :=
  ∀ i j e e', (i < j)%nat → es !! i = Some e → es !! j = Some e' → ev_at e < ev_at e'.

Lemma neqb_le a b : neqb a b = true ↔ nle a b = true ∧ nle b a = true.
Proof.
  rewrite <-(nge_le a b). unfold neqb, nle, nge. destruct (num_cmp a b) as [[]|]; naive_solver.
Qed.
Lemma num_total a b :
  is_nan a = false → is_nan b = false → neqb a b = false → nlt a b = false → nlt b a = true.
Proof.
  rewrite <-(ngt_lt a b). unfold neqb, nlt, ngt. intros Ha Hb.
  destruct (num_cmp a b) as [[]|] eqn:E; try done.
  apply num_cmp_nan in E. destruct E; congruence.
Qed.

Definition before (key : num) (e : Event) : Prop := nlt (PInt (ev_at e)) key = true.
Definition after (key : num) (e : Event) : Prop := nlt key (PInt (ev_at e)) = true.
#[export] Instance before_dec key e : Decision (before key e).
Proof. unfold before. apply _. Defined.
#[export] Instance after_dec key e : Decision (after key e).
Proof. unfold after. apply _. Defined.

Lemma event_search_loop_spec es key l u :
  events_ok es → is_nan key = false → 0 ≤ l ≤ u + 1 → u < Z.of_nat (length es) →
  (∀ j e, es !! j = Some e → Z.of_nat j < l → before key e) →
  (∀ j e, es !! j = Some e → u < Z.of_nat j → after key e) →
  ∃ i, event_search_loop es key l u = Ok i ∧ 0 ≤ i ≤ Z.of_nat (length es) ∧
    (∀ j e, es !! j = Some e → Z.of_nat j < i → before key e) ∧
    (∀ j e, es !! j = Some e → i < Z.of_nat j → after key e) ∧
    (∀ e, es !! Z.to_nat i = Some e → neqb key (PInt (ev_at e)) = true ∨ after key e).
Proof.
  intros Hok Hnan. remember (Z.to_nat (u + 1 - l)) as n eqn:Hn. revert l u Hn.
  induction (lt_wf n) as [n _ IH]; intros l u -> Hl Hu Hbef Haft.
  assert (∀ a b, ev_at a < ev_at b → nlt (PInt (ev_at a)) (PInt (ev_at b)) = true) as Hlt.
  { intros. autorewrite with py. by apply Z.ltb_lt. }
  rewrite event_search_loop_equation_1. destruct (decide (l ≤ u)) as [Hlu|Hlu]; simpl.
  2:{ exists l. split; [done|]. split; [lia|]. split; [done|]. split.
      - intros j e Hj ?. apply (Haft j e Hj). lia.
      - intros e He. right. apply (Haft _ e He). lia. }
  pose proof (mid_bounds l u Hlu) as Hm. set (i := (l + u) / 2) in *.
  destruct (py_index_Z es i) as (m & Hr & ->); [lia..|].
  assert (∀ j e, es !! j = Some e → i < Z.of_nat j → ev_at m < ev_at e) as Hgt.
  { intros j e Hj Hij. by apply (Hok (Z.to_nat i) j); [lia|..]. }
  assert (∀ j e, es !! j = Some e → Z.of_nat j < i → ev_at e < ev_at m) as Hlo.
  { intros j e Hj Hij. by apply (Hok j (Z.to_nat i)); [lia|..]. }
  destruct (neqb key (PInt (ev_at m))) eqn:Heq.
  { pose proof Heq as [Hk1 Hk2]%neqb_le. exists i. split; [done|]. split; [lia|].
    split; [|split].
    - intros j e Hj Hij. eapply nlt_le_trans; [apply Hlt; by eapply Hlo|done].
    - intros j e Hj Hij. eapply nle_lt_trans; [exact Hk1|apply Hlt; by eapply Hgt].
    - intros e He. left. by simplify_eq. }
  destruct (nlt key (PInt (ev_at m))) eqn:Hkm.
  - apply (IH (Z.to_nat (i - 1 + 1 - l))); [lia|done|lia|lia|done|]. intros j e Hj Hij.
    assert (Z.of_nat j = i ∨ i < Z.of_nat j) as [<-|Hij'] by lia.
    { rewrite Nat2Z.id in Hr. by simplify_eq. }
    eapply nlt_le_trans; [exact Hkm|]. apply nlt_le, Hlt. by eapply Hgt.
  - apply num_total in Hkm; [|done..].
    apply (IH (Z.to_nat (u + 1 - (i + 1)))); [lia|done|lia|lia| |done]. intros j e Hj Hij.
    assert (Z.of_nat j = i ∨ Z.of_nat j < i) as [<-|Hij'] by lia.
    { rewrite Nat2Z.id in Hr. by simplify_eq. }
    eapply nlt_le_trans; [|apply nlt_le; exact Hkm]. apply Hlt. by eapply Hlo.
Qed.

Lemma event_search_spec self key :
  events_ok (events self) → is_nan key = false →
  ∃ i, event_search self key = Ok i ∧ 0 ≤ i ≤ Z.of_nat (length (events self)) ∧
    (∀ j e, events self !! j = Some e → Z.of_nat j < i → before key e) ∧
    (∀ j e, events self !! j = Some e → i < Z.of_nat j → after key e) ∧
    (∀ e, events self !! Z.to_nat i = Some e → neqb key (PInt (ev_at e)) = true ∨ after key e).
Proof.
  intros Hok Hnan. apply event_search_loop_spec; [done|done|lia|lia|..].
  - intros. lia.
  - intros j e Hj%lookup_lt_Some. lia.
Qed.

(** The window between two insertion points, from the positions alone. *)
Lemma window_split (es : list Event) start end_ (s e : nat) :
  nle start end_ = true → (s ≤ length es)%nat → (e ≤ length es)%nat →
  (∀ j x, es !! j = Some x → (j < s)%nat → before start x) →
  (∀ j x, es !! j = Some x → (s ≤ j)%nat → ¬ before start x) →
  (∀ j x, es !! j = Some x → (j < e)%nat → before end_ x) →
  (∀ j x, es !! j = Some x → (e < j)%nat → after end_ x) →
  (∀ x, es !! e = Some x → neqb end_ (PInt (ev_at x)) = true ∨ after end_ x) →
  drop s (take (S e) es) =
    filter (λ x, ¬ before start x ∧ ¬ after end_ x) es ++
    (if decide (Exists (λ x, neqb end_ (PInt (ev_at x)) = true) es) then []
     else take 1 (filter (after end_) es)).
Proof.
  intros Hle Hslen Hlen Hs1 Hs2 He1 He2 He3.
  assert (∀ k x, before k x → ¬ after k x) as Hba.
  { intros k x Hb Ha. by apply (nlt_nle_false _ _ Hb), nlt_le. }
  assert (∀ x, neqb end_ (PInt (ev_at x)) = true → ¬ after end_ x ∧ ¬ before end_ x) as Hq.
  { intros x [Hq1 Hq2]%neqb_le. split; intros Hx; by apply (nlt_nle_false _ _ Hx). }
  assert (s ≤ e)%nat as Hse.
  { destruct (decide (e = length es)) as [->|]; [done|].
    destruct (lookup_lt_is_Some_2 es e) as [x Hx]; [lia|].
    destruct (decide (s ≤ e)%nat); [done|exfalso].
    assert (before end_ x) as Hb.
    { apply (nlt_le_trans _ start); [|done]. apply (Hs1 e x Hx). lia. }
    destruct (He3 x Hx) as [Hx'%Hq|Hx']; [naive_solver|by apply (Hba end_ x)]. }
  case_decide as Hex.
  - apply Exists_exists in Hex as (y & [k Hk]%list_elem_of_lookup_1 & Hy).
    pose proof (Hq y Hy) as [Hy1 Hy2].
    assert (k = e) as ->.
    { destruct (decide (k < e)%nat); [by destruct Hy2; eapply He1|].
      destruct (decide (e < k)%nat); [by destruct Hy1; eapply He2|lia]. }
    pose proof (lookup_lt_Some _ _ _ Hk). rewrite app_nil_r. symmetry.
    apply filter_positions; [lia|]. intros j x Hj. split.
    + intros [Hx1 Hx2]. split; [destruct (decide (s ≤ j)%nat); [done|]|destruct (decide (j < S e)%nat); [done|]].
      * destruct Hx1. apply (Hs1 j x Hj). lia.
      * destruct Hx2. apply (He2 j x Hj). lia.
    + intros [Hj1 Hj2]. split; [by apply (Hs2 j)|].
      assert (j = e ∨ (j < e)%nat) as [->|] by lia; [by simplify_eq|]. apply Hba. by apply (He1 j).
  - assert (∀ x, es !! e = Some x → after end_ x) as He3'.
    { intros x Hx. destruct (He3 x Hx); [|done]. destruct Hex. apply Exists_exists.
      exists x. split; [by eapply list_elem_of_lookup_2|done]. }
    assert (∀ j x, es !! j = Some x → after end_ x ↔ (e ≤ j)%nat) as Haft.
    { intros j x Hj. split.
      - intros Hx. destruct (decide (e ≤ j)%nat); [done|]. destruct (Hba end_ x); [|done].
        apply (He1 j x Hj). lia.
      - intros Hej. assert (j = e ∨ (e < j)%nat) as [->|] by lia; [by apply He3'|by apply (He2 j)]. }
    rewrite (filter_positions (λ x, ¬ before start x ∧ ¬ after end_ x) es s e Hse).
    2:{ intros j x Hj. rewrite (Haft j x Hj). split; [|intros; split; [apply (Hs2 j); [done|lia]|lia]].
        intros [Hx1 Hx2]. split; [|lia]. destruct (decide (s ≤ j)%nat); [done|].
        destruct Hx1. apply (Hs1 j x Hj). lia. }
    rewrite (filter_positions (after end_) es e (length es)) by
      (try lia; intros j x Hj; rewrite (Haft j x Hj); apply lookup_lt_Some in Hj; lia).
    rewrite (take_ge es (length es)) by done.
    rewrite <-drop_app_le by (rewrite length_take; lia). f_equal.
    replace (S e) with (e + 1)%nat by lia. by rewrite take_take_drop.
Qed.

(** [TimelineEvent.get_events] on events at increasing times answers the
    events with [start <= at <= end] and, unless an event is at [end] itself,
    also the first event after it. *)
Theorem get_events_window self start end_ :
  events_ok (events self) → nle start end_ = true →
  get_events self start end_ = Ok
    (filter (λ e, ¬ before start e ∧ ¬ after end_ e) (events self) ++
     (if decide (Exists (λ e, neqb end_ (PInt (ev_at e)) = true) (events self)) then []
      else take 1 (filter (after end_) (events self)))).
Proof.
  intros Hok Hle. destruct (nle_not_nan _ _ Hle) as [Hns Hne].
  unfold get_events.
  destruct (event_search_spec self start Hok Hns) as (s & -> & Hs & Hs1 & Hs2 & Hs3).
  destruct (event_search_spec self end_ Hok Hne) as (e & -> & He & He1 & He2 & He3).
  simpl. f_equal. rewrite slice_Z by lia.
  replace (Z.to_nat (e + 1)) with (S (Z.to_nat e)) by lia.
  apply window_split; [done|lia|lia|..].
  - intros j x Hj ?. apply (Hs1 j x Hj). lia.
  - intros j x Hj ? Hb. assert (Z.of_nat j = s ∨ s < Z.of_nat j) as [<-|Hj'] by lia.
    + rewrite Nat2Z.id in Hs3. destruct (Hs3 x Hj) as [[? ?]%neqb_le|Ha].
      * by apply (nlt_nle_false _ _ Hb).
      * by apply (nlt_nle_false _ _ Hb), nlt_le.
    + apply (nlt_nle_false _ _ Hb), nlt_le. by apply (Hs2 j).
  - intros j x Hj ?. apply (He1 j x Hj). lia.
  - intros j x Hj ?. apply (He2 j x Hj). lia.
  - done.
Qed.

(** ** Sorting *)
Section py_sort_spec.
Context {A : Type} (cmp : A → A → Z) (key : A → Z).
Context (cmp_key : ∀ x y, (cmp x y <=? 0) = (key x <=? key y)).
Let le (x y : A) : Prop := key x ≤ key y.

Lemma insert_by_perm x l : insert_by cmp x l ≡ₚ x :: l.
Proof.
  induction l as [|y l IH]; simpl; [done|]. destruct (cmp x y <=? 0); [done|].
  by rewrite IH, Permutation_swap.
Qed.
Lemma py_sort_perm l : py_sort cmp l ≡ₚ l.
Proof. induction l as [|x l IH]; simpl; [done|]. by rewrite insert_by_perm, IH. Qed.

Lemma insert_by_sorted x l : StronglySorted le l → StronglySorted le (insert_by cmp x l).
Proof.
  induction 1 as [|y l Hl IH Hy]; simpl; [by repeat constructor|]. rewrite cmp_key.
  destruct (Z.leb_spec (key x) (key y)) as [Hxy|Hxy].
  - constructor; [by constructor|]. constructor; [done|].
    eapply Forall_impl; [exact Hy|]. unfold le. simpl. intros. lia.
  - constructor; [done|]. rewrite insert_by_perm. constructor; [unfold le; lia|done].
Qed.
Lemma py_sort_sorted l : StronglySorted le (py_sort cmp l).
Proof. induction l; simpl; [constructor|]. by apply insert_by_sorted. Qed.

(** Elements with the same key keep their order. *)
Lemma py_sort_stable k l :
  filter (λ x, key x = k) (py_sort cmp l) = filter (λ x, key x = k) l.
Proof.
  induction l as [|x l IH]; simpl; [done|].
  assert (∀ l, filter (λ x, key x = k) (insert_by cmp x l) =
    filter (λ x, key x = k) (x :: l)) as Hins; [|by rewrite Hins, !filter_cons, IH].
  clear IH l. induction l as [|y l IH]; simpl; [done|]. rewrite cmp_key.
  destruct (Z.leb_spec (key x) (key y)); [done|].
  rewrite filter_cons, IH, !filter_cons. repeat case_decide; try done. lia.
Qed.

Lemma py_sort_id l : StronglySorted le l → py_sort cmp l = l.
Proof.
  induction 1 as [|x l Hl IH Hx]; simpl; [done|]. rewrite IH. destruct l as [|y l]; simpl; [done|].
  apply Forall_cons in Hx as [Hx _]. rewrite cmp_key. unfold le in Hx.
  by rewrite (proj2 (Z.leb_le _ _) Hx).
Qed.
End py_sort_spec.

Lemma ranges_cmp_key a b : (ranges_cmp a b <=? 0) = (r_start a <=? r_start b).
Proof.
  unfold ranges_cmp. destruct (Z.ltb_spec (r_start a - r_start b) 0); simpl.
  - symmetry. apply Z.leb_le. lia.
  - destruct (Z.gtb_spec (r_start a - r_start b) 0); symmetry; [apply Z.leb_gt|apply Z.leb_le]; lia.
Qed.
Lemma events_cmp_key a b : (events_cmp a b <=? 0) = (ev_at a <=? ev_at b).
Proof.
  unfold events_cmp. destruct (Z.ltb_spec (ev_at a - ev_at b) 0); simpl.
  - symmetry. apply Z.leb_le. lia.
  - destruct (Z.gtb_spec (ev_at a - ev_at b) 0); symmetry; [apply Z.leb_gt|apply Z.leb_le]; lia.
Qed.

(** [sort] puts ranges in the order of their starts and events in the
    order of their times: the lists hold the same members, those with equal
    keys in the order in which they were added, and sorting again changes
    nothing. *)
Theorem sort_correct (rs : TimelineDataRange) (es : TimelineEvent) :
  StronglySorted (λ a b, r_start a ≤ r_start b) (ranges (ranges_sort rs)) ∧
  ranges (ranges_sort rs) ≡ₚ ranges rs ∧
  (∀ k, filter (λ r, r_start r = k) (ranges (ranges_sort rs)) =
        filter (λ r, r_start r = k) (ranges rs)) ∧
  ranges_sort (ranges_sort rs) = ranges_sort rs ∧
  StronglySorted (λ a b, ev_at a ≤ ev_at b) (events (events_sort es)) ∧
  events (events_sort es) ≡ₚ events es ∧
  (∀ k, filter (λ e, ev_at e = k) (events (events_sort es)) =
        filter (λ e, ev_at e = k) (events es)) ∧
  events_sort (events_sort es) = events_sort es.
Proof.
  pose proof (py_sort_sorted _ _ ranges_cmp_key) as Hr.
  pose proof (py_sort_sorted _ _ events_cmp_key) as He.
  repeat split; simpl; auto using py_sort_perm.
  - intros k. by apply (py_sort_stable _ _ ranges_cmp_key).
  - unfold ranges_sort. simpl. by rewrite (py_sort_id _ _ ranges_cmp_key).
  - intros k. by apply (py_sort_stable _ _ events_cmp_key).
  - unfold events_sort. simpl. by rewrite (py_sort_id _ _ events_cmp_key).
Qed.

(** ** Members by name *)
Section find_or_create_spec.
Context {A : Type} (name_of : A → string) (new : string → A).
Context (name_new : ∀ s, name_of (new s) = s).

Lemma find_name_some name l i :
  find_name name_of name l = Some i → ∃ x, l !! i = Some x ∧ name_of x = name.
Proof.
  revert i. induction l as [|x l IH]; intros i; simpl; [done|].
  case_decide; [intros [= <-]; eauto|]. intros (j & Hj & ->)%fmap_Some. by apply IH.
Qed.
Lemma find_name_none name l : find_name name_of name l = None → name ∉ name_of <$> l.
Proof.
  induction l as [|x l IH]; simpl; [set_solver|].
  case_decide; [done|]. intros Hn%fmap_None. apply not_elem_of_cons. split; [done|by apply IH].
Qed.
Lemma find_name_nodup name l i x :
  NoDup (name_of <$> l) → l !! i = Some x → name_of x = name → find_name name_of name l = Some i.
Proof.
  revert i. induction l as [|y l IH]; intros i Hnd Hi Hx; simpl in *; [done|].
  apply NoDup_cons in Hnd as [Hy Hnd]. destruct i as [|i]; simpl in Hi; simplify_eq.
  { by rewrite decide_True. }
  rewrite decide_False; [by rewrite (IH i)|]. intros Heq. destruct Hy. rewrite Heq.
  apply list_elem_of_fmap. exists x. split; [done|by eapply list_elem_of_lookup_2].
Qed.

(** The member returned has the name; the members before keep their places;
    names stay unique; a second call changes nothing. *)
Lemma find_or_create_spec name l :
  let '(l', i) := find_or_create name_of new name l in
  (∃ x, l' !! i = Some x ∧ name_of x = name ∧ (name ∉ name_of <$> l → x = new name)) ∧
  (∀ j x, l !! j = Some x → l' !! j = Some x) ∧
  (NoDup (name_of <$> l) → NoDup (name_of <$> l')) ∧
  (NoDup (name_of <$> l) → find_or_create name_of new name l' = (l', i)).
Proof.
  unfold find_or_create. destruct (find_name name_of name l) as [i|] eqn:E.
  - destruct (find_name_some _ _ _ E) as (x & Hx & Hn). split; [|split; [done|split; [done|]]].
    + exists x. split; [done|]. split; [done|]. intros []. apply list_elem_of_fmap.
      exists x. split; [done|by eapply list_elem_of_lookup_2].
    + intros _. by rewrite E.
  - pose proof (find_name_none _ _ E) as Hn. split; [|split; [|split]].
    + exists (new name). split; [|by split]. rewrite lookup_app_r, Nat.sub_diag by done. done.
    + intros j x Hj. by apply lookup_app_l_Some.
    + intros Hnd. rewrite fmap_app. simpl. rewrite name_new. apply NoDup_app.
      split; [done|]. split; [|apply NoDup_singleton]. intros y Hy ->%list_elem_of_singleton. done.
    + intros Hnd. rewrite (find_name_nodup name (l ++ [new name]) (length l) (new name)); [done|..|done].
      * rewrite fmap_app. simpl. rewrite name_new. apply NoDup_app.
        split; [done|]. split; [|apply NoDup_singleton]. intros y Hy ->%list_elem_of_singleton. done.
      * by rewrite lookup_app_r, Nat.sub_diag by done.
Qed.

(** Filing [b] under a name: what the members hold grows by [b]. *)
Lemma file_under {B} (flat : A → list B) (f : A → A) (b : B) name l :
  flat (new name) = [] → (∀ x, name_of x = name → flat (f x) ≡ₚ b :: flat x) →
  let '(l', i) := find_or_create name_of new name l in
  mjoin (flat <$> alter f i l') ≡ₚ b :: mjoin (flat <$> l).
Proof.
  intros Hnew Hf. unfold find_or_create.
  assert (∀ l i x, l !! i = Some x → name_of x = name →
    mjoin (flat <$> alter f i l) ≡ₚ b :: mjoin (flat <$> l)) as Halt.
  { clear l. induction l as [|y l IH]; intros [|i] x Hi Hx; simpl in *; simplify_eq.
    - by rewrite Hf.
    - rewrite (IH i x) by done. by rewrite Permutation_middle. }
  destruct (find_name name_of name l) as [i|] eqn:E.
  - destruct (find_name_some _ _ _ E) as (x & Hx & Hn). by eapply Halt.
  - rewrite (Halt _ _ (new name)); [|by rewrite lookup_app_r, Nat.sub_diag by done|done].
    rewrite fmap_app, join_app. simpl. by rewrite Hnew, !app_nil_r.
Qed.

Lemma alter_names (f : A → A) (i : nat) (l : list A) :
  (∀ x, name_of (f x) = name_of x) → name_of <$> alter f i l = name_of <$> l.
Proof.
  intros Hf. revert i. induction l as [|x l IH]; intros [|i]; simpl; [done..| |].
  - by rewrite Hf.
  - f_equal. apply IH.
Qed.
End find_or_create_spec.

(** [Timelines.get] and the [get_*] methods of a timeline answer the
    member with the name that is asked for, create an empty one only if there
    is none, keep the other members in place and the names unique, and answer
    the same member when they are called again. *)
Theorem get_or_create_correct name (ts : Timelines) :
  NoDup (t_name <$> ts) →
  let '(ts', i) := timelines_get name ts in
  (∃ t, ts' !! i = Some t ∧ t_name t = name ∧ (name ∉ t_name <$> ts → t = new_timeline name)) ∧
  (∀ j t, ts !! j = Some t → ts' !! j = Some t) ∧
  NoDup (t_name <$> ts') ∧ timelines_get name ts' = (ts', i).
Proof.
  intros Hnd. unfold timelines_get.
  pose proof (find_or_create_spec t_name new_timeline (λ _, eq_refl) name ts) as H.
  destruct (find_or_create _ _ name ts) as [ts' i]. naive_solver.
Qed.

(** ** What a trace file says, entry by entry *)
Inductive entry :=
| ERange (timeline name value : string) (start end_ : Z)
| EEventStr (timeline name value : string) (at_ : Z)
| EEventInt (timeline name : string) (value at_ : Z)
| EColor (name : string) (r g b : Z).
#[export] Instance entry_eq_dec : EqDecision entry.
Proof. solve_decision. Defined.

Definition parse_entry (line : string) : option entry :=
  let l := chars line in
  match m1 l with Some (t, n, v, s, e) => Some (ERange t n v s e) | None =>
  match m2 l with Some (t, n, v, a) => Some (EEventStr t n v a) | None =>
  match m3 l with Some (t, n, v, a) => Some (EEventInt t n v a) | None =>
  match m4 l with Some (n, r, g, b) => Some (EColor n r g b) | None => None end end end end.

Definition file_entry (st : rstate) (e : entry) : rstate :=
  let '(colors, timelines) := st in
  match e with
  | ERange t n v s e =>
      let '(timelines, i) := timelines_get t timelines in
      (colors, alter (λ timeline,
         let '(timeline, j) := get_range n timeline in
         upd_range (add_range {| r_start := s; r_end := e; r_value := v |}) j timeline) i timelines)
  | EEventStr t n v a =>
      let '(timelines, i) := timelines_get t timelines in
      (colors, alter (λ timeline,
         let '(timeline, j) := get_event_str n timeline in
         upd_event_str (add_event (EventString a v)) j timeline) i timelines)
  | EEventInt t n v a =>
      let '(timelines, i) := timelines_get t timelines in
      (colors, alter (λ timeline,
         let '(timeline, j) := get_event_int n timeline in
         upd_event_int (add_event (EventInt a v)) j timeline) i timelines)
  | EColor n r g b => (colors_add n (rgb (r / 255) (g / 255) (b / 255)) colors, timelines)
  end.

#[local] Arguments read_line : simpl never.
#[local] Arguments parse_entry : simpl never.
#[local] Arguments file_entry : simpl never.

Lemma read_line_entry st line :
  read_line st line = match parse_entry line with Some e => file_entry st e | None => st end.
Proof. unfold read_line, parse_entry, file_entry. destruct st. by repeat case_match; simplify_eq. Qed.

(** The entries that the timelines hold. *)
Definition held_range (t : string) (rs : TimelineDataRange) : list entry :=
  (λ r, ERange t (dr_name rs) (r_value r) (r_start r) (r_end r)) <$> ranges rs.
Definition event_entry (t n : string) (e : Event) : entry :=
  match e with
  | EventString a v => EEventStr t n v a
  | EventInt a v => EEventInt t n v a
  end.
Definition held_events (t : string) (es : TimelineEvent) : list entry :=
  event_entry t (te_name es) <$> events es.
Definition held (t : Timeline) : list entry :=
  mjoin (held_range (t_name t) <$> t_ranges t) ++
  mjoin (held_events (t_name t) <$> event_str t) ++
  mjoin (held_events (t_name t) <$> event_int t).
Definition contents (ts : Timelines) : list entry := mjoin (held <$> ts).

Lemma held_add_range t n v s e :
  held (let '(timeline, j) := get_range n t in
        upd_range (add_range {| r_start := s; r_end := e; r_value := v |}) j timeline)
  ≡ₚ ERange (t_name t) n v s e :: held t.
Proof.
  pose proof (file_under dr_name new_data_range (λ _, eq_refl) (held_range (t_name t))
    (add_range {| r_start := s; r_end := e; r_value := v |}) (ERange (t_name t) n v s e) n
    (t_ranges t) eq_refl) as H.
  unfold get_range. destruct (find_or_create _ _ n (t_ranges t)) as [l i]. unfold held. simpl.
  rewrite H; [done|]. intros x <-. unfold held_range. simpl. rewrite fmap_app. simpl.
  by rewrite <-Permutation_cons_append.
Qed.
Lemma held_add_event_str t n v a :
  held (let '(timeline, j) := get_event_str n t in
        upd_event_str (add_event (EventString a v)) j timeline)
  ≡ₚ EEventStr (t_name t) n v a :: held t.
Proof.
  pose proof (file_under te_name new_event (λ _, eq_refl) (held_events (t_name t))
    (add_event (EventString a v)) (EEventStr (t_name t) n v a) n
    (event_str t) eq_refl) as H.
  unfold get_event_str. destruct (find_or_create _ _ n (event_str t)) as [l i]. unfold held. simpl.
  rewrite H; [by rewrite Permutation_middle|]. intros x <-. unfold held_events. simpl.
  rewrite fmap_app. simpl. by rewrite <-Permutation_cons_append.
Qed.
Lemma held_add_event_int t n v a :
  held (let '(timeline, j) := get_event_int n t in
        upd_event_int (add_event (EventInt a v)) j timeline)
  ≡ₚ EEventInt (t_name t) n v a :: held t.
Proof.
  pose proof (file_under te_name new_event (λ _, eq_refl) (held_events (t_name t))
    (add_event (EventInt a v)) (EEventInt (t_name t) n v a) n
    (event_int t) eq_refl) as H.
  unfold get_event_int. destruct (find_or_create _ _ n (event_int t)) as [l i]. unfold held. simpl.
  rewrite H; [by rewrite !app_assoc, Permutation_middle|]. intros x <-. unfold held_events. simpl.
  rewrite fmap_app. simpl. by rewrite <-Permutation_cons_append.
Qed.

Definition is_data (e : entry) : bool := match e with EColor _ _ _ _ => false | _ => true end.

Lemma contents_file_entry colors ts e :
  contents (snd (file_entry (colors, ts) e)) ≡ₚ (if is_data e then [e] else []) ++ contents ts.
Proof.
  assert (∀ f name,
    (∀ x, t_name x = name → held (f x) ≡ₚ e :: held x) →
    contents (snd (let '(ts, i) := timelines_get name ts in (colors, alter f i ts)))
    ≡ₚ e :: contents ts) as Hf.
  { intros f name Hf. pose proof (file_under t_name new_timeline (λ _, eq_refl) held f e name ts
      eq_refl Hf) as H. unfold timelines_get.
    by destruct (find_or_create _ _ name ts) as [l i]. }
  destruct e as [t n v s e|t n v a|t n v a|n r g b]; unfold file_entry; simpl is_data.
  - apply (Hf _ t). intros x <-. apply held_add_range.
  - apply (Hf _ t). intros x <-. apply held_add_event_str.
  - apply (Hf _ t). intros x <-. apply held_add_event_int.
  - done.
Qed.

Lemma contents_sort ts : contents (timelines_sort ts) ≡ₚ contents ts.
Proof.
  unfold contents, timelines_sort. induction ts as [|t ts IH]; simpl; [done|]. rewrite IH.
  apply Permutation_app_tail. unfold held. simpl.
  assert (∀ l, mjoin (held_events (t_name t) <$> (events_sort <$> l)) ≡ₚ
    mjoin (held_events (t_name t) <$> l)) as He.
  { induction l as [|x l IHl]; simpl; [done|]. rewrite IHl. unfold held_events. simpl.
    by rewrite py_sort_perm. }
  rewrite !He. apply Permutation_app_tail.
  induction (t_ranges t) as [|x l IHl]; simpl; [done|]. rewrite IHl. unfold held_range. simpl.
  by rewrite py_sort_perm.
Qed.

Definition file_lines (content : string) : list string := of_chars <$> keep_lines (chars content).

Lemma contents_read_lines lines st :
  contents (snd (foldl read_line st lines)) ≡ₚ
    filter (λ e, is_data e = true) (omap parse_entry lines) ++ contents (snd st).
Proof.
  revert st. induction lines as [|line lines IH]; intros [colors ts]; simpl; [done|].
  rewrite IH, read_line_entry. destruct (parse_entry line) as [e|]; simpl; [|done].
  rewrite contents_file_entry, filter_cons.
  destruct (is_data e); simpl; [|done]. by rewrite Permutation_middle.
Qed.

(** [read_data] loses nothing and invents nothing: the timelines hold
    exactly the ranges and events of the lines of the file that have the form
    of an entry, each under the names its line gives, and every other line is
    ignored. *)
Theorem read_data_contents content :
  contents (snd (read_data content)) ≡ₚ
    filter (λ e, is_data e = true) (omap parse_entry (file_lines content)).
Proof.
  unfold read_data. fold (file_lines content).
  pose proof (contents_read_lines (file_lines content) (new_colors class_default_colors, [])) as H.
  destruct (foldl _ _ _) as [colors ts]. simpl in *. by rewrite contents_sort, H, app_nil_r.
Qed.

(** ** Writing entries and reading them back *)
Definition hex_digit (n : Z) : ascii :=
  ascii_of_nat (Z.to_nat (if n <? 10 then n + 48 else n + 87)).
Definition hex_byte (n : Z) : list ascii := [hex_digit (n / 16); hex_digit (n mod 16)].
Definition sp : list ascii := [" "%char].
Definition write_entry (e : entry) : list ascii :=
  match e with
  | ERange t n v s e => chars "range " ++ chars t ++ sp ++ chars n ++ sp ++ chars v ++ sp ++
      chars (pretty s) ++ sp ++ chars (pretty e)
  | EEventStr t n v a => chars "event-str " ++ chars t ++ sp ++ chars n ++ sp ++ chars v ++ sp ++
      chars (pretty a)
  | EEventInt t n v a => chars "event-int " ++ chars t ++ sp ++ chars n ++ sp ++
      chars (pretty v) ++ sp ++ chars (pretty a)
  | EColor n r g b => chars "color " ++ chars n ++ chars " #" ++ hex_byte r ++ hex_byte g ++
      hex_byte b
  end ++ [newline].

(** A name or value that a line can carry. *)
Definition word_ok (s : string) : Prop :=
  s ≠ "" ∧ Forall (λ a, not_space a = true ∧ a ≠ newline) (chars s).
Definition entry_ok (e : entry) : Prop :=
  match e with
  | ERange t n v s e => word_ok t ∧ word_ok n ∧ word_ok v ∧ 0 ≤ s ∧ 0 ≤ e
  | EEventStr t n v a => word_ok t ∧ word_ok n ∧ word_ok v ∧ 0 ≤ a
  | EEventInt t n v a => word_ok t ∧ word_ok n ∧ 0 ≤ v ∧ 0 ≤ a
  | EColor n r g b => word_ok n ∧ 0 ≤ r < 256 ∧ 0 ≤ g < 256 ∧ 0 ≤ b < 256
  end.

Lemma word1_app s r :
  word_ok s → word1 (chars s ++ [" "%char] ++ r) = Some (chars s, [" "%char] ++ r).
Proof.
  intros [Hne Hs]. unfold word1. rewrite span_app.
  - destruct (chars s) eqn:E; [|done]. destruct Hne. by apply chars_inj.
  - eapply Forall_impl; [exact Hs|]. by intros ? [].
  - by intros a y' [= <- <-].
Qed.

Lemma hex_digit_val n : 0 ≤ n < 16 → hex_val (hex_digit n) = Some n.
Proof.
  intros Hn.
  assert (Forall (λ n, hex_val (hex_digit n) = Some n) (seqZ 0 16)) as H
    by (repeat constructor).
  rewrite Forall_forall in H. apply H, elem_of_seqZ. lia.
Qed.
Lemma hex_digit_no_newline n : 0 ≤ n < 16 → hex_digit n ≠ newline.
Proof.
  intros Hn Heq. pose proof (hex_digit_val n Hn) as H. by rewrite Heq in H.
Qed.
Lemma byte_digits n : 0 ≤ n < 256 → 0 ≤ n / 16 < 16 ∧ 0 ≤ n mod 16 < 16.
Proof.
  intros. split; [|apply Z.mod_pos_bound; lia].
  split; [apply Z.div_pos; lia|apply Z.div_lt_upper_bound; lia].
Qed.
Lemma hex2_app n r : 0 ≤ n < 256 → hex2 (hex_byte n ++ r) = Some (n, r).
Proof.
  intros Hn. unfold hex2, hex_byte. simpl. pose proof (byte_digits n Hn) as [H1 H2].
  rewrite !hex_digit_val by done. simpl. by rewrite <-Z.div_mod.
Qed.

Lemma digits1_pretty_next z a r :
  0 ≤ z → is_digit a = false →
  digits1 (chars (pretty z) ++ [a] ++ r) = Some (chars (pretty z), [a] ++ r).
Proof.
  intros Hz Ha. apply digits1_pretty; [done|]. by intros ? ? [= <- <-].
Qed.
Lemma int_of_digits_pretty z : 0 ≤ z → int_of_digits (pretty z) = z.
Proof. intros Hz. by destruct (pretty_Z_digits z Hz) as (_ & _ & ?). Qed.

(** One step of a match: the piece at the front of the text. *)
Ltac match_piece :=
  first
  [ rewrite drop_prefix_app
  | rewrite word1_app by done
  | rewrite digits1_pretty_next by done
  | rewrite hex2_app by done ];
  cbv beta iota delta [mbind option_bind].

Lemma m1_write t n v s e :
  word_ok t → word_ok n → word_ok v → 0 ≤ s → 0 ≤ e →
  m1 (write_entry (ERange t n v s e)) = Some (t, n, v, s, e).
Proof.
  intros. unfold m1, write_entry, sp. rewrite <-(app_nil_r [newline]), <-!app_assoc.
  repeat match_piece.
  by rewrite !of_chars_chars, !int_of_digits_pretty.
Qed.
Lemma m2_write t n v a :
  word_ok t → word_ok n → word_ok v → 0 ≤ a →
  m2 (write_entry (EEventStr t n v a)) = Some (t, n, v, a).
Proof.
  intros. unfold m2, write_entry, sp. rewrite <-(app_nil_r [newline]), <-!app_assoc.
  repeat match_piece.
  by rewrite !of_chars_chars, !int_of_digits_pretty.
Qed.
Lemma m3_write t n v a :
  word_ok t → word_ok n → 0 ≤ v → 0 ≤ a →
  m3 (write_entry (EEventInt t n v a)) = Some (t, n, v, a).
Proof.
  intros. unfold m3, write_entry, sp. rewrite <-(app_nil_r [newline]), <-!app_assoc.
  repeat match_piece.
  by rewrite !of_chars_chars, !int_of_digits_pretty.
Qed.
Lemma m4_write n r g b :
  word_ok n → 0 ≤ r < 256 → 0 ≤ g < 256 → 0 ≤ b < 256 →
  m4 (write_entry (EColor n r g b)) = Some (n, r, g, b).
Proof.
  intros. unfold m4, write_entry. rewrite <-!app_assoc.
  change (chars " #" ++ ?x) with ([" "%char] ++ "#"%char :: x).
  rewrite drop_prefix_app. cbv beta iota delta [mbind option_bind].
  rewrite word1_app by done. cbv beta iota delta [mbind option_bind].
  change ([" "%char] ++ "#"%char :: ?x) with (chars " #" ++ x). repeat match_piece.
  by rewrite of_chars_chars.
Qed.

Lemma parse_write_entry e : entry_ok e → parse_entry (of_chars (write_entry e)) = Some e.
Proof.
  unfold parse_entry. rewrite chars_of_chars.
  destruct e as [t n v s e|t n v a|t n v a|n r g b]; simpl entry_ok; intros Hok.
  - by rewrite m1_write by naive_solver.
  - change (m1 _) with (@None (string * string * string * Z * Z)).
    by rewrite m2_write by naive_solver.
  - change (m1 _) with (@None (string * string * string * Z * Z)).
    change (m2 _) with (@None (string * string * string * Z)).
    by rewrite m3_write by naive_solver.
  - change (m1 _) with (@None (string * string * string * Z * Z)).
    change (m2 _) with (@None (string * string * string * Z)).
    change (m3 _) with (@None (string * string * Z * Z)).
    by rewrite m4_write by naive_solver.
Qed.

Lemma word_no_newline s : word_ok s → newline ∉ chars s.
Proof. intros [_ Hs] Hin. rewrite Forall_forall in Hs. by destruct (Hs _ Hin). Qed.
Lemma pretty_no_newline z : 0 ≤ z → newline ∉ chars (pretty z).
Proof.
  intros Hz Hin. destruct (pretty_Z_digits z Hz) as (_ & Hd & _).
  unfold all_digits in Hd. rewrite Forall_forall in Hd. by apply Hd in Hin.
Qed.
Lemma hex_byte_no_newline n : 0 ≤ n < 256 → newline ∉ hex_byte n.
Proof.
  intros [H1 H2]%byte_digits. unfold hex_byte. rewrite !not_elem_of_cons.
  split; [|split; [|by apply not_elem_of_nil]]; by apply not_eq_sym, hex_digit_no_newline.
Qed.

Lemma write_entry_line e : entry_ok e → ∃ l, write_entry e = l ++ [newline] ∧ newline ∉ l.
Proof.
  intros He. unfold write_entry. eexists. split; [reflexivity|].
  destruct e; simpl entry_ok in He; destruct_and! He; rewrite !not_elem_of_app;
    repeat split; unfold sp;
    auto using word_no_newline, pretty_no_newline, hex_byte_no_newline;
    by apply (bool_decide_unpack _).
Qed.

Lemma keep_lines_cat (ls : list (list ascii)) :
  Forall (λ x, ∃ l, x = l ++ [newline] ∧ newline ∉ l) ls → keep_lines (mjoin ls) = ls.
Proof.
  induction 1 as [|x ls (l & -> & Hl) _ IH]; simpl; [done|].
  rewrite <-app_assoc. induction l as [|a l IHl]; simpl.
  - by rewrite IH.
  - apply not_elem_of_cons in Hl as [Ha Hl]. rewrite decide_False by done.
    simpl in IHl. by rewrite IHl.
Qed.

(** C11: a file of entries, one to a line, is read back as those entries: the
    colors and timelines are the ones that filing the entries in their order
    gives, sorted. *)
Theorem read_write_entries es :
  Forall entry_ok es →
  read_data (of_chars (mjoin (write_entry <$> es))) =
    let '(colors, ts) := foldl file_entry (new_colors class_default_colors, []) es in
    (colors, timelines_sort ts).
Proof.
  intros Hes. unfold read_data. rewrite chars_of_chars, keep_lines_cat.
  - assert (∀ st, foldl read_line st (of_chars <$> (write_entry <$> es)) = foldl file_entry st es) as ->;
      [|by destruct (foldl _ _ es)].
    induction Hes as [|e es He _ IH]; intros st; simpl; [done|].
    by rewrite read_line_entry, parse_write_entry.
  - apply Forall_fmap. eapply Forall_impl; [exact Hes|]. intros e He. by apply write_entry_line.
Qed.

(** ** Bounds *)
Lemma foldl_widen {A} (f : A → Z * Z) l b :
  let r := foldl (λ b x, widen b (f x)) b l in
  r.1 ≤ b.1 ∧ b.2 ≤ r.2 ∧ Forall (λ x, r.1 ≤ (f x).1 ∧ (f x).2 ≤ r.2) l ∧
  (0 ≤ b.1 → Forall (λ x, 0 ≤ (f x).1) l → 0 ≤ r.1).
Proof.
  revert b. induction l as [|x l IH]; intros b; simpl.
  { repeat split; try lia. constructor. }
  specialize (IH (widen b (f x))). cbv zeta in IH.
  destruct IH as (H1 & H2 & H3 & H4).
  assert ((widen b (f x)).1 ≤ b.1 ∧ (widen b (f x)).1 ≤ (f x).1 ∧
    b.2 ≤ (widen b (f x)).2 ∧ (f x).2 ≤ (widen b (f x)).2 ∧
    (0 ≤ b.1 → 0 ≤ (f x).1 → 0 ≤ (widen b (f x)).1)) as (? & ? & ? & ? & ?).
  { unfold widen. destruct b as [lo hi], (f x) as [x_lo x_hi]. simpl.
    destruct (Z.ltb_spec x_lo lo), (Z.gtb_spec x_hi hi); lia. }
  split; [lia|]. split; [lia|]. split.
  - constructor; [lia|done].
  - intros ? [? ?]%Forall_cons. auto.
Qed.

Lemma timeline_bounds t :
  let r := timeline_get_bounds t in
  r.1 ≤ 0 ∧ 0 ≤ r.2 ∧
  Forall (λ x, r.1 ≤ (ranges_get_bounds x).1 ∧ (ranges_get_bounds x).2 ≤ r.2) (t_ranges t) ∧
  Forall (λ x, r.1 ≤ (events_get_bounds x).1 ∧ (events_get_bounds x).2 ≤ r.2)
    (event_str t ++ event_int t) ∧
  (Forall (λ x, 0 ≤ (ranges_get_bounds x).1) (t_ranges t) →
   Forall (λ x, 0 ≤ (events_get_bounds x).1) (event_str t ++ event_int t) → 0 ≤ r.1).
Proof.
  unfold timeline_get_bounds.
  pose proof (foldl_widen ranges_get_bounds (t_ranges t) (0, 0)) as (A1 & A2 & A3 & A4).
  set (b1 := foldl _ (0, 0) (t_ranges t)) in *.
  pose proof (foldl_widen events_get_bounds (event_str t) b1) as (B1 & B2 & B3 & B4).
  set (b2 := foldl _ b1 (event_str t)) in *.
  pose proof (foldl_widen events_get_bounds (event_int t) b2) as (C1 & C2 & C3 & C4).
  set (b3 := foldl _ b2 (event_int t)) in *. simpl in *.
  split; [lia|]. split; [lia|]. split; [|split].
  - eapply Forall_impl; [exact A3|]. simpl. lia.
  - apply Forall_app. split; [|done]. eapply Forall_impl; [exact B3|]. simpl. lia.
  - intros Hr [He1 He2]%Forall_app. auto with lia.
Qed.

Lemma timelines_bounds ts :
  let r := timelines_get_bounds ts in
  r.1 ≤ 0 ∧ 0 ≤ r.2 ∧
  Forall (λ t, r.1 ≤ (timeline_get_bounds t).1 ∧ (timeline_get_bounds t).2 ≤ r.2) ts ∧
  (Forall (λ t, 0 ≤ (timeline_get_bounds t).1) ts → 0 ≤ r.1).
Proof.
  unfold timelines_get_bounds.
  pose proof (foldl_widen timeline_get_bounds ts (0, 0)) as (A1 & A2 & A3 & A4).
  cbv zeta in *. simpl in *. auto with lia.
Qed.

(** Every entry of a file has its times in decimal digits: none is negative. *)
Definition entry_nonneg (e : entry) : Prop :=
  match e with
  | ERange _ _ _ s e => 0 ≤ s ∧ 0 ≤ e
  | EEventStr _ _ _ a | EEventInt _ _ _ a => 0 ≤ a
  | EColor _ _ _ _ => True
  end.

Lemma digits_nonneg l x y : digits1 l = Some (x, y) → 0 ≤ int_of_digits (of_chars x).
Proof.
  intros Hd%digits1_digits. unfold int_of_digits. rewrite chars_of_chars.
  by apply int_of_chars_nonneg.
Qed.

Ltac inv_match :=
  repeat match goal with
  | H : (_ ≫= _) = Some _ |- _ => apply bind_Some in H; destruct H as (? & ? & H)
  | H : (let '(_, _) := ?x in _) = Some _ |- _ => destruct x
  end.

Lemma parse_entry_nonneg line e : parse_entry line = Some e → entry_nonneg e.
Proof.
  unfold parse_entry.
  destruct (m1 (chars line)) as [[[[[t n] v] s] e']|] eqn:E1.
  { intros [= <-]. unfold m1 in E1. inv_match. simplify_eq. split; by eapply digits_nonneg. }
  destruct (m2 (chars line)) as [[[[t n] v] a]|] eqn:E2.
  { intros [= <-]. unfold m2 in E2. inv_match. simplify_eq. by eapply digits_nonneg. }
  destruct (m3 (chars line)) as [[[[t n] v] a]|] eqn:E3.
  { intros [= <-]. unfold m3 in E3. inv_match. simplify_eq. by eapply digits_nonneg. }
  destruct (m4 (chars line)) as [[[[n r] g] b]|]; [|done]. by intros [= <-].
Qed.

Lemma read_data_entries_nonneg content : Forall entry_nonneg (contents (snd (read_data content))).
Proof.
  assert (Forall entry_nonneg
    (filter (λ e, is_data e = true) (omap parse_entry (file_lines content)))) as H.
  { apply Forall_forall. intros e [_ He]%list_elem_of_filter.
    apply list_elem_of_omap in He as (line & _ & He). by eapply parse_entry_nonneg. }
  unfold read_data. fold (file_lines content).
  pose proof (contents_read_lines (file_lines content) (new_colors class_default_colors, [])) as Hc.
  destruct (foldl _ _ _) as [colors ts]. simpl in *. by rewrite contents_sort, Hc, app_nil_r.
Qed.

Lemma held_in_contents ts t e : t ∈ ts → e ∈ held t → e ∈ contents ts.
Proof.
  intros Ht He. unfold contents. apply list_elem_of_join. exists (held t).
  split; [done|]. apply list_elem_of_fmap. eauto.
Qed.
Lemma range_in_held t rs r :
  rs ∈ t_ranges t → r ∈ ranges rs →
  ERange (t_name t) (dr_name rs) (r_value r) (r_start r) (r_end r) ∈ held t.
Proof.
  intros Hrs Hr. unfold held. apply elem_of_app. left. apply list_elem_of_join.
  exists (held_range (t_name t) rs). split; apply list_elem_of_fmap; eauto.
Qed.
Lemma event_in_held t es e :
  es ∈ event_str t ++ event_int t → e ∈ events es → event_entry (t_name t) (te_name es) e ∈ held t.
Proof.
  intros Hes He. unfold held. apply elem_of_app. right. apply elem_of_app.
  apply elem_of_app in Hes as [Hes|Hes]; [left|right]; apply list_elem_of_join;
    exists (held_events (t_name t) es); (split; apply list_elem_of_fmap; eauto).
Qed.

Lemma sorted_last {A} (key : A → Z) l x z :
  StronglySorted (λ a b, key a ≤ key b) l → last l = Some z → x ∈ l → key x ≤ key z.
Proof.
  induction 1 as [|y l Hl IH Hy]; [done|]. intros Hz Hx.
  destruct l as [|y' l]; simpl in Hz.
  - simplify_eq. apply list_elem_of_singleton in Hx as ->. lia.
  - apply elem_of_cons in Hx as [->|Hx]; [|by apply IH].
    rewrite Forall_forall in Hy. apply Hy. by apply last_Some_elem_of.
Qed.

Lemma events_bounds_sorted es e :
  StronglySorted (λ a b, ev_at a ≤ ev_at b) (events es) → e ∈ events es →
  ev_at e ≤ (events_get_bounds es).2.
Proof.
  intros Hs He. unfold events_get_bounds.
  destruct (events es) as [|e0 l] eqn:E; [by apply elem_of_nil in He|].
  destruct (last (e0 :: l)) as [z|] eqn:Ez; [|by apply last_None in Ez].
  simpl. by eapply sorted_last.
Qed.
Lemma ranges_bounds_ok rs r :
  ranges_ok (ranges rs) → r ∈ ranges rs → r_end r ≤ (ranges_get_bounds rs).2.
Proof.
  intros Hok [i Hi]%list_elem_of_lookup_1. unfold ranges_get_bounds.
  destruct (ranges rs) as [|r0 l] eqn:E; [done|].
  destruct (last (r0 :: l)) as [z|] eqn:Ez; [|by apply last_None in Ez]. simpl.
  rewrite last_lookup in Ez. simpl in Ez.
  assert (i = length l ∨ (i < length l)%nat) as [->|Hlt].
  { apply lookup_lt_Some in Hi. simpl in Hi. lia. }
  - rewrite Hi in Ez. simplify_eq. lia.
  - pose proof (Hok _ _ Hi) as [_ H]. specialize (H _ _ Hlt Ez).
    pose proof (Hok _ _ Ez) as [? _]. lia.
Qed.

Lemma events_bounds_nonneg es :
  (∀ e, e ∈ events es → 0 ≤ ev_at e) → 0 ≤ (events_get_bounds es).1.
Proof.
  intros H. unfold events_get_bounds. destruct (events es) as [|e0 l]; [done|].
  destruct (last (e0 :: l)); [|done]. simpl. apply H. by left.
Qed.
Lemma ranges_bounds_nonneg rs :
  (∀ r, r ∈ ranges rs → 0 ≤ r_start r) → 0 ≤ (ranges_get_bounds rs).1.
Proof.
  intros H. unfold ranges_get_bounds. destruct (ranges rs) as [|r0 l]; [done|].
  destruct (last (r0 :: l)); [|done]. simpl. apply H. by left.
Qed.

Lemma read_data_sorted content t es :
  t ∈ snd (read_data content) → es ∈ event_str t ++ event_int t →
  StronglySorted (λ a b, ev_at a ≤ ev_at b) (events es).
Proof.
  unfold read_data. destruct (foldl _ _ _) as [colors ts]. simpl.
  intros (t0 & -> & Ht0)%list_elem_of_fmap. simpl. rewrite <-fmap_app.
  intros (es0 & -> & _)%list_elem_of_fmap. apply (py_sort_sorted _ _ events_cmp_key).
Qed.

(** The bounds of what [read_data] answers begin at 0 and enclose every
    event, and every range of a list of ranges that do not overlap: nothing
    lies outside the scale that [main] sets up. *)
Theorem read_data_bounds content :
  let ts := snd (read_data content) in
  ∃ hi, timelines_get_bounds ts = (0, hi) ∧ 0 ≤ hi ∧
  ∀ t, t ∈ ts →
    (∀ es e, es ∈ event_str t ++ event_int t → e ∈ events es → 0 ≤ ev_at e ≤ hi) ∧
    (∀ rs r, rs ∈ t_ranges t → ranges_ok (ranges rs) → r ∈ ranges rs →
       0 ≤ r_start r ∧ r_end r ≤ hi).
Proof.
  intros ts. pose proof (read_data_entries_nonneg content) as Hnn. fold ts in Hnn.
  rewrite Forall_forall in Hnn.
  assert (∀ t es e, t ∈ ts → es ∈ event_str t ++ event_int t → e ∈ events es → 0 ≤ ev_at e) as He.
  { intros t es e Ht Hes Hin.
    pose proof (Hnn _ (held_in_contents _ _ _ Ht (event_in_held _ _ _ Hes Hin))) as H.
    by destruct e. }
  assert (∀ t rs r, t ∈ ts → rs ∈ t_ranges t → r ∈ ranges rs → 0 ≤ r_start r) as Hr.
  { intros t rs r Ht Hrs Hin.
    by pose proof (Hnn _ (held_in_contents _ _ _ Ht (range_in_held _ _ _ Hrs Hin))) as [? _]. }
  destruct (timelines_bounds ts) as (H1 & H2 & H3 & H4). rewrite Forall_forall in H3.
  exists (timelines_get_bounds ts).2. split; [|split; [done|]].
  - rewrite (surjective_pairing (timelines_get_bounds ts)) at 1. f_equal.
    assert (0 ≤ (timelines_get_bounds ts).1); [|lia]. apply H4, Forall_forall. intros t Ht.
    destruct (timeline_bounds t) as (_ & _ & _ & _ & H). apply H; apply Forall_forall.
    + intros rs Hrs. apply ranges_bounds_nonneg. eauto.
    + intros es Hes. apply events_bounds_nonneg. eauto.
  - intros t Ht. specialize (H3 t Ht).
    destruct (timeline_bounds t) as (_ & _ & T1 & T2 & _).
    rewrite Forall_forall in T1. rewrite Forall_forall in T2.
    split.
    + intros es e Hes Hin. split; [eauto|].
      pose proof (events_bounds_sorted es e (read_data_sorted _ _ _ Ht Hes) Hin).
      specialize (T2 es Hes). lia.
    + intros rs r Hrs Hok Hin. split; [eauto|].
      pose proof (ranges_bounds_ok rs r Hok Hin). specialize (T1 rs Hrs). lia.
Qed.

(** ** Colors *)
Lemma lookup_known name self c :
  colors_map self !! name = Some c → lookup_color name self = (self, Ok (Some c)).
Proof. intros Hc. unfold lookup_color. rewrite decide_False by (by rewrite Hc).
  by unfold mbind, eff_bind, mret, eff_ret, colors_get; rewrite Hc. Qed.
Lemma lookup_fresh name m ds c :
  m !! name = None →
  lookup_color name {| colors_map := m; default_colors := ds ++ [c] |} =
    ({| colors_map := <[name := c]> m; default_colors := ds |}, Ok (Some c)).
Proof.
  intros Hn. unfold lookup_color. simpl. rewrite decide_True by done.
  unfold mbind, eff_bind, pop_default. simpl. rewrite last_snoc. simpl.
  unfold colors_add, colors_get. simpl. rewrite lookup_insert_eq.
  rewrite length_app, Nat.add_sub. by rewrite take_app_length.
Qed.
Lemma lookup_exhausted name m :
  m !! name = None →
  lookup_color name {| colors_map := m; default_colors := [] |} =
    ({| colors_map := m; default_colors := [] |}, Err IndexError).
Proof. intros Hn. unfold lookup_color. simpl. by rewrite decide_True. Qed.

(** The names without a color, in the order of their first lookup. *)
Definition uncolored (m : gmap string Color) (names : list string) : list string :=
  filter (λ n, m !! n = None) names.
Definition final_colors (m : gmap string Color) (ds : list Color) (names : list string)
    : gmap string Color :=
  list_to_map (zip (uncolored m names) (reverse ds)) ∪ m.

Lemma uncolored_insert m names name c :
  name ∉ names → uncolored (<[name := c]> m) names = uncolored m names.
Proof.
  unfold uncolored. induction names as [|x names IH]; [done|].
  intros [Hx Hn]%not_elem_of_cons. rewrite !filter_cons, IH by done.
  by rewrite lookup_insert_ne.
Qed.

Lemma final_colors_known m ds names n c : m !! n = Some c → final_colors m ds names !! n = Some c.
Proof.
  intros Hn. unfold final_colors. rewrite lookup_union_r; [done|].
  apply not_elem_of_list_to_map_1. intros ([x y] & Heq & Hin)%list_elem_of_fmap.
  simpl in Heq. subst x. apply elem_of_zip_l in Hin. unfold uncolored in Hin.
  apply list_elem_of_filter in Hin as [Hin _]. congruence.
Qed.

Lemma final_colors_cons m ds d name names :
  name ∉ names → m !! name = None →
  final_colors (<[name := d]> m) ds names = final_colors m (ds ++ [d]) (name :: names).
Proof.
  intros Hn Hm. unfold final_colors. rewrite uncolored_insert by done.
  unfold uncolored at 2. rewrite filter_cons_True by done. fold (uncolored m names).
  rewrite reverse_snoc. simpl. rewrite <-insert_union_r, insert_union_l; [done|].
  apply not_elem_of_list_to_map_1. intros ([x y] & Heq & Hin)%list_elem_of_fmap.
  simpl in Heq. subst x. apply elem_of_zip_l in Hin. unfold uncolored in Hin.
  by apply list_elem_of_filter in Hin as [_ Hin].
Qed.

(** The colors that [main] looks up for different range values: a value
    with a color of its own keeps it, the others take the default colors from
    the last one to the first, each at most once; when the default colors run
    out, [lookup] raises IndexError. *)
Theorem lookup_all_correct names m ds :
  NoDup names →
  if decide (length (uncolored m names) ≤ length ds)%nat then
    lookup_all names {| colors_map := m; default_colors := ds |} =
      ({| colors_map := final_colors m ds names;
          default_colors := take (length ds - length (uncolored m names)) ds |},
       Ok ((λ n, final_colors m ds names !! n) <$> names)) ∧
    Forall (λ n, is_Some (final_colors m ds names !! n)) names
  else snd (lookup_all names {| colors_map := m; default_colors := ds |}) = Err IndexError.
Proof.
  intros Hnd. revert m ds. induction Hnd as [|name names Hn Hnd IH]; intros m ds.
  { rewrite decide_True by (simpl; lia). unfold final_colors. simpl.
    rewrite map_empty_union, Nat.sub_0_r, take_ge by done. by split; [|constructor]. }
  destruct (m !! name) as [c|] eqn:Hm.
  - assert (uncolored m (name :: names) = uncolored m names) as Hu.
    { unfold uncolored. by rewrite filter_cons_False by (by rewrite Hm). }
    assert (final_colors m ds (name :: names) = final_colors m ds names) as Hf.
    { unfold final_colors. by rewrite Hu. }
    rewrite Hu, Hf. pose proof (final_colors_known m ds names name c Hm) as Hc.
    specialize (IH m ds). cbn [lookup_all]. unfold mbind, eff_bind. 
    rewrite (lookup_known name {| colors_map := m; default_colors := ds |} c Hm).
    case_decide.
    + destruct IH as [-> IH]. split; [by rewrite fmap_cons, Hc|]. constructor; [by rewrite Hc|done].
    + by destruct (lookup_all names _) as [? [|]].
  - assert (length (uncolored m (name :: names)) = S (length (uncolored m names))) as Hu.
    { unfold uncolored. by rewrite filter_cons_True. }
    rewrite Hu. cbn [lookup_all]. unfold mbind, eff_bind.
    destruct ds as [|d ds _] using rev_ind.
    { rewrite decide_False by (cbn [length]; lia). by rewrite lookup_exhausted. }
    rewrite lookup_fresh by done. rewrite length_app. cbn [length].
    specialize (IH (<[name := d]> m) ds). rewrite uncolored_insert in IH by done.
    rewrite final_colors_cons in IH by done.
    assert (final_colors m (ds ++ [d]) (name :: names) !! name = Some d) as Hd.
    { rewrite <-final_colors_cons by done. apply final_colors_known. apply lookup_insert_eq. }
    case_decide as H1; case_decide as H2; try lia.
    + destruct IH as [-> IH]. rewrite fmap_cons, Hd.
      split; [|constructor; [by rewrite Hd|done]].
      replace (length ds + 1 - S (length (uncolored m names)))%nat
        with (length ds - length (uncolored m names))%nat by lia.
      by rewrite take_app_le by lia.
    + by destruct (lookup_all names _) as [? [|]].
Qed.

(** ** Concrete instances *)
Definition demo_ranges : TimelineDataRange :=
  {| dr_name := "state"; ranges :=
    [{| r_start := 0; r_end := 3; r_value := "idle" |};
     {| r_start := 5; r_end := 7; r_value := "tx" |};
     {| r_start := 8; r_end := 9; r_value := "rx" |}] |}.
Definition demo_events : TimelineEvent :=
  {| te_name := "drops"; events := [EventInt 2 7; EventInt 4 7; EventInt 9 1] |}.

Lemma demo_ranges_ok : ranges_ok (ranges demo_ranges).
Proof.
  intros [|[|[|i]]] r; simpl; intros [= <-]; (split; [done|]);
    intros [|[|[|j]]] r'; simpl; intros Hj [= <-]; simpl; lia.
Qed.
Lemma demo_events_ok : events_ok (events demo_events).
Proof.
  intros [|[|[|i]]] [|[|[|j]]] e e'; simpl; intros Hj; try lia; intros [= <-] [= <-]; simpl; lia.
Qed.

Lemma range_search_correct_witness :
  ∃ i, range_search demo_ranges (PInt 6) = Ok i ∧
    (i = -1 ∨ 0 ≤ i ∧ ∃ r, ranges demo_ranges !! Z.to_nat i = Some r ∧ range_contains (PInt 6) r = true) ∧
    (0 ≤ i ↔ ∃ r, r ∈ ranges demo_ranges ∧ range_contains (PInt 6) r = true).
Proof.
  destruct (range_search_correct demo_ranges (PInt 6)) as (i & Hi & Hs & Hok).
  exists i. split; [exact Hi|]. split; [exact Hs|]. exact (Hok demo_ranges_ok).
Defined.

Lemma get_ranges_window_witness :
  get_ranges demo_ranges (PInt 2) (PInt 6) =
    Ok [{| r_start := 0; r_end := 3; r_value := "idle" |};
        {| r_start := 5; r_end := 7; r_value := "tx" |}] ∧
  get_ranges demo_ranges (PInt 4) (PInt 12) = Ok [].
Proof.
  split.
  - destruct (get_ranges_window demo_ranges (PInt 2) (PInt 6) demo_ranges_ok eq_refl) as [H _].
    destruct H as [-> _]; [| |vm_compute; reflexivity].
    + exists {| r_start := 0; r_end := 3; r_value := "idle" |}. split; [by left|reflexivity].
    + exists {| r_start := 5; r_end := 7; r_value := "tx" |}.
      split; [by right; left|reflexivity].
  - apply (get_ranges_window demo_ranges (PInt 4) (PInt 12) demo_ranges_ok eq_refl);
      apply Forall_forall; repeat constructor.
Defined.

Lemma get_events_window_witness :
  get_events demo_events (PInt 3) (PInt 5) = Ok [EventInt 4 7; EventInt 9 1].
Proof.
  rewrite (get_events_window demo_events (PInt 3) (PInt 5) demo_events_ok eq_refl). vm_compute.
  reflexivity.
Defined.

Lemma get_or_create_witness :
  NoDup (t_name <$> [new_timeline "a"]) ∧
  let '(ts', i) := timelines_get "b" [new_timeline "a"] in
  timelines_get "b" ts' = (ts', i).
Proof.
  assert (NoDup (t_name <$> [new_timeline "a"])) as Hnd by by apply (bool_decide_unpack _).
  split; [exact Hnd|].
  pose proof (get_or_create_correct "b" [new_timeline "a"] Hnd) as H.
  exact (proj2 (proj2 (proj2 H))).
Defined.

Definition demo_entries : list entry :=
  [ERange "node-0" "state" "tx" 4 9; EColor "tx" 255 127 0; EEventInt "node-0" "queue" 3 5;
   EEventStr "node-1" "log" "drop" 2; ERange "node-0" "state" "rx" 1 3].

Lemma read_write_entries_witness :
  Forall entry_ok demo_entries ∧
  snd (read_data (of_chars (mjoin (write_entry <$> demo_entries)))) =
    [{| t_name := "node-0";
        t_ranges := [{| dr_name := "state"; ranges :=
          [{| r_start := 1; r_end := 3; r_value := "rx" |};
           {| r_start := 4; r_end := 9; r_value := "tx" |}] |}];
        event_str := []; event_int := [{| te_name := "queue"; events := [EventInt 5 3] |}] |};
     {| t_name := "node-1"; t_ranges := [];
        event_str := [{| te_name := "log"; events := [EventString 2 "drop"] |}];
        event_int := [] |}].
Proof.
  assert (Forall entry_ok demo_entries) as Hok.
  { repeat constructor; try done; by apply (bool_decide_unpack _). }
  split; [exact Hok|]. rewrite (read_write_entries demo_entries Hok). vm_compute. reflexivity.
Defined.

Lemma lookup_all_witness :
  NoDup ["idle"; "tx"] ∧
  snd (lookup_all ["idle"; "tx"] (new_colors class_default_colors)) =
    Ok [Some (rgb 0 1 1); Some (rgb 1 0 1)].
Proof.
  assert (NoDup ["idle"; "tx"]) as Hnd by by apply (bool_decide_unpack _).
  split; [exact Hnd|].
  pose proof (lookup_all_correct ["idle"; "tx"] ∅ class_default_colors Hnd) as [H _].
  unfold new_colors. rewrite H. vm_compute. reflexivity.
Defined.
