(* ===== verification/GridDraw.v ===== *)
(** * Rendering of the grid viewer (src/utils/grid.py, the four renderers)
    TopLegendRenderer, TimelinesRenderer, ScaleRenderer and GraphicRenderer:
    their layouts, as arithmetic on Python numbers, and their drawing, as the
    sequence of calls made on the cairo context.  An attribute that [__init__]
    does not set is an option, and reading it before it is set raises
    AttributeError.  The measure of a text is cairo's: a parameter. *)
From Stdlib Require Import Ascii SpecFloat.
From S2P Require Import Prelude PyStr PyNum GridData.
#[local] Open Scope Z_scope.

(** The six numbers that [text_extents] answers. *)
Record extents := {
  x_bearing : num; y_bearing : num; e_width : num; e_height : num;
  x_advance : num; y_advance : num;
}.

(** ** The calls on a cairo context *)
Inductive cairo_call :=
| C_save
| C_restore
| C_set_operator_source
| C_set_source_rgb (r g b : num)
| C_set_source_surface
| C_set_line_width (w : num)
| C_set_dash (dash : list num) (offset : num)
| C_rectangle (x y w h : num)
| C_move_to (x y : num)
| C_line_to (x y : num)
| C_rel_line_to (x y : num)
| C_close_path
| C_translate (x y : num)
| C_show_text (s : string)
| C_stroke
| C_stroke_preserve
| C_fill
| C_clip
| C_paint.
#[export] Instance cairo_call_eq_dec : EqDecision cairo_call.
Proof. solve_decision. Defined.

Abbreviation trace := (list cairo_call).
Abbreviation ctx_eff := (eff trace exn).

Definition emit (c : cairo_call) : ctx_eff unit := modify (λ tr, tr ++ [c]).
(** Arguments are evaluated from left to right before the call. *)
Section calls.
Context {A B C D : Type} `{ToNum A, ToNum B, ToNum C, ToNum D}.
Definition call1 (f : num → cairo_call) (a : A) : ctx_eff unit :=
  a ← lift_res (to_num a); emit (f a).
Definition call2 (f : num → num → cairo_call) (a : A) (b : B) : ctx_eff unit :=
  a ← lift_res (to_num a); b ← lift_res (to_num b); emit (f a b).
Definition call3 (f : num → num → num → cairo_call) (a : A) (b : B) (c : C) : ctx_eff unit :=
  a ← lift_res (to_num a); b ← lift_res (to_num b); c ← lift_res (to_num c); emit (f a b c).
Definition call4 (f : num → num → num → num → cairo_call) (a : A) (b : B) (c : C) (d : D)
    : ctx_eff unit :=
  a ← lift_res (to_num a); b ← lift_res (to_num b); c ← lift_res (to_num c);
  d ← lift_res (to_num d); emit (f a b c d).
End calls.

(** Reading an attribute of an object. *)
Definition attr {A} (o : option A) : res A :=
  match o with Some a => Ok a | None => Err AttributeError end.

(** The literals of the source. *)
Definition f_1_0 : num := PFloat (S754_finite false 4503599627370496 (-52)).
Definition f_0_9 : num := PFloat (S754_finite false 8106479329266893 (-53)).
Definition rgb_black : ctx_eff unit := call3 C_set_source_rgb (#0) (#0) (#0).
Definition rgb_grey : ctx_eff unit := call3 C_set_source_rgb f_0_9 f_0_9 f_0_9.

#[local] Open Scope num_scope.

Section text.
Context (text_extents : string → extents).
Let t_width (s : string) : num := e_width (text_extents s).
Let t_height (s : string) : num := e_height (text_extents s).
Let t_y_bearing (s : string) : num := y_bearing (text_extents s).

Definition alphabet : string :=
  "ABCDEFGHIJKLMNOPQRSTUVWXYZabcedefghijklmnopqrstuvwxyz0123456789".

(** ** class TopLegendRenderer *)
Record TopLegendRenderer := {
  l_padding : num;
  l_legends : option (list string * list (option Color));
  l_width : option num;
  l_height : option num;
}.
Definition new_top_legend : TopLegendRenderer :=
  {| l_padding := PInt 10; l_legends := None; l_width := None; l_height := None |}.
Definition legend_set_padding (padding : num) (self : TopLegendRenderer) : TopLegendRenderer :=
  {| l_padding := padding; l_legends := l_legends self; l_width := l_width self;
     l_height := l_height self |}.
Definition set_legends (legends : list string) (colors : list (option Color))
    (self : TopLegendRenderer) : TopLegendRenderer :=
  {| l_padding := l_padding self; l_legends := Some (legends, colors); l_width := l_width self;
     l_height := l_height self |}.
Definition legend_set_width (width : num) (self : TopLegendRenderer) : TopLegendRenderer :=
  {| l_padding := l_padding self; l_legends := l_legends self; l_width := Some width;
     l_height := l_height self |}.
Definition legend_set_height (height : num) (self : TopLegendRenderer) : TopLegendRenderer :=
  {| l_padding := l_padding self; l_legends := l_legends self; l_width := l_width self;
     l_height := Some height |}.
Definition legend_get_height (self : TopLegendRenderer) : res num := attr (l_height self).

(** The variables of the two loops over the legends. *)
Record lvars := { line_height : num; total_height : num; line_used : num }.

(** The part of a turn that both loops share: the new variables and [x]. *)
Definition legend_item (self : TopLegendRenderer) (legend : string) (v : lvars)
    : res (lvars * num) :=
  let padding := l_padding self in
  item_width ← padding + padding + t_width legend + padding;
  item_height ← t_height legend + padding;
  let line_height := if ngt item_height (line_height v) then item_height else line_height v in
  used ← line_used v + item_width;
  width ← attr (l_width self);
  v ← (if ngt used width then
         line_used ← padding + item_width;
         total_height ← total_height v + line_height;
         Ok {| line_height := line_height; total_height := total_height; line_used := line_used |}
       else
         Ok {| line_height := line_height; total_height := total_height v; line_used := used |});
  x ← line_used v - item_width;
  Ok (v, x).
Definition lvars0 (self : TopLegendRenderer) : lvars :=
  {| line_height := PInt 0; total_height := l_padding self; line_used := l_padding self |}.

Fixpoint legend_layout_loop (self : TopLegendRenderer) (legends : list string) (v : lvars)
    : res lvars :=
  match legends with
  | [] => Ok v
  | legend :: legends => '(v, x) ← legend_item self legend v; legend_layout_loop self legends v
  end.
Definition legend_layout (width : num) : eff TopLegendRenderer exn unit :=
  _ ← modify (legend_set_width width);
  self ← gets id;
  '(legends, _) ← lift_res (attr (l_legends self));
  v ← lift_res (legend_layout_loop self legends (lvars0 self));
  total ← lift_res (total_height v + line_height v);
  modify (legend_set_height total).

(** One turn of the loop of [draw]; [i] counts the legends. *)
Definition legend_draw_item (self : TopLegendRenderer) (colors : list (option Color))
    (i : nat) (legend : string) (v : lvars) : ctx_eff lvars :=
  '(v, x) ← lift_res (legend_item self legend v);
  _ ← call4 C_rectangle x (total_height v) (l_padding self) (l_padding self);
  _ ← rgb_black;
  _ ← call1 C_set_line_width (#2);
  _ ← emit C_stroke_preserve;
  c ← lift_res (py_index colors (Z.of_nat i));
  color ← lift_res (attr c);
  _ ← call3 C_set_source_rgb (c_r color) (c_g color) (c_b color);
  _ ← emit C_fill;
  _ ← call2 C_move_to (x + l_padding self * #2) (total_height v + t_height legend);
  _ ← rgb_black;
  _ ← emit (C_show_text legend);
  mret v.
Fixpoint legend_draw_loop (self : TopLegendRenderer) (colors : list (option Color))
    (i : nat) (legends : list string) (v : lvars) : ctx_eff lvars :=
  match legends with
  | [] => mret v
  | legend :: legends =>
      v ← legend_draw_item self colors i legend v;
      legend_draw_loop self colors (S i) legends v
  end.
Definition legend_draw (self : TopLegendRenderer) : ctx_eff unit :=
  '(legends, colors) ← lift_res (attr (l_legends self));
  _ ← legend_draw_loop self colors 0 legends (lvars0 self);
  mret ().

(** ** class TimelinesRenderer *)
Record tl_layout := {
  left_width : num; right_width : num; max_text_height : num; tl_width : num; tl_height : num;
}.
Record TimelinesRenderer := {
  tr_padding : num;
  tr_data : option (Timelines * Colors);
  tr_range : option (num * num);
  tr_layout : option tl_layout;
  grey_background : option Z;
}.
Definition new_timelines_renderer : TimelinesRenderer :=
  {| tr_padding := PInt 10; tr_data := None; tr_range := None; tr_layout := None;
     grey_background := None |}.
Definition tr_get_height (self : TimelinesRenderer) : res num :=
  lay ← attr (tr_layout self); Ok (tl_height lay).
Definition set_timelines (timelines : Timelines) (colors : Colors) (self : TimelinesRenderer)
    : TimelinesRenderer :=
  {| tr_padding := tr_padding self; tr_data := Some (timelines, colors);
     tr_range := tr_range self; tr_layout := tr_layout self;
     grey_background := grey_background self |}.
Definition set_render_range (start end_ : num) (self : TimelinesRenderer) : TimelinesRenderer :=
  {| tr_padding := tr_padding self; tr_data := tr_data self; tr_range := Some (start, end_);
     tr_layout := tr_layout self; grey_background := grey_background self |}.
Definition set_layout (lay : tl_layout) (self : TimelinesRenderer) : TimelinesRenderer :=
  {| tr_padding := tr_padding self; tr_data := tr_data self; tr_range := tr_range self;
     tr_layout := Some lay; grey_background := grey_background self |}.
Definition set_grey (g : Z) (self : TimelinesRenderer) : TimelinesRenderer :=
  {| tr_padding := tr_padding self; tr_data := tr_data self; tr_range := tr_range self;
     tr_layout := tr_layout self; grey_background := Some g |}.
Definition set_colors (colors : Colors) (self : TimelinesRenderer) : TimelinesRenderer :=
  {| tr_padding := tr_padding self;
     tr_data := (λ d, (d.1, colors)) <$> tr_data self; tr_range := tr_range self;
     tr_layout := tr_layout self; grey_background := grey_background self |}.
Definition get_data_x_start (self : TimelinesRenderer) : res num :=
  let padding := tr_padding self in
  lay ← attr (tr_layout self);
  padding / #2 + left_width lay + padding + right_width lay + padding / #2.

Definition max_width (names : list string) (w : num) : num :=
  foldl (λ w s, py_max w (t_width s)) w names.
Definition member_names (t : Timeline) : list string :=
  (dr_name <$> t_ranges t) ++ (te_name <$> event_int t) ++ (te_name <$> event_str t).
Definition count {A} (f : Timeline → list A) (ts : Timelines) : Z :=
  foldl (λ n t, (n + Z.of_nat (length (f t)))%Z) 0 ts.
Definition tr_layout_op (width : num) : eff TimelinesRenderer exn unit :=
  self ← gets id;
  let max_text_height := t_height alphabet in
  let padding := tr_padding self in
  '(timelines, _) ← lift_res (attr (tr_data self));
  let left_n_lines := Z.of_nat (length timelines) in
  let left_width := max_width (t_name <$> timelines) (PInt 0) in
  let right_width := foldl (λ w t, max_width (member_names t) w) (PInt 0) timelines in
  let range_n := count t_ranges timelines in
  let eventint_n := count event_int timelines in
  let eventstr_n := count event_str timelines in
  left_height ← lift_res (#left_n_lines * max_text_height + #(left_n_lines - 1) * padding);
  let right_n_lines := (range_n + eventint_n + eventstr_n)%Z in
  right_height ← lift_res (#(right_n_lines - 1) * padding + #right_n_lines * max_text_height);
  right_data_height ←
    lift_res (#(eventint_n + eventstr_n) * (max_text_height + #5) + #range_n * #10);
  right_data_height ← lift_res (right_data_height + #(right_n_lines - 1) * padding);
  let height := py_max left_height right_height in
  let height := py_max height right_data_height in
  height ← lift_res (height + padding);
  modify (set_layout {| left_width := left_width; right_width := right_width;
    max_text_height := max_text_height; tl_width := width; tl_height := height |}).

Definition draw_line {A B C D} `{ToNum A, ToNum B, ToNum C, ToNum D}
    (x : A) (y : B) (width : C) (height : D) : ctx_eff unit :=
  x ← lift_res (to_num x); y ← lift_res (to_num y);
  width ← lift_res (to_num width); height ← lift_res (to_num height);
  _ ← call2 C_move_to x y;
  _ ← call2 C_rel_line_to width height;
  _ ← emit C_close_path;
  _ ← emit C_set_operator_source;
  _ ← call1 C_set_line_width f_1_0;
  _ ← rgb_black;
  emit C_stroke.

(** The grey background of every other row. *)
Definition draw_background (self : TimelinesRenderer) (x y width height : num) : ctx_eff unit :=
  let padding := tr_padding self in
  grey ← lift_res (attr (grey_background self));
  if (grey mod 2 =? 0)%Z then
    _ ← call4 C_rectangle x (y - padding / #2) width (height + padding);
    _ ← rgb_grey;
    emit C_fill
  else mret ().

Definition str_value (e : Event) : string :=
  match e with
  | EventString _ v => v
  | EventInt _ v => pretty v
  end.
(** The dot and the value of one event. *)
Definition draw_event (self : TimelinesRenderer) (real_x : Z) (y : num) (value : string)
    : ctx_eff unit :=
  _ ← call4 C_rectangle (#real_x) y (#1) (#1);
  _ ← call3 C_set_source_rgb (#1) (#0) (#0);
  _ ← emit C_stroke;
  lay ← lift_res (attr (tr_layout self));
  _ ← call2 C_move_to (#real_x) (y + max_text_height lay);
  _ ← rgb_black;
  emit (C_show_text value).
(** The loop of [draw_events]. *)
Fixpoint draw_events_loop (self : TimelinesRenderer) (start end_ x y width : num) (last_x_drawn : Z)
    (es : list Event) : ctx_eff unit :=
  match es with
  | [] => mret ()
  | event :: es =>
      p ← lift_res (x + (PInt (ev_at event) - start) * width / (end_ - start));
      real_x ← lift_res (py_int p);
      last_x_drawn ←
        (if (real_x >? last_x_drawn + 2)%Z then
           _ ← draw_event self real_x y (str_value event);
           mret real_x
         else mret last_x_drawn);
      draw_events_loop self start end_ x y width last_x_drawn es
  end.

Abbreviation draw_eff := (eff (TimelinesRenderer * trace) exn).
Definition next_grey : draw_eff unit :=
  self ← gets fst;
  grey ← lift_res (attr (grey_background self));
  zoom_fst (modify (set_grey (grey + 1)%Z)).
Definition draw_events (evs : TimelineEvent) (x y width height : num) : draw_eff unit :=
  self ← gets fst;
  _ ← zoom_snd (draw_background self x y width height);
  last_x_drawn ← lift_res (py_int x);
  '(start, end_) ← lift_res (attr (tr_range self));
  '(lo, hi) ← lift_res (get_events_bounds evs start end_);
  _ ← zoom_snd (draw_events_loop self start end_ x y width last_x_drawn
        (slice (events evs) lo hi));
  next_grey.

(** [self.colors.lookup(name)] and the attributes of the color. *)
Definition tr_lookup (name : string) : eff TimelinesRenderer exn Color :=
  self ← gets id;
  d ← lift_res (attr (tr_data self));
  let '(colors, r) := lookup_color name d.2 in
  _ ← modify (set_colors colors);
  c ← lift_res r;
  lift_res (attr c).
Fixpoint draw_ranges_loop (start end_ x y width : num) (last_x_drawn : Z)
    (rs : list DataRange) : draw_eff unit :=
  match rs with
  | [] => mret ()
  | r :: rs =>
      let s := py_max (PInt (r_start r)) start in
      let e := py_min (PInt (r_end r)) end_ in
      p ← lift_res (x + (s - start) * width / (end_ - start));
      x_start ← lift_res (py_int p);
      q ← lift_res (x + (e - start) * width / (end_ - start));
      x_end ← lift_res (py_int q);
      last_x_drawn ←
        (if (x_end >? last_x_drawn)%Z then
           _ ← zoom_snd (call4 C_rectangle (#x_start) y (#(x_end - x_start)) (#10));
           _ ← zoom_snd rgb_black;
           _ ← zoom_snd (emit C_stroke_preserve);
           color ← zoom_fst (tr_lookup (r_value r));
           _ ← zoom_snd (call3 C_set_source_rgb (c_r color) (c_g color) (c_b color));
           _ ← zoom_snd (emit C_fill);
           mret x_end
         else mret last_x_drawn);
      draw_ranges_loop start end_ x y width last_x_drawn rs
  end.
Definition draw_ranges (rgs : TimelineDataRange) (x y width height : num) : draw_eff unit :=
  self ← gets fst;
  _ ← zoom_snd (draw_background self x y width height);
  p ← lift_res (x - #1);
  last_x_drawn ← lift_res (py_int p);
  '(start, end_) ← lift_res (attr (tr_range self));
  '(lo, hi) ← lift_res (get_ranges_bounds rgs start end_);
  _ ← draw_ranges_loop start end_ x y width last_x_drawn (slice (ranges rgs) lo hi);
  next_grey.

Definition show_name (name : string) (x cur_y max_text_height : num) : ctx_eff unit :=
  _ ← call2 C_move_to x (cur_y + max_text_height - (t_height name + t_y_bearing name));
  emit (C_show_text name).

(** The geometry that [draw] computes first. *)
Record columns := {
  right_x_start : num; col_right_width : num; data_x_start : num; data_width : num;
  col_text_height : num; col_width : num;
}.
(** The line below a row of the right column. *)
Definition row_line (self : TimelinesRenderer) (c : columns) (cur_y : num) : ctx_eff unit :=
  let padding := tr_padding self in
  draw_line (right_x_start c - padding / #2) (cur_y - padding / #2)
            (col_right_width c + padding) (#0).
Fixpoint draw_event_rows (c : columns) (l : list TimelineEvent) (cur_y : num) : draw_eff num :=
  match l with
  | [] => mret cur_y
  | es :: l =>
      let mth := col_text_height c in
      self ← gets fst;
      _ ← zoom_snd (show_name (te_name es) (right_x_start c) cur_y mth);
      height ← lift_res (mth + #5);
      _ ← draw_events es (data_x_start c) cur_y (data_width c) height;
      cur_y ← lift_res (cur_y + (mth + #5 + tr_padding self));
      _ ← zoom_snd (row_line self c cur_y);
      draw_event_rows c l cur_y
  end.
Fixpoint draw_range_rows (c : columns) (l : list TimelineDataRange) (cur_y : num)
    : draw_eff num :=
  match l with
  | [] => mret cur_y
  | rs :: l =>
      let mth := col_text_height c in
      self ← gets fst;
      _ ← zoom_snd (show_name (dr_name rs) (right_x_start c) cur_y mth);
      _ ← draw_ranges rs (data_x_start c) cur_y (data_width c) (#10);
      cur_y ← lift_res (cur_y + (mth + tr_padding self));
      _ ← zoom_snd (row_line self c cur_y);
      draw_range_rows c l cur_y
  end.
Fixpoint draw_timelines (c : columns) (left_x_start : num) (ts : Timelines) (cur_y : num)
    : draw_eff num :=
  match ts with
  | [] => mret cur_y
  | t :: ts =>
      self ← gets fst;
      _ ← zoom_snd (show_name (t_name t) left_x_start cur_y (col_text_height c));
      cur_y ← draw_event_rows c (event_int t) cur_y;
      cur_y ← draw_event_rows c (event_str t) cur_y;
      cur_y ← draw_range_rows c (t_ranges t) cur_y;
      _ ← zoom_snd (draw_line (#0) (cur_y - tr_padding self / #2) (col_width c) (#0));
      draw_timelines c left_x_start ts cur_y
  end.
Definition tr_draw : draw_eff unit :=
  self ← gets fst;
  let padding := tr_padding self in
  top_y ← lift_res (padding / #2);
  left_x_start ← lift_res (padding / #2);
  lay ← lift_res (attr (tr_layout self));
  left_x_end ← lift_res (left_x_start + left_width lay);
  right_x_start ← lift_res (left_x_end + padding);
  right_x_end ← lift_res (right_x_start + right_width lay);
  data_x_start ← lift_res (right_x_end + padding / #2);
  data_width ← lift_res (tl_width lay - data_x_start);
  _ ← zoom_snd (draw_line (#0) (#0) (tl_width lay) (#0));
  _ ← zoom_fst (modify (set_grey 1));
  d ← lift_res (attr (tr_data self));
  let c := {| right_x_start := right_x_start; col_right_width := right_width lay;
              data_x_start := data_x_start; data_width := data_width;
              col_text_height := max_text_height lay; col_width := tl_width lay |} in
  cur_y ← draw_timelines c left_x_start d.1 top_y;
  bot_y ← lift_res (cur_y - padding / #2);
  _ ← zoom_snd (draw_line (left_x_end + padding / #2) (#0) (#0) bot_y);
  zoom_snd (draw_line (right_x_end + padding / #2) (#0) (#0) bot_y).

(** ** class ScaleRenderer *)
Record sc_layout := { sc_delta : Z; sc_width : num; sc_text_height : num; sc_height : num }.
Record ScaleRenderer := {
  sc_top : bool;
  sc_bounds : option (num * num);
  sc_lay : option sc_layout;
}.
Definition new_scale : ScaleRenderer := {| sc_top := false; sc_bounds := None; sc_lay := None |}.
Definition set_bounds (lo hi : num) (self : ScaleRenderer) : ScaleRenderer :=
  {| sc_top := sc_top self; sc_bounds := Some (lo, hi); sc_lay := sc_lay self |}.
Definition set_top (self : ScaleRenderer) : ScaleRenderer :=
  {| sc_top := true; sc_bounds := sc_bounds self; sc_lay := sc_lay self |}.
Definition set_bot (self : ScaleRenderer) : ScaleRenderer :=
  {| sc_top := false; sc_bounds := sc_bounds self; sc_lay := sc_lay self |}.
Definition get_position (self : ScaleRenderer) (x : num) : res num :=
  '(lo, hi) ← attr (sc_bounds self);
  lay ← attr (sc_lay self);
  (x - lo) * sc_width lay / (hi - lo).

(** The loop [while (closest*10) < data_delta: closest *= 10]. *)
Fixpoint closest_loop (fuel : nat) (data_delta : num) (closest : Z) : option Z :=
  match fuel with
  | O => None
  | S fuel =>
      if nlt (PInt (closest * 10)) data_delta then closest_loop fuel data_delta (closest * 10)
      else Some closest
  end.
(** One turn more than there are binary digits before the point. *)
Definition closest_fuel (data_delta : num) : nat :=
  match num_val data_delta with
  | Fin m e => S (Z.to_nat (Z.log2 m + Z.max 0 e + 1))
  | _ => 1
  end.
Definition scale_delta (data_delta : num) (closest : Z) : res Z :=
  q ← num_div data_delta (PInt closest);
  if neqb q (PInt 0) then Ok closest
  else
    q ← num_div data_delta (PInt closest);
    Ok (if neqb q (PInt 1) then (closest / 10)%Z else closest).
Definition scale_layout (width : num) : eff ScaleRenderer exn unit :=
  self ← gets id;
  '(lo, hi) ← lift_res (attr (sc_bounds self));
  data_delta ← lift_res (hi - lo);
  closest ← lift_res (match closest_loop (closest_fuel data_delta) data_delta 1 with
                      | Some c => Ok c | None => Err Diverges end);
  delta ← lift_res (scale_delta data_delta closest);
  start ← lift_res (lo - lo mod #delta + #delta);
  end_ ← lift_res (hi - hi mod #delta);
  height ← lift_res (t_height alphabet + #10);
  modify (λ self, {| sc_top := sc_top self; sc_bounds := sc_bounds self;
    sc_lay := Some {| sc_delta := delta; sc_width := width;
                      sc_text_height := t_height alphabet; sc_height := height |} |}).
Definition scale_get_height (self : ScaleRenderer) : res num :=
  lay ← attr (sc_lay self); Ok (sc_height lay).

(** The positions of the ticks for a step. *)
Definition tick_range (lo hi : num) (delta : Z) : res (list Z) :=
  start ← lo - lo mod #delta + #delta;
  end_ ← hi - hi mod #delta;
  a ← py_int start;
  last ← end_ + #delta;
  b ← py_int last;
  py_range a b delta.
Definition sign (self : ScaleRenderer) : Z := if sc_top self then (-1)%Z else 1%Z.
Definition draw_tick_line (self : ScaleRenderer) (x : Z) (len : Z) : ctx_eff num :=
  '(lo, hi) ← lift_res (attr (sc_bounds self));
  lay ← lift_res (attr (sc_lay self));
  real_x ← lift_res ((#x - lo) * sc_width lay / (hi - lo));
  _ ← call2 C_move_to real_x (#0);
  _ ← call2 C_line_to real_x (#(len * sign self));
  _ ← emit C_close_path;
  _ ← emit C_stroke;
  mret real_x.
Definition draw_tick (self : ScaleRenderer) (x : Z) : ctx_eff unit :=
  real_x ← draw_tick_line self x 5;
  let text : string := pretty x in
  text_delta ← lift_res (if sc_top self then t_height text + t_y_bearing text
                         else Ok (num_neg (t_y_bearing text)));
  _ ← call2 C_move_to (real_x - t_width text / #2) ((#(5 + 5) + text_delta) * #(sign self));
  emit (C_show_text text).
Definition draw_subtick (self : ScaleRenderer) (x : Z) : ctx_eff unit :=
  _ ← draw_tick_line self x 3; mret ().
Definition scale_draw (self : ScaleRenderer) : ctx_eff unit :=
  lay ← lift_res (attr (sc_lay self));
  '(lo, hi) ← lift_res (attr (sc_bounds self));
  let delta := sc_delta lay in
  start ← lift_res (lo - lo mod #delta + #delta);
  end_ ← lift_res (hi - hi mod #delta);
  _ ← rgb_black;
  _ ← call1 C_set_line_width f_1_0;
  ticks ← lift_res (tick_range lo hi delta);
  _ ← for_each (draw_tick self) ticks;
  let delta := (delta / 10)%Z in
  if (delta >? 0)%Z then
    ticks ← lift_res (tick_range lo hi delta);
    for_each (draw_subtick self) ticks
  else mret ().

(** ** class GraphicRenderer *)
Record GraphicRenderer := {
  g_start : num; g_end : num;
  g_mid_scale : ScaleRenderer;
  g_bot_scale : ScaleRenderer;
  g_width : num; g_height : num;
  g_range : option (num * num);
  g_data : option TimelinesRenderer;
  g_top_legend : option TopLegendRenderer;
}.
Definition new_graphic (start end_ : num) : res GraphicRenderer :=
  s ← py_float start;
  e ← py_float end_;
  Ok {| g_start := s; g_end := e; g_mid_scale := set_top new_scale;
        g_bot_scale := set_bot (set_bounds start end_ new_scale);
        g_width := #1; g_height := #1; g_range := None; g_data := None; g_top_legend := None |}.

(** Changes of one attribute. *)
Definition put_mid (x : ScaleRenderer) (g : GraphicRenderer) : GraphicRenderer :=
  {| g_start := g_start g; g_end := g_end g; g_mid_scale := x; g_bot_scale := g_bot_scale g;
     g_width := g_width g; g_height := g_height g; g_range := g_range g; g_data := g_data g;
     g_top_legend := g_top_legend g |}.
Definition put_bot (x : ScaleRenderer) (g : GraphicRenderer) : GraphicRenderer :=
  {| g_start := g_start g; g_end := g_end g; g_mid_scale := g_mid_scale g; g_bot_scale := x;
     g_width := g_width g; g_height := g_height g; g_range := g_range g; g_data := g_data g;
     g_top_legend := g_top_legend g |}.
Definition put_size (w h : num) (g : GraphicRenderer) : GraphicRenderer :=
  {| g_start := g_start g; g_end := g_end g; g_mid_scale := g_mid_scale g;
     g_bot_scale := g_bot_scale g; g_width := w; g_height := h; g_range := g_range g;
     g_data := g_data g; g_top_legend := g_top_legend g |}.
Definition put_range (r : num * num) (g : GraphicRenderer) : GraphicRenderer :=
  {| g_start := g_start g; g_end := g_end g; g_mid_scale := g_mid_scale g;
     g_bot_scale := g_bot_scale g; g_width := g_width g; g_height := g_height g;
     g_range := Some r; g_data := g_data g; g_top_legend := g_top_legend g |}.
Definition set_data (data : TimelinesRenderer) (g : GraphicRenderer) : GraphicRenderer :=
  {| g_start := g_start g; g_end := g_end g; g_mid_scale := g_mid_scale g;
     g_bot_scale := g_bot_scale g; g_width := g_width g; g_height := g_height g;
     g_range := g_range g; g_data := Some data; g_top_legend := g_top_legend g |}.
Definition set_top_legend (l : TopLegendRenderer) (g : GraphicRenderer) : GraphicRenderer :=
  {| g_start := g_start g; g_end := g_end g; g_mid_scale := g_mid_scale g;
     g_bot_scale := g_bot_scale g; g_width := g_width g; g_height := g_height g;
     g_range := g_range g; g_data := g_data g; g_top_legend := Some l |}.

Abbreviation g_eff := (eff GraphicRenderer exn).
(** Methods of the objects that the attributes hold. *)
Definition on_data {A} (m : eff TimelinesRenderer exn A) : g_eff A := λ g,
  match g_data g with
  | Some d => let '(d, r) := m d in (set_data d g, r)
  | None => (g, Err AttributeError)
  end.
Definition on_legend {A} (m : eff TopLegendRenderer exn A) : g_eff A := λ g,
  match g_top_legend g with
  | Some l => let '(l, r) := m l in (set_top_legend l g, r)
  | None => (g, Err AttributeError)
  end.
Definition on_mid {A} (m : eff ScaleRenderer exn A) : g_eff A := zoom g_mid_scale put_mid m.
Definition on_bot {A} (m : eff ScaleRenderer exn A) : g_eff A := zoom g_bot_scale put_bot m.
(** What the attributes' methods answer without a change. *)
Definition g_data_x_start (g : GraphicRenderer) : res num :=
  d ← attr (g_data g); get_data_x_start d.
Definition g_data_height (g : GraphicRenderer) : res num := d ← attr (g_data g); tr_get_height d.
Definition g_legend_height (g : GraphicRenderer) : res num :=
  l ← attr (g_top_legend g); legend_get_height l.

Definition get_data_rectangle (g : GraphicRenderer) : res (num * num * num * num) :=
  y_start ← g_legend_height g;
  x_start ← g_data_x_start g;
  w ← g_width g - x_start;
  h ← g_data_height g;
  Ok (x_start, y_start, w, h).
Definition scale_data (g : GraphicRenderer) (x : num) : res num :=
  x_start ← g_data_x_start g;
  q ← x / (g_width g - x_start);
  r ← attr (g_range g);
  q * (r.2 - r.1).
Definition get_selection_rectangle (g : GraphicRenderer) : res (num * num * num * num) :=
  y_start ← g_legend_height g + g_data_height g + scale_get_height (g_mid_scale g) + #20;
  y_height ← scale_get_height (g_bot_scale g) + #20;
  r ← attr (g_range g);
  x_start ← get_position (g_bot_scale g) r.1;
  x_end ← get_position (g_bot_scale g) r.2;
  w ← x_end - x_start;
  Ok (x_start, y_start, w, y_height).
Definition scale_selection (g : GraphicRenderer) (x : num) : res num :=
  x / g_width g * (g_end g - g_start g).
Definition x_pixel (g : GraphicRenderer) (x width : num) : res num :=
  (x - g_start g) * width / (g_end g - g_start g).
Definition g_layout (width height : num) : g_eff unit :=
  _ ← modify (put_size width height);
  _ ← on_legend (legend_layout width);
  g ← gets id;
  _ ← lift_res (g_legend_height g);
  _ ← on_data (tr_layout_op width);
  g ← gets id;
  w ← lift_res (width - g_data_x_start g);
  _ ← on_mid (scale_layout w);
  on_bot (scale_layout width).
Definition set_range (start end_ : num) : g_eff unit :=
  g ← gets id;
  let s := py_min start end_ in
  let e := py_max start end_ in
  let start := py_max (g_start g) s in
  let end_ := py_min (g_end g) e in
  _ ← modify (put_range (start, end_));
  _ ← on_data (modify (set_render_range start end_));
  _ ← on_mid (modify (set_bounds start end_));
  g_layout (g_width g) (g_height g).
Definition get_range (g : GraphicRenderer) : res (num * num) := attr (g_range g).

(** ** GraphicRenderer.draw *)
Definition black_stroke (w : Z) : ctx_eff unit :=
  _ ← call1 C_set_line_width (#w); _ ← rgb_black; emit C_stroke.
Definition outline_then_grey : ctx_eff unit :=
  _ ← rgb_black; _ ← call1 C_set_line_width (#1); _ ← emit C_stroke_preserve;
  _ ← rgb_grey; emit C_fill.

Abbreviation gd_eff := (eff (GraphicRenderer * trace) exn).
Definition draw_data : gd_eff unit := λ s,
  match g_data s.1 with
  | Some d => let '((d, tr), r) := tr_draw (d, s.2) in ((set_data d s.1, tr), r)
  | None => (s, Err AttributeError)
  end.

Definition draw_clear (g : GraphicRenderer) : ctx_eff unit :=
  _ ← emit C_save;
  _ ← call3 C_set_source_rgb (#1) (#1) (#1);
  _ ← emit C_set_operator_source;
  _ ← call4 C_rectangle (#0) (#0) (g_width g) (g_height g);
  emit C_fill.
Definition draw_top_legend (g : GraphicRenderer) : ctx_eff num :=
  _ ← emit C_save;
  l ← lift_res (attr (g_top_legend g));
  _ ← legend_draw l;
  h ← lift_res (legend_get_height l);
  _ ← emit C_restore;
  _ ← call2 C_move_to (#0) h;
  _ ← call2 C_line_to (g_width g) h;
  _ ← emit C_close_path;
  _ ← black_stroke 2;
  mret h.
Definition draw_mid_scale (g : GraphicRenderer) (top_legend_height : num) : ctx_eff num :=
  _ ← emit C_save;
  _ ← call2 C_translate (g_data_x_start g)
        (top_legend_height + g_data_height g + scale_get_height (g_mid_scale g));
  _ ← scale_draw (g_mid_scale g);
  _ ← emit C_restore;
  height_used ← lift_res (top_legend_height + g_data_height g + scale_get_height (g_mid_scale g));
  _ ← call2 C_move_to (g_data_x_start g) height_used;
  mid ← lift_res (scale_get_height (g_mid_scale g));
  _ ← call2 C_rel_line_to (#0) (num_neg mid);
  _ ← emit C_close_path;
  _ ← rgb_black;
  _ ← call1 C_set_line_width (#2);
  _ ← emit C_stroke;
  _ ← call2 C_move_to (#0) height_used;
  _ ← call2 C_line_to (g_width g) height_used;
  _ ← emit C_close_path;
  _ ← black_stroke 2;
  mret height_used.
Definition draw_connections (g : GraphicRenderer) (height_used : num) : ctx_eff unit :=
  r ← lift_res (attr (g_range g));
  select_start ← lift_res (get_position (g_bot_scale g) r.1);
  select_end ← lift_res (get_position (g_bot_scale g) r.2);
  _ ← call2 C_move_to (#0) height_used;
  _ ← call2 C_line_to (g_data_x_start g) height_used;
  _ ← call2 C_line_to select_start (height_used + #20);
  _ ← call2 C_line_to (#0) (height_used + #20);
  _ ← call2 C_line_to (#0) height_used;
  _ ← outline_then_grey;
  _ ← call2 C_move_to (g_width g) height_used;
  _ ← call2 C_line_to (g_width g) (height_used + #20);
  _ ← call2 C_line_to select_end (height_used + #20);
  _ ← call2 C_line_to (g_width g) height_used;
  outline_then_grey.
Definition draw_unused (g : GraphicRenderer) (height_used : num) : ctx_eff unit :=
  r ← lift_res (attr (g_range g));
  unused_start ← lift_res (get_position (g_bot_scale g) r.1);
  unused_end ← lift_res (get_position (g_bot_scale g) r.2);
  unused_height ← lift_res (scale_get_height (g_bot_scale g) + #20);
  _ ← call4 C_rectangle (#0) height_used unused_start unused_height;
  _ ← call4 C_rectangle unused_end height_used (g_width g - unused_end) unused_height;
  _ ← rgb_grey;
  _ ← emit C_fill;
  _ ← call2 C_move_to unused_end height_used;
  _ ← call2 C_line_to (g_width g) height_used;
  _ ← call2 C_line_to (g_width g) (height_used + unused_height);
  _ ← call2 C_line_to (#0) (height_used + unused_height);
  _ ← call2 C_line_to (#0) height_used;
  _ ← call2 C_line_to unused_start height_used;
  _ ← emit C_close_path;
  _ ← black_stroke 2;
  _ ← call2 C_move_to unused_start height_used;
  _ ← call2 C_line_to unused_end height_used;
  _ ← emit C_close_path;
  _ ← call1 C_set_line_width (#1);
  _ ← rgb_grey;
  _ ← emit C_stroke;
  _ ← emit C_save;
  _ ← call2 C_move_to (py_max unused_start (#2)) height_used;
  _ ← call2 C_rel_line_to (#0) unused_height;
  edge ← lift_res (g_width g - #2);
  _ ← call2 C_move_to (py_min unused_end edge) height_used;
  _ ← call2 C_rel_line_to (#0) unused_height;
  _ ← emit (C_set_dash [ #5 ] (#0));
  _ ← rgb_black;
  _ ← call1 C_set_line_width (#1);
  _ ← emit C_stroke;
  emit C_restore.
Definition g_draw : gd_eff unit :=
  g ← gets fst;
  _ ← zoom_snd (draw_clear g);
  top_legend_height ← zoom_snd (draw_top_legend g);
  _ ← zoom_snd (emit C_save);
  _ ← zoom_snd (call2 C_translate (#0) top_legend_height);
  _ ← draw_data;
  _ ← zoom_snd (emit C_restore);
  g ← gets fst;
  height_used ← zoom_snd (draw_mid_scale g top_legend_height);
  _ ← zoom_snd (draw_connections g height_used);
  height_used ← lift_res (height_used + #20);
  _ ← zoom_snd (draw_unused g height_used);
  _ ← zoom_snd (emit C_save);
  _ ← zoom_snd (call2 C_translate (#0) height_used);
  _ ← zoom_snd (scale_draw (g_bot_scale g));
  zoom_snd (emit C_restore).
End text.

#[local] Close Scope num_scope.

(** ** The scale: the loop for the power of ten *)
Lemma num_lt_bound (dd : num) (z : Z) :
  0 < z → nlt (PInt z) dd = true → is_finite dd = true →
  z < 2 ^ (Z.of_nat (closest_fuel dd) - 1).
Proof.
  unfold nlt, num_cmp, is_finite, closest_fuel. simpl num_val.
  destruct (num_val dd) as [|[]|m e]; try done. intros Hz H _.
  destruct (z * 2 ^ (0 - Z.min 0 e) ?= m * 2 ^ (e - Z.min 0 e)) eqn:Hc; try done.
  rewrite Z.compare_lt_iff in Hc.
  assert (0 < m) as Hm.
  { assert (0 < 2 ^ (0 - Z.min 0 e)) by (apply Z.pow_pos_nonneg; lia).
    assert (0 < 2 ^ (e - Z.min 0 e)) by (apply Z.pow_pos_nonneg; lia).
    assert (0 < z * 2 ^ (0 - Z.min 0 e)) by (by apply Z.mul_pos_pos).
    destruct (Z.le_gt_cases m 0); [|done].
    assert (m * 2 ^ (e - Z.min 0 e) ≤ 0) by (apply Z.mul_nonpos_nonneg; lia). lia. }
  pose proof (Z.log2_spec m Hm) as [_ Hlog]. pose proof (Z.log2_nonneg m).
  replace (Z.of_nat (S (Z.to_nat (Z.log2 m + Z.max 0 e + 1))) - 1)
    with (Z.succ (Z.log2 m) + Z.max 0 e) by lia.
  rewrite Z.pow_add_r by lia.
  assert (m * 2 ^ Z.max 0 e < 2 ^ Z.succ (Z.log2 m) * 2 ^ Z.max 0 e) as H1.
  { apply Z.mul_lt_mono_pos_r; [apply Z.pow_pos_nonneg; lia|done]. }
  destruct (Z.le_gt_cases 0 e) as [He|He].
  - rewrite (Z.min_l 0 e), Z.max_r in * by done. rewrite !Z.sub_0_r, Z.mul_1_r in Hc. lia.
  - rewrite (Z.min_r 0 e), (Z.max_l 0 e) in * by lia.
    rewrite Z.sub_diag, Z.pow_0_r, Z.mul_1_r in Hc. rewrite Z.pow_0_r, Z.mul_1_r in H1.
    assert (1 ≤ 2 ^ (0 - e)) by (pose proof (Z.pow_pos_nonneg 2 (0 - e)); lia). nia.
Qed.

Lemma closest_fuel_pos dd : (0 < closest_fuel dd)%nat.
Proof. unfold closest_fuel. destruct (num_val dd); lia. Qed.

Lemma closest_loop_spec dd k fuel :
  0 ≤ k → is_finite dd = true → Z.of_nat (closest_fuel dd) - 1 ≤ k + Z.of_nat fuel - 1 →
  (0 < k → nlt (PInt (10 ^ k)) dd = true) →
  (0 < fuel)%nat →
  ∃ j, k ≤ j ∧ closest_loop fuel dd (10 ^ k) = Some (10 ^ j) ∧
    nlt (PInt (10 ^ (j + 1))) dd = false ∧ (0 < j → nlt (PInt (10 ^ j)) dd = true).
Proof.
  revert k. induction fuel as [|fuel IH]; intros k Hk Hfin Hfuel Hlt Hpos; [lia|]. simpl.
  replace (10 ^ k * 10) with (10 ^ (k + 1)) by (rewrite Z.pow_add_r by lia; lia).
  destruct (nlt (PInt (10 ^ (k + 1))) dd) eqn:E; [|exists k; auto with lia].
  assert (10 ^ (k + 1) < 2 ^ (Z.of_nat (closest_fuel dd) - 1)) as Hb.
  { apply num_lt_bound; [apply Z.pow_pos_nonneg; lia|done..]. }
  assert (2 ^ (k + 1) ≤ 10 ^ (k + 1)) as H2 by (apply Z.pow_le_mono_l; lia).
  assert (k + 1 < Z.of_nat (closest_fuel dd) - 1).
  { pose proof (closest_fuel_pos dd). apply (Z.pow_lt_mono_r_iff 2); lia. }
  destruct (IH (k + 1)) as (j & Hj & Hl & H3); [lia|done|lia|done|lia|].
  exists j. split; [lia|done].
Qed.

(** C12: the loop of [ScaleRenderer.layout] ends for every width of the scale
    that is a number, with the fuel it is given: it finds the power of ten with
    [closest < data_delta <= 10 * closest], or 1 if there is none smaller. *)
Theorem closest_terminates dd :
  is_finite dd = true →
  ∃ k, 0 ≤ k ∧ closest_loop (closest_fuel dd) dd 1 = Some (10 ^ k) ∧
    nlt (PInt (10 ^ (k + 1))) dd = false ∧ (0 < k → nlt (PInt (10 ^ k)) dd = true).
Proof.
  intros Hfin. apply (closest_loop_spec dd 0); [done|done|lia|lia|apply closest_fuel_pos].
Qed.

(** ** The scale of integer bounds *)
Definition int_delta (span : Z) : Z :=
  match closest_loop (closest_fuel (PInt span)) (PInt span) 1 with
  | Some c => if span / c =? 0 then c else if span / c =? 1 then c / 10 else c
  | None => 0
  end.

Lemma int_closest span : 0 < span →
  ∃ c k, 0 ≤ k ∧ c = 10 ^ k ∧ closest_loop (closest_fuel (PInt span)) (PInt span) 1 = Some c ∧
    1 ≤ c ∧ span ≤ 10 * c ∧ (0 < k → c < span).
Proof.
  intros Hspan. destruct (closest_loop_spec (PInt span) 0 (closest_fuel (PInt span)))
    as (k & Hk & Hc & H1 & H2); [done|done|lia|lia|apply closest_fuel_pos|].
  exists (10 ^ k), k. split; [done|]. split; [done|]. split; [done|].
  autorewrite with py in H1. apply Z.ltb_ge in H1.
  rewrite Z.pow_add_r in H1 by lia. pose proof (Z.pow_pos_nonneg 10 k). split; [lia|].
  split; [lia|]. intros Hk0. specialize (H2 Hk0). autorewrite with py in H2. by apply Z.ltb_lt.
Qed.

Lemma neqb_int x y : neqb (PInt x) (PInt y) = (x =? y).
Proof.
  unfold neqb, num_cmp. simpl. rewrite !Z.mul_1_r. unfold Z.eqb.
  destruct (Z.compare_spec x y); destruct x, y; simplify_eq; try done;
    symmetry; try (apply Pos.eqb_refl); apply Pos.eqb_neq; intros ->; lia.
Qed.

Lemma scale_delta_int span c :
  1 ≤ c →
  scale_delta (PInt span) c =
    Ok (if span / c =? 0 then c else if span / c =? 1 then c / 10 else c).
Proof.
  intros Hc. unfold scale_delta, num_div. rewrite (proj2 (Z.eqb_neq c 0)) by lia. simpl.
  rewrite !neqb_int. by repeat case_match.
Qed.

(** The step of the ticks is positive unless the scale is one unit wide; a
    scale has at most twenty of them. *)
Lemma int_delta_spec span :
  0 < span →
  ∃ c d, closest_loop (closest_fuel (PInt span)) (PInt span) 1 = Some c ∧ 1 ≤ c ∧
    scale_delta (PInt span) c = Ok d ∧
    (span = 1 → d = 0) ∧ (span ≠ 1 → 0 < d ∧ span ≤ 20 * d).
Proof.
  intros Hspan. destruct (int_closest span Hspan) as (c & k & Hk & -> & Hl & Hc & Hle & Hgt).
  eexists (10 ^ k), _. split; [done|]. split; [done|]. split; [by apply scale_delta_int|].
  assert (k = 0 ∨ 0 < k) as [->|Hk'] by lia.
  - rewrite Z.pow_0_r, Z.div_1_r in *. rewrite (proj2 (Z.eqb_neq span 0)) by lia.
    destruct (Z.eqb_spec span 1); split; intros; try done; lia.
  - specialize (Hgt Hk'). split; [lia|]. intros _.
    assert (1 ≤ span / 10 ^ k) by (apply Z.div_le_lower_bound; lia).
    rewrite (proj2 (Z.eqb_neq (span / 10 ^ k) 0)) by lia.
    destruct (Z.eqb_spec (span / 10 ^ k) 1) as [H1|_]; [|lia].
    assert (10 ^ k = 10 ^ (k - 1) * 10) as Hp.
    { replace k with (k - 1 + 1) at 1 by lia. rewrite Z.pow_add_r by lia. lia. }
    pose proof (Z.mod_pos_bound span (10 ^ k)). pose proof (Z.div_mod span (10 ^ k)).
    rewrite Hp at 1 2. rewrite Z.div_mul by lia. pose proof (Z.pow_pos_nonneg 10 (k - 1)).
    lia.
Qed.

Lemma py_range_multiples a b d :
  0 < d → a ≤ b → py_range (d * a) (d * b) d = Ok ((λ i, d * a + i * d) <$> seqZ 0 (b - a)).
Proof.
  intros Hd Hab. unfold py_range. rewrite (proj2 (Z.eqb_neq d 0)) by lia.
  rewrite (proj2 (Z.ltb_lt 0 d)) by done. do 3 f_equal.
  replace (d * b - d * a + d - 1) with ((b - a) * d + (d - 1)) by lia.
  rewrite Z.div_add_l by lia. rewrite (Z.div_small (d - 1)) by lia. lia.
Qed.

Lemma tick_range_int lo hi d :
  0 < d → lo ≤ hi →
  tick_range (PInt lo) (PInt hi) d =
    Ok ((λ i, d * (lo / d + 1) + i * d) <$> seqZ 0 (hi / d - lo / d)).
Proof.
  intros Hd Hlo.
  unfold tick_range, nadd, nsub, nmod, lift2, to_num, num_to_num, res_to_num, num_mod. simpl.
  rewrite !(proj2 (Z.eqb_neq d 0)) by lia. simpl.
  replace (lo - lo mod d + d) with (d * (lo / d + 1)) by (pose proof (Z.div_mod lo d); lia).
  replace (hi - hi mod d + d) with (d * (hi / d + 1)) by (pose proof (Z.div_mod hi d); lia).
  assert (lo / d ≤ hi / d) by (apply Z.div_le_mono; lia).
  rewrite py_range_multiples by lia. do 3 f_equal. lia.
Qed.

#[local] Arguments closest_fuel : simpl never.
#[local] Arguments scale_delta : simpl never.

Lemma scale_layout_int te w self lo hi c d :
  sc_bounds self = Some (PInt lo, PInt hi) →
  closest_loop (closest_fuel (PInt (hi - lo))) (PInt (hi - lo)) 1 = Some c →
  scale_delta (PInt (hi - lo)) c = Ok d →
  (d = 0 → scale_layout te w self = (self, Err ZeroDivisionError)) ∧
  (d ≠ 0 → ∃ h, scale_layout te w self =
     ({| sc_top := sc_top self; sc_bounds := sc_bounds self;
         sc_lay := Some {| sc_delta := d; sc_width := w;
                           sc_text_height := e_height (te alphabet); sc_height := h |} |}, Ok ())).
Proof.
  intros Hb Hc Hd. unfold scale_layout.
  rewrite bind_gets. unfold id. rewrite Hb. simpl attr. rewrite bind_lift_ok, nsub_int, bind_lift_ok.
  rewrite Hc, bind_lift_ok, Hd, bind_lift_ok. split; [by intros ->|]. intros Hnz.
  rewrite !nmod_int by done. autorewrite with num.
  assert (∃ h, nadd (e_height (te alphabet)) #10 = Ok h) as [h Hh].
  { unfold nadd, lift2, to_num, num_to_num. simpl. unfold num_add, num_op.
    destruct (e_height (te alphabet)); [by eexists|]. by eexists. }
  rewrite !bind_lift_ok, Hh, bind_lift_ok. unfold modify. rewrite Hb. by exists h.
Qed.

(** C13: on integer bounds the scale is laid out unless it is one unit wide:
    its ticks are exactly the multiples of the step in [(lo, hi]], the step is
    positive, and there are at most twenty of them. *)
Theorem scale_ticks_correct te w self lo hi :
  sc_bounds self = Some (PInt lo, PInt hi) → lo < hi → hi - lo ≠ 1 →
  ∃ self' lay ticks, scale_layout te w self = (self', Ok ()) ∧ sc_lay self' = Some lay ∧
    0 < sc_delta lay ∧ tick_range (PInt lo) (PInt hi) (sc_delta lay) = Ok ticks ∧
    (∀ x, x ∈ ticks ↔ lo < x ≤ hi ∧ (sc_delta lay | x)) ∧ (length ticks ≤ 20)%nat.
Proof.
  intros Hb Hlt Hne. destruct (int_delta_spec (hi - lo)) as (c & d & Hc & _ & Hd & _ & H); [lia|].
  destruct (H Hne) as [Hpos Hspan].
  destruct (scale_layout_int te w self lo hi c d Hb Hc Hd) as [_ Hl].
  destruct Hl as [h Hl]; [lia|]. eexists _, _, _. split; [exact Hl|]. split; [done|].
  split; [done|]. split; [apply tick_range_int; simpl; lia|]. simpl.
  pose proof (Z.div_mod lo d). pose proof (Z.mod_pos_bound lo d).
  pose proof (Z.div_mod hi d). pose proof (Z.mod_pos_bound hi d). split.
  - intros x. rewrite list_elem_of_fmap. split.
    + intros (i & -> & Hi%elem_of_seqZ). split; [nia|]. exists (lo / d + 1 + i). lia.
    + intros [Hx [q ->]]. exists (q - (lo / d + 1)). split; [lia|]. apply elem_of_seqZ. nia.
  - rewrite length_fmap, length_seqZ. nia.
Qed.

(** A scale that is one unit wide cannot be laid out: the step becomes 0
    and the remainder by it raises ZeroDivisionError. *)
Theorem scale_unit_fails te w self lo :
  sc_bounds self = Some (PInt lo, PInt (lo + 1)) →
  scale_layout te w self = (self, Err ZeroDivisionError).
Proof.
  intros Hb. destruct (int_delta_spec (lo + 1 - lo)) as (c & d & Hc & _ & Hd & H & _); [lia|].
  apply (scale_layout_int te w self lo (lo + 1) c d Hb Hc Hd). apply H. lia.
Qed.

(** ** What drawing adds to a context
    [Plain tr m]: [m] only appends calls to the trace, none of them a save or
    a restore.  The instances follow the structure of the drawing code. *)
Definition plain (c : cairo_call) : Prop := c ≠ C_save ∧ c ≠ C_restore.
Class Plain {S A} (tr : S → trace) (m : eff S exn A) : Prop :=
  plain_run : ∀ s, ∃ new, tr (m s).1 = tr s ++ new ∧ Forall plain new.

#[global] Hint Extern 0 (plain _) => (split; discriminate) : typeclass_instances core.

Section plain.
Context {S : Type} (tr : S → trace).
#[global] Instance plain_mret {A} (a : A) : Plain tr (mret a).
Proof. intros s. exists []. simpl. by rewrite app_nil_r. Qed.
#[global] Instance plain_lift {A} (r : res A) : Plain tr (lift_res r).
Proof. intros s. exists []. simpl. by rewrite app_nil_r. Qed.
#[global] Instance plain_gets {A} (f : S → A) : Plain tr (gets f).
Proof. intros s. exists []. simpl. by rewrite app_nil_r. Qed.
#[global] Instance plain_bind {A B} (m : eff S exn A) (k : A → eff S exn B) :
  Plain tr m → (∀ a, Plain tr (k a)) → Plain tr (m ≫= k).
Proof.
  intros Hm Hk s. unfold mbind, eff_bind. destruct (Hm s) as (n1 & H1 & F1).
  destruct (m s) as [s1 [a|e]]; simpl in H1; [|by exists n1].
  destruct (Hk a s1) as (n2 & H2 & F2). exists (n1 ++ n2). rewrite H2, H1, app_assoc.
  by split; [|apply Forall_app].
Qed.
#[global] Instance plain_if {A} (b : bool) (m1 m2 : eff S exn A) :
  Plain tr m1 → Plain tr m2 → Plain tr (if b then m1 else m2).
Proof. by destruct b. Qed.
#[global] Instance plain_for_each {A} (body : A → eff S exn unit) l :
  (∀ x, Plain tr (body x)) → Plain tr (for_each body l).
Proof. intros Hb. induction l; simpl; apply _. Qed.
End plain.

#[global] Instance plain_pair {S A B C} tr (p : A * B) (k : A → B → eff S exn C) :
  (∀ a b, Plain tr (k a b)) → Plain tr (let '(a, b) := p in k a b).
Proof. destruct p. auto. Qed.

Lemma plain_emit c : plain c → Plain id (emit c).
Proof. intros Hc s. exists [c]. split; [done|]. by constructor. Qed.
#[global] Hint Extern 1 (Plain _ (emit _)) => (apply plain_emit; split; discriminate)
  : typeclass_instances.
Lemma plain_call1 {A} `{ToNum A} f (a : A) : (∀ a, plain (f a)) → Plain id (call1 f a).
Proof. intros Hf. unfold call1. repeat (apply plain_bind; [apply _|intros ?]). by apply plain_emit. Qed.
Lemma plain_call2 {A B} `{ToNum A, ToNum B} f (a : A) (b : B) :
  (∀ a b, plain (f a b)) → Plain id (call2 f a b).
Proof. intros Hf. unfold call2. repeat (apply plain_bind; [apply _|intros ?]). by apply plain_emit. Qed.
Lemma plain_call3 {A B C} `{ToNum A, ToNum B, ToNum C} f (a : A) (b : B) (c : C) :
  (∀ a b c, plain (f a b c)) → Plain id (call3 f a b c).
Proof. intros Hf. unfold call3. repeat (apply plain_bind; [apply _|intros ?]). by apply plain_emit. Qed.
Lemma plain_call4 {A B C D} `{ToNum A, ToNum B, ToNum C, ToNum D} f (a : A) (b : B) (c : C) (d : D) :
  (∀ a b c d, plain (f a b c d)) → Plain id (call4 f a b c d).
Proof. intros Hf. unfold call4. repeat (apply plain_bind; [apply _|intros ?]). by apply plain_emit. Qed.
#[global] Hint Extern 1 (Plain _ (call1 _ _)) =>
  (apply plain_call1; intros; split; discriminate) : typeclass_instances.
#[global] Hint Extern 1 (Plain _ (call2 _ _ _)) =>
  (apply plain_call2; intros; split; discriminate) : typeclass_instances.
#[global] Hint Extern 1 (Plain _ (call3 _ _ _ _)) =>
  (apply plain_call3; intros; split; discriminate) : typeclass_instances.
#[global] Hint Extern 1 (Plain _ (call4 _ _ _ _ _)) =>
  (apply plain_call4; intros; split; discriminate) : typeclass_instances.

#[global] Instance plain_zoom_snd {S A} (m : ctx_eff A) :
  Plain id m → Plain (snd : S * trace → trace) (zoom_snd m).
Proof.
  intros Hm [x tr]. destruct (Hm tr) as (n & H & F). unfold zoom_snd, zoom. simpl.
  destruct (m tr) as [tr' r]. simpl in *. by exists n.
Qed.
#[global] Instance plain_zoom_fst {S A} (m : eff S exn A) :
  Plain (snd : S * trace → trace) (zoom_fst m).
Proof.
  intros [x tr]. unfold zoom_fst, zoom. simpl. destruct (m x) as [x' r]. simpl.
  exists []. by rewrite app_nil_r.
Qed.

#[global] Instance plain_rgb_black : Plain id rgb_black.
Proof. unfold rgb_black. apply _. Qed.
#[global] Instance plain_rgb_grey : Plain id rgb_grey.
Proof. unfold rgb_grey. apply _. Qed.
#[global] Instance plain_draw_line {A B C D} `{ToNum A, ToNum B, ToNum C, ToNum D}
    (x : A) (y : B) (w : C) (h : D) : Plain id (draw_line x y w h).
Proof. unfold draw_line. apply _. Qed.
#[global] Instance plain_black_stroke w : Plain id (black_stroke w).
Proof. unfold black_stroke. apply _. Qed.
#[global] Instance plain_outline : Plain id outline_then_grey.
Proof. unfold outline_then_grey. apply _. Qed.

Section plain_draw.
Context (te : string → extents).
#[global] Instance plain_legend_item self colors i legend v :
  Plain id (legend_draw_item te self colors i legend v).
Proof. unfold legend_draw_item. apply _. Qed.
#[global] Instance plain_legend_loop self colors i legends v :
  Plain id (legend_draw_loop te self colors i legends v).
Proof. revert i v. induction legends; intros; simpl; apply _. Qed.
#[global] Instance plain_legend_draw self : Plain id (legend_draw te self).
Proof. unfold legend_draw. apply _. Qed.
#[global] Instance plain_background self x y w h : Plain id (draw_background self x y w h).
Proof. unfold draw_background. apply _. Qed.
#[global] Instance plain_draw_event self real_x y v : Plain id (draw_event self real_x y v).
Proof. unfold draw_event. apply _. Qed.
#[global] Instance plain_events_loop self s e x y w last es :
  Plain id (draw_events_loop self s e x y w last es).
Proof. revert last. induction es; intros; simpl; apply _. Qed.
#[global] Instance plain_next_grey : Plain snd next_grey.
Proof. unfold next_grey. apply _. Qed.
#[global] Instance plain_draw_events evs x y w h : Plain snd (draw_events evs x y w h).
Proof. unfold draw_events. apply _. Qed.
#[global] Instance plain_ranges_loop s e x y w last rs :
  Plain snd (draw_ranges_loop s e x y w last rs).
Proof. revert last. induction rs; intros; simpl; apply _. Qed.
#[global] Instance plain_draw_ranges rgs x y w h : Plain snd (draw_ranges rgs x y w h).
Proof. unfold draw_ranges. apply _. Qed.
#[global] Instance plain_show_name n x y m : Plain id (show_name te n x y m).
Proof. unfold show_name. apply _. Qed.
#[global] Instance plain_row_line self c y : Plain id (row_line self c y).
Proof. unfold row_line. apply _. Qed.
#[global] Instance plain_event_rows c l y : Plain snd (draw_event_rows te c l y).
Proof. revert y. induction l; intros; simpl; apply _. Qed.
#[global] Instance plain_range_rows c l y : Plain snd (draw_range_rows te c l y).
Proof. revert y. induction l; intros; simpl; apply _. Qed.
#[global] Instance plain_timelines c x ts y : Plain snd (draw_timelines te c x ts y).
Proof. revert y. induction ts; intros; simpl; apply _. Qed.
#[global] Instance plain_tr_draw : Plain snd (tr_draw te).
Proof. unfold tr_draw. apply _. Qed.
#[global] Instance plain_tick_line self x len : Plain id (draw_tick_line self x len).
Proof. unfold draw_tick_line. apply _. Qed.
#[global] Instance plain_tick self x : Plain id (draw_tick te self x).
Proof. unfold draw_tick. apply _. Qed.
#[global] Instance plain_subtick self x : Plain id (draw_subtick self x).
Proof. unfold draw_subtick. apply _. Qed.
#[global] Instance plain_scale_draw self : Plain id (scale_draw te self).
Proof. unfold scale_draw. apply _. Qed.
#[global] Instance plain_connections g h : Plain id (draw_connections g h).
Proof. unfold draw_connections. apply _. Qed.
#[global] Instance plain_draw_data : Plain snd (draw_data te).
Proof.
  intros [g tr]. unfold draw_data. simpl. destruct (g_data g) as [d|].
  - destruct (plain_tr_draw (d, tr)) as (n & H & F).
    destruct (tr_draw te (d, tr)) as [[d' tr'] r]. simpl in *. by exists n.
  - exists []. by rewrite app_nil_r.
Qed.
End plain_draw.

(** ** Nesting of saves and restores *)
(** The number of contexts saved after a trace; None if a restore has no save. *)
Definition depth_step (d : option nat) (c : cairo_call) : option nat :=
  match d, c with
  | Some n, C_save => Some (S n)
  | Some (S n), C_restore => Some n
  | Some O, C_restore => None
  | d, _ => d
  end.
Definition depth (n : nat) (tr : trace) : option nat := foldl depth_step (Some n) tr.

Lemma depth_plain n tr : Forall plain tr → depth n tr = Some n.
Proof.
  unfold depth. induction 1 as [|c tr [H1 H2] _ IH]; [done|]. cbn [foldl].
  assert (depth_step (Some n) c = Some n) as ->; [|done]. by destruct n, c.
Qed.

(** A run that succeeds takes the depth from [a] to [b]. *)
Definition nests {S A} (tr : S → trace) (a b : nat) (m : eff S exn A) : Prop :=
  ∀ s s' x, m s = (s', Ok x) → ∃ new, tr s' = tr s ++ new ∧ depth a new = Some b.

Section nests.
Context {S : Type} (tr : S → trace).
Lemma nests_plain {A} (m : eff S exn A) a : Plain tr m → nests tr a a m.
Proof.
  intros Hm s s' x H. destruct (Hm s) as (n & Hn & F). rewrite H in Hn. simpl in Hn.
  exists n. split; [done|]. by apply depth_plain.
Qed.
Lemma nests_bind {A B} (m : eff S exn A) (k : A → eff S exn B) a b c :
  nests tr a b m → (∀ x, nests tr b c (k x)) → nests tr a c (m ≫= k).
Proof.
  intros Hm Hk s s' y (x & s1 & H1 & H2)%bind_run_inv.
  apply Hm in H1 as (n1 & E1 & D1). apply Hk in H2 as (n2 & E2 & D2).
  exists (n1 ++ n2). rewrite E2, E1, app_assoc. split; [done|].
  unfold depth in *. by rewrite foldl_app, D1.
Qed.
(** A step that is plain leaves the depth alone. *)
Lemma nests_skip {A B} (m : eff S exn A) (k : A → eff S exn B) a b :
  Plain tr m → (∀ x, nests tr a b (k x)) → nests tr a b (m ≫= k).
Proof. intros. eapply nests_bind; [by apply nests_plain|done]. Qed.
End nests.

Lemma nests_save a : nests id a (S a) (emit C_save).
Proof. intros s s' x [= <- <-]. exists [C_save]. split; [done|by destruct a]. Qed.
Lemma nests_restore a : nests id (S a) a (emit C_restore).
Proof. intros s s' x [= <- <-]. by exists [C_restore]. Qed.
Lemma nests_zoom {S A} (m : ctx_eff A) a b :
  nests id a b m → nests (snd : S * trace → trace) a b (zoom_snd m).
Proof.
  intros Hm [x tr] [x' tr'] y. unfold zoom_snd, zoom. simpl.
  destruct (m tr) as [tr1 r] eqn:E. intros [= <- <- ->]. apply Hm in E as (n & Hn & D).
  simpl. by exists n.
Qed.

(** Follows a sequence of drawing steps. *)
Ltac nest_step :=
  first
  [ eapply nests_bind; [apply nests_zoom, nests_save|intros _]
  | eapply nests_bind; [apply nests_zoom, nests_restore|intros _]
  | eapply nests_bind; [apply nests_save|intros _]
  | eapply nests_bind; [apply nests_restore|intros _]
  | apply nests_skip; [apply _|intros ?]
  | apply nests_zoom, nests_restore | apply nests_restore
  | apply nests_plain; apply _ ].

Lemma nests_clear g : nests id 0 1 (draw_clear g).
Proof. unfold draw_clear. repeat nest_step. Qed.
Lemma nests_top_legend te g : nests id 1 1 (draw_top_legend te g).
Proof. unfold draw_top_legend. repeat nest_step. Qed.
Lemma nests_mid_scale te g h : nests id 1 1 (draw_mid_scale te g h).
Proof. unfold draw_mid_scale. repeat nest_step. Qed.
Lemma nests_unused g h : nests id 1 1 (draw_unused g h).
Proof. unfold draw_unused. repeat nest_step. Qed.

(** The saves and restores of [GraphicRenderer.draw] are nested: a restore
    always has its save, and every part is drawn in its own saved context; the
    save that [draw] makes first is never undone, so that each drawing leaves
    the context one level deeper. *)
Theorem g_draw_nesting te g tr g' tr' :
  g_draw te (g, tr) = ((g', tr'), Ok ()) →
  ∃ new, tr' = tr ++ new ∧ depth 0 new = Some 1%nat.
Proof.
  assert (nests snd 0 1 (g_draw te)) as H.
  { unfold g_draw. apply nests_skip; [apply _|intros g1].
    eapply nests_bind; [apply nests_zoom, nests_clear|intros _].
    eapply nests_bind; [apply nests_zoom, nests_top_legend|intros ?].
    do 5 nest_step.
    eapply nests_bind; [apply nests_zoom, nests_mid_scale|intros ?].
    do 2 nest_step.
    eapply nests_bind; [apply nests_zoom, nests_unused|intros _].
    repeat nest_step. }
  intros Hd. by apply (H (g, tr) (g', tr') ()).
Qed.

(** ** The legend: layout and drawing agree *)
Definition shown (tr : trace) : list string :=
  omap (λ c, match c with C_show_text s => Some s | _ => None end) tr.
Definition boxes (tr : trace) : list (num * num) :=
  omap (λ c, match c with C_rectangle x y _ _ => Some (x, y) | _ => None end) tr.

(** The boxes of the legends, from the arithmetic of the layout alone. *)
Fixpoint legend_boxes (te : string → extents) (self : TopLegendRenderer) (legends : list string)
    (v : lvars) : list (num * num) :=
  match legends with
  | [] => []
  | legend :: legends =>
      match legend_item te self legend v with
      | Ok (v, x) => (x, total_height v) :: legend_boxes te self legends v
      | Err _ => []
      end
  end.

(** A call whose arguments have values. *)
Section run_call.
Context {R : Type} (k : unit → ctx_eff R) (tr : trace).
Lemma run_emit c : (emit c ≫= k) tr = k () (tr ++ [c]).
Proof. done. Qed.
Lemma run_call1 {A} `{ToNum A} f (a : A) x : to_num a = Ok x →
  (call1 f a ≫= k) tr = k () (tr ++ [f x]).
Proof. intros Ha. unfold call1, mbind, eff_bind, lift_res. by rewrite Ha. Qed.
Lemma run_call2 {A B} `{ToNum A, ToNum B} f (a : A) (b : B) x y :
  to_num a = Ok x → to_num b = Ok y → (call2 f a b ≫= k) tr = k () (tr ++ [f x y]).
Proof. intros Ha Hb. unfold call2, mbind, eff_bind, lift_res. by rewrite Ha, Hb. Qed.
Lemma run_call3 {A B C} `{ToNum A, ToNum B, ToNum C} f (a : A) (b : B) (c : C) x y z :
  to_num a = Ok x → to_num b = Ok y → to_num c = Ok z →
  (call3 f a b c ≫= k) tr = k () (tr ++ [f x y z]).
Proof. intros Ha Hb Hc. unfold call3, mbind, eff_bind, lift_res. by rewrite Ha, Hb, Hc. Qed.
Lemma run_call4 {A B C D} `{ToNum A, ToNum B, ToNum C, ToNum D} f (a : A) (b : B) (c : C) (d : D)
    x y z t :
  to_num a = Ok x → to_num b = Ok y → to_num c = Ok z → to_num d = Ok t →
  (call4 f a b c d ≫= k) tr = k () (tr ++ [f x y z t]).
Proof. intros Ha Hb Hc Hd. unfold call4, mbind, eff_bind, lift_res. by rewrite Ha, Hb, Hc, Hd. Qed.
Lemma run_black : (rgb_black ≫= k) tr = k () (tr ++ [C_set_source_rgb #0 #0 #0]).
Proof. done. Qed.
End run_call.

Lemma legend_draw_item_ok te self colors i legend v v' x c tr :
  legend_item te self legend v = Ok (v', x) → colors !! i = Some (Some c) →
  is_ok (nadd x (nmul (l_padding self) #2)) = true →
  is_ok (nadd (total_height v') (e_height (te legend))) = true →
  ∃ new, legend_draw_item te self colors i legend v tr = (tr ++ new, Ok v') ∧
    shown new = [legend] ∧ boxes new = [(x, total_height v')].
Proof.
  intros Hi Hc Hp Hq.
  destruct (nadd x _) as [p|] eqn:Ep; [|done]. destruct (nadd (total_height v') _) as [q|] eqn:Eq; [|done].
  unfold legend_draw_item. rewrite Hi, bind_lift_ok.
  rewrite (run_call4 _ _ _ _ _ _ _ _ _ _ _ eq_refl eq_refl eq_refl eq_refl).
  rewrite run_black, (run_call1 _ _ _ _ _ eq_refl), run_emit, py_index_nat, Hc.
  rewrite bind_lift_ok. simpl attr. rewrite bind_lift_ok.
  rewrite (run_call3 _ _ _ _ _ _ _ _ _ eq_refl eq_refl eq_refl), run_emit.
  erewrite (run_call2 _ _ C_move_to); [|exact Ep|exact Eq].
  rewrite run_black, run_emit.
  unfold mret, eff_ret. rewrite <-!app_assoc. eexists. split; [reflexivity|]. by split.
Qed.

(** Numbers that [float()] accepts; a sum with a float is a float. *)
Definition has_float (x : num) : Prop := is_ok (as_float x) = true.
Lemma nadd_float_l f b : has_float b → ∃ g, nadd (PFloat f) b = Ok (PFloat g).
Proof.
  unfold has_float, nadd, lift2, to_num, num_to_num. simpl. unfold num_add, num_op.
  destruct (as_float b) as [g|]; [|done]. simpl. eauto.
Qed.
Lemma nadd_float_r a f : has_float a → ∃ g, nadd a (PFloat f) = Ok (PFloat g).
Proof.
  unfold has_float, nadd, lift2, to_num, num_to_num. simpl. unfold num_add, num_op.
  destruct a; destruct (as_float _) as [g|] eqn:E; try done; rewrite ?E; simpl; eauto.
Qed.
Lemma nsub_float f g : ∃ h, nsub (PFloat f) (PFloat g) = Ok (PFloat h).
Proof. by eexists. Qed.

(** The default padding, and texts measured in floats, as cairo does. *)
Definition cairo_extents (te : string → extents) : Prop :=
  ∀ s, ∃ w h, e_width (te s) = PFloat w ∧ e_height (te s) = PFloat h.
Definition lvars_ok (v : lvars) : Prop :=
  has_float (total_height v) ∧ has_float (line_used v) ∧
  (line_height v = PInt 0 ∨ ∃ f, line_height v = PFloat f).

Lemma total_line_ok v : lvars_ok v → ∃ t, nadd (total_height v) (line_height v) = Ok t ∧ has_float t.
Proof.
  intros (Ht & _ & [-> | [f ->]]).
  - destruct (total_height v) as [z|f].
    + rewrite nadd_int, Z.add_0_r. eauto.
    + destruct (nadd_float_l f #0 eq_refl) as [g Hg]. by exists (PFloat g).
  - destruct (nadd_float_r _ f Ht) as [g Hg]. by exists (PFloat g).
Qed.

Lemma legend_item_ok te self legend v w :
  cairo_extents te → l_padding self = PInt 10 → l_width self = Some w → lvars_ok v →
  ∃ v' x, legend_item te self legend v = Ok (v', x) ∧ lvars_ok v' ∧
    is_ok (nadd x (nmul (l_padding self) #2)) = true ∧
    is_ok (nadd (total_height v') (e_height (te legend))) = true.
Proof.
  intros Hte Hp Hw Hv. pose proof Hv as (Ht & Hu & Hl).
  destruct (Hte legend) as (tw & th & Ew & Eh). unfold legend_item. rewrite Hp, Hw, Ew, Eh.
  destruct (nadd_float_r #20 tw eq_refl) as [f1 E1].
  destruct (nadd_float_l f1 #10 eq_refl) as [iw E2].
  assert (nadd (nadd (nadd #10 #10) (PFloat tw)) #10 = Ok (PFloat iw)) as Eiw.
  { change (nadd #10 #10) with (Ok #20 : res num). autorewrite with num. rewrite E1.
    autorewrite with num. exact E2. }
  destruct (nadd_float_l th #10 eq_refl) as [ih Eih].
  destruct (nadd_float_r (line_used v) iw Hu) as [us Eus].
  destruct (nadd_float_r #10 iw eq_refl) as [ni Eni].
  rewrite Eiw. cbn [mbind result_bind]. rewrite Eih. cbn [mbind result_bind]. rewrite Eus.
  cbn [mbind result_bind attr].
  set (lh := if ngt (PFloat ih) (line_height v) then PFloat ih else line_height v).
  assert (lh = PInt 0 ∨ ∃ f, lh = PFloat f) as Hlh.
  { unfold lh. destruct (ngt _ _); [eauto|done]. }
  assert (∀ used t, has_float t → ∃ v' x,
    ('(v', x) ← (let v' := {| line_height := lh; total_height := t; line_used := PFloat used |} in
       x ← nsub (line_used v') (PFloat iw); Ok (v', x)); Ok (v', x)) = Ok (v', x) ∧
    v' = {| line_height := lh; total_height := t; line_used := PFloat used |} ∧
    lvars_ok v' ∧ is_ok (nadd x (nmul #10 #2)) = true ∧
    is_ok (nadd (total_height v') (PFloat th)) = true) as Hfin.
  { intros used t Hft. cbn [line_used]. destruct (nsub_float used iw) as [x Ex]. rewrite Ex.
    eexists _, _. split; [reflexivity|]. split; [done|]. split; [done|]. split.
    - destruct (nadd_float_l x #20 eq_refl) as [? Hx].
      change (nmul #10 #2) with (Ok #20 : res num). by rewrite nadd_ok_r, Hx.
    - simpl. by destruct (nadd_float_r t th Hft) as [? ->]. }
  destruct (ngt (PFloat us) w).
  - rewrite Eni. cbn [mbind result_bind].
    destruct (total_line_ok {| line_height := lh; total_height := total_height v;
      line_used := line_used v |}) as (t & Et & Hft); [done|]. simpl in Et. rewrite Et.
    cbn [mbind result_bind].
    destruct (Hfin ni t Hft) as (v' & x & Hx & -> & ?). eexists _, x. split; [|done].
    cbn [line_used] in *. by destruct (nsub (PFloat ni) (PFloat iw)); simplify_eq/=.
  - destruct (Hfin us (total_height v) Ht) as (v' & x & Hx & -> & ?). eexists _, x.
    split; [|done]. cbn [mbind result_bind line_used] in *.
    by destruct (nsub (PFloat us) (PFloat iw)); simplify_eq/=.
Qed.

Lemma legend_loops_agree te self w colors legends i v tr :
  cairo_extents te → l_padding self = PInt 10 → l_width self = Some w → lvars_ok v →
  (∀ j, (j < length legends)%nat → ∃ c, colors !! (i + j)%nat = Some (Some c)) →
  ∃ v' new, legend_layout_loop te self legends v = Ok v' ∧ lvars_ok v' ∧
    legend_draw_loop te self colors i legends v tr = (tr ++ new, Ok v') ∧
    shown new = legends ∧ boxes new = legend_boxes te self legends v.
Proof.
  intros Hte Hp Hw. revert i v tr. induction legends as [|legend legends IH]; intros i v tr Hv Hc; simpl.
  { exists v, []. by rewrite app_nil_r. }
  destruct (legend_item_ok te self legend v w Hte Hp Hw Hv) as (v1 & x & Hi & Hv1 & Hpp & Hq).
  rewrite Hi. destruct (Hc 0%nat) as [c Hc0]; [simpl; lia|]. rewrite Nat.add_0_r in Hc0.
  destruct (legend_draw_item_ok te self colors i legend v v1 x c tr Hi Hc0 Hpp Hq)
    as (n1 & R1 & S1 & B1).
  destruct (IH (S i) v1 (tr ++ n1) Hv1) as (v' & n2 & L2 & Hv' & R2 & S2 & B2).
  { intros j Hj. destruct (Hc (S j)) as [c' Hc']; [simpl; lia|]. exists c'.
    by rewrite <-Hc', Nat.add_succ_r. }
  exists v', (n1 ++ n2). rewrite (bind_run _ _ _ _ _ R1), R2, app_assoc. split; [done|].
  split; [done|]. split; [done|]. unfold shown, boxes in *. by rewrite !omap_app, S1, S2, B1, B2.
Qed.

(** The legend is drawn where it was laid out: [layout] ends with a height
    for every width, and [draw] then makes one box and one text per legend, in
    order, with the boxes at the places that the layout's arithmetic gives. *)
Theorem legend_layout_draw te width legends colors self :
  cairo_extents te → l_padding self = PInt 10 → l_legends self = Some (legends, colors) →
  Forall (λ c, is_Some c) colors → (length legends ≤ length colors)%nat →
  ∃ self' h, legend_layout te width self = (self', Ok ()) ∧ legend_get_height self' = Ok h ∧
    ∀ tr, ∃ new, legend_draw te self' tr = (tr ++ new, Ok ()) ∧
      shown new = legends ∧ boxes new = legend_boxes te self' legends (lvars0 self').
Proof.
  intros Hte Hp Hl Hc Hlen. set (self1 := legend_set_width width self).
  assert (∀ j, (j < length legends)%nat → ∃ c, colors !! (0 + j)%nat = Some (Some c)) as Hcol.
  { intros j Hj. destruct (lookup_lt_is_Some_2 colors j) as [c Hcj]; [lia|].
    pose proof (Forall_lookup_1 _ _ _ _ Hc Hcj) as [c' ->]. by exists c'. }
  assert (lvars_ok (lvars0 self1)) as Hv0.
  { unfold lvars0, self1. simpl. rewrite Hp. by repeat split; auto. }
  destruct (legend_loops_agree te self1 width colors legends 0 (lvars0 self1) [] Hte Hp eq_refl Hv0 Hcol)
    as (v' & _ & Hlay & Hv' & _).
  destruct (total_line_ok v' Hv') as (h & Hh & _).
  exists (legend_set_height h self1), h. split; [|split; [done|]].
  - unfold legend_layout. rewrite bind_modify, bind_gets. unfold id. fold self1. simpl l_legends.
    rewrite Hl. simpl attr. rewrite bind_lift_ok, Hlay, bind_lift_ok, Hh, bind_lift_ok. done.
  - intros tr. set (self2 := legend_set_height h self1).
    destruct (legend_loops_agree te self2 width colors legends 0 (lvars0 self2) tr Hte Hp eq_refl Hv0 Hcol)
      as (v2 & new & _ & _ & Hd & Hs & Hb).
    unfold legend_draw. simpl l_legends. rewrite Hl. simpl attr. rewrite bind_lift_ok.
    rewrite (bind_run _ _ _ _ _ Hd). by exists new.
Qed.

(** ** Events do not overlap *)
(** The columns of the dots that mark events: rectangles of one pixel. *)
Definition dot_of (c : cairo_call) : option Z :=
  match c with
  | C_rectangle (PInt x) _ w h => if decide (w = #1 ∧ h = #1) then Some x else None
  | _ => None
  end.
Definition dots (tr : trace) : list Z := omap dot_of tr.

Lemma draw_event_dots self real_x y s tr :
  ∃ new, (draw_event self real_x y s tr).1 = tr ++ new ∧ dots new = [real_x].
Proof.
  unfold draw_event.
  rewrite (run_call4 _ _ C_rectangle _ _ _ _ _ _ _ _ eq_refl eq_refl eq_refl eq_refl).
  rewrite (run_call3 _ _ C_set_source_rgb _ _ _ _ _ _ eq_refl eq_refl eq_refl), run_emit.
  destruct (tr_layout self) as [lay|]; simpl attr.
  2:{ rewrite bind_lift_err. simpl. rewrite <-!app_assoc. by eexists. }
  rewrite bind_lift_ok. destruct (nadd y (max_text_height lay)) as [p|e].
  - erewrite (run_call2 _ _ C_move_to); [|done|done]. rewrite run_black. simpl.
    rewrite <-!app_assoc. by eexists.
  - unfold call2, mbind, eff_bind, lift_res. simpl.
    rewrite <-!app_assoc. by eexists.
Qed.

(** The events of a row are drawn from left to right, each one more than
    two pixels right of the one before and of the row's left edge: an event
    that would overlap its neighbour is left out, even if drawing stops with
    an exception. *)
Theorem draw_events_spaced self start end_ x y width last es tr :
  ∃ new, (draw_events_loop self start end_ x y width last es tr).1 = tr ++ new ∧
    StronglySorted (λ a b, a + 2 < b) (last :: dots new).
Proof.
  assert (∀ a tr, ∃ new : trace, tr = tr ++ new ∧
    StronglySorted (λ a b, a + 2 < b) (a :: dots new)) as Hnil.
  { intros a tr'. exists []. rewrite app_nil_r. split; [done|]. repeat constructor. }
  revert last tr. induction es as [|ev es IH]; intros last tr; cbn [draw_events_loop]; [apply Hnil|].
  destruct (nadd x _) as [p|e]; [|apply Hnil]. rewrite bind_lift_ok.
  destruct (py_int p) as [real_x|e]; [|apply Hnil]. rewrite bind_lift_ok.
  destruct (Z.gtb_spec real_x (last + 2)) as [Hgt|Hle].
  - destruct (draw_event_dots self real_x y (str_value ev) tr) as (n1 & E1 & D1).
    unfold mbind, eff_bind. destruct (draw_event _ _ _ _ tr) as [tr1 [[]|e]]; simpl in E1; subst tr1.
    + simpl. destruct (IH real_x (tr ++ n1)) as (n2 & E2 & D2). exists (n1 ++ n2).
      rewrite E2, app_assoc. split; [done|]. unfold dots in *. rewrite omap_app, D1. simpl.
      constructor; [done|]. constructor; [lia|]. apply StronglySorted_inv in D2 as [_ D2].
      eapply Forall_impl; [exact D2|]. simpl. lia.
    + exists n1. split; [done|]. rewrite D1. constructor; [repeat constructor|]. constructor; [lia|done].
  - rewrite bind_mret. apply IH.
Qed.

(** ** Concrete instances *)
(** A font of six by ten pixels, its measures floats as cairo gives them. *)
Definition demo_extents (s : string) : extents :=
  let f z := PFloat (float_of_Z z) in
  {| x_bearing := f 0; y_bearing := f (-9); e_width := f (6 * Z.of_nat (String.length s));
     e_height := f 10; x_advance := f 0; y_advance := f 0 |}.
Definition demo_timelines : Timelines :=
  [{| t_name := "node-0"; t_ranges := [demo_ranges]; event_str := [];
      event_int := [demo_events] |}].
Definition demo_legends : TopLegendRenderer :=
  set_legends ["idle"; "rx"; "tx"] [Some (rgb 0 1 1); Some (rgb 1 0 1); Some (rgb 1 1 0)]
    new_top_legend.
Definition demo_graphic : GraphicRenderer :=
  let g := {| g_start := PFloat (float_of_Z 0); g_end := PFloat (float_of_Z 9);
              g_mid_scale := set_top new_scale;
              g_bot_scale := set_bot (set_bounds #0 #9 new_scale);
              g_width := #400; g_height := #300; g_range := None;
              g_data := Some (set_timelines demo_timelines (new_colors class_default_colors)
                                new_timelines_renderer);
              g_top_legend := Some demo_legends |} in
  (set_range demo_extents #1 #8 g).1.

Lemma closest_terminates_witness :
  is_finite #150 = true ∧
  ∃ k, 0 ≤ k ∧ closest_loop (closest_fuel #150) #150 1 = Some (10 ^ k) ∧
    nlt (PInt (10 ^ (k + 1))) #150 = false ∧ (0 < k → nlt (PInt (10 ^ k)) #150 = true).
Proof. split; [reflexivity|]. exact (closest_terminates #150 eq_refl). Defined.

Lemma scale_ticks_witness :
  ∃ self' lay ticks, scale_layout demo_extents #400 (set_bounds #0 #9 new_scale) = (self', Ok ()) ∧
    sc_lay self' = Some lay ∧ 0 < sc_delta lay ∧ tick_range #0 #9 (sc_delta lay) = Ok ticks ∧
    (∀ x, x ∈ ticks ↔ 0 < x ≤ 9 ∧ (sc_delta lay | x)) ∧ (length ticks ≤ 20)%nat.
Proof.
  exact (scale_ticks_correct demo_extents #400 (set_bounds #0 #9 new_scale) 0 9 eq_refl
    (eq_refl : (0 ?= 9) = Lt) ltac:(discriminate)).
Defined.

Lemma scale_unit_witness :
  scale_layout demo_extents #400 (set_bounds #4 #5 new_scale) =
    (set_bounds #4 #5 new_scale, Err ZeroDivisionError).
Proof. exact (scale_unit_fails demo_extents #400 (set_bounds #4 #5 new_scale) 4 eq_refl). Defined.

Lemma g_draw_nesting_witness :
  (g_draw demo_extents (demo_graphic, [])).2 = Ok () ∧
  ∃ new, (g_draw demo_extents (demo_graphic, [])).1.2 = [] ++ new ∧ depth 0 new = Some 1%nat.
Proof.
  assert (g_draw demo_extents (demo_graphic, []) =
    ((g_draw demo_extents (demo_graphic, [])).1.1, (g_draw demo_extents (demo_graphic, [])).1.2,
     Ok ())) as H by (vm_compute; reflexivity).
  split; [vm_compute; reflexivity|]. exact (g_draw_nesting _ _ _ _ _ H).
Defined.

Lemma legend_layout_draw_witness :
  ∃ self' h, legend_layout demo_extents #120 demo_legends = (self', Ok ()) ∧
    legend_get_height self' = Ok h ∧
    ∀ tr, ∃ new, legend_draw demo_extents self' tr = (tr ++ new, Ok ()) ∧
      shown new = ["idle"; "rx"; "tx"] ∧
      boxes new = legend_boxes demo_extents self' ["idle"; "rx"; "tx"] (lvars0 self').
Proof.
  apply (legend_layout_draw demo_extents #120 ["idle"; "rx"; "tx"]
    [Some (rgb 0 1 1); Some (rgb 1 0 1); Some (rgb 1 1 0)] demo_legends).
  - intros s. eexists _, _. split; reflexivity.
  - reflexivity.
  - reflexivity.
  - repeat constructor; eauto.
  - simpl. lia.
Defined.
