(* ===== verification/GridGtk.v ===== *)
(** * The window of the grid viewer (src/utils/grid.py)
    GtkGraphicRenderer: the handlers of the mouse, of the exposure and of the
    zoom buttons, as a state machine over the attributes of the widget; the
    callbacks of MainWindow; and [main], which builds the renderers from a
    trace file.  What a handler asks of GTK is recorded, in order.  An
    exception leaves the handler with the changes made so far: GTK prints it
    and goes on with the next event. *)
From Stdlib Require Import Ascii SpecFloat.
From S2P Require Import Prelude PyStr PyNum GridData GridDraw.
#[local] Open Scope Z_scope.
#[local] Open Scope num_scope.

(** An image surface: its size, and the calls made on its contexts. *)
Record surface := { s_width : num; s_height : num; s_calls : trace }.

Inductive cursor := SB_H_DOUBLE_ARROW | FLEUR.
Inductive gtk_call :=
| QueueDraw
| QueueDrawArea (x y width height : Z)
| SetCursor (c : option cursor)
| WindowCairo (c : cairo_call)
| WindowSource (s : surface)
| WritePng (s : surface) (filename : string).

(** A Python value that is used as a condition: [__moving_right] holds a bool
    or, after one branch of [motion_notify], a width. *)
Inductive flag := FBool (b : bool) | FNum (n : num).
Definition truthy (f : flag) : bool :=
  match f with FBool b => b | FNum n => negb (is_zero n) end.

Record GtkGraphicRenderer := {
  w_data : GraphicRenderer;
  moving_left : bool;
  moving_right : flag;
  moving_both : bool;
  moving_top : bool;
  force_full_redraw : bool;
  moving_left_cur : option num;
  moving_right_cur : option num;
  moving_both_start : option num;
  moving_both_cur : option num;
  moving_top_start : option num;
  moving_top_cur : option num;
  w_width : option num;
  w_height : option num;
  buffer_surface : option surface;
}.
Definition new_gtk (data : GraphicRenderer) : GtkGraphicRenderer :=
  {| w_data := data; moving_left := false; moving_right := FBool false; moving_both := false;
     moving_top := false; force_full_redraw := true; moving_left_cur := None;
     moving_right_cur := None; moving_both_start := None; moving_both_cur := None;
     moving_top_start := None; moving_top_cur := None; w_width := None; w_height := None;
     buffer_surface := None |}.

(** One attribute changed: the others as in [w]. *)
Inductive change :=
| CData (g : GraphicRenderer)
| CLeft (b : bool) | CRight (f : flag) | CBoth (b : bool) | CTop (b : bool) | CRedraw (b : bool)
| CLeftCur (x : num) | CRightCur (x : num) | CBothStart (x : num) | CBothCur (x : num)
| CTopStart (x : num) | CTopCur (x : num) | CSize (w h : num) | CBuffer (s : surface).
Definition apply_change (c : change) (w : GtkGraphicRenderer) : GtkGraphicRenderer :=
  {| w_data := match c with CData g => g | _ => w_data w end;
     moving_left := match c with CLeft b => b | _ => moving_left w end;
     moving_right := match c with CRight f => f | _ => moving_right w end;
     moving_both := match c with CBoth b => b | _ => moving_both w end;
     moving_top := match c with CTop b => b | _ => moving_top w end;
     force_full_redraw := match c with CRedraw b => b | _ => force_full_redraw w end;
     moving_left_cur := match c with CLeftCur x => Some x | _ => moving_left_cur w end;
     moving_right_cur := match c with CRightCur x => Some x | _ => moving_right_cur w end;
     moving_both_start := match c with CBothStart x => Some x | _ => moving_both_start w end;
     moving_both_cur := match c with CBothCur x => Some x | _ => moving_both_cur w end;
     moving_top_start := match c with CTopStart x => Some x | _ => moving_top_start w end;
     moving_top_cur := match c with CTopCur x => Some x | _ => moving_top_cur w end;
     w_width := match c with CSize x _ => Some x | _ => w_width w end;
     w_height := match c with CSize _ y => Some y | _ => w_height w end;
     buffer_surface := match c with CBuffer s => Some s | _ => buffer_surface w end |}.

Abbreviation wstate := (GtkGraphicRenderer * list gtk_call)%type.
Abbreviation w_eff := (eff wstate exn).
Definition assign (c : change) : w_eff unit := zoom_fst (modify (apply_change c)).
Definition ask (c : gtk_call) : w_eff unit := zoom_snd (modify (λ l, l ++ [c])).
Definition asks {A} (f : GraphicRenderer → res A) : w_eff A :=
  w ← gets fst; lift_res (f (w_data w)).

Section text.
Context (text_extents : string → extents).
Let set_range := set_range text_extents.
Let g_draw := g_draw text_extents.
Let g_layout := g_layout text_extents.

(** A method of the renderer that changes it. *)
Definition on_renderer (m : eff GraphicRenderer exn unit) : w_eff unit := λ s,
  let '(g, r) := m (w_data s.1) in ((apply_change (CData g) s.1, s.2), r).
(** [self.__data.set_range(...)], a full redraw, [queue_draw()]. *)
Definition new_range (start end_ : num) : w_eff unit :=
  _ ← on_renderer (set_range start end_);
  _ ← assign (CRedraw true);
  ask QueueDraw.

Definition set_smaller_zoom : w_eff unit :=
  r ← asks get_range;
  e ← lift_res (r.1 + (r.2 - r.1) * #2);
  new_range r.1 e.
Definition set_bigger_zoom : w_eff unit :=
  r ← asks get_range;
  e ← lift_res (r.1 + (r.2 - r.1) / #2);
  new_range r.1 e.

(** [self.__data.draw(ctx)] on a context of the buffer surface. *)
Definition draw_on_buffer : w_eff unit := λ s,
  match buffer_surface s.1 with
  | Some b =>
      let '((g, tr), r) := g_draw (w_data s.1, s_calls b) in
      let w := apply_change (CData g) s.1 in
      let b := {| s_width := s_width b; s_height := s_height b; s_calls := tr |} in
      ((apply_change (CBuffer b) w, s.2), r)
  | None => (s, Err AttributeError)
  end.
Definition new_surface (g : GraphicRenderer) : surface :=
  {| s_width := g_width g; s_height := g_height g; s_calls := [] |}.
Definition output_png (filename : string) : w_eff unit :=
  w ← gets fst;
  let surface := new_surface (w_data w) in
  _ ← draw_on_buffer;
  ask (WritePng surface filename).

(** [a and b], [a or b] of expressions that may raise. *)
Definition and_then (a b : res bool) : res bool := x ← a; if x : bool then b else Ok false.
Definition or_else (a b : res bool) : res bool := x ← a; if x : bool then Ok true else b.
(** [abs(a - b) < 5] *)
Definition near {B} `{ToNum B} (a : num) (b : B) : res bool :=
  d ← (a - b : res num); Ok (nlt (num_abs d) (#5)).
(** [v > lo and v < lo + size] *)
Definition inside (v lo size : num) : res bool :=
  and_then (Ok (ngt v lo)) (hi ← (lo + size : res num); Ok (nlt v hi)).

Definition button_press (event_x event_y : num) : w_eff bool :=
  sel ← asks get_selection_rectangle;
  let '(x, y, width, height) := sel in
  rect ← asks get_data_rectangle;
  let '(d_x, d_y, d_width, d_height) := rect in
  in_selection ← lift_res (inside event_y y height);
  pressed ←
    (if in_selection : bool then
       near_left ← lift_res (near event_x x);
       if near_left : bool then _ ← assign (CLeft true); mret true
       else
         near_right ← lift_res (near event_x (x + width));
         if near_right : bool then _ ← assign (CRight (FBool true)); mret true
         else
           in_x ← lift_res (inside event_x x width);
           if in_x : bool then
             _ ← assign (CBoth true);
             _ ← assign (CBothStart event_x);
             _ ← assign (CBothCur event_x);
             mret true
           else mret false
     else mret false);
  if pressed : bool then mret true
  else
    in_data ← lift_res (and_then (inside event_y d_y d_height) (inside event_x d_x d_width));
    if in_data : bool then
      _ ← assign (CTop true);
      _ ← assign (CTopStart event_x);
      _ ← assign (CTopCur event_x);
      mret true
    else mret false.

Definition button_release : w_eff bool :=
  w ← gets fst;
  if moving_left w then
    _ ← assign (CLeft false);
    cur ← lift_res (attr (moving_left_cur w));
    left ← asks (λ g, scale_selection g cur);
    r ← asks get_range;
    _ ← new_range left r.2;
    mret true
  else if truthy (moving_right w) then
    _ ← assign (CRight (FBool false));
    cur ← lift_res (attr (moving_right_cur w));
    right ← asks (λ g, scale_selection g cur);
    r ← asks get_range;
    _ ← new_range r.1 right;
    mret true
  else if moving_both w then
    _ ← assign (CBoth false);
    cur ← lift_res (attr (moving_both_cur w));
    start ← lift_res (attr (moving_both_start w));
    d ← lift_res (cur - start);
    delta ← asks (λ g, scale_selection g d);
    r ← asks get_range;
    a ← lift_res (r.1 + delta);
    b ← lift_res (r.2 + delta);
    _ ← new_range a b;
    mret true
  else if moving_top w then _ ← assign (CTop false); mret false
  else mret false.

(** [self.queue_draw_area(0, int(y), int(self.__width), int(height))] *)
Definition redraw_selection (y height : num) : w_eff unit :=
  w ← gets fst;
  y ← lift_res (py_int y);
  width ← lift_res (attr (w_width w));
  width ← lift_res (py_int width);
  height ← lift_res (py_int height);
  ask (QueueDrawArea 0 y width height).
Definition set_cursor (c : option cursor) : w_eff unit := ask (SetCursor c).

Definition motion_notify (event_x event_y : num) : w_eff bool :=
  sel ← asks get_selection_rectangle;
  let '(x, y, width, height) := sel in
  w ← gets fst;
  if moving_left w then
    _ ← (if nle event_x (#0) then assign (CLeftCur (#0))
         else
           right ← lift_res (x + width);
           if nge event_x right then assign (CLeftCur right)
           else assign (CLeftCur event_x));
    _ ← redraw_selection y height;
    mret true
  else if truthy (moving_right w) then
    w_w ← lift_res (attr (w_width w));
    _ ← (if nge event_x w_w then assign (CRight (FNum w_w))
         else if nlt event_x x then assign (CRightCur x)
         else assign (CRightCur event_x));
    _ ← redraw_selection y height;
    mret true
  else if moving_both w then
    w_w ← lift_res (attr (w_width w));
    start ← lift_res (attr (moving_both_start w));
    cur_e ← lift_res (w_w - (x + width - start));
    cur_s ← lift_res (start - x);
    _ ← (if nlt event_x cur_s then assign (CBothCur cur_s)
         else if ngt event_x cur_e then assign (CBothCur cur_e)
         else assign (CBothCur event_x));
    _ ← redraw_selection y height;
    mret true
  else if moving_top w then
    _ ← assign (CTopCur event_x);
    start ← lift_res (attr (moving_top_start w));
    d ← lift_res (start - event_x);
    delta ← asks (λ g, scale_data g d);
    r ← asks get_range;
    a ← lift_res (r.1 + delta);
    b ← lift_res (r.2 + delta);
    _ ← on_renderer (set_range a b);
    _ ← assign (CRedraw true);
    _ ← assign (CTopStart event_x);
    _ ← ask QueueDraw;
    mret true
  else
    rect ← asks get_data_rectangle;
    let '(d_x, d_y, d_width, d_height) := rect in
    in_selection ← lift_res (inside event_y y height);
    found ←
      (if in_selection : bool then
         edge ← lift_res (or_else (near event_x x) (near event_x (x + width)));
         if edge : bool then _ ← set_cursor (Some SB_H_DOUBLE_ARROW); mret true
         else
           in_x ← lift_res (inside event_x x width);
           if in_x : bool then _ ← set_cursor (Some FLEUR); mret true
           else mret false
       else mret false);
    if found : bool then mret true
    else
      in_data ← lift_res (and_then (inside event_y d_y d_height) (inside event_x d_x d_width));
      if in_data : bool then _ ← set_cursor (Some FLEUR); mret true
      else _ ← set_cursor None; mret false.

Definition size_allocate (width height : num) : w_eff unit :=
  _ ← assign (CSize width height);
  _ ← on_renderer (g_layout width height);
  _ ← assign (CRedraw true);
  ask QueueDraw.

(** A call on the window's context. *)
Definition win (m : ctx_eff unit) : w_eff unit := λ s,
  let '(tr, r) := m ([] : trace) in ((s.1, s.2 ++ (WindowCairo <$> tr)), r).
Definition edge_line (x y height : num) : ctx_eff unit :=
  _ ← call2 C_move_to x y; _ ← call2 C_rel_line_to (#0) height; emit C_close_path.
Definition expose (a_x a_y a_width a_height : num) : w_eff bool :=
  w ← gets fst;
  _ ← (if force_full_redraw w then
         _ ← assign (CBuffer (new_surface (w_data w)));
         _ ← draw_on_buffer;
         assign (CRedraw false)
       else mret ());
  _ ← win (call4 C_rectangle a_x a_y a_width a_height);
  _ ← win (emit C_clip);
  w ← gets fst;
  b ← lift_res (attr (buffer_surface w));
  _ ← ask (WindowSource b);
  _ ← win (emit C_paint);
  sel ← asks get_selection_rectangle;
  let '(x, y, width, height) := sel in
  _ ← (if moving_left w then
         cur ← lift_res (attr (moving_left_cur w));
         _ ← win (edge_line (py_max cur (#2)) y height);
         win (black_stroke 1)
       else mret ());
  _ ← (if truthy (moving_right w) then
         cur ← lift_res (attr (moving_right_cur w));
         w_w ← lift_res (attr (w_width w));
         limit ← lift_res (w_w - #2);
         _ ← win (edge_line (py_min cur limit) y height);
         win (black_stroke 1)
       else mret ());
  _ ← (if moving_both w then
         cur ← lift_res (attr (moving_both_cur w));
         start ← lift_res (attr (moving_both_start w));
         delta_x ← lift_res (cur - start);
         left_x ← lift_res (x + delta_x);
         _ ← win (edge_line left_x y height);
         right_x ← lift_res (x + width + delta_x);
         _ ← win (edge_line right_x y height);
         _ ← win rgb_black;
         _ ← win (call1 C_set_line_width (#1));
         win (emit C_stroke)
       else mret ());
  mret false.

(** ** class MainWindow: the callbacks of its buttons and of the dialog *)
Definition set_smaller_cb : w_eff unit := set_smaller_zoom.
Definition set_bigger_cb : w_eff unit := set_bigger_zoom.
Definition dialog_response_cb (response : Z) (filename : string) : w_eff unit :=
  if (response =? 1)%Z then output_png filename else mret ().

(** ** The events that reach the widget, in any order *)
Inductive gtk_event :=
| ButtonPress (x y : num)
| ButtonRelease (x y : num)
| MotionNotify (x y : num)
| SizeAllocate (width height : num)
| Expose (x y width height : num)
| ZoomOut
| ZoomIn
| DialogResponse (response : Z) (filename : string).
Definition void {A} (m : w_eff A) : w_eff unit := _ ← m; mret ().
Definition handle (e : gtk_event) : w_eff unit :=
  match e with
  | ButtonPress x y => void (button_press x y)
  | ButtonRelease _ _ => void button_release
  | MotionNotify x y => void (motion_notify x y)
  | SizeAllocate w h => size_allocate w h
  | Expose x y w h => void (expose x y w h)
  | ZoomOut => set_smaller_cb
  | ZoomIn => set_bigger_cb
  | DialogResponse r f => dialog_response_cb r f
  end.
(** The main loop: an exception ends the handler, not the loop. *)
Definition run_events (es : list gtk_event) (s : wstate) : wstate :=
  foldl (λ s e, (handle e s).1) s es.

(** ** main *)
Definition main_graphic `{DictOrder string} (content : string) : res GraphicRenderer :=
  let '(colors, timelines) := read_data content in
  let '(lower_bound, upper_bound) := timelines_get_bounds timelines in
  graphic ← new_graphic (PInt lower_bound) (PInt upper_bound);
  let range_values := get_all_range_values timelines in
  let '(colors, range_colors) := lookup_all range_values colors in
  range_colors ← range_colors;
  let top_legend := set_legends range_values range_colors new_top_legend in
  let graphic := set_top_legend top_legend graphic in
  let data := set_timelines timelines colors new_timelines_renderer in
  let graphic := set_data data graphic in
  let span := #(upper_bound - lower_bound) in
  range_mid ← span / #2;
  range_width ← span / #10;
  range_lo ← range_mid - range_width / #2;
  range_hi ← range_mid + range_width / #2;
  let '(graphic, r) := set_range range_lo range_hi graphic in
  _ ← r;
  Ok graphic.
Definition main `{DictOrder string} (fs : gmap string string) (argv : list string) : res wstate :=
  filename ← py_index argv 1;
  match fs !! filename with
  | None => Err (PyException "IOError")
  | Some content =>
      graphic ← main_graphic content;
      Ok (new_gtk graphic, [])
  end.
End text.

#[local] Close Scope num_scope.

(** ** What the layout and the drawing leave alone *)
Definition same_frame (g g' : GraphicRenderer) : Prop :=
  g_start g' = g_start g ∧ g_end g' = g_end g ∧ g_range g' = g_range g.
#[export] Instance same_frame_preorder : PreOrder same_frame.
Proof. split; [done|]. unfold same_frame. intros ???. intuition congruence. Qed.

Class Frame {S A} (f : S → GraphicRenderer) (m : eff S exn A) : Prop :=
  frame_run : ∀ s, same_frame (f s) (f (m s).1).

Section frame.
Context {S : Type} (f : S → GraphicRenderer).
#[global] Instance frame_mret {A} (a : A) : Frame f (mret a).
Proof. done. Qed.
#[global] Instance frame_lift {A} (r : res A) : Frame f (lift_res r).
Proof. done. Qed.
#[global] Instance frame_gets {A} (h : S → A) : Frame f (gets h).
Proof. done. Qed.
#[global] Instance frame_bind {A B} (m : eff S exn A) (k : A → eff S exn B) :
  Frame f m → (∀ a, Frame f (k a)) → Frame f (m ≫= k).
Proof.
  intros Hm Hk s. unfold mbind, eff_bind. specialize (Hm s).
  destruct (m s) as [s1 [a|e]]; simpl in *; [|done]. by etrans; [|apply Hk].
Qed.
End frame.
#[global] Instance frame_zoom_snd {T A} (m : eff T exn A) :
  Frame (fst : GraphicRenderer * T → _) (zoom_snd m).
Proof. intros [g t]. unfold zoom_snd, zoom. simpl. by destruct (m t). Qed.
#[global] Instance frame_put_size w h : Frame id (modify (put_size w h)).
Proof. done. Qed.
#[global] Instance frame_on_data {A} (m : eff TimelinesRenderer exn A) : Frame id (on_data m).
Proof. intros g. unfold on_data. destruct (g_data g) as [d|]; [|done]. by destruct (m d). Qed.
#[global] Instance frame_on_legend {A} (m : eff TopLegendRenderer exn A) : Frame id (on_legend m).
Proof. intros g. unfold on_legend. destruct (g_top_legend g) as [d|]; [|done]. by destruct (m d). Qed.
#[global] Instance frame_on_mid {A} (m : eff ScaleRenderer exn A) : Frame id (on_mid m).
Proof. intros g. unfold on_mid, zoom. by destruct (m (g_mid_scale g)). Qed.
#[global] Instance frame_on_bot {A} (m : eff ScaleRenderer exn A) : Frame id (on_bot m).
Proof. intros g. unfold on_bot, zoom. by destruct (m (g_bot_scale g)). Qed.
#[global] Instance frame_layout te w h : Frame id (g_layout te w h).
Proof. unfold g_layout. apply _. Qed.
#[global] Instance frame_draw_data te : Frame fst (draw_data te).
Proof.
  intros [g tr]. unfold draw_data. simpl. destruct (g_data g) as [d|]; [|done].
  by destruct (tr_draw te (d, tr)) as [[d' tr'] r].
Qed.
#[global] Instance frame_draw te : Frame fst (g_draw te).
Proof. unfold g_draw. apply _. Qed.

(** ** The visible range and the bounds of the data *)
(** A range inside the bounds, or one that was asked for beyond the end or
    before the start: then one edge is at that bound and the other outside. *)
Definition clamped (start end_ : num) (r : num * num) : Prop :=
  (nle start r.1 = true ∧ nle r.1 r.2 = true ∧ nle r.2 end_ = true) ∨
  (r.2 = end_ ∧ nlt end_ r.1 = true) ∨
  (r.1 = start ∧ nlt r.2 start = true).
Definition range_ok (g : GraphicRenderer) : Prop :=
  nle (g_start g) (g_end g) = true ∧
  ∀ r, g_range g = Some r → clamped (g_start g) (g_end g) r.

Lemma range_ok_frame g g' : same_frame g g' → range_ok g → range_ok g'.
Proof. unfold range_ok. intros (-> & -> & ->). done. Qed.

(** Of two numbers [min] gives one that is not above what [max] gives, or NaN. *)
Lemma py_min_max a b :
  is_nan (py_min a b) = false → is_nan (py_max a b) = false → nle (py_min a b) (py_max a b) = true.
Proof.
  unfold py_min, py_max. rewrite ngt_lt. destruct (nlt b a) eqn:E1, (nlt a b) eqn:E2; intros Hx Hy.
  - by apply nle_refl.
  - by apply nlt_le.
  - by apply nlt_le.
  - by apply nle_refl.
Qed.
Lemma nlt_false a b : is_nan a = false → is_nan b = false → nlt a b = false → nle b a = true.
Proof. intros Ha Hb. rewrite nlt_nle by done. by destruct (nle b a). Qed.
Lemma clamp_clamped start end_ a b :
  nle start end_ = true →
  clamped start end_ (py_max start (py_min a b), py_min end_ (py_max a b)).
Proof.
  intros Hse. destruct (nle_not_nan _ _ Hse) as [Hs He]. pose proof (py_min_max a b) as Hab.
  set (s := py_min a b) in *. set (e := py_max a b) in *. unfold clamped, py_max, py_min.
  rewrite ngt_lt. simpl.
  destruct (nlt start s) eqn:E1, (nlt e end_) eqn:E2; simpl.
  - left. destruct (nlt_not_nan _ _ E1), (nlt_not_nan _ _ E2).
    split_and!; [by apply nlt_le|by apply Hab|by apply nlt_le].
  - destruct (nlt_not_nan _ _ E1) as [_ Hns]. destruct (nlt end_ s) eqn:E3.
    + right; left. by split.
    + left. split_and!; [by apply nlt_le|by apply nlt_false|by apply nle_refl].
  - destruct (nlt_not_nan _ _ E2) as [Hne _]. destruct (nlt e start) eqn:E3.
    + right; right. by split.
    + left. split_and!; [by apply nle_refl|by apply nlt_false|by apply nlt_le].
  - left. split_and!; [by apply nle_refl|done|by apply nle_refl].
Qed.

(** [set_range] takes what it is given to the bounds, whatever it is. *)
Lemma set_range_ok te start end_ g : range_ok g →
  let g' := (set_range te start end_ g).1 in
  range_ok g' ∧ g_start g' = g_start g ∧ g_end g' = g_end g ∧ is_Some (g_range g').
Proof.
  intros (Hse & _). unfold set_range. rewrite bind_gets, bind_modify. unfold id.
  set (g1 := put_range _ g).
  assert (range_ok g1) as H1.
  { split; [done|]. intros r [= <-]. by apply clamp_clamped. }
  assert (Frame id (on_data (modify (set_render_range (py_max (g_start g) (py_min start end_))
      (py_min (g_end g) (py_max start end_)))) ≫= λ _,
    on_mid (modify (set_bounds (py_max (g_start g) (py_min start end_))
      (py_min (g_end g) (py_max start end_)))) ≫= λ _,
    g_layout te (g_width g) (g_height g))) as HF by apply _.
  specialize (HF g1). unfold id in HF. split; [by eapply range_ok_frame|].
  destruct HF as (-> & -> & ->). by eauto.
Qed.

(** A step keeps the bounds, and the range as it should be. *)
Definition steady (g g' : GraphicRenderer) : Prop :=
  range_ok g' ∧ g_start g' = g_start g ∧ g_end g' = g_end g ∧
  (is_Some (g_range g) → is_Some (g_range g')).
Class Keeps {A} (m : w_eff A) : Prop :=
  keeps_run : ∀ s, range_ok (w_data s.1) → steady (w_data s.1) (w_data (m s).1.1).

#[global] Instance keeps_mret {A} (a : A) : Keeps (mret a).
Proof. done. Qed.
#[global] Instance keeps_lift {A} (r : res A) : Keeps (lift_res r).
Proof. done. Qed.
#[global] Instance keeps_gets {A} (h : wstate → A) : Keeps (gets h).
Proof. done. Qed.
#[global] Instance keeps_asks {A} (h : GraphicRenderer → res A) : Keeps (asks h).
Proof. done. Qed.
#[global] Instance keeps_bind {A B} (m : w_eff A) (k : A → w_eff B) :
  Keeps m → (∀ a, Keeps (k a)) → Keeps (m ≫= k).
Proof.
  intros Hm Hk s Hs. unfold mbind, eff_bind. destruct (Hm s Hs) as (H1 & H2 & H3 & H4).
  destruct (m s) as [s1 [a|e]]; simpl in *; [|done].
  destruct (Hk a s1 H1) as (H1' & H2' & H3' & H4'). unfold steady. split_and!; auto; congruence.
Qed.
#[global] Instance keeps_if {A} (b : bool) (m1 m2 : w_eff A) :
  Keeps m1 → Keeps m2 → Keeps (if b then m1 else m2).
Proof. by destruct b. Qed.
#[global] Instance keeps_pair {A B C} (p : A * B) (k : A → B → w_eff C) :
  (∀ a b, Keeps (k a b)) → Keeps (let '(a, b) := p in k a b).
Proof. destruct p. auto. Qed.
#[global] Instance keeps_ask c : Keeps (ask c).
Proof. done. Qed.
#[global] Instance keeps_win m : Keeps (win m).
Proof. intros s Hs. unfold win. by destruct (m []). Qed.
#[global] Instance keeps_assign c :
  TCEq (match c with CData _ => true | _ => false end) false → Keeps (assign c).
Proof. intros Hc s Hs. by destruct c; inversion Hc. Qed.
#[global] Instance keeps_set_range te a b : Keeps (on_renderer (set_range te a b)).
Proof.
  intros s Hs. unfold on_renderer. destruct (set_range_ok te a b _ Hs) as (H1 & H2 & H3 & H4).
  unfold steady. by destruct (set_range te a b (w_data s.1)) as [g r].
Qed.
#[global] Instance keeps_layout te w h : Keeps (on_renderer (g_layout te w h)).
Proof.
  intros s Hs. unfold on_renderer. pose proof (frame_layout te w h (w_data s.1)) as HF.
  destruct (g_layout te w h (w_data s.1)) as [g r]. simpl in *. unfold id in HF.
  split; [by eapply range_ok_frame|]. by destruct HF as (-> & -> & ->).
Qed.
#[global] Instance keeps_draw_on_buffer te : Keeps (draw_on_buffer te).
Proof.
  intros s Hs. unfold draw_on_buffer. destruct (buffer_surface s.1) as [b|]; [|done].
  pose proof (frame_draw te (w_data s.1, s_calls b)) as HF.
  destruct (g_draw te (w_data s.1, s_calls b)) as [[g tr] r]. simpl in *.
  split; [by eapply range_ok_frame|]. by destruct HF as (-> & -> & ->).
Qed.

#[global] Instance keeps_handle te e : Keeps (handle te e).
Proof.
  destruct e; simpl; unfold void, set_smaller_cb, set_bigger_cb, dialog_response_cb, button_press,
    button_release, motion_notify, size_allocate, expose, set_smaller_zoom, set_bigger_zoom,
    output_png, new_range, redraw_selection, set_cursor; apply _.
Qed.

Lemma keeps_run_events te es s :
  range_ok (w_data s.1) → steady (w_data s.1) (w_data (run_events te es s).1).
Proof.
  revert s. unfold run_events. induction es as [|e es IH]; intros s Hs; [by split|]. simpl.
  destruct (keeps_handle te e s Hs) as (H1 & H2 & H3 & H4).
  destruct (IH (handle te e s).1 H1) as (H1' & H2' & H3' & H4').
  unfold steady. split_and!; auto; congruence.
Qed.

Lemma new_graphic_ok lo hi g :
  lo ≤ 0 ≤ hi → new_graphic (PInt lo) (PInt hi) = Ok g →
  nle (g_start g) (g_end g) = true ∧ g_range g = None.
Proof.
  intros Hb. unfold new_graphic. intros (s & Hs & (e & He & [= <-])%bind_ok)%bind_ok. simpl.
  apply py_float_int_sign in Hs as [Hs _], He as [_ He].
  split; [|done]. eapply nle_trans; [apply Hs|apply He]; lia.
Qed.
Lemma timelines_bounds_zero ts :
  (timelines_get_bounds ts).1 ≤ 0 ∧ 0 ≤ (timelines_get_bounds ts).2.
Proof. destruct (foldl_widen timeline_get_bounds ts (0, 0)) as (H1 & H2 & _). by split. Qed.

Lemma main_graphic_ok `{DictOrder string} te content g :
  main_graphic te content = Ok g → range_ok g ∧ is_Some (g_range g).
Proof.
  unfold main_graphic. destruct (read_data content) as [colors ts].
  pose proof (timelines_bounds_zero ts) as Hb. destruct (timelines_get_bounds ts) as [lo hi].
  intros (g0 & Hg0 & Hm)%bind_ok. apply new_graphic_ok in Hg0 as (Hse & Hn); [|done].
  destruct (lookup_all _ colors) as [colors' rc]. apply bind_ok in Hm as (rc' & _ & Hm).
  apply bind_ok in Hm as (mid & _ & Hm). apply bind_ok in Hm as (width & _ & Hm).
  apply bind_ok in Hm as (rlo & _ & Hm). apply bind_ok in Hm as (rhi & _ & Hm).
  match type of Hm with context [GridDraw.set_range ?te ?a ?b ?g1] =>
    pose proof (set_range_ok te a b g1) as Hok;
    destruct (GridDraw.set_range te a b g1) as [g2 r] end.
  apply bind_ok in Hm as ([] & _ & [= <-]).
  destruct Hok as (Hok & _ & _ & Hsome); [|by split].
  split; [done|]. intros r'. simpl. by rewrite Hn.
Qed.

(** C14: whatever the user does with the mouse, the window and the buttons, and
    whatever exceptions the handlers raise, the bounds of the trace stay what
    [main] set, and the range that is shown is inside them and not inverted,
    unless it was asked for wholly beyond the end or wholly before the start of
    the trace: then one edge is at that bound and the other one is outside
    ([range_dragged_out] is such a drag). *)
Theorem shown_range_in_bounds `{DictOrder string} te fs argv s es :
  main te fs argv = Ok s →
  let g0 := w_data s.1 in
  let g := w_data (run_events te es s).1 in
  g_start g = g_start g0 ∧ g_end g = g_end g0 ∧
  ∃ lo hi, g_range g = Some (lo, hi) ∧
    ((nle (g_start g) lo = true ∧ nle lo hi = true ∧ nle hi (g_end g) = true) ∨
     (hi = g_end g ∧ nlt (g_end g) lo = true) ∨
     (lo = g_start g ∧ nlt hi (g_start g) = true)).
Proof.
  unfold main. intros (filename & _ & Hm)%bind_ok. destruct (fs !! filename); [|done].
  apply bind_ok in Hm as (g & Hg & [= <-]). apply main_graphic_ok in Hg as [Hok Hr].
  destruct (keeps_run_events te es (new_gtk g, []) Hok) as ([_ H1] & H2 & H3 & H4).
  destruct (H4 Hr) as [[lo hi] Hr']. split; [done|]. split; [done|].
  exists lo, hi. split; [done|]. by apply (H1 (lo, hi)).
Qed.

(** ** Mouse gestures *)
(** Letting go of an edge that was pressed but not moved raises
    AttributeError: the position of the drag is only set by a motion.  The
    range stays as it was and the edge is no longer held. *)
Theorem release_without_motion te s :
  (moving_left s.1 = true ∧ moving_left_cur s.1 = None →
   button_release te s = ((apply_change (CLeft false) s.1, s.2), Err AttributeError)) ∧
  (moving_left s.1 = false → truthy (moving_right s.1) = true → moving_right_cur s.1 = None →
   button_release te s =
     ((apply_change (CRight (FBool false)) s.1, s.2), Err AttributeError)).
Proof.
  destruct s as [w l]. simpl. unfold button_release. rewrite bind_gets. cbn [fst]. split.
  - intros [-> Hc]. unfold mbind, eff_bind. simpl. by rewrite Hc.
  - intros -> -> Hc. unfold mbind, eff_bind. simpl. by rewrite Hc.
Qed.

(** Steps that leave the widget alone: they only ask something of GTK. *)
Class Still {A} (m : w_eff A) : Prop := still_run : ∀ s, (m s).1.1 = s.1.
#[global] Instance still_mret {A} (a : A) : Still (mret a).
Proof. done. Qed.
#[global] Instance still_lift {A} (r : res A) : Still (lift_res r).
Proof. done. Qed.
#[global] Instance still_gets {A} (h : wstate → A) : Still (gets h).
Proof. done. Qed.
#[global] Instance still_asks {A} (h : GraphicRenderer → res A) : Still (asks h).
Proof. done. Qed.
#[global] Instance still_ask c : Still (ask c).
Proof. done. Qed.
#[global] Instance still_win m : Still (win m).
Proof. intros s. unfold win. by destruct (m []). Qed.
#[global] Instance still_bind {A B} (m : w_eff A) (k : A → w_eff B) :
  Still m → (∀ a, Still (k a)) → Still (m ≫= k).
Proof.
  intros Hm Hk s. unfold mbind, eff_bind. specialize (Hm s).
  destruct (m s) as [s1 [a|e]]; simpl in *; [|done]. by rewrite Hk.
Qed.
#[global] Instance still_if {A} (b : bool) (m1 m2 : w_eff A) :
  Still m1 → Still m2 → Still (if b then m1 else m2).
Proof. by destruct b. Qed.
#[global] Instance still_pair {A B C} (p : A * B) (k : A → B → w_eff C) :
  (∀ a b, Still (k a b)) → Still (let '(a, b) := p in k a b).
Proof. destruct p. auto. Qed.
#[global] Instance still_redraw y h : Still (redraw_selection y h).
Proof. unfold redraw_selection. apply _. Qed.

(** A change, then steps that leave the widget alone. *)
Lemma assign_then_still {A} c (k : unit → w_eff A) s :
  (∀ u, Still (k u)) → ((assign c ≫= k) s).1.1 = apply_change c s.1.
Proof. intros Hk. unfold mbind, eff_bind, assign. simpl. by rewrite Hk. Qed.

Lemma asks_ok {A B} (f : GraphicRenderer → res A) (k : A → w_eff B) s a :
  f (w_data s.1) = Ok a → (asks f ≫= k) s = k a s.
Proof. intros Hf. apply bind_run. unfold asks. rewrite bind_gets. unfold lift_res. by rewrite Hf. Qed.

(** Dragging the right edge to or past the window's edge stores the width
    in the flag and not in the position: the position keeps its old value. *)
Theorem drag_right_past_edge te s x y width height event_x event_y w_w :
  get_selection_rectangle (w_data s.1) = Ok (x, y, width, height) →
  moving_left s.1 = false → truthy (moving_right s.1) = true →
  w_width s.1 = Some w_w → nge event_x w_w = true →
  (motion_notify te event_x event_y s).1.1 = apply_change (CRight (FNum w_w)) s.1 ∧
  moving_right_cur (motion_notify te event_x event_y s).1.1 = moving_right_cur s.1.
Proof.
  intros Hsel Hl Hr Hw Hge.
  assert ((motion_notify te event_x event_y s).1.1 = apply_change (CRight (FNum w_w)) s.1) as ->;
    [|done].
  unfold motion_notify. rewrite (asks_ok _ _ _ _ Hsel), bind_gets, Hl, Hr, Hw.
  simpl attr. rewrite bind_lift_ok, Hge. apply assign_then_still. apply _.
Qed.

(** While the left edge is dragged its position stays between the left
    edge of the window and the right edge of the selection. *)
Theorem drag_left_clamped te s x y width height right event_x event_y :
  get_selection_rectangle (w_data s.1) = Ok (x, y, width, height) →
  moving_left s.1 = true → nadd x width = Ok right → nle #0 right = true →
  is_nan event_x = false →
  ∃ c, moving_left_cur (motion_notify te event_x event_y s).1.1 = Some c ∧
    nle #0 c = true ∧ nle c right = true ∧
    (nle #0 event_x = true → nle event_x right = true → neqb c event_x = true).
Proof.
  intros Hsel Hl Hr Hpos Hnan. destruct (nle_not_nan _ _ Hpos) as [_ Hnr].
  unfold motion_notify. rewrite (asks_ok _ _ _ _ Hsel), bind_gets, Hl.
  destruct (nle event_x #0) eqn:H0.
  { rewrite (assign_then_still _ _ _ _). exists #0. split; [done|]. split; [done|].
    split; [done|]. intros H1 _. by apply neqb_le. }
  rewrite Hr. set (c := if nge event_x right then right else event_x).
  match goal with |- context [(?m ≫= ?k) s] =>
    assert (m s = (apply_change (CLeftCur c) s.1, s.2, Ok ())) as Hm;
    [|rewrite (bind_run m k _ _ _ Hm), still_run] end.
  { rewrite bind_lift_ok. unfold c. by destruct (nge event_x right). }
  exists c. split; [done|].
  assert (nle #0 event_x = true) as H0'.
  { apply nlt_le. rewrite nlt_nle by done. by rewrite H0. }
  unfold c. rewrite nge_le. destruct (nle right event_x) eqn:H1.
  - split; [done|]. split; [by apply nle_refl|]. intros _ H2. by apply neqb_le.
  - split; [done|]. split; [apply nlt_le; rewrite nlt_nle by done; by rewrite H1|].
    intros _ _. apply neqb_le. split; by apply nle_refl.
Qed.

(** Exposing the window again, without a change since the last drawing,
    only paints the buffer: the widget and its buffer stay as they are. *)
Theorem expose_cached te a_x a_y a_width a_height s :
  force_full_redraw s.1 = false → (expose te a_x a_y a_width a_height s).1.1 = s.1.
Proof.
  intros Hf. unfold expose. rewrite bind_gets, Hf, bind_mret. apply still_run.
Qed.

(** The button that saves a picture draws on the buffer of the window and
    writes a new surface: the file that it asks for is an empty picture. *)
Theorem output_png_empty te filename s s' :
  output_png te filename s = (s', Ok ()) →
  ∃ surface, last s'.2 = Some (WritePng surface filename) ∧ s_calls surface = [] ∧
    s_width surface = g_width (w_data s.1) ∧ s_height surface = g_height (w_data s.1).
Proof.
  unfold output_png. rewrite bind_gets.
  intros ([] & s1 & _ & H)%bind_run_inv. injection H as <-. simpl.
  exists (new_surface (w_data s.1)). by rewrite last_snoc.
Qed.

(** ** Concrete instances *)
Definition demo_file : string :=
  of_chars (mjoin (write_entry <$> (demo_entries ++ [ERange "node-0" "state" "idle" 20 200]))).
Definition demo_main : res wstate :=
  main demo_extents {[ "trace" := demo_file ]} ["grid.py"; "trace"].
Definition demo_state : wstate :=
  match demo_main with
  | Ok s => (handle demo_extents (SizeAllocate #400 #300) s).1
  | Err _ => (new_gtk demo_graphic, [])
  end.
(** The demonstration after some events. *)
Definition demo_after (es : list gtk_event) : wstate := run_events demo_extents es demo_state.
Definition demo_selection : num * num * num * num :=
  match get_selection_rectangle (w_data demo_state.1) with
  | Ok r => r
  | Err _ => (#0, #0, #0, #0)
  end.
Definition sel_x : num := demo_selection.1.1.1.
Definition sel_y : num :=
  match nadd demo_selection.1.1.2 #1 with Ok y => y | Err _ => #0 end.
Definition sel_right : num :=
  match nadd sel_x demo_selection.1.2 with Ok y => y | Err _ => #0 end.

Lemma shown_range_witness :
  match demo_main with
  | Ok s => let g := w_data (run_events demo_extents [ZoomOut; ZoomOut] s).1 in
      ∃ lo hi, g_range g = Some (lo, hi) ∧
        nle (g_start g) lo = true ∧ nle lo hi = true ∧ nle hi (g_end g) = true
  | Err _ => False
  end.
Proof.
  destruct demo_main as [s|e] eqn:E.
  - destruct (shown_range_in_bounds demo_extents _ _ s [ZoomOut; ZoomOut] E)
      as (_ & _ & lo & hi & Hr & Hc).
    exists lo, hi. vm_compute in E. injection E as <-. split; [exact Hr|].
    vm_compute in Hr. injection Hr as <- <-.
    destruct Hc as [Hc|[[_ Hc]|[_ Hc]]]; [exact Hc|vm_compute in Hc; discriminate Hc..].
  - vm_compute in E. discriminate E.
Defined.

(** Dragging the data far to the left asks for a range beyond the end of the
    trace: the range that is shown then starts after the end. *)
Example range_dragged_out :
  let g := w_data (demo_after [ButtonPress #250 #50; MotionNotify (PInt (-4000)) #50]).1 in
  match g_range g with
  | Some (lo, hi) => nlt (g_end g) lo && bool_decide (hi = g_end g)
  | None => false
  end = true.
Proof. vm_compute. reflexivity. Qed.

(** Pressing the left edge of the selection and letting go at once. *)
Lemma release_without_motion_witness :
  let s := demo_after [ButtonPress sel_x sel_y] in
  moving_left s.1 = true ∧ moving_left_cur s.1 = None ∧
  button_release demo_extents s = ((apply_change (CLeft false) s.1, s.2), Err AttributeError).
Proof.
  intros s. assert (moving_left s.1 = true ∧ moving_left_cur s.1 = None) as H
    by (vm_compute; split; reflexivity).
  split; [apply H|]. split; [apply H|].
  exact (proj1 (release_without_motion demo_extents s) H).
Defined.

Lemma drag_right_witness :
  let s := demo_after [ButtonPress sel_right sel_y] in
  moving_right s.1 = FBool true ∧
  (motion_notify demo_extents #400 sel_y s).1.1 = apply_change (CRight (FNum #400)) s.1 ∧
  moving_right_cur (motion_notify demo_extents #400 sel_y s).1.1 = None.
Proof.
  intros s. assert (moving_right s.1 = FBool true) as H by (vm_compute; reflexivity).
  split; [exact H|].
  destruct (get_selection_rectangle (w_data s.1)) as [[[[x y] width] height]|e] eqn:E;
    [|vm_compute in E; discriminate E].
  destruct (drag_right_past_edge demo_extents s x y width height #400 sel_y #400 E) as [H1 H2];
    [vm_compute; reflexivity..|].
  split; [exact H1|]. rewrite H2. vm_compute. reflexivity.
Defined.

Lemma drag_left_witness :
  let s := demo_after [ButtonPress sel_x sel_y] in
  ∃ c, moving_left_cur (motion_notify demo_extents #3 sel_y s).1.1 = Some c ∧
    nle #0 c = true ∧ nle c sel_right = true ∧
    (nle #0 #3 = true → nle #3 sel_right = true → neqb c #3 = true).
Proof.
  intros s.
  destruct (get_selection_rectangle (w_data s.1)) as [[[[x y] width] height]|e] eqn:E;
    [|vm_compute in E; discriminate E].
  assert (nadd x width = Ok sel_right) as Hr.
  { vm_compute in E. injection E as <- <- <- <-. vm_compute. reflexivity. }
  exact (drag_left_clamped demo_extents s x y width height sel_right #3 sel_y E
    ltac:(vm_compute; reflexivity) Hr ltac:(vm_compute; reflexivity) ltac:(vm_compute; reflexivity)).
Defined.

Lemma expose_cached_witness :
  let s := demo_after [Expose #0 #0 #400 #300] in
  force_full_redraw s.1 = false ∧ (expose demo_extents #0 #0 #400 #300 s).1.1 = s.1.
Proof.
  intros s. assert (force_full_redraw s.1 = false) as H by (vm_compute; reflexivity).
  split; [exact H|]. exact (expose_cached demo_extents #0 #0 #400 #300 s H).
Defined.

Lemma output_png_witness :
  let s := demo_after [Expose #0 #0 #400 #300] in
  ∃ surface, last (output_png demo_extents "out.png" s).1.2 = Some (WritePng surface "out.png") ∧
    s_calls surface = [] ∧ s_width surface = #400 ∧ s_height surface = #300.
Proof.
  intros s. destruct (output_png demo_extents "out.png" s) as [s' r] eqn:E.
  assert (r = Ok ()) as ->.
  { change r with (s', r).2. rewrite <-E. vm_compute. reflexivity. }
  destruct (output_png_empty demo_extents "out.png" s s' E) as (surface & H1 & H2 & H3 & H4).
  exists surface. rewrite H3, H4. split; [exact H1|]. split; [exact H2|].
  vm_compute. split; reflexivity.
Defined.
