(* ===== verification/Wutils.v ===== *)
(** * src/wutils.py: running a program from waf
    The search for the program that a name means, the environment of its
    process, the command that runs it (plain, under a template, gdb or
    valgrind) and what its exit code becomes.  What waf knows (options,
    configuration, programs of the build) is a record; the processes are a
    parameter: what a command exits with and writes on stderr, or the exception
    of Popen. *)
From Stdlib Require Import Ascii.
From S2P Require Import Prelude PyStr PyPath PyShlex PyFormat.
#[local] Open Scope Z_scope.

(** A program of the build ([bld.all_task_gen]). *)
Record program := {
  pg_name : string;
  is_ns3_program : bool;
  pg_path : string;        (** [obj.path.abspath()] *)
  pg_bld : string;         (** [obj.path.get_bld().abspath()] *)
  pg_node : string;        (** [obj.path.find_or_declare(obj.target).abspath()] *)
}.
(** What the functions read of waf, of [os] and of [sys]. *)
Record waf := {
  launch_dir : string;
  cur_dir : string;
  all_task_gen : list program;
  ns3_module_path : list string;
  ns3_executable_path : list string;
  env_valgrind : list string;
  env_python : list string;
  pymoddir : string;
  pyvizdir : string;
  os_environ : list (string * string);
  platform : string;
  opt_command_template : option string;
  opt_valgrind : bool;
  opt_gdb : bool;
  opt_cwd_launch : string;
  waf_cwd_launch : string;
  signals : list (string * Z);    (** [vars(signal).items()] *)
}.

Definition WafError (msg : string) : exn := PyException ("WafError: " +:+ msg).

(** [x or y] on strings: the empty string counts as false. *)
Definition or_string (o : option string) (d : string) : string :=
  match o with Some s => if decide (s = "") then d else s | None => d end.
Definition get_command_template (w : waf) (arguments : list string) : string :=
  foldl (λ cmd arg, cmd +:+ " " +:+ arg) (or_string (opt_command_template w) "%s") arguments.

(** ** find_program *)
(** The names that mean a program: its own, and its path below the launch directory. *)
Definition program_names (w : waf) (dir : string) (obj : program) : res (list string) :=
  rel ← relpath (cur_dir w) (pg_path obj) dir;
  mret [pg_name obj; path_join rel (pg_name obj)].
Definition in_subtree (dir : string) (obj : program) : bool :=
  startswith (pg_path obj) dir || startswith (pg_bld obj) dir.
Definition not_found (program_name : string) (found : list string) : exn :=
  ValueError ("program '" +:+ program_name +:+ "' not found; available programs are: "
              +:+ repr_list found).
Fixpoint find_program_loop (w : waf) (dir program_name : string) (found : list string)
    (objs : list program) : res program :=
  match objs with
  | [] => Err (not_found program_name found)
  | obj :: objs =>
      if negb (is_ns3_program obj) then find_program_loop w dir program_name found objs
      else if negb (in_subtree dir obj) then find_program_loop w dir program_name found objs
      else
        names ← program_names w dir obj;
        if bool_decide (program_name ∈ names) then Ok obj
        else find_program_loop w dir program_name (found ++ names) objs
  end.
Definition find_program (w : waf) (program_name : string) : res program :=
  find_program_loop w (abspath (cur_dir w) (launch_dir w)) program_name [] (all_task_gen w).

(** ** get_proc_env *)
Inductive event :=
| EvWarn (msg : string)
| EvPopen (argv : list string) (env : list (string * string)) (cwd : option string)
          (stderr_pipe : bool)
| EvStderr (text : string).
Abbreviation io := (eff (list event) exn).
Definition emit (e : event) : io unit := modify (λ l, l ++ [e]).

Definition path_variable (w : waf) : io string :=
  let p := platform w in
  if bool_decide (p = "linux2" ∨ p = "linux") then mret "LD_LIBRARY_PATH"
  else if bool_decide (p = "darwin") then mret "DYLD_LIBRARY_PATH"
  else if bool_decide (p = "win32") then mret "PATH"
  else if bool_decide (p = "cygwin") then mret "PATH"
  else if startswith p "freebsd" then mret "LD_LIBRARY_PATH"
  else
    _ ← emit (EvWarn ("Don't know how to configure dynamic library path for the platform "
              +:+ repr_string p +:+ "; assuming it's LD_LIBRARY_PATH."));
    mret "LD_LIBRARY_PATH".
Definition pathsep (w : waf) : string := if decide (platform w = "win32") then ";" else ":".
(** [dict.update] *)
Definition dict_update (d : list (string * string)) (l : list (string * string)) :=
  foldl (λ d kv, dict_set d kv.1 kv.2) d l.
(** Puts directories in front of what the variable holds. *)
Definition prepend (w : waf) (var : string) (dirs : list string) (env : list (string * string))
    : list (string * string) :=
  match dict_get env var with
  | Some old => dict_set env var (join (pathsep w) (dirs ++ [old]))
  | None => dict_set env var (join (pathsep w) dirs)
  end.
Definition get_proc_env (w : waf) (os_env : option (list (string * string)))
    : io (list (string * string)) :=
  pathvar ← path_variable w;
  let proc_env := dict_update (os_environ w) (default [] os_env) in
  let proc_env := prepend w pathvar (ns3_module_path w) proc_env in
  let proc_env := prepend w "PYTHONPATH" [pymoddir w; pyvizdir w] proc_env in
  mret (prepend w "PATH" (ns3_executable_path w) proc_env).

(** ** run_argv *)
Section run.
(** What a process does: its exit code and what it writes on stderr; or the
    message of the OSError of Popen. *)
Context (process : list string → result string (Z * string)).

Definition popen (argv : list string) (env : list (string * string)) (cwd : option string)
    (stderr_pipe : bool) (error : string → exn) : io (Z * string) :=
  _ ← emit (EvPopen argv env cwd stderr_pipe);
  lift_res (match process argv with Ok r => Ok r | Err msg => Err (error msg) end).
Definition os_error (msg : string) : exn := OSError.

Definition on_windows (w : waf) : bool := bool_decide (platform w = "win32").
(** The name of a signal: the first constant SIGx of the module with the number. *)
Definition is_signal_name (name : string) : bool :=
  (3 <? String.length name)%nat && startswith name "SIG"
  && negb (bool_decide (String.get 3 name = Some "_"%char)).
Definition signal_name (w : waf) (n : Z) : option string :=
  fst <$> head (filter (λ kv, is_signal_name kv.1 = true ∧ kv.2 = n) (signals w)).

Definition debugger_hint : string :=
  " Run it under a debugger to get more information (./waf --run <program> --gdb"
  +:+ String dquote ").".
Definition exit_error (w : waf) (argv : list string) (retval : Z) : exn :=
  match (if retval <? 0 then signal_name w (- retval) else None) with
  | Some signame =>
      WafError ("Command " +:+ repr_list argv +:+ " terminated with signal " +:+ signame
                +:+ "." +:+ debugger_hint)
  | None => WafError ("Command " +:+ repr_list argv +:+ " exited with code " +:+ pretty retval)
  end.

(** WindowsError is caught where it exists. *)
Definition run_plain (w : waf) (argv : list string) (env : list (string * string))
    (cwd : option string) : io Z :=
  r ← popen argv env cwd false (λ msg,
        if on_windows w
        then WafError ("Command " +:+ repr_list argv +:+ " raised exception " +:+ msg)
        else OSError);
  mret r.1.
(** [for line in stderrdata]: a text is iterated character by character. *)
Definition leak_summary : string := "== LEAK SUMMARY".
Fixpoint scan_stderr (l : list ascii) (error : bool) : io bool :=
  match l with
  | [] => mret error
  | a :: l =>
      let line := String a "" in
      _ ← emit (EvStderr line);
      scan_stderr l (if contains line leak_summary then true else error)
  end.
Definition run_valgrind (w : waf) (argv : list string) (env : list (string * string))
    (cwd : option string) : io (list string * Z) :=
  match env_valgrind w with
  | [] => throw (WafError "valgrind is not installed")
  | valgrind :: _ =>
      let argv := [valgrind; "--leak-check=full"; "--show-reachable=yes"; "--error-exitcode=1"]
                  ++ argv in
      r ← popen argv env cwd true os_error;
      error ← scan_stderr (chars r.2) false;
      mret (argv, if (r.1 =? 0) && error then 1 else r.1)
  end.
Definition check_conflicts (w : waf) : res unit :=
  let template := bool_decide (or_string (opt_command_template w) "" ≠ "") in
  if opt_valgrind w && template then
    Err (WafError "Options --command-template and --valgrind are conflicting")
  else if opt_gdb w && template then
    Err (WafError "Options --command-template and --gdb are conflicting")
  else if opt_gdb w && opt_valgrind w then
    Err (WafError "Options --valgrind and --gdb are conflicting")
  else Ok ().
Definition run_argv (w : waf) (argv : list string) (os_env : option (list (string * string)))
    (cwd : option string) (force_no_valgrind : bool) : io Z :=
  proc_env ← get_proc_env w os_env;
  _ ← lift_res (check_conflicts w);
  if opt_gdb w then
    r ← popen (["gdb"; "--args"] ++ argv) proc_env cwd false os_error;
    mret r.1
  else
    '(argv, retval) ←
      (if opt_valgrind w && negb force_no_valgrind then run_valgrind w argv proc_env cwd
       else retval ← run_plain w argv proc_env cwd; mret (argv, retval));
    if decide (retval ≠ 0) then throw (exit_error w argv retval) else mret retval.

(** ** get_run_program, run_program, run_python_program *)
(** [program_name.rsplit('.', 1)[0]] of a name that ends with [.cc] *)
Definition strip_cc (name : string) : string :=
  if endswith name ".cc" then of_chars (take (String.length name - 3) (chars name)) else name.
(** [except ValueError as ex: raise WafError(str(ex))] *)
Definition find_or_waf_error (w : waf) (name : string) : res program :=
  match find_program w name with
  | Err (ValueError msg) => Err (WafError msg)
  | r => r
  end.
(** [tmpl.replace('\\', '\\\\')] *)
Definition double_backslashes (s : string) : string :=
  of_chars (mjoin ((λ a, if decide (a = "\"%char) then ["\"%char; "\"%char] else [a]) <$> chars s)).
Definition get_run_program (w : waf) (program_string : string) (command_template : option string)
    : res (string * list string) :=
  if decide (command_template = None ∨ command_template = Some "%s") then
    argv ← shlex_split program_string;
    first ← py_index argv 0;
    let program_name := strip_cc first in
    obj ← find_or_waf_error w program_name;
    mret (program_name, pg_node obj :: drop 1 argv)
  else
    let program_name := strip_cc program_string in
    obj ← find_or_waf_error w program_name;
    tmpl ← percent (default "" command_template) (pg_node obj);
    execvec ← shlex_split (double_backslashes tmpl);
    mret (program_name, execvec).

Definition launch_cwd (w : waf) : string :=
  if decide (opt_cwd_launch w = "") then waf_cwd_launch w else opt_cwd_launch w.
Definition visualize_arg : string := "--SimulatorImplementationType=ns3::VisualSimulatorImpl".
Definition run_program (w : waf) (program_string : string) (command_template : option string)
    (cwd : option string) (visualize : bool) : io Z :=
  '(_, execvec) ← lift_res (get_run_program w program_string command_template);
  let cwd := match cwd with Some d => d | None => launch_cwd w end in
  let execvec := if visualize then execvec ++ [visualize_arg] else execvec in
  run_argv w execvec None (Some cwd) false.
Definition run_python_program (w : waf) (program_string : string) (visualize : bool) : io Z :=
  execvec ← lift_res (shlex_split program_string);
  let cwd := launch_cwd w in
  let execvec := if visualize then execvec ++ [visualize_arg] else execvec in
  python ← lift_res (py_index (env_python w) 0);
  run_argv w (python :: execvec) None (Some cwd) false.
End run.

(** ** uniquify_list *)
Fixpoint uniquify_loop (seen : gset string) (seq : list string) : list string :=
  match seq with
  | [] => []
  | x :: seq =>
      if decide (x ∈ seen) then uniquify_loop seen seq
      else x :: uniquify_loop ({[ x ]} ∪ seen) seq
  end.
Definition uniquify_list (seq : list string) : list string := uniquify_loop ∅ seq.

(** ** Words of a command line *)
(** A word that needs no quoting, backslashes aside. *)
Definition plain_char (a : ascii) : Prop := shlex_white a = false ∧ shlex_quote a = false.
Definition word_plain (s : string) : Prop := s ≠ "" ∧ Forall plain_char (chars s).
Definition escape (l : list ascii) : list ascii :=
  mjoin ((λ a, if decide (a = "\"%char) then ["\"%char; "\"%char] else [a]) <$> l).

Lemma escape_app l k : escape (l ++ k) = escape l ++ escape k.
Proof. unfold escape. by rewrite fmap_app, join_app. Qed.

(** One escaped character, in a word or before one. *)
Lemma shlex_char st token a rest :
  plain_char a → (st = SWhite ∧ token = []) ∨ st = SWord →
  shlex_chars st token false (escape [a] ++ rest) = shlex_chars SWord (token ++ [a]) false rest.
Proof.
  intros [Hw Hq] Hst. unfold escape. simpl. case_decide as Ha; subst; simpl.
  - by destruct Hst as [[-> ->]| ->].
  - destruct Hst as [[-> ->]| ->]; simpl; rewrite Hw, Hq, ?decide_False by done; done.
Qed.
Lemma shlex_word st token s rest :
  Forall plain_char s → (s ≠ [] ∧ st = SWhite ∧ token = []) ∨ st = SWord →
  shlex_chars st token false (escape s ++ rest) = shlex_chars SWord (token ++ s) false rest.
Proof.
  intros Hs. revert st token. induction Hs as [|a s Ha Hs IH]; intros st token Hst.
  - destruct Hst as [[? ?]| ->]; [done|]. simpl. by rewrite app_nil_r.
  - change (a :: s) with ([a] ++ s). rewrite escape_app, <-app_assoc, shlex_char by naive_solver.
    rewrite IH by naive_solver. by rewrite <-app_assoc.
Qed.

Lemma double_backslashes_chars s : chars (double_backslashes s) = escape (chars s).
Proof. unfold double_backslashes. by rewrite chars_of_chars. Qed.

(** Doubling the backslashes keeps them through [shlex.split]. *)
Lemma shlex_split_escaped ws :
  Forall word_plain ws → shlex_split (double_backslashes (join " " ws)) = Ok ws.
Proof.
  unfold shlex_split. rewrite double_backslashes_chars.
  induction 1 as [|s ws [Hne Hs] Hws IH]; [done|].
  assert (chars s ≠ []) as Hne'.
  { intros Hn. apply Hne, chars_inj. by rewrite Hn. }
  destruct ws as [|s2 ws].
  - simpl join. rewrite <-(app_nil_r (escape (chars s))), shlex_word by auto. simpl.
    rewrite decide_True by (by left). by rewrite of_chars_chars.
  - change (join " " (s :: s2 :: ws)) with (s +:+ " " +:+ join " " (s2 :: ws)).
    rewrite !chars_app, !escape_app, shlex_word by auto.
    change (escape (chars " ")) with [" "%char].
    set (tail := escape (chars (join " " (s2 :: ws)))) in *. simpl app. cbn [shlex_chars]. change (shlex_white " ") with true. cbv iota.
    rewrite IH. simpl. rewrite decide_True by (by left). by rewrite of_chars_chars.
Qed.

Lemma join_words_app l s k : join " " (l ++ [s] ++ k) =
  cat ((λ w, w +:+ " ") <$> l) +:+ s +:+ cat ((λ w, " " +:+ w) <$> k).
Proof.
  assert (∀ s k, join " " (s :: k) = s +:+ cat ((λ w, " " +:+ w) <$> k)) as Htail.
  { clear. intros s k. revert s. induction k as [|w k IH]; intros s; [simpl; by rewrite append_nil_r|].
    change (join " " (s :: w :: k)) with (s +:+ " " +:+ join " " (w :: k)). rewrite IH.
    simpl. by rewrite !append_assoc. }
  induction l as [|w l IH]; simpl app; [apply Htail|].
  simpl fmap. cbn [cat foldr]. rewrite !append_assoc. destruct l as [|w2 l].
  - cbn [app]. change (join " " (w :: s :: k)) with (w +:+ " " +:+ join " " (s :: k)).
    by rewrite Htail.
  - cbn [app] in *. change (join " " (w :: w2 :: l ++ s :: k))
      with (w +:+ " " +:+ join " " (w2 :: l ++ s :: k)). rewrite IH. by rewrite ?append_assoc.
Qed.

Lemma cat_chars_notin (c : ascii) (l : list string) :
  Forall (λ s, c ∉ chars s) l → c ∉ chars (cat l).
Proof. induction 1; simpl; [set_solver|]. rewrite chars_app. set_solver. Qed.

(** Under a command template of plain words with one [%s], the command is
    the words of the template with the program's path, backslashes included,
    in the place of [%s]. *)
Theorem template_command w name obj ws1 ws2 :
  find_program w (strip_cc name) = Ok obj →
  Forall word_plain (ws1 ++ [pg_node obj] ++ ws2) →
  Forall (λ s, "%"%char ∉ chars s) (ws1 ++ ws2) → ws1 ++ ws2 ≠ [] →
  get_run_program w name (Some (join " " (ws1 ++ ["%s"] ++ ws2))) =
    Ok (strip_cc name, ws1 ++ [pg_node obj] ++ ws2).
Proof.
  intros Hf Hplain Hpct Hne. unfold get_run_program.
  apply Forall_app in Hpct as [Hp1 Hp2].
  assert (join " " (ws1 ++ ["%s"] ++ ws2) ≠ "%s") as Hnot.
  { rewrite join_words_app. intros Heq. apply (f_equal chars), (f_equal length) in Heq.
    rewrite !chars_app, !length_app in Heq. simpl in Heq.
    destruct ws1 as [|s1 ws1]; [destruct ws2 as [|s2 ws2]; [done|]|];
      simpl in Heq; rewrite ?chars_app, ?length_app in Heq; simpl in Heq; lia. }
  rewrite decide_False by (intros [?|[= ?]]; done).
  unfold find_or_waf_error. rewrite Hf. cbn [mbind result_bind].
  change (default "" (Some ?t)) with t. rewrite join_words_app.
  rewrite percent_s.
  - cbn [mbind result_bind]. by rewrite <-join_words_app, shlex_split_escaped.
  - apply cat_chars_notin, Forall_fmap. eapply Forall_impl; [exact Hp1|].
    intros s Hs. simpl. rewrite chars_app. set_solver.
  - apply cat_chars_notin, Forall_fmap. eapply Forall_impl; [exact Hp2|].
    intros s Hs. simpl. set_solver.
Qed.

(** ** The search for a program *)
Definition eligible (w : waf) (obj : program) : Prop :=
  is_ns3_program obj = true ∧ in_subtree (abspath (cur_dir w) (launch_dir w)) obj = true.
#[export] Instance eligible_dec w obj : Decision (eligible w obj).
Proof. unfold eligible. apply _. Defined.
Definition names_of (w : waf) (obj : program) : list string :=
  match program_names w (abspath (cur_dir w) (launch_dir w)) obj with Ok l => l | Err _ => [] end.

Lemma program_names_ok w dir obj :
  pg_path obj ≠ "" → ∃ l, program_names w dir obj = Ok l.
Proof.
  intros Hp. unfold program_names, relpath. rewrite decide_False by done.
  destruct (strip_common _ _) as [up down]. simpl. eauto.
Qed.

Lemma find_program_loop_spec w name found objs :
  Forall (λ obj, pg_path obj ≠ "") objs →
  let candidates := filter (eligible w) objs in
  find_program_loop w (abspath (cur_dir w) (launch_dir w)) name found objs =
    match filter (λ obj, name ∈ names_of w obj) candidates with
    | obj :: _ => Ok obj
    | [] => Err (not_found name (found ++ mjoin (names_of w <$> candidates)))
    end.
Proof.
  intros Hp. revert found. induction Hp as [|obj objs Hobj Hp IH]; intros found; simpl.
  { by rewrite app_nil_r. }
  rewrite filter_cons. destruct (decide (eligible w obj)) as [[-> ->]|Hne]; simpl.
  2:{ unfold eligible in Hne. rewrite <-IH.
      destruct (is_ns3_program obj), (in_subtree _ obj); try done. by destruct Hne. }
  rewrite filter_cons.
  destruct (program_names_ok w (abspath (cur_dir w) (launch_dir w)) obj Hobj) as [l Hl].
  assert (names_of w obj = l) as Hn by (unfold names_of; by rewrite Hl).
  rewrite Hl. simpl. rewrite <-Hn. destruct (decide (name ∈ names_of w obj)) as [Hin|Hin].
  - by rewrite bool_decide_eq_true_2.
  - rewrite bool_decide_eq_false_2 by done. rewrite IH. by rewrite app_assoc.
Qed.

(** [find_program] answers the first program of the build that is an ns-3
    program below the launch directory and has the name, either its own or
    its path from there; if there is none it raises ValueError, whose message
    lists every name that would have done. *)
Theorem find_program_spec w name :
  Forall (λ obj, pg_path obj ≠ "") (all_task_gen w) →
  let candidates := filter (eligible w) (all_task_gen w) in
  find_program w name =
    match filter (λ obj, name ∈ names_of w obj) candidates with
    | obj :: _ => Ok obj
    | [] => Err (not_found name (mjoin (names_of w <$> candidates)))
    end.
Proof. intros Hp. by apply (find_program_loop_spec w name []). Qed.

(** ** The environment of the process *)
Lemma prepend_get w var dirs env k :
  dict_get (prepend w var dirs env) k =
    if decide (var = k)
    then Some (join (pathsep w) (dirs ++ option_list (dict_get env var)))
    else dict_get env k.
Proof.
  unfold prepend. destruct (dict_get env var) as [old|] eqn:E; rewrite dict_get_set; [done|].
  simpl. by rewrite app_nil_r.
Qed.

(** The commands that a run starts. *)
Definition popens (tr : list event) : list (list string) :=
  omap (λ e, match e with EvPopen a _ _ _ => Some a | _ => None end) tr.

Lemma path_variable_ok w tr : ∃ v new, path_variable w tr = (tr ++ new, Ok v) ∧ popens new = [] ∧
  v ∈ ["LD_LIBRARY_PATH"; "DYLD_LIBRARY_PATH"; "PATH"].
Proof.
  unfold path_variable.
  repeat (case_match; [eexists _, []; rewrite app_nil_r; split; [reflexivity|];
    split; [done|]; by apply (bool_decide_unpack _)|]).
  eexists _, [_]. split; [reflexivity|]. split; [done|]. by apply (bool_decide_unpack _).
Qed.

(** The process of a program sees the caller's variables over those of
    waf, with the directories of the modules, of the Python bindings and of the
    executables put in front of the library path, PYTHONPATH and PATH; no other
    variable changes. *)
Theorem get_proc_env_spec w os_env tr :
  let base := dict_update (os_environ w) (default [] os_env) in
  ∃ v new env, get_proc_env w os_env tr = (tr ++ new, Ok env) ∧ popens new = [] ∧
    v ∈ ["LD_LIBRARY_PATH"; "DYLD_LIBRARY_PATH"; "PATH"] ∧
    let old k := option_list (dict_get base k) in
    let sep := pathsep w in
    dict_get env "PYTHONPATH" = Some (join sep ([pymoddir w; pyvizdir w] ++ old "PYTHONPATH")) ∧
    (v ≠ "PATH" → dict_get env v = Some (join sep (ns3_module_path w ++ old v)) ∧
      dict_get env "PATH" = Some (join sep (ns3_executable_path w ++ old "PATH"))) ∧
    (v = "PATH" → dict_get env "PATH" =
      Some (join sep (ns3_executable_path w ++ [join sep (ns3_module_path w ++ old "PATH")]))) ∧
    ∀ k, k ∉ [v; "PYTHONPATH"; "PATH"] → dict_get env k = dict_get base k.
Proof.
  intros base. destruct (path_variable_ok w tr) as (v & new & Hv & Hpop & Hin).
  eexists v, new, _. unfold get_proc_env. rewrite (bind_run _ _ _ _ _ Hv).
  split; [reflexivity|]. split; [done|]. split; [done|]. fold base. cbv zeta.
  assert (v ≠ "PYTHONPATH") as Hpy.
  { intros ->. apply (bool_decide_pack _) in Hin. by vm_compute in Hin. }
  split; [|split; [|split]].
  - rewrite !prepend_get. rewrite (decide_False (P := "PATH" = "PYTHONPATH")) by done.
    rewrite decide_True by done. by rewrite (decide_False (P := v = "PYTHONPATH")).
  - intros Hne. rewrite !prepend_get. rewrite (decide_False (P := "PATH" = v)) by congruence.
    rewrite (decide_False (P := "PYTHONPATH" = v)) by congruence.
    rewrite !(decide_True (P := v = v)), (decide_True (P := "PATH" = "PATH")) by done.
    rewrite (decide_False (P := "PYTHONPATH" = "PATH")) by done.
    by rewrite (decide_False (P := v = "PATH")).
  - intros ->. rewrite !prepend_get.
    rewrite !(decide_True (P := "PATH" = "PATH")) by done.
    by rewrite (decide_False (P := "PYTHONPATH" = "PATH")).
  - intros k Hk. rewrite !not_elem_of_cons in Hk. destruct Hk as (H1 & H2 & H3 & _).
    rewrite !prepend_get. by rewrite !decide_False by congruence.
Qed.

(** ** Running a command *)
Section run_spec.
Context (process : list string → result string (Z * string)).

Lemma scan_stderr_spec l tr : ∃ new, scan_stderr l false tr = (tr ++ new, Ok false) ∧ popens new = [].
Proof.
  revert tr. induction l as [|a l IH]; intros tr; simpl.
  { exists []. by rewrite app_nil_r. }
  assert (contains (String a "") leak_summary = false) as ->.
  { by destruct a as [[][][][][][][][]]. }
  unfold emit. rewrite bind_modify. destruct (IH (tr ++ [EvStderr (String a "")])) as (new & -> & Hn).
  exists (EvStderr (String a "") :: new). by rewrite <-app_assoc.
Qed.

(** The command that [run_argv] starts, if it starts one. *)
Definition command_line (w : waf) (argv : list string) (force_no_valgrind : bool)
    : res (list string) :=
  _ ← check_conflicts w;
  if opt_gdb w then Ok (["gdb"; "--args"] ++ argv)
  else if opt_valgrind w && negb force_no_valgrind then
    match env_valgrind w with
    | [] => Err (WafError "valgrind is not installed")
    | valgrind :: _ =>
        Ok ([valgrind; "--leak-check=full"; "--show-reachable=yes"; "--error-exitcode=1"] ++ argv)
    end
  else Ok argv.
(** What the caller gets from a command's end. *)
Definition outcome (w : waf) (force_no_valgrind : bool) (cmd : list string) : res Z :=
  match process cmd with
  | Ok (code, _) =>
      if opt_gdb w then Ok code
      else if code =? 0 then Ok 0 else Err (exit_error w cmd code)
  | Err msg =>
      if on_windows w && negb (opt_gdb w) && negb (opt_valgrind w && negb force_no_valgrind)
      then Err (WafError ("Command " +:+ repr_list cmd +:+ " raised exception " +:+ msg))
      else Err OSError
  end.

(** [run_argv] starts at most one process: none when the options
    conflict or valgrind is missing, else the program, alone or under gdb or
    valgrind.  Under gdb it answers the exit code; else it answers 0 if the
    command exits with 0 and raises WafError if not.  What valgrind writes
    makes no difference: a leak summary is never found. *)
Theorem run_argv_outcome w argv os_env cwd force tr :
  ∃ new, (run_argv process w argv os_env cwd force tr).1 = tr ++ new ∧
    match command_line w argv force with
    | Err e => (run_argv process w argv os_env cwd force tr).2 = Err e ∧ popens new = []
    | Ok cmd => (run_argv process w argv os_env cwd force tr).2 = outcome w force cmd ∧
                popens new = [cmd]
    end.
Proof.
  assert (∃ new env, get_proc_env w os_env tr = (tr ++ new, Ok env) ∧ popens new = [])
    as (n1 & env & He & Hp).
  { destruct (path_variable_ok w tr) as (v & new & Hv & Hpop & _). eexists new, _.
    unfold get_proc_env. rewrite (bind_run _ _ _ _ _ Hv). done. }
  unfold run_argv. rewrite (bind_run _ _ _ _ _ He). unfold command_line, outcome.
  destruct (check_conflicts w) as [[]|e]; [|exists n1; by rewrite bind_lift_err].
  rewrite bind_lift_ok. cbn [mbind result_bind]. destruct (opt_gdb w) eqn:Eg.
  { exists (n1 ++ [EvPopen (["gdb"; "--args"] ++ argv) env cwd false]).
    unfold popen, emit, popens in *. unfold mbind, eff_bind. simpl.
    rewrite omap_app, Hp. destruct (process _) as [[code err]|msg]; simpl;
      rewrite app_assoc, ?andb_false_r; by repeat split. }
  destruct (opt_valgrind w && negb force) eqn:Ev.
  - unfold run_valgrind. destruct (env_valgrind w) as [|vg vgs]; [by exists n1|].
    set (cmd := [vg; _; _; _] ++ argv).
    destruct (process cmd) as [[code err]|msg] eqn:Epr.
    + destruct (scan_stderr_spec (chars err) ((tr ++ n1) ++ [EvPopen cmd env cwd true]))
        as (n2 & Hs & Hn2).
      exists (n1 ++ [EvPopen cmd env cwd true] ++ n2). unfold popens in *.
      rewrite !omap_app, Hp, Hn2.
      unfold popen, emit, mbind, eff_bind in *. simpl. rewrite Epr. simpl. rewrite Hs. simpl.
      rewrite andb_false_r. rewrite !app_assoc. simpl.
      destruct (Z.eqb_spec code 0) as [->|Hc]; simpl.
      * by rewrite <-!app_assoc.
      * rewrite decide_True by done. simpl. by rewrite <-!app_assoc.
    + exists (n1 ++ [EvPopen cmd env cwd true]). unfold popens in *. rewrite omap_app, Hp.
      unfold popen, emit, mbind, eff_bind. simpl. rewrite Epr. simpl.
      by rewrite andb_false_r, app_assoc.
  - exists (n1 ++ [EvPopen argv env cwd false]). unfold popens in *. rewrite omap_app, Hp.
    unfold run_plain, popen, emit, mbind, eff_bind. simpl.
    destruct (process argv) as [[code err]|msg]; simpl; rewrite app_assoc, ?andb_true_r.
    + destruct (Z.eqb_spec code 0) as [->|Hc]; simpl; [by repeat split|].
      rewrite decide_True by done. by repeat split.
    + by destruct (on_windows w).
Qed.
End run_spec.

(** ** uniquify_list *)
Lemma uniquify_loop_spec seen seq :
  NoDup (uniquify_loop seen seq) ∧
  (∀ x, x ∈ uniquify_loop seen seq ↔ x ∈ seq ∧ x ∉ seen) ∧
  uniquify_loop seen seq `sublist_of` seq.
Proof.
  revert seen. induction seq as [|x seq IH]; intros seen; simpl.
  { split; [constructor|]. split; [set_solver|done]. }
  case_decide as Hx.
  - destruct (IH seen) as (H1 & H2 & H3). split; [done|]. split; [|by constructor].
    intros y. rewrite H2. set_solver.
  - destruct (IH ({[x]} ∪ seen)) as (H1 & H2 & H3). split; [|split; [|by constructor]].
    + constructor; [|done]. rewrite H2. set_solver.
    + intros y. rewrite !elem_of_cons, H2. destruct (decide (y = x)); set_solver.
Qed.

Lemma uniquify_loop_fixed seen seq :
  NoDup seq → (∀ x, x ∈ seq → x ∉ seen) → uniquify_loop seen seq = seq.
Proof.
  intros Hnd. revert seen. induction Hnd as [|x seq Hx Hnd IH]; intros seen Hs; simpl; [done|].
  rewrite decide_False by (apply Hs; by left). f_equal. apply IH. set_solver.
Qed.

(** [uniquify_list] keeps the first of equal elements: the result has no
    duplicates, the same elements, in their order; it is its own result. *)
Theorem uniquify_list_spec seq :
  NoDup (uniquify_list seq) ∧ (∀ x, x ∈ uniquify_list seq ↔ x ∈ seq) ∧
  uniquify_list seq `sublist_of` seq ∧ uniquify_list (uniquify_list seq) = uniquify_list seq.
Proof.
  unfold uniquify_list. destruct (uniquify_loop_spec ∅ seq) as (H1 & H2 & H3).
  split; [done|]. split; [set_solver|]. split; [done|].
  apply uniquify_loop_fixed; [done|set_solver].
Qed.

(** ** Concrete instances *)
Definition demo_waf : waf :=
  {| launch_dir := "/ns3"; cur_dir := "/ns3";
     all_task_gen :=
       [{| pg_name := "lib"; is_ns3_program := false; pg_path := "/ns3/src"; pg_bld := "/ns3/build/src";
           pg_node := "/ns3/build/src/lib" |};
        {| pg_name := "udp"; is_ns3_program := true; pg_path := "/ns3/examples/udp";
           pg_bld := "/ns3/build/examples/udp"; pg_node := "/ns3/build/examples/udp/udp" |}];
     ns3_module_path := ["/ns3/build"]; ns3_executable_path := ["/ns3/build/utils"];
     env_valgrind := ["/usr/bin/valgrind"]; env_python := ["/usr/bin/python"];
     pymoddir := "/ns3/build/bindings/python"; pyvizdir := "/ns3/src/visualizer";
     os_environ := [("PATH", "/bin")]; platform := "linux"; opt_command_template := None;
     opt_valgrind := false; opt_gdb := false; opt_cwd_launch := ""; waf_cwd_launch := "/ns3";
     signals := [("SIG_DFL", 0); ("SIGSEGV", 11)] |}.

Lemma template_command_witness :
  get_run_program demo_waf "udp.cc" (Some "gdb --args %s --n=1") =
    Ok ("udp", ["gdb"; "--args"; "/ns3/build/examples/udp/udp"; "--n=1"]).
Proof.
  refine (template_command demo_waf "udp.cc"
    {| pg_name := "udp"; is_ns3_program := true; pg_path := "/ns3/examples/udp";
       pg_bld := "/ns3/build/examples/udp"; pg_node := "/ns3/build/examples/udp/udp" |}
    ["gdb"; "--args"] ["--n=1"] _ _ _ _).
  - vm_compute. reflexivity.
  - repeat constructor; done.
  - by apply (bool_decide_unpack _).
  - done.
Defined.

Lemma find_program_witness :
  Forall (λ obj, pg_path obj ≠ "") (all_task_gen demo_waf) ∧
  find_program demo_waf "tcp" =
    Err (not_found "tcp" ["udp"; "examples/udp/udp"]).
Proof.
  assert (Forall (λ obj, pg_path obj ≠ "") (all_task_gen demo_waf)) as H by (repeat constructor; done).
  split; [exact H|]. rewrite (find_program_spec demo_waf "tcp" H). vm_compute. reflexivity.
Defined.
