(* ===== verification/PyFs.v ===== *)
(** * Paths and files of the Python library
    [pathlib] of POSIX systems, and a file system: a map from absolute paths
    (their components below the root) to directories and files, with the calls
    that create directories and files and remove trees.  The calls follow a
    path as the kernel does: [..] leads to the parent of the directory that was
    reached.  There are no symbolic links.  What the system refuses is a
    parameter. *)
From Stdlib Require Import Ascii.
From S2P Require Import Prelude PyStr PyRe PyFormat.

(** ** Pure paths *)
Record ppath := { root : string; comps : list string }.

#[export] Instance ppath_eq_dec : EqDecision ppath.
Proof. solve_decision. Defined.

(** [Path(s)]: empty and [.] components vanish. *)
Definition is_component (s : string) : bool := bool_decide (s ≠ "" ∧ s ≠ ".").
Definition parse_path (s : string) : ppath :=
  {| root := if startswith s "/" then
               (if startswith s "//" && negb (startswith s "///") then "//" else "/")
             else "";
     comps := filter (λ c, is_component c = true) (split "/" s) |}.
Definition parts (p : ppath) : list string :=
  if decide (root p = "") then comps p else root p :: comps p.
Definition is_absolute (p : ppath) : bool := bool_decide (root p ≠ "").
(** [p.joinpath(q)]: an absolute argument replaces the path. *)
Definition join_path (p q : ppath) : ppath :=
  if is_absolute q then q else {| root := root p; comps := comps p ++ comps q |}.
Definition joinpath (p : ppath) (s : string) : ppath := join_path p (parse_path s).
(** [str(p)] *)
Definition path_str (p : ppath) : string :=
  let s := root p +:+ join "/" (comps p) in if decide (s = "") then "." else s.
(** [p.relative_to(q)] *)
Definition relative_to (p q : ppath) : res ppath :=
  if decide (root p = root q ∧ take (length (comps q)) (comps p) = comps q)
  then Ok {| root := ""; comps := drop (length (comps q)) (comps p) |}
  else Err (ValueError (repr_string (path_str p) +:+ " does not start with "
                        +:+ repr_string (path_str q))).
(** The name of the last component without its suffix: what follows the last
    dot, if the dot is neither the first nor the last character. *)
Definition name_stem (name : string) : string :=
  match span (λ a, bool_decide (a ≠ "."%char)) (reverse (chars name)) with
  | (_ :: _, _ :: (_ :: _) as stem) => of_chars (reverse stem)
  | _ => name
  end.
(** [p.with_suffix(suffix)], of a suffix that starts with a dot. *)
Definition with_suffix (p : ppath) (suffix : string) : res ppath :=
  match reverse (comps p) with
  | [] => Err (ValueError "empty name")
  | name :: dir =>
      Ok {| root := root p; comps := reverse dir ++ [name_stem name +:+ suffix] |}
  end.

Example path_ex :
  (parts (joinpath (parse_path "/ns3//./contrib/") "a/b"), path_str (parse_path "//x/."),
   comps <$> with_suffix (parse_path "m/a-helper") ".cc", comps <$> with_suffix (parse_path "a.b.c") ".h",
   comps <$> relative_to (parse_path "src/udp") (parse_path "src"), parts (parse_path ".")) =
  (["/"; "ns3"; "contrib"; "a"; "b"], "//x", Ok ["m"; "a-helper.cc"], Ok ["a.b.h"], Ok ["udp"], []).
Proof. vm_compute. reflexivity. Qed.

(** ** The file system *)
Inductive fnode : Type := Dir | File (content : string).
#[export] Instance fnode_eq_dec : EqDecision fnode.
Proof. solve_decision. Defined.

Abbreviation path := (list string).
Abbreviation fsys := (gmap path fnode).

(** What the system refuses: a directory or a file that may not be created,
    a write that fails after a part of the text, and the removal of a tree that
    fails, with the entries below the directory that are still there then. *)
Record os := {
  mkdir_allowed : path → bool;
  open_allowed : path → bool;
  write_stop : path → string → option string;
  rmtree_stop : path → option (list path);
}.

(** The root always is a directory. *)
Definition node_at (fs : fsys) (p : path) : option fnode :=
  if decide (p = []) then Some Dir else fs !! p.
(** Where the path [rest] leads from the directory [pre]: all but its last
    component have to be directories. *)
Fixpoint resolve (fs : fsys) (pre rest : path) : res path :=
  match rest with
  | [] => Ok pre
  | [x] => Ok (if decide (x = "..") then removelast pre else pre ++ [x])
  | x :: rest =>
      if decide (x = "..") then resolve fs (removelast pre) rest
      else match fs !! (pre ++ [x]) with
           | None => Err FileNotFoundError
           | Some (File _) => Err OSError
           | Some Dir => resolve fs (pre ++ [x]) rest
           end
  end.
(** What a path leads to; [stat] of a path through a file fails. *)
Definition stat (fs : fsys) (p : path) : option fnode :=
  match resolve fs [] p with Ok q => node_at fs q | Err _ => None end.
Definition path_exists (fs : fsys) (p : path) : bool := bool_decide (is_Some (stat fs p)).
Definition is_dir (fs : fsys) (p : path) : bool := bool_decide (stat fs p = Some Dir).

Section calls.
Context (sys : os).

(** [os.mkdir] *)
Definition os_mkdir (p : path) : eff fsys exn () := λ fs,
  match resolve fs [] p with
  | Err e => (fs, Err e)
  | Ok q =>
      match node_at fs q with
      | Some _ => (fs, Err OSError)
      | None => if mkdir_allowed sys q then (<[q:=Dir]> fs, Ok ()) else (fs, Err OSError)
      end
  end.
(** [p.mkdir(exist_ok=exist_ok)], after the parents were created *)
Definition mkdir1 (p : path) (exist_ok : bool) : eff fsys exn () :=
  catch (os_mkdir p) (λ e, match e with
    | FileNotFoundError => throw e
    | _ => here ← gets (λ fs, is_dir fs p);
           if exist_ok && here then mret () else throw e
    end).
(** [p.mkdir(parents=True, exist_ok=exist_ok)], the path given innermost first *)
Fixpoint mkdir_parents (rp : path) (exist_ok : bool) : eff fsys exn () :=
  catch (os_mkdir (reverse rp)) (λ e, match e with
    | FileNotFoundError =>
        match rp with
        | [] => throw e
        | _ :: parent =>
            _ ← mkdir_parents parent true;
            mkdir1 (reverse rp) exist_ok
        end
    | _ => here ← gets (λ fs, is_dir fs (reverse rp));
           if exist_ok && here then mret () else throw e
    end).
Definition mkdir (p : path) : eff fsys exn () := mkdir_parents (reverse p) false.

(** [open(p, 'wt')]: the file exists, empty, when the call returns it. *)
Definition open_wt (p : path) : eff fsys exn path := λ fs,
  match resolve fs [] p with
  | Err e => (fs, Err e)
  | Ok q =>
      match node_at fs q with
      | Some Dir => (fs, Err OSError)
      | _ => if open_allowed sys q then (<[q:=File ""]> fs, Ok q) else (fs, Err OSError)
      end
  end.
(** [f.write(text)] and the end of the [with] block, of the file [f] *)
Definition write (f : path) (text : string) : eff fsys exn () := λ fs,
  match write_stop sys f text with
  | None => (<[f:=File text]> fs, Ok ())
  | Some part => (<[f:=File part]> fs, Err OSError)
  end.
(** [shutil.rmtree(p)].  When a call fails midway the entries [kept] are still
    there, and so are the directories they are in. *)
Definition remains (q : path) (kept : list path) (k : path) : Prop :=
  ¬ q `prefix_of` k ∨ Exists (λ r, k `prefix_of` q ++ r) kept.
#[export] Instance remains_dec q kept k : Decision (remains q kept k).
Proof. unfold remains. apply _. Defined.
Definition rmtree (p : path) : eff fsys exn () := λ fs,
  match resolve fs [] p with
  | Err e => (fs, Err e)
  | Ok q =>
      match node_at fs q with
      | None => (fs, Err FileNotFoundError)
      | Some (File _) => (fs, Err OSError)
      | Some Dir =>
          match rmtree_stop sys q with
          | None => (filter (λ kv, remains q [] kv.1) fs, Ok ())
          | Some kept => (filter (λ kv, remains q kept kv.1) fs, Err OSError)
          end
      end
  end.
End calls.

(** ** Well-formed file systems: what exists is in a directory. *)
Definition wf (fs : fsys) : Prop :=
  fs !! [] = None ∧ ∀ d x, is_Some (fs !! (d ++ [x])) → node_at fs d = Some Dir.

(** A path without [..] leads to itself, if the directories on the way to
    [pre ++ rest], below [pre], are there. *)
Definition direct (p : path) : Prop := ".." ∉ p.
#[export] Instance direct_dec p : Decision (direct p).
Proof. unfold direct. apply _. Defined.
Fixpoint walk (fs : fsys) (pre rest : path) : res () :=
  match rest with
  | [] | [_] => Ok ()
  | x :: rest =>
      match fs !! (pre ++ [x]) with
      | None => Err FileNotFoundError
      | Some (File _) => Err OSError
      | Some Dir => walk fs (pre ++ [x]) rest
      end
  end.
Lemma direct_app p q : direct (p ++ q) ↔ direct p ∧ direct q.
Proof. unfold direct. rewrite not_elem_of_app. naive_solver. Qed.
Lemma direct_cons x p : direct (x :: p) ↔ x ≠ ".." ∧ direct p.
Proof. unfold direct. rewrite not_elem_of_cons. naive_solver. Qed.
Lemma direct_nil : direct [].
Proof. by apply not_elem_of_nil. Qed.
Lemma direct_snoc d x : direct (d ++ [x]) ↔ direct d ∧ x ≠ "..".
Proof. unfold direct. rewrite not_elem_of_app, list_elem_of_singleton. naive_solver. Qed.
Lemma direct_prefix q p : q `prefix_of` p → direct p → direct q.
Proof. intros [k ->]. unfold direct. rewrite not_elem_of_app. naive_solver. Qed.
Lemma direct_reverse_tail x rp : direct (reverse (x :: rp)) → direct (reverse rp).
Proof. apply direct_prefix. rewrite reverse_cons. by eexists. Qed.
Lemma resolve_walk fs pre rest : direct rest →
  resolve fs pre rest = (_ ← walk fs pre rest; Ok (pre ++ rest)).
Proof.
  unfold direct. revert pre. induction rest as [|x [|y rest] IH]; intros pre Hd.
  - simpl. by rewrite app_nil_r.
  - simpl. apply not_elem_of_cons in Hd as [Hx _]. by rewrite decide_False by done.
  - apply not_elem_of_cons in Hd as [Hx Hd].
    change (resolve fs pre (x :: y :: rest)) with
      (if decide (x = "..") then resolve fs (removelast pre) (y :: rest)
       else match fs !! (pre ++ [x]) with
            | None => Err FileNotFoundError | Some (File _) => Err OSError
            | Some Dir => resolve fs (pre ++ [x]) (y :: rest) end : res path).
    rewrite decide_False by done.
    change (walk fs pre (x :: y :: rest)) with
      (match fs !! (pre ++ [x]) with
       | None => Err FileNotFoundError | Some (File _) => Err OSError
       | Some Dir => walk fs (pre ++ [x]) (y :: rest) end : res ()).
    destruct (fs !! (pre ++ [x])) as [[|c]|]; [|done..]. rewrite IH by done.
    by rewrite <-app_assoc.
Qed.

Lemma node_at_snoc fs d x : node_at fs (d ++ [x]) = fs !! (d ++ [x]).
Proof. unfold node_at. by rewrite decide_False by (by destruct d). Qed.
Lemma node_at_ne fs p : p ≠ [] → node_at fs p = fs !! p.
Proof. intros. unfold node_at. by rewrite decide_False. Qed.
Lemma snoc_cases {A} (p : list A) : p = [] ∨ ∃ d x, p = d ++ [x].
Proof. induction p using rev_ind; [by left|right; eauto]. Qed.

Lemma prefix_of_snoc {A} (q d : list A) x : q `prefix_of` d ++ [x] → q = d ++ [x] ∨ q `prefix_of` d.
Proof.
  intros [k Hk]. destruct (snoc_cases k) as [->|(k' & y & ->)].
  - left. by rewrite app_nil_r in Hk.
  - right. rewrite app_assoc in Hk. apply app_inj_tail in Hk as [-> _]. by exists k'.
Qed.
Lemma prefix_strict_snoc {A} (q : list A) y k : q ++ y :: k = (q ++ [y]) ++ k.
Proof. by rewrite <-app_assoc. Qed.

Lemma walk_dirs fs pre rest :
  (∀ q x, q ++ [x] `prefix_of` rest → q ++ [x] ≠ rest → fs !! (pre ++ q ++ [x]) = Some Dir) →
  walk fs pre rest = Ok ().
Proof.
  revert pre. induction rest as [|x [|y rest] IH]; intros pre Hd; try done.
  change (walk fs pre (x :: y :: rest)) with
    (match fs !! (pre ++ [x]) with
     | None => Err FileNotFoundError | Some (File _) => Err OSError
     | Some Dir => walk fs (pre ++ [x]) (y :: rest) end : res ()).
  assert (fs !! (pre ++ [x]) = Some Dir) as -> by (apply (Hd [] x); [by eexists|done]). apply IH. intros q z [k Hk] Hne.
  rewrite <-app_assoc. apply (Hd (x :: q) z); [|simpl; congruence].
  exists k. simpl. by rewrite Hk.
Qed.

Lemma walk_ok_dirs fs pre rest :
  walk fs pre rest = Ok () →
  ∀ q x, q ++ [x] `prefix_of` rest → q ++ [x] ≠ rest → fs !! (pre ++ q ++ [x]) = Some Dir.
Proof.
  revert pre. induction rest as [|x [|y rest] IH]; intros pre Hw q z [k Hk] Hne.
  - by destruct q.
  - destruct q as [|w q]; simplify_eq/=. by destruct q.
  - change (walk fs pre (x :: y :: rest)) with
      (match fs !! (pre ++ [x]) with
       | None => Err FileNotFoundError | Some (File _) => Err OSError
       | Some Dir => walk fs (pre ++ [x]) (y :: rest) end : res ()) in Hw.
    destruct (fs !! (pre ++ [x])) as [[|c]|] eqn:E; [|done..].
    destruct q as [|w q]; simplify_eq/=; [done|].
    rewrite (cons_middle w pre), app_assoc. apply IH; [done|by exists k|congruence].
Qed.

Lemma walk_parent fs d x : walk fs [] (d ++ [x]) = Ok () → node_at fs d = Some Dir.
Proof.
  intros Hw. destruct (snoc_cases d) as [->|(d' & y & ->)]; [done|].
  rewrite node_at_snoc. apply (walk_ok_dirs _ _ _ Hw d' y); [by eexists|].
  intros E%(f_equal length). rewrite !length_app in E. simpl in E. lia.
Qed.

Lemma wf_ancestors fs p : wf fs → is_Some (node_at fs p) → ∀ q, q `prefix_of` p → q ≠ p → node_at fs q = Some Dir.
Proof.
  intros [Hr Hwf]. induction p as [|x p IH] using rev_ind; intros Hp q Hq Hne.
  { by apply prefix_nil_inv in Hq. }
  rewrite node_at_snoc in Hp. apply Hwf in Hp. apply prefix_of_snoc in Hq as [?|Hq]; [done|].
  destruct (decide (q = p)) as [->|]; [done|]. apply IH; [by rewrite Hp|done|done].
Qed.
Lemma wf_walk fs d x : wf fs → node_at fs d = Some Dir → walk fs [] (d ++ [x]) = Ok ().
Proof.
  intros Hwf Hd. apply walk_dirs. intros q y Hq Hne. simpl. rewrite <-node_at_snoc.
  apply prefix_of_snoc in Hq as [?|Hq]; [done|].
  destruct (decide (q ++ [y] = d)) as [->|]; [done|]. eapply wf_ancestors; eauto.
Qed.
Lemma stat_walk fs p : direct p →
  stat fs p = match walk fs [] p with Ok _ => node_at fs p | Err _ => None end.
Proof. intros Hd. unfold stat. rewrite resolve_walk by done. by destruct (walk fs [] p). Qed.
Lemma wf_stat fs p : wf fs → direct p → stat fs p = node_at fs p.
Proof.
  intros Hwf Hdir. rewrite stat_walk by done. destruct (snoc_cases p) as [->|(d & x & ->)]; [done|].
  destruct (walk fs [] (d ++ [x])) as [[]|e] eqn:E; [done|].
  destruct (node_at fs (d ++ [x])) as [n|] eqn:Hn; [|done].
  rewrite (wf_walk fs d x) in E; [done|done|]. apply (proj2 Hwf d x). rewrite <-node_at_snoc. by rewrite Hn.
Qed.
Lemma wf_below fs p : wf fs → p ≠ [] → fs !! p = None → ∀ r, fs !! (p ++ r) = None.
Proof.
  intros Hwf Hp Hn r. destruct (decide (r = [])) as [->|Hr]; [by rewrite app_nil_r|].
  apply eq_None_not_Some. intros Hs.
  assert (node_at fs p = Some Dir) as Hd.
  { apply (wf_ancestors fs (p ++ r)); [done| |by eexists|].
    - rewrite node_at_ne; [done|by destruct p].
    - intros E%(f_equal length). rewrite length_app in E. destruct r; [done|simpl in E; lia]. }
  rewrite node_at_ne in Hd by done. congruence.
Qed.
Lemma wf_insert fs d x n :
  wf fs → node_at fs d = Some Dir → (fs !! (d ++ [x]) = Some Dir → n = Dir) →
  wf (<[d ++ [x] := n]> fs).
Proof.
  intros [Hr Hwf] Hd Hn. split.
  { rewrite lookup_insert_ne by (by destruct d). done. }
  assert (∀ e, node_at fs e = Some Dir → node_at (<[d ++ [x] := n]> fs) e = Some Dir) as Hkeep.
  { intros e He. destruct (decide (e = [])) as [->|Hne]; [done|].
    rewrite node_at_ne in * by done. destruct (decide (d ++ [x] = e)) as [<-|].
    - by rewrite lookup_insert_eq, (Hn He).
    - by rewrite lookup_insert_ne. }
  intros e y Hs. apply Hkeep. destruct (decide (d ++ [x] = e ++ [y])) as [E|].
  - apply app_inj_tail in E as [<- _]. done.
  - rewrite lookup_insert_ne in Hs by done. by apply (Hwf e y).
Qed.

Create HintDb frame.

(** ** The calls on a path without [..] *)
Lemma os_mkdir_direct sys p fs : direct p →
  os_mkdir sys p fs =
    match walk fs [] p with
    | Err e => (fs, Err e)
    | Ok _ =>
        match node_at fs p with
        | Some _ => (fs, Err OSError)
        | None => if mkdir_allowed sys p then (<[p:=Dir]> fs, Ok ()) else (fs, Err OSError)
        end
    end.
Proof. intros Hd. unfold os_mkdir. rewrite resolve_walk by done. by destruct (walk fs [] p). Qed.
Lemma open_wt_direct sys p fs : direct p →
  open_wt sys p fs =
    match walk fs [] p with
    | Err e => (fs, Err e)
    | Ok _ =>
        match node_at fs p with
        | Some Dir => (fs, Err OSError)
        | _ => if open_allowed sys p then (<[p:=File ""]> fs, Ok p) else (fs, Err OSError)
        end
    end.
Proof. intros Hd. unfold open_wt. rewrite resolve_walk by done. by destruct (walk fs [] p). Qed.
(** A tree that is there is removed, or a part of it is left. *)
Lemma rmtree_direct sys p fs : wf fs → direct p → node_at fs p = Some Dir →
  rmtree sys p fs =
    match rmtree_stop sys p with
    | None => (filter (λ kv, remains p [] kv.1) fs, Ok ())
    | Some kept => (filter (λ kv, remains p kept kv.1) fs, Err OSError)
    end.
Proof.
  intros Hwf Hd Hn. unfold rmtree. rewrite resolve_walk by done.
  pose proof (wf_stat fs p Hwf Hd) as Hs. rewrite stat_walk, Hn in Hs by done.
  destruct (walk fs [] p) as [[]|e]; [|done]. simpl. by rewrite Hn.
Qed.
Lemma remains_lookup (q : path) (kept : list path) (fs : fsys) (k : path) :
  filter (λ kv, remains q kept kv.1) fs !! k = if decide (remains q kept k) then fs !! k else None.
Proof.
  rewrite map_lookup_filter. destruct (fs !! k) as [n|]; simpl; [|by case_decide].
  case_decide; [by rewrite option_guard_True|by rewrite option_guard_False].
Qed.
Lemma remains_prefix (q : path) (kept : list path) d x : remains q kept (d ++ [x]) → remains q kept d.
Proof.
  intros [Hn|Hk]; [left|right].
  - intros Hq. apply Hn. etrans; [done|]. by eexists.
  - eapply Exists_impl; [done|]. intros r Hr. simpl in *. etrans; [|done]. by eexists.
Qed.
Lemma remains_nil q k : remains q [] k ↔ ¬ q `prefix_of` k.
Proof. unfold remains. rewrite Exists_nil. naive_solver. Qed.
Lemma remains_wf (q : path) (kept : list path) fs : wf fs → wf (filter (λ kv, remains q kept kv.1) fs).
Proof.
  intros [Hr Hwf]. split.
  { rewrite remains_lookup. by case_decide. }
  intros d x. rewrite remains_lookup. case_decide as Hq; [|by intros []]. intros Hs.
  specialize (Hwf d x Hs). destruct (decide (d = [])) as [->|Hd]; [done|].
  rewrite node_at_ne in Hwf |- * by done.
  by rewrite remains_lookup, decide_True by by eapply remains_prefix.
Qed.

(** ** Creating directories
    [extends p fs fs']: directories on the way to [p] were added, nothing else. *)
Definition extends (p : path) (fs fs' : fsys) : Prop :=
  ∀ q, fs' !! q = fs !! q ∨ (q `prefix_of` p ∧ fs !! q = None ∧ fs' !! q = Some Dir).

Lemma extends_refl p fs : extends p fs fs.
Proof. by left. Qed.
#[local] Hint Resolve extends_refl : core.
Lemma extends_trans p fs1 fs2 fs3 : extends p fs1 fs2 → extends p fs2 fs3 → extends p fs1 fs3.
Proof.
  intros H1 H2 q. destruct (H1 q) as [E1|(?&?&E1)], (H2 q) as [E2|(?&?&E2)];
    [left; congruence|right; split_and!; (done || congruence)..|congruence].
Qed.
Lemma extends_weaken p p' fs fs' : p `prefix_of` p' → extends p fs fs' → extends p' fs fs'.
Proof. intros Hp H q. destruct (H q) as [?|(?&?&?)]; [by left|right]. split; [by etrans|done]. Qed.

Lemma os_mkdir_extends sys p fs : wf fs → direct p →
  extends p fs (os_mkdir sys p fs).1 ∧ wf (os_mkdir sys p fs).1.
Proof.
  intros Hwf Hdir. rewrite os_mkdir_direct by done.
  destruct (walk fs [] p) as [[]|e] eqn:Hw; [|by split].
  destruct (node_at fs p) as [n|] eqn:Hn; [by split|].
  destruct (mkdir_allowed sys p); [|by split]. destruct (snoc_cases p) as [->|(d & x & ->)]; [done|].
  rewrite node_at_snoc in Hn. simpl. split.
  - intros q. destruct (decide (d ++ [x] = q)) as [<-|].
    + right. by rewrite lookup_insert_eq.
    + left. by rewrite lookup_insert_ne.
  - apply wf_insert; [done|by eapply walk_parent|done].
Qed.
Lemma extends_catch (p : path) (m : eff fsys exn ()) h fs :
  (extends p fs (m fs).1 ∧ wf (m fs).1) →
  (∀ e fs', wf fs' → extends p fs' (h e fs').1 ∧ wf (h e fs').1) →
  extends p fs (catch m h fs).1 ∧ wf (catch m h fs).1.
Proof.
  intros [Hm Hwf] Hh. unfold catch. destruct (m fs) as [fs' [a|e]]; [done|]. simpl in *.
  destruct (Hh e fs' Hwf). split; [by eapply extends_trans|done].
Qed.
Lemma check_dir_fs (p : path) (exist_ok : bool) e fs :
  ((here ← gets (λ fs, is_dir fs p);
    if exist_ok && here then mret () else throw e) fs : fsys * res ()).1 = fs.
Proof. rewrite bind_gets. by destruct (exist_ok && is_dir fs p). Qed.
Lemma mkdir1_extends sys p exist_ok fs : wf fs → direct p →
  extends p fs (mkdir1 sys p exist_ok fs).1 ∧ wf (mkdir1 sys p exist_ok fs).1.
Proof.
  intros Hwf Hdir. apply extends_catch; [by apply os_mkdir_extends|].
  intros e fs' Hwf'. destruct e; try (rewrite check_dir_fs); by split.
Qed.
Lemma mkdir_parents_extends sys rp exist_ok fs : wf fs → direct (reverse rp) →
  extends (reverse rp) fs (mkdir_parents sys rp exist_ok fs).1 ∧
  wf (mkdir_parents sys rp exist_ok fs).1.
Proof.
  revert exist_ok fs. induction rp as [|x rp IH]; intros exist_ok fs Hwf Hdir; cbn [mkdir_parents];
    (apply extends_catch; [by apply os_mkdir_extends|]);
    intros e fs' Hwf'; (destruct e; try (rewrite check_dir_fs); try by split).
  destruct (IH true fs' Hwf' (direct_reverse_tail _ _ Hdir)) as [He Hw]. unfold mbind, eff_bind.
  destruct (mkdir_parents sys rp true fs') as [fs2 [[]|e]]; simpl in *.
  - destruct (mkdir1_extends sys (reverse (x :: rp)) exist_ok fs2 Hw Hdir). split; [|done].
    eapply extends_trans; [|done]. eapply extends_weaken, He. rewrite reverse_cons. by eexists.
  - split; [|done]. eapply extends_weaken, He. rewrite reverse_cons. by eexists.
Qed.
Lemma mkdir_extends sys p fs : wf fs → direct p →
  extends p fs (mkdir sys p fs).1 ∧ wf (mkdir sys p fs).1.
Proof.
  intros Hwf. unfold mkdir.
  generalize (mkdir_parents_extends sys (reverse p) false fs Hwf). by rewrite reverse_involutive.
Qed.

(** ** Calls that the system allows *)
Definition allows_all (sys : os) : Prop :=
  (∀ p, mkdir_allowed sys p = true) ∧ (∀ p, open_allowed sys p = true) ∧
  (∀ p text, write_stop sys p text = None).
(** The way to [p] is free: no file is on it, and no [..]. *)
Definition no_file (fs : fsys) (p : path) : Prop :=
  direct p ∧ ∀ q c, q `prefix_of` p → fs !! q ≠ Some (File c).

Section allowed.
Context (sys : os) (Hsys : allows_all sys).

Lemma os_mkdir_child fs d x :
  direct (d ++ [x]) → wf fs → node_at fs d = Some Dir → fs !! (d ++ [x]) = None →
  os_mkdir sys (d ++ [x]) fs = (<[d ++ [x] := Dir]> fs, Ok ()).
Proof.
  intros Hdir Hwf Hd Hn. rewrite os_mkdir_direct, wf_walk, node_at_snoc, Hn by done.
  destruct Hsys as (-> & _). done.
Qed.
Lemma mkdir_child fs d x :
  direct (d ++ [x]) → wf fs → node_at fs d = Some Dir → fs !! (d ++ [x]) = None →
  mkdir sys (d ++ [x]) fs = (<[d ++ [x] := Dir]> fs, Ok ()).
Proof.
  intros Hdir Hwf Hd Hn. unfold mkdir. rewrite reverse_snoc. cbn [mkdir_parents].
  unfold catch. rewrite reverse_cons, reverse_involutive. by rewrite os_mkdir_child.
Qed.
Lemma open_wt_child fs d x :
  direct (d ++ [x]) → wf fs → node_at fs d = Some Dir → fs !! (d ++ [x]) = None →
  open_wt sys (d ++ [x]) fs = (<[d ++ [x] := File ""]> fs, Ok (d ++ [x])).
Proof.
  intros Hdir Hwf Hd Hn. rewrite open_wt_direct, wf_walk, node_at_snoc, Hn by done.
  destruct Hsys as (_ & -> & _). done.
Qed.
Lemma write_ok fs p text : write sys p text fs = (<[p := File text]> fs, Ok ()).
Proof. unfold write. destruct Hsys as (_ & _ & ->). done. Qed.

Lemma walk_no_file fs pre rest :
  (∀ q c, q `prefix_of` rest → fs !! (pre ++ q) ≠ Some (File c)) →
  walk fs pre rest = Ok () ∨ walk fs pre rest = Err FileNotFoundError.
Proof.
  revert pre. induction rest as [|x [|y rest] IH]; intros pre Hf; [by left..|].
  change (walk fs pre (x :: y :: rest)) with
    (match fs !! (pre ++ [x]) with
     | None => Err FileNotFoundError | Some (File _) => Err OSError
     | Some Dir => walk fs (pre ++ [x]) (y :: rest) end : res ()).
  destruct (fs !! (pre ++ [x])) as [[|c]|] eqn:E; [|by destruct (Hf [x] c ltac:(by eexists))|by right].
  apply IH. intros q c Hq. rewrite <-app_assoc. apply Hf. by apply prefix_cons.
Qed.

(** [mkdir(parents=True)] makes every missing directory on the way. *)
Definition made (p : path) (fs fs' : fsys) : Prop :=
  wf fs' ∧ ∀ q, fs' !! q = if decide (q ≠ [] ∧ q `prefix_of` p) then Some Dir else fs !! q.

Lemma made_child fs d x : wf fs → node_at fs d = Some Dir → fs !! (d ++ [x]) = None →
  made (d ++ [x]) fs (<[d ++ [x] := Dir]> fs).
Proof.
  intros Hwf Hd Hn. split; [by apply wf_insert|]. intros q.
  destruct (decide (d ++ [x] = q)) as [<-|Hne].
  { rewrite lookup_insert_eq, decide_True; [done|]. split; [by destruct d|done]. }
  rewrite lookup_insert_ne by done. case_decide as Hq; [|done]. destruct Hq as [Hq0 Hq].
  apply prefix_of_snoc in Hq as [?|Hq]; [done|]. rewrite <-node_at_ne by done.
  destruct (decide (q = d)) as [->|]; [done|]. eapply wf_ancestors; eauto.
Qed.
Lemma made_existing fs p : wf fs → node_at fs p = Some Dir → made p fs fs.
Proof.
  intros Hwf Hp. split; [done|]. intros q. case_decide as Hq; [|done]. destruct Hq as [Hq0 Hq].
  rewrite <-node_at_ne by done. destruct (decide (q = p)) as [->|]; [done|].
  eapply wf_ancestors; eauto.
Qed.
Lemma made_node fs fs' p : made p fs fs' → node_at fs' p = Some Dir.
Proof.
  intros [_ Hm]. destruct (decide (p = [])) as [->|]; [done|].
  by rewrite node_at_ne, Hm, decide_True by done.
Qed.
Lemma made_below fs fs1 d x : made d fs fs1 → fs1 !! (d ++ [x]) = fs !! (d ++ [x]).
Proof.
  intros [_ Hm]. rewrite Hm, decide_False; [done|].
  intros [_ Hq%prefix_length]. rewrite length_app in Hq. simpl in Hq. lia.
Qed.
Lemma made_trans fs fs1 fs2 d x : made d fs fs1 → made (d ++ [x]) fs1 fs2 → made (d ++ [x]) fs fs2.
Proof.
  intros [_ H1] [Hwf H2]. split; [done|]. intros q. rewrite H2. case_decide as Hq; [done|].
  rewrite H1, decide_False; [done|]. intros [? Hd]. apply Hq. split; [done|].
  etrans; [done|]. by eexists.
Qed.

Lemma mkdir1_child fs d x exist_ok :
  direct (d ++ [x]) → wf fs → node_at fs d = Some Dir → fs !! (d ++ [x]) = None →
  mkdir1 sys (d ++ [x]) exist_ok fs = (<[d ++ [x] := Dir]> fs, Ok ()).
Proof. intros. unfold mkdir1, catch. by rewrite os_mkdir_child. Qed.
Lemma mkdir_parents_ok rp exist_ok fs :
  wf fs → no_file fs (reverse rp) → node_at fs (reverse rp) = None ∨ exist_ok = true →
  ∃ fs', mkdir_parents sys rp exist_ok fs = (fs', Ok ()) ∧ made (reverse rp) fs fs'.
Proof.
  revert exist_ok fs. induction rp as [|x rp IH]; intros exist_ok fs Hwf Hf Hn; cbn [mkdir_parents].
  { exists fs. split; [|by apply made_existing]. by destruct Hn as [Hn| ->]. }
  destruct Hf as [Hdir Hf]. pose proof (direct_reverse_tail _ _ Hdir) as Hdir'.
  rewrite reverse_cons in *. set (d := reverse rp) in *. rewrite node_at_snoc in Hn.
  unfold catch. rewrite os_mkdir_direct, node_at_snoc by done.
  destruct (walk_no_file fs [] (d ++ [x])) as [Hw|Hw]; [exact (λ q c, Hf q c)|..]; rewrite Hw.
  - pose proof (walk_parent _ _ _ Hw) as Hd. destruct (fs !! (d ++ [x])) as [n|] eqn:E.
    + destruct Hn as [?| ->]; [done|]. assert (n = Dir) as ->.
      { destruct n as [|c]; [done|]. by destruct (Hf (d ++ [x]) c). }
      exists fs. rewrite bind_gets. unfold is_dir. rewrite stat_walk, Hw, node_at_snoc, E by done.
      split; [done|]. apply made_existing; [done|]. by rewrite node_at_snoc.
    + destruct Hsys as (-> & _). eexists. split; [done|]. by apply made_child.
  - assert (fs !! (d ++ [x]) = None) as E.
    { apply eq_None_not_Some. intros Hs. rewrite wf_walk in Hw; [done|done|].
      by apply (proj2 Hwf d x). }
    destruct (IH true fs) as (fs1 & Hrun & Hm1); [done| |by right|].
    { split; [done|]. intros q c Hq. apply Hf. etrans; [done|]. by eexists. }
    rewrite (bind_run _ _ _ _ _ Hrun).
    assert (fs1 !! (d ++ [x]) = None) as E1 by (by rewrite (made_below fs)).
    pose proof (made_node _ _ _ Hm1) as Hd. destruct (Hm1) as [Hwf1 _].
    rewrite mkdir1_child by done. eexists. split; [done|].
    eapply made_trans; [done|]. by apply made_child.
Qed.
Lemma mkdir_ok fs p : wf fs → no_file fs p → node_at fs p = None →
  ∃ fs', mkdir sys p fs = (fs', Ok ()) ∧ made p fs fs'.
Proof.
  intros. unfold mkdir. destruct (mkdir_parents_ok (reverse p) false fs) as (fs' & Hr & Hm);
    rewrite ?reverse_involutive in *; [by auto..|]. eauto.
Qed.
End allowed.
