(* ===== verification/CreateModule.v ===== *)
(** * src/utils/create-module.py: the skeleton of a new ns-3 module
    The templates of the files, the functions that create them, the creation
    of a module with its rollback, and the choice of the places from the
    command line.  The file system is that of PyFs; what it refuses is a
    parameter.  [argparse] is not modelled: [main] starts from the options it
    returns.  Names are ASCII. *)
From Stdlib Require Import Ascii.
From S2P Require Import Prelude PyStr PyRe PyFormat PyPath PyFs.
#[local] Open Scope Z_scope.

(** ** The templates
    A text is given by its lines; a caret stands for a double quote. *)
Definition unquote (a : ascii) : ascii := if decide (a = "^"%char) then dquote else a.
Definition lines (l : list string) : string :=
  cat ((λ s, of_chars (unquote <$> chars s) +:+ String newline "") <$> l).

Definition WSCRIPT_TEMPLATE : string := lines [
  "# -*- Mode: python; py-indent-offset: 4; indent-tabs-mode: nil; coding: utf-8; -*-";
  "";
  "# def options(opt):";
  "#     pass";
  "";
  "# def configure(conf):";
  "#     conf.check_nonfatal(header_name='stdint.h', define_name='HAVE_STDINT_H')";
  "";
  "def build(bld):";
  "    module = bld.create_ns3_module({MODULE!r}, ['core'])";
  "    module.source = [";
  "        'model/{MODULE}.cc',";
  "        'helper/{MODULE}-helper.cc',";
  "        ]";
  "";
  "    module_test = bld.create_ns3_module_test_library('{MODULE}')";
  "    module_test.source = [";
  "        'test/{MODULE}-test-suite.cc',";
  "        ]";
  "    # Tests encapsulating example programs should be listed here";
  "    if (bld.env['ENABLE_EXAMPLES']):";
  "        module_test.source.extend([";
  "        #    'test/{MODULE}-examples-test-suite.cc',";
  "             ])";
  "";
  "    headers = bld(features='ns3header')";
  "    headers.module = {MODULE!r}";
  "    headers.source = [";
  "        'model/{MODULE}.h',";
  "        'helper/{MODULE}-helper.h',";
  "        ]";
  "";
  "    if bld.env.ENABLE_EXAMPLES:";
  "        bld.recurse('examples')";
  "";
  "    # bld.ns3_python_bindings()";
  ""].

Definition MODEL_CC_TEMPLATE : string := lines [
  "/* -*- Mode:C++; c-file-style:^gnu^; indent-tabs-mode:nil; -*- */";
  "";
  "#include ^{MODULE}.h^";
  "";
  "namespace ns3 {{";
  "";
  "/* ... */";
  "";
  "";
  "}}";
  ""].

Definition MODEL_H_TEMPLATE : string := lines [
  "/* -*- Mode:C++; c-file-style:^gnu^; indent-tabs-mode:nil; -*- */";
  "#ifndef {INCLUDE_GUARD}";
  "#define {INCLUDE_GUARD}";
  "";
  "namespace ns3 {{";
  "";
  "/* ... */";
  "";
  "}}";
  "";
  "#endif /* {INCLUDE_GUARD} */";
  ""].

Definition HELPER_CC_TEMPLATE : string := lines [
  "/* -*- Mode:C++; c-file-style:^gnu^; indent-tabs-mode:nil; -*- */";
  "";
  "#include ^{MODULE}-helper.h^";
  "";
  "namespace ns3 {{";
  "";
  "/* ... */";
  "";
  "";
  "}}";
  ""].

Definition HELPER_H_TEMPLATE : string := lines [
  "/* -*- Mode:C++; c-file-style:^gnu^; indent-tabs-mode:nil; -*- */";
  "#ifndef {INCLUDE_GUARD}";
  "#define {INCLUDE_GUARD}";
  "";
  "#include ^ns3/{MODULE}.h^";
  "";
  "namespace ns3 {{";
  "";
  "/* ... */";
  "";
  "}}";
  "";
  "#endif /* {INCLUDE_GUARD} */";
  ""].

Definition EXAMPLES_WSCRIPT_TEMPLATE : string := lines [
  "# -*- Mode: python; py-indent-offset: 4; indent-tabs-mode: nil; coding: utf-8; -*-";
  "";
  "def build(bld):";
  "    obj = bld.create_ns3_program('{MODULE}-example', [{MODULE!r}])";
  "    obj.source = '{MODULE}-example.cc'";
  ""].

Definition EXAMPLE_CC_TEMPLATE : string := lines [
  "/* -*- Mode:C++; c-file-style:^gnu^; indent-tabs-mode:nil; -*- */";
  "";
  "#include ^ns3/core-module.h^";
  "#include ^ns3/{MODULE}-helper.h^";
  "";
  "using namespace ns3;";
  "";
  "";
  "int ";
  "main (int argc, char *argv[])";
  "{{";
  "  bool verbose = true;";
  "";
  "  CommandLine cmd (__FILE__);";
  "  cmd.AddValue (^verbose^, ^Tell application to log if true^, verbose);";
  "";
  "  cmd.Parse (argc,argv);";
  "";
  "  /* ... */";
  "";
  "  Simulator::Run ();";
  "  Simulator::Destroy ();";
  "  return 0;";
  "}}";
  "";
  ""].

Definition TEST_CC_TEMPLATE : string := lines [
  "/* -*- Mode:C++; c-file-style:^gnu^; indent-tabs-mode:nil; -*- */";
  "";
  "// Include a header file from your module to test.";
  "#include ^ns3/{MODULE}.h^";
  "";
  "// An essential include is test.h";
  "#include ^ns3/test.h^";
  "";
  "// Do not put your test classes in namespace ns3.  You may find it useful";
  "// to use the using directive to access the ns3 namespace directly";
  "using namespace ns3;";
  "";
  "// This is an example TestCase.";
  "class {CAPITALIZED}TestCase1 : public TestCase";
  "{{";
  "public:";
  "  {CAPITALIZED}TestCase1 ();";
  "  virtual ~{CAPITALIZED}TestCase1 ();";
  "";
  "private:";
  "  virtual void DoRun (void);";
  "}};";
  "";
  "// Add some help text to this case to describe what it is intended to test";
  "{CAPITALIZED}TestCase1::{CAPITALIZED}TestCase1 ()";
  "  : TestCase (^{CAPITALIZED} test case (does nothing)^)";
  "{{";
  "}}";
  "";
  "// This destructor does nothing but we include it as a reminder that";
  "// the test case should clean up after itself";
  "{CAPITALIZED}TestCase1::~{CAPITALIZED}TestCase1 ()";
  "{{";
  "}}";
  "";
  "//";
  "// This method is the pure virtual method from class TestCase that every";
  "// TestCase must implement";
  "//";
  "void";
  "{CAPITALIZED}TestCase1::DoRun (void)";
  "{{";
  "  // A wide variety of test macros are available in src/core/test.h";
  "  NS_TEST_ASSERT_MSG_EQ (true, true, ^true doesn't equal true for some reason^);";
  "  // Use this one for floating point comparisons";
  "  NS_TEST_ASSERT_MSG_EQ_TOL (0.01, 0.01, 0.001, ^Numbers are not equal within tolerance^);";
  "}}";
  "";
  "// The TestSuite class names the TestSuite, identifies what type of TestSuite,";
  "// and enables the TestCases to be run.  Typically, only the constructor for";
  "// this class must be defined";
  "//";
  "class {CAPITALIZED}TestSuite : public TestSuite";
  "{{";
  "public:";
  "  {CAPITALIZED}TestSuite ();";
  "}};";
  "";
  "{CAPITALIZED}TestSuite::{CAPITALIZED}TestSuite ()";
  "  : TestSuite (^{MODULE}^, UNIT)";
  "{{";
  "  // TestDuration for TestCase can be QUICK, EXTENSIVE or TAKES_FOREVER";
  "  AddTestCase (new {CAPITALIZED}TestCase1, TestCase::QUICK);";
  "}}";
  "";
  "// Do not forget to allocate an instance of this TestSuite";
  "static {CAPITALIZED}TestSuite s{COMPOUND}TestSuite;";
  ""].

Definition DOC_RST_TEMPLATE : string := lines [
  "Example Module Documentation";
  "----------------------------";
  "";
  ".. include:: replace.txt";
  ".. highlight:: cpp";
  "";
  ".. heading hierarchy:";
  "   ------------- Chapter";
  "   ************* Section (#.#)";
  "   ============= Subsection (#.#.#)";
  "   ############# Paragraph (no number)";
  "";
  "This is a suggested outline for adding new module documentation to |ns3|.";
  "See ``src/click/doc/click.rst`` for an example.";
  "";
  "The introductory paragraph is for describing what this code is trying to";
  "model.";
  "";
  "For consistency (italicized formatting), please use |ns3| to refer to";
  "ns-3 in the documentation (and likewise, |ns2| for ns-2).  These macros";
  "are defined in the file ``replace.txt``.";
  "";
  "Model Description";
  "*****************";
  "";
  "The source code for the new module lives in the directory ``{MODULE_DIR}``.";
  "";
  "Add here a basic description of what is being modeled.";
  "";
  "Design";
  "======";
  "";
  "Briefly describe the software design of the model and how it fits into ";
  "the existing ns-3 architecture. ";
  "";
  "Scope and Limitations";
  "=====================";
  "";
  "What can the model do?  What can it not do?  Please use this section to";
  "describe the scope and limitations of the model.";
  "";
  "References";
  "==========";
  "";
  "Add academic citations here, such as if you published a paper on this";
  "model, or if readers should read a particular specification or other work.";
  "";
  "Usage";
  "*****";
  "";
  "This section is principally concerned with the usage of your model, using";
  "the public API.  Focus first on most common usage patterns, then go";
  "into more advanced topics.";
  "";
  "Building New Module";
  "===================";
  "";
  "Include this subsection only if there are special build instructions or";
  "platform limitations.";
  "";
  "Helpers";
  "=======";
  "";
  "What helper API will users typically use?  Describe it here.";
  "";
  "Attributes";
  "==========";
  "";
  "What classes hold attributes, and what are the key ones worth mentioning?";
  "";
  "Output";
  "======";
  "";
  "What kind of data does the model generate?  What are the key trace";
  "sources?   What kind of logging output can be enabled?";
  "";
  "Advanced Usage";
  "==============";
  "";
  "Go into further details (such as using the API outside of the helpers)";
  "in additional sections, as needed.";
  "";
  "Examples";
  "========";
  "";
  "What examples using this new code are available?  Describe them here.";
  "";
  "Troubleshooting";
  "===============";
  "";
  "Add any tips for avoiding pitfalls, etc.";
  "";
  "Validation";
  "**********";
  "";
  "Describe how the model has been tested/validated.  What tests run in the";
  "test suite?  How much API and code is covered by the tests?  Again, ";
  "references to outside published work may help here."].

(** ** Creating the files *)
(** [s.replace('-', '_').upper()] *)
Definition guard_name (s : string) : string :=
  upper (of_chars ((λ a, if decide (a = "-"%char) then "_"%char else a) <$> chars s)).
Definition lower_char (a : ascii) : ascii :=
  let n := nat_of_ascii a in
  if (65 <=? n)%nat && (n <=? 90)%nat then ascii_of_nat (n + 32) else a.
(** [word.capitalize()] *)
Definition capitalize (word : string) : string :=
  match chars word with
  | [] => ""
  | a :: l => of_chars (upper_char a :: (lower_char <$> l))
  end.
(** [''.join([word.capitalize() for word in name_parts])] *)
Definition capitalized (name_parts : list string) : string := cat (capitalize <$> name_parts).
(** The same, with the first word as it is. *)
Definition compound (name_parts : list string) : string :=
  cat (imap (λ index word, if (0 <? index)%nat then capitalize word else word) name_parts).

(** What the script prints. *)
Inductive event :=
| EvOut (msg : string)
| EvErr (msg : string)
| EvFailed (modname : string) (e : exn)     (** "Creating module ... failed: ..." *)
| EvUsage (msg : string)                    (** [parser.error(msg)] *)
| EvException (e : exn).                    (** "Exception: ..." *)
Abbreviation io := (eff (fsys * list event) exn).
Definition emit (e : event) : io () := modify (λ s, (s.1, s.2 ++ [e])).
Definition exists_ (p : ppath) : io bool := gets (λ s, path_exists s.1 (comps p)).


Section artifacts.
Context (sys : os) (cwd : path).
(** [Path.cwd()] *)
Definition base_path : ppath := {| root := "/"; comps := cwd |}.

Definition create_file (artifact_path : ppath) (template : string)
    (kwargs : list (string * string)) : eff fsys exn () :=
  f ← open_wt sys (comps artifact_path);
  text ← lift_res (py_format template kwargs);
  write sys f text.

Definition make_wscript (moduledir : ppath) (modname : string) : eff fsys exn bool :=
  let path := joinpath moduledir "wscript" in
  _ ← create_file path WSCRIPT_TEMPLATE [("MODULE", modname)];
  mret true.

Definition make_model (moduledir : ppath) (modname : string) : eff fsys exn bool :=
  let modelpath := joinpath moduledir "model" in
  _ ← mkdir sys (comps modelpath);
  srcfile_path ← lift_res (with_suffix (joinpath modelpath modname) ".cc");
  _ ← create_file srcfile_path MODEL_CC_TEMPLATE [("MODULE", modname)];
  hfile_path ← lift_res (with_suffix (joinpath modelpath modname) ".h");
  let guard := guard_name modname +:+ "_H" in
  _ ← create_file hfile_path MODEL_H_TEMPLATE [("MODULE", modname); ("INCLUDE_GUARD", guard)];
  mret true.

Definition make_test (moduledir : ppath) (modname : string) : eff fsys exn bool :=
  let testpath := joinpath moduledir "test" in
  _ ← mkdir sys (comps testpath);
  file_path ← lift_res (with_suffix (joinpath testpath (modname +:+ "-test-suite")) ".cc");
  let name_parts := split "-" modname in
  _ ← create_file file_path TEST_CC_TEMPLATE
        [("MODULE", modname); ("CAPITALIZED", capitalized name_parts);
         ("COMPOUND", compound name_parts)];
  mret true.

Definition make_helper (moduledir : ppath) (modname : string) : eff fsys exn bool :=
  let helperpath := joinpath moduledir "helper" in
  _ ← mkdir sys (comps helperpath);
  srcfile_path ← lift_res (with_suffix (joinpath helperpath (modname +:+ "-helper")) ".cc");
  _ ← create_file srcfile_path HELPER_CC_TEMPLATE [("MODULE", modname)];
  h_file_path ← lift_res (with_suffix (joinpath helperpath (modname +:+ "-helper")) ".h");
  let guard := guard_name modname +:+ "_HELPER_H" in
  _ ← create_file h_file_path HELPER_H_TEMPLATE [("MODULE", modname); ("INCLUDE_GUARD", guard)];
  mret true.

Definition make_examples (moduledir : ppath) (modname : string) : eff fsys exn bool :=
  let examplespath := joinpath moduledir "examples" in
  _ ← mkdir sys (comps examplespath);
  let wscriptpath := joinpath examplespath "wscript" in
  _ ← create_file wscriptpath EXAMPLES_WSCRIPT_TEMPLATE [("MODULE", modname)];
  examplesfile_path ← lift_res (with_suffix (joinpath examplespath (modname +:+ "-example")) ".cc");
  _ ← create_file examplesfile_path EXAMPLE_CC_TEMPLATE [("MODULE", modname)];
  mret true.

Definition make_doc (moduledir : ppath) (modname : string) : eff fsys exn bool :=
  let docpath := joinpath moduledir "doc" in
  _ ← mkdir sys (comps docpath);
  mod_relpath ← lift_res (relpath (path_str base_path) (path_str moduledir) ".");
  let file_name := modname +:+ ".rst" in
  let file_path := joinpath docpath file_name in
  _ ← create_file file_path DOC_RST_TEMPLATE [("MODULE", modname); ("MODULE_DIR", mod_relpath)];
  mret true.

(** ** A module, with its rollback *)
(** [all(...)] of a generator: the rest is not run after a failure. *)
Fixpoint all_run {S} (l : list (eff S exn bool)) : eff S exn bool :=
  match l with
  | [] => mret true
  | m :: l => b ← m; if b : bool then all_run l else mret false
  end.
Definition functions : list (ppath → string → eff fsys exn bool) :=
  [make_wscript; make_model; make_test; make_helper; make_examples; make_doc].
Definition generate (modulepath : ppath) (modname : string) : eff fsys exn () :=
  _ ← mkdir sys (comps modulepath);
  success ← all_run ((λ func, func modulepath modname) <$> functions);
  if success : bool then mret () else throw (ValueError "Generating module artifacts failed").
Definition rollback (modulepath : ppath) (modname : string) (e : exn) : io bool :=
  there ← exists_ modulepath;
  _ ← (if there : bool then zoom_fst (rmtree sys (comps modulepath)) else mret ());
  _ ← emit (EvFailed modname e);
  mret false.
Definition make_module (modpath : ppath) (modname : string) : io bool :=
  let modulepath := joinpath modpath modname in
  there ← exists_ modulepath;
  if there : bool then
    _ ← emit (EvErr ("Module " +:+ repr_string modname +:+ " already exists"));
    mret false
  else
    _ ← emit (EvOut ("Creating module " +:+ path_str modulepath));
    catch (_ ← zoom_fst (generate modulepath modname); mret true)
      (rollback modulepath modname).

(** ** The command line *)
(** [^(\w|-)+$]: the dollar also matches before a newline at the end. *)
Definition is_word_char (a : ascii) : bool :=
  let n := nat_of_ascii a in
  is_digit a || ((65 <=? n)%nat && (n <=? 90)%nat) || ((97 <=? n)%nat && (n <=? 122)%nat)
  || bool_decide (a = "_"%char).
Definition allowedRE (s : string) : bool :=
  match span (λ a, is_word_char a || bool_decide (a = "-"%char)) (chars s) with
  | (_ :: _, []) => true
  | (_ :: _, [a]) => bool_decide (a = newline)
  | _ => false
  end.

Definition parser_error {A} (msg : string) : io A :=
  _ ← emit (EvUsage msg); throw (SystemExit 2).
Definition src_path : ppath := joinpath base_path "src".
Definition contrib_path : ppath := joinpath base_path "contrib".

Definition check_directory (p : ppath) : io () :=
  there ← gets (λ s, is_dir s.1 (comps p));
  if there : bool then mret ()
  else parser_error ("Cannot find the directory '" +:+ path_str p +:+ "'." +:+ String newline
         ("Please run this script from the top level of the ns3 directory")).
(** The path of [--project], relative to the contrib directory. *)
Definition parse_project (project : string) : io (option ppath) :=
  if decide (project = "") then mret None
  else
    let p := parse_path project in
    p ← lift_res (if is_absolute p then relative_to p (parse_path "/") else Ok p);
    if forallb allowedRE (parts p) then mret (Some p)
    else parser_error "Project path may only contain the characters [a-zA-Z0-9_-].".

(** The place of one module, if its name is not skipped. *)
Definition place (project : string) (name_path : ppath) (name : string) : io (ppath * ppath) :=
  first ← lift_res (py_index (parts name_path) 0);
  if decide (first = "src") then
    if decide (project ≠ "") then
      parser_error (name +:+ ": Cannot specify src/ in a module name when --project option is used")
    else
      name_path ← lift_res (relative_to name_path (parse_path "src"));
      mret (src_path, name_path)
  else if decide (first = "contrib") then
    name_path ← lift_res (relative_to name_path (parse_path "contrib"));
    mret (contrib_path, name_path)
  else mret (contrib_path, name_path).
Definition strip_sep (name : string) : string :=
  of_chars (strip_chars (λ a, bool_decide (a = "/"%char)) (chars name)).
Definition target (project : string) (project_path : option ppath) (name : string)
    : io (option (ppath * string)) :=
  let name := strip_sep name in
  if decide (name = "") then mret None
  else
    let name_path := parse_path name in
    if (2 <? length (parts name_path))%nat then
      _ ← emit (EvOut ("Skipping " +:+ name +:+ ": module name can not be a path"));
      mret None
    else
      '(modpath, name_path) ← place project name_path name;
      let modpath := match project_path with Some p => join_path contrib_path p | None => modpath end in
      modname ← lift_res (py_index (parts name_path) 0);
      if allowedRE modname then mret (Some (modpath, modname))
      else
        _ ← emit (EvOut ("Skipping " +:+ modname
                  +:+ ": module name may only contain the characters [a-zA-Z0-9_-]"));
        mret None.
Fixpoint collect (project : string) (project_path : option ppath) (modnames : list string)
    : io (list (ppath * string)) :=
  match modnames with
  | [] => mret []
  | name :: modnames =>
      m ← target project project_path name;
      rest ← collect project project_path modnames;
      mret (option_list m ++ rest)
  end.
Definition main (project : string) (modnames : list string) : io Z :=
  _ ← check_directory src_path;
  _ ← check_directory contrib_path;
  project_path ← parse_project project;
  modules ← collect project project_path modnames;
  created ← all_run ((λ m, make_module m.1 m.2) <$> modules);
  _ ← (if created : bool then
         _ ← emit (EvOut "");
         _ ← emit (EvOut "Successfully created new modules");
         emit (EvOut "Run './waf configure' to include them in the build")
       else mret ());
  mret 0.
(** The exit status of the script. *)
Definition script (project : string) (modnames : list string) : io Z :=
  catch (main project modnames) (λ e,
    match e with
    | SystemExit code => mret code
    | _ => _ ← emit (EvException e); mret 1
    end).
End artifacts.

(** *** A run on a small tree *)
Definition lax : os :=
  {| mkdir_allowed := λ _, true; open_allowed := λ _, true; write_stop := λ _ _, None;
     rmtree_stop := λ _, None |}.
Definition demo_fs : fsys :=
  list_to_map [(["ns3"], Dir); (["ns3"; "src"], Dir); (["ns3"; "contrib"], Dir);
               (["ns3"; "src"; "core"], Dir)].
Example script_ex :
  let r := script lax ["ns3"] "" ["src/my-udp"; "a/b/c"; "we!"] (demo_fs, []) in
  (r.2, r.1.2, length (map_to_list r.1.1),
   r.1.1 !! ["ns3"; "src"; "my-udp"; "model"; "my-udp.h"] ) =
  (Ok 0,
   [EvOut "Skipping a/b/c: module name can not be a path";
    EvOut "Skipping we!: module name may only contain the characters [a-zA-Z0-9_-]";
    EvOut "Creating module /ns3/src/my-udp"; EvOut "";
    EvOut "Successfully created new modules";
    EvOut "Run './waf configure' to include them in the build"], 19%nat,
   Some (File (lines [
     "/* -*- Mode:C++; c-file-style:^gnu^; indent-tabs-mode:nil; -*- */";
     "#ifndef MY_UDP_H";
     "#define MY_UDP_H";
     "";
     "namespace ns3 {";
     "";
     "/* ... */";
     "";
     "}";
     "";
     "#endif /* MY_UDP_H */";
     ""]))).
Proof. vm_compute. reflexivity. Qed.

(** ** Names *)
(** A name that is one component of a path. *)
Definition component (s : string) : Prop := s ≠ "" ∧ s ≠ "." ∧ "/"%char ∉ chars s.
(** A component without a dot: a suffix is appended to it. *)
Definition plain_name (s : string) : Prop := s ≠ "" ∧ ("/"%char ∉ chars s) ∧ ("."%char ∉ chars s).

Lemma plain_component s : plain_name s → component s.
Proof. intros (? & ? & Hd). repeat split; [done| |done]. intros ->. apply Hd. by left. Qed.
Lemma plain_app s t : plain_name s → "/"%char ∉ chars t → "."%char ∉ chars t → plain_name (s +:+ t).
Proof.
  intros (Hn & ? & ?) ? ?. unfold plain_name. rewrite chars_app, !not_elem_of_app.
  repeat split; try done. by destruct s.
Qed.

Lemma parse_component s : component s → parse_path s = {| root := ""; comps := [s] |}.
Proof.
  intros (Hn & Hd & Hs). unfold parse_path, split. rewrite split_chars_none by done.
  assert (startswith s "/" = false) as ->.
  { destruct s as [|a s]; [done|]. unfold startswith, String.prefix.
    destruct (Ascii.ascii_dec a "/") as [->|]; [|by case_match]. destruct Hs. by left. }
  f_equal. csimpl. rewrite of_chars_chars, filter_cons, decide_True; [done|].
  unfold is_component. by rewrite bool_decide_eq_true_2.
Qed.
Lemma joinpath_component p s : component s → joinpath p s = {| root := root p; comps := comps p ++ [s] |}.
Proof. intros. unfold joinpath. by rewrite parse_component. Qed.

Lemma plain_not_up m s : plain_name m → m +:+ s ≠ "..".
Proof.
  destruct m as [|a m]; intros (Hn & _ & Hd); [done|]. intros [= -> _]. destruct Hd. by left.
Qed.
Lemma plain_not_up' m : plain_name m → m ≠ "..".
Proof. intros Hm. rewrite <-(append_nil_r m). by apply plain_not_up. Qed.
Lemma rst_not_up m : m +:+ ".rst" ≠ "..".
Proof. by destruct m as [|a [|b [|c m]]]. Qed.
Lemma component_rst m : component m → component (m +:+ ".rst").
Proof.
  intros (? & ? & ?). split_and!; [by destruct m|by destruct m as [|a [|b m]]|].
  rewrite chars_app, not_elem_of_app. split; [done|]. by apply (bool_decide_unpack _).
Qed.
Lemma name_stem_plain s : "."%char ∉ chars s → name_stem s = s.
Proof.
  intros Hd. unfold name_stem.
  rewrite <-(app_nil_r (reverse (chars s))), span_app; [|apply Forall_forall|done].
  - by destruct (reverse (chars s)).
  - intros a Ha. apply bool_decide_eq_true_2. intros ->. by rewrite elem_of_reverse in Ha.
Qed.
Lemma with_suffix_plain r c s suffix : "."%char ∉ chars s →
  with_suffix {| root := r; comps := c ++ [s] |} suffix =
    Ok {| root := r; comps := c ++ [s +:+ suffix] |}.
Proof.
  intros Hd. unfold with_suffix. simpl. rewrite reverse_snoc.
  by rewrite reverse_involutive, name_stem_plain.
Qed.

(** What the expression accepts. *)
Definition name_char (a : ascii) : bool := is_word_char a || bool_decide (a = "-"%char).
Lemma allowedRE_spec s :
  allowedRE s = true ↔ ∃ l, l ≠ [] ∧ Forall (λ a, name_char a = true) l ∧
    (chars s = l ∨ chars s = l ++ [newline]).
Proof.
  unfold allowedRE. change (λ a, is_word_char a || bool_decide (a = "-"%char)) with name_char.
  split.
  - destruct (span name_char (chars s)) as [x y] eqn:E. apply span_spec in E as (-> & Hx & Hy).
    destruct x as [|a x]; [done|]. destruct y as [|b [|c y]]; [|intros ->%bool_decide_eq_true|done];
      exists (a :: x); rewrite ?app_nil_r; auto.
  - intros (l & Hl & Hall & [-> | ->]).
    + rewrite <-(app_nil_r l), span_app by done. by destruct l.
    + rewrite span_app; [by destruct l|done|]. by intros a y [= <- <-].
Qed.
Lemma allowed_plain s : allowedRE s = true → plain_name s.
Proof.
  rewrite allowedRE_spec. intros (l & Hl & Hall & Hs).
  assert (∀ a, name_char a = false → a ≠ newline → a ∉ chars s) as Hno.
  { intros a Ha Hne. rewrite Forall_forall in Hall. assert (a ∉ l) by (intros ?%Hall; congruence).
    destruct Hs as [-> | ->]; [done|]. by rewrite not_elem_of_app, list_elem_of_singleton. }
  split; [|by split; apply Hno]. intros ->. destruct Hs as [<-|Hs]; [done|by destruct l].
Qed.

(** ** Building below a directory
    [built p fs0 es fs]: [fs] is [fs0] with the entries [es] below [p]. *)
Definition built (p : path) (fs0 : fsys) (es : list (path * fnode)) (fs : fsys) : Prop :=
  wf fs ∧ node_at fs p = Some Dir ∧ NoDup es.*1 ∧
  (∀ r n, (r, n) ∈ es → fs !! (p ++ r) = Some n) ∧
  (∀ r, r ≠ [] → r ∉ es.*1 → fs !! (p ++ r) = None) ∧
  (∀ q, ¬ p `prefix_of` q → fs !! q = fs0 !! q).

Lemma built_start p fs : wf fs → node_at fs p = Some Dir → (∀ r, r ≠ [] → fs !! (p ++ r) = None) →
  built p fs [] fs.
Proof.
  intros Hwf Hp Hn. split_and!; try done; [constructor|by intros r n ?%not_elem_of_nil|].
  intros r ? _. by apply Hn.
Qed.
Lemma built_node p fs0 es fs d : built p fs0 es fs → d = [] ∨ (d, Dir) ∈ es →
  node_at fs (p ++ d) = Some Dir.
Proof.
  intros (_ & Hp & _ & Hes & _) [->|Hd]; [by rewrite app_nil_r|].
  destruct (decide (p ++ d = [])) as [E|]; [by rewrite E|]. rewrite node_at_ne by done. by apply Hes.
Qed.
Lemma built_fresh p fs0 es fs d x : built p fs0 es fs → d ++ [x] ∉ es.*1 → fs !! (p ++ d ++ [x]) = None.
Proof. intros (_ & _ & _ & _ & Hn & _) Hx. apply Hn; [by destruct d|done]. Qed.
Lemma built_insert p fs0 es fs d x n :
  built p fs0 es fs → d = [] ∨ (d, Dir) ∈ es → d ++ [x] ∉ es.*1 →
  built p fs0 ((d ++ [x], n) :: es) (<[p ++ d ++ [x] := n]> fs).
Proof.
  intros Hb Hd Hx. pose proof (built_node _ _ _ _ _ Hb Hd) as Hdir.
  pose proof (built_fresh _ _ _ _ _ _ Hb Hx) as Hfresh.
  destruct Hb as (Hwf & Hp & Hnd & Hes & Hno & Hout). split_and!.
  - rewrite app_assoc in Hfresh |- *. apply wf_insert; [done..|congruence].
  - destruct (decide (p = [])) as [->|]; [done|]. rewrite !node_at_ne in * by done.
    rewrite lookup_insert_ne; [done|]. intros E%(f_equal length). rewrite !length_app in E.
    simpl in E. lia.
  - by apply NoDup_cons.
  - intros r m [[= -> ->]|Hr]%elem_of_cons; [by rewrite lookup_insert_eq|].
    rewrite lookup_insert_ne; [by apply Hes|]. intros <-%app_inv_head. apply Hx.
    apply list_elem_of_fmap. by exists (d ++ [x], m).
  - intros r Hr0 [Hr Hr']%not_elem_of_cons. rewrite lookup_insert_ne; [by apply Hno|].
    by intros <-%app_inv_head.
  - intros q Hq. rewrite lookup_insert_ne; [by apply Hout|]. intros <-. apply Hq. by eexists.
Qed.

(** ** The templates have no field that the functions do not fill. *)
Definition fillable (names : list string) (seg : segment) : bool :=
  match seg with
  | Lit _ => true
  | Field name conv =>
      bool_decide (name ∈ names) &&
      match conv with None => true | Some c => bool_decide (c ∈ chars "sra") end
  | Bad _ => false
  end.
Definition content (template : string) (kwargs : list (string * string)) : string :=
  match py_format template kwargs with Ok text => text | Err _ => "" end.
Lemma render_fillable kwargs segs :
  forallb (fillable kwargs.*1) segs = true → ∃ text, render kwargs segs = Ok text.
Proof.
  induction segs as [|[l|name conv|msg] segs IH]; simpl; [by eauto|..|done].
  - intros (text & ->)%IH. simpl. eauto.
  - intros [[Hn Hc]%andb_true_iff (text & ->)%IH]%andb_true_iff.
    apply bool_decide_eq_true, dict_get_some in Hn as [v ->].
    assert (∃ shown, show_field v conv = Ok shown) as [shown ->]; [|simpl; eauto].
    destruct conv as [c|]; [|by eexists]. apply bool_decide_eq_true in Hc. simpl.
    case_decide; [by eexists|]. rewrite decide_True; [by eexists|].
    apply elem_of_cons in Hc as [?|Hc]; done.
Qed.
Lemma content_ok template kwargs :
  forallb (fillable kwargs.*1) (format_template template) = true →
  py_format template kwargs = Ok (content template kwargs).
Proof.
  intros (text & E)%render_fillable. unfold content, py_format. by rewrite E.
Qed.

(** ** What a module consists of *)
Abbreviation source := (string * list (string * string))%type.
Definition layout_wscript (m : string) : list (path * option source) :=
  [(["wscript"], Some (WSCRIPT_TEMPLATE, [("MODULE", m)]))].
Definition layout_model (m : string) : list (path * option source) :=
  [(["model"], None);
   (["model"; m +:+ ".cc"], Some (MODEL_CC_TEMPLATE, [("MODULE", m)]));
   (["model"; m +:+ ".h"], Some (MODEL_H_TEMPLATE,
      [("MODULE", m); ("INCLUDE_GUARD", guard_name m +:+ "_H")]))].
Definition layout_test (m : string) : list (path * option source) :=
  [(["test"], None);
   (["test"; (m +:+ "-test-suite") +:+ ".cc"], Some (TEST_CC_TEMPLATE,
      [("MODULE", m); ("CAPITALIZED", capitalized (split "-" m)); ("COMPOUND", compound (split "-" m))]))].
Definition layout_helper (m : string) : list (path * option source) :=
  [(["helper"], None);
   (["helper"; (m +:+ "-helper") +:+ ".cc"], Some (HELPER_CC_TEMPLATE, [("MODULE", m)]));
   (["helper"; (m +:+ "-helper") +:+ ".h"], Some (HELPER_H_TEMPLATE,
      [("MODULE", m); ("INCLUDE_GUARD", guard_name m +:+ "_HELPER_H")]))].
Definition layout_examples (m : string) : list (path * option source) :=
  [(["examples"], None);
   (["examples"; "wscript"], Some (EXAMPLES_WSCRIPT_TEMPLATE, [("MODULE", m)]));
   (["examples"; (m +:+ "-example") +:+ ".cc"], Some (EXAMPLE_CC_TEMPLATE, [("MODULE", m)]))].
Definition layout_doc (m rel : string) : list (path * option source) :=
  [(["doc"], None);
   (["doc"; m +:+ ".rst"], Some (DOC_RST_TEMPLATE, [("MODULE", m); ("MODULE_DIR", rel)]))].
Definition layout (m rel : string) : list (path * option source) :=
  layout_wscript m ++ layout_model m ++ layout_test m ++ layout_helper m ++ layout_examples m
  ++ layout_doc m rel.

Definition entry (e : path * option source) : path * fnode :=
  (e.1, match e.2 with None => Dir | Some (template, kwargs) => File (content template kwargs) end).
Lemma layout_fillable m rel :
  Forall (λ e, match e.2 with
               | Some (template, kwargs) =>
                   forallb (fillable kwargs.*1) (format_template template) = true
               | None => True end) (layout m rel).
Proof.
  unfold layout, layout_wscript, layout_model, layout_test, layout_helper, layout_examples, layout_doc.
  simpl app. repeat (apply Forall_cons; split); [..|by apply Forall_nil]; cbn [snd];
    first [exact I|vm_compute; reflexivity].
Qed.
(** The entries of the module directory that are in use. *)
Definition heads (es : list (path * fnode)) : list (option string) := (λ e, head e.1) <$> es.

(** Decides that a literal name is a component, or that a suffix keeps it one. *)
Ltac literal := unfold component, plain_name; split_and!; by apply (bool_decide_unpack _).
Ltac suffixed := apply plain_app; [done|by apply (bool_decide_unpack _)..].

(** Decides that a path has no [..]. *)
Ltac no_up := rewrite ?direct_app, ?direct_cons; split_and?;
  first [exact direct_nil | done | by apply plain_not_up | by apply plain_not_up' | by apply rst_not_up
        | by apply (bool_decide_unpack _)].
Section success.
Context (sys : os) (Hsys : allows_all sys) (rt : string) (p : path) (Hdirect : direct p).
Abbreviation dir := {| root := rt; comps := p |}.

Lemma mkdir_step fs0 es fs d :
  built p fs0 es fs → Some d ∉ heads es → d ≠ ".." →
  ∃ fs', mkdir sys (p ++ [d]) fs = (fs', Ok ()) ∧ built p fs0 (([d], Dir) :: es) fs'.
Proof.
  intros Hb Hd Hup. eexists. split; cycle 1.
  - apply (built_insert p fs0 es fs [] d); [done|by left|].
    intros Hin. apply Hd. apply list_elem_of_fmap in Hin as ([r n] & E & Hin).
    apply list_elem_of_fmap. exists (r, n). simpl in *. by subst.
  - apply mkdir_child; [done|no_up|by destruct Hb as (?&_)|by destruct Hb as (_&?&_)|].
    apply (built_fresh p fs0 es fs [] d Hb). intros Hin. apply Hd.
    apply list_elem_of_fmap in Hin as ([r n] & E & Hin).
    apply list_elem_of_fmap. exists (r, n). simpl in *. by subst.
Qed.
Lemma create_step fs0 es fs d x template kwargs :
  built p fs0 es fs → direct (d ++ [x]) → d = [] ∨ (d, Dir) ∈ es → d ++ [x] ∉ es.*1 →
  forallb (fillable kwargs.*1) (format_template template) = true →
  ∃ fs', create_file sys {| root := rt; comps := p ++ d ++ [x] |} template kwargs fs = (fs', Ok ()) ∧
    built p fs0 (entry (d ++ [x], Some (template, kwargs)) :: es) fs'.
Proof.
  intros Hb Hup Hd Hx Hf. assert (direct (p ++ d ++ [x])) as Hup' by (by rewrite direct_app).
  eexists. split; [|by apply built_insert].
  unfold create_file. simpl. pose proof (built_fresh _ _ _ _ _ _ Hb Hx) as Hfresh.
  pose proof (built_node _ _ _ _ _ Hb Hd) as Hdir. rewrite app_assoc in *.
  rewrite (bind_run _ _ _ _ _ (open_wt_child sys Hsys _ _ _ Hup' (proj1 Hb) Hdir Hfresh)).
  rewrite (content_ok _ _ Hf), bind_lift_ok, write_ok by done. by rewrite insert_insert_eq.
Qed.

Lemma head_fresh d r es : Some d ∉ heads es → (d :: r) ∉ es.*1.
Proof.
  intros Hd Hin. apply Hd. apply list_elem_of_fmap in Hin as ([k n] & E & Hin).
  apply list_elem_of_fmap. exists (k, n). simpl in *. by subst.
Qed.

Ltac make_dir H d := destruct (mkdir_step _ _ _ d H) as (? & Hrun & ?Hb); [done|done|];
  rewrite (bind_run _ _ _ _ _ Hrun); clear Hrun.
Ltac make_file H d x := match goal with |- context [create_file _ _ ?template ?kwargs] =>
  destruct (create_step _ _ _ d x template kwargs H) as (? & Hrun & ?Hb);
    [simpl app; no_up| | |vm_compute; reflexivity|simpl app in Hrun; rewrite (bind_run _ _ _ _ _ Hrun); clear Hrun] end.
(** Not one of the entries so far. *)
Ltac new_entry := simpl; repeat (apply not_elem_of_cons; split); [..|by apply head_fresh].

Lemma make_wscript_ok fs0 es fs m :
  built p fs0 es fs → Some "wscript" ∉ heads es →
  ∃ fs', make_wscript sys dir m fs = (fs', Ok true) ∧
    built p fs0 (reverse (entry <$> layout_wscript m) ++ es) fs'.
Proof.
  intros Hb Hh. unfold make_wscript. rewrite joinpath_component by literal. simpl.
  make_file Hb (@nil string) "wscript"; [by left|by apply head_fresh|]. by eexists.
Qed.
Lemma make_model_ok fs0 es fs m :
  built p fs0 es fs → Some "model" ∉ heads es → plain_name m →
  ∃ fs', make_model sys dir m fs = (fs', Ok true) ∧
    built p fs0 (reverse (entry <$> layout_model m) ++ es) fs'.
Proof.
  intros Hb Hh Hm. unfold make_model. rewrite !joinpath_component by (literal || by apply plain_component).
  simpl. make_dir Hb "model". rewrite !with_suffix_plain by apply Hm.
  rewrite bind_lift_ok, <-!app_assoc. simpl.
  make_file Hb0 ["model"] (m +:+ ".cc"); [right; left|new_entry; done|].
  rewrite bind_lift_ok. make_file Hb1 ["model"] (m +:+ ".h"); [right; right; left| |by eexists].
  new_entry; [|done]. by intros [= E%(inj (String.append m))].
Qed.
Lemma make_test_ok fs0 es fs m :
  built p fs0 es fs → Some "test" ∉ heads es → plain_name m →
  ∃ fs', make_test sys dir m fs = (fs', Ok true) ∧
    built p fs0 (reverse (entry <$> layout_test m) ++ es) fs'.
Proof.
  intros Hb Hh Hm. unfold make_test. assert (plain_name (m +:+ "-test-suite")) as Hm' by suffixed.
  rewrite !joinpath_component by (literal || by apply plain_component).
  simpl. make_dir Hb "test". rewrite !with_suffix_plain by apply Hm'.
  rewrite bind_lift_ok, <-!app_assoc. simpl.
  make_file Hb0 ["test"] ((m +:+ "-test-suite") +:+ ".cc"); [right; left|new_entry; done|by eexists].
Qed.
Lemma make_helper_ok fs0 es fs m :
  built p fs0 es fs → Some "helper" ∉ heads es → plain_name m →
  ∃ fs', make_helper sys dir m fs = (fs', Ok true) ∧
    built p fs0 (reverse (entry <$> layout_helper m) ++ es) fs'.
Proof.
  intros Hb Hh Hm. unfold make_helper. assert (plain_name (m +:+ "-helper")) as Hm' by suffixed.
  rewrite !joinpath_component by (literal || by apply plain_component).
  simpl. make_dir Hb "helper". rewrite !with_suffix_plain by apply Hm'.
  rewrite bind_lift_ok, <-!app_assoc. simpl.
  make_file Hb0 ["helper"] ((m +:+ "-helper") +:+ ".cc"); [right; left|new_entry; done|].
  rewrite bind_lift_ok.
  make_file Hb1 ["helper"] ((m +:+ "-helper") +:+ ".h"); [right; right; left| |by eexists].
  new_entry; [|done]. by intros [= E%(inj (String.append _))].
Qed.
Lemma make_examples_ok fs0 es fs m :
  built p fs0 es fs → Some "examples" ∉ heads es → plain_name m →
  ∃ fs', make_examples sys dir m fs = (fs', Ok true) ∧
    built p fs0 (reverse (entry <$> layout_examples m) ++ es) fs'.
Proof.
  intros Hb Hh Hm. unfold make_examples. assert (plain_name (m +:+ "-example")) as Hm' by suffixed.
  rewrite !joinpath_component by (literal || by apply plain_component).
  simpl. make_dir Hb "examples". rewrite !with_suffix_plain by apply Hm'. rewrite <-!app_assoc. simpl.
  make_file Hb0 ["examples"] "wscript"; [right; left|new_entry; done|]. rewrite bind_lift_ok.
  make_file Hb1 ["examples"] ((m +:+ "-example") +:+ ".cc"); [right; right; left| |by eexists].
  new_entry; [|done]. intros [= E%(f_equal (λ s, last (chars s)))].
  rewrite chars_app, last_app in E. done.
Qed.
Lemma make_doc_ok cwd fs0 es fs m :
  built p fs0 es fs → Some "doc" ∉ heads es → component m →
  ∃ fs' rel, make_doc sys cwd dir m fs = (fs', Ok true) ∧
    relpath (path_str (base_path cwd)) (path_str dir) "." = Ok rel ∧
    built p fs0 (reverse (entry <$> layout_doc m rel) ++ es) fs'.
Proof.
  intros Hb Hh Hm. unfold make_doc.
  assert (∃ rel, relpath (path_str (base_path cwd)) (path_str dir) "." = Ok rel) as [rel Hrel].
  { unfold relpath. rewrite decide_False; [by case_match; eexists|].
    unfold path_str. by case_decide. }
  pose proof (component_rst _ Hm) as Hm'.
  rewrite !joinpath_component by (literal || done). simpl. make_dir Hb "doc".
  rewrite Hrel, bind_lift_ok, <-!app_assoc. simpl.
  make_file Hb0 ["doc"] (m +:+ ".rst"); [right; left|new_entry; done|]. by do 2 eexists.
Qed.
End success.

Lemma all_run_true {S} (m : eff S exn bool) l s s' :
  m s = (s', Ok true) → all_run (m :: l) s = all_run l s'.
Proof. intros Hm. simpl. by rewrite (bind_run _ _ _ _ _ Hm). Qed.
Ltac free := simpl; repeat (apply not_elem_of_cons; split); [done..|by apply not_elem_of_nil].

Lemma generate_ok sys cwd rt p m fs :
  allows_all sys → plain_name m → wf fs → no_file fs p → node_at fs p = None →
  ∃ fs1 fs' rel, generate sys cwd {| root := rt; comps := p |} m fs = (fs', Ok ()) ∧
    made p fs fs1 ∧
    relpath (path_str (base_path cwd)) (path_str {| root := rt; comps := p |}) "." = Ok rel ∧
    built p fs1 (reverse (entry <$> layout m rel)) fs'.
Proof.
  intros Hsys Hm Hwf Hnf Hn. pose proof (proj1 Hnf) as Hd. destruct (mkdir_ok sys Hsys fs p Hwf Hnf Hn) as (fs1 & Hr & Hmade).
  assert (p ≠ []) as Hp by (by intros ->). rewrite node_at_ne in Hn by done.
  unfold generate. simpl comps. rewrite (bind_run _ _ _ _ _ Hr).
  assert (built p fs1 [] fs1) as Hb.
  { apply built_start; [apply Hmade|by eapply made_node|]. intros r Hr0. destruct Hmade as [_ Hq].
    rewrite Hq, decide_False; [by apply wf_below|]. intros [_ Hpre%prefix_length].
    rewrite length_app in Hpre. destruct r; [done|simpl in Hpre; lia]. }
  destruct (make_wscript_ok sys Hsys rt p Hd _ _ _ m Hb) as (f1 & H1 & Hb1); [free|].
  destruct (make_model_ok sys Hsys rt p Hd _ _ _ m Hb1) as (f2 & H2 & Hb2); [free|done|].
  destruct (make_test_ok sys Hsys rt p Hd _ _ _ m Hb2) as (f3 & H3 & Hb3); [free|done|].
  destruct (make_helper_ok sys Hsys rt p Hd _ _ _ m Hb3) as (f4 & H4 & Hb4); [free|done|].
  destruct (make_examples_ok sys Hsys rt p Hd _ _ _ m Hb4) as (f5 & H5 & Hb5); [free|done|].
  destruct (make_doc_ok sys Hsys rt p Hd cwd _ _ _ m Hb5) as (f6 & rel & H6 & Hrel & Hb6);
    [free|by apply plain_component|].
  exists fs1, f6, rel. split; [|split; [done|split; [done|]]].
  - assert (all_run ((λ func, func {| root := rt; comps := p |} m) <$> functions sys cwd) fs1 =
            (f6, Ok true)) as Hall.
    { unfold functions. rewrite !fmap_cons, (all_run_true _ _ _ _ H1), (all_run_true _ _ _ _ H2),
        (all_run_true _ _ _ _ H3), (all_run_true _ _ _ _ H4), (all_run_true _ _ _ _ H5).
      by rewrite (all_run_true _ _ _ _ H6). }
    by rewrite (bind_run _ _ _ _ _ Hall).
  - unfold layout. rewrite !fmap_app, !reverse_app, <-!app_assoc. by rewrite app_nil_r in Hb6.
Qed.

(** C9: a module that does not exist yet is created: its directory with all
    the directories on the way, and in it exactly the documented layout, every
    file holding its template with all fields filled; nothing else changes. *)
Theorem make_module_creates sys cwd modpath modname fs out :
  let p := comps modpath ++ [modname] in
  let modulepath := {| root := root modpath; comps := p |} in
  allows_all sys → wf fs → no_file fs p → fs !! p = None → allowedRE modname = true →
  ∃ fs' rel,
    make_module sys cwd modpath modname (fs, out) =
      ((fs', out ++ [EvOut ("Creating module " +:+ path_str modulepath)]), Ok true) ∧
    relpath (path_str (base_path cwd)) (path_str modulepath) "." = Ok rel ∧
    (∀ q, q ≠ [] → q `prefix_of` p → fs' !! q = Some Dir) ∧
    (∀ r, (r, None) ∈ layout modname rel → fs' !! (p ++ r) = Some Dir) ∧
    (∀ r template kwargs, (r, Some (template, kwargs)) ∈ layout modname rel →
      ∃ text, py_format template kwargs = Ok text ∧ fs' !! (p ++ r) = Some (File text)) ∧
    (∀ r, r ≠ [] → r ∉ (layout modname rel).*1 → fs' !! (p ++ r) = None) ∧
    (∀ q, ¬ q `prefix_of` p → ¬ p `prefix_of` q → fs' !! q = fs !! q).
Proof.
  intros p modulepath Hsys Hwf Hnf Hn Hm%allowed_plain.
  assert (node_at fs p = None) as Hn' by (unfold p; by rewrite node_at_snoc).
  destruct (generate_ok sys cwd (root modpath) p modname fs Hsys Hm Hwf Hnf Hn')
    as (fs1 & fs' & rel & Hgen & [_ Hmade] & Hrel & (_ & Hdir & Hnd & Hes & Hno & Hout)).
  fold modulepath in Hgen, Hrel.
  assert (∀ r x, (r, x) ∈ layout modname rel → fs' !! (p ++ r) = Some (entry (r, x)).2) as Hin.
  { intros r x Hx. apply Hes, elem_of_reverse, list_elem_of_fmap. by exists (r, x). }
  exists fs', rel. split_and!.
  - unfold make_module. rewrite joinpath_component by by apply plain_component. fold p modulepath.
    unfold exists_. rewrite bind_gets. unfold path_exists. simpl. fold p.
    rewrite wf_stat, Hn' by (done || apply Hnf). rewrite bool_decide_eq_false_2 by (by intros []).
    unfold emit. rewrite bind_modify. unfold catch, zoom_fst, zoom, mbind, eff_bind. simpl.
    by rewrite Hgen.
  - done.
  - intros q Hq Hpre. destruct (decide (q = p)) as [->|Hne].
    { by rewrite <-node_at_ne. }
    rewrite Hout, Hmade, decide_True; [done..|]. intros Hpq. apply Hne.
    by apply (anti_symm prefix).
  - intros r Hr. apply (Hin r None Hr).
  - intros r T kw Hr. exists (content T kw). split; [|apply (Hin r _ Hr)].
    apply content_ok. pose proof (layout_fillable modname rel) as Hf. rewrite Forall_forall in Hf.
    apply (Hf _ Hr).
  - intros r Hr0 Hr. apply Hno; [done|]. rewrite fmap_reverse, elem_of_reverse, <-list_fmap_compose.
    intros Hr'. by apply Hr.
  - intros q Hqp Hpq. rewrite Hout, Hmade, decide_False; [done|naive_solver|done].
Qed.

(** ** What a step may change
    [grows p m]: on a well-formed tree [m] changes what is strictly below [p]
    and adds directories on the way to [p] and [p] itself. *)
Definition below (p q : path) : Prop := p `prefix_of` q ∧ q ≠ p.
#[export] Instance below_dec p q : Decision (below p q).
Proof. unfold below. apply _. Defined.
Definition grown (p : path) (fs fs' : fsys) : Prop :=
  wf fs' ∧ ∀ q, below p q ∨ fs' !! q = fs !! q ∨
                (q `prefix_of` p ∧ fs !! q = None ∧ fs' !! q = Some Dir).
Definition grows {A} (p : path) (m : eff fsys exn A) : Prop :=
  ∀ fs, wf fs → grown p fs (m fs).1.

Lemma grown_refl p fs : wf fs → grown p fs fs.
Proof. intros. split; [done|]. intros q. right. by left. Qed.
Lemma grown_trans p fs1 fs2 fs3 : grown p fs1 fs2 → grown p fs2 fs3 → grown p fs1 fs3.
Proof.
  intros [_ H1] [Hwf H2]. split; [done|]. intros q.
  destruct (H1 q) as [?|[E1|(?&?&E1)]], (H2 q) as [?|[E2|(?&?&E2)]];
    try (by left); right; [left; congruence|right; split_and!; (done || congruence)..|congruence].
Qed.
Lemma grows_bind {A B : Type} (p : path) (m : eff fsys exn A) (k : A → eff fsys exn B) :
  grows p m → (∀ a, grows p (k a)) → grows p (m ≫= k).
Proof.
  intros Hm Hk fs Hwf. unfold mbind, eff_bind. pose proof (Hm fs Hwf) as H1.
  destruct (m fs) as [fs' [a|e]]; simpl in *; [|done]. eapply grown_trans; [done|].
  apply Hk, H1.
Qed.
Lemma grows_skip {A} (p : path) (m : eff fsys exn A) : (∀ fs, (m fs).1 = fs) → grows p m.
Proof. intros Hm fs Hwf. rewrite Hm. by apply grown_refl. Qed.
Lemma grows_mret {A} (p : path) (a : A) : grows p (mret a).
Proof. by apply grows_skip. Qed.
Lemma grows_throw {A} (p : path) e : grows p (throw e : eff fsys exn A).
Proof. by apply grows_skip. Qed.
Lemma grows_lift {A} (p : path) r : grows p (lift_res r : eff fsys exn A).
Proof. by apply grows_skip. Qed.
Lemma grows_mkdir sys (p k : path) : direct (p ++ k) → grows p (mkdir sys (p ++ k)).
Proof.
  intros Hdir fs Hwf. destruct (mkdir_extends sys (p ++ k) fs Hwf Hdir) as [He Hwf']. split; [done|]. intros q.
  destruct (He q) as [?|([l Hq]&?&?)]; [by right; left|]. 
  destruct (decide (below p q)) as [?|Hn]; [by left|]. right; right. split; [|done].
  destruct (prefix_weak_total p q (p ++ k)) as [Hpq|]; [by eexists|by exists l| |done].
  destruct (decide (q = p)) as [->|]; [done|]. by destruct Hn.
Qed.
Lemma grows_create sys (p k : path) r template kwargs : direct (p ++ k) → k ≠ [] →
  grows p (create_file sys {| root := r; comps := p ++ k |} template kwargs).
Proof.
  intros Hdir Hk fs Hwf. unfold create_file. simpl. set (path := p ++ k) in *.
  assert (∀ fs n, wf fs → (∃ d x, path = d ++ [x] ∧ node_at fs d = Some Dir) → fs !! path ≠ Some Dir →
    grown p fs (<[path := File n]> fs)) as Hins.
  { intros fs0 n Hwf0 (d & x & Hpath & Hd) Hn. split.
    - rewrite Hpath in *. by apply wf_insert.
    - intros q. destruct (decide (path = q)) as [<-|].
      + left. split; [by eexists|]. intros E. apply Hk, (app_inv_head p). by rewrite app_nil_r.
      + right; left. by rewrite lookup_insert_ne. }
  pose proof (grown_refl p fs Hwf) as Hid.
  unfold mbind, eff_bind. rewrite open_wt_direct by done. destruct (walk fs [] path) as [[]|e] eqn:Hw; [|done].
  destruct (snoc_cases path) as [E|(d & x & Hpath)]; [by rewrite E|].
  assert (∀ n, fs !! path ≠ Some Dir → grown p fs (<[path := File n]> fs)) as Hfile.
  { intros n Hn. apply Hins; [done| |done]. exists d, x. split; [done|].
    eapply walk_parent. by rewrite <-Hpath. }
  assert (node_at fs path = fs !! path) as Hnode by (rewrite Hpath; apply node_at_snoc).
  rewrite Hnode. destruct (fs !! path) as [[|c]|]; [done|..];
    (destruct (open_allowed sys path); [|done]); simpl;
    (destruct (py_format template kwargs) as [text|e]; [|by apply Hfile]); simpl;
    unfold write; case_match; simpl; rewrite insert_insert_eq; by apply Hfile.
Qed.
Lemma grows_lift_ok {A B : Type} (p : path) (a : A) (k : A → eff fsys exn B) :
  grows p (k a) → grows p (lift_res (Ok a) ≫= k).
Proof. intros Hk fs Hwf. rewrite bind_lift_ok. by apply Hk. Qed.
#[local] Hint Resolve grows_lift_ok | 0 : frame.
#[local] Hint Extern 1 (direct _) => no_up : frame.
#[local] Hint Extern 1 (_ :: _ ≠ []) => discriminate : frame.
#[local] Hint Resolve grows_bind grows_mret grows_throw grows_lift grows_mkdir grows_create : frame.

(** Every function stays in the module directory. *)
Section confinement.
Context (sys : os) (cwd : path) (rt : string) (p : path) (m : string) (Hm : plain_name m)
  (Hdirect : direct p).
Abbreviation dir := {| root := rt; comps := p |}.
Ltac stay := rewrite ?joinpath_component by (literal || by apply plain_component);
  simpl; rewrite ?with_suffix_plain by (apply Hm || match goal with H : plain_name _ |- _ => apply H end);
  rewrite <-?app_assoc; simpl; eauto 25 with frame.

Lemma functions_grow : Forall (λ func, grows p (func dir m)) (functions sys cwd).
Proof.
  assert (plain_name (m +:+ "-test-suite")) as H1 by suffixed.
  assert (plain_name (m +:+ "-helper")) as H2 by suffixed.
  assert (plain_name (m +:+ "-example")) as H3 by suffixed.
  unfold functions. repeat (apply Forall_cons; split); [..|by apply Forall_nil];
    unfold make_wscript, make_model, make_test, make_helper, make_examples.
  - stay.
  - stay.
  - stay.
  - stay.
  - stay.
  - pose proof (component_rst m (plain_component m Hm)) as Hrst. unfold make_doc.
    rewrite !joinpath_component by (literal || done). simpl. rewrite <-app_assoc. eauto 12 with frame.
Qed.
Lemma all_run_grow (l : list (ppath → string → eff fsys exn bool)) :
  Forall (λ func, grows p (func dir m)) l → grows p (all_run ((λ func, func dir m) <$> l)).
Proof.
  induction 1 as [|func l Hf _ IH]; csimpl; [apply grows_mret|].
  apply grows_bind; [done|]. intros []; [done|apply grows_mret].
Qed.
Lemma generate_grows : grows p (generate sys cwd dir m).
Proof.
  unfold generate. cbn [comps]. apply grows_bind; [|intros _; apply grows_bind].
  - rewrite <-(app_nil_r p) at 2. apply grows_mkdir. by rewrite app_nil_r.
  - apply all_run_grow, functions_grow.
  - intros []; [apply grows_mret|apply grows_throw].
Qed.
End confinement.

(** What [make_module] does of the file system, when it fails. *)
Definition only_ancestors (p : path) (fs fs' : fsys) : Prop :=
  ∀ q, fs' !! q = fs !! q ∨ (q `prefix_of` p ∧ q ≠ p ∧ fs !! q = None ∧ fs' !! q = Some Dir).

Lemma grown_removed p fs fs' :
  wf fs → fs !! p = None → p ≠ [] → grown p fs fs' → (∀ q, p `prefix_of` q → fs' !! q = None) →
  only_ancestors p fs fs'.
Proof.
  intros Hwf Hn Hp [_ Hg] Hrm q. destruct (decide (p `prefix_of` q)) as [Hq|Hq].
  - left. rewrite Hrm by done. destruct Hq as [r ->]. by rewrite wf_below.
  - destruct (Hg q) as [[? _]|[?|(?&?&?)]]; [done|by left|]. right. split_and!; try done.
    intros ->. by apply Hq.
Qed.

Lemma rollback_cases sys p rt m e fs fs1 out :
  wf fs → fs !! p = None → p ≠ [] → direct p → grown p fs fs1 →
  ∃ fs' out' r, rollback sys {| root := rt; comps := p |} m e (fs1, out) = ((fs', out ++ out'), r) ∧
    wf fs' ∧
    match r with
    | Ok b => b = false ∧ only_ancestors p fs fs'
    | Err e => e = OSError ∧ rmtree_stop sys p ≠ None ∧ grown p fs fs'
    end.
Proof.
  intros Hwf Hn Hp Hdir [Hwf1 Hg]. unfold rollback, exists_. rewrite bind_gets. unfold path_exists.
  cbn [comps fst]. rewrite wf_stat, node_at_ne by done.
  destruct (fs1 !! p) as [n|] eqn:Hn1; cycle 1.
  { rewrite bool_decide_eq_false_2 by (by intros []). unfold mbind, eff_bind, emit. simpl.
    eexists _, _, (Ok false). split_and!; [reflexivity|done|done|].
    apply grown_removed; [done..|]. intros q [r ->]. by rewrite wf_below. }
  rewrite bool_decide_eq_true_2 by done. unfold zoom_fst, zoom, mbind at 1, eff_bind at 1. cbn [fst snd].
  assert (∀ kept, grown p fs (filter (λ kv, remains p kept kv.1) fs1)) as Hkept.
  { intros kept. split; [by apply remains_wf|]. intros q. rewrite remains_lookup.
    destruct (decide (below p q)) as [|Hq]; [by left|]. case_decide as Hr; [apply Hg|].
    right; left. destruct (decide (q = p)) as [->|]; [done|]. destruct Hr. left. by intros ?; destruct Hq. }
  assert (n = Dir) as ->.
  { destruct (Hg p) as [[_ ?]|[?|(_&_&?)]]; congruence. }
  rewrite rmtree_direct by (done || by rewrite node_at_ne).
  destruct (rmtree_stop sys p) as [kept|] eqn:Hstop.
  - eexists _, [], (Err OSError). rewrite app_nil_r.
    split; [done|]. split; [by apply remains_wf|]. by split; [|split; [|apply Hkept]].
  - unfold mbind, eff_bind, emit. simpl. eexists _, _, (Ok false).
    split; [done|]. split; [by apply remains_wf|]. split; [done|].
    apply grown_removed; [done..|apply Hkept|].
    intros q Hq. rewrite remains_lookup, decide_False; [done|]. rewrite remains_nil. naive_solver.
Qed.

Lemma make_module_cases sys cwd modpath m fs out :
  wf fs → direct (comps modpath) → plain_name m →
  let p := comps modpath ++ [m] in
  ∃ fs' out' r, make_module sys cwd modpath m (fs, out) = ((fs', out ++ out'), r) ∧ wf fs' ∧
    match r with
    | Ok true => fs !! p = None ∧ grown p fs fs' ∧
        out' = [EvOut ("Creating module " +:+ path_str {| root := root modpath; comps := p |})]
    | Ok false => only_ancestors p fs fs'
    | Err e => e = OSError ∧ rmtree_stop sys p ≠ None ∧ grown p fs fs'
    end.
Proof.
  intros Hwf Hd Hm p. unfold make_module.
  rewrite joinpath_component by by apply plain_component. fold p.
  set (modulepath := {| root := root modpath; comps := p |}).
  assert (direct p) as Hdir by (by apply direct_snoc; auto using plain_not_up').
  unfold exists_. rewrite bind_gets. unfold path_exists. cbn [comps fst].
  assert (p ≠ []) as Hp by (unfold p; by destruct (comps modpath)).
  change (comps modulepath) with p. rewrite wf_stat, node_at_ne by done.
  destruct (fs !! p) as [n|] eqn:Hn.
  { rewrite bool_decide_eq_true_2 by done. eexists fs, _, (Ok false).
    split; [reflexivity|]. split; [done|]. intros q. by left. }
  rewrite bool_decide_eq_false_2 by (by intros []).
  unfold emit. rewrite bind_modify. unfold catch, zoom_fst, zoom, mbind, eff_bind. cbn [fst snd].
  pose proof (generate_grows sys cwd (root modpath) p m Hm Hdir fs Hwf) as Hg. fold modulepath in Hg.
  destruct (generate sys cwd modulepath m fs) as [fs1 [[]|e]]; cbn [fst snd] in *.
  { eexists fs1, _, (Ok true). by split_and!; [|destruct Hg| | |]. }
  destruct (rollback_cases sys p (root modpath) m e fs fs1
    (out ++ [EvOut ("Creating module " +:+ path_str modulepath)]) Hwf Hn Hp Hdir Hg)
    as (fs' & out' & r & Hrun & Hwf' & Hr).
  fold modulepath in Hrun. unfold zoom_fst, zoom in Hrun. rewrite Hrun, <-app_assoc.
  eexists fs', _, r. split_and!; [done|done|]. destruct r as [b|e']; [by destruct Hr as [-> ?]|done].
Qed.

(** C8: a module that is not created leaves nothing behind: whatever the
    system refuses, and at whatever point, [make_module] returns False, and the
    files are those from before, but for directories made on the way to the
    module.  Only when the removal of the module directory itself fails
    ([rmtree_stop]) something is left, strictly below that directory, and the
    error of that removal is what [make_module] raises. *)
Theorem make_module_rollback sys cwd modpath modname fs out s r :
  let p := comps modpath ++ [modname] in
  wf fs → direct (comps modpath) → allowedRE modname = true →
  make_module sys cwd modpath modname (fs, out) = (s, r) → r ≠ Ok true →
  (r = Ok false ∧ only_ancestors p fs s.1) ∨
  (rmtree_stop sys p ≠ None ∧ r = Err OSError ∧ grown p fs s.1).
Proof.
  intros p Hwf Hd Hm%allowed_plain Hrun Hr.
  destruct (make_module_cases sys cwd modpath modname fs out Hwf Hd Hm) as (fs' & out' & r' & E & _ & Hb).
  rewrite E in Hrun. simplify_eq. destruct r as [[]|e]; naive_solver.
Qed.

(** ** What the command line can name *)
Section targets.
Context (sys : os) (cwd : path).

(** A place for a module: in the src directory, or in the contrib directory or
    below it. *)
Definition placed (m : ppath * string) : Prop :=
  allowedRE m.2 = true ∧
  (comps m.1 = cwd ++ ["src"] ∨
   ∃ k, comps m.1 = cwd ++ "contrib" :: k ∧ Forall (λ c, allowedRE c = true) k).
(** A step of the command line that only reports. *)
Definition reports {A} (m : io A) (P : A → Prop) : Prop :=
  ∀ s, (m s).1.1 = s.1 ∧ (∀ a, (m s).2 = Ok a → P a) ∧ (∀ c, (m s).2 = Err (SystemExit c) → c = 2).

Lemma reports_bind {A B : Type} (m : io A) (k : A → io B) P Q :
  reports m P → (∀ a, P a → reports (k a) Q) → reports (m ≫= k) Q.
Proof.
  intros Hm Hk s. unfold mbind, eff_bind. destruct (Hm s) as (H1 & H2 & H3).
  destruct (m s) as [s' [a|e]]; simpl in *; [|by split_and!; [|intros ?|naive_solver]].
  destruct (Hk a (H2 a eq_refl) s') as [H4 H5]. split; [congruence|done].
Qed.
Lemma reports_mret {A} (a : A) (P : A → Prop) : P a → reports (mret a) P.
Proof. intros Ha s. split_and!; [done|by intros b [= <-]|done]. Qed.
Lemma reports_lift {A} (r : res A) (P : A → Prop) :
  (∀ a, r = Ok a → P a) → (∀ c, r ≠ Err (SystemExit c)) → reports (lift_res r) P.
Proof. intros Hr Hc s. split_and!; [done|apply Hr|]. by intros c ?%Hc. Qed.
Lemma reports_emit e : reports (emit e) (λ _, True).
Proof. done. Qed.
Lemma reports_error {A} msg (P : A → Prop) : reports (parser_error msg) P.
Proof. intros s. split_and!; [done..|]. by intros c [= <-]. Qed.
Lemma py_index_no_exit {A} (l : list A) i c : py_index l i ≠ Err (SystemExit c).
Proof. unfold py_index. by repeat case_match. Qed.
Lemma relative_to_no_exit p q c : relative_to p q ≠ Err (SystemExit c).
Proof. unfold relative_to. by case_match. Qed.

Lemma parse_project_reports project :
  reports (parse_project project) (λ o, ∀ q, o = Some q →
    root q = "" ∧ Forall (λ c, allowedRE c = true) (comps q)).
Proof.
  unfold parse_project. case_decide; [by apply reports_mret|].
  apply (reports_bind _ _ (λ q, root q = "")).
  - apply reports_lift. intros q. destruct (is_absolute (parse_path project)) eqn:E.
    + unfold relative_to. case_decide; [|done]. by intros [= <-].
    + intros [= <-]. unfold is_absolute in E. apply bool_decide_eq_false in E. by apply dec_stable in E.
    + intros c. destruct (is_absolute _); [apply relative_to_no_exit|done].
  - intros q Hq. destruct (forallb allowedRE (parts q)) eqn:E; [|apply reports_error].
    apply reports_mret. intros q' [= <-]. split; [done|].
    unfold parts in E. rewrite decide_True in E by done. revert E. clear.
    induction (comps q) as [|c k IH]; simpl; [by constructor|].
    intros [Hc Hk]%andb_true_iff. constructor; auto.
Qed.

Lemma place_reports project name_path name :
  reports (place cwd project name_path name) (λ q, comps q.1 = cwd ++ ["src"] ∨ comps q.1 = cwd ++ ["contrib"]).
Proof.
  unfold place.
  apply (reports_bind _ _ (λ _, True)); [apply reports_lift; eauto using py_index_no_exit|].
  intros first _. repeat case_decide; [apply reports_error|..|by apply reports_mret; right];
    (apply (reports_bind _ _ (λ _, True)); [apply reports_lift; eauto using relative_to_no_exit|];
     intros q _; apply reports_mret); [by left|by right].
Qed.

Lemma target_reports project project_path name :
  (∀ q, project_path = Some q → root q = "" ∧ Forall (λ c, allowedRE c = true) (comps q)) →
  reports (target cwd project project_path name) (λ o, ∀ m, o = Some m → placed m).
Proof.
  intros Hp. unfold target. case_decide; [by apply reports_mret|].
  case_match; [eapply reports_bind; [apply reports_emit|]; intros _ _; by apply reports_mret|].
  eapply reports_bind; [apply place_reports|]. intros [modpath np] Hq. simpl in Hq.
  apply (reports_bind _ _ (λ _, True)); [apply reports_lift; eauto using py_index_no_exit|].
  intros modname _.
  destruct (allowedRE modname) eqn:E.
  - apply reports_mret. intros m [= <-]. split; [done|]. simpl. destruct project_path as [q|].
    + destruct (Hp q eq_refl) as [Hr Hall]. right. exists (comps q). split; [|done].
      unfold join_path, is_absolute. rewrite bool_decide_eq_false_2 by naive_solver.
      simpl. by rewrite <-app_assoc.
    + destruct Hq as [Hq|Hq]; [by left|right]. by exists [].
  - eapply reports_bind; [apply reports_emit|]. intros _ _. by apply reports_mret.
Qed.
Lemma collect_reports project project_path modnames :
  (∀ q, project_path = Some q → root q = "" ∧ Forall (λ c, allowedRE c = true) (comps q)) →
  reports (collect cwd project project_path modnames) (Forall placed).
Proof.
  intros Hp. induction modnames as [|name modnames IH]; simpl.
  - apply reports_mret. constructor.
  - eapply reports_bind; [by apply target_reports|]. intros o Ho.
    eapply reports_bind; [apply IH|]. intros rest Hrest. apply reports_mret.
    apply Forall_app. split; [|done]. destruct o as [m|]; [|by constructor].
    apply Forall_singleton. by apply Ho.
Qed.
End targets.

(** ** Where the script writes *)
(** Both trees only differ strictly below the src and the contrib directory. *)
Definition confined (cwd : path) (fs fs' : fsys) : Prop :=
  ∀ q, fs' !! q = fs !! q ∨
    ∃ d r, (d = "src" ∨ d = "contrib") ∧ r ≠ [] ∧ q = cwd ++ d :: r.
(** The script runs at the top of the source tree. *)
Definition ready (cwd : path) (fs : fsys) : Prop :=
  wf fs ∧ node_at fs (cwd ++ ["src"]) = Some Dir ∧ node_at fs (cwd ++ ["contrib"]) = Some Dir.

Lemma confined_refl cwd fs : confined cwd fs fs.
Proof. by left. Qed.
Lemma confined_trans cwd fs1 fs2 fs3 :
  confined cwd fs1 fs2 → confined cwd fs2 fs3 → confined cwd fs1 fs3.
Proof. intros H1 H2 q. destruct (H1 q), (H2 q); [left; congruence|by right..]. Qed.
Lemma confined_ready cwd fs fs' : ready cwd fs → wf fs' → confined cwd fs fs' → ready cwd fs'.
Proof.
  intros (_ & Hs & Hc) Hwf Hcf. split; [done|]. rewrite !node_at_snoc in *.
  assert (∀ d, fs !! (cwd ++ [d]) = Some Dir → fs' !! (cwd ++ [d]) = Some Dir) as Hd.
  { intros d Hd. destruct (Hcf (cwd ++ [d])) as [E|(d' & r & _ & Hr & E)]; [congruence|].
    apply app_inv_head in E. by simplify_eq. }
  split; by apply Hd.
Qed.

Lemma placed_direct cwd m : direct cwd → placed cwd m → direct (comps m.1).
Proof.
  intros Hcwd [_ [-> |(k & -> & Hk)]]; rewrite direct_app, direct_cons; split_and!; try done;
    [apply direct_nil|].
  unfold direct. intros Hin. rewrite Forall_forall in Hk. by apply Hk in Hin.
Qed.
(** Where a module that is placed lies. *)
Lemma placed_below cwd m fs : placed cwd m → ready cwd fs →
  ∃ d k, (d = "src" ∨ d = "contrib") ∧ k ≠ [] ∧ comps m.1 ++ [m.2] = cwd ++ d :: k ∧
    node_at fs (cwd ++ [d]) = Some Dir.
Proof.
  intros [_ Hplace] (_ & Hs & Hc). destruct Hplace as [-> |(k & -> & _)].
  - exists "src", [m.2]. rewrite <-app_assoc. auto.
  - exists "contrib", (k ++ [m.2]). rewrite <-app_assoc. split_and!; auto. by destruct k.
Qed.
(** A change below a module, or on the way to it, is confined. *)
Lemma grown_confined cwd fs fs' d k :
  wf fs → wf fs' → d = "src" ∨ d = "contrib" → k ≠ [] → node_at fs (cwd ++ [d]) = Some Dir →
  (∀ q, cwd ++ d :: k `prefix_of` q ∨ fs' !! q = fs !! q ∨
        (q `prefix_of` cwd ++ d :: k ∧ fs !! q = None)) →
  confined cwd fs fs'.
Proof.
  intros Hwf Hwf' Hd Hk Hdir Hq q. destruct (Hq q) as [[r ->]|[?|[Hqp Hn]]]; [right|by left|].
  { exists d, (k ++ r). rewrite <-app_assoc. split_and!; [done|by destruct k|done]. }
  destruct (decide (q = [])) as [->|Hq0]; [left; by rewrite (proj1 Hwf), (proj1 Hwf')|right].
  destruct (prefix_weak_total q (cwd ++ [d]) (cwd ++ d :: k)) as [Hqd|[r Hr]];
    [done|by exists k; rewrite <-app_assoc| |].
  - rewrite <-node_at_ne in Hn by done. exfalso.
    destruct (decide (q = cwd ++ [d])) as [->|Hne]; [congruence|].
    rewrite (wf_ancestors fs (cwd ++ [d])) in Hn; done.
  - exists d, r. rewrite Hr, <-app_assoc. split_and!; [done| |done]. intros ->.
    rewrite app_nil_r in Hr. subst. rewrite <-node_at_ne in Hn by done. congruence.
Qed.

Lemma make_module_confined sys cwd m fs out :
  direct cwd → placed cwd m → ready cwd fs →
  ∃ fs' out' r, make_module sys cwd m.1 m.2 (fs, out) = ((fs', out'), r) ∧
    ready cwd fs' ∧ confined cwd fs fs' ∧ (∀ e, r = Err e → e = OSError).
Proof.
  intros Hcwd Hm Hready. pose proof Hready as (Hwf & Hs & Hc).
  destruct (make_module_cases sys cwd m.1 m.2 fs out Hwf (placed_direct _ _ Hcwd Hm)
    (allowed_plain _ (proj1 Hm))) as (fs' & out' & r & Hrun & Hwf' & Hr).
  destruct (placed_below cwd m fs Hm Hready) as (d & k & Hd & Hk & Hp & Hdir). rewrite Hp in *.
  assert (confined cwd fs fs') as Hcf.
  { eapply grown_confined; [done..|]. intros q.
    destruct r as [[]|e]; [destruct Hr as (_ & [_ Hg] & _)| |destruct Hr as (_ & _ & [_ Hg])];
      [destruct (Hg q) as [[? _]|]|destruct (Hr q)|destruct (Hg q) as [[? _]|]]; naive_solver. }
  exists fs', (out ++ out'), r. split; [done|]. split; [by eapply confined_ready|].
  split; [done|]. intros e ->. apply Hr.
Qed.
Lemma make_all_confined sys cwd ms fs out :
  direct cwd → Forall (placed cwd) ms → ready cwd fs →
  ∃ fs' out' r, all_run ((λ m, make_module sys cwd m.1 m.2) <$> ms) (fs, out) = ((fs', out'), r) ∧
    ready cwd fs' ∧ confined cwd fs fs' ∧ (∀ e, r = Err e → e = OSError).
Proof.
  intros Hcwd Hms. revert fs out. induction Hms as [|m ms Hm _ IH]; intros fs out Hr; csimpl.
  { exists fs, out, (Ok true). split; [done|]. split; [done|]. split; [apply confined_refl|done]. }
  destruct (make_module_confined sys cwd m fs out Hcwd Hm Hr) as (fs1 & out1 & r & Hrun & Hr1 & Hc1 & He).
  destruct r as [[]|e].
  - rewrite (bind_run _ _ _ _ _ Hrun). destruct (IH fs1 out1 Hr1) as (fs2 & out2 & r & -> & Hr2 & Hc2 & He2).
    exists fs2, out2, r. split; [done|]. split; [done|]. split; [by eapply confined_trans|done].
  - rewrite (bind_run _ _ _ _ _ Hrun). by exists fs1, out1, (Ok false).
  - rewrite (bind_run_err _ _ _ _ _ Hrun). by exists fs1, out1, (Err e).
Qed.

(** How the command line ends. *)
Definition ends (cwd : path) (fs : fsys) (run : (fsys * list event) * res Z) : Prop :=
  ∃ fs' out' r, run = ((fs', out'), r) ∧ wf fs' ∧ confined cwd fs fs' ∧
    (r = Ok 0 ∨ ∃ e, r = Err e ∧ ∀ c, e = SystemExit c → c = 2).

(** A reporting step goes on in the same tree, or ends the run. *)
Lemma ends_reports {A} (cwd : path) (m : io A) (k : A → io Z) P fs out :
  wf fs → reports m P → (∀ a out1, P a → ends cwd fs (k a (fs, out1))) →
  ends cwd fs ((m ≫= k) (fs, out)).
Proof.
  intros Hwf Hm Hk. unfold mbind, eff_bind. destruct (Hm (fs, out)) as (H1 & H2 & H3).
  destruct (m (fs, out)) as [[fs1 out1] [a|e]]; simpl in *; subst; [by apply Hk, H2|].
  exists fs, out1, (Err e). split_and!; [done..|apply confined_refl|]. right. exists e.
  split; [done|]. intros c ->. by apply H3.
Qed.
Lemma check_directory_ends (cwd : path) (p : ppath) (k : () → io Z) fs out :
  wf fs → direct (comps p) → (node_at fs (comps p) = Some Dir → ends cwd fs (k () (fs, out))) →
  ends cwd fs ((check_directory p ≫= k) (fs, out)).
Proof.
  intros Hwf Hdir Hk. unfold check_directory, mbind at 1, eff_bind at 1. rewrite bind_gets. cbn [fst].
  unfold is_dir. rewrite wf_stat by done. case_bool_decide as Hd; [by apply Hk|].
  eexists fs, _, (Err (SystemExit 2)). split_and!; [done..|apply confined_refl|]. right.
  eexists. split; [done|]. by intros c [= <-].
Qed.
Lemma main_ends sys cwd project modnames fs out :
  direct cwd → wf fs → ends cwd fs (main sys cwd project modnames (fs, out)).
Proof.
  intros Hcwd Hwf. unfold main. apply check_directory_ends; [done|by apply direct_snoc|]. intros Hs.
  apply check_directory_ends; [done|by apply direct_snoc|]. intros Hc.
  eapply ends_reports; [done|apply parse_project_reports|]. intros pp out1 Hpp.
  eapply ends_reports; [done|by apply collect_reports|]. intros ms out2 Hms.
  destruct (make_all_confined sys cwd ms fs out2 Hcwd Hms)
    as (fs' & out' & r & Hrun & Hr & Hcf & He); [done|]. destruct r as [b|e].
  - rewrite (bind_run _ _ _ _ _ Hrun). unfold mbind, eff_bind.
    destruct b; eexists fs', _, (Ok 0); (split; [reflexivity|]); split_and!; try done;
      [apply Hr|by left|apply Hr|by left].
  - rewrite (bind_run_err _ _ _ _ _ Hrun). eexists fs', _, (Err e). split; [done|].
    split; [apply Hr|]. split; [done|]. right. exists e. by rewrite (He e eq_refl).
Qed.

(** C7: whatever the arguments, and whatever the system refuses, the script
    ends with status 0, 1 or 2 and has changed nothing but what is strictly
    below the src and the contrib directory of the directory it was started in.
    The calls follow [..] as the kernel does, so this rests on the checks of the
    names; [cwd] is what [os.getcwd] returns, a path without [..]. *)
Theorem script_confined sys cwd project modnames fs out :
  direct cwd → wf fs →
  ∃ fs' out' status, script sys cwd project modnames (fs, out) = ((fs', out'), Ok status) ∧
    status ∈ [0; 1; 2] ∧ wf fs' ∧ confined cwd fs fs'.
Proof.
  intros Hcwd Hwf. destruct (main_ends sys cwd project modnames fs out Hcwd Hwf)
    as (fs' & out' & r & Hrun & Hwf' & Hcf & Hr).
  unfold script, catch. rewrite Hrun. destruct Hr as [-> |(e & -> & He)].
  { exists fs', out', 0. split_and!; [done|by left|done..]. }
  destruct e as [| | | | | | | | | | | |code|]; cycle 12.
  { specialize (He code eq_refl) as ->. exists fs', out', 2.
    split_and!; [done|by right; right; left|done..]. }
  all: eexists fs', _, 1; split_and!; [reflexivity|by right; left|done..].
Qed.

(** ** Where a name puts its module *)
Lemma parse_two a b : component a → component b →
  parse_path (a +:+ "/" +:+ b) = {| root := ""; comps := [a; b] |}.
Proof.
  intros (Hna & Hda & Ha) (Hnb & Hdb & Hb). unfold parse_path, split. rewrite !chars_app.
  change (chars "/" ++ chars b) with ("/"%char :: chars b).
  rewrite split_chars_sep, split_chars_none by done.
  assert (startswith (a +:+ "/" +:+ b) "/" = false) as ->.
  { destruct a as [|c a]; [done|]. unfold startswith. simpl.
    destruct (Ascii.ascii_dec c "/") as [->|]; [|by case_match]. destruct Ha. by left. }
  f_equal. csimpl. rewrite !of_chars_chars, !filter_cons. unfold is_component.
  rewrite !bool_decide_eq_true_2 by done. by rewrite !decide_True by done.
Qed.

Lemma strip_sep_id s a l k b : chars s = a :: l → chars s = k ++ [b] →
  a ≠ "/"%char → b ≠ "/"%char → strip_sep s = s.
Proof.
  intros Ha Hb Hna Hnb. unfold strip_sep, strip_chars. rewrite Ha. simpl.
  rewrite bool_decide_eq_false_2 by done. rewrite <-Ha, Hb, reverse_snoc. simpl.
  rewrite bool_decide_eq_false_2 by done. rewrite reverse_cons, reverse_involutive, <-Hb.
  apply of_chars_chars.
Qed.
Lemma component_ends s : component s → ∃ a l k b, chars s = a :: l ∧ chars s = k ++ [b] ∧
  a ≠ "/"%char ∧ b ≠ "/"%char.
Proof.
  intros (Hn & _ & Hs). destruct (chars s) as [|a l] eqn:E.
  { destruct Hn. apply chars_inj. by rewrite E. }
  destruct (snoc_cases (a :: l)) as [?|(k & b & Hk)]; [done|]. exists a, l, k, b.
  split_and!; [done|done|set_solver|]. rewrite Hk in Hs. set_solver.
Qed.
Lemma strip_component s : component s → strip_sep s = s.
Proof. intros (a & l & k & b & ? & ? & ? & ?)%component_ends. by eapply strip_sep_id. Qed.
Lemma strip_two a b : component a → component b → strip_sep (a +:+ "/" +:+ b) = a +:+ "/" +:+ b.
Proof.
  intros (x & l & _ & _ & Hx & _ & Hxn & _)%component_ends
         (_ & _ & k & y & _ & Hy & _ & Hyn)%component_ends.
  eapply (strip_sep_id _ x _ (chars a ++ "/"%char :: k) y); rewrite ?chars_app; [by rewrite Hx| |done..].
  rewrite Hy. by rewrite <-app_assoc.
Qed.

(** A name of one or two components, after it was split. *)
Lemma target_parsed cwd project pp name c cs s :
  strip_sep name = name → name ≠ "" → parse_path name = {| root := ""; comps := c :: cs |} →
  (length cs ≤ 1)%nat →
  target cwd project pp name s =
    ('(modpath, name_path) ← place cwd project {| root := ""; comps := c :: cs |} name;
     let modpath := match pp with Some p => join_path (contrib_path cwd) p | None => modpath end in
     modname ← lift_res (py_index (parts name_path) 0);
     if allowedRE modname then mret (Some (modpath, modname))
     else _ ← emit (EvOut ("Skipping " +:+ modname
            +:+ ": module name may only contain the characters [a-zA-Z0-9_-]"));
          mret None) s.
Proof.
  intros Hs Hn Hp Hlen. unfold target. rewrite Hs, decide_False, Hp by done.
  destruct cs as [|c2 [|c3 cs]]; [done..|simpl in Hlen; lia].
Qed.
(** The place of a name whose first component is no directory of modules. *)
Lemma place_plain cwd project c cs name s : c ≠ "src" → c ≠ "contrib" →
  place cwd project {| root := ""; comps := c :: cs |} name s =
    (s, Ok (contrib_path cwd, {| root := ""; comps := c :: cs |})).
Proof.
  intros H1 H2. unfold place. change (py_index _ 0) with (Ok c : res string).
  rewrite bind_lift_ok. by rewrite !decide_False.
Qed.

Lemma place_contrib cwd project cs name s :
  place cwd project {| root := ""; comps := "contrib" :: cs |} name s =
    (s, Ok (contrib_path cwd, {| root := ""; comps := cs |})).
Proof. reflexivity. Qed.
Lemma place_src cwd project cs name s :
  place cwd project {| root := ""; comps := "src" :: cs |} name s =
    if decide (project ≠ "")
    then parser_error (name +:+ ": Cannot specify src/ in a module name when --project option is used") s
    else (s, Ok (src_path cwd, {| root := ""; comps := cs |})).
Proof.
  unfold place. change (py_index _ 0) with (Ok "src" : res string). rewrite bind_lift_ok.
  rewrite decide_True by done. by case_decide.
Qed.

(** A name [m] or [contrib/m] means module [m] in the contrib directory, or
    below it in the project directory; [src/m] means module [m] in the src
    directory, which needs that no project is given.  Of any other name with
    two components, [m/x], the second one is ignored. *)
Theorem target_spec cwd project project_path m x s :
  allowedRE m = true → m ≠ "src" → m ≠ "contrib" → component x →
  let here := match project_path with
              | Some p => join_path (contrib_path cwd) p
              | None => contrib_path cwd
              end in
  target cwd project project_path m s = (s, Ok (Some (here, m))) ∧
  target cwd project project_path ("contrib/" +:+ m) s = (s, Ok (Some (here, m))) ∧
  target cwd project project_path (m +:+ "/" +:+ x) s = (s, Ok (Some (here, m))) ∧
  (project = "" → target cwd project None ("src/" +:+ m) s = (s, Ok (Some (src_path cwd, m)))) ∧
  (project ≠ "" → ∃ msg, target cwd project project_path ("src/" +:+ m) s =
     ((s.1, s.2 ++ [EvUsage msg]), Err (SystemExit 2))).
Proof.
  intros Hm Hsrc Hcontrib Hx here. pose proof (plain_component _ (allowed_plain _ Hm)) as Hc.
  assert (component "src") as Hs1 by literal. assert (component "contrib") as Hs2 by literal.
  assert (∀ a b, component a → a +:+ "/" +:+ b ≠ "") as Hne
    by (intros [|c a] b (Hn&_&_); [done|by intros [=]]).
  change ("contrib/" +:+ m) with ("contrib" +:+ "/" +:+ m).
  change ("src/" +:+ m) with ("src" +:+ "/" +:+ m).
  split_and!; [..|intros ->|intros Hproject; eexists].
  - rewrite (target_parsed _ _ _ _ m []) by (auto using strip_component, parse_component || apply Hc).
    rewrite (bind_run _ _ _ _ _ (place_plain _ _ m [] m s Hsrc Hcontrib)).
    change (py_index _ 0) with (Ok m : res string). rewrite bind_lift_ok, Hm. by destruct project_path.
  - rewrite (target_parsed _ _ _ _ "contrib" [m]) by auto using strip_two, parse_two.
    rewrite (bind_run _ _ _ _ _ (place_contrib _ _ [m] _ s)).
    change (py_index _ 0) with (Ok m : res string). rewrite bind_lift_ok, Hm. by destruct project_path.
  - rewrite (target_parsed _ _ _ _ m [x]) by auto using strip_two, parse_two.
    rewrite (bind_run _ _ _ _ _ (place_plain _ _ m [x] _ s Hsrc Hcontrib)).
    change (py_index _ 0) with (Ok m : res string). rewrite bind_lift_ok, Hm. by destruct project_path.
  - rewrite (target_parsed _ _ _ _ "src" [m]) by auto using strip_two, parse_two.
    unfold mbind at 1, eff_bind at 1. rewrite place_src, decide_False by (by intros []).
    change (py_index _ 0) with (Ok m : res string). by rewrite bind_lift_ok, Hm.
  - rewrite (target_parsed _ _ _ _ "src" [m]) by auto using strip_two, parse_two.
    unfold mbind at 1, eff_bind at 1. rewrite place_src, decide_True by done. reflexivity.
Qed.

(** ** A directory of modules as the name of a module *)
(** [m] does not end the script with a status of its own. *)
Definition keeps_status {A} (m : io A) : Prop := ∀ s c, (m s).2 ≠ Err (SystemExit c).
Lemma keeps_status_bind {A B : Type} (m : io A) (k : A → io B) :
  keeps_status m → (∀ a, keeps_status (k a)) → keeps_status (m ≫= k).
Proof.
  intros Hm Hk s c. unfold mbind, eff_bind. specialize (Hm s c).
  destruct (m s) as [s' [a|e]]; [apply Hk|]. simpl in *. congruence.
Qed.
Lemma keeps_status_lift {A} (r : res A) : (∀ c, r ≠ Err (SystemExit c)) → keeps_status (lift_res r).
Proof. by intros Hr s c. Qed.
Lemma target_no_exit cwd name : keeps_status (target cwd "" None name).
Proof.
  unfold target, place. case_decide; [done|]. case_match; [by apply keeps_status_bind|].
  apply keeps_status_bind; [|intros [? ?]].
  - apply keeps_status_bind; [by apply keeps_status_lift, py_index_no_exit|intros first].
    case_decide; [|case_decide; [|done]].
    + rewrite decide_False by naive_solver.
      apply keeps_status_bind; [by apply keeps_status_lift, relative_to_no_exit|done].
    + apply keeps_status_bind; [by apply keeps_status_lift, relative_to_no_exit|done].
  - apply keeps_status_bind; [by apply keeps_status_lift, py_index_no_exit|intros modname].
    case_match; [done|by apply keeps_status_bind].
Qed.
Lemma target_bare cwd name s : strip_sep name ∈ ["src"; "contrib"; "."] →
  target cwd "" None name s = (s, Err IndexError).
Proof. intros Hn. unfold target. by set_unfold in Hn; destruct_or! Hn; rewrite Hn. Qed.
Lemma collect_bare cwd name modnames s :
  name ∈ modnames → strip_sep name ∈ ["src"; "contrib"; "."] →
  ∃ out' e, collect cwd "" None modnames s = ((s.1, out'), Err e) ∧ ∀ c, e ≠ SystemExit c.
Proof.
  intros Hin Hn. revert s. induction modnames as [|n modnames IH]; intros s; [by apply not_elem_of_nil in Hin|].
  destruct (target_reports cwd "" None n ltac:(done) s) as (Hfs & _ & _).
  pose proof (target_no_exit cwd n s) as Hexit. simpl. unfold mbind at 1, eff_bind at 1.
  destruct (target cwd "" None n s) as [[fs1 out1] [o|e]] eqn:E; simpl in Hfs; subst.
  - apply elem_of_cons in Hin as [<-|Hin]; [by rewrite target_bare in E|].
    destruct (IH Hin (s.1, out1)) as (out' & e & Hc & He). simpl in Hc.
    rewrite (bind_run_err _ _ _ _ _ Hc). eauto.
  - exists out1, e. split; [done|]. intros c ->. by apply (Hexit c).
Qed.

(** A directory of modules given as the name of a module ([src], [contrib/]
    or [.]) is not reported like other bad names: the script stops with status
    1 before it creates any of the modules. *)
Theorem bare_name_stops sys cwd name modnames fs out :
  direct cwd → ready cwd fs → name ∈ modnames → strip_sep name ∈ ["src"; "contrib"; "."] →
  ∃ out', script sys cwd "" modnames (fs, out) = ((fs, out'), Ok 1).
Proof.
  intros Hcwd (Hwf & Hs & Hc) Hin Hn. unfold script, catch, main.
  assert (∀ d, node_at fs (cwd ++ [d]) = Some Dir → component d → d ≠ ".." →
    check_directory (joinpath (base_path cwd) d) (fs, out) = ((fs, out), Ok ())) as Hcheck.
  { intros d Hd Hcd Hup. rewrite joinpath_component by done. unfold check_directory. rewrite bind_gets.
    unfold is_dir. cbn [fst comps base_path]. by rewrite wf_stat, bool_decide_eq_true_2 by (done || by apply direct_snoc). }
  rewrite (bind_run _ _ _ _ _ (Hcheck "src" Hs ltac:(literal) ltac:(done))).
  rewrite (bind_run _ _ _ _ _ (Hcheck "contrib" Hc ltac:(literal) ltac:(done))).
  destruct (collect_bare cwd name modnames (fs, out) Hin Hn) as (out' & e & He & Hexit).
  change (parse_project "") with (mret None : io (option ppath)). rewrite bind_mret.
  rewrite (bind_run_err _ _ _ _ _ He). destruct e; try by eexists. by destruct (Hexit code).
Qed.

(** ** The files of a module name each other *)
Definition ends_with (l suffix : list ascii) : bool := bool_decide (suffix `suffix_of` l).
Definition starts_with (l prefix : list ascii) : bool := bool_decide (prefix `prefix_of` l).
(** The template has the field MODULE between two texts. *)
Fixpoint mentions (segs : list segment) (before after : string) : bool :=
  match segs with
  | Lit l1 :: ((Field name None :: Lit l2 :: _) as rest) =>
      (ends_with l1 (chars before) && bool_decide (name = "MODULE") && starts_with l2 (chars after))
      || mentions rest before after
  | _ :: rest => mentions rest before after
  | [] => false
  end.

Lemma render_app kwargs s1 s2 text :
  render kwargs (s1 ++ s2) = Ok text →
  ∃ t1 t2, render kwargs s1 = Ok t1 ∧ render kwargs s2 = Ok t2 ∧ text = t1 +:+ t2.
Proof.
  revert text. induction s1 as [|[l|name conv|msg] s1 IH]; intros text; simpl.
  - intros Ht. by exists "", text.
  - intros (r & Hr & [= <-])%bind_ok. apply IH in Hr as (t1 & t2 & -> & -> & ->). simpl.
    eexists _, _. split; [done|split; [done|]]. by rewrite append_assoc.
  - destruct (dict_get kwargs name) as [v|]; [|done].
    intros (v' & -> & (r & Hr & [= <-])%bind_ok)%bind_ok.
    apply IH in Hr as (t1 & t2 & -> & -> & ->). simpl.
    eexists _, _. split; [done|split; [done|]]. by rewrite append_assoc.
  - done.
Qed.
Lemma mentions_split segs before after : mentions segs before after = true →
  ∃ s1 l1 l2 s2, segs = s1 ++ Lit (l1 ++ chars before) :: Field "MODULE" None :: Lit (chars after ++ l2) :: s2.
Proof.
  induction segs as [|seg segs IH]; [done|]. intros Hm.
  assert (mentions segs before after = true ∨
    ∃ l1 l2 s2, seg :: segs = Lit (l1 ++ chars before) :: Field "MODULE" None :: Lit (chars after ++ l2) :: s2)
    as [(s1 & l1 & l2 & s2 & ->)%IH|(l1 & l2 & s2 & E)].
  { destruct seg as [l|name conv|msg]; [|by left..].
    destruct segs as [|[|name [c|]|] [|[l2| |] segs]]; try (by left).
    simpl in Hm. apply orb_true_iff in Hm as [Hm|Hm]; [right|by left].
    apply andb_true_iff in Hm as [[[k ->]%bool_decide_eq_true ->%bool_decide_eq_true]%andb_true_iff
      [k' ->]%bool_decide_eq_true]. by eexists _, _, _. }
  - by exists (seg :: s1), l1, l2, s2.
  - by exists [], l1, l2, s2.
Qed.
Lemma mentions_text template kwargs before after text m :
  mentions (format_template template) before after = true →
  py_format template kwargs = Ok text → dict_get kwargs "MODULE" = Some m →
  ∃ pre post, text = pre +:+ before +:+ m +:+ after +:+ post.
Proof.
  intros (s1 & l1 & l2 & s2 & E)%mentions_split Ht Hm. unfold py_format in Ht. rewrite E in Ht.
  apply render_app in Ht as (t1 & t2 & _ & Ht & ->). simpl in Ht. rewrite Hm in Ht.
  apply bind_ok in Ht as (r & Hr & [= <-]). simpl in Hr.
  apply bind_ok in Hr as (r' & Hr' & [= <-]). apply bind_ok in Hr' as (r'' & Hr'' & [= <-]).
  exists (t1 +:+ of_chars l1), (of_chars l2 +:+ r'').
  by rewrite !of_chars_app, !of_chars_chars, !append_assoc.
Qed.

(** The files of a module that name another one: in the file [r] the name [m]
    stands between two texts, which means the file [target]. *)
Definition include (s : string) : string := "#include " +:+ String dquote s.
Definition closing (s : string) : string := s +:+ String dquote "".
Definition references (m : string) : list (path * (string * string) * path) :=
  [(["wscript"], ("'model/", ".cc'"), ["model"; m +:+ ".cc"]);
   (["wscript"], ("'helper/", "-helper.cc'"), ["helper"; (m +:+ "-helper") +:+ ".cc"]);
   (["wscript"], ("'test/", "-test-suite.cc'"), ["test"; (m +:+ "-test-suite") +:+ ".cc"]);
   (["wscript"], ("'model/", ".h'"), ["model"; m +:+ ".h"]);
   (["wscript"], ("'helper/", "-helper.h'"), ["helper"; (m +:+ "-helper") +:+ ".h"]);
   (["model"; m +:+ ".cc"], (include "", closing ".h"), ["model"; m +:+ ".h"]);
   (["helper"; (m +:+ "-helper") +:+ ".cc"], (include "", closing "-helper.h"),
      ["helper"; (m +:+ "-helper") +:+ ".h"]);
   (["helper"; (m +:+ "-helper") +:+ ".h"], (include "ns3/", closing ".h"), ["model"; m +:+ ".h"]);
   (["test"; (m +:+ "-test-suite") +:+ ".cc"], (include "ns3/", closing ".h"), ["model"; m +:+ ".h"]);
   (["examples"; "wscript"], ("'", "-example.cc'"), ["examples"; (m +:+ "-example") +:+ ".cc"]);
   (["examples"; (m +:+ "-example") +:+ ".cc"], (include "ns3/", closing "-helper.h"),
      ["helper"; (m +:+ "-helper") +:+ ".h"])].

(** The files of a generated module fit together: the build scripts and
    the include lines name files that are generated with it. *)
Theorem references_exist m rel :
  Forall (λ e, let '(r, (before, after), target) := e in
    target ∈ (layout m rel).*1 ∧
    ∃ template kwargs text pre post, (r, Some (template, kwargs)) ∈ layout m rel ∧
      py_format template kwargs = Ok text ∧ text = pre +:+ before +:+ m +:+ after +:+ post)
    (references m).
Proof.
  assert (∀ r template kwargs before after target i j,
    layout m rel !! i = Some (r, Some (template, kwargs)) → (layout m rel).*1 !! j = Some target →
    dict_get kwargs "MODULE" = Some m → mentions (format_template template) before after = true →
    target ∈ (layout m rel).*1 ∧
    ∃ template kwargs text pre post, (r, Some (template, kwargs)) ∈ layout m rel ∧
      py_format template kwargs = Ok text ∧ text = pre +:+ before +:+ m +:+ after +:+ post) as Hone.
  { intros r template kwargs before after target i j Hi Hj Hm Hmen.
    apply list_elem_of_lookup_2 in Hi, Hj. split; [done|].
    pose proof (layout_fillable m rel) as Hf. rewrite Forall_forall in Hf.
    pose proof (content_ok _ _ (Hf _ Hi)) as Ht.
    destruct (mentions_text _ _ _ _ _ _ Hmen Ht Hm) as (pre & post & E). naive_solver. }
  repeat (apply Forall_cons; split); [..|by apply Forall_nil].
  - by eapply (Hone _ _ _ _ _ _ 0%nat 2%nat).
  - by eapply (Hone _ _ _ _ _ _ 0%nat 7%nat).
  - by eapply (Hone _ _ _ _ _ _ 0%nat 5%nat).
  - by eapply (Hone _ _ _ _ _ _ 0%nat 3%nat).
  - by eapply (Hone _ _ _ _ _ _ 0%nat 8%nat).
  - by eapply (Hone _ _ _ _ _ _ 2%nat 3%nat).
  - by eapply (Hone _ _ _ _ _ _ 7%nat 8%nat).
  - by eapply (Hone _ _ _ _ _ _ 8%nat 3%nat).
  - by eapply (Hone _ _ _ _ _ _ 5%nat 3%nat).
  - by eapply (Hone _ _ _ _ _ _ 10%nat 11%nat).
  - by eapply (Hone _ _ _ _ _ _ 11%nat 8%nat).
Qed.

(** ** Concrete instances *)
Lemma demo_wf : wf demo_fs.
Proof.
  split; [done|].
  assert (map_Forall (λ p _, node_at demo_fs (reverse (tail (reverse p))) = Some Dir) demo_fs) as H
    by (apply (bool_decide_eq_true _); vm_compute; reflexivity).
  intros d x [n Hn]. specialize (H _ _ Hn). cbv beta in H. rewrite reverse_snoc in H. simpl in H.
  by rewrite reverse_involutive in H.
Qed.
Lemma demo_ready : ready ["ns3"] demo_fs.
Proof. split; [apply demo_wf|done]. Qed.
Lemma demo_no_file p : direct p → no_file demo_fs p.
Proof.
  intros Hp. split; [done|].
  assert (map_Forall (λ _ n, n = Dir) demo_fs) as H
    by (apply (bool_decide_eq_true _); vm_compute; reflexivity).
  intros q c _ Hq. by specialize (H _ _ Hq).
Qed.
Lemma lax_allows : allows_all lax.
Proof. done. Qed.
(** A disk that is full when the helper is written. *)
Definition full : os :=
  {| mkdir_allowed := λ _, true; open_allowed := λ _, true;
     write_stop := λ p _, if decide ("helper" ∈ p) then Some "" else None;
     rmtree_stop := λ _, None |}.

Lemma demo_udp_direct : direct ["ns3"; "contrib"; "udp"].
Proof. by apply (bool_decide_unpack _). Qed.
Lemma make_module_creates_witness :
  ∃ fs', make_module lax ["ns3"] (contrib_path ["ns3"]) "udp" (demo_fs, []) =
      ((fs', [EvOut "Creating module /ns3/contrib/udp"]), Ok true) ∧
    fs' !! ["ns3"; "contrib"; "udp"; "doc"] = Some Dir.
Proof.
  destruct (make_module_creates lax ["ns3"] (contrib_path ["ns3"]) "udp" demo_fs []
    lax_allows demo_wf (demo_no_file _ demo_udp_direct) eq_refl eq_refl) as (fs' & rel & Hrun & _ & _ & Hdirs & _).
  exists fs'. split; [exact Hrun|]. apply (Hdirs ["doc"]). by repeat (left || right).
Defined.

(** The same disk, when the removal stops with a file that may not be removed. *)
Definition stuck : os :=
  {| mkdir_allowed := λ _, true; open_allowed := λ _, true; write_stop := write_stop full;
     rmtree_stop := λ _, Some [["model"; "udp.h"]] |}.
Lemma demo_direct : direct ["ns3"; "contrib"].
Proof. by apply (bool_decide_unpack _). Qed.
Lemma make_module_rollback_witness :
  let p := ["ns3"; "contrib"; "udp"] in
  let r := make_module full ["ns3"] (contrib_path ["ns3"]) "udp" (demo_fs, []) in
  let r' := make_module stuck ["ns3"] (contrib_path ["ns3"]) "udp" (demo_fs, []) in
  (r.2 = Ok false ∧ only_ancestors p demo_fs r.1.1) ∧
  (r'.2 = Err OSError ∧ grown p demo_fs r'.1.1 ∧ r'.1.1 !! (p ++ ["model"]) = Some Dir).
Proof.
  intros p r r'. split.
  - destruct (make_module_rollback full ["ns3"] (contrib_path ["ns3"]) "udp" demo_fs [] r.1 r.2
      demo_wf demo_direct eq_refl (surjective_pairing r)) as [H|[H _]];
      [vm_compute; discriminate|exact H|by destruct H].
  - destruct (make_module_rollback stuck ["ns3"] (contrib_path ["ns3"]) "udp" demo_fs [] r'.1 r'.2
      demo_wf demo_direct eq_refl (surjective_pairing r')) as [[H _]|(_ & H & Hg)];
      [vm_compute; discriminate|vm_compute in H; discriminate|].
    split; [exact H|]. split; [exact Hg|]. vm_compute. reflexivity.
Defined.

(** A project that leaves the contrib directory is refused; with [..] the calls
    of the file system would have left it. *)
Example escape_refused :
  let r := script lax ["ns3"] "../../x" ["udp"] (demo_fs, []) in
  let p := {| root := "/"; comps := ["ns3"; "contrib"; ".."; ".."; "x"] |} in
  (r.1.1 !! ["x"; "udp"; "wscript"], r.2,
   (make_module lax ["ns3"] p "udp" (demo_fs, [])).1.1 !! ["x"; "udp"]) = (None, Ok 2, Some Dir).
Proof. vm_compute. reflexivity. Qed.

Lemma script_confined_witness :
  ∃ fs' out' status, script stuck ["ns3"] "p/q" ["contrib/udp"] (demo_fs, []) = ((fs', out'), Ok status) ∧
    status ∈ [0; 1; 2] ∧ wf fs' ∧ confined ["ns3"] demo_fs fs'.
Proof.
  refine (script_confined stuck ["ns3"] "p/q" ["contrib/udp"] demo_fs [] _ demo_wf).
  by apply (bool_decide_unpack _).
Defined.

Lemma target_spec_witness :
  target ["ns3"] "" None "udp/helper" (demo_fs, []) =
    ((demo_fs, []), Ok (Some (contrib_path ["ns3"], "udp"))).
Proof.
  apply (target_spec ["ns3"] "" None "udp" "helper" (demo_fs, []));
    [reflexivity|discriminate|discriminate|literal].
Defined.

Lemma bare_name_stops_witness :
  ∃ out', script lax ["ns3"] "" ["udp"; "src/"] (demo_fs, []) = ((demo_fs, out'), Ok 1).
Proof.
  apply (bare_name_stops lax ["ns3"] "src/" ["udp"; "src/"] demo_fs []);
    [by apply (bool_decide_unpack _)|apply demo_ready|by right; left|by left].
Defined.
