(* ===== verification/Versioning.v ===== *)
(** * src/waf-tools/versioning.py: the version of the tree, from git
    The two regular expressions, the fields that the version task keeps, the
    task ([run] of [git_ns3_version_info]) and the configuration.  What a
    command prints is a parameter; a ConfigSet of waf is a map.  Texts are
    ASCII. *)
From Stdlib Require Import Ascii.
From S2P Require Import Prelude PyStr PyRe.
#[local] Open Scope Z_scope.

(** ** The regular expressions *)
Definition not_newline (a : ascii) : bool := bool_decide (a ≠ newline).
(** [(?:.(\d+))?]: any character, then digits. *)
Definition match_patch (l : list ascii) : option (list ascii) * list ascii :=
  match l with
  | a :: l' =>
      if not_newline a then
        match digits1 l' with
        | Some (ds, rest) => (Some ds, rest)
        | None => (None, l)
        end
      else (None, l)
  | [] => (None, l)
  end.
(** [(?:-(RC.+))?] *)
Definition match_rc (l : list ascii) : option (list ascii) :=
  match drop_prefix (chars "-RC") l with
  | Some l' =>
      match span not_newline l' with
      | ([], _) => None
      | (x, _) => Some (chars "RC" ++ x)
      end
  | None => None
  end.
(** [ns-(\d+)\.(\d+)(?:.(\d+))?(?:-(RC.+))?.*]: the two numbers, the patch and
    the release candidate. *)
Record version := {
  vmajor : list ascii;
  vminor : list ascii;
  vpatch : option (list ascii);
  vrc : option (list ascii);
}.
Definition match_version (l : list ascii) : option version :=
  l ← drop_prefix (chars "ns-") l;
  '(major, l) ← digits1 l;
  l ← drop_prefix ["."%char] l;
  '(minor, l) ← digits1 l;
  let '(patch, l) := match_patch l in
  Some {| vmajor := major; vminor := minor; vpatch := patch; vrc := match_rc l |}.

Definition is_hex (a : ascii) : bool :=
  let n := nat_of_ascii a in
  is_digit a || ((97 <=? n)%nat && (n <=? 102)%nat) || ((65 <=? n)%nat && (n <=? 70)%nat).
(** [-(\d+)-(g[a-fA-F0-9]+)(?:-(dirty))?] *)
Definition match_distance (l : list ascii) : option (list ascii * list ascii * bool) :=
  l ← drop_prefix ["-"%char] l;
  '(distance, l) ← digits1 l;
  l ← drop_prefix (chars "-g") l;
  match span is_hex l with
  | ([], _) => None
  | (hash, l) =>
      Some (distance, "g"%char :: hash,
            match drop_prefix (chars "-dirty") l with Some _ => true | None => false end)
  end.
(** [(.+)] takes as much as it can: the last place where the rest matches. *)
Fixpoint match_describe_from (tag l : list ascii) : option (list ascii * (list ascii * list ascii * bool)) :=
  let here := match tag with
              | [] => None
              | _ => (λ m, (reverse tag, m)) <$> match_distance l
              end in
  match l with
  | [] => here
  | a :: l' =>
      if not_newline a then
        match match_describe_from (a :: tag) l' with
        | Some m => Some m
        | None => here
        end
      else here
  end.
Definition match_describe (l : list ascii) := match_describe_from [] l.

Example match_version_ex :
  (match_version (chars "ns-3.30.1-RC2"), match_version (chars "ns-3.30-1"), match_version (chars "v3.30")) =
  (Some {| vmajor := chars "3"; vminor := chars "30"; vpatch := Some (chars "1"); vrc := Some (chars "RC2") |},
   Some {| vmajor := chars "3"; vminor := chars "30"; vpatch := Some (chars "1"); vrc := None |}, None).
Proof. vm_compute. reflexivity. Qed.
Example match_describe_ex :
  match_describe (chars "ns-3.30-1-g12-2-gab0f-dirty") = Some (chars "ns-3.30-1-g12", (chars "2", chars "gab0f", true)).
Proof. vm_compute. reflexivity. Qed.

(** ** The version task *)
Inductive value := Str (s : string) | Bool (b : bool).
Abbreviation fields := (gmap string value).
Definition dquoted (s : string) : string := String "034" (s +:+ String "034" "").
(** [x or default], of a group that may not have matched *)
Definition or_default (o : option (list ascii)) (d : string) : string :=
  match o with Some ((_ :: _) as l) => of_chars l | _ => d end.
Example or_default_ok :
  (λ o, or_default o "0") <$> [Some (chars "12"); Some []; None] = ["12"; "0"; "0"].
Proof. reflexivity. Qed.

(** [_parse_version_tag]: the fields, and whether the tag is a version. *)
Definition parse_version_tag (tag : string) (f : fields) : fields * bool :=
  let safe_tag := strip tag in
  match match_version (chars safe_tag) with
  | None => (f, false)
  | Some v =>
      (<["VERSION_RELEASE_CANDIDATE" := Str (dquoted (or_default (vrc v) ""))]>
       (<["VERSION_PATCH" := Str (or_default (vpatch v) "0")]>
        (<["VERSION_MINOR" := Str (of_chars (vminor v))]>
         (<["VERSION_MAJOR" := Str (of_chars (vmajor v))]>
          (<["VERSION_TAG" := Str (dquoted safe_tag)]> f)))), true)
  end.

(** What the task works on: its fields, the environment, and what it does. *)
Inductive event :=
| EvCmd (argv : list string)
| EvStore (f : fields) (raised : option exn)   (** [ConfigSet.store], and what it raised *)
| EvLog (e : exn)
| EvMsg (msg : string) (result : option string).   (** [None]: False *)
Record state := {
  task_fields : fields;
  env : fields;
  trace : list event;
}.
Abbreviation io := (eff state exn).
Definition emit (e : event) : io () :=
  modify (λ s, {| task_fields := task_fields s; env := env s; trace := trace s ++ [e] |}).
Definition set_fields (f : fields) : io () :=
  modify (λ s, {| task_fields := f; env := env s; trace := trace s |}).
(** [ctx.env.update(f)]: the values of [f] replace those of the environment. *)
Definition env_update (f : fields) : io () :=
  modify (λ s, {| task_fields := task_fields s; env := f ∪ env s; trace := trace s |}).

Section task.
(** What a command prints on stdout, or on stderr when it fails; and the
    exception that waf raises when it stores a ConfigSet, if it raises one.  What
    the file holds after a store that raised is waf's: it may be empty, or hold a
    part of the fields. *)
Context (cmd : list string → result string string) (store_error : fields → option exn).

Definition describe_cmd : list string := ["git"; "describe"; "--tags"; "--dirty"; "--long"].
Definition ns3_tag_cmd : list string :=
  ["git"; "describe"; "--tags"; "--abbrev=0"; "--match"; "ns-3*"; "HEAD"].
(** [ctx.cmd_and_log(cmd)]; a failure raises what the command says. *)
Definition cmd_and_log (argv : list string) : io string :=
  _ ← emit (EvCmd argv);
  lift_res (match cmd argv with Ok out => Ok out | Err err => Err (PyException (strip err)) end).

Definition find_closest_tag : io () :=
  out ← cmd_and_log describe_cmd;
  match match_describe (chars out) with
  | None =>
      throw (ValueError ("Closest tag found in git log"
        +:+ "does not match the expected format (tag='" +:+ out +:+ "')"))
  | Some (tag, (distance, hash, dirty)) =>
      f ← gets task_fields;
      let tag := of_chars tag in
      let f := <["VERSION_DIRTY_FLAG" := Str (if dirty : bool then "1" else "0")]>
               (<["VERSION_COMMIT_HASH" := Str (dquoted (of_chars hash))]>
                (<["VERSION_TAG_DISTANCE" := Str (of_chars distance)]>
                 (<["CLOSEST_TAG" := Str (dquoted tag)]> f))) in
      set_fields (parse_version_tag tag f).1
  end.
Definition find_closest_ns3_tag : io () :=
  out ← cmd_and_log ns3_tag_cmd;
  let tag := strip out in
  f ← gets task_fields;
  let '(f, result) := parse_version_tag tag f in
  _ ← set_fields f;
  if result : bool then mret ()
  else throw (ValueError ("Closest ns3 tag found in git log"
         +:+ " does not match the expected format (tag='" +:+ tag +:+ "')")).

(** [self.fields.store(cache_path.abspath())] *)
Definition store (f : fields) : io () :=
  _ ← emit (EvStore f (store_error f));
  match store_error f with None => mret () | Some e => throw e end.

(** [run]: the exit status of the task. *)
Definition extract : io Z :=
  _ ← find_closest_tag;
  f ← gets task_fields;
  _ ← (if decide (f !! "VERSION_TAG" = None) then find_closest_ns3_tag else mret ());
  f ← gets task_fields;
  _ ← store f;
  _ ← env_update f;
  mret 0.
Definition run : io Z := catch extract (λ e, _ ← emit (EvLog e); mret 1).

(** ** The configuration *)
Definition toplevel_cmd : list string := ["git"; "rev-parse"; "--show-toplevel"].
Definition tags_cmd : list string :=
  ["git"; "describe"; "--tags"; "--abbrev=0"; "--match"; "ns-3.[0-9]*"].
(** A command whose failure counts as no answer. *)
Definition ask (msg : string) (found : bool) (argv : list string) : io bool :=
  answer ← (if found then
              _ ← emit (EvCmd argv);
              mret (match cmd argv with Ok out => Some (strip out) | Err _ => None end)
            else mret None);
  _ ← emit (EvMsg msg answer);
  mret (bool_decide (answer ≠ None ∧ answer ≠ Some "")).
(** [has_git]: [find_program('git')] finds git. *)
Definition check_git_repo (has_git : bool) : io bool :=
  ask "Checking for local git repository" has_git toplevel_cmd.
Definition check_git_repo_has_ns3_tags : io bool :=
  ask "Checking local git repository for ns3 tags" true tags_cmd.

(** [caches]: what the files version.cache below the directory hold, in the
    order of the search. *)
Definition configure (enable_build_version has_git : bool) (caches : list fields) : io () :=
  if negb enable_build_version then mret ()
  else
    has_git_repo ← check_git_repo has_git;
    has_ns3_tags ← (if has_git_repo : bool then check_git_repo_has_ns3_tags else mret false);
    _ ← env_update {[ "HAVE_GIT_REPO" := Bool has_git_repo ]};
    _ ← env_update {[ "HAVE_NS3_REPO" := Bool has_ns3_tags ]};
    if has_ns3_tags : bool then mret ()
    else
      match caches with
      | version_cache :: _ => env_update version_cache
      | [] => throw (PyException ("Unable to find ns3 git repository or version.cache file "
                +:+ "containing version information"))
      end.
End task.

(** ** What git prints is read back *)
(** No suffix matches the end of a description. *)
Fixpoint nomatch (l : list ascii) : Prop :=
  match_distance l = None ∧ match l with [] => True | _ :: l => nomatch l end.

Lemma match_distance_dash a l : a ≠ "-"%char → match_distance (a :: l) = None.
Proof. intros Ha. unfold match_distance. simpl. by rewrite decide_False. Qed.
Lemma match_distance_dash_nodigit a l : is_digit a = false → match_distance ("-"%char :: a :: l) = None.
Proof. intros Ha. unfold match_distance, digits1. simpl. by rewrite Ha. Qed.
Lemma nomatch_app u l : "-"%char ∉ u → nomatch l → nomatch (u ++ l).
Proof.
  induction u as [|a u IH]; intros Hu Hl; simpl; [done|]. apply not_elem_of_cons in Hu as [? ?].
  split; [by apply match_distance_dash|auto].
Qed.
Lemma nomatch_dash a l : is_digit a = false → nomatch (a :: l) → nomatch ("-"%char :: a :: l).
Proof. intros. split; [by apply match_distance_dash_nodigit|done]. Qed.
Lemma nomatch_none tag l : nomatch l → match_describe_from tag l = None.
Proof.
  revert tag. induction l as [|a l IH]; intros tag [Hm Hl]; cbn [match_describe_from].
  - by destruct tag.
  - rewrite Hm, IH by done. by destruct tag, (not_newline a).
Qed.

Lemma match_describe_tag tag l m : tag ≠ [] → newline ∉ tag →
  match_distance l = Some m → nomatch (tail l) → match_describe (tag ++ l) = Some (tag, m).
Proof.
  intros Htag Hnl Hm Htl. unfold match_describe.
  assert (∀ rtag, rtag ≠ [] → match_describe_from rtag l = Some (reverse rtag, m)) as Hhere.
  { intros rtag Hr. destruct l as [|a l]; [done|]. cbn [match_describe_from tail] in *.
    rewrite Hm. destruct rtag; [done|]. simpl.
    rewrite nomatch_none by done. by destruct (not_newline a). }
  assert (∀ rtag, rtag ≠ [] ∨ tag ≠ [] →
    match_describe_from rtag (tag ++ l) = Some (reverse rtag ++ tag, m)) as Hgo.
  { clear Htag. induction tag as [|a tag IH]; intros rtag Hr; simpl.
    - rewrite app_nil_r. apply Hhere. naive_solver.
    - apply not_elem_of_cons in Hnl as [Ha Hnl]. unfold not_newline at 1.
      rewrite bool_decide_eq_true_2 by done. rewrite IH by (done || by left).
      by rewrite reverse_cons, <-app_assoc. }
  rewrite Hgo by by right. done.
Qed.

(** What [git describe --long --dirty] prints. *)
Definition describe_output (tag distance hash : list ascii) (dirty : bool) : list ascii :=
  tag ++ "-"%char :: distance ++ "-"%char :: "g"%char :: hash ++
  (if dirty then chars "-dirty" else []) ++ [newline].

(** The description that git prints of a commit (the closest tag, the
    number of commits since, the hash, and whether there are changes) is taken
    apart into these parts, whatever the tag, even if it looks like the
    description of another commit. *)
Theorem describe_roundtrip tag distance hash dirty :
  tag ≠ [] → newline ∉ tag → distance ≠ [] → all_digits distance →
  hash ≠ [] → Forall (λ a, is_hex a = true) hash →
  match_describe (describe_output tag distance hash dirty) =
    Some (tag, (distance, "g"%char :: hash, dirty)).
Proof.
  intros Htag Hnl Hd Hdig Hh Hhex. unfold describe_output.
  set (tail := (if dirty then chars "-dirty" else []) ++ [newline]).
  assert (∀ a l, tail = a :: l → is_hex a = false) as Htail by (by destruct dirty; intros a l [= <- <-]).
  assert (∀ p (l : list ascii), Forall (λ a, p a = true) l → p "-"%char = false → "-"%char ∉ l) as Hdash.
  { intros p l Hl Hp Hin. rewrite Forall_forall in Hl. apply Hl in Hin. congruence. }
  apply match_describe_tag; [done..| |].
  - unfold match_distance. cbn [drop_prefix]. rewrite decide_True by done. cbn [mbind option_bind].
    rewrite digits1_app by (done || by intros a l [= <- <-]). simpl.
    rewrite span_app by (done || apply Htail). destruct hash; [done|]. by destruct dirty.
  - cbn [tail]. apply nomatch_app; [by eapply Hdash|]. apply nomatch_dash; [done|].
    change ("g"%char :: hash ++ tail) with (("g"%char :: hash) ++ tail). apply nomatch_app.
    + apply not_elem_of_cons. split; [done|by eapply Hdash].
    + destruct dirty; [|done]. by repeat split.
Qed.

(** ** Version tags *)
(** The tag of a version: the two numbers, a patch and a release candidate. *)
Definition version_tag (v : version) : list ascii :=
  chars "ns-" ++ vmajor v ++ "."%char :: vminor v ++
  match vpatch v with Some p => "."%char :: p | None => [] end ++
  match vrc v with Some rc => "-"%char :: rc | None => [] end.
Definition number (l : list ascii) : Prop := l ≠ [] ∧ all_digits l.
Definition version_ok (v : version) : Prop :=
  number (vmajor v) ∧ number (vminor v) ∧ (∀ p, vpatch v = Some p → number p) ∧
  (∀ rc, vrc v = Some rc → ∃ x, rc = chars "RC" ++ x ∧ x ≠ [] ∧ newline ∉ x).

Lemma match_rc_tag o :
  (∀ rc, o = Some rc → ∃ x, rc = chars "RC" ++ x ∧ x ≠ [] ∧ newline ∉ x) →
  match_rc match o with Some rc => "-"%char :: rc | None => [] end = o.
Proof.
  intros Ho. destruct o as [rc|]; [|done]. destruct (Ho rc eq_refl) as (x & -> & Hx & Hnl).
  unfold match_rc. change ("-"%char :: chars "RC" ++ x) with (chars "-RC" ++ x).
  rewrite drop_prefix_app, <-(app_nil_r x), span_app; [|apply Forall_forall|done].
  - destruct x; [done|]. by rewrite app_nil_r.
  - intros a Ha. apply bool_decide_eq_true_2. by intros ->.
Qed.
Lemma match_patch_tag p rc :
  (∀ p', p = Some p' → number p') →
  (∀ rc', rc = Some rc' → ∃ x, rc' = chars "RC" ++ x ∧ x ≠ [] ∧ newline ∉ x) →
  let r := match rc with Some rc => "-"%char :: rc | None => [] end in
  match_patch (match p with Some p => "."%char :: p | None => [] end ++ r) = (p, r).
Proof.
  intros Hp Hrc r.
  assert (∀ a l, r = a :: l → a = "-"%char ∧ digits1 l = None) as Hr.
  { unfold r. destruct rc as [rc|]; [|done]. intros a l [= <- <-]. split; [done|].
    by destruct (Hrc rc eq_refl) as (x & -> & _). }
  destruct p as [p|].
  - destruct (Hp p eq_refl) as [Hn Hd]. simpl. rewrite digits1_app; [done..|].
    by intros a l [-> _]%Hr.
  - simpl. destruct r as [|a l]; [done|]. destruct (Hr a l eq_refl) as [-> Hl]. simpl. by rewrite Hl.
Qed.

(** The parts of a version tag [ns-3.30.1-RC2] are read back as they were
    written, with or without a patch and a release candidate. *)
Theorem version_roundtrip v : version_ok v → match_version (version_tag v) = Some v.
Proof.
  intros ([Hmaj Hmajd] & [Hmin Hmind] & Hp & Hrc). unfold match_version, version_tag.
  rewrite drop_prefix_app. cbn [mbind option_bind].
  rewrite digits1_app by (done || by intros a l [= <- <-]). simpl.
  rewrite digits1_app.
  - simpl. rewrite match_patch_tag by done. rewrite match_rc_tag by done. by destruct v.
  - done.
  - done.
  - destruct (vpatch v) as [p|]; [by intros a l [= <- <-]|].
    destruct (vrc v) as [rc|]; [by intros a l [= <- <-]|done].
Qed.

(** ** The task *)
(** The fields of a version are set together. *)
Definition version_keys : list string :=
  ["VERSION_TAG"; "VERSION_MAJOR"; "VERSION_MINOR"; "VERSION_PATCH"; "VERSION_RELEASE_CANDIDATE"].
Definition complete (f : fields) : Prop := ∀ k, k ∈ version_keys → is_Some (f !! k).
Definition together (f : fields) : Prop := is_Some (f !! "VERSION_TAG") → complete f.

Lemma parse_version_complete tag f : (parse_version_tag tag f).2 = true →
  complete (parse_version_tag tag f).1.
Proof.
  unfold parse_version_tag. destruct (match_version _) as [v|]; [|done]. intros _ k Hk. simpl.
  rewrite !lookup_insert_is_Some. unfold version_keys in Hk. rewrite !elem_of_cons in Hk.
  destruct (decide (k = "VERSION_RELEASE_CANDIDATE")); [by left|right; split; [done|]].
  destruct (decide (k = "VERSION_PATCH")); [by left|right; split; [done|]].
  destruct (decide (k = "VERSION_MINOR")); [by left|right; split; [done|]].
  destruct (decide (k = "VERSION_MAJOR")); [by left|right; split; [done|]].
  left. set_solver.
Qed.
Lemma parse_version_together tag f : together f → together (parse_version_tag tag f).1.
Proof.
  intros Hf. destruct (parse_version_tag tag f).2 eqn:E.
  - intros _. by apply parse_version_complete.
  - revert E. unfold parse_version_tag. by destruct (match_version _).
Qed.

Lemma complete_insert k v f : complete f → complete (<[k := v]> f).
Proof. intros Hf k' Hk. apply lookup_insert_is_Some'. right. by apply Hf. Qed.
Lemma together_insert k v f : k ≠ "VERSION_TAG" → together f → together (<[k := v]> f).
Proof.
  intros Hk Hf Hs. apply complete_insert, Hf. by rewrite lookup_insert_ne in Hs.
Qed.

Section task_spec.
Context (cmd : list string → result string string) (store_error : fields → option exn).

(** What a step of the task keeps: the environment, and that nothing is stored. *)
Definition stores (tr : list event) : list (fields * option exn) :=
  omap (λ e, match e with EvStore f r => Some (f, r) | _ => None end) tr.
Definition quiet (s s' : state) : Prop := env s' = env s ∧ stores (trace s') = stores (trace s).
Lemma stores_app l k : stores (l ++ k) = stores l ++ stores k.
Proof. apply omap_app. Qed.

Lemma cmd_and_log_run argv s : ∃ s', quiet s s' ∧ task_fields s' = task_fields s ∧
  cmd_and_log cmd argv s =
    (s', match cmd argv with Ok out => Ok out | Err err => Err (PyException (strip err)) end).
Proof.
  eexists. split; [|split; [|reflexivity]]; [|done]. split; [done|].
  simpl. rewrite stores_app. apply app_nil_r.
Qed.
Lemma find_closest_tag_spec s : together (task_fields s) →
  ∃ s' r, find_closest_tag cmd s = (s', r) ∧ quiet s s' ∧ together (task_fields s').
Proof.
  intros Ht. destruct (cmd_and_log_run describe_cmd s) as (s1 & Hq & Hf & Hrun).
  unfold find_closest_tag, mbind, eff_bind. rewrite Hrun.
  destruct (cmd describe_cmd) as [out|err]; [|by eexists _, _; rewrite Hf].
  destruct (match_describe (chars out)) as [[tag [[distance hash] dirty]]|];
    [|by eexists _, _; rewrite Hf].
  eexists _, _. split; [reflexivity|]. split; [done|]. simpl. apply parse_version_together.
  rewrite Hf. by repeat (apply together_insert; [done|]).
Qed.
Lemma find_closest_ns3_tag_spec s : together (task_fields s) →
  ∃ s' r, find_closest_ns3_tag cmd s = (s', r) ∧ quiet s s' ∧ together (task_fields s') ∧
    (r = Ok () → complete (task_fields s')).
Proof.
  intros Ht. destruct (cmd_and_log_run ns3_tag_cmd s) as (s1 & Hq & Hf & Hrun).
  unfold find_closest_ns3_tag, mbind, eff_bind. rewrite Hrun.
  destruct (cmd ns3_tag_cmd) as [out|err]; [|by eexists _, _; rewrite Hf]. simpl.
  pose proof (parse_version_together (strip out) (task_fields s1)) as Htog.
  pose proof (parse_version_complete (strip out) (task_fields s1)) as Hcomp.
  destruct (parse_version_tag (strip out) (task_fields s1)) as [f b]. simpl in *. rewrite Hf in Htog.
  destruct b; eexists _, _; (split; [reflexivity|]); split_and!; try done; auto.
Qed.

(** How the task may end. *)
(** All fields of a version are set, stored, and replace those of the environment. *)
Definition stored (s s' : state) : Prop :=
  complete (task_fields s') ∧ env s' = task_fields s' ∪ env s ∧
  stores (trace s') = stores (trace s) ++ [(task_fields s', None)].
(** No store was tried. *)
Definition untouched (s s' : state) : Prop :=
  env s' = env s ∧ stores (trace s') = stores (trace s) ∧ ∃ e, last (trace s') = Some (EvLog e).
(** The fields of a version were found, and storing them raised. *)
Definition half_stored (s s' : state) : Prop :=
  complete (task_fields s') ∧ env s' = env s ∧
  ∃ e, store_error (task_fields s') = Some e ∧ last (trace s') = Some (EvLog e) ∧
    stores (trace s') = stores (trace s) ++ [(task_fields s', Some e)].

Lemma run_log s s1 e : extract cmd store_error s = (s1, Err e) → quiet s s1 →
  ∃ s', run cmd store_error s = (s', Ok 1) ∧ untouched s s'.
Proof.
  intros Hx [He Hs]. unfold run, catch. rewrite Hx. eexists. split; [reflexivity|]. unfold untouched. simpl.
  split_and!; [done|by rewrite stores_app, app_nil_r|]. exists e. apply last_snoc.
Qed.
(** What the task does once it has the fields of a version. *)
Definition save : io Z :=
  f ← gets task_fields; _ ← store store_error f; _ ← env_update f; mret 0.
Lemma run_save s s1 : extract cmd store_error s = save s1 → quiet s s1 → complete (task_fields s1) →
  ∃ s', run cmd store_error s = (s', Ok 0) ∧ stored s s' ∨
    run cmd store_error s = (s', Ok 1) ∧ half_stored s s'.
Proof.
  intros Hx [He Hs] Hc. unfold run, catch. rewrite Hx. unfold save, store.
  destruct (store_error (task_fields s1)) as [e|] eqn:E; 
    unfold mbind, eff_bind, emit, modify, gets, throw, env_update; simpl; rewrite E; eexists; [right|left].
  - split; [reflexivity|]. unfold half_stored. simpl.
    split_and!; [done|done|]. exists e. split_and!; [done|apply last_snoc|].
    by rewrite !stores_app, app_nil_r, Hs.
  - split; [reflexivity|]. unfold stored. simpl. by rewrite stores_app, He, Hs.
Qed.

End task_spec.

(** ** Concrete instances *)
Definition demo_cmd (argv : list string) : result string string :=
  if decide (argv = describe_cmd) then Ok ("my-tag-2-gab12" +:+ String newline "")
  else if decide (argv = ns3_tag_cmd) then Ok ("ns-3.30" +:+ String newline "") else Err "fatal".
Definition demo_state : state := {| task_fields := ∅; env := ∅; trace := [] |}.
Example run_ex :
  let r := run demo_cmd (λ _, None) demo_state in
  (r.2, env r.1 !! "VERSION_MINOR", env r.1 !! "VERSION_PATCH", env r.1 !! "CLOSEST_TAG") =
  (Ok 0, Some (Str "30"), Some (Str "0"), Some (Str (dquoted "my-tag"))).
Proof. vm_compute. reflexivity. Qed.

Lemma describe_roundtrip_witness :
  match_describe (describe_output (chars "ns-3.30-1-gab") (chars "12") (chars "0fe") true) =
    Some (chars "ns-3.30-1-gab", (chars "12", chars "g0fe", true)).
Proof.
  apply (describe_roundtrip (chars "ns-3.30-1-gab") (chars "12") (chars "0fe") true);
    try discriminate; [by apply (bool_decide_unpack _)|repeat constructor..].
Defined.
Lemma version_roundtrip_witness :
  match_version (chars "ns-3.30.1-RC2") =
    Some {| vmajor := chars "3"; vminor := chars "30"; vpatch := Some (chars "1"); vrc := Some (chars "RC2") |}.
Proof.
  apply (version_roundtrip {| vmajor := chars "3"; vminor := chars "30"; vpatch := Some (chars "1");
                              vrc := Some (chars "RC2") |}).
  split_and!; simpl; [split; [discriminate|repeat constructor]..| |].
  - intros p [= <-]. split; [discriminate|repeat constructor].
  - intros rc [= <-]. exists (chars "2"). split_and!; [done|done|by apply (bool_decide_unpack _)].
Defined.
(** A disk that is full: the store raises after git's answers were read. *)
Definition full_disk (f : fields) : option exn := Some OSError.
Example run_full_disk :
  let r := run demo_cmd full_disk demo_state in (r.2, env r.1, length (stores (trace r.1))) = (Ok 1, ∅, 1%nat).
Proof. vm_compute. reflexivity. Qed.
