(* ===== verification/Cflags.v ===== *)
(** * src/waf-tools/cflags.py: the compilation flags of a build profile
    The flags of the three families of compilers at each level, the profiles,
    and [configure], which puts the flags that the compiler supports into the
    environment.  Whether a compiler supports a flag is a parameter; the
    environment of waf is a map from variables to lists. *)
From S2P Require Import Prelude PyFormat.
#[local] Open Scope Z_scope.

(** ** The families of compilers *)
(** The interface of [CompilerTraits]; [None] where a method returns nothing. *)
Record CompilerTraits := {
  get_compiler_flags : list string;
  get_warnings_flags : Z → list string;
  get_optimization_flags : Z → option (list string);
  get_debug_flags : Z → option (list string * list string);
}.

(** [get_warnings_flags]: the loop over [range(level)], with its break. *)
Fixpoint warnings_loop (flags : list (list string)) (levels : list nat) (warnings : list string)
    : list string :=
  match levels with
  | [] => warnings
  | l :: levels =>
      match flags !! l with
      | Some ws => warnings_loop flags levels (warnings ++ ws)
      | None => warnings
      end
  end.
Definition warnings_of (flags : list (list string)) (level : Z) : list string :=
  warnings_loop flags (seq 0 (Z.to_nat level)) [].

Definition gcc_warnings : list (list string) :=
  [["-Wall"; "-Wno-error=deprecated-declarations"; "-fstrict-aliasing"; "-Wstrict-aliasing"]].
Definition gcc_optimization (level : Z) : option (list string) :=
  if level =? 0 then Some ["-O0"]
  else if level =? 1 then Some ["-O"]
  else if level =? 2 then Some ["-O2"]
  else if level =? 3 then Some ["-O3"]
  else None.
Definition gcc_debug (level : Z) : option (list string * list string) :=
  if level =? 0 then Some (["-g0"], ["NDEBUG"])
  else if level =? 1 then Some (["-g"], [])
  else if 2 <=? level then Some (["-ggdb"; "-g3"], ["_DEBUG"])
  else None.
Definition GccTraits : CompilerTraits :=
  {| get_compiler_flags := ["-std=c++17"];
     get_warnings_flags := warnings_of gcc_warnings;
     get_optimization_flags := gcc_optimization;
     get_debug_flags := gcc_debug |}.

Definition icc_warnings : list (list string) := [[]; []; ["-Wall"]].
Definition icc_optimization (level : Z) : option (list string) :=
  if level =? 0 then Some ["-O0"]
  else if level =? 1 then Some ["-O"]
  else if level =? 2 then Some ["-O2"]
  else if level =? 3 then Some ["-O3"]
  else None.
Definition icc_debug (level : Z) : option (list string * list string) :=
  if level =? 0 then Some (["-g0"], ["NDEBUG"])
  else if level =? 1 then Some (["-g"], [])
  else if 2 <=? level then Some (["-ggdb"; "-g3"], ["_DEBUG"])
  else None.
Definition IccTraits : CompilerTraits :=
  {| get_compiler_flags := ["/Qstd=c++17"];
     get_warnings_flags := warnings_of icc_warnings;
     get_optimization_flags := icc_optimization;
     get_debug_flags := icc_debug |}.

Definition msvc_warnings : list (list string) := [["/W2"]; ["/WX"]; ["/Wall"]].
Definition msvc_optimization (level : Z) : option (list string) :=
  if level =? 0 then Some ["/Od"]
  else if level =? 1 then Some []
  else if level =? 2 then Some ["/O2"]
  else if level =? 3 then Some ["/Ox"]
  else None.
Definition msvc_debug (level : Z) : option (list string * list string) :=
  if level =? 0 then Some ([], ["NDEBUG"])
  else if level =? 1 then Some (["/ZI"; "/RTC1"], [])
  else if 2 <=? level then Some (["/ZI"; "/RTC1"], ["_DEBUG"])
  else None.
Definition MsvcTraits : CompilerTraits :=
  {| get_compiler_flags := [];
     get_warnings_flags := warnings_of msvc_warnings;
     get_optimization_flags := msvc_optimization;
     get_debug_flags := msvc_debug |}.

Definition compiler_mapping : gmap string CompilerTraits :=
  list_to_map [("gcc", GccTraits); ("g++", GccTraits); ("msvc", MsvcTraits); ("icc", IccTraits);
               ("icpc", IccTraits); ("clang", GccTraits); ("clang++", GccTraits)].
(** The optimization level, the warnings level and the debug level. *)
Definition profiles : gmap string (Z * Z * Z) :=
  list_to_map [("default", (2, 1, 1)); ("debug", (0, 2, 3)); ("release", (3, 1, 0))].

(** ** configure *)
Abbreviation cenv := (gmap string (list string)).
Inductive event := EvWarn (msg : string) | EvSupported (msg : string) (flags : list string).
Abbreviation io := (eff (cenv * list event) exn).
Definition emit (e : event) : io () := modify (λ s, (s.1, s.2 ++ [e])).
(** [conf.env[k]]: an unknown variable is empty. *)
Definition env_get (k : string) : io (list string) := gets (λ s, default [] (s.1 !! k)).
Definition append_value (k : string) (l : list string) : io () :=
  modify (λ s, (<[k := default [] (s.1 !! k) ++ l]> s.1, s.2)).

Section configure.
(** [check_cxx] with [-Werror] and the flag succeeds. *)
Context (supported : string → bool).

Definition supported_flags (l : list string) : list string := filter (λ f, supported f = true) l.
(** Iterating over nothing raises. *)
Definition get_supported_cxxflags (cxxflags : option (list string)) (msg : string) : io (list string) :=
  l ← lift_res (match cxxflags with Some l => Ok l | None => Err TypeError end);
  let found := supported_flags l in
  _ ← emit (EvSupported msg found);
  mret found.
(** [l.remove(x)], a ValueError being ignored *)
Fixpoint remove_first (x : string) (l : list string) : list string :=
  match l with
  | [] => []
  | y :: l => if decide (y = x) then l else y :: remove_first x l
  end.
Definition show_option (o : option string) : string :=
  match o with Some s => repr_string s | None => "None" end.

Definition find_compiler (cc cxx : option string) : option CompilerTraits :=
  match cc ≫= (compiler_mapping !!.) with
  | Some compiler => Some compiler
  | None => cxx ≫= (compiler_mapping !!.)
  end.
Definition when_unset (tool : option string) (k : string) (m : io ()) : io () :=
  match tool with
  | None => mret ()
  | Some _ => old ← env_get k; if decide (old = []) then m else mret ()
  end.
(** [cc], [cxx]: COMPILER_CC and COMPILER_CXX, if they are set and not empty. *)
Definition configure (cc cxx : option string) (build_profile : string) (disable_werror : bool) : io () :=
  if decide (cc = None ∧ cxx = None) then
    throw (PyException ("neither COMPILER_CC nor COMPILER_CXX are defined; "
      +:+ "maybe the compiler_cc or compiler_cxx tool has not been configured yet?"))
  else
    match find_compiler cc cxx with
    | None => emit (EvWarn ("No compiler flags support for compiler " +:+ show_option cc +:+ " or "
                            +:+ show_option cxx))
    | Some compiler =>
        '(opt_level, warn_level, dbg_level) ←
          lift_res (match profiles !! build_profile with Some p => Ok p | None => Err KeyError end);
        compilerFlags ← get_supported_cxxflags (Some (get_compiler_flags compiler)) "compiler ";
        optimizations ← get_supported_cxxflags (get_optimization_flags compiler opt_level) "optimizations ";
        '(debug, debug_defs) ←
          lift_res (match get_debug_flags compiler dbg_level with Some d => Ok d | None => Err TypeError end);
        debug ← get_supported_cxxflags (Some debug) "debug ";
        warnings ← get_supported_cxxflags (Some (get_warnings_flags compiler warn_level)) "warnings ";
        let warnings := if disable_werror then remove_first "-Werror" warnings else warnings in
        _ ← when_unset cc "CCFLAGS" (
              _ ← append_value "CCFLAGS" optimizations;
              _ ← append_value "CCFLAGS" debug;
              _ ← append_value "CCFLAGS" warnings;
              append_value "CCDEFINES" debug_defs);
        when_unset cxx "CXXFLAGS" (
              _ ← append_value "CXXFLAGS" compilerFlags;
              _ ← append_value "CXXFLAGS" optimizations;
              _ ← append_value "CXXFLAGS" debug;
              _ ← append_value "CXXFLAGS" warnings;
              append_value "CXXDEFINES" debug_defs)
    end.
End configure.

Example configure_ex :
  let r := configure (λ f, negb (bool_decide (f = "-Wstrict-aliasing"))) (Some "gcc") (Some "g++") "debug" true
             (∅, []) in
  (r.2, r.1.1 !! "CXXFLAGS", r.1.1 !! "CXXDEFINES") =
  (Ok (), Some ["-std=c++17"; "-O0"; "-ggdb"; "-g3"; "-Wall"; "-Wno-error=deprecated-declarations";
                "-fstrict-aliasing"], Some ["_DEBUG"]).
Proof. vm_compute. reflexivity. Qed.

(** ** Warnings *)
Lemma warnings_loop_spec flags n start acc :
  warnings_loop flags (seq start n) acc = acc ++ mjoin (take n (drop start flags)).
Proof.
  revert start acc. induction n as [|n IH]; intros start acc; simpl; [by rewrite app_nil_r|].
  destruct (flags !! start) as [ws|] eqn:E.
  - rewrite IH, (drop_S _ _ _ E). simpl. by rewrite app_assoc.
  - apply lookup_ge_None in E. rewrite drop_ge by done. by rewrite app_nil_r.
Qed.
Lemma warnings_of_spec flags level : warnings_of flags level = mjoin (take (Z.to_nat level) flags).
Proof. unfold warnings_of. by rewrite warnings_loop_spec, drop_0. Qed.

(** The warnings of a level are those of the level below and its own ones:
    a higher level never drops a flag, and past the table nothing is added. *)
Theorem warnings_cumulative flags level1 level2 : level1 ≤ level2 →
  warnings_of flags level1 `prefix_of` warnings_of flags level2 ∧
  warnings_of flags level2 `prefix_of` mjoin flags ∧
  (Z.of_nat (length flags) ≤ level1 → warnings_of flags level1 = mjoin flags).
Proof.
  intros Hl. rewrite !warnings_of_spec.
  assert (∀ n m, (n ≤ m)%nat → mjoin (take n flags) `prefix_of` mjoin (take m flags)) as Hpre.
  { intros n m Hn. replace (take n flags) with (take n (take m flags)) by (rewrite take_take; f_equal; lia).
    rewrite <-(take_drop n (take m flags)) at 2. rewrite join_app. by eexists. }
  split_and!; [apply Hpre; lia| |].
  - rewrite <-(take_drop (Z.to_nat level2) flags) at 2. rewrite join_app. by eexists.
  - intros. by rewrite take_ge by lia.
Qed.

(** ** What a configuration sets *)
Definition known (c : CompilerTraits) : Prop := c = GccTraits ∨ c = IccTraits ∨ c = MsvcTraits.
Lemma find_compiler_known cc cxx c : find_compiler cc cxx = Some c → known c.
Proof.
  assert (∀ x c, compiler_mapping !! x = Some c → known c) as Hm.
  { intros x c' Hx%elem_of_list_to_map_2. unfold known. rewrite !elem_of_cons in Hx.
    destruct_or? Hx; simplify_eq; auto. by apply elem_of_nil in Hx. }
  unfold find_compiler. destruct (cc ≫= _) as [c1|] eqn:E.
  - intros [= <-]. destruct cc as [x|]; [|done]. by apply (Hm x).
  - destruct cxx as [x|]; [apply Hm|done].
Qed.
Definition levels_ok (p : Z * Z * Z) : Prop := p = (2, 1, 1) ∨ p = (0, 2, 3) ∨ p = (3, 1, 0).
Lemma profiles_levels x p : profiles !! x = Some p → levels_ok p.
Proof.
  intros Hx%elem_of_list_to_map_2. unfold levels_ok. rewrite !elem_of_cons in Hx.
  destruct_or? Hx; simplify_eq; auto. by apply elem_of_nil in Hx.
Qed.
(** Every family has flags at the levels of the profiles. *)
Lemma known_total c p : known c → levels_ok p →
  is_Some (get_optimization_flags c p.1.1) ∧ is_Some (get_debug_flags c p.2).
Proof. intros [-> |[-> | ->]] [-> |[-> | ->]]; by repeat eexists. Qed.
(** No family asks for warnings to be errors. *)
Lemma no_werror c level : known c → "-Werror" ∉ get_warnings_flags c level.
Proof.
  assert (∀ flags, "-Werror" ∉ mjoin flags → "-Werror" ∉ warnings_of flags level) as Hw.
  { intros flags Hf Hin. apply Hf. rewrite warnings_of_spec in Hin.
    rewrite <-(take_drop (Z.to_nat level) flags), join_app. apply elem_of_app. by left. }
  intros [-> |[-> | ->]]; simpl; apply Hw; by apply (bool_decide_unpack _).
Qed.
Lemma remove_first_none x l : x ∉ l → remove_first x l = l.
Proof.
  induction l as [|y l IH]; intros Hx; simpl; [done|]. apply not_elem_of_cons in Hx as [? Hx].
  rewrite decide_False by done. by rewrite IH.
Qed.

Definition value (e : cenv) (k : string) : list string := default [] (e !! k).
Lemma value_append e k l k' : value (<[k := value e k ++ l]> e) k' = if decide (k = k') then value e k ++ l else value e k'.
Proof. unfold value. case_decide; subst; by rewrite ?lookup_insert_eq, ?lookup_insert_ne. Qed.

(** The variables of one language get flags and defines. *)
Lemma append_run k l e tr : append_value k l (e, tr) = ((<[k := value e k ++ l]> e, tr), Ok ()).
Proof. done. Qed.
Lemma append_flags_value k (ls : list (list string)) e tr (m : io ()) :
  ∃ e', (foldr (λ l m, append_value k l ≫= λ _, m) m ls) (e, tr) = m (e', tr) ∧
    ∀ k', value e' k' = if decide (k = k') then value e k ++ mjoin ls else value e k'.
Proof.
  revert e. induction ls as [|l ls IH]; intros e; simpl.
  { exists e. split; [done|]. intros k'. rewrite app_nil_r. case_decide; by subst. }
  destruct (IH (<[k := value e k ++ l]> e)) as (e' & Hrun & He').
  exists e'. split; [by rewrite (bind_run _ _ _ _ _ (append_run k l e tr))|].
  intros k'. rewrite He'. destruct (decide (k = k')) as [<-|Hk]; rewrite value_append.
  - by rewrite decide_True, app_assoc.
  - by rewrite decide_False.
Qed.
Lemma when_unset_value tool flags defs ls d e tr : flags ≠ defs →
  ∃ e', when_unset tool flags
      (foldr (λ l m, append_value flags l ≫= λ _, m) (append_value defs d) ls) (e, tr) = ((e', tr), Ok ()) ∧
    ∀ k, value e' k =
      if decide (tool ≠ None ∧ value e flags = [] ∧ k = flags) then mjoin ls
      else if decide (tool ≠ None ∧ value e flags = [] ∧ k = defs) then value e defs ++ d
      else value e k.
Proof.
  intros Hne. destruct tool as [t|]; cycle 1.
  { exists e. split; [done|]. intros k. by rewrite !decide_False by naive_solver. }
  unfold when_unset, env_get. rewrite bind_gets. change (default [] _) with (value e flags).
  case_decide as Hold; cycle 1.
  { exists e. split; [done|]. intros k. by rewrite !decide_False by naive_solver. }
  destruct (append_flags_value flags ls e tr (append_value defs d)) as (e1 & Hrun & He1).
  rewrite Hrun, append_run. eexists. split; [done|]. intros k. rewrite value_append, !He1, Hold.
  destruct (decide (k = flags)) as [->|Hk].
  - rewrite (decide_False (P := defs = flags)), !(decide_True (P := flags = flags)) by done.
    by rewrite decide_True.
  - rewrite (decide_False (P := flags = k)), (decide_False (P := flags = defs)) by done.
    rewrite (decide_False (P := Some t ≠ None ∧ _ ∧ k = flags)) by naive_solver.
    destruct (decide (k = defs)) as [->|Hk']; [by rewrite !decide_True|].
    by rewrite !decide_False by naive_solver.
Qed.

Lemma supported_run supported l msg e tr :
  get_supported_cxxflags supported (Some l) msg (e, tr) =
    ((e, tr ++ [EvSupported msg (supported_flags supported l)]), Ok (supported_flags supported l)).
Proof. done. Qed.

(** For a known compiler and a profile, [configure] succeeds.  A language
    whose compiler is set and whose flags are not set in the environment gets
    the supported flags of its profile, in order (the compiler flags for C++
    only), and the defines; every other variable is kept.  The option that
    disables [-Werror] makes no difference. *)
Theorem configure_flags supported cc cxx profile disable_werror c o w d env tr :
  find_compiler cc cxx = Some c → profiles !! profile = Some (o, w, d) →
  ∃ opt dbg defs env' tr',
    get_optimization_flags c o = Some opt ∧ get_debug_flags c d = Some (dbg, defs) ∧
    configure supported cc cxx profile disable_werror (env, tr) = ((env', tr'), Ok ()) ∧
    let common := supported_flags supported opt ++ supported_flags supported dbg
                  ++ supported_flags supported (get_warnings_flags c w) in
    ∀ k, value env' k =
      if decide (cc ≠ None ∧ value env "CCFLAGS" = [] ∧ k = "CCFLAGS") then common
      else if decide (cc ≠ None ∧ value env "CCFLAGS" = [] ∧ k = "CCDEFINES")
      then value env "CCDEFINES" ++ defs
      else if decide (cxx ≠ None ∧ value env "CXXFLAGS" = [] ∧ k = "CXXFLAGS")
      then supported_flags supported (get_compiler_flags c) ++ common
      else if decide (cxx ≠ None ∧ value env "CXXFLAGS" = [] ∧ k = "CXXDEFINES")
      then value env "CXXDEFINES" ++ defs
      else value env k.
Proof.
  intros Hc Hp. pose proof (find_compiler_known _ _ _ Hc) as Hknown.
  destruct (known_total c (o, w, d) Hknown (profiles_levels _ _ Hp)) as [[opt Hopt] [[dbg defs] Hdbg]].
  simpl in Hopt, Hdbg. set (warn := supported_flags supported (get_warnings_flags c w)).
  assert ((if disable_werror then remove_first "-Werror" warn else warn) = warn) as Hwarn.
  { destruct disable_werror; [|done]. apply remove_first_none. unfold warn, supported_flags.
    rewrite list_elem_of_filter. intros [_ Hin]. by apply (no_werror c w). }
  set (lopt := supported_flags supported opt). set (ldbg := supported_flags supported dbg).
  set (lcomp := supported_flags supported (get_compiler_flags c)).
  set (tr' := (((tr ++ [EvSupported "compiler " lcomp]) ++ [EvSupported "optimizations " lopt])
               ++ [EvSupported "debug " ldbg]) ++ [EvSupported "warnings " warn]).
  destruct (when_unset_value cc "CCFLAGS" "CCDEFINES" [lopt; ldbg; warn] defs env tr' ltac:(done))
    as (e1 & Hrun1 & He1).
  destruct (when_unset_value cxx "CXXFLAGS" "CXXDEFINES" [lcomp; lopt; ldbg; warn] defs e1 tr' ltac:(done))
    as (e2 & Hrun2 & He2).
  exists opt, dbg, defs, e2, tr'. split_and!; [done|done| |].
  - unfold configure. rewrite decide_False by (intros [-> ->]; done). rewrite Hc, Hp, bind_lift_ok.
    rewrite (bind_run _ _ _ _ _ (supported_run _ _ _ _ _)), Hopt.
    rewrite (bind_run _ _ _ _ _ (supported_run _ _ _ _ _)), Hdbg, bind_lift_ok.
    do 2 rewrite (bind_run _ _ _ _ _ (supported_run _ _ _ _ _)).
    fold warn. cbv zeta. rewrite Hwarn. fold lopt ldbg lcomp tr'.
    rewrite (bind_run _ _ _ _ _ Hrun1). exact Hrun2.
  - intros common k. simpl in He1, He2. rewrite !app_nil_r in *. fold common in He1, He2.
    assert (∀ k, k ∉ ["CCFLAGS"; "CCDEFINES"] → value e1 k = value env k) as Hother.
    { intros k' Hk'. rewrite !not_elem_of_cons in Hk'. rewrite He1, !decide_False; naive_solver. }
    rewrite He2, !(Hother "CXXFLAGS"), !(Hother "CXXDEFINES") by by apply (bool_decide_unpack _).
    rewrite He1. repeat case_decide; destruct_and?; simplify_eq; try done; naive_solver.
Qed.

(** ** Concrete instances *)
Lemma warnings_cumulative_witness :
  1 ≤ 3 ∧ warnings_of icc_warnings 1 `prefix_of` warnings_of icc_warnings 3.
Proof. split; [lia|]. apply (warnings_cumulative icc_warnings 1 3). lia. Defined.
Lemma configure_flags_witness :
  ∃ env' tr', configure (λ _, true) None (Some "clang++") "release" false (∅, []) = ((env', tr'), Ok ()) ∧
    value env' "CXXDEFINES" = ["NDEBUG"].
Proof.
  destruct (configure_flags (λ _, true) None (Some "clang++") "release" false GccTraits 3 1 0 ∅ []
    eq_refl eq_refl) as (opt & dbg & defs & env' & tr' & Hopt & Hdbg & Hrun & Henv).
  exists env', tr'. split; [exact Hrun|]. rewrite Henv. injection Hdbg as <- <-. reflexivity.
Defined.
