(* ===== verification/WafCommand.v ===== *)
(** * waf-tools/command.py: command tasks
    A task of waf that runs a command line: the line is parsed to a pipeline
    ([ShellCmd]), the variables in its words are substituted, and the pipeline
    is run.  waf's nodes are records of what they answer; [eval] of an
    expression in a namespace is a parameter. *)
From Stdlib Require Import Ascii.
From S2P Require Import Prelude PyStr PyShlex PyRe PyFormat ShellCmd.
#[local] Open Scope Z_scope.

(** ** Data *)

(** A node of waf: [bldpath()], [srcpath()] and [get_bld().abspath()]. *)
Record wnode : Type := WNode {
  bldpath : string;
  srcpath : string;
  bld_abspath : string;
}.

(** The objects that an expression can give.  [VInputs] and [VOutputs] are the
    lists [self.inputs] and [self.outputs] themselves, as the code tests for
    identity; [VObject] is an object of any other type. *)
Inductive value : Type :=
| VStr (s : string)
| VNode (n : wnode)
| VInputs
| VOutputs
| VList (l : list value)
| VNone
| VObject.
Definition namespace : Type := gmap string value.

(** The attributes of the task and of its generator that [run] reads. *)
Record task : Type := Task {
  command_line : list string + string;
  variables : option namespace;
  merged_env : namespace;
  inputs : list wnode;
  outputs : list wnode;
}.

(** ** The pattern [arg_rx] *)

(** What is left at a place of the text: a character, two dollars, or
    [${var code}]. *)
Inductive piece : Type :=
| PLit (a : ascii)
| PDollar
| PSubst (var code : list ascii).

Definition in_code (a : ascii) : bool := negb (bool_decide (a = "}"%char ∨ a = newline)).
(** The rest of the second alternative, behind its opening brace.  The group
    [var] takes all it can: were the match to fail after that, it would fail
    with a shorter [var] too, as [code] then takes the characters it gave up. *)
Definition match_subst (l : list ascii) : option (list ascii * list ascii * list ascii) :=
  match span is_key_char l with
  | ([], _) => None
  | (var, l) =>
      match span in_code l with
      | (code, "}"%char :: rest) => Some (var, code, rest)
      | _ => None
      end
  end.
(** The pieces that [arg_rx.sub] goes through. *)
Fixpoint pieces (fuel : nat) (l : list ascii) : list piece :=
  match fuel, l with
  | O, _ | _, [] => []
  | S fuel, a :: l' =>
      match drop_prefix ["$"; "$"]%char l with
      | Some rest => PDollar :: pieces fuel rest
      | None =>
          match drop_prefix ["$"; "{"]%char l ≫= match_subst with
          | Some (var, code, rest) => PSubst var code :: pieces fuel rest
          | None => PLit a :: pieces fuel l'
          end
      end
  end.

Section command.
Context (eval : namespace → string → res value).

(** ** _subst_arg *)

(** The answer of [repl] for a name and the code behind it. *)
Definition subst_value (t : task) (ns : namespace) (var code : string) : res value :=
  result ← eval ns (var +:+ code);
  match result with
  | VNode n =>
      if decide (var = "TGT") then Ok (VStr (bld_abspath n))
      else if decide (var = "SRC") then Ok (VStr (srcpath n))
      else Err (ValueError ("Bad subst variable " +:+ repr_string var))
  | VInputs =>
      match inputs t with
      | [n] => Ok (VStr (srcpath n))
      | _ => Err (ValueError "${SRC} requested but have multiple sources; which one?")
      end
  | VOutputs =>
      match outputs t with
      | [n] => Ok (VStr (bld_abspath n))
      | _ => Err (ValueError "${TGT} requested but have multiple targets; which one?")
      end
  | VList l => match l with [v] => Ok v | _ => Err AssertionError end
  | v => Ok v
  end.
Definition repl (t : task) (ns : namespace) (p : piece) : res value :=
  match p with
  | PLit a => Ok (VStr (String a ""))
  | PDollar => Ok (VStr "$")
  | PSubst var code => subst_value t ns (of_chars var) (of_chars code)
  end.
(** [re.sub] joins what [repl] answered; None counts as the empty string. *)
Definition piece_text (v : value) : res string :=
  match v with
  | VStr s => Ok s
  | VNone => Ok ""
  | _ => Err TypeError
  end.
Fixpoint res_map {A B} (f : A → res B) (l : list A) : res (list B) :=
  match l with
  | [] => Ok []
  | x :: l => y ← f x; ys ← res_map f l; Ok (y :: ys)
  end.
Definition _subst_arg (t : task) (ns : namespace) (arg : string) : res string :=
  values ← res_map (repl t ns) (pieces (String.length arg) (chars arg));
  texts ← res_map piece_text values;
  Ok (cat texts).

(** ** run *)

Definition subst_opt (t : task) (ns : namespace) (o : option string) : res (option string) :=
  match o with
  | None => Ok None
  | Some arg => s ← _subst_arg t ns arg; Ok (Some s)
  end.
(** The constants PIPE and STDOUT are not strings. *)
Definition subst_redirect (t : task) (ns : namespace) (o : option redirect)
    : res (option redirect) :=
  match o with
  | Some (ToFile f) => s ← _subst_arg t ns f; Ok (Some (ToFile s))
  | o => Ok o
  end.
Fixpoint subst_env (t : task) (ns : namespace) (env_vars items : list (string * string))
    : res (list (string * string)) :=
  match items with
  | [] => Ok env_vars
  | (name, value) :: items =>
      s ← _subst_arg t ns value;
      subst_env t ns (dict_set env_vars name s) items
  end.
Definition subst_command (t : task) (ns : namespace) (cmd : command) : res command :=
  stdin ← subst_opt t ns (stdin cmd);
  stdout ← subst_redirect t ns (stdout cmd);
  stderr ← subst_redirect t ns (stderr cmd);
  argv ← res_map (_subst_arg t ns) (argv cmd);
  env_vars ← (match env_vars cmd with
              | None => Ok None
              | Some items => vars ← subst_env t ns [] items; Ok (Some vars)
              end);
  Ok (Command (name cmd) argv stdin stdout stderr env_vars).
Definition subst_node (t : task) (ns : namespace) (cmd : node) : res node :=
  match cmd with
  | NCommand c => c ← subst_command t ns c; Ok (NCommand c)
  | NChdir None => Err TypeError
  | NChdir (Some dir) => dir ← _subst_arg t ns dir; Ok (NChdir (Some dir))
  | op => Ok op
  end.

(** The names a command line can use; later updates win. *)
Definition task_namespace (t : task) : namespace :=
  <["TGT" := VOutputs]> (<["SRC" := VInputs]> (<["env" := VObject]>
    (default ∅ (variables t) ∪ merged_env t))).
Definition task_pipeline (t : task) : res (list node) :=
  pipeline ← parse (command_line t);
  res_map (subst_node t (task_namespace t)) pipeline.

(** [verbosity] is [Options.options.verbose]. *)
Definition task_run (exit_code : nat → Z) (popen_error : popen_args → option exn)
    (open_error : string → option exn) (environ : gmap string string) (verbosity : Z) (t : task)
    : world * res (option Z) :=
  match task_pipeline t with
  | Err e => (World [] 0, Err e)
  | Ok pipeline => run exit_code popen_error open_error environ (0 <? verbosity) pipeline
  end.

(** [__str__] *)
Definition task_str (t : task) : res string :=
  pipeline ← parse (command_line t);
  let src_str := join " " (bldpath <$> inputs t) in
  let tgt_str := join " " (bldpath <$> outputs t) in
  let sep := match outputs t with [] => "" | _ => " -> " end in
  Ok ("command (" +:+ get_abbreviated_command pipeline +:+ "): " +:+ src_str +:+ sep +:+ tgt_str).
End command.

(** ** The words of a command line as templates *)

(** A template is text and references; its source doubles the dollars of the
    text. *)
Inductive part : Type :=
| Text (s : string)
| Ref (var code : string).
Definition wf_part (p : part) : Prop :=
  match p with
  | Text _ => True
  | Ref var code =>
      chars var ≠ [] ∧ Forall (λ a, is_key_char a = true) (chars var) ∧
      Forall (λ a, in_code a = true) (chars code) ∧
      ∀ a l, chars code = a :: l → is_key_char a = false
  end.
Definition escape (l : list ascii) : list ascii :=
  a ← l; if decide (a = "$"%char) then ["$"; "$"]%char else [a].
Definition write_part (p : part) : list ascii :=
  match p with
  | Text s => escape (chars s)
  | Ref var code => ["$"; "{"]%char ++ chars var ++ chars code ++ ["}"%char]
  end.
Definition write_template (ps : list part) : string := of_chars (mjoin (write_part <$> ps)).

(** What a template means: its texts as they are, the references replaced. *)
Definition part_value (eval : namespace → string → res value) (t : task) (ns : namespace)
    (p : part) : res value :=
  match p with
  | Text s => Ok (VStr s)
  | Ref var code => subst_value eval t ns var code
  end.
Definition fill_template (eval : namespace → string → res value) (t : task) (ns : namespace)
    (ps : list part) : res string :=
  values ← res_map (part_value eval t ns) ps;
  texts ← res_map piece_text values;
  Ok (cat texts).

(** ** The pieces of a template *)

Definition text_piece (a : ascii) : piece := if decide (a = "$"%char) then PDollar else PLit a.
Definition part_pieces (p : part) : list piece :=
  match p with
  | Text s => text_piece <$> chars s
  | Ref var code => [PSubst (chars var) (chars code)]
  end.

Lemma match_subst_ref var code rest :
  wf_part (Ref var code) →
  match_subst (chars var ++ chars code ++ "}"%char :: rest) = Some (chars var, chars code, rest).
Proof.
  intros (Hne & Hvar & Hcode & Hhd). unfold match_subst. rewrite span_app; [|done|].
  - destruct (chars var) as [|v vs] eqn:E; [done|]. rewrite span_app; [done|done|].
    by intros a y [= <- _].
  - intros a y. destruct (chars code) as [|c cs]; simpl; intros [= <- <-]; [done|]. by eapply Hhd.
Qed.

Lemma pieces_escape s l fuel :
  (length (escape s ++ l) ≤ fuel)%nat →
  ∃ fuel', (length l ≤ fuel')%nat ∧
    pieces fuel (escape s ++ l) = (text_piece <$> s) ++ pieces fuel' l.
Proof.
  revert fuel. induction s as [|a s IH]; intros fuel Hf; [by exists fuel|].
  change (escape (a :: s)) with
    ((if decide (a = "$"%char) then ["$"; "$"]%char else [a]) ++ escape s) in *.
  csimpl. unfold text_piece at 1. rewrite <-app_assoc in *.
  destruct (decide (a = "$"%char)) as [->|Ha]; simpl in Hf |- *;
    (destruct fuel as [|fuel]; [lia|]); simpl.
  - destruct (IH fuel) as (fuel' & ? & ->); [lia|]. by exists fuel'.
  - rewrite !decide_False by done. simpl. destruct (IH fuel) as (fuel' & ? & ->); [lia|].
    by exists fuel'.
Qed.

Lemma pieces_template ps fuel :
  Forall wf_part ps → (length (mjoin (write_part <$> ps)) ≤ fuel)%nat →
  pieces fuel (mjoin (write_part <$> ps)) = mjoin (part_pieces <$> ps).
Proof.
  intros Hps. revert fuel. induction Hps as [|p ps Hp Hps IH]; intros fuel Hf; [by destruct fuel|].
  csimpl in *. destruct p as [s|var code]; simpl in Hf |- *.
  - destruct (pieces_escape _ _ _ Hf) as (fuel' & ? & ->). by rewrite IH.
  - destruct fuel as [|fuel]; [lia|]. simpl. rewrite <-!app_assoc in *. simpl in *.
    rewrite match_subst_ref by done. rewrite IH; [done|].
    rewrite !length_app in Hf. simpl in Hf. lia.
Qed.

(** The pieces are the text, cut: nothing is lost or read twice. *)
Definition piece_source (p : piece) : list ascii :=
  match p with
  | PLit a => [a]
  | PDollar => ["$"; "$"]%char
  | PSubst var code => ["$"; "{"]%char ++ var ++ code ++ ["}"%char]
  end.

Lemma match_subst_source l var code rest :
  match_subst l = Some (var, code, rest) → l = var ++ code ++ "}"%char :: rest.
Proof.
  unfold match_subst. destruct (span is_key_char l) as [v l1] eqn:E1.
  apply span_spec in E1 as (-> & _). destruct v as [|a v]; [done|].
  destruct (span in_code l1) as [c l2] eqn:E2. apply span_spec in E2 as (-> & _).
  destruct l2 as [|b l2]; [done|]. intros H.
  assert (b = "}"%char) as ->; [by repeat case_match|]. by injection H as <- <- <-.
Qed.

Lemma pieces_source fuel l : (length l ≤ fuel)%nat → mjoin (piece_source <$> pieces fuel l) = l.
Proof.
  revert l. induction fuel as [|fuel IH]; intros [|a l'] Hf; [done|simpl in Hf; lia|done|].
  cbn [pieces]. destruct (drop_prefix ["$"; "$"]%char (a :: l')) as [rest|] eqn:E1.
  { apply drop_prefix_spec in E1. rewrite E1 in Hf |- *. csimpl in *. rewrite IH; [done|lia]. }
  destruct (drop_prefix ["$"; "{"]%char (a :: l') ≫= match_subst)
    as [[[var code] rest]|] eqn:E2; [|csimpl in *; rewrite IH; [done|lia]].
  apply bind_Some in E2 as (l2 & E2 & E3). apply drop_prefix_spec in E2.
  apply match_subst_source in E3 as ->. rewrite E2 in Hf |- *. csimpl in *.
  rewrite !length_app in Hf. simpl in Hf. rewrite IH by lia. by rewrite <-!app_assoc.
Qed.

(** ** Joining the pieces *)

Definition join_values (values : list value) : res string :=
  texts ← res_map piece_text values; Ok (cat texts).

Lemma res_map_app {A B} (f : A → res B) l k :
  res_map f (l ++ k) = (xs ← res_map f l; ys ← res_map f k; Ok (xs ++ ys)).
Proof.
  induction l as [|x l IH]; simpl; [by destruct (res_map f k)|].
  destruct (f x); simpl; [|done]. rewrite IH. destruct (res_map f l); simpl; [|done].
  by destruct (res_map f k).
Qed.
Lemma res_map_ok {A B} (f : A → res B) (g : A → B) l :
  (∀ x, f x = Ok (g x)) → res_map f l = Ok (g <$> l).
Proof. intros Hf. induction l as [|x l IH]; csimpl; [done|]. by rewrite Hf, IH. Qed.

Lemma join_values_cons v vs :
  join_values (v :: vs) = (s ← piece_text v; t ← join_values vs; Ok (s +:+ t)).
Proof. unfold join_values. simpl. destruct (piece_text v), (res_map _ vs); done. Qed.
Lemma join_values_chars s vs :
  join_values (((λ a, VStr (String a "")) <$> s) ++ vs)
  = (t ← join_values vs; Ok (of_chars s +:+ t)).
Proof.
  induction s as [|a s IH]; csimpl; [by destruct (join_values vs)|].
  rewrite join_values_cons, IH. by destruct (join_values vs).
Qed.

(** Both ways of reading fail alike, or give values that join to the same. *)
Definition same_join (r1 r2 : res (list value)) : Prop :=
  (∃ e, r1 = Err e ∧ r2 = Err e) ∨
  (∃ vs1 vs2, r1 = Ok vs1 ∧ r2 = Ok vs2 ∧ join_values vs1 = join_values vs2).

Lemma same_join_parts eval t ns ps :
  same_join (res_map (repl eval t ns) (mjoin (part_pieces <$> ps)))
    (res_map (part_value eval t ns) ps).
Proof.
  induction ps as [|p ps IH]; [right; by exists [], []|]. csimpl. rewrite res_map_app.
  destruct p as [s|var code]; simpl.
  - assert (res_map (repl eval t ns) (text_piece <$> chars s)
            = Ok ((λ a, VStr (String a "")) <$> chars s)) as ->.
    { induction (chars s) as [|a l IHl]; csimpl; [done|]. rewrite IHl. unfold text_piece.
      by case_decide; subst. }
    destruct IH as [(e & -> & ->)|(vs1 & vs2 & -> & -> & IH)]; [left; by exists e|].
    right. do 2 eexists. split_and!; [done..|]. rewrite join_values_chars, join_values_cons, IH.
    simpl. by rewrite of_chars_chars.
  - rewrite !of_chars_chars.
    destruct (subst_value eval t ns var code) as [v|e]; simpl; [|left; by exists e].
    destruct IH as [(e & -> & ->)|(vs1 & vs2 & -> & -> & IH)]; [left; by exists e|].
    right. do 2 eexists. split_and!; [done..|]. simpl. by rewrite !join_values_cons, IH.
Qed.

(** C31: a word that is written from texts and references, every dollar of a
    text doubled, is replaced by its texts as they are and by what its
    references give, in order; the pieces the code goes through are always the
    word itself, cut. *)
Theorem subst_arg_template eval t ns :
  (∀ ps, Forall wf_part ps →
     _subst_arg eval t ns (write_template ps) = fill_template eval t ns ps) ∧
  (∀ arg, mjoin (piece_source <$> pieces (String.length arg) (chars arg)) = chars arg).
Proof.
  split; [|intros arg; apply pieces_source; by rewrite length_chars].
  intros ps Hps. unfold _subst_arg, write_template. rewrite chars_of_chars, <-length_chars.
  rewrite chars_of_chars, pieces_template by done. unfold fill_template.
  by destruct (same_join_parts eval t ns ps) as [(e & -> & ->)|(vs1 & vs2 & -> & -> & IH)].
Qed.

(** ** Substitution keeps the shape of a pipeline *)

(** A pipeline without the texts that are substituted. *)
Definition blank : string → string := λ _, "".
Definition redirect_shape (r : redirect) : redirect :=
  match r with ToFile _ => ToFile "" | r => r end.
Definition blank_var (kv : string * string) : string * string := (kv.1, "").
Definition command_shape (c : command) : command :=
  Command (name c) (blank <$> argv c) (blank <$> stdin c) (redirect_shape <$> stdout c)
    (redirect_shape <$> stderr c) (fmap (M := list) blank_var <$> env_vars c).
Definition node_shape (n : node) : node :=
  match n with
  | NCommand c => NCommand (command_shape c)
  | NChdir d => NChdir (blank <$> d)
  | op => op
  end.

Section shape.
Context (eval : namespace → string → res value) (t : task) (ns : namespace).

Lemma subst_argv_shape l l' :
  res_map (_subst_arg eval t ns) l = Ok l' → blank <$> l' = blank <$> l.
Proof.
  revert l'. induction l as [|x l IH]; intros l' H; simpl in H; [by injection H as <-|].
  apply bind_ok in H as (y & _ & H). apply bind_ok in H as (ys & H & [= <-]). csimpl.
  by rewrite (IH ys).
Qed.
Lemma subst_opt_shape o o' : subst_opt eval t ns o = Ok o' → blank <$> o' = blank <$> o.
Proof.
  destruct o as [s|]; simpl; [|by intros [= <-]]. by intros (y & _ & [= <-])%bind_ok.
Qed.
Lemma subst_redirect_shape o o' :
  subst_redirect eval t ns o = Ok o' → redirect_shape <$> o' = redirect_shape <$> o.
Proof.
  destruct o as [[]|]; simpl; try by intros [= <-]. by intros (y & _ & [= <-])%bind_ok.
Qed.
Lemma subst_env_shape acc items vars :
  NoDup (acc.*1 ++ items.*1) → subst_env eval t ns acc items = Ok vars → vars.*1 = acc.*1 ++ items.*1.
Proof.
  revert acc. induction items as [|[k v] items IH]; intros acc Hnd H; simpl in *.
  { injection H as <-. by rewrite app_nil_r. }
  apply bind_ok in H as (s & _ & H).
  assert (dict_set acc k s = acc ++ [(k, s)]) as Hset.
  { apply dict_set_fresh. apply NoDup_app in Hnd as (_ & Hnd & _). intros Hk.
    apply (Hnd k Hk). by left. }
  rewrite Hset in H. apply IH in H; rewrite fmap_app in *; simpl in *; by rewrite <-app_assoc in *.
Qed.
Lemma blank_var_keys vars vars' : vars'.*1 = vars.*1 → blank_var <$> vars' = blank_var <$> vars.
Proof.
  intros H. change blank_var with ((λ k : string, (k, "")) ∘ (@fst string string)).
  by rewrite !list_fmap_compose, H.
Qed.

(** The keys of a dict are distinct. *)
Definition dict_env (n : node) : Prop :=
  match n with
  | NCommand c => ∀ vars, env_vars c = Some vars → NoDup vars.*1
  | _ => True
  end.

Lemma subst_node_shape n n' :
  dict_env n → subst_node eval t ns n = Ok n' → node_shape n' = node_shape n ∧ n ≠ NChdir None.
Proof.
  destruct n as [c|[d|]| | |]; simpl; intros Hd H; try by injection H as <-.
  - apply bind_ok in H as (c' & H & [= <-]). split; [|done]. unfold subst_command in H.
    apply bind_ok in H as (si & Hsi & H). apply bind_ok in H as (so & Hso & H).
    apply bind_ok in H as (se & Hse & H). apply bind_ok in H as (av & Hav & H).
    apply bind_ok in H as (ev & Hev & [= <-]). cbn [node_shape].
    unfold command_shape. cbn [name argv stdin stdout stderr env_vars].
    apply subst_opt_shape in Hsi as ->. apply subst_redirect_shape in Hso as ->.
    apply subst_redirect_shape in Hse as ->. apply subst_argv_shape in Hav as ->.
    do 2 f_equal. destruct (env_vars c) as [vars|]; [|by injection Hev as <-].
    apply bind_ok in Hev as (vars' & Hev & [= <-]). simpl. f_equal. apply blank_var_keys.
    apply (subst_env_shape [] vars vars'); [by apply Hd|done].
  - apply bind_ok in H as (d' & H & [= <-]). done.
  - done.
Qed.

Lemma subst_nodes_shape p p' :
  Forall dict_env p → res_map (subst_node eval t ns) p = Ok p' →
  node_shape <$> p' = node_shape <$> p ∧ NChdir None ∉ p.
Proof.
  intros Hp. revert p'. induction Hp as [|n p Hn Hp IH]; intros p' H; simpl in H.
  { injection H as <-. split; [done|]. apply not_elem_of_nil. }
  apply bind_ok in H as (n' & Hn' & H). apply bind_ok in H as (ns' & H & [= <-]). csimpl.
  apply subst_node_shape in Hn' as [-> ?]; [|done]. destruct (IH _ H) as [-> ?].
  split; [done|]. by apply not_elem_of_cons.
Qed.
End shape.

Lemma wf_dict_env p : wf_nodes p → Forall dict_env p.
Proof.
  assert (∀ c, wf_command c → dict_env (NCommand c)) as Hc.
  { intros c [_ _ _ _ H] vars Hv. by apply H in Hv as (_ & _ & ?). }
  induction 1 as [| |c op l [-> | ->]| |]; repeat constructor; auto.
Qed.

Lemma shape_last p p' d' :
  node_shape <$> p' = node_shape <$> p → last p' = Some (NChdir d') → ∃ d, last p = Some (NChdir d).
Proof.
  intros Hs Hl. assert (last (node_shape <$> p') = last (node_shape <$> p)) as H by by rewrite Hs.
  rewrite !fmap_last, Hl in H. destruct (last p) as [[c|d| | |]|]; [done| |done..]. by exists d.
Qed.

Lemma file_or_none_shape (o o' : option redirect) :
  redirect_shape <$> o' = redirect_shape <$> o →
  o = None ∨ (∃ f, o = Some (ToFile f)) → o' = None ∨ (∃ f, o' = Some (ToFile f)).
Proof. intros H [->|[f ->]]; destruct o' as [[]|]; simpl in H; naive_solver. Qed.

Lemma runnable_shape p p' : runnable p → node_shape <$> p' = node_shape <$> p → runnable p'.
Proof.
  intros Hp. revert p'.
  induction Hp as [c Ho|c p Ho Hp IH|c op p Hop Ho Hp IH|d|d p Hp IH]; intros p' Hs.
  - destruct p' as [|[c'| | | |] [|]]; simpl in Hs; try done. injection Hs as Hc.
    apply run_last. by apply (file_or_none_shape (stdout c)).
  - destruct p' as [|[c'| | | |] [|[] p']]; simpl in Hs; try done. injection Hs as Hn Ha Hi Hout.
    apply run_pipe; [|by apply IH]. rewrite Ho in Hout. by destruct (stdout c') as [[]|].
  - destruct p' as [|[c'| | | |] [|op' p']]; simpl in Hs; try done.
    injection Hs as Hn Ha Hi Hout He Hv Hop' Hrest.
    assert (op' = op) as ->. { by destruct Hop as [-> | ->], op'. }
    apply run_op; [done|by apply (file_or_none_shape (stdout c))|by apply IH].
  - destruct p' as [|[|[d'|]| | |] [|]]; simpl in Hs; try done. apply run_chdir_last.
  - destruct p' as [|[|[d'|]| | |] [|[] p']]; simpl in Hs; try done. injection Hs as Hrest.
    apply run_chdir. by apply IH.
Qed.

(** ** What a task runs *)

Definition ends_in_cd (p : list node) : bool :=
  match last p with Some (NChdir _) => true | _ => false end.

Section task_run.
Context (eval : namespace → string → res value).
Context (exit_code : nat → Z) (environ : gmap string string).
Context (popen_error : popen_args → option exn) (open_error : string → option exn).

Lemma task_pipeline_inv t p' :
  task_pipeline eval t = Ok p' →
  ∃ p, parse (command_line t) = Ok p ∧ wf_nodes p ∧ node_shape <$> p' = node_shape <$> p ∧
       NChdir None ∉ p.
Proof.
  unfold task_pipeline. intros (p & Hp & H)%bind_ok. exists p. split; [done|].
  assert (wf_nodes p) as Hwf.
  { unfold parse in Hp. apply bind_ok in Hp as (tokens & _ & Hp).
    destruct (parse_tokens_wf tokens) as [?|(q & ? & ?)]; congruence. }
  split; [done|]. by apply (subst_nodes_shape eval t (task_namespace t)); [apply wf_dict_env|].
Qed.

(** C30: a silent task either raises before it starts anything, as its line
    does not parse or a word cannot be substituted; or it does exactly what the
    groups of its parsed pipeline, with the words substituted, say, up to the
    first call of Popen or open that raises, if one does.  When none raises, it
    returns the code of the last process, having waited for every process and
    closed every file, or its line ends in a [cd] and it raises IndexError
    there.  Whatever the values are, substitution adds no word, operator or
    redirection. *)
Theorem task_run_refines t verbosity :
  verbosity ≤ 0 →
  let run := task_run eval exit_code popen_error open_error environ verbosity t in
  (∃ e, task_pipeline eval t = Err e ∧ run = (World [] 0, Err e)) ∨
  ∃ p p', parse (command_line t) = Ok p ∧ task_pipeline eval t = Ok p' ∧
    node_shape <$> p' = node_shape <$> p ∧
    let '(tr, r) := run_groups exit_code environ 0 (groups "." p') in
    match until_error popen_error open_error tr with
    | (done, Some e) => ∃ n, run = (World done n, Err e)
    | (_, None) =>
        (∃ n, run = (World tr n, r)) ∧
        ((∃ code, r = Ok (Some code)) ∧ started tr = waited tr ∧ opened tr = closed tr ∨
         r = Err IndexError ∧ ends_in_cd p = true)
    end.
Proof.
  intros Hv. cbn zeta. unfold task_run.
  destruct (task_pipeline eval t) as [p'|e] eqn:E; [|left; by exists e].
  right. destruct (task_pipeline_inv t p' E) as (p & Hp & Hwf & Hs & Hdirs).
  exists p, p'. split_and!; [done..|].
  assert (runnable p') as Hrun.
  { apply (runnable_shape p); [|done]. by apply wf_runnable. }
  rewrite (proj2 (Z.ltb_ge 0 verbosity) Hv).
  destruct (run_until_error exit_code environ popen_error open_error p' Hrun) as [n ->].
  pose proof (run_groups_balance exit_code environ 0 (groups "." p')) as Hbal.
  pose proof (λ c, run_groups_code exit_code environ 0 p' c Hrun) as Hcode.
  destruct (run_groups _ _ _ _) as [tr r]. destruct (until_error _ _ tr) as [done [e|]] eqn:Hu;
    [by exists n|]. apply until_error_none in Hu as ->. split; [by exists n|].
  destruct r as [c|e]; [left; split; [naive_solver|done]|right].
  destruct Hbal as (-> & g & d & Hin%groups_cut_off); [|done]. split; [done|].
  destruct (shape_last p p' d Hs Hin) as [d' Hd]. unfold ends_in_cd. by rewrite Hd.
Qed.
End task_run.

(** The task of a wscript that copies the words of its source, and a namespace
    whose names are looked up. *)
Definition demo_eval (ns : namespace) (e : string) : res value :=
  match ns !! e with Some v => Ok v | None => Err KeyError end.
Definition demo_task (word : string) : task :=
  Task (inr "cd ${dir} && gen $$1 ${word} < ${SRC} | sort > ${TGT}")
    (Some (<["dir" := VStr "top"]> (<["word" := VStr word]> ∅))) ∅
    [WNode "src/a.txt" "../src/a.txt" "/b/src/a.txt"] [WNode "out.txt" "out.txt" "/b/out.txt"].

Example demo_task_str :
  task_str (demo_task "w") = Ok "command (cd ${dir} && gen | sort): src/a.txt -> out.txt".
Proof. reflexivity. Qed.
(** A value with blanks and operators stays one word. *)
Example demo_task_pipeline :
  task_pipeline demo_eval (demo_task "x | rm -r y") =
  Ok [NChdir (Some "top"); NAnd;
      NCommand (Command "gen" ["gen"; "$1"; "x | rm -r y"] (Some "../src/a.txt") (Some PIPE) None None);
      NPipe; NCommand (Command "sort" ["sort"] None (Some (ToFile "/b/out.txt")) None None)].
Proof. vm_compute. reflexivity. Qed.
(** The other answers of [repl]; a node alone in a list is not converted to its
    path, and joining it fails. *)
Example subst_answers :
  let t := Task (inl []) None ∅ [WNode "a" "a" "a"; WNode "b" "b" "b"] [] in
  let e (v : value) : namespace → string → res value := λ _ _, Ok v in
  (λ v, _subst_arg (e v) t ∅ "<${X}>")
    <$> [VNone; VList [VStr "s"]; VList []; VObject; VInputs; VNode (WNode "a" "a" "a");
         VList [VNode (WNode "a" "a" "a")]]
  = [Ok "<>"; Ok "<s>"; Err AssertionError; Err TypeError;
     Err (ValueError "${SRC} requested but have multiple sources; which one?");
     Err (ValueError "Bad subst variable 'X'"); Err TypeError].
Proof. vm_compute. reflexivity. Qed.
(** A brace in the code ends it, and an open reference is text. *)
Example subst_braces :
  let e : namespace → string → res value := λ _ c, Ok (VStr ("[" +:+ c +:+ "]")) in
  (λ s, _subst_arg e (demo_task "") ∅ s)
    <$> ["${f({1}[0])}"; "${SRC"; "$${SRC}"; "${}"; "$HOME"; "${SRC[0].name}.o"]
  = [Ok "[f({1][0])}"; Ok "${SRC"; Ok "${SRC}"; Ok "${}"; Ok "$HOME"; Ok "[SRC[0].name].o"].
Proof. vm_compute. reflexivity. Qed.

Lemma subst_arg_template_witness :
  Forall wf_part [Text "a$"; Ref "word" ""; Text "${"] ∧
  _subst_arg demo_eval (demo_task "w") (task_namespace (demo_task "w")) "a$$${word}$${" = Ok "a$w${".
Proof.
  assert (Forall wf_part [Text "a$"; Ref "word" ""; Text "${"]) as Hwf.
  { repeat constructor; done. }
  split; [exact Hwf|].
  exact (proj1 (subst_arg_template demo_eval (demo_task "w") (task_namespace (demo_task "w")))
    _ Hwf).
Defined.

(** A program that is missing: the one before it in the pipe has been started,
    and is not waited for. *)
Definition missing (a : popen_args) : option exn :=
  if decide (p_argv a = ["sort"]) then Some OSError else None.
Example missing_program :
  let run := task_run demo_eval (λ _, 0) missing (λ _, None) ∅ 0 (demo_task "w") in
  (started (trace run.1), waited (trace run.1), opened (trace run.1), closed (trace run.1), run.2) =
  ([0%nat], [], [Opened "../src/a.txt" false; Opened "/b/out.txt" true], [], Err OSError).
Proof. vm_compute. reflexivity. Qed.

Lemma task_run_refines_witness :
  let t := demo_task "w" in
  let run := task_run demo_eval (λ _, 0) missing (λ _, None) ∅ 0 t in
  (∃ e, task_pipeline demo_eval t = Err e ∧ run = (World [] 0, Err e)) ∨
  ∃ p p', parse (command_line t) = Ok p ∧ task_pipeline demo_eval t = Ok p' ∧
    node_shape <$> p' = node_shape <$> p ∧
    let '(tr, r) := run_groups (λ _, 0) ∅ 0 (groups "." p') in
    match until_error missing (λ _, None) tr with
    | (done, Some e) => ∃ n, run = (World done n, Err e)
    | (_, None) =>
        (∃ n, run = (World tr n, r)) ∧
        ((∃ code, r = Ok (Some code)) ∧ started tr = waited tr ∧ opened tr = closed tr ∨
         r = Err IndexError ∧ ends_in_cd p = true)
    end.
Proof.
  exact (task_run_refines demo_eval (λ _, 0) ∅ missing (λ _, None) (demo_task "w") 0 (Z.le_refl 0)).
Defined.
