(* ===== verification/FlowMon.v ===== *)
(** * flow-monitor/examples/flowmon-parse-results.py: the flow monitor report
    [Flow], [FiveTuple], [Histogram], [Simulation] and [main].  The flows of a
    simulation are objects that the list of flows and the map by id share: the
    map holds positions of the list.  A document is the tree that the XML
    parser makes, or the exception it raises. *)
From Stdlib Require Import Ascii SpecFloat.
From S2P Require Import Prelude PyStr PyNum PyFloat PyXml.
#[local] Open Scope Z_scope.

(** ** Attributes of an element *)

(** [int(el.get(k))] and [float(el.get(k))]: None is a TypeError. *)
Definition get_int (e : element) (k : string) : res Z :=
  match get e k with Some s => int_str s | None => Err TypeError end.
Definition get_float (e : element) (k : string) : res float :=
  match get e k with Some s => float_str s | None => Err TypeError end.

(** [s[:-2]] *)
Definition drop_unit (s : string) : string := of_chars (slice_to (chars s) (-2)).
Definition parse_time_ns (tm : option string) : res float :=
  match tm with
  | None => Err AttributeError
  | Some tm => if endswith tm "ns" then float_str (drop_unit tm) else Err (ValueError tm)
  end.
(** [el.findall("a/b")] *)
Definition findall2 (e : element) (a b : string) : list element :=
  c ← findall e a; findall c b.

(** ** Data *)

Record FiveTuple := {
  sourceAddress : option string;
  destinationAddress : option string;
  sourcePort : Z;
  destinationPort : Z;
  protocol : Z;
}.
Definition new_five_tuple (el : element) : res FiveTuple :=
  sport ← get_int el "sourcePort";
  dport ← get_int el "destinationPort";
  proto ← get_int el "protocol";
  Ok {| sourceAddress := get el "sourceAddress"; destinationAddress := get el "destinationAddress";
        sourcePort := sport; destinationPort := dport; protocol := proto |}.

Record bin := { b_start : float; b_width : float; b_count : Z }.
Definition new_bin (el : element) : res bin :=
  start ← get_float el "start";
  width ← get_float el "width";
  count ← get_int el "count";
  Ok {| b_start := start; b_width := width; b_count := count |}.
Fixpoint each {A B} (f : A → res B) (l : list A) : res (list B) :=
  match l with
  | [] => Ok []
  | x :: l => y ← f x; ys ← each f l; Ok (y :: ys)
  end.
Definition Histogram (el : option element) : res (list bin) :=
  match el with None => Ok [] | Some el => each new_bin (findall el "bin") end.

Record ProbeFlowStats := {
  probeId : Z;
  packets : Z;
  bytes : float;
  delayFromFirstProbe : num;
}.

Record Flow := {
  flowId : Z;
  rx_duration : float;
  probe_stats_unsorted : list ProbeFlowStats;
  hopCount : num;
  delayMean : option float;
  packetSizeMean : option float;
  rxBitrate : option float;
  txBitrate : option float;
  packetLossRatio : option float;
  flowInterruptionsHistogram : option (list bin);
  fiveTuple : option FiveTuple;  (* no attribute before the classifier is read *)
}.

(** ** class Flow *)

Definition nano : float := lit 1 (-9).
Definition duration (el : element) (last first : string) : res float :=
  t1 ← parse_time_ns (get el last);
  t0 ← parse_time_ns (get el first);
  Ok (fmul (fsub t1 t0) nano).
(** [float(el.get(k)) / rxPackets] *)
Definition per_packet (v : res float) (rxPackets : float) : res float := x ← v; fdiv x rxPackets.
Definition delay_sum (el : element) : res float :=
  match get el "delaySum" with Some s => float_str (drop_unit s) | None => Err TypeError end.
(** [float(el.get(k))*8 / d] when the duration is positive *)
Definition bitrate (el : element) (k : string) (d : float) : res (option float) :=
  if flt fzero d then x ← get_float el k; r ← fdiv (fmul x (float_int 8)) d; Ok (Some r)
  else Ok None.
Definition new_flow (el : element) : res Flow :=
  id ← get_int el "flowId";
  rxPackets ← get_float el "rxPackets";
  txPackets ← get_float el "txPackets";
  tx_duration ← duration el "timeLastTxPacket" "timeFirstTxPacket";
  rx_duration ← duration el "timeLastRxPacket" "timeFirstRxPacket";
  hops ← (if is_zero_float rxPackets then Ok (PInt (-1000))
          else h ← per_packet (get_float el "timesForwarded") rxPackets;
               Ok (PFloat (fadd h (float_int 1))));
  means ← (if is_zero_float rxPackets then Ok (None, None)
           else d ← per_packet (delay_sum el) rxPackets;
                s ← per_packet (get_float el "rxBytes") rxPackets;
                Ok (Some (fmul d nano), Some s));
  rx ← bitrate el "rxBytes" rx_duration;
  tx ← bitrate el "txBytes" tx_duration;
  lost ← get_float el "lostPackets";
  loss ← (if is_zero_float rxPackets then Ok None
          else r ← fdiv lost (fadd rxPackets lost); Ok (Some r));
  hist ← (match find el "flowInterruptionsHistogram" with
          | None => Ok None
          | Some h => bins ← Histogram (Some h); Ok (Some bins)
          end);
  Ok {| flowId := id; rx_duration := rx_duration; probe_stats_unsorted := []; hopCount := hops;
        delayMean := means.1; packetSizeMean := means.2; rxBitrate := rx; txBitrate := tx;
        packetLossRatio := loss; flowInterruptionsHistogram := hist; fiveTuple := None |}.

(** ** class Simulation *)

Definition set_five_tuple (t : FiveTuple) (f : Flow) : Flow :=
  {| flowId := flowId f; rx_duration := rx_duration f;
     probe_stats_unsorted := probe_stats_unsorted f; hopCount := hopCount f;
     delayMean := delayMean f; packetSizeMean := packetSizeMean f; rxBitrate := rxBitrate f;
     txBitrate := txBitrate f; packetLossRatio := packetLossRatio f;
     flowInterruptionsHistogram := flowInterruptionsHistogram f; fiveTuple := Some t |}.
Definition add_probe (s : ProbeFlowStats) (f : Flow) : Flow :=
  {| flowId := flowId f; rx_duration := rx_duration f;
     probe_stats_unsorted := probe_stats_unsorted f ++ [s]; hopCount := hopCount f;
     delayMean := delayMean f; packetSizeMean := packetSizeMean f; rxBitrate := rxBitrate f;
     txBitrate := txBitrate f; packetLossRatio := packetLossRatio f;
     flowInterruptionsHistogram := flowInterruptionsHistogram f; fiveTuple := fiveTuple f |}.

(** [flow_map[flow.flowId] = flow] for every flow: the position of the last
    one with the id. *)
Fixpoint build_map (i : nat) (flow_map : gmap Z nat) (fs : list Flow) : gmap Z nat :=
  match fs with
  | [] => flow_map
  | f :: fs => build_map (S i) (<[flowId f := i]> flow_map) fs
  end.
(** [flow_map[id]], changed in place. *)
Definition update_flow (flow_map : gmap Z nat) (id : Z) (g : Flow → Flow) (fs : list Flow)
    : res (list Flow) :=
  match flow_map !! id with Some i => Ok (alter g i fs) | None => Err KeyError end.

Fixpoint classify (flow_map : gmap Z nat) (els : list element) (fs : list Flow) : res (list Flow) :=
  match els with
  | [] => Ok fs
  | el :: els =>
      id ← get_int el "flowId";
      t ← new_five_tuple el;
      fs ← update_flow flow_map id (set_five_tuple t) fs;
      classify flow_map els fs
  end.

(** What one entry of a probe says: the flow and its statistics. *)
Definition new_probe_stats (probe : Z) (stats : element) : res (Z * ProbeFlowStats) :=
  id ← get_int stats "flowId";
  n ← get_int stats "packets";
  b ← get_float stats "bytes";
  d ← (if 0 <? n then
         t ← parse_time_ns (get stats "delayFromFirstProbeSum");
         m ← as_float (PInt n);
         d ← fdiv t m; Ok (PFloat d)
       else Ok (PInt 0));
  Ok (id, {| probeId := probe; packets := n; bytes := b; delayFromFirstProbe := d |}).
Fixpoint add_stats (flow_map : gmap Z nat) (probe : Z) (els : list element) (fs : list Flow)
    : res (list Flow) :=
  match els with
  | [] => Ok fs
  | stats :: els =>
      '(id, s) ← new_probe_stats probe stats;
      fs ← update_flow flow_map id (add_probe s) fs;
      add_stats flow_map probe els fs
  end.
Fixpoint add_probes (flow_map : gmap Z nat) (els : list element) (fs : list Flow)
    : res (list Flow) :=
  match els with
  | [] => Ok fs
  | probe :: els =>
      id ← get_int probe "index";
      fs ← add_stats flow_map id (findall probe "FlowStats") fs;
      add_probes flow_map els fs
  end.

(** The flows of the simulation. *)
Definition Simulation (el : element) : res (list Flow) :=
  classifier ← (match findall el "Ipv4FlowClassifier" with
                | [c] => Ok c
                | _ => Err (ValueError "values to unpack")
                end);
  fs ← each new_flow (findall2 el "FlowStats" "Flow");
  let flow_map := build_map 0 ∅ fs in
  fs ← classify flow_map (findall classifier "Flow") fs;
  add_probes flow_map (findall2 el "FlowProbes" "FlowProbe") fs.

(** ** main *)

(** The events of [iterparse]: true for the start of an element. *)
Fixpoint events (e : element) : list (bool * element) :=
  match e with
  | Element _ _ _ cs => (true, e) :: flat_map events cs ++ [(false, e)]
  end.

Section main.
(** [open] and the parser: the root of the document that is read to its end, or
    the exception; and the events before an exception. *)
Context (document : list (bool * element) * option exn).

Definition io : Type → Type := eff string exn.
Definition print (s : string) : io unit := λ out, (out +:+ s, Ok tt).

(** The loop over the events. *)
Fixpoint read_events (level : Z) (sim_list : list (list Flow)) (es : list (bool * element))
    : io (Z * list (list Flow)) :=
  match es with
  | [] => mret (level, sim_list)
  | (is_start, elem) :: es =>
      if (is_start : bool) then read_events (level + 1) sim_list es
      else
        let level := level - 1 in
        if decide (level = 0 ∧ tag elem = "FlowMonitor") then
          sim ← lift_res (Simulation elem);
          _ ← print ".";
          read_events level (sim_list ++ [sim]) es
        else read_events level sim_list es
  end.

Definition nl : string := of_chars [newline].
Definition tab : string := of_chars ["009"%char].
Definition proto_name (p : Z) : res string :=
  if decide (p = 6) then Ok "TCP" else if decide (p = 17) then Ok "UDP" else Err KeyError.
Definition show_opt (s : option string) : string := default "None" s.
Definition show_value (label : string) (scale : float) (unit : string) (v : option float) : string :=
  tab +:+ label +:+ ": "
  +:+ match v with None => "None" | Some x => format_fixed 2 (fmul x scale) +:+ unit end +:+ nl.
(** The lines of one flow. *)
Definition show_flow (flow : Flow) : io unit :=
  match fiveTuple flow with
  | None => throw AttributeError
  | Some t =>
      proto ← lift_res (proto_name (protocol t));
      _ ← print ("FlowID: " +:+ pretty (flowId flow) +:+ " (" +:+ proto +:+ " "
        +:+ show_opt (sourceAddress t) +:+ "/" +:+ pretty (sourcePort t) +:+ " --> "
        +:+ show_opt (destinationAddress t) +:+ "/" +:+ pretty (destinationPort t) +:+ ")" +:+ nl);
      _ ← print (show_value "TX bitrate" (lit 1 (-3)) " kbit/s" (txBitrate flow));
      _ ← print (show_value "RX bitrate" (lit 1 (-3)) " kbit/s" (rxBitrate flow));
      _ ← print (show_value "Mean Delay" (lit 1 3) " ms" (delayMean flow));
      print (show_value "Packet Loss Ratio" (float_int 100) " %" (packetLossRatio flow))
  end.
Definition main : io unit :=
  _ ← print "Reading XML file  ";
  '(_, sim_list) ← read_events 0 [] document.1;
  _ ← (match document.2 with Some e => throw e | None => mret () end);
  _ ← print (" done." +:+ nl);
  for_each (for_each show_flow) sim_list.
End main.

(** ** The element is handled once, at the root *)

Lemma read_events_inner e level sims es :
  0 < level → read_events level sims (events e ++ es) = read_events level sims es.
Proof.
  intros Hl. revert level sims es Hl. induction e as [[t a x cs] Hcs] using element_ind'. cbn [children] in Hcs.
  intros level sims es Hl. cbn [events app read_events].
  assert (∀ lv rest, 0 < lv → read_events lv sims (flat_map events cs ++ rest)
          = read_events lv sims rest) as Hin.
  { induction Hcs as [|c cs Hc Hcs IH]; intros lv rest Hlv; [done|].
    simpl. rewrite <-app_assoc, Hc by done. by apply IH. }
  rewrite <-app_assoc, Hin by lia. cbn [app read_events].
  replace (level + 1 - 1) with level by lia. rewrite decide_False by lia. done.
Qed.

Lemma read_events_document e out :
  read_events 0 [] (events e) out =
  if decide (tag e = "FlowMonitor") then
    match Simulation e with
    | Ok sim => (out +:+ ".", Ok (0, [sim]))
    | Err x => (out, Err x)
    end
  else (out, Ok (0, [])).
Proof.
  destruct e as [t a x cs]. cbn [events read_events app].
  assert (∀ rest, read_events (0 + 1) [] (flat_map events cs ++ rest)
          = read_events (0 + 1) [] rest) as Hin.
  { intros rest. revert rest. induction cs as [|c cs IH]; intros rest; [done|].
    simpl. rewrite <-app_assoc, read_events_inner by lia. apply IH. }
  rewrite Hin. cbn [read_events]. simpl (0 + 1 - 1).
  destruct (decide (t = "FlowMonitor")) as [->|Ht].
  - rewrite decide_True by done. unfold mbind, eff_bind, lift_res. cbn [tag].
    by destruct (Simulation _).
  - rewrite decide_False by naive_solver. cbn [tag]. by rewrite decide_False.
Qed.

(** ** What a simulation is read to *)

(** The entries of the classifier and of the probes, in document order. *)
Definition class_entry (el : element) : res (Z * FiveTuple) :=
  id ← get_int el "flowId"; t ← new_five_tuple el; Ok (id, t).
Definition probe_entries (probe : element) : res (list (Z * ProbeFlowStats)) :=
  id ← get_int probe "index"; each (new_probe_stats id) (findall probe "FlowStats").

(** The flow that an id stands for is the last one that has it. *)
Definition position (fs : list Flow) (id : Z) (i : nat) : Prop :=
  (∃ f, fs !! i = Some f ∧ flowId f = id) ∧
  ∀ j f, fs !! j = Some f → flowId f = id → (j ≤ i)%nat.

Lemma build_map_lookup n m fs id i :
  build_map n m fs !! id = Some i ↔
  (∃ j, i = (n + j)%nat ∧ position fs id j) ∨
  (m !! id = Some i ∧ ∀ f, f ∈ fs → flowId f ≠ id).
Proof.
  revert n m. induction fs as [|f fs IH]; intros n m; simpl.
  { split; [|intros [(j & _ & (f & Hf & _) & _)|[? _]]; done].
    intros H. right. split; [done|]. intros f Hf. by apply elem_of_nil in Hf. }
  rewrite IH. split.
  - intros [(j & -> & (g & Hg & Hid) & Hlast)|[Hm Hno]].
    + left. exists (S j). split; [lia|]. split; [by exists g|].
      intros [|k] h Hk Hh; [lia|]. apply Hlast in Hk; [lia|done].
    + destruct (decide (flowId f = id)) as [<-|Hne].
      * rewrite lookup_insert, decide_True in Hm by done. injection Hm as <-. left. exists 0%nat.
        split; [lia|]. split; [by exists f|]. intros [|k] h Hk Hh; [lia|].
        simpl in Hk. apply list_elem_of_lookup_2 in Hk. by apply Hno in Hk.
      * rewrite lookup_insert_ne in Hm by done. right. split; [done|].
        intros g [->|Hg]%elem_of_cons; [done|by apply Hno].
  - intros [([|j] & -> & (g & Hg & Hid) & Hlast)|[Hm Hno]].
    + injection Hg as ->. right. split; [by rewrite lookup_insert, decide_True; [f_equal; lia|]|].
      intros h Hh Hhid. apply list_elem_of_lookup_1 in Hh as [k Hk].
      specialize (Hlast (S k) h Hk Hhid). lia.
    + left. exists j. split; [lia|]. split; [by exists g|].
      intros k h Hk Hh. specialize (Hlast (S k) h Hk Hh). lia.
    + right. split; [|intros g Hg; apply Hno; by right].
      rewrite lookup_insert_ne; [done|]. apply Hno. by left.
Qed.
Lemma flow_map_lookup fs id i : build_map 0 ∅ fs !! id = Some i ↔ position fs id i.
Proof.
  rewrite build_map_lookup. split.
  - intros [(j & -> & H)|[H _]]; [done|]. by rewrite lookup_empty in H.
  - intros H. left. by exists i.
Qed.

(** A sequence of changes of flows, by id. *)
Fixpoint update_all (flow_map : gmap Z nat) (us : list (Z * (Flow → Flow))) (fs : list Flow)
    : res (list Flow) :=
  match us with
  | [] => Ok fs
  | (id, g) :: us => fs ← update_flow flow_map id g fs; update_all flow_map us fs
  end.

Lemma update_all_app flow_map us vs fs :
  update_all flow_map (us ++ vs) fs = (fs ← update_all flow_map us fs; update_all flow_map vs fs).
Proof.
  revert fs. induction us as [|[id g] us IH]; intros fs; simpl; [done|].
  destruct (update_flow flow_map id g fs); [apply IH|done].
Qed.
Lemma each_ok_cons {A B} (f : A → res B) x l ys :
  each f (x :: l) = Ok ys ↔ ∃ y zs, f x = Ok y ∧ each f l = Ok zs ∧ ys = y :: zs.
Proof.
  simpl. rewrite bind_ok. setoid_rewrite bind_ok. split.
  - intros (y & Hy & zs & Hzs & [= <-]). by exists y, zs.
  - intros (y & zs & Hy & Hzs & ->). by exists y; split; [|exists zs].
Qed.

Lemma classify_flows_ok flow_map els fs fs' :
  classify flow_map els fs = Ok fs' ↔
  ∃ ts, each class_entry els = Ok ts ∧
        update_all flow_map ((λ p : Z * FiveTuple, (p.1, set_five_tuple p.2)) <$> ts) fs = Ok fs'.
Proof.
  revert fs. induction els as [|el els IH]; intros fs.
  { simpl. split; [by intros [= <-]; exists []|by intros (ts & [= <-] & H)]. }
  cbn [classify]. setoid_rewrite each_ok_cons. unfold class_entry at 1.
  rewrite bind_ok. split.
  - intros (id & Hid & H). apply bind_ok in H as (t & Ht & H). apply bind_ok in H as (fs1 & H1 & H).
    apply IH in H as (ts & Hts & H). exists ((id, t) :: ts). split.
    + exists (id, t), ts. by rewrite Hid, Ht.
    + csimpl. by rewrite H1.
  - intros (? & (y & ts & Hy & Hts & ->) & H). apply bind_ok in Hy as (id & Hid & Hy).
    apply bind_ok in Hy as (t & Ht & [= <-]). csimpl in H. apply bind_ok in H as (fs1 & H1 & H).
    exists id. split; [done|]. rewrite Ht. simpl. rewrite H1. simpl. apply IH. by exists ts.
Qed.

Lemma add_stats_ok flow_map probe els fs fs' :
  add_stats flow_map probe els fs = Ok fs' ↔
  ∃ ss, each (new_probe_stats probe) els = Ok ss ∧
        update_all flow_map ((λ p : Z * ProbeFlowStats, (p.1, add_probe p.2)) <$> ss) fs = Ok fs'.
Proof.
  revert fs. induction els as [|el els IH]; intros fs.
  { simpl. split; [by intros [= <-]; exists []|by intros (ts & [= <-] & H)]. }
  cbn [add_stats]. setoid_rewrite each_ok_cons. rewrite bind_ok. split.
  - intros ([id s] & Hs & H). apply bind_ok in H as (fs1 & H1 & H).
    apply IH in H as (ss & Hss & H). exists ((id, s) :: ss). split; [by exists (id, s), ss|].
    csimpl. by rewrite H1.
  - intros (? & ([id s] & ss & Hy & Hss & ->) & H). csimpl in H.
    apply bind_ok in H as (fs1 & H1 & H). exists (id, s). split; [done|]. cbn.
    rewrite H1. simpl. apply IH. by exists ss.
Qed.

Lemma add_probes_ok flow_map els fs fs' :
  add_probes flow_map els fs = Ok fs' ↔
  ∃ sss, each probe_entries els = Ok sss ∧
        update_all flow_map ((λ p : Z * ProbeFlowStats, (p.1, add_probe p.2)) <$> mjoin sss) fs = Ok fs'.
Proof.
  revert fs. induction els as [|el els IH]; intros fs.
  { simpl. split; [by intros [= <-]; exists []|by intros (ts & [= <-] & H)]. }
  cbn [add_probes]. setoid_rewrite each_ok_cons. unfold probe_entries at 1. rewrite bind_ok. split.
  - intros (id & Hid & H). apply bind_ok in H as (fs1 & H1 & H).
    apply add_stats_ok in H1 as (ss & Hss & H1). apply IH in H as (sss & Hsss & H).
    exists (ss :: sss). split; [exists ss, sss; by rewrite Hid|].
    csimpl. by rewrite fmap_app, update_all_app, H1.
  - intros (? & (ss & sss & Hy & Hsss & ->) & H). apply bind_ok in Hy as (id & Hid & Hss).
    csimpl in H. rewrite fmap_app, update_all_app in H. apply bind_ok in H as (fs1 & H1 & H).
    exists id. split; [done|]. apply bind_ok. exists fs1. split; [|apply IH; by exists sss].
    apply add_stats_ok. by exists ss.
Qed.

(** The changes of one flow, in order. *)
Definition changes (flow_map : gmap Z nat) (us : list (Z * (Flow → Flow))) (i : nat) (f : Flow) : Flow :=
  foldl (λ f u, if decide (flow_map !! u.1 = Some i) then u.2 f else f) f us.
Lemma update_all_ok flow_map us fs fs' :
  update_all flow_map us fs = Ok fs' ↔
  (∀ u, u ∈ us → is_Some (flow_map !! u.1)) ∧ fs' = imap (changes flow_map us) fs.
Proof.
  revert fs. induction us as [|[id g] us IH]; intros fs; simpl.
  { assert (imap (changes flow_map []) fs = fs) as E.
    { apply list_eq. intros i. rewrite list_lookup_imap. by destruct (fs !! i). }
    rewrite E. split; [intros [= <-]; split; [|done]; intros u Hu; by apply elem_of_nil in Hu|].
    by intros [_ ->]. }
  unfold update_flow. destruct (flow_map !! id) as [k|] eqn:Hk; simpl.
  - rewrite IH. assert (imap (changes flow_map us) (alter g k fs)
                        = imap (changes flow_map ((id, g) :: us)) fs) as ->.
    { apply list_eq. intros i. rewrite !list_lookup_imap, list_lookup_alter.
      destruct (decide (k = i)) as [->|Hne].
      - destruct (fs !! i); [|done]. simpl. f_equal. unfold changes. simpl.
        by rewrite Hk, decide_True.
      - destruct (fs !! i); [|done]. simpl. f_equal. unfold changes. simpl.
        rewrite Hk, decide_False; congruence. }
    split; intros [H ->]; (split; [|done]); intros u Hu.
    + apply elem_of_cons in Hu as [->|Hu]; [simpl; rewrite Hk; by eexists|by apply H].
    + apply H. by right.
  - split; [done|]. intros [H _]. destruct (H (id, g)) as [? ?]; [by left|]. simpl in *. congruence.
Qed.

(** What a flow gets: the last of its entries in the classifier, and the
    statistics of the probes in document order. *)
Definition own_tuples (id : Z) (ts : list (Z * FiveTuple)) : list FiveTuple :=
  (filter (λ p, p.1 = id) ts).*2.
Definition own_stats (id : Z) (ss : list (Z * ProbeFlowStats)) : list ProbeFlowStats :=
  (filter (λ p, p.1 = id) ss).*2.
Definition completed (ts : list (Z * FiveTuple)) (ss : list (Z * ProbeFlowStats)) (f : Flow) : Flow :=
  {| flowId := flowId f; rx_duration := rx_duration f;
     probe_stats_unsorted := probe_stats_unsorted f ++ own_stats (flowId f) ss;
     hopCount := hopCount f; delayMean := delayMean f; packetSizeMean := packetSizeMean f;
     rxBitrate := rxBitrate f; txBitrate := txBitrate f; packetLossRatio := packetLossRatio f;
     flowInterruptionsHistogram := flowInterruptionsHistogram f;
     fiveTuple := match last (own_tuples (flowId f) ts) with
                  | Some t => Some t | None => fiveTuple f end |}.
Lemma completed_fold ts ss f :
  completed ts ss f
  = foldl (λ f s, add_probe s f)
      (match last (own_tuples (flowId f) ts) with Some t => set_five_tuple t f | None => f end)
      (own_stats (flowId f) ss).
Proof.
  assert (∀ l g, foldl (λ f s, add_probe s f) g l
    = {| flowId := flowId g; rx_duration := rx_duration g;
         probe_stats_unsorted := probe_stats_unsorted g ++ l; hopCount := hopCount g;
         delayMean := delayMean g; packetSizeMean := packetSizeMean g; rxBitrate := rxBitrate g;
         txBitrate := txBitrate g; packetLossRatio := packetLossRatio g;
         flowInterruptionsHistogram := flowInterruptionsHistogram g; fiveTuple := fiveTuple g |})
    as Hfold.
  { induction l as [|x l IH]; intros g; simpl; [rewrite app_nil_r; by destruct g|].
    rewrite IH. simpl. by rewrite <-app_assoc. }
  rewrite Hfold. unfold completed. by destruct (last _).
Qed.
(** A later flow has the same id: it gets everything. *)
Definition shadowed (fs : list Flow) (i : nat) (f : Flow) : bool :=
  existsb (λ g, bool_decide (flowId g = flowId f)) (drop (S i) fs).

Lemma position_shadowed fs i f :
  fs !! i = Some f → position fs (flowId f) i ↔ shadowed fs i f = false.
Proof.
  intros Hf. unfold shadowed. split.
  - intros [_ Hlast]. apply not_true_iff_false. intros (g & Hg & Hid)%existsb_exists.
    apply list_elem_of_In, list_elem_of_lookup in Hg as [j Hj]. rewrite lookup_drop in Hj.
    apply Hlast in Hj; [lia|]. by apply bool_decide_eq_true in Hid.
  - intros Hno. split; [by exists f|]. intros j g Hg Hid.
    destruct (decide (j ≤ i)%nat) as [|Hj]; [done|exfalso]. apply not_true_iff_false in Hno.
    apply Hno, existsb_exists. exists g. split; [|by apply bool_decide_eq_true].
    apply list_elem_of_In, list_elem_of_lookup. exists (j - S i)%nat.
    rewrite lookup_drop. rewrite <-Hg. f_equal. lia.
Qed.

Lemma changes_tuples flow_map ts i f id :
  (∀ id', flow_map !! id' = Some i ↔ id' = id) → flowId f = id →
  changes flow_map ((λ p : Z * FiveTuple, (p.1, set_five_tuple p.2)) <$> ts) i f
  = match last (own_tuples id ts) with Some t => set_five_tuple t f | None => f end.
Proof.
  intros Hm Hid. unfold changes, own_tuples. induction ts as [|[k t] ts IH] using rev_ind; [done|].
  rewrite fmap_app, foldl_app, filter_app, fmap_app. simpl. rewrite IH, filter_cons. simpl.
  destruct (decide (k = id)) as [->|Hne].
  - rewrite decide_True by (by apply Hm). simpl. rewrite last_snoc. by destruct (last _).
  - rewrite decide_False; [|rewrite Hm; done]. simpl. by rewrite app_nil_r.
Qed.
Lemma changes_stats flow_map ss i f id :
  (∀ id', flow_map !! id' = Some i ↔ id' = id) →
  changes flow_map ((λ p : Z * ProbeFlowStats, (p.1, add_probe p.2)) <$> ss) i f
  = foldl (λ f s, add_probe s f) f (own_stats id ss).
Proof.
  intros Hm. unfold changes, own_stats. revert f. induction ss as [|[k s] ss IH]; intros f; [done|].
  rewrite filter_cons. csimpl. destruct (decide (k = id)) as [->|Hne].
  - rewrite decide_True by (by apply Hm). simpl. apply IH.
  - rewrite decide_False; [|rewrite Hm; done]. apply IH.
Qed.
Lemma changes_none flow_map us i f :
  (∀ id, flow_map !! id ≠ Some i) → changes flow_map us i f = f.
Proof.
  intros Hm. unfold changes. revert f. induction us as [|u us IH]; intros f; [done|]. simpl.
  rewrite decide_False by done. apply IH.
Qed.

Lemma position_id fs i f id : fs !! i = Some f → position fs id i → id = flowId f.
Proof. intros Hf [(g & Hg & Hid) _]. congruence. Qed.
(** Some flow with the id is the last one. *)
Lemma build_map_known n m fs id :
  is_Some (build_map n m fs !! id) ↔ is_Some (m !! id) ∨ ∃ f, f ∈ fs ∧ flowId f = id.
Proof.
  revert n m. induction fs as [|f fs IH]; intros n m; simpl.
  { split; [by left|]. intros [?|(f & Hf & _)]; [done|by apply elem_of_nil in Hf]. }
  rewrite IH. setoid_rewrite elem_of_cons. destruct (decide (flowId f = id)) as [<-|Hne].
  - rewrite lookup_insert, decide_True by done. split; [|by eauto]. intros _. right. eauto.
  - rewrite lookup_insert_ne by done. naive_solver.
Qed.
Lemma known_id fs id : is_Some (build_map 0 ∅ fs !! id) ↔ ∃ f, f ∈ fs ∧ flowId f = id.
Proof. rewrite build_map_known, lookup_empty. split; [intros [[? [=]]|?]; done|by right]. Qed.

(** The changes of one flow of the list are what completes it. *)
Lemma changes_completed fs ts ss i f :
  fs !! i = Some f →
  changes (build_map 0 ∅ fs) ((λ p : Z * ProbeFlowStats, (p.1, add_probe p.2)) <$> ss) i
    (changes (build_map 0 ∅ fs) ((λ p : Z * FiveTuple, (p.1, set_five_tuple p.2)) <$> ts) i f)
  = if shadowed fs i f then f else completed ts ss f.
Proof.
  intros Hf. destruct (shadowed fs i f) eqn:Hs.
  - assert (∀ id, build_map 0 ∅ fs !! id ≠ Some i) as Hno.
    { intros id H%flow_map_lookup. pose proof (position_id _ _ _ _ Hf H) as ->.
      apply (position_shadowed fs i f Hf) in H. congruence. }
    by rewrite !changes_none.
  - assert (∀ id, build_map 0 ∅ fs !! id = Some i ↔ id = flowId f) as Hm.
    { intros id. rewrite flow_map_lookup. split; [by apply position_id|intros ->].
      by apply (position_shadowed fs i f Hf). }
    rewrite (changes_stats _ ss i _ _ Hm), (changes_tuples _ ts i f _ Hm eq_refl).
    by rewrite completed_fold.
Qed.

(** C27: a simulation is read exactly when it has one classifier, all its
    entries can be read, and every id that the classifier or a probe names is
    the id of a flow; its flows are then those of the document, in order, each
    with the last of its entries in the classifier and the statistics of the
    probes in order; of flows with the same id the last one gets everything. *)
Theorem simulation_flows el fs' :
  Simulation el = Ok fs' ↔
  ∃ c fs ts sss,
    findall el "Ipv4FlowClassifier" = [c] ∧
    each new_flow (findall2 el "FlowStats" "Flow") = Ok fs ∧
    each class_entry (findall c "Flow") = Ok ts ∧
    each probe_entries (findall2 el "FlowProbes" "FlowProbe") = Ok sss ∧
    (∀ id, id ∈ ts.*1 ∨ id ∈ (mjoin sss).*1 → ∃ f, f ∈ fs ∧ flowId f = id) ∧
    fs' = imap (λ i f, if shadowed fs i f then f else completed ts (mjoin sss) f) fs.
Proof.
  assert (∀ fs ts ss, imap (changes (build_map 0 ∅ fs) ((λ p : Z * ProbeFlowStats, (p.1, add_probe p.2)) <$> ss))
      (imap (changes (build_map 0 ∅ fs) ((λ p : Z * FiveTuple, (p.1, set_five_tuple p.2)) <$> ts)) fs)
    = imap (λ i f, if shadowed fs i f then f else completed ts ss f) fs) as Himap.
  { intros fs ts ss. apply list_eq. intros i. rewrite !list_lookup_imap.
    destruct (fs !! i) as [f|] eqn:Hf; [|done]. simpl. f_equal. by apply changes_completed. }
  unfold Simulation. rewrite bind_ok. split.
  - intros (c & Hc & H). apply bind_ok in H as (fs & Hfs & H). apply bind_ok in H as (fs1 & H1 & H).
    apply classify_flows_ok in H1 as (ts & Hts & H1). apply add_probes_ok in H as (sss & Hsss & H).
    apply update_all_ok in H1 as [Hk1 ->]. apply update_all_ok in H as [Hk2 ->].
    exists c, fs, ts, sss. split_and!; try done.
    + destruct (findall el _) as [|? [|]]; try done. by injection Hc as ->.
    + intros id Hid. apply known_id. destruct Hid as [Hid|Hid];
        apply list_elem_of_fmap in Hid as ([k x] & -> & Hin); simpl.
      * apply (Hk1 (k, set_five_tuple x)), list_elem_of_fmap. by exists (k, x).
      * apply (Hk2 (k, add_probe x)), list_elem_of_fmap. by exists (k, x).
  - intros (c & fs & ts & sss & Hc & Hfs & Hts & Hsss & Hk & ->).
    exists c. rewrite Hc. split; [done|]. rewrite Hfs. simpl. apply bind_ok.
    eexists. split; [apply classify_flows_ok; exists ts; split; [done|]; apply update_all_ok; split; [|done]|
                     apply add_probes_ok; exists sss; split; [done|]; apply update_all_ok; split; [|done]].
    + intros u Hu. apply list_elem_of_fmap in Hu as ([k x] & -> & Hin). apply known_id, Hk. left.
      apply list_elem_of_fmap. by exists (k, x).
    + intros u Hu. apply list_elem_of_fmap in Hu as ([k x] & -> & Hin). apply known_id, Hk. right.
      apply list_elem_of_fmap. by exists (k, x).
Qed.

Lemma bind_print {A} s (k : () → io A) out : (print s ≫= k) out = k () (out +:+ s).
Proof. done. Qed.

(** On a document that the parser accepts, [main] reads the root element once,
    when it ends, if it is a FlowMonitor, and prints its flows in order. *)
Theorem main_document e out :
  main (events e, None) out =
  if decide (tag e = "FlowMonitor") then
    match Simulation e with
    | Err x => (out +:+ "Reading XML file  ", Err x)
    | Ok sim => for_each show_flow sim (out +:+ "Reading XML file  " +:+ "." +:+ " done." +:+ nl)
    end
  else (out +:+ "Reading XML file  " +:+ " done." +:+ nl, Ok tt).
Proof.
  unfold main. rewrite bind_print. cbn [fst snd].
  pose proof (read_events_document e (out +:+ "Reading XML file  ")) as H.
  destruct (decide (tag e = "FlowMonitor")).
  - destruct (Simulation e) as [sim|x].
    + erewrite bind_run by exact H. cbv beta iota. rewrite bind_mret.
      rewrite bind_print. simpl. rewrite <-!append_assoc.
      unfold mbind, eff_bind. by destruct (for_each show_flow sim _) as [s' [[]|]].
    + by erewrite bind_run_err by exact H.
  - erewrite bind_run by exact H. cbv beta iota. rewrite bind_mret.
    rewrite bind_print. simpl. by rewrite <-!append_assoc.
Qed.

(** A report of two flows, one of which lost everything. *)
Definition demo_flow (id rx tlast lost : string) : element :=
  Element "Flow" [("flowId", id); ("timeFirstTxPacket", "+0.0ns"); ("timeFirstRxPacket", "+1e6ns");
    ("timeLastTxPacket", "+1e9ns"); ("timeLastRxPacket", tlast); ("delaySum", "+5e6ns");
    ("txBytes", "125000"); ("rxBytes", "62500"); ("txPackets", "10"); ("rxPackets", rx);
    ("lostPackets", lost); ("timesForwarded", "0")] None [].
Definition demo_tuple (id proto : string) : element :=
  Element "Flow" [("flowId", id); ("sourceAddress", "10.1.1.1"); ("destinationAddress", "10.1.1.2");
    ("protocol", proto); ("sourcePort", "49153"); ("destinationPort", "9")] None [].
Definition demo_monitor (proto : string) : element :=
  Element "FlowMonitor" [] None
    [Element "FlowStats" [] None [demo_flow "1" "5" "+1.001e9ns" "5"; demo_flow "2" "0" "+0.0ns" "10"];
     Element "Ipv4FlowClassifier" [] None [demo_tuple "1" "17"; demo_tuple "2" proto]].
Example demo_report :
  main (events (demo_monitor "6"), None) "" =
  ("Reading XML file  . done." +:+ nl
   +:+ "FlowID: 1 (UDP 10.1.1.1/49153 --> 10.1.1.2/9)" +:+ nl
   +:+ tab +:+ "TX bitrate: 1000.00 kbit/s" +:+ nl +:+ tab +:+ "RX bitrate: 500.00 kbit/s" +:+ nl
   +:+ tab +:+ "Mean Delay: 1.00 ms" +:+ nl +:+ tab +:+ "Packet Loss Ratio: 50.00 %" +:+ nl
   +:+ "FlowID: 2 (TCP 10.1.1.1/49153 --> 10.1.1.2/9)" +:+ nl
   +:+ tab +:+ "TX bitrate: 1000.00 kbit/s" +:+ nl +:+ tab +:+ "RX bitrate: None" +:+ nl
   +:+ tab +:+ "Mean Delay: None" +:+ nl +:+ tab +:+ "Packet Loss Ratio: None" +:+ nl, Ok tt).
Proof. vm_compute. reflexivity. Qed.
(** A flow of another protocol ends the report with a KeyError; a document
    whose classifier is for IPv6 cannot be read. *)
Example demo_protocol : (main (events (demo_monitor "1"), None) "").2 = Err KeyError.
Proof. vm_compute. reflexivity. Qed.
Example demo_ipv6 :
  Simulation (Element "FlowMonitor" [] None [Element "Ipv6FlowClassifier" [] None []])
  = Err (ValueError "values to unpack").
Proof. reflexivity. Qed.
