(* ===== verification/VizLoop.v ===== *)
(** * visualizer/core.py: the simulation thread and the main loop
    [SimulationThread.run] and the handlers of the main thread that share a
    lock, an event and a flag with it: [update_view_timeout], [update_model],
    [_start_update_timer], [_on_play_button_toggled], [_quit] and the handlers
    that only take the lock.  Each thread goes from one access of shared state
    to the next; the main thread is a stack of callbacks, because some of them
    run the event loop again before they end.  What the simulator does is not
    looked at: it takes one step, may leave pause messages, and may raise. *)
From S2P Require Import Prelude.

(** ** The two threads *)

(** The points of [SimulationThread.run]. *)
Inductive sim_pc : Type :=
| SWhile    (* while not self.quit *)
| SWait     (* self.go.wait() *)
| SClear    (* self.go.clear() *)
| SCheck    (* if self.quit: break *)
| SAcquire  (* self.lock.acquire() *)
| SRun      (* SimulatorRunUntil *)
| SExtend   (* self.pause_messages.extend *)
| SIdle     (* GLib.idle_add(self.viz.update_model) *)
| SRelease  (* self.lock.release() *)
| SEnded.

(** The points of [update_view_timeout]. *)
Inductive timeout_pc : Type :=
| TTry      (* while not self.simulation.lock.acquire(False) *)
| TPending  (* while Gtk.events_pending(): Gtk.main_iteration() *)
| TView     (* take the messages, update_view, target_time *)
| TRelease (pause_messages : list string)  (* finally, the view was updated *)
| TRaise (pause_messages : list string)    (* finally, update_view raised *)
| TDialog (pause_messages : list string)   (* if pause_messages *)
| TCheck.   (* if not self.play_button.get_active() *)

Inductive quit_pc : Type := QRemove | QFlag | QGo | QJoin.

(** A callback that the main thread has begun.  [FLocked] is a handler that
    acquires the lock, works and releases it: [update_model],
    [set_nodes_of_interest], [add_information_window], [tooltip_query],
    [begin_node_drag], [node_drag_motion].  [FScan] is [autoscale_view], which
    reads the positions of the nodes without the lock.  [FModal] is a dialog
    that runs the event loop until it is answered ([_take_screenshot]).
    [FPeek] is a handler that reads the simulator without the lock, too: the
    OLSR plugin when a node's menu is built, the constructors of the ndnSIM
    windows and of the window of the last packets, and the mode that shows the
    transmissions of all nodes, which counts them; the last three then call a
    method that takes the lock ([locks]). *)
Inductive frame : Type :=
| FTimeout (src : nat) (pc : timeout_pc)
| FLocked (acquired : bool)
| FScan
| FModal
| FQuit (pc : quit_pc)
| FPeek (locks : bool).

Inductive owner : Type := OSim | OMain.

#[export] Instance sim_pc_eq_dec : EqDecision sim_pc.
Proof. solve_decision. Defined.
#[export] Instance owner_eq_dec : EqDecision owner.
Proof. solve_decision. Defined.

(** What can be seen from outside, in order: messages the simulator left, the
    dialog that shows messages, a callback that ended with an exception and
    the messages it had taken, [source_remove] of a source that is gone. *)
Inductive event : Type :=
| EvPause (messages : list string)
| EvDialog (messages : list string)
| EvTraceback (messages : list string)
| EvMissing (src : nat).

Record state : Type := State {
  sim : sim_pc;
  lock : option owner;
  go : bool;
  quit : bool;
  pause_messages : list string;
  stack : list frame;               (* the innermost callback first *)
  running : bool;                   (* Gtk.main_quit was not called *)
  active : bool;                    (* the play button *)
  update_timeout_id : option nat;
  live : list nat;                  (* the timers of GLib *)
  next_id : nat;
  idle : nat;                       (* waiting calls of update_model *)
  autoscale : bool;                 (* the timeout of autoscale_view is due *)
  log : list event;
}.

Definition set_sim (p : sim_pc) (s : state) : state :=
  State p (lock s) (go s) (quit s) (pause_messages s) (stack s) (running s) (active s)
    (update_timeout_id s) (live s) (next_id s) (idle s) (autoscale s) (log s).
Definition set_lock (l : option owner) (s : state) : state :=
  State (sim s) l (go s) (quit s) (pause_messages s) (stack s) (running s) (active s)
    (update_timeout_id s) (live s) (next_id s) (idle s) (autoscale s) (log s).
Definition set_go (b : bool) (s : state) : state :=
  State (sim s) (lock s) b (quit s) (pause_messages s) (stack s) (running s) (active s)
    (update_timeout_id s) (live s) (next_id s) (idle s) (autoscale s) (log s).
Definition set_quit (s : state) : state :=
  State (sim s) (lock s) (go s) true (pause_messages s) (stack s) (running s) (active s)
    (update_timeout_id s) (live s) (next_id s) (idle s) (autoscale s) (log s).
Definition set_messages (m : list string) (s : state) : state :=
  State (sim s) (lock s) (go s) (quit s) m (stack s) (running s) (active s)
    (update_timeout_id s) (live s) (next_id s) (idle s) (autoscale s) (log s).
Definition set_stack (st : list frame) (s : state) : state :=
  State (sim s) (lock s) (go s) (quit s) (pause_messages s) st (running s) (active s)
    (update_timeout_id s) (live s) (next_id s) (idle s) (autoscale s) (log s).
Definition main_quit (s : state) : state :=
  State (sim s) (lock s) (go s) (quit s) (pause_messages s) (stack s) false (active s)
    (update_timeout_id s) (live s) (next_id s) (idle s) (autoscale s) (log s).
Definition set_active (b : bool) (s : state) : state :=
  State (sim s) (lock s) (go s) (quit s) (pause_messages s) (stack s) (running s) b
    (update_timeout_id s) (live s) (next_id s) (idle s) (autoscale s) (log s).
Definition set_timers (id : option nat) (l : list nat) (n : nat) (s : state) : state :=
  State (sim s) (lock s) (go s) (quit s) (pause_messages s) (stack s) (running s) (active s)
    id l n (idle s) (autoscale s) (log s).
Definition set_idle (n : nat) (s : state) : state :=
  State (sim s) (lock s) (go s) (quit s) (pause_messages s) (stack s) (running s) (active s)
    (update_timeout_id s) (live s) (next_id s) n (autoscale s) (log s).
Definition set_scaled (s : state) : state :=
  State (sim s) (lock s) (go s) (quit s) (pause_messages s) (stack s) (running s) (active s)
    (update_timeout_id s) (live s) (next_id s) (idle s) false (log s).
Definition emit (e : event) (s : state) : state :=
  State (sim s) (lock s) (go s) (quit s) (pause_messages s) (stack s) (running s) (active s)
    (update_timeout_id s) (live s) (next_id s) (idle s) (autoscale s) (log s ++ [e]).
Definition push (f : frame) (s : state) : state := set_stack (f :: stack s) s.

(** ** Timers *)

(** The source of a callback that returned a false value goes away. *)
Definition drop_source (src : nat) (s : state) : state :=
  set_timers (update_timeout_id s) (filter (λ x, x ≠ src) (live s)) (next_id s) s.
(** [GLib.source_remove(src)] *)
Definition source_remove (src : nat) (s : state) : state :=
  if decide (src ∈ live s) then drop_source src s else emit (EvMissing src) s.
(** [if self._update_timeout_id is not None: GLib.source_remove(...)] *)
Definition remove_timer (s : state) : state :=
  match update_timeout_id s with Some src => source_remove src s | None => s end.
Definition forget_timer (s : state) : state := set_timers None (live s) (next_id s) s.
Definition _start_update_timer (s : state) : state :=
  let s := remove_timer s in
  set_timers (Some (next_id s)) (next_id s :: live s) (S (next_id s)) s.
(** [play_button.set_active(b)] and its "toggled" handler. *)
Definition _on_play_button_toggled (b : bool) (s : state) : state :=
  let s := set_active b s in
  if b then _start_update_timer s else remove_timer s.

(** [Visualizer.start] has started the thread; the speed control started the
    timer when the window was built. *)
Definition start : state :=
  _start_update_timer (State SWhile None false false [] [] true false None [] 0 0 true []).

(** ** Steps of the simulation thread *)

Inductive sim_step (s : state) : state → Prop :=
| sim_while : sim s = SWhile →
    sim_step s (set_sim (if quit s then SEnded else SWait) s)
| sim_wait : sim s = SWait → go s = true → sim_step s (set_sim SClear s)
| sim_clear : sim s = SClear → sim_step s (set_go false (set_sim SCheck s))
| sim_check : sim s = SCheck →
    sim_step s (set_sim (if quit s then SEnded else SAcquire) s)
| sim_acquire : sim s = SAcquire → lock s = None →
    sim_step s (set_lock (Some OSim) (set_sim SRun s))
| sim_run : sim s = SRun → sim_step s (set_sim SExtend s)
| sim_raise : sim s = SRun → sim_step s (set_lock None (set_sim SEnded s))
| sim_extend m : sim s = SExtend →
    sim_step s (emit (EvPause m) (set_messages (pause_messages s ++ m) (set_sim SIdle s)))
| sim_idle : sim s = SIdle → sim_step s (set_idle (S (idle s)) (set_sim SRelease s))
| sim_release : sim s = SRelease → sim_step s (set_lock None (set_sim SWhile s)).

(** ** Steps of the main thread *)

Definition is_timeout (src : nat) (f : frame) : bool :=
  match f with FTimeout src' _ => bool_decide (src' = src) | _ => false end.

(** What the event loop may call next.  A source whose callback has not
    returned is not called again. *)
Inductive dispatch (s : state) : state → Prop :=
| dispatch_timer src : src ∈ live s → existsb (is_timeout src) (stack s) = false →
    dispatch s (push (FTimeout src TTry) s)
| dispatch_idle n : idle s = S n → dispatch s (push (FLocked false) (set_idle n s))
| dispatch_handler : dispatch s (push (FLocked false) s)
| dispatch_scan : autoscale s = true → dispatch s (push FScan (set_scaled s))
| dispatch_modal : dispatch s (push FModal s)
| dispatch_play : dispatch s (_on_play_button_toggled (negb (active s)) s)
| dispatch_speed : dispatch s (_start_update_timer s)
| dispatch_quit : dispatch s (push (FQuit QRemove) s)
| dispatch_peek b : dispatch s (push (FPeek b) s).

Inductive main_step (s : state) : state → Prop :=
| main_loop s' : stack s = [] → running s = true → dispatch s s' → main_step s s'
| main_try src st : stack s = FTimeout src TTry :: st →
    main_step s (match lock s with
                 | None => set_lock (Some OMain) (set_stack (FTimeout src TView :: st) s)
                 | Some _ => set_stack (FTimeout src TPending :: st) s
                 end)
| main_pending src st s' : stack s = FTimeout src TPending :: st → dispatch s s' →
    main_step s s'
| main_no_pending src st : stack s = FTimeout src TPending :: st →
    main_step s (set_stack (FTimeout src TTry :: st) s)
| main_view src st : stack s = FTimeout src TView :: st →
    main_step s (set_messages [] (set_stack (FTimeout src (TRelease (pause_messages s)) :: st) s))
| main_view_raises src st : stack s = FTimeout src TView :: st →
    main_step s (set_messages [] (set_stack (FTimeout src (TRaise (pause_messages s)) :: st) s))
| main_release src m st : stack s = FTimeout src (TRelease m) :: st →
    main_step s (set_lock None (set_stack (FTimeout src (TDialog m) :: st) s))
| main_raise src m st : stack s = FTimeout src (TRaise m) :: st →
    main_step s (emit (EvTraceback m) (drop_source src (set_lock None (set_stack st s))))
| main_dialog src m st : stack s = FTimeout src (TDialog m) :: st →
    main_step s (let s := set_stack (FTimeout src TCheck :: st) s in
                 match m with
                 | [] => s
                 | _ => let s := emit (EvDialog m) s in
                        if active s then _on_play_button_toggled false s else s
                 end)
| main_check src st : stack s = FTimeout src TCheck :: st →
    main_step s (let s := set_stack st s in
                 if active s then set_go true s else drop_source src (forget_timer s))
| main_acquire st : stack s = FLocked false :: st → lock s = None →
    main_step s (set_lock (Some OMain) (set_stack (FLocked true :: st) s))
| main_locked st : stack s = FLocked true :: st → main_step s (set_lock None (set_stack st s))
| main_scan st : stack s = FScan :: st → main_step s (set_stack st s)
| main_modal st s' : stack s = FModal :: st → dispatch s s' → main_step s s'
| main_answer st : stack s = FModal :: st → main_step s (set_stack st s)
| quit_remove st : stack s = FQuit QRemove :: st →
    main_step s (match update_timeout_id s with
                 | Some _ => forget_timer (remove_timer (set_stack (FQuit QFlag :: st) s))
                 | None => set_stack (FQuit QFlag :: st) s
                 end)
| quit_flag st : stack s = FQuit QFlag :: st →
    main_step s (set_quit (set_stack (FQuit QGo :: st) s))
| quit_go st : stack s = FQuit QGo :: st →
    main_step s (set_go true (set_stack (FQuit QJoin :: st) s))
| quit_join st : stack s = FQuit QJoin :: st → sim s = SEnded →
    main_step s (main_quit (set_stack st s))
| main_peek b st : stack s = FPeek b :: st →
    main_step s (set_stack (if b : bool then FLocked false :: st else st) s).

Definition step (s s' : state) : Prop := sim_step s s' ∨ main_step s s'.
Definition reachable : state → Prop := rtc step start.
(** [Gtk.main] has returned. *)
Definition finished (s : state) : Prop := stack s = [] ∧ running s = false.

(** ** The invariant *)

(** The thread or the callback is between acquiring and releasing the lock. *)
Definition critical (p : sim_pc) : bool :=
  match p with SRun | SExtend | SIdle | SRelease => true | _ => false end.
Definition holds (f : frame) : bool :=
  match f with
  | FTimeout _ (TView | TRelease _ | TRaise _) | FLocked true => true
  | _ => false
  end.
Definition holds_top (st : list frame) : bool := match st with f :: _ => holds f | [] => false end.
(** A callback that runs the event loop. *)
Definition nests (f : frame) : bool :=
  match f with FTimeout _ TPending | FModal => true | _ => false end.
Definition at_go (st : list frame) : bool :=
  match st with FQuit QGo :: _ => true | _ => false end.
Definition at_join (st : list frame) : bool :=
  match st with FQuit QJoin :: _ => true | _ => false end.

(** The messages of the simulator, those that were shown or thrown away, and
    those that the innermost callback has taken. *)
Definition paused (l : list event) : list string :=
  l ≫= λ e, match e with EvPause m => m | _ => [] end.
Definition delivered (l : list event) : list string :=
  l ≫= λ e, match e with EvDialog m | EvTraceback m => m | _ => [] end.
Definition taken (st : list frame) : list string :=
  match st with FTimeout _ (TRelease m | TRaise m | TDialog m) :: _ => m | _ => [] end.

Record inv (s : state) : Prop := {
  inv_lock : lock s = (if critical (sim s) then Some OSim
                       else if holds_top (stack s) then Some OMain else None);
  inv_excl : critical (sim s) && holds_top (stack s) = false;
  inv_nest : Forall (λ f, nests f = true) (tail (stack s));
  inv_quit : quit s = true → at_go (stack s) = true ∨ go s = true ∨ sim s ≠ SWait;
  inv_flag : at_go (stack s) || at_join (stack s) = true → quit s = true;
  inv_end : running s = false → sim s = SEnded;
  inv_messages : paused (log s) = delivered (log s) ++ taken (stack s) ++ pause_messages s;
}.

(** What a handler of the timer changes. *)
Definition same_threads (s s' : state) : Prop :=
  sim s' = sim s ∧ lock s' = lock s ∧ quit s' = quit s ∧ pause_messages s' = pause_messages s ∧
  stack s' = stack s ∧ running s' = running s ∧ go s' = go s ∧
  paused (log s') = paused (log s) ∧ delivered (log s') = delivered (log s).

Lemma same_threads_inv s s' : same_threads s s' → inv s → inv s'.
Proof.
  intros (Hsim & Hlock & Hquit & Hm & Hst & Hr & Hgo & Hp & Hd) [].
  split; rewrite ?Hsim, ?Hlock, ?Hquit, ?Hm, ?Hst, ?Hr, ?Hgo, ?Hp, ?Hd; done.
Qed.
Lemma same_threads_trans s1 s2 s3 : same_threads s1 s2 → same_threads s2 s3 → same_threads s1 s3.
Proof. unfold same_threads. intuition congruence. Qed.

Lemma paused_app l k : paused (l ++ k) = paused l ++ paused k.
Proof. apply bind_app. Qed.
Lemma delivered_app l k : delivered (l ++ k) = delivered l ++ delivered k.
Proof. apply bind_app. Qed.

Lemma source_remove_same src s : same_threads s (source_remove src s).
Proof.
  unfold source_remove, same_threads. case_decide; simpl; [done|].
  rewrite paused_app, delivered_app. simpl. by rewrite !app_nil_r.
Qed.
Lemma remove_timer_same s : same_threads s (remove_timer s).
Proof. unfold remove_timer. destruct (update_timeout_id s); [apply source_remove_same|done]. Qed.
Lemma start_timer_same s : same_threads s (_start_update_timer s).
Proof. apply (remove_timer_same s). Qed.
Lemma toggled_same b s : same_threads s (_on_play_button_toggled b s).
Proof. destruct b; [apply (start_timer_same (set_active true s))|apply (remove_timer_same (set_active false s))]. Qed.

Lemma viz_start_inv : inv start.
Proof. split; simpl; try done; auto. Qed.

(** Nobody has the lock, or the simulation thread has it. *)
Lemma not_holding s : inv s → lock s ≠ Some OMain → holds_top (stack s) = false.
Proof.
  intros [Hl He _ _ _ _ _] H. rewrite Hl in H. destruct (critical (sim s)); [done|].
  by destruct (holds_top (stack s)).
Qed.

Lemma sim_step_inv s s' : inv s → sim_step s s' → inv s'.
Proof.
  intros Hinv Hs. pose proof Hinv as [Hl He Hn Hq Hf Hend Hm].
  assert (sim s ≠ SEnded → running s = true) as Hr.
  { destruct (running s); [done|]. intros []. by apply Hend. }
  destruct Hs as [Hp|Hp Hgo|Hp|Hp|Hp Hfree|Hp|Hp|m Hp|Hp|Hp]; rewrite Hp in *;
    specialize (Hr ltac:(done)); simpl in *; split; simpl; rewrite ?Hr; auto; try done;
    try (intros Q; rewrite ?Q; right; right; by auto); try (by destruct (quit s));
    try (apply not_holding in Hinv; [|congruence]; by rewrite Hinv).
  rewrite paused_app, delivered_app, Hm. simpl. by rewrite !app_nil_r, !app_assoc.
Qed.

(** A callback begins: it does not have the lock yet. *)
Definition begins (f : frame) : bool :=
  match f with
  | FTimeout _ TTry | FLocked false | FScan | FModal | FQuit QRemove | FPeek _ => true
  | _ => false
  end.
Lemma push_inv f s :
  inv s → Forall (λ f, nests f = true) (stack s) → begins f = true → inv (push f s).
Proof.
  intros [Hl He Hn Hq Hf Hend Hm] Hst Hb.
  assert (holds_top (stack s) = false ∧ at_go (stack s) = false ∧ taken (stack s) = [])
    as (Ht & Hg & Hk).
  { destruct Hst as [|[? []|[]| | |[]|[]] st Hx _]; done. }
  rewrite Ht, Hg, Hk in *.
  destruct f as [? []|[]| | |[]|[]]; try done; split; simpl; try done; by rewrite andb_false_r.
Qed.

Lemma dispatch_inv s s' :
  inv s → Forall (λ f, nests f = true) (stack s) → dispatch s s' → inv s'.
Proof.
  intros Hinv Hst [src _ _|n Hn| | | | | | |]; try (by apply push_inv).
  - apply push_inv; [|done..]. by apply (same_threads_inv s).
  - apply push_inv; [|done..]. by apply (same_threads_inv s).
  - eapply same_threads_inv; [apply toggled_same|done].
  - eapply same_threads_inv; [apply start_timer_same|done].
Qed.

(** The innermost callback goes on or ends; nothing of the thread changes. *)
Lemma inv_stack st s :
  inv s → Forall (λ f, nests f = true) (tail st) → holds_top st = holds_top (stack s) →
  at_go st = at_go (stack s) → at_join st = at_join (stack s) → taken st = taken (stack s) →
  inv (set_stack st s).
Proof.
  intros [Hl He Hn Hq Hf Hend Hm] Hst H1 H2 H3 H4.
  split; simpl; rewrite ?H1, ?H2, ?H3, ?H4; done.
Qed.
Lemma nests_top st :
  Forall (λ f, nests f = true) st →
  holds_top st = false ∧ at_go st = false ∧ at_join st = false ∧ taken st = [].
Proof. by intros [|[? []|[]| | |[]|[]] ? ? _]. Qed.
Lemma nests_tail st : Forall (λ f, nests f = true) st → Forall (λ f, nests f = true) (tail st).
Proof. by intros [|? ? _ ?]. Qed.

(** What is below the innermost callback runs the event loop. *)
Lemma inv_below s f st : inv s → stack s = f :: st → Forall (λ f, nests f = true) st.
Proof. intros [_ _ Hn _ _ _ _] Hst. by rewrite Hst in Hn. Qed.
Lemma inv_nesting s f st :
  inv s → stack s = f :: st → nests f = true → Forall (λ f, nests f = true) (stack s).
Proof. intros Hinv Hst Hf. pose proof (inv_below _ _ _ Hinv Hst). rewrite Hst. by constructor. Qed.

(** The innermost callback acquires the lock, or releases it. *)
Lemma inv_acquire st s :
  inv s → lock s = None → Forall (λ f, nests f = true) (tail st) → holds_top st = true →
  at_go (stack s) = false → at_go st = false → at_join st = false → taken st = taken (stack s) →
  inv (set_lock (Some OMain) (set_stack st s)).
Proof.
  intros [Hl He Hn Hq Hf Hend Hm] Hfree Hst H1 H2 H3 H4 H5. rewrite H2 in *.
  assert (critical (sim s) = false) as Hc by (by destruct (critical (sim s)); congruence).
  split; simpl; rewrite ?Hc, ?H1, ?H3, ?H4, ?H5; done.
Qed.
Lemma inv_release st s :
  inv s → holds_top (stack s) = true → Forall (λ f, nests f = true) (tail st) →
  holds_top st = false → at_go (stack s) = false → at_go st = false → at_join st = false →
  taken st = taken (stack s) → inv (set_lock None (set_stack st s)).
Proof.
  intros [Hl He Hn Hq Hf Hend Hm] H0 Hst H1 H2 H3 H4 H5. rewrite H0, H2 in *.
  rewrite andb_true_r in He. split; simpl; rewrite ?He, ?H1, ?H3, ?H4, ?H5; done.
Qed.

(** The view takes the messages. *)
Lemma inv_take src pc st s :
  inv s → stack s = FTimeout src TView :: st →
  pc = TRelease (pause_messages s) ∨ pc = TRaise (pause_messages s) →
  inv (set_messages [] (set_stack (FTimeout src pc :: st) s)).
Proof.
  intros [Hl He Hn Hq Hf Hend Hm] Hst Hpc. rewrite Hst in *. simpl in *.
  destruct Hpc as [-> | ->]; split; simpl; rewrite ?app_nil_r; done.
Qed.
(** The messages that were taken are shown or thrown away. *)
Lemma inv_deliver e m st st' s :
  inv s → stack s = st → taken st = m → paused [e] = [] → delivered [e] = m →
  holds_top st' = holds_top st → at_go st = false → at_go st' = false → at_join st' = false →
  taken st' = [] → Forall (λ f, nests f = true) (tail st') → inv (emit e (set_stack st' s)).
Proof.
  intros [Hl He Hn Hq Hf Hend Hm] <- Hk H1 H2 H3 H4 H5 H6 H7 H8. rewrite H4 in *.
  split; simpl; rewrite ?H3, ?H5, ?H6, ?H7; auto; try done.
  by rewrite paused_app, delivered_app, H1, H2, Hm, Hk, app_nil_r, <-app_assoc.
Qed.

Lemma main_step_inv s s' : inv s → main_step s s' → inv s'.
Proof.
  intros Hinv Hs.
  destruct Hs as [s' Hst Hr Hd|src st Hst|src st s' Hst Hd|src st Hst|src st Hst|src st Hst
    |src m st Hst|src m st Hst|src m st Hst|src st Hst|st Hst Hfree|st Hst|st Hst|st s' Hst Hd
    |st Hst|st Hst|st Hst|st Hst|st Hst Hjoin|b st Hst];
    try (pose proof (inv_below _ _ _ Hinv Hst) as Hn; pose proof (nests_top _ Hn) as (Ht1 & Ht2 & Ht3 & Ht4);
         pose proof (nests_tail _ Hn) as Htl).
  - apply (dispatch_inv s); [done| |done]. by rewrite Hst.
  - destruct (lock s) eqn:Hl; [apply inv_stack|apply inv_acquire]; by rewrite ?Hst.
  - apply (dispatch_inv s); [done| |done]. by eapply inv_nesting.
  - apply inv_stack; by rewrite ?Hst.
  - apply inv_take; auto.
  - apply inv_take; auto.
  - apply inv_release; by rewrite ?Hst.
  - apply (same_threads_inv (emit (EvTraceback m) (set_stack st (set_lock None
      (set_stack (FTimeout src (TDialog m) :: st) s))))); [done|].
    eapply (inv_deliver _ m); [|reflexivity|simpl; by rewrite ?app_nil_r..]. by apply inv_release; rewrite ?Hst.
  - assert (m = [] ∨ m ≠ []) as [->|Hne] by (destruct m; auto).
    + apply inv_stack; by rewrite ?Hst.
    + assert (inv (emit (EvDialog m) (set_stack (FTimeout src TCheck :: st) s))).
      { eapply (inv_deliver _ m); [done|done|simpl; by rewrite ?app_nil_r..]. }
      destruct m as [|x m]; [done|]. cbn [active emit set_stack]. destruct (active s); [|done].
      eapply same_threads_inv; [apply toggled_same|done].
  - assert (inv (set_stack st s)) as [] by (apply inv_stack; by rewrite ?Hst).
    simpl. destruct (active s); split; simpl in *; auto.
  - apply inv_acquire; by rewrite ?Hst.
  - apply inv_release; by rewrite ?Hst.
  - apply inv_stack; by rewrite ?Hst.
  - apply (dispatch_inv s); [done| |done]. by eapply inv_nesting.
  - apply inv_stack; by rewrite ?Hst.
  - assert (inv (set_stack (FQuit QFlag :: st) s)) by (apply inv_stack; by rewrite ?Hst).
    destruct (update_timeout_id s); [|done].
    eapply same_threads_inv; [|done]. apply (remove_timer_same (set_stack (FQuit QFlag :: st) s)).
  - destruct Hinv as [Hl He _ Hq Hf Hend Hm]. rewrite Hst in *. split; simpl in *; auto.
  - destruct Hinv as [Hl He _ Hq Hf Hend Hm]. rewrite Hst in *. split; simpl in *; auto.
  - destruct Hinv as [Hl He _ Hq Hf Hend Hm]. rewrite Hst in *. simpl in *.
    split; simpl; rewrite ?Ht1, ?Ht2, ?Ht3, ?Ht4; auto.
  - apply inv_stack; destruct b; by rewrite ?Hst.
Qed.

Lemma viz_step_inv s s' : inv s → step s s' → inv s'.
Proof. intros Hinv [?|?]; [by eapply sim_step_inv|by eapply main_step_inv]. Qed.
Lemma viz_reachable_inv s : reachable s → inv s.
Proof.
  intros Hr. assert (inv start) as H by exact viz_start_inv. revert H.
  induction Hr as [s|s1 s2 s3 Hs _ IH]; intros H; [done|]. apply IH. by eapply viz_step_inv.
Qed.

(** ** Mutual exclusion *)

(** The callbacks that look at the simulator, and those that take no lock for it. *)
Definition unlocked (f : frame) : bool := match f with FScan | FPeek _ => true | _ => false end.
Definition reads_simulator (f : frame) : bool := holds f || unlocked f.

Lemma inv_holder s f : inv s → f ∈ stack s → holds f = true → ∃ st, stack s = f :: st.
Proof.
  intros [_ _ Hn _ _ _ _] Hf Hh. destruct (stack s) as [|g st]; [by apply elem_of_nil in Hf|].
  apply elem_of_cons in Hf as [<-|Hf]; [by exists st|]. exfalso. simpl in Hn.
  eapply Forall_forall in Hn; [|done]. by destruct f as [? []|[]| | | |].
Qed.


(** ** Progress, and the end of the thread *)

Lemma sim_can_step s :
  inv s → sim s ≠ SEnded → (sim s = SAcquire → lock s = None) → (sim s = SWait → go s = true) →
  ∃ s', sim_step s s'.
Proof.
  intros Hinv He Ha Hw. destruct (sim s) eqn:Hp; [by eexists; eauto using sim_step..|done].
Unshelve. exact [].
Qed.

(** The main thread is stopped only by a lock of the simulation thread, or in
    [join]. *)
Lemma main_can_step s :
  inv s → stack s ≠ [] ∨ running s = true → lock s ≠ Some OSim → at_join (stack s) = false →
  ∃ s', main_step s s'.
Proof.
  intros Hinv Hst Hl Hj. destruct (stack s) as [|f st] eqn:E.
  { destruct Hst as [|Hr]; [done|]. eexists. eapply main_loop; [done..|apply dispatch_speed]. }
  destruct f as [src [| | |m|m|m|]|[]| | |[]|[]]; try done; try (by eexists; eauto using main_step).
  destruct Hinv as [Hlock _ _ _ _ _ _]. rewrite E in Hlock.
  eexists. eapply main_acquire; [done|]. rewrite Hlock in Hl |- *. by destruct (critical (sim s)).
Qed.

Lemma viz_progress s : inv s → finished s ∨ ∃ s', step s s'.
Proof.
  intros Hinv. destruct (at_join (stack s)) eqn:Hj.
  - right. pose proof Hinv as [Hl He Hn Hq Hf Hend Hm].
    destruct (stack s) as [|[| | | |[]|] st] eqn:Hst; try done.
    destruct (decide (sim s = SEnded)) as [H|H]; [by eexists; right; eapply quit_join|].
    destruct (sim_can_step s) as [s' Hs]; [done..| | |by exists s'; left].
    + intros Hp. by rewrite Hl, Hp.
    + intros Hp. destruct (Hq (Hf eq_refl)) as [|[|]]; done.
  - destruct (decide (lock s = Some OSim)) as [Hl|Hl].
    + right. pose proof Hinv as [Hlock _ _ _ _ _ _]. rewrite Hl in Hlock.
      destruct (critical (sim s)) eqn:Hc; [|by destruct (holds_top (stack s))].
      destruct (sim_can_step s) as [s' Hs]; [done|by destruct (sim s)..|by exists s'; left].
    + destruct (decide (stack s = [] ∧ running s = false)) as [H|H]; [by left|right].
      destruct (main_can_step s) as [s' Hs]; [done| |done..|by exists s'; right].
      destruct (stack s), (running s); naive_solver.
Qed.

(** Every sequence of steps reaches [P] in at most [n] steps. *)
Fixpoint within (n : nat) (P : state → Prop) (s : state) : Prop :=
  P s ∨ match n with
        | O => False
        | S n => (∃ s', step s s') ∧ ∀ s', step s s' → within n P s'
        end.

(** How many steps the thread has left once [quit] is set. *)
Definition sim_rank (p : sim_pc) : nat :=
  match p with
  | SEnded => 0 | SWhile | SCheck => 1 | SClear | SRelease => 2 | SWait | SIdle => 3
  | SExtend => 4 | SRun => 5 | SAcquire => 6
  end.
Lemma sim_step_rank s s' :
  quit s = true → sim_step s s' →
  sim_rank (sim s') < sim_rank (sim s) ∧ quit s' = true ∧ stack s' = stack s.
Proof. intros Hq Hs. destruct Hs as [Hp|Hp|Hp|Hp|Hp|Hp|Hp|? Hp|Hp|Hp]; rewrite Hp; simpl; rewrite ?Hq; simpl; (split; [lia|done]). Qed.

Lemma join_within s n :
  inv s → at_join (stack s) = true → sim_rank (sim s) ≤ n → within n (λ s, sim s = SEnded) s.
Proof.
  revert s. induction n as [|n IH]; intros s Hinv Hj Hr; simpl.
  { left. by destruct (sim s); simpl in Hr; try lia. }
  destruct (decide (sim s = SEnded)) as [H|H]; [by left|right].
  assert (quit s = true) as Hq. { apply (inv_flag s Hinv). by rewrite Hj, orb_true_r. }
  split.
  - destruct (viz_progress s Hinv) as [[Hst _]|]; [|done]. by rewrite Hst in Hj.
  - intros s' Hs. pose proof (viz_step_inv _ _ Hinv Hs) as Hinv'. destruct Hs as [Hs|Hs].
    + destruct (sim_step_rank s s' Hq Hs) as (Hlt & _ & Hst).
      apply IH; [done|by rewrite Hst|lia].
    + exfalso. destruct (stack s) as [|[| | | |[]|] st] eqn:Hst; try done.
      destruct Hs; congruence.
Qed.

(** C15: The viewer never deadlocks: as long as [Gtk.main] has not returned
    some thread can go on; when it has returned the simulation thread has
    ended; and whenever [_quit] waits in [join], at most six steps of the
    simulation thread follow, whatever they are, until it has ended. *)
Theorem viz_quits s :
  reachable s →
  (finished s ∨ ∃ s', step s s') ∧
  (finished s → sim s = SEnded) ∧
  (at_join (stack s) = true → within 6 (λ s, sim s = SEnded) s).
Proof.
  intros Hinv%viz_reachable_inv. split_and!; [by apply viz_progress| |].
  - intros [_ Hr]. by apply inv_end.
  - intros Hj. apply join_within; [done..|]. by destruct (sim s); simpl; lia.
Qed.

(** ** Pause messages *)

Definition shown (l : list event) : list string :=
  l ≫= λ e, match e with EvDialog m => m | _ => [] end.
Definition is_traceback (e : event) : bool := match e with EvTraceback _ => true | _ => false end.

Lemma shown_delivered l : existsb is_traceback l = false → shown l = delivered l.
Proof.
  induction l as [|e l IH]; [done|]. csimpl. intros [He Hl]%orb_false_iff.
  unfold shown, delivered in *. csimpl. rewrite IH by done. by destruct e.
Qed.

(** C17: No pause message is lost, repeated or reordered on its way from the
    simulator to the dialog, except that a view update that raises throws the
    messages away that it had taken: the messages left by the simulator are
    those delivered, then those in the hands of the callback, then the list. *)
Theorem pause_messages_conserved s :
  reachable s →
  paused (log s) = delivered (log s) ++ taken (stack s) ++ pause_messages s ∧
  (existsb is_traceback (log s) = false → delivered (log s) = shown (log s)).
Proof.
  intros [_ _ _ _ _ _ Hm]%viz_reachable_inv. split; [done|]. intros H. by rewrite shown_delivered.
Qed.

(** ** Timers *)

(** A step that handles no event inside [update_view_timeout]. *)
Definition calm (s s' : state) : Prop :=
  sim_step s s' ∨
  (main_step s s' ∧
   ∀ src st, stack s = FTimeout src TPending :: st → stack s' = FTimeout src TTry :: st).

Record timer_inv (s : state) : Prop := {
  ti_live : live s = [] ∨ ∃ id, live s = [id] ∧ update_timeout_id s = Some id;
  ti_tail : Forall (λ f, f = FModal) (tail (stack s));
  ti_top : ∀ src pc st, stack s = FTimeout src pc :: st → live s = [] ∨ live s = [src];
}.

Lemma filter_single (src id : nat) :
  filter (λ x, x ≠ src) [id] = if decide (id = src) then [] else [id].
Proof. rewrite filter_cons. repeat case_decide; naive_solver. Qed.

Lemma remove_timer_live s : timer_inv s → live (remove_timer s) = [].
Proof.
  intros [Hl _ _]. unfold remove_timer, source_remove.
  destruct Hl as [Hl|(id & Hl & ->)].
  - destruct (update_timeout_id s); [|done]. case_decide; simpl; by rewrite Hl.
  - rewrite Hl, decide_True by set_solver. simpl. rewrite Hl, filter_single. by case_decide.
Qed.
Lemma remove_timer_id s : update_timeout_id (remove_timer s) = update_timeout_id s.
Proof. unfold remove_timer, source_remove. destruct (update_timeout_id s) eqn:E; [|done]. by case_decide. Qed.

Lemma timer_inv_same s s' :
  live s' = live s → update_timeout_id s' = update_timeout_id s → stack s' = stack s →
  timer_inv s → timer_inv s'.
Proof. intros H1 H2 H3 []. by split; rewrite ?H1, ?H2, ?H3. Qed.

(** No timer of the viewer is left. *)
Lemma timer_inv_none s :
  live s = [] → Forall (λ f, f = FModal) (tail (stack s)) → timer_inv s.
Proof. split; auto. Qed.

Lemma timer_inv_start s :
  timer_inv s → (∀ src pc st, stack s ≠ FTimeout src pc :: st) → timer_inv (_start_update_timer s).
Proof.
  intros Ht Hst. pose proof (remove_timer_live s Ht) as Hl. pose proof Ht as [_ Htl _].
  destruct (remove_timer_same s) as (_ & _ & _ & _ & Hs & _).
  split; simpl; rewrite ?Hl, ?Hs; [by right; eexists|done|]. intros src pc st E. by destruct (Hst src pc st).
Qed.

Lemma modal_not_timeout st src pc k : Forall (λ f, f = FModal) st → st ≠ FTimeout src pc :: k.
Proof. by intros [|f st' -> _]. Qed.

Lemma dispatch_timer_inv s s' :
  timer_inv s → Forall (λ f, f = FModal) (stack s) → dispatch s s' → timer_inv s'.
Proof.
  intros Ht Hst Hd. pose proof Ht as [Hl Htl Htop]. destruct Hd as [src Hin _|n Hn| | | | | | |];
    try (split; simpl; [done|done|]; intros ? ? ? [=]; fail).
  - split; simpl; [done|done|]. intros src' pc st [= <- _ _]. right.
    destruct Hl as [Hl|(id & Hl & _)]; rewrite Hl in *; [by apply elem_of_nil in Hin|].
    by apply list_elem_of_singleton in Hin as ->.
  - unfold _on_play_button_toggled. destruct (negb (active s)).
    + apply timer_inv_start; [by eapply timer_inv_same; [| | |exact Ht]|].
      intros ? ? ?. by apply modal_not_timeout.
    + assert (timer_inv (set_active false s)) as Ht' by (by eapply timer_inv_same; [| | |exact Ht]).
      apply timer_inv_none; [by apply remove_timer_live|].
      by destruct (remove_timer_same (set_active false s)) as (_ & _ & _ & _ & -> & _).
  - apply timer_inv_start; [done|]. intros ? ? ?. by apply modal_not_timeout.
Qed.

(** The innermost callback goes on; the timers stay. *)
Lemma timer_inv_stack st s s' :
  timer_inv s → live s' = live s → update_timeout_id s' = update_timeout_id s → stack s' = st →
  Forall (λ f, f = FModal) (tail st) →
  (∀ src pc k, st = FTimeout src pc :: k → ∃ pc' k', stack s = FTimeout src pc' :: k') →
  timer_inv s'.
Proof.
  intros [Hl Htl Htop] H1 H2 H3 Hst Hf. split; rewrite ?H1, ?H2, ?H3; [done..|].
  intros src pc k Hk. destruct (Hf src pc k Hk) as (pc' & k' & E). by apply (Htop src pc' k').
Qed.

(** The innermost callback ends. *)
Lemma timer_inv_pop st s s' :
  timer_inv s → live s' = live s → update_timeout_id s' = update_timeout_id s → stack s' = st →
  Forall (λ f, f = FModal) st → timer_inv s'.
Proof.
  intros Ht H1 H2 H3 Hst. apply (timer_inv_stack st s); [done..| |].
  - by destruct Hst.
  - intros src pc k Hk. by destruct (modal_not_timeout st src pc k Hst).
Qed.
(** The timer that called the innermost callback goes. *)
Lemma timer_inv_drop src pc st s s' :
  timer_inv s → stack s = FTimeout src pc :: st → live s' = filter (λ x, x ≠ src) (live s) →
  stack s' = st → timer_inv s'.
Proof.
  intros [Hl Htl Htop] Hst H1 H2. rewrite Hst in Htl. simpl in Htl. apply timer_inv_none.
  - rewrite H1. destruct (Htop src pc st Hst) as [-> | ->]; [done|].
    rewrite filter_single. by case_decide.
  - rewrite H2. by destruct Htl.
Qed.

Lemma calm_timer_inv s s' : timer_inv s → calm s s' → timer_inv s'.
Proof.
  intros Ht [Hs|[Hs Hcalm]].
  { destruct Hs; by eapply timer_inv_same; [| | |exact Ht]. }
  pose proof Ht as [Hl Htl Htop].
  destruct Hs as [s' Hst Hr Hd|src st Hst|src st s' Hst Hd|src st Hst|src st Hst|src st Hst
    |src m st Hst|src m st Hst|src m st Hst|src st Hst|st Hst Hfree|st Hst|st Hst|st s' Hst Hd
    |st Hst|st Hst|st Hst|st Hst|st Hst Hjoin|b st Hst]; rewrite Hst in Htl; cbn [tail] in Htl;
    try (eapply timer_inv_stack; [exact Ht|reflexivity|reflexivity|reflexivity|done|];
         rewrite Hst; intros; naive_solver);
    try (by eapply timer_inv_pop; [exact Ht|..]).
  - eapply dispatch_timer_inv; [done| |done]. by rewrite Hst.
  - assert (∀ l pc, timer_inv (set_lock l (set_stack (FTimeout src pc :: st) s))) as H.
    { intros l pc. eapply (timer_inv_stack (FTimeout src pc :: st) s); [done..|].
      rewrite Hst. naive_solver. }
    destruct (lock s); [|done]. by eapply timer_inv_same; [| | |apply (H None TPending)].
  - specialize (Hcalm src st Hst). exfalso. destruct Hd;
      try (apply (f_equal length) in Hcalm; simpl in Hcalm; rewrite Hst in Hcalm; simpl in Hcalm; lia).
    + destruct (toggled_same (negb (active s)) s) as (_ & _ & _ & _ & E & _). congruence.
    + destruct (start_timer_same s) as (_ & _ & _ & _ & E & _). congruence.
  - by eapply timer_inv_drop; [exact Ht|exact Hst|..].
  - assert (timer_inv (set_stack (FTimeout src TCheck :: st) s)) as H.
    { eapply (timer_inv_stack (FTimeout src TCheck :: st) s); [done..|]. rewrite Hst. naive_solver. }
    destruct m as [|x m]; [done|]. cbn [active emit set_stack].
    destruct (active s); [|by eapply timer_inv_same; [| | |exact H]].
    unfold _on_play_button_toggled. set (t := set_active false _).
    assert (timer_inv t) as Ht' by (by eapply timer_inv_same; [| | |exact H]).
    apply timer_inv_none; [by apply remove_timer_live|].
    by destruct (remove_timer_same t) as (_ & _ & _ & _ & -> & _).
  - cbn [active set_stack]. destruct (active s).
    + by eapply timer_inv_pop; [exact Ht|..].
    + by eapply timer_inv_drop; [exact Ht|exact Hst|..].
  - eapply dispatch_timer_inv; [done| |done]. rewrite Hst. by constructor.
  - assert (timer_inv (set_stack (FQuit QFlag :: st) s)) as H.
    { eapply (timer_inv_stack (FQuit QFlag :: st) s); [done..|]. naive_solver. }
    destruct (update_timeout_id s); [|done]. apply timer_inv_none.
    + by apply (remove_timer_live (set_stack (FQuit QFlag :: st) s)).
    + cbn [stack forget_timer set_timers].
      by destruct (remove_timer_same (set_stack (FQuit QFlag :: st) s)) as (_ & _ & _ & _ & -> & _).
  - destruct b; [|by eapply timer_inv_pop; [exact Ht|..]].
    eapply timer_inv_stack; [exact Ht|reflexivity|reflexivity|reflexivity|done|]. naive_solver.
Qed.

(** ** Schedules that can be run *)

(** What the environment decides: which thread goes on, what the simulator
    answers, which event the loop handles. *)
Inductive choice : Type :=
| CSim (m : list string)  (* the thread; the messages of the simulator *)
| CMain                   (* the innermost callback *)
| CRaise                  (* the innermost callback; the update raises *)
| CTimer (src : nat)
| CIdle
| CScan
| CPlay
| CSpeed
| CQuit
| CPeek (locks : bool).

Definition exec_sim (m : list string) (s : state) : option state :=
  match sim s with
  | SWhile => Some (set_sim (if quit s then SEnded else SWait) s)
  | SWait => if go s then Some (set_sim SClear s) else None
  | SClear => Some (set_go false (set_sim SCheck s))
  | SCheck => Some (set_sim (if quit s then SEnded else SAcquire) s)
  | SAcquire => match lock s with
                | None => Some (set_lock (Some OSim) (set_sim SRun s))
                | Some _ => None
                end
  | SRun => Some (set_sim SExtend s)
  | SExtend => Some (emit (EvPause m) (set_messages (pause_messages s ++ m) (set_sim SIdle s)))
  | SIdle => Some (set_idle (S (idle s)) (set_sim SRelease s))
  | SRelease => Some (set_lock None (set_sim SWhile s))
  | SEnded => None
  end.
Definition exec_main (raises : bool) (s : state) : option state :=
  match stack s with
  | FTimeout src TTry :: st =>
      Some (match lock s with
            | None => set_lock (Some OMain) (set_stack (FTimeout src TView :: st) s)
            | Some _ => set_stack (FTimeout src TPending :: st) s
            end)
  | FTimeout src TPending :: st => Some (set_stack (FTimeout src TTry :: st) s)
  | FTimeout src TView :: st =>
      let pc := if raises then TRaise (pause_messages s) else TRelease (pause_messages s) in
      Some (set_messages [] (set_stack (FTimeout src pc :: st) s))
  | FTimeout src (TRelease m) :: st => Some (set_lock None (set_stack (FTimeout src (TDialog m) :: st) s))
  | FTimeout src (TRaise m) :: st =>
      Some (emit (EvTraceback m) (drop_source src (set_lock None (set_stack st s))))
  | FTimeout src (TDialog m) :: st =>
      let s := set_stack (FTimeout src TCheck :: st) s in
      Some (match m with
            | [] => s
            | _ => let s := emit (EvDialog m) s in
                   if active s then _on_play_button_toggled false s else s
            end)
  | FTimeout src TCheck :: st =>
      let s := set_stack st s in
      Some (if active s then set_go true s else drop_source src (forget_timer s))
  | FLocked false :: st =>
      match lock s with
      | None => Some (set_lock (Some OMain) (set_stack (FLocked true :: st) s))
      | Some _ => None
      end
  | FLocked true :: st => Some (set_lock None (set_stack st s))
  | FScan :: st | FModal :: st => Some (set_stack st s)
  | FPeek b :: st => Some (set_stack (if b : bool then FLocked false :: st else st) s)
  | FQuit QRemove :: st =>
      Some (match update_timeout_id s with
            | Some _ => forget_timer (remove_timer (set_stack (FQuit QFlag :: st) s))
            | None => set_stack (FQuit QFlag :: st) s
            end)
  | FQuit QFlag :: st => Some (set_quit (set_stack (FQuit QGo :: st) s))
  | FQuit QGo :: st => Some (set_go true (set_stack (FQuit QJoin :: st) s))
  | FQuit QJoin :: st => if decide (sim s = SEnded) then Some (main_quit (set_stack st s)) else None
  | [] => None
  end.
Definition exec_dispatch (c : choice) (s : state) : option state :=
  match c with
  | CTimer src =>
      if decide (src ∈ live s ∧ existsb (is_timeout src) (stack s) = false)
      then Some (push (FTimeout src TTry) s) else None
  | CIdle => match idle s with S n => Some (push (FLocked false) (set_idle n s)) | O => None end
  | CScan => if autoscale s then Some (push FScan (set_scaled s)) else None
  | CPlay => Some (_on_play_button_toggled (negb (active s)) s)
  | CSpeed => Some (_start_update_timer s)
  | CQuit => Some (push (FQuit QRemove) s)
  | CPeek b => Some (push (FPeek b) s)
  | _ => None
  end.
Definition exec (s : state) (c : choice) : option state :=
  match c with
  | CSim m => exec_sim m s
  | CMain => exec_main false s
  | CRaise => exec_main true s
  | _ =>
      match stack s with
      | [] => if running s then exec_dispatch c s else None
      | f :: _ => if nests f then exec_dispatch c s else None
      end
  end.
Fixpoint exec_all (s : state) (cs : list choice) : option state :=
  match cs with [] => Some s | c :: cs => exec s c ≫= λ s, exec_all s cs end.

Lemma exec_sim_sound m s s' : exec_sim m s = Some s' → sim_step s s'.
Proof.
  unfold exec_sim. destruct (sim s) eqn:Hp; try (intros [= <-]; by constructor).
  - destruct (go s) eqn:Hg; intros [= <-]. by constructor.
  - destruct (lock s) eqn:Hl; intros [= <-]. by constructor.
Qed.
Lemma exec_main_sound b s s' : exec_main b s = Some s' → main_step s s'.
Proof.
  unfold exec_main. destruct (stack s) as [|[src [| | |m|m|m|]|[]| | |[]|b'] st] eqn:Hst; intros H;
    try (destruct b; injection H as <-; eauto using main_step; fail);
    try (injection H as <-; eauto using main_step; fail); try done.
  - injection H as <-. by apply (main_check s src).
  - destruct (lock s) eqn:Hl; [done|]. injection H as <-. eauto using main_step.
  - case_decide; [|done]. injection H as <-. eauto using main_step.
Qed.
Lemma exec_dispatch_sound c s s' : exec_dispatch c s = Some s' → dispatch s s'.
Proof.
  destruct c; simpl; intros H; repeat case_match; try done; try case_decide; try done;
    injection H as <-; try naive_solver eauto using dispatch; by econstructor; destruct_and?.
Qed.
Lemma exec_sound s c s' : exec s c = Some s' → step s s'.
Proof.
  assert ((match stack s with
           | [] => if running s then exec_dispatch c s else None
           | f :: _ => if nests f then exec_dispatch c s else None
           end) = Some s' → main_step s s') as Hd.
  { destruct (stack s) as [|f st] eqn:Hst; intros H.
    - destruct (running s) eqn:Hr; [|done]. eauto using main_step, exec_dispatch_sound.
    - destruct (nests f) eqn:Hn; [|done]. apply exec_dispatch_sound in H.
      destruct f as [? []|[]| | |[]|[]]; try done; eauto using main_step. }
  destruct c; simpl; intros H; try (right; by apply Hd); [left|right..];
    eauto using exec_sim_sound, exec_main_sound.
Qed.
Lemma exec_all_reachable cs s s' : reachable s → exec_all s cs = Some s' → reachable s'.
Proof.
  revert s. induction cs as [|c cs IH]; intros s Hr H; simpl in H; [by injection H as <-|].
  apply bind_Some in H as (s1 & H1 & H2). apply (IH s1); [|done].
  apply exec_sound in H1. by eapply rtc_r.
Qed.

Lemma start_reaches cs s : exec_all start cs = Some s → reachable s.
Proof. apply exec_all_reachable. constructor. Qed.

(** The view is updated once by timer [src], and then a go is given. *)
Definition tick (src : nat) : list choice := [CTimer src; CMain; CMain; CMain; CMain; CMain].
Definition sim_until_run : list choice := replicate 5 (CSim []).
(** The timer fires while the simulator runs; inside its event loop the user
    pauses and changes the speed; then the user plays again. *)
Definition two_timers : list choice :=
  [CPlay] ++ tick 1 ++ sim_until_run
  ++ [CTimer 1; CMain; CPlay; CSpeed; CMain] ++ replicate 4 (CSim [])
  ++ [CMain; CMain; CMain; CMain; CMain] ++ [CPlay].

(** As long as no event is handled inside [update_view_timeout], at most
    one update timer is alive and it is the one whose id is kept; but a pause
    and a change of speed that are handled there leave, once the user plays
    again, two timers that both drive the simulation. *)
Theorem update_timers :
  (∀ s, rtc calm start s →
     live s = [] ∨ ∃ id, live s = [id] ∧ update_timeout_id s = Some id) ∧
  (∃ s, reachable s ∧ active s = true ∧ stack s = [] ∧ running s = true ∧
        live s = [3; 2] ∧ update_timeout_id s = Some 3).
Proof.
  split.
  - intros s Hs. cut (timer_inv s); [by intros []|].
    assert (timer_inv start) as H by (split; simpl; [right; by eexists|done..]). revert H.
    induction Hs as [s|s1 s2 s3 Hs _ IH]; intros H; [done|]. apply IH. by eapply calm_timer_inv.
  - destruct (exec_all start two_timers) as [s|] eqn:E; [|by vm_compute in E].
    exists s. split; [by eapply start_reaches|]. vm_compute in E. by injection E as <-.
Qed.

(** Pausing keeps the id of the timer that it removed: playing again removes a
    source that is gone. *)
Example stale_timer :
  log <$> exec_all start [CPlay; CPlay; CPlay] = Some [EvMissing 1].
Proof. reflexivity. Qed.
(** A view update that raises ends the timer: the button stays pressed, nothing
    moves any more, and a pause message that had arrived is gone. *)
Example frozen_view :
  (λ s, (active s, live s, stack s, pause_messages s, log s)) <$>
    exec_all start ([CPlay] ++ tick 1 ++ sim_until_run
      ++ [CSim []; CSim ["stop"]; CSim []; CSim []; CTimer 1; CMain; CRaise; CMain])
  = Some (true, [], [], [], [EvPause ["stop"]; EvTraceback ["stop"]]).
Proof. reflexivity. Qed.
(** [autoscale_view] reads the positions while the simulator moves the nodes. *)
Example autoscale_races :
  (λ s, (sim s, lock s, stack s)) <$>
    exec_all start ([CPlay] ++ tick 1 ++ sim_until_run ++ [CScan])
  = Some (SRun, Some OSim, [FScan]).
Proof. reflexivity. Qed.
(** A window is built while the simulator runs: its constructor looks the node
    up, and only then waits for the lock to be added to the list. *)
Example constructor_races :
  (λ s, (sim s, lock s, stack s)) <$>
    exec_all start ([CPlay] ++ tick 1 ++ sim_until_run ++ [CPeek true])
  = Some (SRun, Some OSim, [FPeek true]).
Proof. reflexivity. Qed.
Definition demo_quit : list choice :=
  [CPlay] ++ tick 1 ++ sim_until_run ++ [CTimer 1; CMain; CQuit; CMain; CMain; CMain].
Example quit_inside_update :
  (λ s, (stack s, sim s)) <$> exec_all start demo_quit
  = Some ([FQuit QJoin; FTimeout 1 TPending], SRun).
Proof. reflexivity. Qed.

Definition demo_state : state := default start (exec_all start demo_quit).
Lemma demo_reachable : reachable demo_state.
Proof.
  unfold demo_state. destruct (exec_all start demo_quit) eqn:E; [by eapply start_reaches|constructor].
Qed.

Lemma viz_quits_witness :
  at_join (stack demo_state) = true ∧ within 6 (λ s, sim s = SEnded) demo_state.
Proof.
  split; [reflexivity|].
  exact (proj2 (proj2 (viz_quits demo_state demo_reachable)) eq_refl).
Defined.

Definition demo_messages : list choice :=
  [CPlay] ++ tick 1 ++ sim_until_run
  ++ [CSim []; CSim ["a"; "b"]; CSim []; CSim []; CTimer 1; CMain; CMain; CMain; CMain].
Definition demo_shown : state := default start (exec_all start demo_messages).
Lemma pause_messages_conserved_witness :
  reachable demo_shown ∧ paused (log demo_shown) = ["a"; "b"] ∧
  delivered (log demo_shown) = ["a"; "b"] ∧ shown (log demo_shown) = ["a"; "b"].
Proof.
  assert (reachable demo_shown) as Hr.
  { unfold demo_shown. destruct (exec_all start demo_messages) eqn:E; [by eapply start_reaches|constructor]. }
  destruct (pause_messages_conserved demo_shown Hr) as [Hp Hs]. split; [exact Hr|].
  split; [exact Hp|]. split; [reflexivity|]. rewrite <-Hs; reflexivity.
Defined.
