(* ===== verification/VizNodes.v ===== *)
(** * visualizer: base.py, svgitem.py and the drawn objects of core.py
    Coordinates and device traits ([base]), the SVG icon ([SvgItem]), [Node],
    [Channel] and [WiredLink] with what they keep on the canvas, and the scene
    of the visualizer that owns them.  Objects that point to each other are
    entries of the scene: a node by its index, a channel by its id, a link by
    its number.  The canvas is what was last set on its items; a path is kept
    as the numbers that its text prints. *)
From S2P Require Import Prelude PyStr PyNum PyFloat.
#[local] Open Scope Z_scope.

(** ** base.py *)

Definition PIXELS_PER_METER : float := lit 3 0.
Definition transform_distance_simulation_to_canvas (d : float) : float := fmul d PIXELS_PER_METER.
Definition transform_point_simulation_to_canvas (x y : float) : float * float :=
  (fmul x PIXELS_PER_METER, fmul y PIXELS_PER_METER).
Definition fdiv_ppm (d : float) : float := SpecFloat.SFdiv prec64 emax64 d PIXELS_PER_METER.
Definition transform_distance_canvas_to_simulation (d : float) : float := fdiv_ppm d.
Definition transform_point_canvas_to_simulation (x y : float) : float * float :=
  (fdiv_ppm x, fdiv_ppm y).

(** The traits of a device type; an unknown type is registered as a wireless
    one, with a warning.  The second component of [lookup_netdevice_traits]
    says whether it warns. *)
Record NetDeviceTraits := { is_wireless : option bool; is_virtual : bool }.
Definition new_traits (wireless : option bool) (virtual : bool) : res NetDeviceTraits :=
  _ ← py_assert (virtual || bool_decide (wireless ≠ None));
  Ok {| is_wireless := wireless; is_virtual := virtual |}.
Definition lookup_netdevice_traits (class_type : string) (traits : gmap string NetDeviceTraits)
    : gmap string NetDeviceTraits * (NetDeviceTraits * bool) :=
  match traits !! class_type with
  | Some t => (traits, (t, false))
  | None =>
      let t := {| is_wireless := Some true; is_virtual := false |} in
      (<[class_type := t]> traits, (t, true))
  end.
Definition wired : NetDeviceTraits := {| is_wireless := Some false; is_virtual := false |}.
Definition wireless : NetDeviceTraits := {| is_wireless := Some true; is_virtual := false |}.
Definition virtual_ (w : option bool) : NetDeviceTraits := {| is_wireless := w; is_virtual := true |}.
Definition netdevice_traits (ns_mesh_loaded : bool) : gmap string NetDeviceTraits :=
  let t := list_to_map
    [("PointToPointNetDevice", wired); ("CsmaNetDevice", wired); ("WifiNetDevice", wireless);
     ("BridgeNetDevice", virtual_ None); ("LoopbackNetDevice", virtual_ (Some false));
     ("SubscriberStationNetDevice", wireless); ("BaseStationNetDevice", wireless);
     ("LteUeNetDevice", wireless); ("LteEnbNetDevice", wireless)] in
  if ns_mesh_loaded then <["MeshPointDevice" := virtual_ None]> t else t.

(** ** svgitem.py *)

(** The picture has the size [handle_width] by [handle_height]. *)
Record SvgItem := {
  sv_x : float; sv_y : float;
  sv_sx : float; sv_sy : float;
  handle_width : float; handle_height : float;
  sv_width : float; sv_height : float;
  custom_width : option float; custom_height : option float;
}.
Definition one : float := lit 1 0.
Definition new_svg_item (x y hw hh : float) : SvgItem :=
  {| sv_x := x; sv_y := y; sv_sx := one; sv_sy := one; handle_width := hw; handle_height := hh;
     sv_width := hw; sv_height := hh; custom_width := None; custom_height := None |}.
Definition resized (s : SvgItem) (w h sx sy : float) : SvgItem :=
  {| sv_x := sv_x s; sv_y := sv_y s; sv_sx := sx; sv_sy := sy; handle_width := handle_width s;
     handle_height := handle_height s; sv_width := w; sv_height := h;
     custom_width := custom_width s; custom_height := custom_height s |}.
Definition _size_changed (s : SvgItem) : res SvgItem :=
  match custom_width s, custom_height s with
  | None, None => Ok (resized s (handle_width s) (handle_height s) one one)
  | Some w, None =>
      sx ← fdiv w (handle_width s); Ok (resized s w (fmul (handle_height s) sx) sx sx)
  | None, Some h =>
      sy ← fdiv h (handle_height s); Ok (resized s (fmul (handle_width s) sy) h sy sy)
  | Some w, Some h =>
      sx ← fdiv w (handle_width s);
      sy ← fdiv h (handle_height s); Ok (resized s w h sx sy)
  end.
Definition svg_set_position (x y : float) (s : SvgItem) : SvgItem :=
  {| sv_x := x; sv_y := y; sv_sx := sv_sx s; sv_sy := sv_sy s; handle_width := handle_width s;
     handle_height := handle_height s; sv_width := sv_width s; sv_height := sv_height s;
     custom_width := custom_width s; custom_height := custom_height s |}.
Definition svg_set_width (w : float) (s : SvgItem) : res SvgItem :=
  _size_changed
    {| sv_x := sv_x s; sv_y := sv_y s; sv_sx := sv_sx s; sv_sy := sv_sy s;
       handle_width := handle_width s; handle_height := handle_height s; sv_width := sv_width s;
       sv_height := sv_height s; custom_width := Some w; custom_height := custom_height s |}.
Definition svg_set_height (h : float) (s : SvgItem) : res SvgItem :=
  _size_changed
    {| sv_x := sv_x s; sv_y := sv_y s; sv_sx := sv_sx s; sv_sy := sv_sy s;
       handle_width := handle_width s; handle_height := handle_height s; sv_width := sv_width s;
       sv_height := sv_height s; custom_width := custom_width s; custom_height := Some h |}.
(** [do_get_property('width')] also sets both sizes to those of the picture. *)
Definition svg_get_width (s : SvgItem) : SvgItem * float :=
  (resized s (handle_width s) (handle_height s) (sv_sx s) (sv_sy s), handle_width s).
(** [do_simple_update]: the bounds. *)
Definition svg_bounds (s : SvgItem) : float * float * float * float :=
  (sv_x s, sv_y s, fadd (sv_x s) (sv_width s), fadd (sv_y s) (sv_height s)).
Definition do_simple_is_item_at (x y : float) (s : SvgItem) : bool :=
  negb ((flt x (sv_x s) || flt (fadd (sv_x s) (sv_width s)) x)
        || (flt y (sv_y s) || flt (fadd (sv_y s) (sv_height s)) y)).

(** ** The objects *)

(** The properties of the ellipse of a node or a channel. *)
Record ellipse := {
  center_x : float; center_y : float;
  radius_x : float; radius_y : float;
  line_width : float;
  fill_color_rgba : Z;
  stroke_color : string;
}.
Record label_item := { label_text : string; label_x : float; label_y : float }.

Record Node := {
  node_index : Z;
  canvas_item : ellipse;
  links : list nat;
  selected : bool;
  highlighted : bool;
  color : Z;
  size : float;
  svg_item : option (SvgItem * (float * float));  (* with its alignment *)
  label : option string;
  label_canvas_item : option label_item;
}.
Record Channel := {
  channel_item : ellipse;
  channel_links : list nat;
}.
Inductive link_end : Type := ENode (i : Z) | EChannel (c : Z).
#[export] Instance link_end_eq_dec : EqDecision link_end.
Proof. solve_decision. Defined.
(** A [WiredLink], or a link that a plugin adds to the links of a node: one
    that has no second end is not drawn. *)
Record Link := {
  node1 : Z;
  node2 : option link_end;
  points : option (float * float * float * float);
}.
#[export] Instance link_eq_dec : EqDecision Link.
Proof. solve_decision. Defined.

(** The objects of the visualizer and the canvas.  [bounds_work] is false for
    a version of GooCanvas whose [get_bounds] does not answer four numbers. *)
Record scene := {
  nodes : list (Z * Node);
  channels : list (Z * Channel);
  all_links : list Link;
  bounds : float * float * float * float;
  bounds_work : bool;
}.

(** ** Updates *)

Definition set_nodes (ns : list (Z * Node)) (s : scene) : scene :=
  {| nodes := ns; channels := channels s; all_links := all_links s; bounds := bounds s;
     bounds_work := bounds_work s |}.
Definition set_channels (cs : list (Z * Channel)) (s : scene) : scene :=
  {| nodes := nodes s; channels := cs; all_links := all_links s; bounds := bounds s;
     bounds_work := bounds_work s |}.
Definition set_links (ls : list Link) (s : scene) : scene :=
  {| nodes := nodes s; channels := channels s; all_links := ls; bounds := bounds s;
     bounds_work := bounds_work s |}.
Definition set_canvas_bounds (b : float * float * float * float) (s : scene) : scene :=
  {| nodes := nodes s; channels := channels s; all_links := all_links s; bounds := b;
     bounds_work := bounds_work s |}.
(** A change of the attributes of one object. *)
Definition upd {A} (k : Z) (f : A → A) (d : list (Z * A)) : list (Z * A) :=
  (λ e, if decide (e.1 = k) then (e.1, f e.2) else e) <$> d.
Definition upd_node (i : Z) (f : Node → Node) (s : scene) : scene := set_nodes (upd i f (nodes s)) s.
Definition upd_channel (c : Z) (f : Channel → Channel) (s : scene) : scene :=
  set_channels (upd c f (channels s)) s.

Definition with_item (e : ellipse) (n : Node) : Node :=
  {| node_index := node_index n; canvas_item := e; links := links n; selected := selected n;
     highlighted := highlighted n; color := color n; size := size n; svg_item := svg_item n;
     label := label n; label_canvas_item := label_canvas_item n |}.
Definition with_links (l : list nat) (n : Node) : Node :=
  {| node_index := node_index n; canvas_item := canvas_item n; links := l; selected := selected n;
     highlighted := highlighted n; color := color n; size := size n; svg_item := svg_item n;
     label := label n; label_canvas_item := label_canvas_item n |}.
Definition with_state (sel hi : bool) (c : Z) (sz : float) (n : Node) : Node :=
  {| node_index := node_index n; canvas_item := canvas_item n; links := links n; selected := sel;
     highlighted := hi; color := c; size := sz; svg_item := svg_item n; label := label n;
     label_canvas_item := label_canvas_item n |}.
Definition with_svg (v : option (SvgItem * (float * float))) (n : Node) : Node :=
  {| node_index := node_index n; canvas_item := canvas_item n; links := links n;
     selected := selected n; highlighted := highlighted n; color := color n; size := size n;
     svg_item := v; label := label n; label_canvas_item := label_canvas_item n |}.
Definition with_label (l : option string) (v : option label_item) (n : Node) : Node :=
  {| node_index := node_index n; canvas_item := canvas_item n; links := links n;
     selected := selected n; highlighted := highlighted n; color := color n; size := size n;
     svg_item := svg_item n; label := l; label_canvas_item := v |}.

Definition centered (x y : float) (e : ellipse) : ellipse :=
  {| center_x := x; center_y := y; radius_x := radius_x e; radius_y := radius_y e;
     line_width := line_width e; fill_color_rgba := fill_color_rgba e; stroke_color := stroke_color e |}.
Definition get_position (e : ellipse) : float * float := (center_x e, center_y e).

(** ** Links *)

Definition end_position (s : scene) (e : link_end) : option (float * float) :=
  match e with
  | ENode i => n ← dict_get (nodes s) i; Some (get_position (canvas_item n))
  | EChannel c => ch ← dict_get (channels s) c; Some (get_position (channel_item ch))
  end.
(** [update_points] of a link: a link without a second end stays as it is. *)
Definition link_points (s : scene) (l : Link) : option (float * float * float * float) :=
  e ← node2 l;
  '(x1, y1) ← end_position s (ENode (node1 l));
  '(x2, y2) ← end_position s e;
  Some (x1, y1, x2, y2).
Definition moved_link (s : scene) (l : Link) : Link :=
  match link_points s l with
  | Some p => {| node1 := node1 l; node2 := node2 l; points := Some p |}
  | None => l
  end.
Definition update_points (k : nat) (s : scene) : scene :=
  set_links (alter (moved_link s) k (all_links s)) s.
Definition update_links (ks : list nat) (s : scene) : scene :=
  foldl (λ s k, update_points k s) s ks.

(** ** class Node *)

(** The part of [_update_appearance] that paints the ellipse. *)
Definition painted (n : Node) : ellipse :=
  let sz := transform_distance_simulation_to_canvas (size n) in
  let alpha := match svg_item n with Some _ => 0x80 | None => 0xff end in
  let e := canvas_item n in
  {| center_x := center_x e; center_y := center_y e; radius_x := sz; radius_y := sz;
     line_width := if selected n then fmul sz (lit 3 (-1)) else fmul sz (lit 15 (-2));
     fill_color_rgba := Z.lor (Z.land (color n) 0xffffff00) alpha;
     stroke_color := if highlighted n then "yellow" else "black" |}.
Definition paint (n : Node) : Node := with_item (painted n) n.

(** [_update_svg_position] *)
Definition _update_svg_position (x y : float) (n : Node) : Node :=
  match svg_item n with
  | None => n
  | Some (v, (ax, ay)) =>
      with_svg (Some (svg_set_position (fsub x (fmul (fsub one ax) (sv_width v)))
                        (fsub y (fmul (fsub one ay) (sv_height v))) v, (ax, ay))) n
  end.
Definition move_label (x y : float) (n : Node) : Node :=
  match label_canvas_item n with
  | None => n
  | Some v =>
      with_label (label n)
        (Some {| label_text := label_text v; label_x := x; label_y := fadd y (fmul (size n) (float_int 3)) |}) n
  end.
(** The bounds of the canvas grow to the point: a component is set anew when
    [min] or [max] takes the coordinate and it differs from the bound. *)
Definition grow_min (x b : float) : float * bool := if flt b x then (b, false) else (x, negb (feqb x b)).
Definition grow_max (x b : float) : float * bool := if flt x b then (b, false) else (x, negb (feqb x b)).
Definition extend_bounds (x y : float) (s : scene) : scene :=
  if bounds_work s then
    let '(min_x, min_y, max_x, max_y) := bounds s in
    let '(x1, c1) := grow_min x min_x in
    let '(y1, c2) := grow_min y min_y in
    let '(x2, c3) := grow_max x max_x in
    let '(y2, c4) := grow_max y max_y in
    if c1 || c2 || c3 || c4 then set_canvas_bounds (x1, y1, x2, y2) s else s
  else s.
Definition set_position (i : Z) (x y : float) (s : scene) : scene :=
  let s := upd_node i (λ n, _update_svg_position x y (with_item (centered x y (canvas_item n)) n)) s in
  let s := match dict_get (nodes s) i with Some n => update_links (links n) s | None => s end in
  extend_bounds x y (upd_node i (move_label x y) s).
(** [_update_appearance]: a label is created when it is first shown, and put
    where the node is. *)
Definition show_label (n : Node) : Node :=
  match label n with
  | None => n
  | Some text =>
      let v := default {| label_text := ""; label_x := fzero; label_y := fzero |} (label_canvas_item n) in
      with_label (label n) (Some {| label_text := text; label_x := label_x v; label_y := label_y v |}) n
  end.
Definition _update_appearance (i : Z) (s : scene) : scene :=
  let s := upd_node i (λ n, show_label (paint n)) s in
  match dict_get (nodes s) i with
  | Some n =>
      match label n with
      | Some _ => let '(x, y) := get_position (canvas_item n) in set_position i x y s
      | None => s
      end
  | None => s
  end.

Definition set_selected (b : bool) (i : Z) (s : scene) : scene :=
  _update_appearance i (upd_node i (λ n, with_state b (highlighted n) (color n) (size n) n) s).
Definition set_highlighted (b : bool) (i : Z) (s : scene) : scene :=
  _update_appearance i (upd_node i (λ n, with_state (selected n) b (color n) (size n) n) s).
Definition set_size (sz : float) (i : Z) (s : scene) : scene :=
  _update_appearance i (upd_node i (λ n, with_state (selected n) (highlighted n) (color n) sz n) s).
Definition set_color (c : Z) (i : Z) (s : scene) : scene :=
  _update_appearance i (upd_node i (λ n, with_state (selected n) (highlighted n) c (size n) n) s).
(** A named color has 16 bits for each component. *)
Definition rgba_of_color (red green blue : Z) : Z :=
  Z.lor (Z.lor (Z.lor (Z.shiftl (Z.shiftr red 8) 24) (Z.shiftl (Z.shiftr green 8) 16))
    (Z.shiftl (Z.shiftr blue 8) 8)) 0xff.
(** [isinstance(label, basestring)]: Python 3 has no such name. *)
Definition set_label (python3 : bool) (text : string) (i : Z) (s : scene) : res scene :=
  if python3 then Err (PyException "NameError")
  else Ok (_update_appearance i (upd_node i (λ n, with_label (Some text) (label_canvas_item n) n) s)).
(** [set_svg_icon], of a picture of the given size. *)
Definition set_svg_icon (hw hh : float) (width height : option float) (ax ay : float) (i : Z)
    (s : scene) : res scene :=
  match width, height with
  | None, None => Err (ValueError "either width or height must be given")
  | _, _ =>
      match dict_get (nodes s) i with
      | None => Err KeyError
      | Some n =>
          let '(x, y) := get_position (canvas_item n) in
          let v := new_svg_item x y hw hh in
          v ← (match width with
               | Some w => svg_set_width (transform_distance_simulation_to_canvas w) v
               | None => Ok v
               end);
          v ← (match height with
               | Some h => svg_set_height (transform_distance_simulation_to_canvas h) v
               | None => Ok v
               end);
          Ok (_update_appearance i
                (upd_node i (λ n, _update_svg_position x y (with_svg (Some (v, (ax, ay))) n)) s))
      end
  end.

(** ** class Channel, and the objects of the visualizer *)

Definition blank : ellipse :=
  {| center_x := fzero; center_y := fzero; radius_x := fzero; radius_y := fzero;
     line_width := fzero; fill_color_rgba := 0; stroke_color := "" |}.
Definition new_node (i : Z) : Node :=
  paint {| node_index := i; canvas_item := blank; links := []; selected := false;
           highlighted := false; color := 0x808080ff; size := one; svg_item := None;
           label := None; label_canvas_item := None |}.
Definition new_channel : Channel :=
  {| channel_item := {| center_x := fzero; center_y := fzero; radius_x := lit 30 0;
       radius_y := lit 30 0; line_width := lit 2 0; fill_color_rgba := 0xffffffff;
       stroke_color := "grey" |}; channel_links := [] |}.
Definition channel_set_position (c : Z) (x y : float) (s : scene) : scene :=
  let s := upd_channel c (λ ch, {| channel_item := centered x y (channel_item ch);
                                    channel_links := channel_links ch |}) s in
  match dict_get (channels s) c with Some ch => update_links (channel_links ch) s | None => s end.

(** [get_node] and [get_channel] create what is not there yet. *)
Definition get_node (i : Z) (s : scene) : scene :=
  match dict_get (nodes s) i with Some _ => s | None => set_nodes (nodes s ++ [(i, new_node i)]) s end.
Definition get_channel (c : Z) (s : scene) : scene :=
  match dict_get (channels s) c with
  | Some _ => s
  | None => set_channels (channels s ++ [(c, new_channel)]) s
  end.
Definition add_link (k : nat) (e : link_end) (s : scene) : scene :=
  match e with
  | ENode i => upd_node i (λ n, with_links (links n ++ [k]) n) s
  | EChannel c =>
      upd_channel c (λ ch, {| channel_item := channel_item ch;
                               channel_links := channel_links ch ++ [k] |}) s
  end.
(** [WiredLink(node, other)]: the link joins the links of both ends. *)
Definition create_link (i : Z) (e : link_end) (s : scene) : scene :=
  let k := length (all_links s) in
  add_link k e (add_link k (ENode i)
    (set_links (all_links s ++ [{| node1 := i; node2 := Some e; points := None |}]) s)).

(** ** Lookups after a change *)

Lemma dict_get_upd {A} k (f : A → A) d k' :
  dict_get (upd k f d) k' = if decide (k = k') then f <$> dict_get d k' else dict_get d k'.
Proof.
  induction d as [|[j a] d IH]; csimpl; [by case_decide|].
  repeat (case_decide; simpl in *; subst); naive_solver.
Qed.
Lemma dict_get_snoc {A} (d : list (Z * A)) k a k' :
  dict_get d k = None →
  dict_get (d ++ [(k, a)]) k' = if decide (k = k') then Some a else dict_get d k'.
Proof.
  intros Hk. induction d as [|[j b] d IH]; simpl in *; [done|].
  repeat (case_decide; simpl in *; subst); naive_solver.
Qed.
Lemma upd_keys {A} k (f : A → A) (d : list (Z * A)) : (upd k f d).*1 = d.*1.
Proof.
  unfold upd. rewrite <-list_fmap_compose. apply list_fmap_ext. intros i [j a] _. simpl.
  by case_decide.
Qed.

(** Two scenes with the same positions draw their links alike. *)
Definition same_positions (s s' : scene) : Prop :=
  ∀ e, end_position s' e = end_position s e.
Lemma same_positions_points s s' l : same_positions s s' → link_points s' l = link_points s l.
Proof. intros H. unfold link_points. destruct (node2 l) as [e|]; [|done].
  unfold mbind, option_bind. rewrite (H (ENode (node1 l))).
  destruct (end_position s (ENode (node1 l))) as [[x y]|]; [|done]. by rewrite H. Qed.
Lemma same_positions_moved s s' l : same_positions s s' → moved_link s' l = moved_link s l.
Proof. intros H. unfold moved_link. by rewrite (same_positions_points s s'). Qed.

Lemma moved_link_idemp s l : moved_link s (moved_link s l) = moved_link s l.
Proof.
  unfold moved_link at 2. destruct (link_points s l) as [p|] eqn:E; [|done].
  unfold moved_link. assert (link_points s {| node1 := node1 l; node2 := node2 l; points := Some p |} = Some p)
    as -> by (by rewrite <-E). simpl. by rewrite E.
Qed.
Lemma update_links_spec ks s :
  (∀ k, all_links (update_links ks s) !! k =
        (if decide (k ∈ ks) then moved_link s else id) <$> all_links s !! k) ∧
  nodes (update_links ks s) = nodes s ∧ channels (update_links ks s) = channels s ∧
  bounds (update_links ks s) = bounds s ∧ bounds_work (update_links ks s) = bounds_work s.
Proof.
  revert s. induction ks as [|k0 ks IH]; intros s; simpl.
  { split; [|done]. intros k. by rewrite option_fmap_id. }
  destruct (IH (update_points k0 s)) as (Hl & H1 & H2 & H3 & H4).
  split; [|by rewrite H1, H2, H3, H4]. intros k. rewrite Hl. simpl.
  assert (moved_link (update_points k0 s) = moved_link s) as -> by done.
  rewrite list_lookup_alter. pose proof (elem_of_cons ks k k0) as Hin.
  destruct (decide (k0 = k)) as [->|Hne]; destruct (all_links s !! k) as [l|];
    repeat case_decide; cbn [fmap option_fmap option_map]; f_equal;
    try apply moved_link_idemp; try done; naive_solver.
Qed.

(** ** What an operation does to the nodes and the links *)

Definition placed (x y : float) (n : Node) : Node :=
  move_label x y (_update_svg_position x y (with_item (centered x y (canvas_item n)) n)).
Definition appear (n : Node) : Node :=
  let n := show_label (paint n) in
  match label n with
  | Some _ => placed (center_x (canvas_item n)) (center_y (canvas_item n)) n
  | None => n
  end.

(** Node [i] changed by [f], the other nodes and the channels did not. *)
Definition node_change (i : Z) (f : Node → Node) (s s' : scene) : Prop :=
  (∀ j, dict_get (nodes s') j = if decide (i = j) then f <$> dict_get (nodes s) j
                                else dict_get (nodes s) j) ∧ channels s' = channels s.

Lemma move_label_item x y n : canvas_item (move_label x y n) = canvas_item n ∧ links (move_label x y n) = links n.
Proof. unfold move_label. by destruct (label_canvas_item n). Qed.
Lemma update_svg_item x y n :
  canvas_item (_update_svg_position x y n) = canvas_item n ∧ links (_update_svg_position x y n) = links n ∧
  label_canvas_item (_update_svg_position x y n) = label_canvas_item n ∧
  label (_update_svg_position x y n) = label n.
Proof. unfold _update_svg_position. by destruct (svg_item n) as [[? []]|]. Qed.
Lemma placed_item x y n :
  canvas_item (placed x y n) = centered x y (canvas_item n) ∧ links (placed x y n) = links n.
Proof.
  unfold placed. destruct (move_label_item x y (_update_svg_position x y (with_item (centered x y (canvas_item n)) n))) as [-> ->].
  by destruct (update_svg_item x y (with_item (centered x y (canvas_item n)) n)) as (-> & -> & _).
Qed.

Lemma extend_bounds_same x y s :
  nodes (extend_bounds x y s) = nodes s ∧ channels (extend_bounds x y s) = channels s ∧
  all_links (extend_bounds x y s) = all_links s ∧ bounds_work (extend_bounds x y s) = bounds_work s.
Proof.
  unfold extend_bounds. destruct (bounds_work s) eqn:E; [|done].
  destruct (bounds s) as [[[]]]. destruct (grow_min x _), (grow_min y _), (grow_max x _), (grow_max y _).
  by destruct (_ || _).
Qed.

Lemma upd_node_change i f s : node_change i f s (upd_node i f s).
Proof. split; [|done]. intros j. simpl. apply dict_get_upd. Qed.
Lemma node_change_trans i f g s1 s2 s3 :
  node_change i f s1 s2 → node_change i g s2 s3 → node_change i (g ∘ f) s1 s3.
Proof.
  intros [H1 H2] [H3 H4]. split; [|congruence]. intros j. rewrite H3, H1.
  case_decide; [|done]. by rewrite option_fmap_compose.
Qed.
Lemma node_change_ext i f g s s' :
  (∀ n, dict_get (nodes s) i = Some n → f n = g n) → node_change i f s s' → node_change i g s s'.
Proof.
  intros Hfg [H1 H2]. split; [|done]. intros j. rewrite H1. case_decide as E; [subst|done].
  destruct (dict_get (nodes s) j); [|done]. simpl. by rewrite Hfg.
Qed.

Definition node_links (s : scene) (i : Z) : list nat :=
  match dict_get (nodes s) i with Some n => links n | None => [] end.

(** The scene after [set_position], but for the bounds. *)
Lemma set_position_spec i x y s :
  node_change i (placed x y) s (set_position i x y s) ∧
  bounds_work (set_position i x y s) = bounds_work s ∧
  ∀ k, all_links (set_position i x y s) !! k =
       (if decide (k ∈ node_links s i)
        then moved_link (set_position i x y s) else id) <$> all_links s !! k.
Proof.
  unfold set_position. set (f := λ n : Node, _). set (s1 := upd_node i f s).
  set (s2 := match dict_get (nodes s1) i with Some n => _ | None => _ end).
  assert (nodes s2 = nodes s1 ∧ channels s2 = channels s1 ∧ bounds_work s2 = bounds_work s ∧
    ∀ k, all_links s2 !! k = (if decide (k ∈ node_links s i)
        then moved_link s1 else id) <$> all_links s !! k) as (Hn & Hc & Hb & Hl).
  { unfold s2, s1. simpl. rewrite dict_get_upd, decide_True by done.
    unfold node_links. destruct (dict_get (nodes s) i) as [n|] eqn:Hi; simpl.
    - destruct (update_links_spec (links (f n)) s1) as (H1 & H2 & H3 & _ & H5).
      split_and!; [done..|]. intros k. rewrite H1.
      assert (links (f n) = links n) as ->.
      { unfold f. by destruct (update_svg_item x y (with_item (centered x y (canvas_item n)) n)) as (_ & -> & _). }
      done.
    - split_and!; [done..|]. intros k. by rewrite option_fmap_id. }
  destruct (extend_bounds_same x y (upd_node i (move_label x y) s2)) as (E1 & E2 & E3 & E4).
  assert (node_change i (placed x y) s (extend_bounds x y (upd_node i (move_label x y) s2))) as Hch.
  { split; [|by rewrite E2; simpl; rewrite Hc]. intros j. rewrite E1. simpl.
    rewrite dict_get_upd, Hn. unfold s1. simpl. rewrite dict_get_upd. case_decide; [|done].
    by rewrite <-option_fmap_compose. }
  split_and!; [done|by rewrite E4|]. intros k. rewrite E3. simpl. rewrite Hl.
  assert (same_positions s1 (extend_bounds x y (upd_node i (move_label x y) s2))) as Hsame.
  { intros [j|c]; simpl; [|by rewrite E2; simpl; rewrite Hc].
    rewrite E1. simpl. rewrite dict_get_upd, Hn. change (upd i f (nodes s)) with (nodes s1).
    destruct (decide (i = j)); [|done].
    destruct (dict_get (nodes s1) j) as [n|]; [|done]. simpl.
    by destruct (move_label_item x y n) as [-> _]. }
  destruct (all_links s !! k) as [l|]; [|done]. case_decide; [|done]. simpl. f_equal.
  symmetry. by apply same_positions_moved.
Qed.
Lemma set_position_place i x y s j :
  end_position (set_position i x y s) (ENode j) =
  if decide (i = j) then (λ _ : float * float, (x, y)) <$> end_position s (ENode j)
  else end_position s (ENode j).
Proof.
  destruct (set_position_spec i x y s) as ([Hch _] & _). simpl. rewrite Hch.
  case_decide; [|done]. destruct (dict_get (nodes s) j) as [n|]; [|done]. simpl.
  by destruct (placed_item x y n) as [-> _].
Qed.

(** ** The invariant *)

(** The link is in the list of its end. *)
Definition attached (s : scene) (k : nat) (e : link_end) : Prop :=
  match e with
  | ENode i => ∃ n, dict_get (nodes s) i = Some n ∧ k ∈ links n
  | EChannel c => ∃ ch, dict_get (channels s) c = Some ch ∧ k ∈ channel_links ch
  end.
(** A link that was drawn is drawn between the positions of its ends. *)
Definition links_ok (s : scene) : Prop := ∀ k l,
  all_links s !! k = Some l →
  (points l = None ∨ points l = link_points s l) ∧
  attached s k (ENode (node1 l)) ∧ ∃ e, node2 l = Some e ∧ attached s k e.
(** What a node shows is what it is: colors, radius and line width from its
    state, the icon and the label at its position. *)
Definition look_ok (n : Node) : Prop :=
  let x := center_x (canvas_item n) in let y := center_y (canvas_item n) in
  paint n = n ∧ _update_svg_position x y n = n ∧ move_label x y n = n ∧
  label n = label_text <$> label_canvas_item n.
Definition nodes_ok (s : scene) : Prop := ∀ i n, dict_get (nodes s) i = Some n → look_ok n.

Lemma links_ok_step s s' :
  links_ok s → (∀ k e, attached s k e → attached s' k e) →
  (∀ k, ∃ b : bool, all_links s' !! k = (if b then moved_link s' else id) <$> all_links s !! k ∧
     (b = false → ∀ l, all_links s !! k = Some l → link_points s' l = link_points s l)) →
  links_ok s'.
Proof.
  intros Hok Hat Hl k l' Hk. destruct (Hl k) as (b & E & Hp). rewrite E in Hk.
  destruct (all_links s !! k) as [l|] eqn:El; [|done]. simpl in Hk. injection Hk as <-.
  destruct (Hok k l El) as (Hpts & Ha & e & He & Hb).
  assert (node1 ((if b then moved_link s' else id) l) = node1 l ∧
          node2 ((if b then moved_link s' else id) l) = node2 l) as [-> ->].
  { destruct b; [|done]. unfold moved_link. by destruct (link_points s' l). }
  split; [|split; [by apply Hat|exists e; split; [done|by apply Hat]]].
  destruct b; simpl.
  - unfold moved_link. destruct (link_points s' l) as [p|] eqn:Ep.
    + right. simpl. by rewrite <-Ep.
    + right. destruct Hpts as [->|Hpts]; [by rewrite Ep|].
      assert (is_Some (link_points s' l)) as [? ?]; [|congruence].
      assert (∀ e0, attached s' k e0 → is_Some (end_position s' e0)) as Hend.
      { intros [i|c] Hat'; simpl in *; destruct Hat' as (? & -> & _); by eexists. }
      unfold link_points. rewrite He. unfold mbind, option_bind.
      destruct (Hend (ENode (node1 l)) (Hat _ _ Ha)) as [[x1 y1] ->].
      destruct (Hend e (Hat _ _ Hb)) as [[x2 y2] ->]. by eexists.
  - rewrite (Hp eq_refl l eq_refl). done.
Qed.

Lemma link_points_ext s s' l :
  (∀ e, e = ENode (node1 l) ∨ node2 l = Some e → end_position s' e = end_position s e) →
  link_points s' l = link_points s l.
Proof.
  intros H. unfold link_points. destruct (node2 l) as [e|]; [|done]. unfold mbind, option_bind.
  rewrite (H (ENode (node1 l))) by by left.
  destruct (end_position s (ENode (node1 l))) as [[x y]|]; [|done]. by rewrite (H e) by by right.
Qed.

(** An operation on one node that keeps its links. *)
Lemma attached_change i f s s' k e :
  node_change i f s s' → (∀ n, links (f n) = links n) → attached s k e → attached s' k e.
Proof.
  intros [Hn Hc] Hf. destruct e as [j|c]; simpl.
  - intros (n & Hj & Hk). rewrite Hn. case_decide; [|by exists n].
    exists (f n). by rewrite Hj, Hf.
  - by rewrite Hc.
Qed.
Lemma end_position_change i f s s' e :
  node_change i f s s' →
  (e = ENode i → ∀ n, get_position (canvas_item (f n)) = get_position (canvas_item n)) →
  end_position s' e = end_position s e.
Proof.
  intros [Hn Hc] Hf. destruct e as [j|c]; simpl; [|by rewrite Hc]. rewrite Hn.
  case_decide as E; [subst|done]. destruct (dict_get (nodes s) j) as [n|]; [|done]. simpl.
  by rewrite Hf.
Qed.

Lemma set_position_links_ok i x y s : links_ok s → links_ok (set_position i x y s).
Proof.
  intros Hok. destruct (set_position_spec i x y s) as (Hch & _ & Hl).
  apply (links_ok_step s); [done| |].
  - intros k e. eapply attached_change; [done|]. intros n. apply placed_item.
  - intros k. exists (bool_decide (k ∈ node_links s i)). rewrite Hl. split.
    + by repeat case_decide; repeat case_bool_decide.
    + intros Hb%bool_decide_eq_false l Hkl. destruct (Hok k l Hkl) as (_ & Ha & e & He & Hbt).
      apply link_points_ext. intros e0 He0. eapply end_position_change; [done|]. intros ->.
      exfalso. apply Hb. assert (attached s k (ENode i)) as (n & Hi & Hk).
      { destruct He0 as [[= ->]|He0]; [done|]. by replace (ENode i) with e by congruence. }
      unfold node_links. by rewrite Hi.
Qed.

Lemma paint_iff n : paint n = n ↔ canvas_item n = painted n.
Proof.
  unfold paint. split; [by intros H%(f_equal canvas_item)|]. intros H. rewrite <-H. by destruct n.
Qed.
Lemma painted_placed x y n : painted (placed x y n) = centered x y (painted n).
Proof.
  unfold placed, move_label, _update_svg_position.
  by destruct n as [i e ls sel hi c sz [[v [ax ay]]|] lab [it|]].
Qed.
Lemma look_placed x y n :
  paint n = n → label n = label_text <$> label_canvas_item n → look_ok (placed x y n).
Proof.
  intros Hp%paint_iff Hl. unfold look_ok. cbv zeta. rewrite paint_iff, painted_placed.
  destruct (placed_item x y n) as [-> _]. cbn [get_position centered center_x center_y].
  split; [by rewrite <-Hp|]. unfold placed, move_label, _update_svg_position in *.
  by destruct n as [i e ls sel hi c sz [[v [ax ay]]|] lab [it|]].
Qed.

Lemma show_label_keeps n :
  canvas_item (show_label n) = canvas_item n ∧ svg_item (show_label n) = svg_item n ∧
  painted (show_label n) = painted n ∧ links (show_label n) = links n.
Proof. unfold show_label. by destruct n as [i e ls sel hi c sz sv [l|] it]. Qed.
Lemma appear_keeps n :
  get_position (canvas_item (appear n)) = get_position (canvas_item n) ∧ links (appear n) = links n.
Proof.
  unfold appear. destruct (show_label_keeps (paint n)) as (H1 & _ & _ & H4).
  destruct (label (show_label (paint n))).
  - destruct (placed_item (center_x (canvas_item (show_label (paint n))))
      (center_y (canvas_item (show_label (paint n)))) (show_label (paint n))) as [-> ->].
    by rewrite H4, H1.
  - by rewrite H4, H1.
Qed.
(** [_update_appearance] makes the look right, whatever attribute was set. *)
Lemma look_appear n :
  (let '(x, y) := get_position (canvas_item n) in _update_svg_position x y n = n) →
  (label n = None → label_canvas_item n = None) → look_ok (appear n).
Proof.
  intros Hsvg Hlab. unfold appear. destruct (label n) as [l|] eqn:El.
  - assert (show_label (paint n) = with_label (Some l)
      (Some {| label_text := l;
        label_x := label_x (default {| label_text := ""; label_x := fzero; label_y := fzero |} (label_canvas_item n));
        label_y := label_y (default {| label_text := ""; label_x := fzero; label_y := fzero |} (label_canvas_item n)) |})
      (paint n)) as ->.
    { unfold show_label. simpl. by rewrite El. }
    simpl. apply look_placed; [|done]. by apply paint_iff.
  - assert (show_label (paint n) = paint n) as -> by (unfold show_label; simpl; by rewrite El).
    simpl. rewrite El. unfold look_ok. cbv zeta. split; [by apply paint_iff|]. specialize (Hlab eq_refl).
    simpl. split; [|split; [|by rewrite El, Hlab]].
    + unfold _update_svg_position in *. simpl in *. destruct (svg_item n) as [[v [ax ay]]|]; [|done].
      apply (f_equal svg_item) in Hsvg. simpl in Hsvg. by rewrite Hsvg.
    + unfold move_label. simpl. by rewrite Hlab.
Qed.

(** The scene after [_update_appearance] of node [i], which [g] changed. *)
Lemma update_appearance_spec i s :
  let s' := _update_appearance i s in
  node_change i appear s s' ∧ bounds_work s' = bounds_work s ∧
  ∀ k, ∃ b : bool, all_links s' !! k = (if b then moved_link s' else id) <$> all_links s !! k.
Proof.
  unfold _update_appearance. set (s1 := upd_node i (λ n, show_label (paint n)) s).
  assert (node_change i (λ n, show_label (paint n)) s s1) as H1 by apply upd_node_change.
  pose proof (proj1 H1 i) as Hi. rewrite decide_True in Hi by done.
  destruct (dict_get (nodes s) i) as [n|] eqn:En; cbn [fmap option_fmap option_map] in Hi;
    rewrite Hi.
  - destruct (label (show_label (paint n))) as [l|] eqn:El.
    + destruct (get_position (canvas_item (show_label (paint n)))) as [x y] eqn:Ep.
      injection Ep as Hx Hy. destruct (set_position_spec i x y s1) as (H2 & H3 & H4).
      split; [|split; [done|]].
      * eapply node_change_ext; [|by eapply node_change_trans]. intros m Hm.
        assert (m = n) as -> by congruence. unfold appear. simpl. by rewrite El, Hx, Hy.
      * intros k. rewrite H4. exists (bool_decide (k ∈ node_links s1 i)). by case_bool_decide; case_decide.
    + split; [|split; [done|]].
      * eapply node_change_ext; [|done]. intros m Hm. assert (m = n) as -> by congruence.
        unfold appear. by rewrite El.
      * intros k. exists false. by rewrite option_fmap_id.
  - split; [|split; [done|]].
    + eapply node_change_ext; [|done]. congruence.
    + intros k. exists false. by rewrite option_fmap_id.
Qed.

(** An attribute of node [i] is set and its appearance updated. *)
Definition keeps_place (g : Node → Node) : Prop := ∀ n,
  get_position (canvas_item (g n)) = get_position (canvas_item n) ∧ links (g n) = links n.
Lemma set_attribute_links_ok i g s :
  keeps_place g → links_ok s → links_ok (_update_appearance i (upd_node i g s)).
Proof.
  intros Hg Hok. destruct (update_appearance_spec i (upd_node i g s)) as (Hch & _ & Hl).
  assert (node_change i (appear ∘ g) s (_update_appearance i (upd_node i g s))) as H.
  { eapply node_change_trans; [apply upd_node_change|done]. }
  assert (∀ n, get_position (canvas_item ((appear ∘ g) n)) = get_position (canvas_item n) ∧
               links ((appear ∘ g) n) = links n) as Hk.
  { intros n. simpl. destruct (appear_keeps (g n)) as [-> ->]. apply Hg. }
  apply (links_ok_step s); [done| |].
  - intros k e. eapply attached_change; [done|]. intros n. apply Hk.
  - intros k. destruct (Hl k) as [b Hb]. exists b. split; [done|]. intros _ l _.
    apply link_points_ext. intros e _. eapply end_position_change; [done|]. intros _ n. apply Hk.
Qed.
Lemma node_change_ok i f s s' :
  node_change i f s s' → (∀ n, dict_get (nodes s) i = Some n → look_ok (f n)) →
  nodes_ok s → nodes_ok s'.
Proof.
  intros [Hn _] Hf Hok j n Hj. rewrite Hn in Hj. case_decide; subst; [|by eapply Hok].
  destruct (dict_get (nodes s) j) as [m|] eqn:Em; [|done]. injection Hj as <-. by apply Hf.
Qed.
Lemma set_attribute_nodes_ok i g s :
  (∀ n, dict_get (nodes s) i = Some n → look_ok n →
         _update_svg_position (center_x (canvas_item (g n))) (center_y (canvas_item (g n))) (g n) = g n ∧
        (label (g n) = None → label_canvas_item (g n) = None)) →
  nodes_ok s → nodes_ok (_update_appearance i (upd_node i g s)).
Proof.
  intros Hg Hok. destruct (update_appearance_spec i (upd_node i g s)) as (Hch & _ & _).
  eapply node_change_ok; [eapply node_change_trans; [apply upd_node_change|done]| |done].
  intros n Hn. destruct (Hg n Hn (Hok _ _ Hn)) as [H1 H2]. by apply look_appear.
Qed.
Lemma set_position_nodes_ok i x y s : nodes_ok s → nodes_ok (set_position i x y s).
Proof.
  intros Hok. destruct (set_position_spec i x y s) as (Hch & _ & _).
  eapply node_change_ok; [done| |done]. intros n Hn. destruct (Hok _ _ Hn) as (H1 & _ & _ & H4).
  by apply look_placed.
Qed.

(** A state attribute: the icon and the label stay what they are. *)
Lemma with_state_ok sel hi c sz n :
  look_ok n →
  let m := with_state sel hi c sz n in
  _update_svg_position (center_x (canvas_item m)) (center_y (canvas_item m)) m = m ∧
  (label m = None → label_canvas_item m = None).
Proof.
  intros (_ & H2 & _ & H4). simpl. split.
  - unfold _update_svg_position in *. simpl. destruct (svg_item n) as [[v [ax ay]]|]; [|done].
    apply (f_equal svg_item) in H2. simpl in H2. by rewrite H2.
  - rewrite H4. by destruct (label_canvas_item n).
Qed.

(** ** Channels and new objects *)

Lemma channel_set_position_links_ok c x y s : links_ok s → links_ok (channel_set_position c x y s).
Proof.
  intros Hok. unfold channel_set_position. set (f := λ ch : Channel, _).
  set (s1 := upd_channel c f s).
  assert (∀ j, dict_get (channels s1) j = if decide (c = j) then f <$> dict_get (channels s) j
                                          else dict_get (channels s) j) as H1.
  { intros j. apply dict_get_upd. }
  pose proof (H1 c) as Hc. rewrite decide_True in Hc by done. rewrite Hc.
  destruct (dict_get (channels s) c) as [ch|] eqn:Ech; simpl.
  2: { apply (links_ok_step s); [done| |].
    - intros k [j|j]; simpl; [done|]. intros (ch & Hj & Hk). rewrite H1.
      case_decide; [congruence|by exists ch].
    - intros k. exists false. rewrite option_fmap_id. split; [done|]. intros _ l _.
      apply link_points_ext. intros [j|j] _; [done|]. simpl. rewrite H1. case_decide; [|done].
      subst. by rewrite Ech. }
  destruct (update_links_spec (channel_links ch) s1) as (H2 & H3 & H4 & _).
  apply (links_ok_step s); [done| |].
  - intros k [j|j]; simpl; [by rewrite H3|]. rewrite H4. intros (ch' & Hj & Hk). rewrite H1.
    case_decide; subst; [|by exists ch']. exists (f ch'). by rewrite Hj.
  - intros k. exists (bool_decide (k ∈ channel_links ch)). rewrite H2. split.
    + destruct (all_links s !! k) as [l|] eqn:El; case_bool_decide; try (rewrite decide_True by done);
        try (rewrite decide_False by done); simpl; rewrite El; try done. simpl. f_equal.
      symmetry. apply same_positions_moved. intros [j|j]; simpl; by rewrite ?H3, ?H4.
    + intros Hb%bool_decide_eq_false l Hkl. destruct (Hok k l Hkl) as (_ & Ha & e & He & Hbt).
      apply link_points_ext. intros [j|j] He0; simpl; [by rewrite H3|]. rewrite H4, H1.
      case_decide; [subst j|done]. exfalso. apply Hb. destruct He0 as [|He0]; [done|].
      assert (e = EChannel c) as -> by congruence. destruct Hbt as (ch' & Hj & Hk).
      by replace ch with ch' by congruence.
Qed.

Lemma new_node_ok i : look_ok (new_node i).
Proof. by apply (look_appear {| node_index := i; canvas_item := blank; links := []; selected := false;
           highlighted := false; color := 0x808080ff; size := one; svg_item := None;
           label := None; label_canvas_item := None |}). Qed.
Lemma get_node_get i j s :
  dict_get (nodes (get_node i s)) j =
  match dict_get (nodes s) j with
  | Some n => Some n
  | None => if decide (i = j) then Some (new_node i) else None
  end.
Proof.
  unfold get_node. destruct (dict_get (nodes s) i) eqn:Ei.
  - destruct (dict_get (nodes s) j) eqn:Ej; [done|]. case_decide; congruence.
  - simpl. rewrite dict_get_snoc by done. case_decide; subst; [by rewrite Ei|].
    by destruct (dict_get (nodes s) j).
Qed.
Lemma get_channel_get c j s :
  dict_get (channels (get_channel c s)) j =
  match dict_get (channels s) j with
  | Some n => Some n
  | None => if decide (c = j) then Some new_channel else None
  end.
Proof.
  unfold get_channel. destruct (dict_get (channels s) c) eqn:Ei.
  - destruct (dict_get (channels s) j) eqn:Ej; [done|]. case_decide; congruence.
  - simpl. rewrite dict_get_snoc by done. case_decide; subst; [by rewrite Ei|].
    by destruct (dict_get (channels s) j).
Qed.
Lemma get_node_keeps i s :
  channels (get_node i s) = channels s ∧ all_links (get_node i s) = all_links s ∧
  bounds (get_node i s) = bounds s ∧ bounds_work (get_node i s) = bounds_work s.
Proof. unfold get_node. by destruct (dict_get (nodes s) i). Qed.
Lemma get_channel_keeps c s :
  nodes (get_channel c s) = nodes s ∧ all_links (get_channel c s) = all_links s ∧
  bounds (get_channel c s) = bounds s ∧ bounds_work (get_channel c s) = bounds_work s.
Proof. unfold get_channel. by destruct (dict_get (channels s) c). Qed.

(** More objects, the same links. *)
Lemma links_ok_more s s' :
  links_ok s → all_links s' = all_links s →
  (∀ k e, attached s k e → attached s' k e ∧ end_position s' e = end_position s e) → links_ok s'.
Proof.
  intros Hok Hl Hm. apply (links_ok_step s); [done|intros; by apply Hm|].
  intros k. exists false. rewrite Hl, option_fmap_id. split; [done|]. intros _ l Hk.
  destruct (Hok k l Hk) as (_ & Ha & e & He & Hb). apply link_points_ext.
  intros e0 [->|He0]; [by eapply Hm|]. assert (e0 = e) as -> by congruence. by eapply Hm.
Qed.
Lemma get_node_links_ok i s : links_ok s → links_ok (get_node i s).
Proof.
  intros Hok. destruct (get_node_keeps i s) as (Hc & Hl & _). apply (links_ok_more s); [done..|].
  intros k [j|c]; simpl; [|by rewrite Hc]. rewrite get_node_get. by intros (n & -> & Hk); eauto.
Qed.
Lemma get_channel_links_ok c s : links_ok s → links_ok (get_channel c s).
Proof.
  intros Hok. destruct (get_channel_keeps c s) as (Hc & Hl & _). apply (links_ok_more s); [done..|].
  intros k [j|j]; simpl; [by rewrite Hc|]. rewrite get_channel_get. by intros (n & -> & Hk); eauto.
Qed.

(** [add_link] changes nothing but the list of links of one object. *)
Lemma add_link_keeps k e s :
  all_links (add_link k e s) = all_links s ∧ bounds (add_link k e s) = bounds s ∧
  bounds_work (add_link k e s) = bounds_work s ∧ same_positions s (add_link k e s).
Proof.
  destruct e as [i|c]; (split_and!; [done..|]); intros [j|j]; simpl; try done;
    rewrite dict_get_upd; case_decide; try done; by destruct (dict_get _ j).
Qed.
Lemma attached_add_link k e s k' e' :
  attached s k' e' ∨ (k' = k ∧ e' = e ∧ is_Some (end_position s e)) → attached (add_link k e s) k' e'.
Proof.
  intros [H|(-> & -> & [p Hp])].
  - destruct e as [i|c], e' as [j|j]; simpl in *; try done; rewrite dict_get_upd;
      destruct H as (n & Hj & Hk); case_decide; subst; eauto; rewrite Hj; eexists; (split; [done|]);
      simpl; apply elem_of_app; by left.
  - destruct e as [i|c]; simpl in *; rewrite dict_get_upd, decide_True by done;
      (destruct (dict_get _ _) as [n|]; [|done]); simpl; eexists; (split; [done|]); simpl;
      apply elem_of_app; right; by apply list_elem_of_singleton.
Qed.
Lemma create_link_links_ok i e s :
  is_Some (end_position s (ENode i)) → is_Some (end_position s e) → links_ok s →
  links_ok (create_link i e s).
Proof.
  intros Hi He Hok. unfold create_link. set (k := length (all_links s)).
  set (s0 := set_links _ s). set (s1 := add_link k (ENode i) s0).
  destruct (add_link_keeps k (ENode i) s0) as (H1 & _ & _ & P1).
  destruct (add_link_keeps k e s1) as (H2 & _ & _ & P2).
  assert (same_positions s (add_link k e s1)) as P.
  { intros e0. rewrite P2. unfold s1. rewrite P1. by destruct e0. }
  assert (∀ k' e', attached s k' e' → attached (add_link k e s1) k' e') as Hat.
  { intros k' e' H. apply attached_add_link. left. apply attached_add_link. left. by destruct e'. }
  intros k' l Hk. rewrite H2 in Hk. unfold s1 in Hk. rewrite H1 in Hk. simpl in Hk.
  apply lookup_app_Some in Hk as [Hk|[Hge Hk]].
  - destruct (Hok k' l Hk) as (Hp & Ha & e' & He' & Hb).
    rewrite (same_positions_points _ _ l P). split; [done|].
    split; [by apply Hat|exists e'; split; [done|by apply Hat]].
  - apply list_lookup_singleton_Some in Hk as [Hz <-]. assert (k' = k) as -> by (unfold k; lia).
    split; [by left|]. split; [|exists e; split; [done|]].
    + cbn [node1]. apply attached_add_link. left. apply attached_add_link. right. split_and!; [done..|].
      by destruct Hi.
    + apply attached_add_link. right. split_and!; [done..|]. unfold s1. rewrite P1. by destruct e.
Qed.
Lemma look_links ls n : look_ok n → look_ok (with_links ls n).
Proof.
  unfold look_ok. cbv zeta. rewrite !paint_iff. intros (H1 & H2 & H3 & H4).
  split_and!; [done| | |done].
  - unfold _update_svg_position in *. simpl. destruct (svg_item n) as [[v [ax ay]]|]; [|done].
    apply (f_equal svg_item) in H2. simpl in H2. by rewrite H2.
  - unfold move_label in *. simpl. destruct (label_canvas_item n) as [v|] eqn:E; [|done].
    apply (f_equal label_canvas_item) in H3. simpl in H3. rewrite E in H3.
    injection H3 as H3. unfold with_label, with_links. simpl. rewrite E, H3. done.
Qed.
Lemma add_link_nodes_ok k e s : nodes_ok s → nodes_ok (add_link k e s).
Proof.
  intros Hok. destruct e as [i|c]; [|done].
  eapply node_change_ok; [apply upd_node_change| |done].
  intros n Hn. apply look_links, (Hok _ _ Hn).
Qed.

(** ** The bounds of the canvas *)

Definition is_num (x : float) : Prop := is_nan (PFloat x) = false.
Definition in_bounds (b : float * float * float * float) (x y : float) : Prop :=
  let '(x1, y1, x2, y2) := b in
  fle x1 x = true ∧ fle y1 y = true ∧ fle x x2 = true ∧ fle y y2 = true.
Definition bounds_num (b : float * float * float * float) : Prop :=
  let '(x1, y1, x2, y2) := b in is_num x1 ∧ is_num y1 ∧ is_num x2 ∧ is_num y2.
(** The bounds contain every node. *)
Definition bounds_ok (s : scene) : Prop :=
  bounds_work s = true →
  bounds_num (bounds s) ∧
  ∀ i n, dict_get (nodes s) i = Some n →
    is_num (center_x (canvas_item n)) ∧ is_num (center_y (canvas_item n)) ∧
    in_bounds (bounds s) (center_x (canvas_item n)) (center_y (canvas_item n)).

Lemma fle_refl x : is_num x → fle x x = true.
Proof. apply nle_refl. Qed.
Lemma flt_fle x y : flt x y = true → fle x y = true.
Proof. apply nlt_le. Qed.
Lemma not_flt x y : is_num x → is_num y → flt x y = false → fle y x = true.
Proof. intros Hx Hy. unfold flt, fle. rewrite nlt_nle by done. by destruct (nle _ _). Qed.
Lemma feqb_fle x y : feqb x y = true → fle x y = true ∧ fle y x = true.
Proof.
  unfold feqb, fle, neqb, nle. intros H. destruct (num_cmp (PFloat x) (PFloat y)) as [[]|] eqn:E; try done.
  split; [done|]. unfold num_cmp in *.
  destruct (num_val (PFloat x)) as [|[]|m1 e1], (num_val (PFloat y)) as [|[]|m2 e2]; try done.
  injection E as E. apply Z.compare_eq in E. by rewrite Z.min_comm, E, Z.compare_refl.
Qed.

Lemma grow_min_spec x b :
  is_num x → is_num b →
  let r := grow_min x b in
  is_num r.1 ∧ fle r.1 x = true ∧ fle r.1 b = true ∧ (r.2 = false → fle b x = true).
Proof.
  intros Hx Hb. unfold grow_min. destruct (flt b x) eqn:E; simpl.
  - apply flt_fle in E. split_and!; [done..|by apply fle_refl|done].
  - pose proof (not_flt b x Hb Hx E). split_and!; [done|by apply fle_refl|done|].
    intros Hc%negb_false_iff. by destruct (feqb_fle _ _ Hc).
Qed.
Lemma grow_max_spec x b :
  is_num x → is_num b →
  let r := grow_max x b in
  is_num r.1 ∧ fle x r.1 = true ∧ fle b r.1 = true ∧ (r.2 = false → fle x b = true).
Proof.
  intros Hx Hb. unfold grow_max. destruct (flt x b) eqn:E; simpl.
  - apply flt_fle in E. split_and!; [done..|by apply fle_refl|done].
  - pose proof (not_flt x b Hx Hb E). split_and!; [done|by apply fle_refl|done|].
    intros Hc%negb_false_iff. by destruct (feqb_fle _ _ Hc).
Qed.

Lemma extend_bounds_ok x y s :
  bounds_work s = true → bounds_num (bounds s) → is_num x → is_num y →
  let b := bounds (extend_bounds x y s) in
  bounds_num b ∧ in_bounds b x y ∧ ∀ u v, in_bounds (bounds s) u v → in_bounds b u v.
Proof.
  intros Hw Hb Hx Hy. unfold extend_bounds. rewrite Hw.
  destruct (bounds s) as [[[b1 b2] b3] b4] eqn:Eb. destruct Hb as (H1 & H2 & H3 & H4).
  destruct (grow_min_spec x b1 Hx H1) as (N1 & L1 & M1 & C1).
  destruct (grow_min_spec y b2 Hy H2) as (N2 & L2 & M2 & C2).
  destruct (grow_max_spec x b3 Hx H3) as (N3 & L3 & M3 & C3).
  destruct (grow_max_spec y b4 Hy H4) as (N4 & L4 & M4 & C4).
  destruct (grow_min x b1) as [x1 c1], (grow_min y b2) as [y1 c2],
    (grow_max x b3) as [x2 c3], (grow_max y b4) as [y2 c4]. simpl in *.
  destruct (c1 || c2 || c3 || c4) eqn:Hc; simpl.
  - split_and!; try done. intros u v (? & ? & ? & ?). unfold fle in *. split_and!; by eapply nle_trans.
  - apply orb_false_iff in Hc as [[[-> ->]%orb_false_iff ->]%orb_false_iff ->].
    rewrite Eb. unfold bounds_num, in_bounds. split_and!; auto.
Qed.

Lemma extend_bounds_cong x y s s' :
  bounds s = bounds s' → bounds_work s = bounds_work s' →
  bounds (extend_bounds x y s) = bounds (extend_bounds x y s').
Proof.
  unfold extend_bounds. intros Hb ->. destruct (bounds_work s'); [|done]. rewrite Hb.
  destruct (bounds s') as [[[b1 b2] b3] b4] eqn:E.
  destruct (grow_min x b1) as [? []], (grow_min y b2) as [? []], (grow_max x b3) as [? []],
    (grow_max y b4) as [? []]; simpl; congruence.
Qed.
Lemma set_position_bounds i x y s :
  bounds (set_position i x y s) = bounds (extend_bounds x y s).
Proof.
  unfold set_position. set (s1 := upd_node i _ s).
  destruct (dict_get (nodes s1) i) as [n|]; [|by apply extend_bounds_cong].
  destruct (update_links_spec (links n) s1) as (_ & _ & _ & ? & ?). by apply extend_bounds_cong.
Qed.
Lemma update_appearance_bounds i s :
  bounds (_update_appearance i s) = bounds s ∨
  ∃ n, dict_get (nodes s) i = Some n ∧
    bounds (_update_appearance i s) =
    bounds (extend_bounds (center_x (canvas_item n)) (center_y (canvas_item n)) s).
Proof.
  unfold _update_appearance. set (s1 := upd_node i _ s).
  pose proof (proj1 (upd_node_change i (λ n, show_label (paint n)) s) i) as Hi.
  rewrite decide_True in Hi by done. fold s1 in Hi. rewrite Hi.
  destruct (dict_get (nodes s) i) as [n|] eqn:En; cbn [fmap option_fmap option_map]; [|by left].
  destruct (label (show_label (paint n))); [|by left]. right. exists n. split; [done|].
  destruct (show_label_keeps (paint n)) as (E & _). unfold get_position. rewrite E. cbn -[set_position].
  rewrite set_position_bounds. by apply extend_bounds_cong.
Qed.

(** ** Everything the visualizer does to the scene *)

Inductive scene_op : Type :=
| OpGetNode (i : Z)
| OpGetChannel (c : Z)
| OpLink (i : Z) (e : link_end)
| OpMove (i : Z) (x y : float)
| OpMoveChannel (c : Z) (x y : float)
| OpSelect (b : bool) (i : Z)
| OpHighlight (b : bool) (i : Z)
| OpSize (sz : float) (i : Z)
| OpColor (c : Z) (i : Z)
| OpLabel (text : string) (i : Z)
| OpIcon (hw hh : float) (width height : option float) (ax ay : float) (i : Z).
Definition get_end (e : link_end) (s : scene) : scene :=
  match e with ENode i => get_node i s | EChannel c => get_channel c s end.
Definition apply_op (op : scene_op) (s : scene) : res scene :=
  match op with
  | OpGetNode i => Ok (get_node i s)
  | OpGetChannel c => Ok (get_channel c s)
  | OpLink i e => Ok (create_link i e (get_end e (get_node i s)))
  | OpMove i x y => Ok (set_position i x y s)
  | OpMoveChannel c x y => Ok (channel_set_position c x y s)
  | OpSelect b i => Ok (set_selected b i s)
  | OpHighlight b i => Ok (set_highlighted b i s)
  | OpSize sz i => Ok (set_size sz i s)
  | OpColor c i => Ok (set_color c i s)
  | OpLabel text i => set_label false text i s
  | OpIcon hw hh w h ax ay i => set_svg_icon hw hh w h ax ay i s
  end.
Fixpoint apply_ops (ops : list scene_op) (s : scene) : res scene :=
  match ops with [] => Ok s | op :: ops => s ← apply_op op s; apply_ops ops s end.
(** A position is given by numbers. *)
Definition op_num (op : scene_op) : Prop :=
  match op with OpMove _ x y => is_num x ∧ is_num y | _ => True end.
(** The canvas after [create_gui]. *)
Definition empty_scene (works : bool) : scene :=
  {| nodes := []; channels := []; all_links := [];
     bounds := (float_int (-10000), float_int (-10000), float_int 10000, float_int 10000);
     bounds_work := works |}.

(** A change of an attribute of a node that leaves its place, or its icon. *)
Lemma set_attribute_bounds_ok i g s :
  keeps_place g → bounds_ok s → bounds_ok (_update_appearance i (upd_node i g s)).
Proof.
  intros Hg Hok. destruct (update_appearance_spec i (upd_node i g s)) as (Hch & Hw & _).
  assert (node_change i (appear ∘ g) s (_update_appearance i (upd_node i g s))) as [H _].
  { eapply node_change_trans; [apply upd_node_change|done]. }
  assert (∀ j n, dict_get (nodes (_update_appearance i (upd_node i g s))) j = Some n →
    ∃ m, dict_get (nodes s) j = Some m ∧ get_position (canvas_item n) = get_position (canvas_item m)) as Hpos.
  { intros j n Hj. rewrite H in Hj. case_decide; [|by eexists].
    destruct (dict_get (nodes s) j) as [m|]; [|done]. injection Hj as <-. exists m. split; [done|].
    simpl. by destruct (appear_keeps (g m)) as [-> _], (Hg m) as [-> _]. }
  intros Hw'. rewrite Hw in Hw'. destruct (Hok Hw') as [Hn Hin].
  assert (bounds_num (bounds (_update_appearance i (upd_node i g s))) ∧
    ∀ u v, in_bounds (bounds s) u v → in_bounds (bounds (_update_appearance i (upd_node i g s))) u v)
    as [Hb Hm].
  { destruct (update_appearance_bounds i (upd_node i g s)) as [->|(n & Hi & ->)]; [done|].
    simpl in Hi. rewrite dict_get_upd, decide_True in Hi by done.
    destruct (dict_get (nodes s) i) as [m|] eqn:Em; [|done]. injection Hi as <-.
    destruct (Hg m) as [[= Hx Hy] _]. rewrite Hx, Hy.
    destruct (Hin i m Em) as (Nx & Ny & _).
    destruct (extend_bounds_ok _ _ (upd_node i g s) Hw' Hn Nx Ny) as (? & _ & ?). done. }
  split; [done|]. intros j n Hj. destruct (Hpos j n Hj) as (m & Hm' & [= -> ->]).
  destruct (Hin j m Hm') as (? & ? & ?). auto.
Qed.

Record scene_inv (s : scene) : Prop := {
  si_nodes : nodes_ok s;
  si_links : links_ok s;
  si_bounds : bounds_ok s;
}.

Lemma set_attribute_inv i g s :
  keeps_place g →
  (∀ n, dict_get (nodes s) i = Some n → look_ok n →
         _update_svg_position (center_x (canvas_item (g n))) (center_y (canvas_item (g n))) (g n) = g n ∧
        (label (g n) = None → label_canvas_item (g n) = None)) →
  scene_inv s → scene_inv (_update_appearance i (upd_node i g s)).
Proof.
  intros Hk Hg [Hn Hl Hb]. split; [by apply set_attribute_nodes_ok|by apply set_attribute_links_ok|
    by apply set_attribute_bounds_ok].
Qed.
Lemma with_state_inv i sel hi c sz s :
  scene_inv s →
  scene_inv (_update_appearance i (upd_node i (λ n, with_state (sel n) (hi n) (c n) (sz n) n) s)).
Proof. apply set_attribute_inv; [done|]. intros n _ Hn. by apply with_state_ok. Qed.

(** The same nodes and bounds. *)
Lemma bounds_ok_same s s' :
  (∀ j n, dict_get (nodes s') j = Some n →
     ∃ m, dict_get (nodes s) j = Some m ∧ canvas_item n = canvas_item m) →
  bounds s' = bounds s → bounds_work s' = bounds_work s → bounds_ok s → bounds_ok s'.
Proof.
  intros Hn Hb Hw Hok. unfold bounds_ok. rewrite Hb, Hw. intros Hw'.
  destruct (Hok Hw') as [? Hin]. split; [done|]. intros j n Hj.
  destruct (Hn j n Hj) as (m & Hm & ->). by eapply Hin.
Qed.

Definition origin_in_bounds (s : scene) : Prop := bounds_work s = true → in_bounds (bounds s) fzero fzero.
Lemma get_node_nodes_ok i s : nodes_ok s → nodes_ok (get_node i s).
Proof.
  intros Hn j n. rewrite get_node_get. destruct (dict_get (nodes s) j) eqn:Ej; [by intros [= <-]; eapply Hn|].
  case_decide; intros [= <-]. apply new_node_ok.
Qed.
Lemma get_node_inv i s : origin_in_bounds s → scene_inv s → scene_inv (get_node i s).
Proof.
  intros Ho [Hn Hl Hb]. split; [by apply get_node_nodes_ok|by apply get_node_links_ok|].
  - destruct (get_node_keeps i s) as (_ & _ & Eb & Ew). unfold bounds_ok. rewrite Eb, Ew. intros Hw.
    destruct (Hb Hw) as [? Hin]. split; [done|]. intros j n. rewrite get_node_get.
    destruct (dict_get (nodes s) j) eqn:Ej; [intros [= <-]; by eapply Hin|].
    case_decide; intros [= <-]. simpl. split_and!; [done..|by apply Ho].
Qed.
Lemma get_channel_inv c s : scene_inv s → scene_inv (get_channel c s).
Proof.
  intros [Hn Hl Hb]. destruct (get_channel_keeps c s) as (En & _ & Eb & Ew).
  split; [|by apply get_channel_links_ok|].
  - intros j n. rewrite En. apply Hn.
  - apply (bounds_ok_same s); [|done..]. rewrite En. eauto.
Qed.
Lemma create_link_inv i e s :
  is_Some (end_position s (ENode i)) → is_Some (end_position s e) →
  scene_inv s → scene_inv (create_link i e s).
Proof.
  intros Hi He [Hn Hl Hb]. split; [|by apply create_link_links_ok|].
  - apply add_link_nodes_ok, add_link_nodes_ok. done.
  - apply (bounds_ok_same s); [|by destruct e..|done].
    assert (∀ k e s j n, dict_get (nodes (add_link k e s)) j = Some n →
      ∃ m, dict_get (nodes s) j = Some m ∧ canvas_item n = canvas_item m) as H.
    { intros k [i'|c] s0 j n; simpl; [|by eauto]. rewrite dict_get_upd. case_decide; [|by eauto].
      destruct (dict_get (nodes s0) j); [|done]. intros [= <-]. eauto. }
    intros j n Hj. apply H in Hj as (m & Hj & ->). by apply H in Hj.
Qed.
Lemma set_position_inv i x y s : is_num x → is_num y → scene_inv s → scene_inv (set_position i x y s).
Proof.
  intros Hx Hy [Hn Hl Hb]. split; [by apply set_position_nodes_ok|by apply set_position_links_ok|].
  destruct (set_position_spec i x y s) as ([Hch _] & Ew & _). intros Hw. rewrite Ew in Hw.
  rewrite set_position_bounds. destruct (Hb Hw) as [Hbn Hin].
  destruct (extend_bounds_ok x y s Hw Hbn Hx Hy) as (H1 & H2 & H3). split; [done|].
  intros j n Hj. rewrite Hch in Hj. case_decide; subst.
  - destruct (dict_get (nodes s) j) as [m|]; [|done]. injection Hj as <-.
    destruct (placed_item x y m) as [-> _]. simpl. done.
  - destruct (Hin j n Hj) as (? & ? & ?). auto.
Qed.
Lemma channel_set_position_inv c x y s : scene_inv s → scene_inv (channel_set_position c x y s).
Proof.
  intros [Hn Hl Hb].
  assert (nodes (channel_set_position c x y s) = nodes s ∧ bounds (channel_set_position c x y s) = bounds s
    ∧ bounds_work (channel_set_position c x y s) = bounds_work s) as (E1 & E2 & E3).
  { unfold channel_set_position. set (s1 := upd_channel c _ s).
    destruct (dict_get (channels s1) c) as [ch|]; [|done].
    by destruct (update_links_spec (channel_links ch) s1) as (_ & -> & _ & -> & ->). }
  split; [|by apply channel_set_position_links_ok|].
  - intros j n. rewrite E1. apply Hn.
  - apply (bounds_ok_same s); [|done..]. rewrite E1. eauto.
Qed.

Lemma set_label_keeps text : keeps_place (λ n, with_label (Some text) (label_canvas_item n) n).
Proof. done. Qed.
Lemma with_label_ok text n :
  look_ok n →
  let m := with_label (Some text) (label_canvas_item n) n in
  _update_svg_position (center_x (canvas_item m)) (center_y (canvas_item m)) m = m ∧
  (label m = None → label_canvas_item m = None).
Proof.
  intros (_ & H2 & _ & H4). simpl. split; [|done]. unfold _update_svg_position in *. simpl.
  destruct (svg_item n) as [[v [ax ay]]|]; [|done].
  apply (f_equal svg_item) in H2. simpl in H2. by rewrite H2.
Qed.

Lemma set_svg_icon_inv hw hh w h ax ay i s s' :
  set_svg_icon hw hh w h ax ay i s = Ok s' →
  ∃ g, s' = _update_appearance i (upd_node i g s) ∧ keeps_place g ∧
    (scene_inv s → scene_inv s').
Proof.
  unfold set_svg_icon. intros H.
  assert (∃ n v, dict_get (nodes s) i = Some n ∧
    s' = _update_appearance i (upd_node i (λ m, _update_svg_position (center_x (canvas_item n))
           (center_y (canvas_item n)) (with_svg (Some (v, (ax, ay))) m)) s)) as (n & v & Hn & ->).
  { destruct w as [w|], h as [h|]; [..|done]; (destruct (dict_get (nodes s) i) as [n|]; [|done]);
      cbn -[svg_set_width svg_set_height] in H; inv_bind;
      match goal with Hs : Ok _ = Ok _ |- _ => injection Hs as <- end; eauto. }
  eexists. split; [done|]. split; [by intros m|].
  apply set_attribute_inv; [by intros m|]. intros m Hm (_ & _ & _ & Hl).
  assert (m = n) as -> by congruence. simpl. split; [done|]. rewrite Hl.
  by destruct (label_canvas_item n).
Qed.

(** The bounds never shrink. *)
Definition bounds_grow (s s' : scene) : Prop :=
  bounds_work s' = bounds_work s ∧
  (bounds_work s = true → ∀ u v, in_bounds (bounds s) u v → in_bounds (bounds s') u v).
Lemma bounds_grow_same s s' : bounds s' = bounds s → bounds_work s' = bounds_work s → bounds_grow s s'.
Proof. intros Hb Hw. split; [done|]. by rewrite Hb. Qed.
Lemma set_position_grow i x y s :
  is_num x → is_num y → scene_inv s → bounds_grow s (set_position i x y s).
Proof.
  intros Hx Hy [_ _ Hb]. destruct (set_position_spec i x y s) as (_ & Ew & _). split; [done|].
  intros Hw. rewrite set_position_bounds. by apply extend_bounds_ok; [|apply Hb|..].
Qed.
Lemma set_attribute_grow i g s :
  keeps_place g → scene_inv s → bounds_grow s (_update_appearance i (upd_node i g s)).
Proof.
  intros Hg [_ _ Hb]. destruct (update_appearance_spec i (upd_node i g s)) as (_ & Ew & _).
  split; [done|]. intros Hw. destruct (Hb Hw) as [Hbn Hin].
  destruct (update_appearance_bounds i (upd_node i g s)) as [->|(n & Hi & ->)]; [done|].
  simpl in Hi. rewrite dict_get_upd, decide_True in Hi by done.
  destruct (dict_get (nodes s) i) as [m|] eqn:Em; [|done]. injection Hi as <-.
  destruct (Hg m) as [[= -> ->] _]. destruct (Hin i m Em) as (? & ? & _).
  by apply (extend_bounds_ok _ _ (upd_node i g s)).
Qed.
Lemma channel_set_position_bounds c x y s :
  bounds (channel_set_position c x y s) = bounds s ∧
  bounds_work (channel_set_position c x y s) = bounds_work s.
Proof.
  unfold channel_set_position. set (s1 := upd_channel c _ s).
  destruct (dict_get (channels s1) c) as [ch|]; [|done].
  by destruct (update_links_spec (channel_links ch) s1) as (_ & _ & _ & -> & ->).
Qed.
Lemma get_end_keeps e s :
  bounds (get_end e s) = bounds s ∧ bounds_work (get_end e s) = bounds_work s ∧
  is_Some (end_position (get_end e s) e) ∧
  ∀ e', is_Some (end_position s e') → is_Some (end_position (get_end e s) e').
Proof.
  destruct e as [i|c]; simpl.
  - destruct (get_node_keeps i s) as (Ec & _ & ? & ?). split_and!; [done..| |].
    + rewrite get_node_get. destruct (dict_get (nodes s) i); [done|]. by rewrite decide_True.
    + intros [j|j]; simpl; [|by rewrite Ec]. rewrite get_node_get.
      destruct (dict_get (nodes s) j); [done|]. by intros [].
  - destruct (get_channel_keeps c s) as (En & _ & ? & ?). split_and!; [done..| |].
    + rewrite get_channel_get. destruct (dict_get (channels s) c); [done|]. by rewrite decide_True.
    + intros [j|j]; simpl; [by rewrite En|]. rewrite get_channel_get.
      destruct (dict_get (channels s) j); [done|]. by intros [].
Qed.
Lemma get_end_inv e s : origin_in_bounds s → scene_inv s → scene_inv (get_end e s).
Proof. destruct e; [by apply get_node_inv|intros _; by apply get_channel_inv]. Qed.
Lemma origin_grow s s' : bounds_grow s s' → origin_in_bounds s → origin_in_bounds s'.
Proof. intros [Ew Hg] Ho. unfold origin_in_bounds. rewrite Ew. auto. Qed.

Lemma apply_op_inv op s s' :
  op_num op → apply_op op s = Ok s' → scene_inv s → origin_in_bounds s →
  scene_inv s' ∧ origin_in_bounds s'.
Proof.
  intros Hnum Hop Hinv Ho.
  assert (scene_inv s' ∧ bounds_grow s s') as [? ?]; [|by eauto using origin_grow].
  assert (∀ e, bounds_grow s (get_end e s)) as Hend.
  { intros e. destruct (get_end_keeps e s) as (? & ? & _). by apply bounds_grow_same. }
  assert (∀ g, keeps_place g → bounds_grow s (_update_appearance
    (match op with OpSelect _ i | OpHighlight _ i | OpSize _ i | OpColor _ i | OpLabel _ i => i | _ => 0 end)
    (upd_node (match op with OpSelect _ i | OpHighlight _ i | OpSize _ i | OpColor _ i | OpLabel _ i => i | _ => 0 end)
      g s))) as Hattr.
  { intros g Hg. by apply set_attribute_grow. }
  destruct op as [i|c|i e|i x y|c x y|b i|b i|sz i|c i|text i|hw hh w h ax ay i]; simpl in Hop, Hattr;
    try (injection Hop as <-).
  - split; [by apply get_node_inv|]. apply (Hend (ENode i)).
  - split; [by apply get_channel_inv|]. apply (Hend (EChannel c)).
  - destruct (get_end_keeps (ENode i) s) as (B1 & W1 & E1 & _).
    destruct (get_end_keeps e (get_node i s)) as (B2 & W2 & E2 & E3).
    split; [|apply bounds_grow_same; destruct e; simpl in *; congruence].
    apply create_link_inv; [by apply E3|done|]. apply get_end_inv; [|by apply get_node_inv].
    apply (origin_grow s); [apply (Hend (ENode i))|done].
  - destruct Hnum. split; [by apply set_position_inv|by apply set_position_grow].
  - split; [by apply channel_set_position_inv|].
    destruct (channel_set_position_bounds c x y s). by apply bounds_grow_same.
  - split; [by apply with_state_inv|by apply Hattr].
  - split; [by apply with_state_inv|by apply Hattr].
  - split; [by apply with_state_inv|by apply Hattr].
  - split; [by apply with_state_inv|by apply Hattr].
  - split; [|by apply Hattr]. apply set_attribute_inv; [done|intros n _; apply with_label_ok|done].
  - destruct (set_svg_icon_inv _ _ _ _ _ _ _ _ _ Hop) as (g & -> & Hg & Hi).
    split; [auto|by apply set_attribute_grow].
Qed.

Lemma empty_scene_ok works : scene_inv (empty_scene works) ∧ origin_in_bounds (empty_scene works).
Proof.
  split; [split; [by intros ??|by intros ??|]|].
  - intros _. split; [by vm_compute|]. by intros ??.
  - intros _. by vm_compute.
Qed.

(** The drawing follows the state.  After any sequence of operations on
    the nodes, channels and links of the visualizer that does not raise, at
    positions that are numbers: every node is painted with the color, the
    size, the line width and the outline of its state, with its icon and its
    label at its position; every link is in the list of both its ends and,
    once drawn, runs between their present positions; and the bounds of the
    canvas contain every node. *)
Theorem scene_ops_inv works ops s :
  Forall op_num ops → apply_ops ops (empty_scene works) = Ok s → scene_inv s.
Proof.
  intros Hnum Hrun.
  assert (∀ ops s0, Forall op_num ops → scene_inv s0 → origin_in_bounds s0 →
    apply_ops ops s0 = Ok s → scene_inv s) as H.
  { clear. induction ops as [|op ops IH]; intros s0 Hnum Hinv Ho; simpl; [by intros [= <-]|].
    inversion Hnum as [|?? H1 H2]; subst. intros (s1 & Hop & Hrun)%bind_ok.
    destruct (apply_op_inv op s0 s1 H1 Hop Hinv Ho). by eapply IH. }
  destruct (empty_scene_ok works). by apply (H ops _ Hnum) in Hrun.
Qed.

(** Two nodes with a point-to-point link and a channel; the second is moved
    out of the canvas, labelled and given an icon. *)
Definition demo_ops : list scene_op :=
  [OpLink 0 (ENode 1); OpLink 1 (EChannel 7); OpMove 0 (float_int 3) (float_int 4);
   OpLabel "gateway" 1; OpIcon (float_int 64) (float_int 32) (Some (float_int 8)) None (lit 5 (-1)) one 1;
   OpMove 1 (float_int 20000) (float_int (-6)); OpMoveChannel 7 (float_int 50) (float_int 0);
   OpSelect true 1; OpHighlight true 0; OpColor 0x00ff00ff 1; OpSize (float_int 2) 0].
Theorem scene_ops_inv_witness :
  Forall op_num demo_ops ∧
  match apply_ops demo_ops (empty_scene true) with
  | Ok s => scene_inv s ∧
      (points <$> all_links s) = [Some (float_int 3, float_int 4, float_int 20000, float_int (-6));
                                  Some (float_int 20000, float_int (-6), float_int 50, float_int 0)] ∧
      bounds s = (float_int (-10000), float_int (-10000), float_int 20000, float_int 10000)
  | Err _ => False
  end.
Proof.
  assert (Forall op_num demo_ops) as H by (repeat constructor).
  split; [exact H|].
  destruct (apply_ops demo_ops (empty_scene true)) as [s|e] eqn:E.
  - split; [exact (scene_ops_inv true demo_ops s H E)|].
    vm_compute in E. injection E as <-. split; vm_compute; reflexivity.
  - vm_compute in E. discriminate E.
Defined.

(** The canvas does not grow for a channel: [Channel.set_position] has no part
    like that of [Node.set_position]. *)
Example channel_out_of_bounds :
  let s := channel_set_position 7 (float_int 20000) fzero (get_channel 7 (empty_scene true)) in
  bounds s = bounds (empty_scene true) ∧
  (get_position ∘ channel_item) <$> dict_get (channels s) 7 = Some (float_int 20000, fzero).
Proof. split; vm_compute; reflexivity. Qed.
