(* ===== verification/VizFlows.v ===== *)
(** * visualizer/core.py: the transmissions and the drops on the canvas
    [do_simulation_periodic_update], [_update_transmissions_view] and
    [_update_drops_view]: the samples of the last intervals, their averages,
    and the arrows with labels that are kept in two pools and used again.  An
    arrow with its label is an object of the canvas, known by its number; a
    pool is the list that the attribute and the local variable share. *)
From Stdlib Require Import SpecFloat.
From S2P Require Import Prelude PyStr PyNum PyFloat VizNodes.
#[local] Open Scope Z_scope.

(** ** Data *)

(** [PyViz.TransmissionSample] and [PyViz.PacketDropSample]; nodes are ids. *)
Record transmission := { transmitter : Z; receiver : Z; t_bytes : Z }.
Record dropped := { d_transmitter : Z; d_bytes : Z }.

Inductive label_anchor : Type := AnchorNW | AnchorS | AnchorN.
(** A [CanvasPolyline] and its [CanvasText]; [transform] is a translation and a
    rotation. *)
Record arrow := Arrow {
  a_visible : bool;
  a_width : float;
  a_points : option (float * float * float * float);
  l_visible : bool;
  l_font : Z;
  l_text : string;
  l_anchor : label_anchor;
  l_x : float; l_y : float;
  l_transform : option (float * float * float);
}.
Definition new_arrow : arrow :=
  Arrow true (lit 2 0) None true 0 "" AnchorNW fzero fzero None.

Record flows := Flows {
  f_scene : scene;
  arrows : list arrow;
  _transmission_arrows : list nat;
  _drop_arrows : list nat;
  _last_transmissions : list (list transmission);
  _last_drops : list (list dropped);
}.
Abbreviation io := (eff flows exn).

(** The widgets that are read: [gtk_adj] is a [Gtk.Adjustment]. *)
Record gtk_adj := { value : float; page_size : float }.
Record controls := {
  hadj : gtk_adj; vadj : gtk_adj;
  canvas_scale : float;
  node_size : float;
  smoothing : float;
  sample_period : float;
}.

(** What the view calls: the canvas with its bounds and scale, [PyViz.LineClipping] of the simulator,
    [math.log] of a positive number and [math.atan2]; whether the bindings of
    [set_transform] work. *)
Class VizLib : Type := {
  convert_from_pixels : float * float * float * float → float → float → float → float * float;
  convert_to_pixels : float * float * float * float → float → float → float → float * float;
  LineClipping : float * float * float * float → float * float * float * float →
                 float * float * float * float;
  log_pos : float → float;
  atan2 : float → float → float;
  set_transform_works : bool;
}.

Definition set_f_scene (s : scene) (v : flows) : flows :=
  Flows s (arrows v) (_transmission_arrows v) (_drop_arrows v) (_last_transmissions v) (_last_drops v).
Definition set_arrows (l : list arrow) (v : flows) : flows :=
  Flows (f_scene v) l (_transmission_arrows v) (_drop_arrows v) (_last_transmissions v) (_last_drops v).
Definition set_last_transmissions (l : list (list transmission)) (v : flows) : flows :=
  Flows (f_scene v) (arrows v) (_transmission_arrows v) (_drop_arrows v) l (_last_drops v).
Definition set_last_drops (l : list (list dropped)) (v : flows) : flows :=
  Flows (f_scene v) (arrows v) (_transmission_arrows v) (_drop_arrows v) (_last_transmissions v) l.

(** The two pools. *)
Inductive kind : Type := Transmissions | Drops.
Definition pool (k : kind) (v : flows) : list nat :=
  match k with Transmissions => _transmission_arrows v | Drops => _drop_arrows v end.
Definition set_pool (k : kind) (l : list nat) (v : flows) : flows :=
  match k with
  | Transmissions => Flows (f_scene v) (arrows v) l (_drop_arrows v) (_last_transmissions v) (_last_drops v)
  | Drops => Flows (f_scene v) (arrows v) (_transmission_arrows v) l (_last_transmissions v) (_last_drops v)
  end.

(** ** The samples *)

(** [l.append(x)]; [while len(l) > n: l.pop(0)] *)
Fixpoint pop_front {A} (n : Z) (l : list A) : list A * res unit :=
  if decide (n < Z.of_nat (length l)) then
    match l with [] => ([], Err IndexError) | _ :: l => pop_front n l end
  else (l, Ok ()).
Definition remember {A} (n : Z) (x : A) : eff (list A) exn unit := λ l, pop_front n (l ++ [x]).
Definition do_simulation_periodic_update (c : controls) (transmissions : list transmission)
    (drops : list dropped) : io unit :=
  smooth_factor ← lift_res (py_int (PFloat (fmul (smoothing c) (float_int 10))));
  _ ← zoom _last_transmissions set_last_transmissions (remember smooth_factor transmissions);
  zoom _last_drops set_last_drops (remember smooth_factor drops).

(** The sum of the bytes and the number of the samples, by key. *)
Definition add_sample {K} `{EqDecision K} (d : list (K * (Z * Z))) (s : K * Z) : list (K * (Z * Z)) :=
  let '(bytes, count) := default (0, 0) (dict_get d s.1) in
  dict_set d s.1 (bytes + s.2, count + 1).
Definition averages {K} `{EqDecision K} (samples : list (K * Z)) : list (K * (Z * Z)) :=
  foldl add_sample [] samples.
Definition transmissions_average (v : flows) : list (Z * Z * (Z * Z)) :=
  averages ((λ t, ((transmitter t, receiver t), t_bytes t)) <$> mjoin (_last_transmissions v)).
Definition drops_average (v : flows) : list (Z * (Z * Z)) :=
  averages ((λ d, (d_transmitter d, d_bytes d)) <$> mjoin (_last_drops v)).

(** ** Numbers of an arrow *)

Definition fhalf (x : float) : float := SFdiv prec64 emax64 x (float_int 2).
Definition pi : float := S754_finite false 7074237752028440 (-51).
Definition PI_OVER_2 : float := fhalf pi.
(** [float(x)/n/p] *)
Definition per_second (x : res float) (n : Z) (p : float) : res float :=
  x ← x; m ← as_float (PInt n); r ← fdiv x m; fdiv r p.
(** [self.node_size_adjustment.get_value()/5] *)
Definition size_factor (c : controls) : float := SFdiv prec64 emax64 (node_size c) (float_int 5).
Definition BITRATE_FONT_SIZE : float := float_int 10.
Definition font_size (c : controls) : res Z :=
  py_int (PFloat (fadd (float_int 1) (fmul BITRATE_FONT_SIZE (size_factor c)))).
(** [float(bytes*8)/1e3/count/self.sample_period] *)
Definition kbit_rate (c : controls) (bytes count : Z) : res float :=
  per_second (x ← as_float (PInt (bytes * 8)); fdiv x (float_int 1000)) count (sample_period c).

Section views.
Context `{VizLib}.

(** [math.log] *)
Definition math_log (x : float) : res float :=
  if fle x fzero then Err (ValueError "math domain error") else Ok (log_pos x).
(** [max(0.1, math.log(float(bytes)/count/self.sample_period)*k)] *)
Definition line_width (c : controls) (bytes count : Z) : res float :=
  x ← per_second (as_float (PInt bytes)) count (sample_period c);
  l ← math_log x;
  Ok (fmax (lit 1 (-1)) (fmul l (size_factor c))).

(** ** Arrows *)

Definition change (a : nat) (f : arrow → arrow) : io unit :=
  modify (λ v, set_arrows (alter f a (arrows v)) v).
Definition set_visible (b : bool) (a : arrow) : arrow :=
  Arrow b (a_width a) (a_points a) (l_visible a) (l_font a) (l_text a) (l_anchor a) (l_x a) (l_y a)
    (l_transform a).
Definition set_width (w : float) (a : arrow) : arrow :=
  Arrow (a_visible a) w (a_points a) (l_visible a) (l_font a) (l_text a) (l_anchor a) (l_x a) (l_y a)
    (l_transform a).
Definition set_points (p : float * float * float * float) (a : arrow) : arrow :=
  Arrow (a_visible a) (a_width a) (Some p) (l_visible a) (l_font a) (l_text a) (l_anchor a) (l_x a)
    (l_y a) (l_transform a).
Definition set_label_font (b : bool) (f : Z) (a : arrow) : arrow :=
  Arrow (a_visible a) (a_width a) (a_points a) b f (l_text a) (l_anchor a) (l_x a) (l_y a)
    (l_transform a).
Definition set_label_text (t : string) (n : label_anchor) (x y : float) (a : arrow) : arrow :=
  Arrow (a_visible a) (a_width a) (a_points a) (l_visible a) (l_font a) t n x y (l_transform a).
Definition set_label_place (x y : float) (m : option (float * float * float)) (a : arrow) : arrow :=
  Arrow (a_visible a) (a_width a) (a_points a) (l_visible a) (l_font a) (l_text a) (l_anchor a) x y m.
Definition hide (a : arrow) : arrow :=
  Arrow false (a_width a) (a_points a) false (l_font a) (l_text a) (l_anchor a) (l_x a) (l_y a)
    (l_transform a).

(** [old_arrows.pop()], or a new arrow; the list is the attribute itself. *)
Definition take_arrow (k : kind) : io nat := λ v,
  match last (pool k v) with
  | Some a => (set_pool k (removelast (pool k v)) v, Ok a)
  | None => (set_arrows (arrows v ++ [new_arrow]) v, Ok (length (arrows v)))
  end.
Definition see_node (i : Z) : io unit := modify (λ v, set_f_scene (get_node i (f_scene v)) v).
(** [get_position] of a node that is there. *)
Definition node_position (i : Z) : io (float * float) := λ v,
  (v, match end_position (f_scene v) (ENode i) with Some p => Ok p | None => Err KeyError end).
Definition hide_all (k : kind) : io unit := λ v, for_each (λ a, change a hide) (pool k v) v.

Definition _get_label_over_line_position (c : controls) (b : float * float * float * float)
    (x1 y1 x2 y2 : float) : float * float :=
  let '(bx1, by1) := convert_from_pixels b (canvas_scale c) (value (hadj c)) (value (vadj c)) in
  let '(bx2, by2) := convert_from_pixels b (canvas_scale c)
    (fadd (value (hadj c)) (page_size (hadj c))) (fadd (value (vadj c)) (page_size (vadj c))) in
  let '(x1, y1, x2, y2) := LineClipping (bx1, by1, bx2, by2) (x1, y1, x2, y2) in
  (fhalf (fadd x1 x2), fhalf (fadd y1 y2)).

(** The arrow points to the right, or its label is turned over. *)
Definition upright (angle : float) : bool := fle (fneg PI_OVER_2) angle && fle angle PI_OVER_2.
Definition label_angle (angle : float) : float :=
  if upright angle then angle
  else if flt angle (fneg PI_OVER_2) then fadd angle pi else fsub angle pi.
Definition rate_text (angle kbps : float) : string :=
  if upright angle then format_fixed 2 kbps +:+ " kbit/s →" else "← " +:+ format_fixed 2 kbps +:+ " kbit/s".

(** One turn of the loop of [_update_transmissions_view]. *)
Definition draw_transmission (c : controls) (e : Z * Z * (Z * Z)) : io nat :=
  let '((transmitter_id, receiver_id), (rx_bytes, rx_count)) := e in
  _ ← see_node transmitter_id;
  _ ← see_node receiver_id;
  a ← take_arrow Transmissions;
  _ ← change a (set_visible true);
  w ← lift_res (line_width c rx_bytes rx_count);
  _ ← change a (set_width w);
  '(x1, y1) ← node_position transmitter_id;
  '(x2, y2) ← node_position receiver_id;
  _ ← change a (set_points (x1, y1, x2, y2));
  kbps ← lift_res (kbit_rate c rx_bytes rx_count);
  font ← lift_res (font_size c);
  _ ← change a (set_label_font true font);
  let angle := atan2 (fsub y2 y1) (fsub x2 x1) in
  let y := if upright angle then fhalf (fneg w) else fhalf w in
  _ ← change a (set_label_text (rate_text angle kbps) (if upright angle then AnchorS else AnchorN) fzero y);
  b ← gets (λ v, bounds (f_scene v));
  let '(lx, ly) := _get_label_over_line_position c b x1 y1 x2 y2 in
  _ ← change a (λ ar : arrow, if set_transform_works
                  then set_label_place (l_x ar) (l_y ar) (Some (lx, ly, label_angle angle)) ar
                  else set_label_place (fadd lx (l_x ar)) (fadd ly (l_y ar)) (l_transform ar) ar);
  mret a.
(** One turn of the loop of [_update_drops_view]. *)
Definition draw_drop (c : controls) (edge_y : float) (e : Z * (Z * Z)) : io nat :=
  let '(transmitter_id, (drop_bytes, drop_count)) := e in
  _ ← see_node transmitter_id;
  a ← take_arrow Drops;
  _ ← change a (set_visible true);
  w ← lift_res (line_width c drop_bytes drop_count);
  _ ← change a (set_width w);
  '(x1, y1) ← node_position transmitter_id;
  let '(x2, y2) := (x1, edge_y) in
  _ ← change a (set_points (x1, y1, x2, y2));
  font ← lift_res (font_size c);
  kbps ← lift_res (kbit_rate c drop_bytes drop_count);
  _ ← change a (set_label_font true font);
  _ ← change a (λ ar : arrow, set_label_text (format_fixed 2 kbps +:+ " kbit/s") (l_anchor ar)
                  (fhalf (fadd x1 x2)) (fhalf (fadd y1 y2)) ar);
  mret a.

(** [for ... in averages: ...; new_arrows.append((arrow, label))] *)
Fixpoint draw_all {E} (draw : E → io nat) (new_arrows : list nat) (es : list E) : io (list nat) :=
  match es with
  | [] => mret new_arrows
  | e :: es => a ← draw e; draw_all draw (new_arrows ++ [a]) es
  end.
(** [self._arrows = new_arrows + old_arrows] *)
Definition put_back (k : kind) (new_arrows : list nat) : io unit :=
  modify (λ v, set_pool k (new_arrows ++ pool k v) v).

Definition _update_transmissions_view (c : controls) : io unit :=
  es ← gets transmissions_average;
  _ ← hide_all Transmissions;
  new_arrows ← draw_all (draw_transmission c) [] es;
  put_back Transmissions new_arrows.
Definition _update_drops_view (c : controls) : io unit :=
  es ← gets drops_average;
  _ ← hide_all Drops;
  b ← gets (λ v, bounds (f_scene v));
  let '(_, edge_y) := convert_from_pixels b (canvas_scale c) fzero
    (fadd (value (vadj c)) (page_size (vadj c))) in
  new_arrows ← draw_all (draw_drop c edge_y) [] es;
  put_back Drops new_arrows.
End views.

(** ** The samples that are kept, and their averages *)

Lemma pop_front_ok {A} (n : nat) (l : list A) :
  pop_front (Z.of_nat n) l = (drop (length l - n) l, Ok ()).
Proof.
  induction l as [|x l IH]; cbn [pop_front length].
  { rewrite decide_False by lia. by rewrite drop_nil. }
  case_decide.
  - rewrite IH. by replace (S (length l) - n)%nat with (S (length l - n)) by lia.
  - by replace (S (length l) - n)%nat with O by lia.
Qed.
Lemma averages_snoc {K} `{EqDecision K} (l : list (K * Z)) s :
  averages (l ++ [s]) = add_sample (averages l) s.
Proof. unfold averages. by rewrite foldl_app. Qed.

(** What the samples with a key come to. *)
Definition own_bytes {K} `{EqDecision K} (k : K) (l : list (K * Z)) : list Z :=
  (filter (λ s, s.1 = k) l).*2.
Definition average_of (bytes : list Z) : option (Z * Z) :=
  match bytes with [] => None | _ => Some (foldr Z.add 0 bytes, Z.of_nat (length bytes)) end.
Lemma sum_app l1 l2 : foldr Z.add 0 (l1 ++ l2) = foldr Z.add 0 l1 + foldr Z.add 0 l2.
Proof. induction l1; simpl; lia. Qed.
Lemma averages_get {K} `{EqDecision K} (l : list (K * Z)) k :
  dict_get (averages l) k = average_of (own_bytes k l).
Proof.
  induction l as [|[k1 b] l IH] using rev_ind; [done|].
  rewrite averages_snoc. unfold own_bytes in *. rewrite filter_app, fmap_app, filter_cons. simpl.
  unfold add_sample. simpl. destruct (default (0, 0) (dict_get (averages l) k1)) as [rx n] eqn:E.
  rewrite dict_get_set. destruct (decide (k1 = k)) as [->|Hne]; [|by rewrite app_nil_r].
  rewrite IH in E. simpl. destruct (filter (λ s, s.1 = k) l).*2 as [|b0 bs]; simpl in *;
    injection E as <- <-; unfold average_of; simpl; do 2 f_equal; rewrite ?sum_app, ?length_app;
    simpl; lia.
Qed.
Lemma averages_keys {K} `{EqDecision K} (l : list (K * Z)) : NoDup (averages l).*1.
Proof.
  induction l as [|s l IH] using rev_ind; [apply NoDup_nil_2|].
  rewrite averages_snoc. unfold add_sample. destruct (default (0, 0) _).
  by apply dict_set_keys.
Qed.
Lemma window_step {A} (n : nat) (h r : list A) x :
  (length h ≤ n)%nat →
  let a := drop (length (h ++ [x]) - n) (h ++ [x]) in
  (length a ≤ n)%nat ∧ drop (length (a ++ r) - n) (a ++ r) = drop (length (h ++ x :: r) - n) (h ++ x :: r).
Proof.
  intros Hn. set (a := h ++ [x]). assert (h ++ x :: r = a ++ r) as -> by (unfold a; by rewrite <-app_assoc).
  assert (length a ≤ S n)%nat as Ha by (unfold a; rewrite length_app; simpl; lia).
  split; [rewrite length_drop; lia|]. rewrite !length_app, length_drop.
  destruct (decide (length a ≤ n)%nat).
  - replace (length a - n)%nat with O by lia. rewrite drop_0. f_equal. lia.
  - replace (length a - n)%nat with 1%nat by lia. rewrite <-(drop_app_le a r 1) by lia.
    rewrite drop_drop. f_equal. lia.
Qed.
(** The window after intervals that were sampled with the same smoothing. *)
Fixpoint ticks (c : controls) (l : list (list transmission * list dropped)) : io unit :=
  match l with
  | [] => mret ()
  | (ts, ds) :: l => _ ← do_simulation_periodic_update c ts ds; ticks c l
  end.
Lemma ticks_window c (n : nat) l v :
  py_int (PFloat (fmul (smoothing c) (float_int 10))) = Ok (Z.of_nat n) →
  (length (_last_transmissions v) ≤ n)%nat → (length (_last_drops v) ≤ n)%nat →
  ∃ v', ticks c l v = (v', Ok ()) ∧
    (let h := _last_transmissions v ++ l.*1 in _last_transmissions v' = drop (length h - n) h) ∧
    (let h := _last_drops v ++ l.*2 in _last_drops v' = drop (length h - n) h).
Proof.
  intros Hn. revert v. induction l as [|[ts ds] l IH]; intros v H1 H2.
  { exists v. simpl. rewrite !app_nil_r. split; [done|].
    by replace (length _ - n)%nat with O by lia; replace (length (_last_drops v) - n)%nat with O by lia. }
  cbn [ticks]. unfold do_simulation_periodic_update. rewrite Hn.
  destruct (window_step n (_last_transmissions v) l.*1 ts H1) as [L1 W1].
  destruct (window_step n (_last_drops v) l.*2 ds H2) as [L2 W2].
  set (a1 := _last_transmissions v ++ [ts]) in *. set (a2 := _last_drops v ++ [ds]) in *.
  destruct (IH (set_last_drops (drop (length a2 - n) a2)
    (set_last_transmissions (drop (length a1 - n) a1) v)) L1 L2) as (v' & Hrun & E1 & E2).
  exists v'. split; [|split; [by rewrite E1|by rewrite E2]].
  rewrite <-Hrun. unfold mbind, eff_bind, lift_res, zoom, remember. fold a1. rewrite pop_front_ok.
  fold a2. simpl. fold a2. by rewrite pop_front_ok.
Qed.

(** ** The pools *)

Definition other (k : kind) : kind := match k with Transmissions => Drops | Drops => Transmissions end.
(** The arrows of the pools are objects of the canvas, each in one pool once. *)
Definition pool_ok (k : kind) (v : flows) : Prop :=
  NoDup (pool k v ++ pool (other k) v) ∧
  ∀ a, a ∈ pool k v ++ pool (other k) v → (a < length (arrows v))%nat.

Lemma pool_set_pool k l v : pool k (set_pool k l v) = l ∧ pool (other k) (set_pool k l v) = pool (other k) v.
Proof. by destruct k. Qed.
Lemma set_pool_same k l v :
  f_scene (set_pool k l v) = f_scene v ∧ arrows (set_pool k l v) = arrows v ∧
  _last_transmissions (set_pool k l v) = _last_transmissions v ∧
  _last_drops (set_pool k l v) = _last_drops v.
Proof. by destruct k. Qed.
Lemma pool_other_fields k v s l : pool k (set_f_scene s v) = pool k v ∧ pool k (set_arrows l v) = pool k v.
Proof. by destruct k. Qed.

(** The arrow that [take_arrow] answers, and what it leaves. *)
Definition next (k : kind) (v : flows) : nat := default (length (arrows v)) (last (pool k v)).
Definition taken (k : kind) (v : flows) : flows :=
  match last (pool k v) with
  | Some _ => set_pool k (removelast (pool k v)) v
  | None => set_arrows (arrows v ++ [new_arrow]) v
  end.
Lemma take_arrow_run k v : take_arrow k v = (taken k v, Ok (next k v)).
Proof. unfold take_arrow, taken, next. by destruct (last (pool k v)). Qed.

Lemma last_removelast {A} (l : list A) x : last l = Some x → l = removelast l ++ [x].
Proof.
  intros H. apply last_Some in H as [l' ->]. by rewrite removelast_last.
Qed.
Lemma taken_spec k v :
  pool_ok k v →
  let v' := taken k v in
  f_scene v' = f_scene v ∧ pool (other k) v' = pool (other k) v ∧
  length (pool k v') = (length (pool k v) - 1)%nat ∧
  (∃ l, pool k v = pool k v' ++ l) ∧
  NoDup (next k v :: pool k v' ++ pool (other k) v') ∧
  (∀ a, a ∈ next k v :: pool k v' ++ pool (other k) v' → (a < length (arrows v'))%nat) ∧
  (next k v ∈ pool k v ∨ (length (arrows v) ≤ next k v)%nat) ∧
  (∀ a, (a < length (arrows v))%nat → arrows v' !! a = arrows v !! a) ∧
  (length (arrows v) ≤ length (arrows v'))%nat.
Proof.
  intros [Hnd Hlt]. unfold taken, next. destruct (last (pool k v)) as [a|] eqn:Hl; simpl.
  - destruct (pool_set_pool k (removelast (pool k v)) v) as [-> ->].
    destruct (set_pool_same k (removelast (pool k v)) v) as (-> & -> & _).
    pose proof (last_removelast _ _ Hl) as Hp. set (l := removelast (pool k v)) in *.
    assert (pool k v ++ pool (other k) v ≡ₚ a :: l ++ pool (other k) v) as Hperm.
    { rewrite Hp, <-app_assoc. simpl. by rewrite Permutation_middle. }
    split_and!; try done.
    + rewrite Hp, length_app. simpl. lia.
    + by exists [a].
    + by rewrite <-Hperm.
    + intros b Hb. apply Hlt. by rewrite Hperm.
    + left. rewrite Hp. apply elem_of_app. right. by apply list_elem_of_singleton.
  - apply last_None in Hl. destruct (pool_other_fields k v (f_scene v) (arrows v ++ [new_arrow])) as [_ ->].
    destruct (pool_other_fields (other k) v (f_scene v) (arrows v ++ [new_arrow])) as [_ ->].
    rewrite Hl in *. simpl in *. rewrite length_app. simpl. split_and!; try done; [by exists []| | |by right| |lia].
    + apply NoDup_cons. split; [|done]. intros Hin%Hlt. lia.
    + intros b [->|Hb%Hlt]%elem_of_cons; lia.
    + intros b Hb. by apply lookup_app_l.
Qed.

Definition changed (a : nat) (f : arrow → arrow) (v : flows) : flows :=
  set_arrows (alter f a (arrows v)) v.

(** A loop over averages: every turn takes an arrow and changes it so that it
    shows its average. *)
Section loop.
Context {E : Type} (draw : E → io nat) (k : kind) (sees : E → scene → scene)
  (shows : scene → E → arrow → Prop).
Definition turn_ok (e : E) : Prop := ∀ v, ∃ F,
  draw e v = (changed (next k v) F (taken k (set_f_scene (sees e (f_scene v)) v)), Ok (next k v)) ∧
  ∀ ar, shows (sees e (f_scene v)) e (F ar).
Context (shows_mono : ∀ s e e' ar, shows s e ar → shows (sees e' s) e ar).

Definition scene_after (es : list E) (s : scene) : scene := foldl (λ s e, sees e s) s es.
Lemma shows_after es s e ar : shows s e ar → shows (scene_after es s) e ar.
Proof. revert s. induction es as [|e' es IH]; intros s Hs; simpl; [done|]. by apply IH, shows_mono. Qed.

(** What the loop leaves, and the arrows that it drew. *)
Record drew (v : flows) (es : list E) (ids : list nat) (v' : flows) : Prop := {
  dr_scene : f_scene v' = scene_after es (f_scene v);
  dr_ids : length ids = length es;
  dr_pool : length (pool k v') = (length (pool k v) - length es)%nat;
  dr_prefix : ∃ l, pool k v = pool k v' ++ l;
  dr_other : pool (other k) v' = pool (other k) v;
  dr_nodup : NoDup (ids ++ pool k v' ++ pool (other k) v');
  dr_bound : ∀ a, a ∈ ids ++ pool k v' ++ pool (other k) v' → (a < length (arrows v'))%nat;
  dr_from : ∀ a, a ∈ ids → a ∈ pool k v ∨ (length (arrows v) ≤ a)%nat;
  dr_shows : ∀ i e a, es !! i = Some e → ids !! i = Some a →
    ∃ ar, arrows v' !! a = Some ar ∧ shows (f_scene v') e ar;
  dr_same : ∀ a, (a < length (arrows v))%nat → a ∉ ids → arrows v' !! a = arrows v !! a;
  dr_grow : (length (arrows v) ≤ length (arrows v'))%nat;
}.

Lemma draw_all_spec es new v :
  Forall turn_ok es → pool_ok k v →
  ∃ v' ids, draw_all draw new es v = (v', Ok (new ++ ids)) ∧ drew v es ids v'.
Proof.
  intros Hes. revert new v. induction Hes as [|e es He _ IH]; intros new v Hok.
  { exists v, []. rewrite app_nil_r. split; [done|]. destruct Hok as [Hnd Hlt].
    split; try done; [simpl; lia|by exists []; rewrite app_nil_r|].
    intros a Ha. by apply elem_of_nil in Ha. }
  destruct (He v) as (F & Hdraw & HF). unfold changed in Hdraw.
  set (v0 := set_f_scene (sees e (f_scene v)) v) in *.
  assert (pool k v0 = pool k v ∧ pool (other k) v0 = pool (other k) v ∧ arrows v0 = arrows v) as (Ep & Eo & Ea).
  { by destruct k. }
  assert (pool_ok k v0) as Hok0 by (unfold pool_ok; rewrite Ep, Eo, Ea; done).
  assert (next k v0 = next k v) as En by (unfold next; by rewrite Ep, Ea).
  destruct (taken_spec k v0 Hok0) as (T1 & T2 & T3 & T4 & T5 & T6 & T7 & T8 & T9).
  rewrite En, Ep, Eo, Ea in *. set (v1 := taken k v0) in *. set (a0 := next k v) in *.
  set (v2 := set_arrows (alter F a0 (arrows v1)) v1) in *.
  assert (pool k v2 = pool k v1 ∧ pool (other k) v2 = pool (other k) v1 ∧ f_scene v2 = f_scene v1)
    as (Ep2 & Eo2 & Es2) by (by destruct k).
  assert (length (arrows v2) = length (arrows v1)) as El2 by apply length_alter.
  apply NoDup_cons in T5 as [Ha0 Hnd].
  assert (pool_ok k v2) as Hok2.
  { split; rewrite Ep2, Eo2; [done|]. intros a Hin. rewrite El2. apply T6. by right. }
  destruct (IH (new ++ [a0]) v2 Hok2) as (v' & ids & Hrun & [D1 D2 D3 D4 D5 D6 D7 D8 D9 D10 D11]).
  assert (a0 ∉ ids ++ pool k v' ++ pool (other k) v') as Hfresh.
  { rewrite D5, Eo2. intros [Hin|Hin]%elem_of_app.
    - apply D8 in Hin as [Hin|Hin].
      + apply Ha0. rewrite Ep2 in Hin. apply elem_of_app. by left.
      + assert (a0 < length (arrows v1))%nat by (apply T6; by left). lia.
    - apply Ha0. apply elem_of_app in Hin as [Hin|Hin]; apply elem_of_app; [left|by right].
      destruct D4 as [l D4]. rewrite Ep2 in D4. rewrite D4. apply elem_of_app. by left. }
  exists v', (a0 :: ids). split.
  { cbn [draw_all]. rewrite (bind_run _ _ _ _ _ Hdraw). rewrite Hrun. by rewrite <-app_assoc. }
  assert (arrows v' !! a0 = arrows v2 !! a0) as Ea0.
  { apply D10; [rewrite El2; apply T6; by left|]. intros Hin. apply Hfresh, elem_of_app. by left. }
  split.
  - rewrite D1, Es2, T1. done.
  - simpl. by rewrite D2.
  - rewrite D3, Ep2, T3. simpl. lia.
  - destruct D4 as [l D4], T4 as [l' T4]. rewrite T4, <-Ep2, D4, <-app_assoc. by eexists.
  - by rewrite D5, Eo2, T2.
  - by apply NoDup_cons.
  - intros a [->|Hin]%elem_of_cons; [|by apply D7]. assert (a0 < length (arrows v1))%nat by (apply T6; by left). lia.
  - intros a [->|Hin]%elem_of_cons; [done|]. apply D8 in Hin as [Hin|Hin].
    + left. destruct T4 as [l' ->]. apply elem_of_app. left. by rewrite <-Ep2.
    + right. lia.
  - intros [|i] e1 a Hi Hj; simpl in Hi, Hj; [|by eapply D9]. injection Hi as <-. injection Hj as <-.
    assert (a0 < length (arrows v1))%nat as Hlt by (apply T6; by left).
    apply lookup_lt_is_Some in Hlt as [ar Har]. exists (F ar). split.
    + rewrite Ea0. simpl. by rewrite list_lookup_alter, decide_True, Har by done.
    + rewrite D1. apply shows_after. rewrite Es2, T1. apply HF.
  - intros a Hlt [Hne Hni]%not_elem_of_cons. rewrite D10; [|rewrite El2; lia|done].
    simpl. rewrite list_lookup_alter, decide_False by congruence. by apply T8.
  - rewrite El2 in D11. lia.
Qed.

Lemma draw_all_app new es es' v :
  draw_all draw new (es ++ es') v = (draw_all draw new es ≫= λ new', draw_all draw new' es') v.
Proof.
  revert new v. induction es as [|e es IH]; intros new v; [done|]. cbn [draw_all app].
  unfold mbind, eff_bind. destruct (draw e v) as [v1 [a|x]]; [|done]. apply IH.
Qed.

(** [hide_all] changes nothing but the arrows of the pool. *)
Lemma hide_list_spec l v :
  let v' := (for_each (λ a, change a hide) l v).1 in
  for_each (λ a, change a hide) l v = (v', Ok ()) ∧ v' = set_arrows (arrows v') v ∧
  ∀ a, arrows v' !! a = if decide (a ∈ l) then hide <$> arrows v !! a else arrows v !! a.
Proof.
  revert v. induction l as [|b l IH]; intros v; simpl; [by destruct v|].
  change ((change b hide ≫= λ _, for_each (λ a, change a hide) l) v)
    with (for_each (λ a, change a hide) l (set_arrows (alter hide b (arrows v)) v)).
  destruct (IH (set_arrows (alter hide b (arrows v)) v)) as (E1 & E2 & E3).
  set (v' := (for_each (λ a, change a hide) l (set_arrows (alter hide b (arrows v)) v)).1) in *.
  split_and!; [done|by rewrite E2|]. intros a. rewrite E3. simpl. rewrite list_lookup_alter.
  destruct (decide (b = a)) as [->|Hne].
  - rewrite (decide_True (P := a ∈ a :: l)) by (by left).
    by case_decide; destruct (arrows v !! a).
  - destruct (decide (a ∈ l)) as [Hin|Hin]; [rewrite decide_True by (by right)|rewrite decide_False]; [done| |].
    + done.
    + intros [->|?]%elem_of_cons; done.
Qed.
Lemma hide_all_spec v :
  pool_ok k v → ∃ v', hide_all k v = (v', Ok ()) ∧ pool_ok k v' ∧ pool k v' = pool k v ∧
    pool (other k) v' = pool (other k) v ∧ f_scene v' = f_scene v ∧
    length (arrows v') = length (arrows v) ∧
    ∀ a, arrows v' !! a = if decide (a ∈ pool k v) then hide <$> arrows v !! a else arrows v !! a.
Proof.
  intros Hok. destruct (hide_list_spec (pool k v) v) as (E1 & E2 & E3).
  set (v' := (for_each (λ a, change a hide) (pool k v) v).1) in *.
  assert (pool k v' = pool k v ∧ pool (other k) v' = pool (other k) v ∧ f_scene v' = f_scene v)
    as (Ep & Eo & Es) by (rewrite E2; by destruct k).
  assert (length (arrows v') = length (arrows v)) as El.
  { apply Nat.le_antisymm; apply Nat.nlt_ge; intros Hlt; apply lookup_lt_is_Some in Hlt as [ar Har].
    - rewrite E3 in Har. assert (arrows v !! length (arrows v) = None) as Hn by by apply lookup_ge_None_2.
      rewrite Hn in Har. by case_decide.
    - assert (arrows v' !! length (arrows v') = None) as Hn by by apply lookup_ge_None_2.
      rewrite E3, Har in Hn. by case_decide. }
  exists v'. split_and!; try done. unfold pool_ok. by rewrite Ep, Eo, El.
Qed.

Definition view (es : list E) : io unit :=
  _ ← hide_all k; new_arrows ← draw_all draw [] es; put_back k new_arrows.
Lemma view_ok es v :
  Forall turn_ok es → pool_ok k v →
  ∃ v', view es v = (v', Ok ()) ∧ pool_ok k v' ∧
    length (pool k v') = Nat.max (length (pool k v)) (length es) ∧
    f_scene v' = scene_after es (f_scene v) ∧
    (∀ i a, pool k v' !! i = Some a → ∃ ar, arrows v' !! a = Some ar ∧
       match es !! i with
       | Some e => shows (f_scene v') e ar
       | None => a_visible ar = false ∧ l_visible ar = false
       end) ∧
    ∀ a, (a < length (arrows v))%nat → a ∉ pool k v → arrows v' !! a = arrows v !! a.
Proof.
  intros Hes Hok. destruct (hide_all_spec v Hok) as (v1 & Hhide & Hok1 & Ep & Eo & Es & El & Ea).
  destruct (draw_all_spec es [] v1 Hes Hok1) as (v2 & ids & Hrun & [D1 D2 D3 D4 D5 D6 D7 D8 D9 D10 D11]).
  exists (set_pool k (ids ++ pool k v2) v2).
  destruct (pool_set_pool k (ids ++ pool k v2) v2) as [P1 P2].
  destruct (set_pool_same k (ids ++ pool k v2) v2) as (S1 & S2 & _).
  split_and!.
  - unfold view. rewrite (bind_run _ _ _ _ _ Hhide). by rewrite (bind_run _ _ _ _ _ Hrun).
  - unfold pool_ok. rewrite P1, P2, S2, <-app_assoc. done.
  - rewrite P1, length_app, D2, D3, Ep. lia.
  - by rewrite S1, D1, Es.
  - rewrite P1, S1. intros i a Hi. apply lookup_app_Some in Hi as [Hi|[Hge Hi]].
    + assert (i < length es)%nat as Hlt by (rewrite <-D2; by eapply lookup_lt_Some).
      apply lookup_lt_is_Some in Hlt as [e He]. rewrite He, S2. by eapply D9.
    + assert (a ∈ pool k v2) as Hin by by eapply list_elem_of_lookup_2.
      assert (a ∈ pool k v) as Hin1. { rewrite <-Ep. destruct D4 as [l ->]. apply elem_of_app. by left. }
      assert (a < length (arrows v))%nat as Hlt.
      { destruct Hok as [_ Hlt]. apply Hlt, elem_of_app. by left. }
      assert (a ∉ ids) as Hni.
      { intros H. apply NoDup_app in D6 as (_ & D6 & _). apply (D6 a H), elem_of_app. by left. }
      rewrite (lookup_ge_None_2 es i) by lia. rewrite S2, D10 by (by rewrite ?El).
      rewrite Ea, decide_True by done.
      apply lookup_lt_is_Some in Hlt as [ar ->]. by exists (hide ar).
  - intros a Hlt Hni. rewrite S2, D10; [|by rewrite El|].
    + by rewrite Ea, decide_False.
    + intros [H|H]%D8; [|lia]. by rewrite Ep in H.
Qed.

(** A turn that raises after its arrow was shown. *)
Definition turn_fails (e : E) (x : exn) : Prop := ∀ v, ∃ F,
  draw e v = (changed (next k v) F (taken k (set_f_scene (sees e (f_scene v)) v)), Err x) ∧
  ∀ ar, a_visible (F ar) = true.
Context (shows_visible : ∀ s e ar, shows s e ar → a_visible ar = true).
Lemma view_fails pre e post x v :
  Forall turn_ok pre → turn_fails e x → pool_ok k v →
  ∃ v' lost, view (pre ++ e :: post) v = (v', Err x) ∧
    length lost = S (length pre) ∧ NoDup (lost ++ pool k v' ++ pool (other k) v') ∧
    length (pool k v') = (length (pool k v) - S (length pre))%nat ∧
    ∀ a, a ∈ lost → a_visible <$> arrows v' !! a = Some true.
Proof.
  intros Hpre He Hok. destruct (hide_all_spec v Hok) as (v1 & Hhide & Hok1 & Ep & Eo & Es & El & Ea).
  destruct (draw_all_spec pre [] v1 Hpre Hok1) as (v2 & ids & Hrun & [D1 D2 D3 D4 D5 D6 D7 D8 D9 D10 D11]).
  destruct (He v2) as (F & Hdraw & HF). unfold changed in Hdraw.
  set (v0 := set_f_scene (sees e (f_scene v2)) v2) in *.
  assert (pool k v0 = pool k v2 ∧ pool (other k) v0 = pool (other k) v2 ∧ arrows v0 = arrows v2)
    as (Ep0 & Eo0 & Ea0) by (by destruct k).
  assert (next k v0 = next k v2) as En by (unfold next; by rewrite Ep0, Ea0).
  assert (pool_ok k v0) as Hok0.
  { unfold pool_ok. rewrite Ep0, Eo0, Ea0. split; [by apply NoDup_app in D6 as (_ & _ & ?)|].
    intros a Hin. apply D7, elem_of_app. by right. }
  destruct (taken_spec k v0 Hok0) as (T1 & T2 & T3 & T4 & T5 & T6 & T7 & T8 & T9).
  rewrite En, Ep0, Eo0, Ea0 in *. set (v3 := taken k v0) in *. set (a0 := next k v2) in *.
  set (v4 := set_arrows (alter F a0 (arrows v3)) v3) in *.
  assert (pool k v4 = pool k v3 ∧ pool (other k) v4 = pool (other k) v3) as (Ep4 & Eo4) by (by destruct k).
  assert (a0 ∉ ids) as Hni.
  { intros Hin. destruct T7 as [T7|T7].
    - apply NoDup_app in D6 as (_ & D6 & _). apply (D6 a0 Hin), elem_of_app. by left.
    - assert (a0 < length (arrows v2))%nat; [|lia]. apply D7, elem_of_app. by left. }
  exists v4, (ids ++ [a0]). split_and!.
  - unfold view. rewrite (bind_run _ _ _ _ _ Hhide). apply bind_run_err. rewrite draw_all_app.
    rewrite (bind_run _ _ _ _ _ Hrun). cbn [draw_all]. by apply bind_run_err.
  - rewrite length_app, D2. simpl. lia.
  - rewrite <-app_assoc, Ep4, Eo4. simpl. apply NoDup_app in D6 as (N1 & N2 & _).
    apply NoDup_app. split_and!; [done| |done]. intros a Ha Hx. apply elem_of_cons in Hx as [->|Hin]; [done|].
    apply (N2 a Ha). apply elem_of_app in Hin as [Hin|Hin]; apply elem_of_app.
    + left. destruct T4 as [l ->]. apply elem_of_app. by left.
    + right. by rewrite T2 in Hin.
  - rewrite Ep4, T3, D3, Ep. lia.
  - assert (a0 < length (arrows v3))%nat as Hlt3 by (apply T6; by left).
    intros a Ha. apply elem_of_app in Ha as [Ha|Ha%list_elem_of_singleton]; [|subst a]; simpl;
      rewrite list_lookup_alter.
    + rewrite decide_False by congruence. rewrite T8 by (apply D7, elem_of_app; by left).
      apply list_elem_of_lookup_1 in Ha as [i Hi].
      assert (i < length pre)%nat as Hlt by (rewrite <-D2; by eapply lookup_lt_Some).
      apply lookup_lt_is_Some in Hlt as [e' He']. destruct (D9 i e' a He' Hi) as (ar & -> & Hs).
      simpl. f_equal. by eapply shows_visible.
    + rewrite decide_True by done. apply lookup_lt_is_Some in Hlt3 as [ar ->]. simpl. by rewrite HF.
Qed.
End loop.

(** ** What the views show *)

Lemma changed_changed a f g v : changed a g (changed a f v) = changed a (g ∘ f) v.
Proof.
  unfold changed, set_arrows. simpl. f_equal. apply list_eq. intros i. rewrite !list_lookup_alter.
  rewrite (decide_True (P := a = a)) by done. case_decide; [|done]. by destruct (arrows v !! a).
Qed.
Lemma bind_change {A} a f (h : unit → io A) v : (change a f ≫= h) v = h () (changed a f v).
Proof. done. Qed.
Lemma bind_position {A} i p (h : float * float → io A) v :
  end_position (f_scene v) (ENode i) = Some p → (node_position i ≫= h) v = h p v.
Proof. unfold node_position, mbind, eff_bind. by intros ->. Qed.
Lemma taken_scene k v : f_scene (taken k v) = f_scene v.
Proof. unfold taken. destruct (last (pool k v)); [by destruct k|done]. Qed.
Lemma end_position_get_node i s e p :
  end_position s e = Some p → end_position (get_node i s) e = Some p.
Proof.
  destruct e as [j|c]; simpl; [|by destruct (get_node_keeps i s) as (-> & _)].
  rewrite get_node_get. by destruct (dict_get (nodes s) j).
Qed.
Lemma end_position_new i s : ∃ p, end_position (get_node i s) (ENode i) = Some p.
Proof.
  simpl. rewrite get_node_get. destruct (dict_get (nodes s) i); [by eexists|].
  rewrite decide_True by done. by eexists.
Qed.

Section shown.
Context `{VizLib} (c : controls) (font : Z) (font_ok : font_size c = Ok font).

Definition sees_transmission (e : Z * Z * (Z * Z)) (s : scene) : scene :=
  get_node e.1.2 (get_node e.1.1 s).
(** The arrow runs from the transmitter to the receiver, its width and its
    label say how much it carries. *)
Definition shows_transmission (s : scene) (e : Z * Z * (Z * Z)) (ar : arrow) : Prop :=
  ∃ x1 y1 x2 y2 w kbps,
    end_position s (ENode e.1.1) = Some (x1, y1) ∧ end_position s (ENode e.1.2) = Some (x2, y2) ∧
    line_width c e.2.1 e.2.2 = Ok w ∧ kbit_rate c e.2.1 e.2.2 = Ok kbps ∧
    a_visible ar = true ∧ a_width ar = w ∧ a_points ar = Some (x1, y1, x2, y2) ∧
    l_visible ar = true ∧ l_font ar = font ∧
    (let angle := atan2 (fsub y2 y1) (fsub x2 x1) in
     l_text ar = rate_text angle kbps ∧
     (set_transform_works = true →
      let '(lx, ly) := _get_label_over_line_position c (bounds s) x1 y1 x2 y2 in
      l_transform ar = Some (lx, ly, label_angle angle))).
Definition drawable (bytes count : Z) : Prop :=
  is_Some (match line_width c bytes count, kbit_rate c bytes count with
           | Ok w, Ok r => Some (w, r) | _, _ => None end).

Lemma transmission_turn e :
  drawable e.2.1 e.2.2 →
  turn_ok (draw_transmission c) Transmissions sees_transmission shows_transmission e.
Proof.
  intros Hd v. destruct e as [[t r] [b n]]. unfold drawable in Hd. simpl in Hd.
  destruct (line_width c b n) as [w|] eqn:Hw; [|by destruct Hd].
  destruct (kbit_rate c b n) as [kbps|] eqn:Hk; [|by destruct Hd].
  unfold draw_transmission, see_node, sees_transmission. cbn beta iota zeta delta [fst snd].
  rewrite !bind_modify. cbn [f_scene set_f_scene].
  set (s := get_node r (get_node t (f_scene v))). set (v0 := set_f_scene s v).
  change (set_f_scene s (set_f_scene _ v)) with v0.
  rewrite (bind_run _ _ _ _ _ (take_arrow_run Transmissions v0)).
  change (next Transmissions v0) with (next Transmissions v). set (a := next Transmissions v).
  set (v1 := taken Transmissions v0). assert (f_scene v1 = s) as Hs by apply taken_scene.
  destruct (end_position_new t (f_scene v)) as [[x1 y1] Hp%(end_position_get_node r)].
  destruct (end_position_new r (get_node t (f_scene v))) as [[x2 y2] Hq]. fold s in Hp, Hq.
  assert (∀ f, f_scene (changed a f v1) = s) as Hsc by done.
  rewrite bind_change, Hw, bind_lift_ok, bind_change, changed_changed.
  rewrite (bind_position t (x1, y1)) by by rewrite Hsc.
  rewrite (bind_position r (x2, y2)) by by rewrite Hsc.
  rewrite bind_change, changed_changed, Hk, bind_lift_ok, font_ok, bind_lift_ok.
  rewrite !bind_change, !changed_changed. fold s.
  rewrite bind_gets. change (bounds (f_scene _)) with (bounds (f_scene v1)). rewrite Hs.
  destruct (_get_label_over_line_position c (bounds s) x1 y1 x2 y2) as [lx ly] eqn:El.
  rewrite bind_change, changed_changed. eexists. split; [reflexivity|].
  intros ar. exists x1, y1, x2, y2, w, kbps. cbn beta iota zeta delta [fst snd].
  rewrite El. unfold compose. destruct set_transform_works; split_and!; done.
Qed.
Lemma transmission_mono s e e' ar :
  shows_transmission s e ar → shows_transmission (sees_transmission e' s) e ar.
Proof.
  intros (x1 & y1 & x2 & y2 & w & kbps & H1 & H2 & Hs). exists x1, y1, x2, y2, w, kbps.
  assert (bounds (sees_transmission e' s) = bounds s) as ->.
  { unfold sees_transmission. destruct (get_node_keeps e'.1.2 (get_node e'.1.1 s)) as (_ & _ & -> & _).
    by destruct (get_node_keeps e'.1.1 s) as (_ & _ & -> & _). }
  split; [by do 2 apply end_position_get_node|]. split; [by do 2 apply end_position_get_node|done].
Qed.
Lemma transmission_visible s e ar : shows_transmission s e ar → a_visible ar = true.
Proof. by intros (? & ? & ? & ? & ? & ? & _ & _ & _ & _ & ? & _). Qed.
Lemma transmission_fails e x :
  line_width c e.2.1 e.2.2 = Err x →
  turn_fails (draw_transmission c) Transmissions sees_transmission e x.
Proof.
  intros Hw v. destruct e as [[t r] [b n]]. simpl in Hw.
  unfold draw_transmission, see_node, sees_transmission. cbn beta iota zeta delta [fst snd].
  rewrite !bind_modify. cbn [f_scene set_f_scene].
  set (s := get_node r (get_node t (f_scene v))). set (v0 := set_f_scene s v).
  change (set_f_scene s (set_f_scene _ v)) with v0.
  rewrite (bind_run _ _ _ _ _ (take_arrow_run Transmissions v0)).
  rewrite bind_change, Hw, bind_lift_err. by eexists.
Qed.

(** The arrow of the drops of a node points down to the edge of the window. *)
Definition sees_drop (e : Z * (Z * Z)) (s : scene) : scene := get_node e.1 s.
Definition shows_drop (edge_y : float) (s : scene) (e : Z * (Z * Z)) (ar : arrow) : Prop :=
  ∃ x1 y1 w kbps,
    end_position s (ENode e.1) = Some (x1, y1) ∧
    line_width c e.2.1 e.2.2 = Ok w ∧ kbit_rate c e.2.1 e.2.2 = Ok kbps ∧
    a_visible ar = true ∧ a_width ar = w ∧ a_points ar = Some (x1, y1, x1, edge_y) ∧
    l_visible ar = true ∧ l_font ar = font ∧ l_text ar = format_fixed 2 kbps +:+ " kbit/s" ∧
    l_x ar = fhalf (fadd x1 x1) ∧ l_y ar = fhalf (fadd y1 edge_y).
Lemma drop_turn edge_y e :
  drawable e.2.1 e.2.2 → turn_ok (draw_drop c edge_y) Drops sees_drop (shows_drop edge_y) e.
Proof.
  intros Hd v. destruct e as [t [b n]]. unfold drawable in Hd. simpl in Hd.
  destruct (line_width c b n) as [w|] eqn:Hw; [|by destruct Hd].
  destruct (kbit_rate c b n) as [kbps|] eqn:Hk; [|by destruct Hd].
  unfold draw_drop, see_node, sees_drop. cbn beta iota zeta delta [fst snd].
  rewrite !bind_modify. set (s := get_node t (f_scene v)). set (v0 := set_f_scene s v).
  rewrite (bind_run _ _ _ _ _ (take_arrow_run Drops v0)).
  change (next Drops v0) with (next Drops v). set (a := next Drops v).
  set (v1 := taken Drops v0). assert (f_scene v1 = s) as Hs by apply taken_scene.
  destruct (end_position_new t (f_scene v)) as [[x1 y1] Hp]. fold s in Hp.
  assert (∀ f, f_scene (changed a f v1) = s) as Hsc by done.
  rewrite bind_change, Hw, bind_lift_ok, bind_change, changed_changed.
  rewrite (bind_position t (x1, y1)) by by rewrite Hsc.
  rewrite bind_change, changed_changed, font_ok, bind_lift_ok, Hk, bind_lift_ok.
  rewrite !bind_change, !changed_changed. eexists. split; [reflexivity|].
  intros ar. by exists x1, y1, w, kbps.
Qed.
Lemma drop_mono edge_y s e e' ar :
  shows_drop edge_y s e ar → shows_drop edge_y (sees_drop e' s) e ar.
Proof.
  intros (x1 & y1 & w & kbps & H1 & Hs). exists x1, y1, w, kbps.
  split; [by apply end_position_get_node|done].
Qed.
Lemma drop_visible edge_y s e ar : shows_drop edge_y s e ar → a_visible ar = true.
Proof. by intros (? & ? & ? & ? & _ & _ & _ & ? & _). Qed.
End shown.

(** C21: Updating the view of the transmissions.  When the width and the rate
    of every average are numbers, it succeeds: the arrows of the pool stay
    distinct objects, as many as there were or as many as are needed; the
    first ones show the averages in order, one each, from the present position
    of the transmitter to that of the receiver; the others are hidden; arrows
    outside of the pool are untouched.  When the logarithm of an average fails
    (a key whose samples hold no bytes), the exception leaves the update, and
    the arrows drawn until then stay visible and are in no pool any more. *)
Theorem transmissions_view `{VizLib} c font v :
  font_size c = Ok font → pool_ok Transmissions v →
  (Forall (λ e, drawable c e.2.1 e.2.2) (transmissions_average v) →
   ∃ v', _update_transmissions_view c v = (v', Ok ()) ∧ pool_ok Transmissions v' ∧
     length (_transmission_arrows v') =
       Nat.max (length (_transmission_arrows v)) (length (transmissions_average v)) ∧
     (∀ i a, _transmission_arrows v' !! i = Some a → ∃ ar, arrows v' !! a = Some ar ∧
        match transmissions_average v !! i with
        | Some e => shows_transmission c font (f_scene v') e ar
        | None => a_visible ar = false ∧ l_visible ar = false
        end) ∧
     ∀ a, (a < length (arrows v))%nat → a ∉ _transmission_arrows v → arrows v' !! a = arrows v !! a) ∧
  (∀ pre e post x,
   transmissions_average v = pre ++ e :: post →
   Forall (λ e, drawable c e.2.1 e.2.2) pre → line_width c e.2.1 e.2.2 = Err x →
   ∃ v' lost, _update_transmissions_view c v = (v', Err x) ∧ length lost = S (length pre) ∧
     NoDup (lost ++ _transmission_arrows v' ++ _drop_arrows v') ∧
     ∀ a, a ∈ lost → a_visible <$> arrows v' !! a = Some true).
Proof.
  intros Hf Hok. pose proof (transmission_turn c font Hf) as Hturn.
  unfold _update_transmissions_view. split.
  - intros Hd. rewrite bind_gets.
    destruct (view_ok (draw_transmission c) Transmissions sees_transmission (shows_transmission c font)
      (transmission_mono c font) (transmissions_average v) v) as (v' & H1 & H2 & H3 & _ & H5 & H6);
      [eapply Forall_impl; eauto|done|]. by exists v'.
  - intros pre e post x Hes Hpre Hx. rewrite bind_gets, Hes.
    destruct (view_fails (draw_transmission c) Transmissions sees_transmission (shows_transmission c font)
      (transmission_mono c font) (transmission_visible c font) pre e post x v)
      as (v' & lost & H1 & H2 & H3 & _ & H5);
      [eapply Forall_impl; eauto|by apply transmission_fails|done|]. by exists v', lost.
Qed.

(** The same for the drops. *)
Theorem drops_view `{VizLib} c font v :
  font_size c = Ok font → pool_ok Drops v →
  Forall (λ e, drawable c e.2.1 e.2.2) (drops_average v) →
  let edge_y := (convert_from_pixels (bounds (f_scene v)) (canvas_scale c) fzero
                   (fadd (value (vadj c)) (page_size (vadj c)))).2 in
  ∃ v', _update_drops_view c v = (v', Ok ()) ∧ pool_ok Drops v' ∧
    length (_drop_arrows v') = Nat.max (length (_drop_arrows v)) (length (drops_average v)) ∧
    (∀ i a, _drop_arrows v' !! i = Some a → ∃ ar, arrows v' !! a = Some ar ∧
       match drops_average v !! i with
       | Some e => shows_drop c font edge_y (f_scene v') e ar
       | None => a_visible ar = false ∧ l_visible ar = false
       end) ∧
    ∀ a, (a < length (arrows v))%nat → a ∉ _drop_arrows v → arrows v' !! a = arrows v !! a.
Proof.
  intros Hf Hok Hd. cbv zeta. set (edge_y := snd _).
  assert (_update_drops_view c v = view (draw_drop c edge_y) Drops (drops_average v) v) as ->.
  { unfold _update_drops_view, view. rewrite bind_gets.
    destruct (hide_all_spec Drops v Hok) as (v1 & Hhide & _ & _ & _ & Es & _).
    rewrite !(bind_run _ _ _ _ _ Hhide), bind_gets, Es. unfold edge_y.
    by destruct (convert_from_pixels _ _ _ _). }
  destruct (view_ok (draw_drop c edge_y) Drops sees_drop (shows_drop c font edge_y)
    (drop_mono c font edge_y) (drops_average v) v) as (v' & H1 & H2 & H3 & _ & H5 & H6);
    [eapply Forall_impl; [done|]; intros e He; by apply drop_turn|done|]. by exists v'.
Qed.

(** What is shown comes from the last [n] intervals, [n] being ten times
    the smoothing.  After any intervals that were sampled with that smoothing
    the windows hold exactly the last [n] of them, and the average of two
    nodes is the sum of the bytes and the number of their transmissions in
    that window, with no average for nodes without any. *)
Theorem window_averages c n l v :
  py_int (PFloat (fmul (smoothing c) (float_int 10))) = Ok (Z.of_nat n) →
  _last_transmissions v = [] → _last_drops v = [] →
  ∃ v', ticks c l v = (v', Ok ()) ∧
    _last_transmissions v' = drop (length l - n) l.*1 ∧ _last_drops v' = drop (length l - n) l.*2 ∧
    NoDup (transmissions_average v').*1 ∧
    ∀ t r, dict_get (transmissions_average v') (t, r)
      = average_of (t_bytes <$> filter (λ x, transmitter x = t ∧ receiver x = r)
          (mjoin (drop (length l - n) l.*1))).
Proof.
  intros Hn H1 H2. destruct (ticks_window c n l v Hn) as (v' & Hrun & E1 & E2);
    [rewrite ?H1, ?H2; simpl; lia..|].
  rewrite H1 in E1. rewrite H2 in E2. simpl in E1, E2. rewrite length_fmap in E1. rewrite length_fmap in E2.
  exists v'. split_and!; [done..|apply averages_keys|]. intros t r. unfold transmissions_average.
  rewrite averages_get, E1. f_equal. unfold own_bytes.
  induction (mjoin (drop (length l - n) l.*1)) as [|x xs IH]; [done|].
  rewrite fmap_cons, !filter_cons. cbn [fst].
  destruct (decide (transmitter x = t ∧ receiver x = r)) as [[-> ->]|Hne].
  - rewrite decide_True by done. rewrite !fmap_cons. by rewrite IH.
  - by rewrite decide_False by (intros [= ? ?]; by apply Hne).
Qed.

(** ** What holds whatever raises *)

(** The arrows in hand and in the pools are distinct objects of the canvas. *)
Definition in_hand (ids : list nat) (k : kind) (v : flows) : Prop :=
  NoDup (ids ++ pool k v ++ pool (other k) v) ∧
  ∀ a, a ∈ ids ++ pool k v ++ pool (other k) v → (a < length (arrows v))%nat.
Lemma in_hand_none k v : in_hand [] k v ↔ pool_ok k v.
Proof. done. Qed.
Lemma in_hand_drop ids a k v : in_hand (ids ++ [a]) k v → in_hand ids k v.
Proof.
  unfold in_hand. rewrite <-!app_assoc. simpl. intros [Hnd Hlt]. split.
  - apply NoDup_app in Hnd as (H1 & H2 & H3). apply NoDup_cons in H3 as [_ H3].
    apply NoDup_app. split_and!; [done| |done]. intros x Hx Hin. apply (H2 x Hx). by right.
  - intros x Hx. apply Hlt. apply elem_of_app in Hx as [Hx|Hx]; apply elem_of_app; [by left|right; by right].
Qed.
Lemma pool_ok_other k v : pool_ok k v → pool_ok (other k) v.
Proof.
  assert (other (other k) = k) as Ho by by destruct k.
  unfold pool_ok. rewrite Ho. intros [Hnd Hlt]. split; [by rewrite Permutation_app_comm|].
  intros a Ha. apply Hlt. by rewrite Permutation_app_comm.
Qed.
Lemma take_in_hand ids k v :
  in_hand ids k v → in_hand (ids ++ [next k v]) k (taken k v).
Proof.
  intros [Hnd Hlt]. pose proof Hnd as (H1 & H2 & H3)%NoDup_app.
  assert (pool_ok k v) as Hok. { split; [done|]. intros a Ha. apply Hlt, elem_of_app. by right. }
  destruct (taken_spec k v Hok) as (_ & T2 & _ & T4 & T5 & T6 & T7 & _ & T9).
  unfold in_hand. rewrite <-app_assoc. simpl. split.
  - apply NoDup_app. split_and!; [done| |done]. intros a Ha Hin.
    apply elem_of_cons in Hin as [->|Hin].
    + destruct T7 as [T7|T7]; [apply (H2 _ Ha), elem_of_app; by left|].
      assert (next k v < length (arrows v))%nat; [|lia]. apply Hlt, elem_of_app. by left.
    + apply (H2 a Ha). rewrite T2 in Hin. apply elem_of_app in Hin as [Hin|Hin]; apply elem_of_app; [left|by right].
      destruct T4 as [l ->]. apply elem_of_app. by left.
  - intros a Ha. apply elem_of_app in Ha as [Ha|Ha]; [|by apply T6].
    assert (a < length (arrows v))%nat by (apply Hlt, elem_of_app; by left). lia.
Qed.

(** A step that leaves the pools, the objects and the scene alone. *)
Definition quiet {A} (m : io A) : Prop := ∀ v,
  let v' := (m v).1 in
  f_scene v' = f_scene v ∧ length (arrows v') = length (arrows v) ∧
  _transmission_arrows v' = _transmission_arrows v ∧ _drop_arrows v' = _drop_arrows v.
Lemma quiet_bind {A B} (m : io A) (h : A → io B) : quiet m → (∀ a, quiet (h a)) → quiet (m ≫= h).
Proof.
  intros Hm Hh v. unfold mbind, eff_bind. destruct (m v) as [v1 [a|e]] eqn:E.
  - destruct (Hm v) as (E1 & E2 & E3 & E4), (Hh a v1) as (F1 & F2 & F3 & F4). rewrite E in *. simpl in *.
    split_and!; congruence.
  - pose proof (Hm v) as H. by rewrite E in H.
Qed.
Lemma quiet_change a f : quiet (change a f).
Proof. intros v. simpl. by rewrite length_alter. Qed.
Lemma quiet_still {A} (f : flows → res A) : quiet (λ v, (v, f v)).
Proof. done. Qed.
Lemma quiet_ret {A} (a : A) : quiet (mret a).
Proof. done. Qed.
Lemma quiet_lift {A} (r : res A) : quiet (lift_res r).
Proof. done. Qed.
Lemma quiet_gets {A} (f : flows → A) : quiet (gets f).
Proof. done. Qed.
Lemma quiet_in_hand {A} ids k (m : io A) v : quiet m → in_hand ids k v → in_hand ids k (m v).1.
Proof. intros Hm. destruct (Hm v) as (_ & E1 & E2 & E3). unfold in_hand. destruct k; simpl in *; by rewrite E1, E2, E3. Qed.
Create HintDb quiet.
#[export] Hint Resolve quiet_bind quiet_change quiet_still quiet_ret quiet_lift quiet_gets : quiet.

(** A quiet step that can only answer [a]. *)
Definition quiet_to (a : nat) (m : io nat) : Prop :=
  quiet m ∧ ∀ v, match (m v).2 with Ok b => b = a | Err _ => True end.
Lemma quiet_to_bind {A} a (m : io A) (h : A → io nat) :
  quiet m → (∀ x, quiet_to a (h x)) → quiet_to a (m ≫= h).
Proof.
  intros Hm Hh. split; [apply quiet_bind; [done|]; intros x; apply Hh|]. intros v.
  unfold mbind, eff_bind. destruct (m v) as [v1 [x|e]]; [apply Hh|done].
Qed.
Lemma quiet_to_ret a : quiet_to a (mret a).
Proof. done. Qed.
Ltac quiet_steps :=
  repeat (first [apply quiet_to_bind; [by auto with quiet|intros ?]|apply quiet_to_ret|
                 match goal with |- quiet_to _ (match ?x with _ => _ end) => destruct x end]).

(** A property of the scene that new nodes keep. *)
Class scene_closed (P : scene → Prop) : Prop := closed_get_node : ∀ i s, P s → P (get_node i s).

Section any_outcome.
Context `{VizLib} (P : scene → Prop) `{!scene_closed P}.
Definition good (ids : list nat) (k : kind) (v : flows) : Prop := P (f_scene v) ∧ in_hand ids k v.
Lemma good_quiet {A} ids k (m : io A) v : quiet m → good ids k v → good ids k (m v).1.
Proof. intros Hm [Hp Hi]. split; [by destruct (Hm v) as (-> & _)|by apply quiet_in_hand]. Qed.
Lemma good_see ids k i v : good ids k v → good ids k (set_f_scene (get_node i (f_scene v)) v).
Proof. intros [Hp Hi]. split; [by apply closed_get_node|]. by destruct k. Qed.
Lemma good_taken ids k v : good ids k v → good (ids ++ [next k v]) k (taken k v).
Proof. intros [Hp Hi]. split; [by rewrite taken_scene|by apply take_in_hand]. Qed.

(** After a turn the arrow that it answers is in hand as well. *)
Definition turns {E} (k : kind) (draw : E → io nat) : Prop := ∀ e ids v,
  good ids k v →
  match draw e v with (v', Ok a) => good (ids ++ [a]) k v' | (v', Err _) => good ids k v' end.
Lemma turn_rest ids k a (m : io nat) v :
  quiet_to a m → good (ids ++ [a]) k v →
  match m v with (v', Ok b) => good (ids ++ [b]) k v' | (v', Err _) => good ids k v' end.
Proof.
  intros [Hq Hr] Hg. pose proof (good_quiet _ _ _ _ Hq Hg) as Hg'. specialize (Hr v).
  destruct (m v) as [v' [b|e]]; simpl in *; [by subst|]. destruct Hg' as [? Hi]. split; [done|].
  by apply in_hand_drop in Hi.
Qed.
Lemma transmission_turns c : turns Transmissions (draw_transmission c).
Proof.
  intros [[t r] [b n]] ids v Hg. unfold draw_transmission, see_node. rewrite !bind_modify.
  apply (good_see _ _ t), (good_see _ _ r) in Hg. cbn [f_scene set_f_scene] in Hg.
  rewrite (bind_run _ _ _ _ _ (take_arrow_run Transmissions _)).
  refine (turn_rest _ _ _ _ _ _ (good_taken _ _ _ Hg)). quiet_steps.
Qed.
Lemma drop_turns c y : turns Drops (draw_drop c y).
Proof.
  intros [t [b n]] ids v Hg. unfold draw_drop, see_node. rewrite !bind_modify.
  apply (good_see _ _ t) in Hg. cbn [f_scene set_f_scene] in Hg.
  rewrite (bind_run _ _ _ _ _ (take_arrow_run Drops _)).
  refine (turn_rest _ _ _ _ _ _ (good_taken _ _ _ Hg)). quiet_steps.
Qed.
Lemma draw_all_good {E} k (draw : E → io nat) es ids v :
  turns k draw → good ids k v →
  match draw_all draw ids es v with
  | (v', Ok ids') => good ids' k v' | (v', Err _) => good [] k v' end.
Proof.
  intros Ht. revert ids v. induction es as [|e es IH]; intros ids v Hg; [done|].
  cbn [draw_all]. unfold mbind, eff_bind. specialize (Ht e ids v Hg).
  destruct (draw e v) as [v1 [a|x]]; [by apply IH|]. destruct Ht as [Hp [Hnd Hlt]]. split; [done|].
  split; [by apply NoDup_app in Hnd as (_ & _ & ?)|]. intros a Ha. apply Hlt, elem_of_app. by right.
Qed.
Lemma view_good {E} k (draw : E → io nat) es v :
  turns k draw → good [] k v → good [] k (view draw k es v).1.
Proof.
  intros Ht Hg. unfold view. assert (quiet (hide_all k)) as Hq.
  { intros v0. unfold hide_all. generalize (pool k v0) as l. intros l. revert v0.
    induction l as [|a l IH]; intros v0; [done|]. apply (quiet_bind _ _ (quiet_change a hide)). done. }
  apply (good_quiet _ _ _ _ Hq) in Hg. unfold mbind, eff_bind.
  destruct (hide_all k v) as [v1 [[]|e]]; [|done]. pose proof (draw_all_good k draw es [] v1 Ht Hg) as H1.
  destruct (draw_all draw [] es v1) as [v2 [ids|e]]; [|done]. simpl.
  destruct H1 as [Hp Hi]. destruct (set_pool_same k (ids ++ pool k v2) v2) as (E1 & E2 & _).
  destruct (pool_set_pool k (ids ++ pool k v2) v2) as [E3 E4].
  split; [by rewrite E1|]. unfold in_hand in *. rewrite E2, E3, E4. simpl. by rewrite <-app_assoc.
Qed.
(** The updates keep the pools and the scene in order, whatever they raise. *)
Lemma update_views_good c v :
  P (f_scene v) → pool_ok Transmissions v →
  (P (f_scene (_update_transmissions_view c v).1) ∧ pool_ok Transmissions (_update_transmissions_view c v).1) ∧
  (P (f_scene (_update_drops_view c v).1) ∧ pool_ok Transmissions (_update_drops_view c v).1).
Proof.
  intros Hp Hok. split.
  - unfold _update_transmissions_view. rewrite bind_gets.
    by apply (view_good Transmissions _ _ v (transmission_turns c)).
  - pose proof (pool_ok_other _ _ Hok) as Hok'. change (other Transmissions) with Drops in Hok'.
    assert (∃ y, _update_drops_view c v = view (draw_drop c y) Drops (drops_average v) v) as [y ->].
    { unfold _update_drops_view, view. rewrite bind_gets.
      destruct (hide_all_spec Drops v Hok') as (v1 & Hhide & _ & _ & _ & Es & _).
      destruct (convert_from_pixels (bounds (f_scene v)) (canvas_scale c) fzero
        (fadd (value (vadj c)) (page_size (vadj c)))) as [x0 y] eqn:E.
      exists y. rewrite !(bind_run _ _ _ _ _ Hhide), bind_gets, Es. by rewrite E. }
    destruct (view_good Drops _ (drops_average v) v (drop_turns c y)) as [H1 H2]; [done|].
    split; [done|]. apply (pool_ok_other Drops). done.
Qed.
End any_outcome.

(** ** Examples *)

(** A canvas that does not scroll, a logarithm that counts binary digits. *)
#[local] Instance demo_lib : VizLib :=
  {| convert_from_pixels b s x y := (x, y); convert_to_pixels b s x y := (x, y);
     LineClipping b l := l;
     log_pos x := match x with S754_finite _ m e => float_int (Z.log2 (Zpos m) + e) | _ => fzero end;
     atan2 y x := if flt x fzero then pi else fzero; set_transform_works := true |}.
Definition demo_controls : controls :=
  {| hadj := {| value := fzero; page_size := float_int 600 |};
     vadj := {| value := fzero; page_size := float_int 450 |};
     canvas_scale := float_int 1; node_size := float_int 5; smoothing := lit 2 (-1);
     sample_period := lit 1 (-1) |}.
Definition demo_scene : scene :=
  set_position 1 (float_int 30) (float_int 40) (get_node 1 (get_node 0 (empty_scene true))).
Definition no_flows : flows := Flows demo_scene [] [] [] [] [].
Definition sent (t r b : Z) : transmission := {| transmitter := t; receiver := r; t_bytes := b |}.
Definition demo_ticks : list (list transmission * list dropped) :=
  [([sent 0 1 9999], []); ([sent 0 1 1000; sent 1 0 500], []); ([sent 0 1 2000], [])].
Definition demo_flows : flows :=
  set_last_transmissions [[sent 0 1 1000; sent 1 0 500]; [sent 0 1 2000]]
    (set_last_drops [[]; []] no_flows).

Lemma window_averages_witness :
  py_int (PFloat (fmul (smoothing demo_controls) (float_int 10))) = Ok (Z.of_nat 2) ∧
  ∃ v', ticks demo_controls demo_ticks no_flows = (v', Ok ()) ∧
        dict_get (transmissions_average v') (0, 1) = Some (3000, 2).
Proof.
  assert (py_int (PFloat (fmul (smoothing demo_controls) (float_int 10))) = Ok (Z.of_nat 2)) as Hn
    by (vm_compute; reflexivity).
  split; [exact Hn|].
  destruct (window_averages demo_controls 2 demo_ticks no_flows Hn eq_refl eq_refl)
    as (v' & Hrun & _ & _ & _ & Havg).
  exists v'. split; [exact Hrun|]. rewrite Havg. vm_compute. reflexivity.
Defined.

(** A third pair of nodes sends a packet without bytes. *)
Definition demo_bad : flows :=
  set_last_transmissions [[sent 0 1 1000; sent 1 0 0; sent 0 2 700]] demo_flows.
Lemma no_pool_ok : NoDup (@nil nat) ∧ ∀ a, a ∈ @nil nat → (a < 0)%nat.
Proof. split; [apply NoDup_nil_2|]. intros a Ha. by apply elem_of_nil in Ha. Qed.
Lemma transmissions_view_witness :
  font_size demo_controls = Ok 11 ∧ pool_ok Transmissions demo_flows ∧
  (∃ v', _update_transmissions_view demo_controls demo_flows = (v', Ok ())) ∧
  (∃ v' (lost : list nat), _update_transmissions_view demo_controls demo_bad
     = (v', Err (ValueError "math domain error")) ∧ length lost = 2%nat).
Proof.
  assert (font_size demo_controls = Ok 11) as Hf by (vm_compute; reflexivity).
  assert (pool_ok Transmissions demo_flows) as Hok.
  { exact no_pool_ok. }
  assert (pool_ok Transmissions demo_bad) as Hbad.
  { exact no_pool_ok. }
  split; [exact Hf|]. split; [exact Hok|]. split.
  - destruct (transmissions_view demo_controls 11 demo_flows Hf Hok) as [Hgood _].
    destruct Hgood as (v' & Hrun & _); [|by exists v'].
    assert (transmissions_average demo_flows = [((0, 1), (3000, 2)); ((1, 0), (500, 1))]) as ->
      by (vm_compute; reflexivity).
    apply Forall_cons; split; [|apply Forall_cons; split; [|apply Forall_nil; exact I]];
      unfold drawable; vm_compute; eexists; reflexivity.
  - destruct (transmissions_view demo_controls 11 demo_bad Hf Hbad) as [_ Hfail].
    destruct (Hfail [((0, 1), (1000, 1))] ((1, 0), (0, 1)) [((0, 2), (700, 1))]
      (ValueError "math domain error")) as (v' & lost & Hrun & Hlen & _).
    + vm_compute. reflexivity.
    + apply Forall_cons; split; [|apply Forall_nil; exact I]. unfold drawable. vm_compute. eexists. reflexivity.
    + vm_compute. reflexivity.
    + exists v', lost. split; [exact Hrun|exact Hlen].
Defined.

Example transmissions_labels :
  (λ a, (a_visible a, a_points a, l_text a)) <$>
    arrows (_update_transmissions_view demo_controls demo_flows).1
  = [(true, Some (fzero, fzero, float_int 30, float_int 40), "120.00 kbit/s →");
     (true, Some (float_int 30, float_int 40, fzero, fzero), "← 40.00 kbit/s")].
Proof. vm_compute. reflexivity. Qed.
