(* ===== verification/VizView.v ===== *)
(** * visualizer/core.py: the state that the user and the simulation change
    Selection, the mode of the transmissions, following, dragging, panning,
    the controls and the updates of [Visualizer], over the drawn objects of
    VizNodes and the flows of VizFlows.  Every handler runs with the
    simulation stopped (VizLoop says why); what it did before an exception
    stays done.  Mobility models are the positions of the simulator's nodes. *)
From Stdlib Require Import SpecFloat.
From S2P Require Import Prelude PyStr PyNum PyFloat VizNodes VizFlows.
#[local] Open Scope Z_scope.

(** ** Data *)

Inductive ShowTransmissionsMode : Type := ALL | NONE | SELECTED.
#[export] Instance mode_eq_dec : EqDecision ShowTransmissionsMode.
Proof. solve_decision. Defined.

Record NodeDragState := {
  canvas_x0 : float; canvas_y0 : float;
  sim_x0 : float; sim_y0 : float;
  motion_signal : nat;
}.
Record PanningState := {
  initial_mouse_pos : float * float;
  initial_canvas_pos : float * float;
  pan_signal : nat;
}.

(** [mobility] belongs to the simulator; [_has_mobility] is what the nodes
    remember of it.  [handlers] are the motion handlers that are connected: of
    a node, or of the canvas. *)
Record viz := Viz {
  flow : flows;
  ctl : controls;
  zoom_value : float;
  _show_transmissions_mode : ShowTransmissionsMode;
  selected_node : option Z;
  nodes_of_interest : list Z;
  mobility : list (Z * (float * float));
  _has_mobility : list (Z * bool);
  follow_node : option Z;
  node_drag_state : option NodeDragState;
  _panning_state : option PanningState;
  handlers : list (nat * option Z);
  next_signal : nat;
}.
Abbreviation vio := (eff viz exn).
Definition views (v : viz) : scene := f_scene (flow v).

Definition set_flow (f : flows) (v : viz) : viz :=
  Viz f (ctl v) (zoom_value v) (_show_transmissions_mode v) (selected_node v) (nodes_of_interest v)
    (mobility v) (_has_mobility v) (follow_node v) (node_drag_state v) (_panning_state v) (handlers v)
    (next_signal v).
Definition set_ctl (c : controls) (v : viz) : viz :=
  Viz (flow v) c (zoom_value v) (_show_transmissions_mode v) (selected_node v) (nodes_of_interest v)
    (mobility v) (_has_mobility v) (follow_node v) (node_drag_state v) (_panning_state v) (handlers v)
    (next_signal v).
Definition set_zoom (z : float) (v : viz) : viz :=
  Viz (flow v) (ctl v) z (_show_transmissions_mode v) (selected_node v) (nodes_of_interest v)
    (mobility v) (_has_mobility v) (follow_node v) (node_drag_state v) (_panning_state v) (handlers v)
    (next_signal v).
Definition set_selection (m : ShowTransmissionsMode) (sel : option Z) (l : list Z) (v : viz) : viz :=
  Viz (flow v) (ctl v) (zoom_value v) m sel l
    (mobility v) (_has_mobility v) (follow_node v) (node_drag_state v) (_panning_state v) (handlers v)
    (next_signal v).
Definition set_mobility (m : list (Z * (float * float))) (h : list (Z * bool)) (v : viz) : viz :=
  Viz (flow v) (ctl v) (zoom_value v) (_show_transmissions_mode v) (selected_node v) (nodes_of_interest v)
    m h (follow_node v) (node_drag_state v) (_panning_state v) (handlers v) (next_signal v).
Definition set_follow (f : option Z) (v : viz) : viz :=
  Viz (flow v) (ctl v) (zoom_value v) (_show_transmissions_mode v) (selected_node v) (nodes_of_interest v)
    (mobility v) (_has_mobility v) f (node_drag_state v) (_panning_state v) (handlers v) (next_signal v).
Definition set_states (d : option NodeDragState) (p : option PanningState)
    (h : list (nat * option Z)) (n : nat) (v : viz) : viz :=
  Viz (flow v) (ctl v) (zoom_value v) (_show_transmissions_mode v) (selected_node v) (nodes_of_interest v)
    (mobility v) (_has_mobility v) (follow_node v) d p h n.

Definition on_scene (f : scene → scene) : vio unit :=
  modify (λ v, set_flow (set_f_scene (f (views v)) (flow v)) v).
(** [hadj.set_value] and [vadj.set_value], as GTK clamps them. *)
Definition scrolled (x y : float) (c : controls) : controls :=
  {| hadj := {| value := x; page_size := page_size (hadj c) |};
     vadj := {| value := y; page_size := page_size (vadj c) |};
     canvas_scale := canvas_scale c; node_size := node_size c; smoothing := smoothing c;
     sample_period := sample_period c |}.
Definition with_sizes (sc sz sm sp : float) (c : controls) : controls :=
  {| hadj := hadj c; vadj := vadj c; canvas_scale := sc; node_size := sz; smoothing := sm;
     sample_period := sp |}.

Section handlers.
(** [NodeList.GetNNodes], whether IPython runs, and the clamping of the
    adjustments by GTK. *)
Context `{VizLib} (n_nodes : nat) (under_ipython : bool) (clamp_h clamp_v clamp_zoom : float → float).

Definition set_scroll (x y : float) : vio unit :=
  modify (λ v, set_ctl (scrolled (clamp_h x) (clamp_v y) (ctl v)) v).

(** ** Selection *)

Definition interest (m : ShowTransmissionsMode) (sel : option Z) : list Z :=
  match m with
  | ALL => Z.of_nat <$> seq 0 n_nodes
  | NONE => []
  | SELECTED => match sel with None => [] | Some i => [i] end
  end.
Definition set_show_transmissions_mode (m : ShowTransmissionsMode) : vio unit :=
  modify (λ v, set_selection m (selected_node v) (interest m (selected_node v)) v).

(** What a node is given as: a node of ns-3, a number, a [Node] of the
    visualizer, None, or anything else. *)
Inductive node_arg : Type := ANs3 (i : Z) | AInt (i : Z) | AView (i : Z) | ANone | AOther.
Definition lookup_view (i : Z) : vio Z := λ v,
  (v, match dict_get (nodes (views v)) i with Some _ => Ok i | None => Err KeyError end).
(** The shell, which would set [self.ipython], is never opened: the import of
    its module fails. *)
Definition _update_ipython_selected_node : vio unit :=
  if under_ipython then throw AttributeError else mret ().
Definition node_of (a : node_arg) : vio (option Z) :=
  match a with
  | ANs3 i | AInt i => i ← lookup_view i; mret (Some i)
  | AView i => mret (Some i)
  | ANone => mret None
  | AOther => throw TypeError
  end.
Definition select_given (node : option Z) : vio unit :=
  old ← gets selected_node;
  if decide (node = old) then mret ()
  else
    _ ← (match old with Some i => on_scene (set_selected false i) | None => mret () end);
    _ ← modify (λ v, set_selection (_show_transmissions_mode v) node (nodes_of_interest v) v);
    _ ← (match node with Some i => on_scene (set_selected true i) | None => mret () end);
    m ← gets _show_transmissions_mode;
    _ ← (if decide (m = SELECTED) then
           modify (λ v, set_selection (_show_transmissions_mode v) (selected_node v)
                          (match node with None => [] | Some i => [i] end) v)
         else mret ());
    _update_ipython_selected_node.
Definition select_node (a : node_arg) : vio unit := node ← node_of a; select_given node.

(** ** Positions *)

(** [node.has_mobility], which asks the simulator once. *)
Definition has_mobility (i : Z) : vio bool := λ v,
  match dict_get (_has_mobility v) i with
  | Some b => (v, Ok b)
  | None =>
      let b := bool_decide (is_Some (dict_get (mobility v) i)) in
      (set_mobility (mobility v) (dict_set (_has_mobility v) i b) v, Ok b)
  end.
Definition center_on (x y : float) : vio unit :=
  c ← gets ctl; b ← gets (λ v, bounds (views v));
  let '(px, py) := convert_to_pixels b (canvas_scale c) x y in
  set_scroll (fsub px (fhalf (page_size (hadj c)))) (fsub py (fhalf (page_size (vadj c)))).
Definition for_nodes (body : Z → vio unit) : vio unit := λ v, for_each body ((nodes (views v)).*1) v.
Definition update_node_position (i : Z) : vio unit :=
  b ← has_mobility i;
  if (b : bool) then
    m ← gets (λ v, dict_get (mobility v) i);
    match m with
    | None => mret ()
    | Some (px, py) =>
        let '(x, y) := transform_point_simulation_to_canvas px py in
        _ ← on_scene (set_position i x y);
        f ← gets follow_node;
        if decide (f = Some i) then center_on x y else mret ()
    end
  else mret ().
Definition _update_node_positions : vio unit := for_nodes update_node_position.
Definition center_on_node (a : node_arg) : vio unit :=
  node ← (match a with
          | ANs3 i | AInt i => lookup_view i
          | AView i => mret i
          | ANone | AOther => throw TypeError
          end);
  p ← gets (λ v, end_position (views v) (ENode node));
  match p with Some (x, y) => center_on x y | None => throw KeyError end.
Definition set_follow_node (a : node_arg) : vio unit :=
  node ← (match a with
          | ANs3 i => i ← lookup_view i; mret (Some i)
          | AView i => mret (Some i)
          | AInt _ | ANone | AOther => mret None (* no object is that *)
          end);
  modify (set_follow node).

(** ** Updates *)

Definition on_flow {A} (m : io A) : vio A := zoom flow set_flow m.
Definition periodic_update (ts : list transmission) (ds : list dropped) : vio unit :=
  c ← gets ctl; on_flow (do_simulation_periodic_update c ts ds).
(** [info_windows]: which exception the update of an information window
    raises, if any. *)
Definition update_view (info_windows : option exn) : vio unit :=
  _ ← _update_node_positions;
  _ ← (match info_windows with Some e => throw e | None => mret () end);
  c ← gets ctl;
  _ ← on_flow (_update_transmissions_view c);
  c ← gets ctl;
  on_flow (_update_drops_view c).

Definition fmin_list (l : list float) : float := match l with [] => fzero | x :: l => foldl fmin x l end.
Definition fmax_list (l : list float) : float := match l with [] => fzero | x :: l => foldl fmax x l end.
Definition autoscale_view : vio unit :=
  ns ← gets (λ v, nodes (views v));
  if decide (ns = []) then mret ()
  else
    _ ← _update_node_positions;
    positions ← gets (λ v, (λ e, get_position (canvas_item e.2)) <$> nodes (views v));
    c ← gets ctl; b ← gets (λ v, bounds (views v));
    let min_x := fmin_list positions.*1 in let min_y := fmin_list positions.*2 in
    let max_x := fmax_list positions.*1 in let max_y := fmax_list positions.*2 in
    let '(min_x_px, min_y_px) := convert_to_pixels b (canvas_scale c) min_x min_y in
    let '(max_x_px, max_y_px) := convert_to_pixels b (canvas_scale c) max_x max_y in
    let new_dx := fmul (lit 15 (-1)) (fsub max_x_px min_x_px) in
    let new_dy := fmul (lit 15 (-1)) (fsub max_y_px min_y_px) in
    if feqb new_dx fzero || feqb new_dy fzero then mret ()
    else
      zx ← lift_res (fdiv (page_size (hadj c)) new_dx);
      zy ← lift_res (fdiv (page_size (vadj c)) new_dy);
      let z := clamp_zoom (fmin zx zy) in
      _ ← modify (λ v, set_zoom z (set_ctl (with_sizes z (node_size c) (smoothing c) (sample_period c) (ctl v)) v));
      c ← gets ctl;
      let '(x1, y1) := convert_from_pixels b (canvas_scale c) (value (hadj c)) (value (vadj c)) in
      let '(x2, y2) := convert_from_pixels b (canvas_scale c)
        (fadd (value (hadj c)) (page_size (hadj c))) (fadd (value (vadj c)) (page_size (vadj c))) in
      let cx := fhalf (fadd min_x max_x) in let cy := fhalf (fadd min_y max_y) in
      let '(px, py) := convert_to_pixels b (canvas_scale c) (fsub cx (fhalf (fsub x2 x1)))
        (fsub cy (fhalf (fsub y2 y1))) in
      set_scroll px py.

(** ** Dragging and panning *)

Definition connect (item : option Z) : vio nat := λ v,
  (set_states (node_drag_state v) (_panning_state v) (handlers v ++ [(next_signal v, item)])
     (S (next_signal v)) v, Ok (next_signal v)).
(** [item.disconnect(signal)]: a signal of another item is only warned about. *)
Definition disconnect (item : option Z) (signal : nat) : vio unit :=
  modify (λ v, set_states (node_drag_state v) (_panning_state v)
    (filter (λ h, h ≠ (signal, item)) (handlers v)) (next_signal v) v).
Definition set_drag (d : option NodeDragState) : vio unit :=
  modify (λ v, set_states d (_panning_state v) (handlers v) (next_signal v) v).
Definition set_panning (p : option PanningState) : vio unit :=
  modify (λ v, set_states (node_drag_state v) p (handlers v) (next_signal v) v).

(** The pointer is at the pixel [(dx, dy)]. *)
Definition begin_node_drag (i : Z) (dx dy : float) : vio unit :=
  mob ← gets (λ v, dict_get (mobility v) i);
  d ← gets node_drag_state;
  match mob, d with
  | Some (px, py), None =>
      c ← gets ctl; b ← gets (λ v, bounds (views v));
      let '(x0, y0) := convert_from_pixels b (canvas_scale c) dx dy in
      s ← connect (Some i);
      set_drag (Some {| canvas_x0 := x0; canvas_y0 := y0; sim_x0 := px; sim_y0 := py;
                        motion_signal := s |})
  | _, _ => mret ()
  end.
Definition node_drag_motion (i : Z) (dx dy : float) : vio bool :=
  mob ← gets (λ v, dict_get (mobility v) i);
  d ← gets node_drag_state;
  match mob, d with
  | Some _, Some d =>
      c ← gets ctl; b ← gets (λ v, bounds (views v));
      let '(x, y) := convert_from_pixels b (canvas_scale c) dx dy in
      let px := fadd (sim_x0 d) (transform_distance_canvas_to_simulation (fsub x (canvas_x0 d))) in
      let py := fadd (sim_y0 d) (transform_distance_canvas_to_simulation (fsub y (canvas_y0 d))) in
      _ ← modify (λ v, set_mobility (dict_set (mobility v) i (px, py)) (_has_mobility v) v);
      let '(x, y) := transform_point_simulation_to_canvas px py in
      _ ← on_scene (set_position i x y);
      mret true
  | _, _ => mret false
  end.
Definition end_node_drag (i : Z) : vio unit :=
  d ← gets node_drag_state;
  match d with
  | None => mret ()
  | Some d => _ ← disconnect (Some i) (motion_signal d); set_drag None
  end.
(** The motion event runs every handler that is connected to the node. *)
Definition motion_on_node (i : Z) (dx dy : float) : vio unit := λ v,
  for_each (λ _, _ ← node_drag_motion i dx dy; mret ())
    (filter (λ h : nat * option Z, h.2 = Some i) (handlers v)) v.

Definition _begin_panning (x y : float) : vio unit :=
  c ← gets ctl;
  s ← connect None;
  set_panning (Some {| initial_mouse_pos := (x, y);
    initial_canvas_pos := (value (hadj c), value (vadj c)); pan_signal := s |}).
Definition _end_panning : vio unit :=
  p ← gets _panning_state;
  match p with
  | None => mret ()
  | Some p => _ ← disconnect None (pan_signal p); set_panning None
  end.
Definition _panning_motion (x y : float) : vio bool :=
  p ← gets _panning_state;
  match p with
  | None => throw AssertionError
  | Some p =>
      let '(mx0, my0) := initial_mouse_pos p in
      let '(cx0, cy0) := initial_canvas_pos p in
      _ ← set_scroll (fsub cx0 (fsub x mx0)) (fsub cy0 (fsub y my0));
      mret true
  end.
Definition motion_on_canvas (x y : float) : vio unit := λ v,
  for_each (λ _, _ ← _panning_motion x y; mret ())
    (filter (λ h : nat * option Z, h.2 = None) (handlers v)) v.

(** ** Controls *)

Definition node_size_changed (sz : float) : vio unit :=
  _ ← modify (λ v, set_ctl (with_sizes (canvas_scale (ctl v)) sz (smoothing (ctl v))
                              (sample_period (ctl v)) (ctl v)) v);
  for_nodes (λ i : Z, on_scene (set_size sz i)).
Definition SAMPLE_PERIOD : float := lit 1 (-1).
Definition _speed_changed (speed : float) : vio unit :=
  modify (λ v, set_ctl (with_sizes (canvas_scale (ctl v)) (node_size (ctl v)) (smoothing (ctl v))
                          (fmul SAMPLE_PERIOD speed) (ctl v)) v).
Definition smoothing_changed (x : float) : vio unit :=
  modify (λ v, set_ctl (with_sizes (canvas_scale (ctl v)) (node_size (ctl v)) x
                          (sample_period (ctl v)) (ctl v)) v).
Definition _zoom_changed (z : float) : vio unit :=
  modify (λ v, set_zoom z (set_ctl (with_sizes z (node_size (ctl v)) (smoothing (ctl v))
                          (sample_period (ctl v)) (ctl v)) v)).
Definition _canvas_scroll_event (up : bool) : vio unit :=
  z ← gets zoom_value;
  z ← (if up then mret (fmul z (lit 125 (-2))) else lift_res (fdiv z (lit 125 (-2))));
  _zoom_changed (clamp_zoom z).

Definition on_root_button_press_event (button : Z) : vio unit :=
  if decide (button = 1) then select_node ANone else mret ().
Definition on_node_button_press_event (button : Z) (i : Z) (dx dy : float) : vio unit :=
  if decide (button = 1) then select_node (AView i)
  else if decide (button = 3) then mret () (* popup_node_menu *)
  else if decide (button = 2) then begin_node_drag i dx dy
  else mret ().
Definition on_node_button_release_event (button : Z) (i : Z) : vio unit :=
  if decide (button = 2) then end_node_drag i else mret ().
Definition _canvas_button_press (button : Z) (x y : float) : vio unit :=
  if decide (button = 2) then _begin_panning x y else mret ().
Definition _canvas_button_release (button : Z) : vio unit :=
  if decide (button = 2) then _end_panning else mret ().
End handlers.

(** ** Events *)

(** What the user does, what the timer does, and a move of the simulator. *)
Inductive viz_event : Type :=
| EvSelect (a : node_arg) | EvMode (m : ShowTransmissionsMode)
| EvRootPress (button : Z)
| EvNodePress (button i : Z) (x y : float) | EvNodeRelease (button i : Z)
| EvNodeMotion (i : Z) (x y : float)
| EvEnter (i : Z) | EvLeave (i : Z)
| EvCanvasPress (button : Z) (x y : float) | EvCanvasRelease (button : Z)
| EvCanvasMotion (x y : float)
| EvScroll (up : bool) | EvFollow (a : node_arg) | EvCenter (a : node_arg)
| EvNodeSize (x : float) | EvSpeed (x : float) | EvSmoothing (x : float) | EvZoom (x : float)
| EvPeriodic (ts : list transmission) (ds : list dropped)
| EvUpdate (info_windows : option exn) | EvAutoscale
| EvSimulator (m : list (Z * (float * float))).

Section events.
Context `{VizLib} (n_nodes : nat) (under_ipython : bool) (clamp_h clamp_v clamp_zoom : float → float).

Definition handle (e : viz_event) : vio unit :=
  match e with
  | EvSelect a => select_node under_ipython a
  | EvMode m => set_show_transmissions_mode n_nodes m
  | EvRootPress b => on_root_button_press_event under_ipython b
  | EvNodePress b i x y => on_node_button_press_event under_ipython b i x y
  | EvNodeRelease b i => on_node_button_release_event b i
  | EvNodeMotion i x y => motion_on_node i x y
  | EvEnter i => on_scene (set_highlighted true i)
  | EvLeave i => on_scene (set_highlighted false i)
  | EvCanvasPress b x y => _canvas_button_press b x y
  | EvCanvasRelease b => _canvas_button_release b
  | EvCanvasMotion x y => motion_on_canvas clamp_h clamp_v x y
  | EvScroll up => _canvas_scroll_event clamp_zoom up
  | EvFollow a => set_follow_node a
  | EvCenter a => center_on_node clamp_h clamp_v a
  | EvNodeSize x => node_size_changed x
  | EvSpeed x => _speed_changed x
  | EvSmoothing x => smoothing_changed x
  | EvZoom x => _zoom_changed x
  | EvPeriodic ts ds => periodic_update ts ds
  | EvUpdate w => update_view clamp_h clamp_v w
  | EvAutoscale => autoscale_view clamp_h clamp_v clamp_zoom
  | EvSimulator m => modify (λ v, set_mobility m (_has_mobility v) v)
  end.
(** A [Node] that is handed over is one of the visualizer. *)
Definition event_ok (e : viz_event) (v : viz) : Prop :=
  match e with
  | EvSelect (AView i) | EvNodePress _ i _ _ => is_Some (dict_get (nodes (views v)) i)
  | _ => True
  end.
Definition viz_step (v v' : viz) : Prop := ∃ e, event_ok e v ∧ v' = (handle e v).1.

(** ** The invariant *)

Record scene_with (sel : option Z) (s : scene) : Prop := {
  sw_nodes : nodes_ok s;
  sw_links : links_ok s;
  sw_selected : ∀ i n, dict_get (nodes s) i = Some n → selected n = bool_decide (sel = Some i);
  sw_there : ∀ i, sel = Some i → is_Some (dict_get (nodes s) i);
}.
Record viz_inv (v : viz) : Prop := {
  vi_scene : scene_with (selected_node v) (views v);
  vi_pools : pool_ok Transmissions (flow v);
  vi_interest : nodes_of_interest v = interest n_nodes (_show_transmissions_mode v) (selected_node v);
}.

#[local] Instance scene_with_closed sel : scene_closed (scene_with sel).
Proof.
  intros i s [Hn Hl Hs Ht]. split; [by apply get_node_nodes_ok|by apply get_node_links_ok| |].
  - intros j n. rewrite get_node_get. destruct (dict_get (nodes s) j) as [m|] eqn:Ej.
    + intros [= <-]. by apply Hs.
    + case_decide; [|done]. intros [= <-]. simpl. symmetry. apply bool_decide_eq_false.
      intros Hsel. destruct (Ht j Hsel). congruence.
  - intros j Hj. rewrite get_node_get. destruct (Ht j Hj) as [n ->]. by eexists.
Qed.

(** An operation on one node. *)
Definition keeps_selected (f : Node → Node) : Prop := ∀ n, selected (f n) = selected n.
Lemma scene_with_change sel i f s s' :
  node_change i f s s' → keeps_selected f → nodes_ok s' → links_ok s' →
  scene_with sel s → scene_with sel s'.
Proof.
  intros [Hch _] Hf Hn Hl [_ _ Hs Ht]. split; [done..| |].
  - intros j n. rewrite Hch. case_decide; [|apply Hs].
    destruct (dict_get (nodes s) j) as [m|] eqn:Em; [|done]. intros [= <-]. rewrite Hf. by apply Hs.
  - intros j Hj. rewrite Hch. destruct (Ht j Hj) as [n ->]. case_decide; by eexists.
Qed.
Lemma placed_selected x y : keeps_selected (placed x y).
Proof.
  intros n. unfold placed, move_label, _update_svg_position.
  by destruct n as [? ? ? ? ? ? ? [[? []]|] ? [|]].
Qed.
Lemma appear_selected : keeps_selected appear.
Proof.
  intros n. unfold appear. assert (selected (show_label (paint n)) = selected n) as <-.
  { unfold show_label. by destruct n as [? ? ? ? ? ? ? ? [|] ?]. }
  destruct (label _); [apply placed_selected|done].
Qed.
Lemma set_position_with sel i x y s : scene_with sel s → scene_with sel (set_position i x y s).
Proof.
  intros Hw. pose proof Hw as [Hn Hl _ _]. destruct (set_position_spec i x y s) as (Hch & _).
  eapply scene_with_change; [done|apply placed_selected|by apply set_position_nodes_ok|
    by apply set_position_links_ok|done].
Qed.
Lemma with_state_with sel i hi c sz s :
  scene_with sel s →
  scene_with sel (_update_appearance i
    (upd_node i (λ n, with_state (selected n) (hi n) (c n) (sz n) n) s)).
Proof.
  intros Hw. pose proof Hw as [Hn Hl _ _].
  destruct (update_appearance_spec i (upd_node i (λ n, with_state (selected n) (hi n) (c n) (sz n) n) s)) as (Hch & _).
  eapply scene_with_change; [eapply node_change_trans; [apply upd_node_change|done]| | | |done].
  - intros n. unfold compose. by rewrite appear_selected.
  - apply set_attribute_nodes_ok; [|done]. intros n _ Hlook. by apply with_state_ok.
  - by apply set_attribute_links_ok.
Qed.
Lemma set_selected_with sel (b : bool) i s :
  scene_with sel s → sel = None ∨ sel = Some i → is_Some (dict_get (nodes s) i) →
  scene_with (if b then Some i else None) (set_selected b i s).
Proof.
  intros [Hn Hl Hs Ht] Hsel [m Hi]. unfold set_selected. set (g := λ n : Node, _).
  destruct (update_appearance_spec i (upd_node i g s)) as (Hch & _).
  assert (node_change i (appear ∘ g) s (_update_appearance i (upd_node i g s))) as [H0 _].
  { eapply node_change_trans; [apply upd_node_change|done]. }
  split.
  - apply set_attribute_nodes_ok; [|done]. intros n _ Hlook. by apply with_state_ok.
  - by apply set_attribute_links_ok.
  - intros j n. rewrite H0. case_decide as Hj.
    + subst j. rewrite Hi. intros [= <-]. unfold compose. rewrite appear_selected. simpl.
      destruct b; [by rewrite bool_decide_true|done].
    + intros Hn'. rewrite (Hs j n Hn'). apply bool_decide_ext. destruct b, Hsel; naive_solver.
  - intros j Hj. assert (j = i) as -> by (destruct b; congruence). rewrite H0, decide_True, Hi by done.
    by eexists.
Qed.

(** ** Handlers keep the invariant, whatever they raise *)

Definition keeps {A} (m : vio A) : Prop := ∀ v, viz_inv v → viz_inv (m v).1.
Lemma keeps_bind {A B} (m : vio A) (h : A → vio B) :
  keeps m → (∀ a, keeps (h a)) → keeps (m ≫= h).
Proof.
  intros Hm Hh v Hv. unfold mbind, eff_bind. specialize (Hm v Hv).
  destruct (m v) as [v1 [a|e]]; [by apply Hh|done].
Qed.
Lemma keeps_ret {A} (a : A) : keeps (mret a).
Proof. by intros v. Qed.
Lemma keeps_throw {A} (e : exn) : keeps (throw e : vio A).
Proof. by intros v. Qed.
Lemma keeps_lift {A} (r : res A) : keeps (lift_res r).
Proof. by intros v. Qed.
Lemma keeps_gets {A} (f : viz → A) : keeps (gets f).
Proof. by intros v. Qed.
Lemma keeps_for_each {A} (body : A → vio unit) l : (∀ a, keeps (body a)) → keeps (for_each body l).
Proof.
  intros Hb. induction l as [|a l IH]; [by intros v|]. by apply (keeps_bind (body a)).
Qed.
Lemma keeps_for_nodes body : (∀ i, keeps (body i)) → keeps (for_nodes body).
Proof. intros Hb v. by apply keeps_for_each. Qed.
(** A change of what the invariant does not speak of. *)
Lemma keeps_modify f :
  (∀ v, flow (f v) = flow v ∧ selected_node (f v) = selected_node v ∧
        nodes_of_interest (f v) = nodes_of_interest v ∧
        _show_transmissions_mode (f v) = _show_transmissions_mode v) → keeps (modify f).
Proof.
  intros Hf v [Hs Hp Hi]. destruct (Hf v) as (E1 & E2 & E3 & E4).
  split; simpl; unfold views in *; by rewrite ?E1, ?E2, ?E3, ?E4.
Qed.
Lemma keeps_on_scene f :
  (∀ sel s, scene_with sel s → scene_with sel (f s)) → keeps (on_scene f).
Proof.
  intros Hf v [Hs Hp Hi]. split; simpl; [by apply Hf| |done].
  by destruct Hp.
Qed.
Lemma keeps_position i x y : keeps (on_scene (set_position i x y)).
Proof. apply keeps_on_scene. intros sel s. apply set_position_with. Qed.
Lemma keeps_size sz i : keeps (on_scene (set_size sz i)).
Proof. apply keeps_on_scene. intros sel s. apply with_state_with. Qed.
Lemma keeps_highlighted b i : keeps (on_scene (set_highlighted b i)).
Proof. apply keeps_on_scene. intros sel s. apply (with_state_with _ _ (λ _, b)). Qed.
Lemma keeps_has_mobility i : keeps (has_mobility i).
Proof. intros v [Hs Hp Hi]. unfold has_mobility. by destruct (dict_get (_has_mobility v) i). Qed.
Lemma keeps_connect o : keeps (connect o).
Proof. by intros v [Hs Hp Hi]. Qed.
Lemma keeps_lookup i : keeps (lookup_view i).
Proof. by intros v. Qed.
Create HintDb keeps.
#[local] Hint Resolve keeps_bind keeps_ret keeps_throw keeps_lift keeps_gets keeps_for_each
  keeps_for_nodes keeps_position keeps_size keeps_highlighted keeps_has_mobility keeps_connect
  keeps_lookup : keeps.
Ltac keeps :=
  repeat (first [apply keeps_bind; [|intros ?]|apply keeps_for_nodes; intros ?|
                 apply keeps_for_each; intros ?|by (apply keeps_modify; intros ?)|solve [auto with keeps]|
                 match goal with
                 | |- keeps (match ?x with _ => _ end) => destruct x
                 | |- keeps ((match ?x with _ => _ end) _) => destruct x
                 end]).

Lemma keeps_mode m : keeps (set_show_transmissions_mode n_nodes m).
Proof. by intros v [Hs Hp Hi]. Qed.
Lemma keeps_positions : keeps (_update_node_positions clamp_h clamp_v).
Proof. unfold _update_node_positions, update_node_position, center_on, set_scroll. keeps. Qed.
Lemma keeps_periodic ts ds : keeps (periodic_update ts ds).
Proof.
  unfold periodic_update. apply keeps_bind; [apply keeps_gets|]. intros c v [Hs Hp Hi].
  unfold on_flow, zoom, do_simulation_periodic_update, mbind, eff_bind, lift_res, zoom, remember.
  destruct (py_int _) as [n|e]; [|by split].
  destruct (pop_front n (_last_transmissions (flow v) ++ [ts])) as [l1 [[]|e1]]; [|by split].
  destruct (pop_front n _) as [l2 r2]. by split.
Qed.
Lemma keeps_flow {A} (m : io A) :
  (∀ sel f, scene_with sel (f_scene f) → pool_ok Transmissions f →
     scene_with sel (f_scene (m f).1) ∧ pool_ok Transmissions (m f).1) → keeps (on_flow m).
Proof.
  intros Hm v [Hs Hp Hi]. destruct (Hm _ _ Hs Hp) as [H1 H2]. unfold on_flow, zoom.
  destruct (m (flow v)) as [f r]. by split.
Qed.
Lemma keeps_update w : keeps (update_view clamp_h clamp_v w).
Proof.
  unfold update_view. apply keeps_bind; [apply keeps_positions|]. intros _.
  assert (∀ c sel f, scene_with sel (f_scene f) → pool_ok Transmissions f → _) as Hup
    by (intros c sel f; apply (update_views_good (scene_with sel) c f)).
  apply keeps_bind; [by destruct w; keeps|]. intros _. apply keeps_bind; [keeps|]. intros c.
  apply keeps_bind; [apply keeps_flow; intros; by apply Hup|]. intros _.
  apply keeps_bind; [keeps|]. intros c'. apply keeps_flow. intros. by apply Hup.
Qed.
Lemma keeps_autoscale : keeps (autoscale_view clamp_h clamp_v clamp_zoom).
Proof.
  unfold autoscale_view, set_scroll. apply keeps_bind; [keeps|]. intros ns.
  destruct (decide (ns = [])); [keeps|]. apply keeps_bind; [apply keeps_positions|]. intros _. keeps.
Qed.

(** ** Selection *)

(** A node that is handed over is one of the visualizer. *)
Definition selects (v : viz) (node : option Z) : Prop :=
  ∀ i, node = Some i → is_Some (dict_get (nodes (views v)) i).
Lemma set_selected_there b j i s :
  is_Some (dict_get (nodes s) i) → is_Some (dict_get (nodes (set_selected b j s)) i).
Proof.
  intros [n Hi]. unfold set_selected. set (g := λ n : Node, _).
  destruct (update_appearance_spec j (upd_node j g s)) as (Hch & _).
  destruct (node_change_trans j g appear s _ _ (upd_node_change j g s) Hch) as [H0 _].
  rewrite H0, Hi. case_decide; by eexists.
Qed.
(** What [select_given] leaves, whether IPython raises or not. *)
Lemma select_given_spec node v :
  viz_inv v → selects v node →
  let v' := (select_given under_ipython node v).1 in
  viz_inv v' ∧ selected_node v' = node ∧ _show_transmissions_mode v' = _show_transmissions_mode v.
Proof.
  intros Hv Hsel. pose proof Hv as [Hs Hp Hi]. unfold select_given. rewrite bind_gets.
  case_decide as Hne; [done|].
  assert (∃ v1, (match selected_node v with Some i => on_scene (set_selected false i) | None => mret () end : vio unit) v
      = (v1, Ok ()) ∧ scene_with None (views v1) ∧ pool_ok Transmissions (flow v1) ∧
      selects v1 node ∧ _show_transmissions_mode v1 = _show_transmissions_mode v ∧
      nodes_of_interest v1 = nodes_of_interest v) as (v1 & Hm1 & H1 & H2 & H3 & E1 & E2).
  { destruct (selected_node v) as [i|] eqn:Eo; [|by exists v]. eexists. split; [reflexivity|].
    split_and!; [|by destruct Hp| |done..].
    - apply (set_selected_with (Some i) false); [done|by right|by apply (sw_there _ _ Hs)].
    - intros j Hj. by apply set_selected_there, Hsel. }
  rewrite (bind_run _ _ _ _ _ Hm1), bind_modify. set (v2 := set_selection _ node _ v1).
  assert (∃ v3, (match node with Some i => on_scene (set_selected true i) | None => mret () end : vio unit) v2
      = (v3, Ok ()) ∧ scene_with node (views v3) ∧ pool_ok Transmissions (flow v3) ∧
      selected_node v3 = node ∧ _show_transmissions_mode v3 = _show_transmissions_mode v ∧
      nodes_of_interest v3 = nodes_of_interest v) as (v3 & Hm3 & H4 & H5 & E3 & E4 & E5).
  { destruct node as [i|]; [|by exists v2]. eexists. split; [reflexivity|].
    split_and!; [|by destruct H2|done..].
    apply (set_selected_with None true); [done|by left|by apply H3]. }
  rewrite (bind_run _ _ _ _ _ Hm3), bind_gets, E4.
  assert (∀ w, (_update_ipython_selected_node under_ipython w).1 = w) as Hip.
  { intros w. unfold _update_ipython_selected_node. by destruct under_ipython. }
  destruct (decide (_show_transmissions_mode v = SELECTED)) as [Hm|Hm].
  - rewrite bind_modify, Hip. simpl. rewrite E3, E4. split; [|done].
    split; simpl; [done|by destruct H5|]. rewrite Hm. by destruct node.
  - rewrite bind_mret, Hip. split; [|done]. split; [by rewrite E3|done|].
    rewrite E5, E4, E3, Hi. by destruct (_show_transmissions_mode v).
Qed.
Lemma keeps_select a v : event_ok (EvSelect a) v → viz_inv v → viz_inv (select_node under_ipython a v).1.
Proof.
  intros Hok Hv. unfold select_node. unfold mbind at 1, eff_bind at 1. destruct a as [i|i|i| |]; simpl in *.
  1, 2: unfold mbind, eff_bind, lookup_view; simpl;
    destruct (dict_get (nodes (views v)) i) eqn:E; [|done]; simpl; apply select_given_spec; [done|];
    intros j [= <-]; by rewrite E.
  - apply select_given_spec; [done|]. by intros j [= <-].
  - by apply select_given_spec.
  - done.
Qed.

Lemma keeps_drag i x y : keeps (begin_node_drag i x y) ∧ keeps (end_node_drag i) ∧ keeps (motion_on_node i x y).
Proof.
  assert (keeps (node_drag_motion i x y)) as Hm by (unfold node_drag_motion; keeps).
  unfold begin_node_drag, end_node_drag, set_drag, disconnect. split; [keeps|]. split; [keeps|].
  intros v. apply keeps_for_each. intros _. apply keeps_bind; [done|keeps].
Qed.
Lemma keeps_panning x y :
  keeps (_begin_panning x y) ∧ keeps _end_panning ∧ keeps (motion_on_canvas clamp_h clamp_v x y).
Proof.
  assert (keeps (_panning_motion clamp_h clamp_v x y)) as Hm by (unfold _panning_motion, set_scroll; keeps).
  unfold _begin_panning, _end_panning, set_panning, disconnect. split; [keeps|]. split; [keeps|].
  intros v. apply keeps_for_each. intros _. apply keeps_bind; [done|keeps].
Qed.
Lemma keeps_center a : keeps (center_on_node clamp_h clamp_v a) ∧ keeps (set_follow_node a).
Proof. unfold center_on_node, set_follow_node, center_on, set_scroll. split; keeps. Qed.
Lemma keeps_controls x up :
  keeps (node_size_changed x) ∧ keeps (_speed_changed x) ∧ keeps (smoothing_changed x) ∧
  keeps (_zoom_changed x) ∧ keeps (_canvas_scroll_event clamp_zoom up).
Proof.
  unfold node_size_changed, _speed_changed, smoothing_changed, _canvas_scroll_event, _zoom_changed.
  split_and!; keeps.
Qed.
Lemma handle_inv e v : event_ok e v → viz_inv v → viz_inv (handle e v).1.
Proof.
  intros Hok Hv. destruct e; simpl in Hok |- *.
  - by apply keeps_select.
  - by apply keeps_mode.
  - unfold on_root_button_press_event. case_decide; [by apply keeps_select|done].
  - unfold on_node_button_press_event. repeat case_decide; [by apply keeps_select|done|by apply keeps_drag|done].
  - unfold on_node_button_release_event. case_decide; [by apply (keeps_drag _ fzero fzero)|done].
  - by apply keeps_drag.
  - by apply keeps_highlighted.
  - by apply keeps_highlighted.
  - unfold _canvas_button_press. case_decide; [by apply keeps_panning|done].
  - unfold _canvas_button_release. case_decide; [by apply (keeps_panning fzero fzero)|done].
  - by apply keeps_panning.
  - by apply (keeps_controls fzero).
  - by apply keeps_center.
  - by apply keeps_center.
  - by apply (keeps_controls _ true).
  - by apply (keeps_controls _ true).
  - by apply (keeps_controls _ true).
  - by apply (keeps_controls _ true).
  - by apply keeps_periodic.
  - by apply keeps_update.
  - by apply keeps_autoscale.
  - destruct Hv. by split.
Qed.

(** The visualizer when the topology was scanned: nothing is selected, nothing
    was sent. *)
Definition started (s : scene) (c : controls) (m : list (Z * (float * float))) : viz :=
  Viz (Flows s [] [] [] [] []) c one ALL None (interest n_nodes ALL None) m [] None None None [] 0.
Lemma started_inv s c m : scene_with None s → viz_inv (started s c m).
Proof. split; [done| |done]. split; [apply NoDup_nil_2|]. intros a Ha. by apply elem_of_nil in Ha. Qed.
Lemma steps_inv v v' : viz_inv v → rtc viz_step v v' → viz_inv v'.
Proof. intros Hv. induction 1 as [|v1 v2 v3 [e [Hok ->]] _ IH]; [done|]. by apply IH, handle_inv. Qed.

(** C19: The selection, whatever the user and the simulation do and whatever
    the handlers raise: a node is drawn as selected exactly when it is the
    selected node, which is one of the visualizer; the nodes whose
    transmissions the simulator records are those that the mode asks for; and
    the drawing still follows the state (nodes, links and the two pools of
    arrows). *)
Theorem viz_selection s c m v :
  scene_with None s → rtc viz_step (started s c m) v →
  (∀ i n, dict_get (nodes (views v)) i = Some n → selected n = bool_decide (selected_node v = Some i)) ∧
  (∀ i, selected_node v = Some i → is_Some (dict_get (nodes (views v)) i)) ∧
  nodes_of_interest v = interest n_nodes (_show_transmissions_mode v) (selected_node v) ∧
  nodes_ok (views v) ∧ links_ok (views v) ∧ pool_ok Transmissions (flow v).
Proof.
  intros Hs Hrun. destruct (steps_inv _ _ (started_inv s c m Hs) Hrun) as [[] ? ?]. done.
Qed.

(** ** Positions *)

(** Where the simulator says that a node is, as far as the visualizer asks:
    a node that had no mobility model when it was first asked has none. *)
Definition target (v : viz) (i : Z) : option (float * float) :=
  if default (bool_decide (is_Some (dict_get (mobility v) i))) (dict_get (_has_mobility v) i)
  then dict_get (mobility v) i else None.
Definition place (v : viz) (i : Z) : option (float * float) := end_position (views v) (ENode i).

(** Steps that move no node and no mobility model. *)
Definition still {A} (m : vio A) (a : A) : Prop := ∀ v,
  let v' := (m v).1 in
  (m v).2 = Ok a ∧ flow v' = flow v ∧ mobility v' = mobility v ∧ _has_mobility v' = _has_mobility v ∧
  follow_node v' = follow_node v.
Lemma center_still x y : still (center_on clamp_h clamp_v x y) ().
Proof.
  intros v. unfold center_on. rewrite !bind_gets.
  by destruct (convert_to_pixels (bounds (views v)) (canvas_scale (ctl v)) x y).
Qed.
Lemma update_node_position_spec i v :
  is_Some (place v i) →
  let v' := (update_node_position clamp_h clamp_v i v).1 in
  update_node_position clamp_h clamp_v i v = (v', Ok ()) ∧
  (∀ j, target v' j = target v j) ∧
  ∀ j, place v' j = if decide (i = j) then
      match target v i with
      | Some (px, py) => Some (transform_point_simulation_to_canvas px py) | None => place v j end
    else place v j.
Proof.
  intros Hi. unfold update_node_position.
  set (b := default (bool_decide (is_Some (dict_get (mobility v) i))) (dict_get (_has_mobility v) i)).
  assert (∃ v1, has_mobility i v = (v1, Ok b) ∧ flow v1 = flow v ∧ mobility v1 = mobility v ∧
    ∀ j, target v1 j = target v j) as (v1 & Hrun & E1 & E2 & E3).
  { unfold has_mobility, b. destruct (dict_get (_has_mobility v) i) as [b'|] eqn:E; [by exists v|].
    eexists. split; [done|]. split_and!; [done..|]. intros j. unfold target. simpl.
    rewrite dict_get_set. case_decide; subst; [|done]. by rewrite E. }
  rewrite (bind_run _ _ _ _ _ Hrun).
  assert (∀ j, place v1 j = place v j) as E4 by (intros j; unfold place, views; by rewrite E1).
  assert (target v i = if b then dict_get (mobility v) i else None) as Ht by done.
  destruct b.
  2: { split_and!; [done..|]. intros j. rewrite Ht. simpl. rewrite E4. by case_decide. }
  rewrite bind_gets, E2, Ht. destruct (dict_get (mobility v) i) as [[px py]|] eqn:Em.
  2: { split_and!; [done..|]. intros j. simpl. rewrite E4. by case_decide. }
  destruct (transform_point_simulation_to_canvas px py) as [x y] eqn:Exy.
  unfold on_scene. rewrite bind_modify, bind_gets.
  set (v2 := set_flow _ v1).
  assert (∀ w, mobility w = mobility v2 → _has_mobility w = _has_mobility v2 → ∀ j, target w j = target v j) as Htw.
  { intros w Hm Hh j. unfold target. rewrite Hm, Hh. change (mobility v2) with (mobility v1).
    change (_has_mobility v2) with (_has_mobility v1). apply E3. }
  assert (∀ w, flow w = flow v2 → ∀ j, place w j = if decide (i = j) then Some (x, y) else place v j) as Hpw.
  { intros w Hw j. unfold place, views. rewrite Hw. simpl f_scene. rewrite set_position_place.
    change (end_position (views v1) (ENode j)) with (place v1 j). rewrite E4. case_decide; [|done].
    subst j. destruct Hi as [p ->]. done. }
  change (follow_node v2) with (follow_node v1). destruct (decide (follow_node v1 = Some i)).
  - destruct (center_still x y v2) as (C1 & C2 & C3 & C4 & _).
    destruct (center_on clamp_h clamp_v x y v2) as [v3 r]. simpl in *. subst r.
    split_and!; [done|by apply Htw|by apply Hpw].
  - split_and!; [done|by apply Htw|by apply Hpw].
Qed.

(** The update of the positions raises nothing; afterwards every node is
    drawn where its mobility model says, three pixels to a meter, and a node
    without one is where it was. *)
Theorem update_positions v :
  let v' := (_update_node_positions clamp_h clamp_v v).1 in
  _update_node_positions clamp_h clamp_v v = (v', Ok ()) ∧
  ∀ i, place v' i =
    match place v i, target v i with
    | Some _, Some (px, py) => Some (transform_point_simulation_to_canvas px py)
    | p, _ => p
    end.
Proof.
  unfold _update_node_positions, for_nodes.
  assert (∀ l v, Forall (λ i, is_Some (place v i)) l →
    let v' := (for_each (update_node_position clamp_h clamp_v) l v).1 in
    for_each (update_node_position clamp_h clamp_v) l v = (v', Ok ()) ∧
    ∀ i, place v' i = if decide (i ∈ l) then
        match target v i with
        | Some (px, py) => Some (transform_point_simulation_to_canvas px py) | None => place v i end
      else place v i) as Hloop.
  { clear v. induction l as [|i l IH]; intros v Hl.
    { split; [done|]. intros i. rewrite decide_False by apply not_elem_of_nil. done. }
    apply Forall_cons in Hl as [Hi Hl].
    destruct (update_node_position_spec i v Hi) as (Hrun & Ht & Hp).
    set (v1 := (update_node_position clamp_h clamp_v i v).1) in *. cbn [for_each].
    rewrite (bind_run _ _ _ _ _ Hrun).
    destruct (IH v1) as (Hrun' & Hp').
    { eapply Forall_impl; [done|]. intros j Hj. rewrite Hp. case_decide; [|done].
      destruct (target v i) as [[px py]|]; [by eexists|done]. }
    split; [done|]. intros j. rewrite Hp', Ht, Hp.
    pose proof (elem_of_cons l j i) as Hin.
    destruct (decide (j ∈ l)) as [Hj|Hj], (decide (i = j)) as [->|Hne].
    - rewrite decide_True by by left. by destruct (target v j) as [[]|].
    - rewrite decide_True by by right. done.
    - rewrite decide_True by by left. done.
    - rewrite decide_False; [done|]. intros [|]%elem_of_cons; congruence. }
  assert (∀ i, is_Some (place v i) ↔ i ∈ (nodes (views v)).*1) as Hkeys.
  { intros i. rewrite <-dict_get_some. unfold place. simpl.
    destruct (dict_get (nodes (views v)) i) as [n|]; [|by split; intros [? [=]]].
    by split; intros _; [exists n|exists (get_position (canvas_item n))]. }
  destruct (Hloop ((nodes (views v)).*1) v) as [Hrun Hp]; [by apply Forall_forall; intros i Hi; apply Hkeys|].
  split; [done|]. intros i. rewrite Hp. case_decide as Hi.
  - apply Hkeys in Hi as [p ->]. by destruct (target v i) as [[]|].
  - destruct (place v i) as [p|] eqn:Ep; [|done]. destruct Hi. apply Hkeys. by rewrite Ep.
Qed.
End events.

(** ** Dragging a node *)

Section drag.
Context `{VizLib}.

(** Where the node is put when the pointer is at the pixel [(dx, dy)]. *)
Definition drag_target (d : NodeDragState) (v : viz) (dx dy : float) : float * float :=
  let '(x, y) := convert_from_pixels (bounds (views v)) (canvas_scale (ctl v)) dx dy in
  (fadd (sim_x0 d) (transform_distance_canvas_to_simulation (fsub x (canvas_x0 d))),
   fadd (sim_y0 d) (transform_distance_canvas_to_simulation (fsub y (canvas_y0 d)))).
Record dragging (i : Z) (d : NodeDragState) (h : list (nat * option Z)) (v : viz) : Prop := {
  dg_there : is_Some (place v i);
  dg_mobile : is_Some (dict_get (mobility v) i);
  dg_state : node_drag_state v = Some d;
  dg_handlers : handlers v = h;
  dg_one : ∃ s, filter (λ x : nat * option Z, x.2 = Some i) h = [s];
}.
Lemma motion_run i d h dx dy v :
  dragging i d h v →
  ∃ v', motion_on_node i dx dy v = (v', Ok ()) ∧ dragging i d h v' ∧ ctl v' = ctl v ∧
    dict_get (mobility v') i = Some (drag_target d v dx dy) ∧
    place v' i = Some (transform_point_simulation_to_canvas (drag_target d v dx dy).1 (drag_target d v dx dy).2) ∧
    ∀ j, j ≠ i → dict_get (mobility v') j = dict_get (mobility v) j ∧ place v' j = place v j.
Proof.
  intros [Hi Hm Hd Hh [s Hs]]. unfold motion_on_node. rewrite Hh, Hs. cbn [for_each].
  assert (∃ v', node_drag_motion i dx dy v = (v', Ok true) ∧ node_drag_state v' = Some d ∧ handlers v' = h ∧
    ctl v' = ctl v ∧ mobility v' = dict_set (mobility v) i (drag_target d v dx dy) ∧
    ∀ j, place v' j = if decide (i = j)
      then Some (transform_point_simulation_to_canvas (drag_target d v dx dy).1 (drag_target d v dx dy).2)
      else place v j) as (v' & Hrun & E1 & E2 & E3 & E4 & E5).
  { unfold node_drag_motion. rewrite !bind_gets, Hd. destruct Hm as [q ->]. rewrite !bind_gets.
    unfold drag_target. destruct (convert_from_pixels _ _ _ _) as [x y]. rewrite bind_modify.
    cbn [fst snd]. destruct (transform_point_simulation_to_canvas _ _) as [cx cy].
    unfold on_scene. rewrite bind_modify. eexists. split; [reflexivity|]. split_and!; [done..|].
    intros j. unfold place, views. simpl f_scene. rewrite set_position_place.
    change (end_position (f_scene (flow v)) (ENode j)) with (place v j).
    destruct (decide (i = j)) as [<-|]; [|done]. by destruct Hi as [? ->]. }
  exists v'. split_and!.
  - unfold mbind, eff_bind. by rewrite Hrun.
  - split; [| |done..|by exists s].
    + rewrite E5, decide_True by done. by eexists.
    + rewrite E4, dict_get_set, decide_True by done. by eexists.
  - done.
  - by rewrite E4, dict_get_set, decide_True.
  - by rewrite E5, decide_True.
  - intros j Hj. by rewrite E4, dict_get_set, E5, !decide_False.
Qed.
Lemma motions_run i d h ps v :
  dragging i d h v →
  ∃ v', for_each (λ p : float * float, motion_on_node i p.1 p.2) ps v = (v', Ok ()) ∧
    dragging i d h v' ∧ ctl v' = ctl v ∧
    ∀ j, j ≠ i → dict_get (mobility v') j = dict_get (mobility v) j ∧ place v' j = place v j.
Proof.
  revert v. induction ps as [|p ps IH]; intros v Hv; [by exists v|].
  destruct (motion_run i d h p.1 p.2 v Hv) as (v1 & Hrun & Hv1 & Hc & _ & _ & Hj).
  destruct (IH v1 Hv1) as (v' & Hrun' & Hv' & Hc' & Hj'). exists v'. cbn [for_each].
  rewrite (bind_run _ _ _ _ _ Hrun). split_and!; [done..|congruence|].
  intros j Hne. destruct (Hj j Hne) as [<- <-]. by apply Hj'.
Qed.

(** C20: Dragging a node.  From a press of the middle button on a node with a
    mobility model, over any motions, to the release: the node is where it was
    plus the way of the pointer from the press to the last motion, whatever
    the motions in between were; it is drawn there; no other node moves; and
    the release leaves the handlers as they were. *)
Theorem node_drag i v p0 ps p q :
  is_Some (place v i) → dict_get (mobility v) i = Some q → node_drag_state v = None →
  filter (λ x : nat * option Z, x.2 = Some i) (handlers v) = [] →
  ∃ v1 v2 v3 v4,
    begin_node_drag i p0.1 p0.2 v = (v1, Ok ()) ∧
    for_each (λ p : float * float, motion_on_node i p.1 p.2) ps v1 = (v2, Ok ()) ∧
    motion_on_node i p.1 p.2 v2 = (v3, Ok ()) ∧
    end_node_drag i v3 = (v4, Ok ()) ∧ node_drag_state v4 = None ∧ handlers v4 = handlers v ∧
    (let '(x0, y0) := convert_from_pixels (bounds (views v)) (canvas_scale (ctl v)) p0.1 p0.2 in
     let '(x, y) := convert_from_pixels (bounds (views v2)) (canvas_scale (ctl v)) p.1 p.2 in
     let x' := fadd q.1 (transform_distance_canvas_to_simulation (fsub x x0)) in
     let y' := fadd q.2 (transform_distance_canvas_to_simulation (fsub y y0)) in
     dict_get (mobility v4) i = Some (x', y') ∧
     place v4 i = Some (transform_point_simulation_to_canvas x' y')) ∧
    ∀ j, j ≠ i → dict_get (mobility v4) j = dict_get (mobility v) j ∧ place v4 j = place v j.
Proof.
  intros Hi Hm Hd Hh. destruct q as [px py].
  destruct (convert_from_pixels (bounds (views v)) (canvas_scale (ctl v)) p0.1 p0.2) as [x0 y0] eqn:E0.
  set (d := {| canvas_x0 := x0; canvas_y0 := y0; sim_x0 := px; sim_y0 := py; motion_signal := next_signal v |}).
  set (h := handlers v ++ [(next_signal v, Some i)]).
  set (v1 := set_states (Some d) (_panning_state v) h (S (next_signal v)) v).
  assert (begin_node_drag i p0.1 p0.2 v = (v1, Ok ())) as Hbegin.
  { unfold begin_node_drag. rewrite !bind_gets. cbn beta. rewrite Hm, Hd, !bind_gets. cbn beta. by rewrite E0. }
  assert (dragging i d h v1) as Hv1.
  { split; [done|by exists (px, py)|done..|]. unfold h. rewrite filter_app, Hh. simpl.
    exists (next_signal v, Some i). rewrite filter_cons. simpl. by rewrite decide_True. }
  destruct (motions_run i d h ps v1 Hv1) as (v2 & Hrun2 & Hv2 & Hc2 & Hj2).
  destruct (motion_run i d h p.1 p.2 v2 Hv2) as (v3 & Hrun3 & Hv3 & Hc3 & Hm3 & Hp3 & Hj3).
  exists v1, v2, v3. unfold end_node_drag. rewrite bind_gets, (dg_state _ _ _ _ Hv3).
  eexists. split_and!; [done..| | |].
  - simpl. rewrite (dg_handlers _ _ _ _ Hv3). unfold h. rewrite filter_app.
    assert (filter (λ x, x ≠ (next_signal v, Some i)) [(next_signal v, Some i)] = []) as ->.
    { rewrite filter_cons. by rewrite decide_False by naive_solver. }
    rewrite app_nil_r. apply filter_all, Forall_forall. intros x Hx ->.
    assert ((next_signal v, Some i) ∈ filter (λ x : nat * option Z, x.2 = Some i) (handlers v)) as Hin.
    { by apply list_elem_of_filter. }
    rewrite Hh in Hin. by apply elem_of_nil in Hin.
  - change (ctl v1) with (ctl v) in Hc2. unfold drag_target in Hm3, Hp3. rewrite Hc2 in Hm3, Hp3.
    destruct (convert_from_pixels (bounds (views v2)) _ _ _) as [x y]. done.
  - intros j Hne. destruct (Hj2 j Hne) as [E1 E2], (Hj3 j Hne) as [E3 E4].
    change (place _ j) with (place v3 j) at 1. simpl. by rewrite E3, E1, E4, E2.
Qed.
End drag.

(** ** Examples *)

#[local] Existing Instance demo_lib.
Definition demo_started : viz :=
  started 3 (get_node 2 (create_link 0 (ENode 1) (get_node 1 (get_node 0 (empty_scene true)))))
    demo_controls [(0, (float_int 10, float_int 20)); (2, (float_int 5, float_int 5))].
Abbreviation demo_handle := (handle 3 false id id id).
Abbreviation demo_step := (viz_step 3 false id id id).
Definition run_demo (es : list viz_event) : viz := foldl (λ v e, (demo_handle e v).1) demo_started es.

Fixpoint all_ok (es : list viz_event) (v : viz) : Prop :=
  match es with [] => True | e :: es => event_ok e v ∧ all_ok es (demo_handle e v).1 end.
Lemma all_ok_reaches es v : all_ok es v → rtc demo_step v (foldl (λ v e, (demo_handle e v).1) v es).
Proof.
  revert v. induction es as [|e es IH]; intros v; simpl; [constructor|]. intros [He Hes].
  eapply rtc_l; [by exists e|by apply IH].
Qed.

Lemma demo_start_scene :
  scene_with None (get_node 2 (create_link 0 (ENode 1) (get_node 1 (get_node 0 (empty_scene true))))).
Proof.
  set (s1 := get_node 1 (get_node 0 (empty_scene true))).
  assert (scene_with None s1) as H1.
  { apply (scene_with_closed None), (scene_with_closed None). split; try done; by intros ??. }
  apply (scene_with_closed None). destruct H1 as [Hn Hl Hs Ht]. split.
  - apply add_link_nodes_ok, add_link_nodes_ok. done.
  - apply create_link_links_ok; [by eexists..|done].
  - intros i n Hi. assert (∀ k e s j n, (∀ j n, dict_get (nodes s) j = Some n → selected n = false) →
      dict_get (nodes (add_link k e s)) j = Some n → selected n = false) as Hadd.
    { clear. intros k [i|c] s j n Hs; simpl; [|apply Hs]. rewrite dict_get_upd. case_decide; [|apply Hs].
      destruct (dict_get (nodes s) j) as [m|] eqn:E; [|done]. intros [= <-]. simpl. by eapply Hs. }
    revert Hi. apply Hadd. intros j m. apply Hadd. intros j' m' Hj'. by apply (Hs j' m').
  - done.
Qed.

(** A node is selected, the mode changed, another node selected; then the
    simulator moves node 2 while node 0 is dragged. *)
Definition demo_events : list viz_event :=
  [EvNodePress 1 0 fzero fzero; EvMode SELECTED; EvSelect (AInt 1); EvNodePress 2 0 (float_int 3) (float_int 3);
   EvNodeMotion 0 (float_int 33) (float_int 3); EvNodeRelease 2 0;
   EvSimulator [(0, (float_int 20, float_int 20)); (2, (float_int 6, float_int 5))]; EvUpdate None].
Lemma viz_selection_witness :
  rtc demo_step demo_started (run_demo demo_events) ∧
  nodes_of_interest (run_demo demo_events) = [1] ∧ selected_node (run_demo demo_events) = Some 1 ∧
  selected <$> dict_get (nodes (views (run_demo demo_events))) 0 = Some false.
Proof.
  assert (rtc demo_step demo_started (run_demo demo_events)) as Hrun.
  { apply all_ok_reaches. vm_compute. repeat split; eexists; reflexivity. }
  split; [exact Hrun|].
  destruct (viz_selection 3 false id id id _ _ _ _ demo_start_scene Hrun) as (Hsel & _ & Hint & _).
  assert (selected_node (run_demo demo_events) = Some 1) as Hs by (vm_compute; reflexivity).
  rewrite Hint, Hs. split; [vm_compute; reflexivity|]. split; [reflexivity|].
  destruct (dict_get (nodes (views (run_demo demo_events))) 0) as [n|] eqn:E.
  - simpl. rewrite (Hsel 0 n E), Hs. reflexivity.
  - vm_compute in E. discriminate E.
Defined.

(** The pointer goes from (0, 0) to (60, -30): 20 and -10 meters. *)
Lemma node_drag_witness :
  is_Some (place demo_started 0) ∧
  ∃ v1 v2 v3 v4,
    begin_node_drag 0 fzero fzero demo_started = (v1, Ok ()) ∧
    for_each (λ p : float * float, motion_on_node 0 p.1 p.2) [(float_int 7, float_int 9)] v1 = (v2, Ok ()) ∧
    motion_on_node 0 (float_int 60) (float_int (-30)) v2 = (v3, Ok ()) ∧
    end_node_drag 0 v3 = (v4, Ok ()) ∧ handlers v4 = [] ∧
    dict_get (mobility v4) 0 = Some (float_int 30, float_int 10) ∧
    place v4 0 = Some (float_int 90, float_int 30).
Proof.
  assert (is_Some (place demo_started 0)) as Hi by (vm_compute; eexists; reflexivity).
  split; [exact Hi|].
  destruct (node_drag 0 demo_started (fzero, fzero) [(float_int 7, float_int 9)]
    (float_int 60, float_int (-30)) (float_int 10, float_int 20) Hi eq_refl eq_refl eq_refl)
    as (v1 & v2 & v3 & v4 & H1 & H2 & H3 & H4 & _ & H5 & [H6 H7] & _).
  exists v1, v2, v3, v4. split; [exact H1|]. split; [exact H2|]. split; [exact H3|].
  split; [exact H4|]. split; [exact H5|]. split; [rewrite H6|rewrite H7]; vm_compute; reflexivity.
Defined.

(** A node that gets its mobility model after it was first drawn stays where
    it is: the visualizer asked once. *)
Example late_mobility :
  let v := run_demo [EvUpdate None; EvSimulator [(1, (float_int 8, float_int 8))]; EvUpdate None] in
  (place v 1, dict_get (_has_mobility v) 1) = (Some (fzero, fzero), Some false).
Proof. vm_compute. reflexivity. Qed.
(** Two presses of the middle button on the canvas: the handler of the first
    one stays connected, and raises once the panning has ended. *)
Example panning_twice :
  let v := run_demo [EvCanvasPress 2 fzero fzero; EvCanvasPress 2 fzero fzero; EvCanvasRelease 2] in
  (_panning_state v, handlers v, (demo_handle (EvCanvasMotion fzero fzero) v).2)
  = (None, [(0%nat, None)], Err AssertionError).
Proof. vm_compute. reflexivity. Qed.
(** Under IPython every selection ends in an AttributeError. *)
Example ipython_raises :
  let r := handle 3 true id id id (EvSelect (AInt 1)) demo_started in
  (selected_node r.1, r.2) = (Some 1, Err AttributeError).
Proof. vm_compute. reflexivity. Qed.
