(* ===== verification/VizTopology.v ===== *)
(** * visualizer/core.py: scan_topology
    The nodes of the simulator with their devices, what becomes of them on the
    canvas, and the layout of the nodes without a mobility model.  pygraphviz
    is a parameter: the calls that build the graph are recorded, and the layout
    answers the nodes of the graph, each with the text of its position.  The
    lines that are printed and the signal at the end, for plugins, are left
    out. *)
From Stdlib Require Import Ascii SpecFloat.
From S2P Require Import Prelude PyStr PyRe PyNum PyFloat VizNodes VizFlows VizView.
#[local] Open Scope Z_scope.

(** ** The simulator *)

(** A channel: its identity and the nodes of its devices, in order. *)
Record channel := { ch_id : Z; ch_nodes : list Z }.
Record device := { dev_type : string; dev_channel : option channel }.

Inductive graph_call : Type := AddNode (name : string) | AddEdge (a b : string).

Record topo := Topo {
  sc : scene;
  known_traits : gmap string NetDeviceTraits;
  mobile : list (Z * (float * float));   (* mobility models, by node *)
  asked : list (Z * bool);               (* [_has_mobility] of the nodes *)
  graph : list graph_call;
  obj : option link_end;                 (* the local variable of the last loop *)
}.
Abbreviation tio := (eff topo exn).
Definition set_sc (s : scene) (t : topo) : topo :=
  Topo s (known_traits t) (mobile t) (asked t) (graph t) (obj t).
Definition set_known (k : gmap string NetDeviceTraits) (t : topo) : topo :=
  Topo (sc t) k (mobile t) (asked t) (graph t) (obj t).
Definition set_mobile (m : list (Z * (float * float))) (t : topo) : topo :=
  Topo (sc t) (known_traits t) m (asked t) (graph t) (obj t).
Definition set_asked (a : list (Z * bool)) (t : topo) : topo :=
  Topo (sc t) (known_traits t) (mobile t) a (graph t) (obj t).
Definition add_call (c : graph_call) (t : topo) : topo :=
  Topo (sc t) (known_traits t) (mobile t) (asked t) (graph t ++ [c]) (obj t).
Definition set_obj (o : link_end) (t : topo) : topo :=
  Topo (sc t) (known_traits t) (mobile t) (asked t) (graph t) (Some o).

Definition perform (op : scene_op) : tio unit := λ t,
  match apply_op op (sc t) with Ok s => (set_sc s t, Ok ()) | Err e => (t, Err e) end.
Definition call_graph (c : graph_call) : tio unit := modify (add_call c).
Definition lookup_traits (ty : string) : tio NetDeviceTraits := λ t,
  let '(k, (tr, _)) := lookup_netdevice_traits ty (known_traits t) in (set_known k t, Ok tr).
(** [otherNodeView.has_mobility] *)
Definition asks_mobility (i : Z) : tio bool := λ t,
  match dict_get (asked t) i with
  | Some b => (t, Ok b)
  | None => let b := bool_decide (is_Some (dict_get (mobile t) i)) in
            (set_asked (dict_set (asked t) i b) t, Ok b)
  end.

Definition node_name (i : Z) : string := "Node " +:+ pretty i.
Definition channel_name (c : Z) : string := "Channel " +:+ pretty c.
Definition REPRESENT_CHANNELS_AS_NODES : bool := true.
(** [Gdk.color_parse("red")] *)
Definition red : Z := rgba_of_color 65535 0 0.

(** ** The scan *)

Section scan.
(** [os.environ.get('NS_VIS_ASSIGN') is not None] *)
Context (NS_VIS_ASSIGN : bool).

(** One of the other devices of a channel, seen from node [i]; [forced] adds
    the edge whatever moves. *)
Definition other_device (forced : bool) (i : Z) (mobility : option (float * float)) (j : Z) : tio unit :=
  _ ← perform (OpGetNode j);
  if decide (j = i) then mret ()
  else
    _ ← (if forced then call_graph (AddEdge (node_name i) (node_name j))
         else match mobility with
              | Some _ => mret ()
              | None =>
                  b ← asks_mobility j;
                  if (b : bool) then mret () else call_graph (AddEdge (node_name i) (node_name j))
              end);
    perform (OpLink i (ENode j)).
Definition scan_device (i : Z) (mobility : option (float * float)) (d : device) : tio unit :=
  tr ← lookup_traits (dev_type d);
  if bool_decide (is_wireless tr = Some true) then mret ()
  else if is_virtual tr then mret ()
  else
    match dev_channel d with
    | None => throw AttributeError
    | Some c =>
        if decide (2 < length (ch_nodes c))%nat then
          if REPRESENT_CHANNELS_AS_NODES then
            _ ← (match mobility with
                 | None => call_graph (AddEdge (node_name i) (channel_name (ch_id c)))
                 | Some _ => mret ()
                 end);
            _ ← perform (OpGetChannel (ch_id c));
            perform (OpLink i (EChannel (ch_id c)))
          else for_each (other_device false i mobility) (ch_nodes c)
        else for_each (other_device NS_VIS_ASSIGN i mobility) (ch_nodes c)
    end.
Definition scan_node (e : Z * list device) : tio unit :=
  let '(i, devices) := e in
  _ ← perform (OpGetNode i);
  mobility ← gets (λ t, dict_get (mobile t) i);
  _ ← (match mobility with
       | Some (px, py) =>
           _ ← perform (OpColor red i);
           let '(x, y) := transform_point_simulation_to_canvas px py in
           perform (OpMove i x y)
       | None => call_graph (AddNode (node_name i))
       end);
  for_each (scan_device i mobility) devices.

(** ** The layout *)

(** [node.split(' ')] into two, and [[float(s) for s in pos.split(',')]]. *)
Definition split_two (c : ascii) (s : string) : res (string * string) :=
  match split c s with [a; b] => Ok (a, b) | _ => Err (ValueError "values to unpack") end.
Definition read_pos (s : string) : res (float * float) :=
  xs ← (fix floats (l : list string) : res (list float) :=
          match l with [] => Ok [] | s :: l => x ← float_str s; xs ← floats l; Ok (x :: xs) end) (split "," s);
  match xs with [x; y] => Ok (x, y) | _ => Err (ValueError "values to unpack") end.
Definition place_node (e : string * string) : tio unit :=
  let '(name, pos) := e in
  '(node_type, node_id) ← lift_res (split_two " " name);
  '(pos_x, pos_y) ← lift_res (read_pos pos);
  _ ← (if decide (node_type = "Node") then
         i ← lift_res (int_str node_id);
         t ← gets (λ t, t);
         match dict_get (nodes (sc t)) i with
         | None => throw KeyError
         | Some _ =>
             _ ← modify (set_obj (ENode i));
             if NS_VIS_ASSIGN then
               match dict_get (mobile t) i with
               | Some _ => modify (set_mobile (dict_set (mobile t) i (pos_x, pos_y)))
               | None => mret ()
               end
             else mret ()
         end
       else if decide (node_type = "Channel") then
         c ← lift_res (int_str node_id);
         t ← gets (λ t, t);
         match dict_get (channels (sc t)) c with
         | None => throw KeyError
         | Some _ => modify (set_obj (EChannel c))
         end
       else mret ());
  o ← gets obj;
  match o with
  | None => throw UnboundLocalError
  | Some (ENode i) => perform (OpMove i pos_x pos_y)
  | Some (EChannel c) => perform (OpMoveChannel c pos_x pos_y)
  end.

(** [AGraph.layout] and [iternodes]: the nodes of the graph, in its order,
    with their attribute [pos]. *)
Context (layout : list graph_call → list (string * string)).
Definition scan_topology (sim_nodes : list (list device)) : tio unit :=
  _ ← for_each scan_node (imap (λ i devices, (Z.of_nat i, devices)) sim_nodes);
  calls ← gets graph;
  for_each place_node (layout calls).
End scan.

(** ** What the operations of the scan do *)

Definition ends (l : Link) : Z * option link_end := (node1 l, node2 l).
Definition link_ends (s : scene) : list (Z * option link_end) := ends <$> all_links s.
Definition there (s : scene) (e : link_end) : Prop := is_Some (end_position s e).
Definition unselected (s : scene) : Prop := ∀ j n, dict_get (nodes s) j = Some n → selected n = false.

Lemma moved_ends s l : ends (moved_link s l) = ends l.
Proof. unfold moved_link. by destruct (link_points s l). Qed.
Lemma kept_ends s s' :
  (∀ k, ∃ f, all_links s' !! k = f <$> all_links s !! k ∧ ∀ l, ends (f l) = ends l) →
  link_ends s' = link_ends s.
Proof.
  intros H. unfold link_ends. apply list_eq. intros k. rewrite !list_lookup_fmap.
  destruct (H k) as (f & -> & Hf). destruct (all_links s !! k); [|done]. simpl. by rewrite Hf.
Qed.
(** The operations that the scan uses. *)
Definition scan_op (op : scene_op) : Prop :=
  match op with
  | OpGetNode _ | OpGetChannel _ | OpLink _ _ | OpColor _ _ | OpMove _ _ _ | OpMoveChannel _ _ _ => True
  | _ => False
  end.
Definition op_links (op : scene_op) : list (Z * option link_end) :=
  match op with OpLink i e => [(i, Some e)] | _ => [] end.
Definition op_needs (op : scene_op) : list link_end :=
  match op with OpGetNode i => [ENode i] | OpGetChannel c => [EChannel c] | OpLink i e => [ENode i; e] | _ => [] end.
Record effect (op : scene_op) (s s' : scene) : Prop := {
  ef_links : link_ends s' = link_ends s ++ op_links op;
  ef_there : ∀ e, there s e → there s' e;
  ef_needs : ∀ e, e ∈ op_needs op → there s' e;
  ef_place : ∀ j p, end_position s (ENode j) = Some p →
    end_position s' (ENode j) = Some (match op with OpMove i x y => if decide (i = j) then (x, y) else p | _ => p end);
  ef_selected : unselected s → unselected s';
}.

Lemma node_change_effect i f s s' op :
  node_change i f s s' → (∀ n, selected (f n) = selected n) →
  (∀ n, get_position (canvas_item (f n)) =
        match op with OpMove k x y => if decide (k = i) then (x, y) else get_position (canvas_item n)
                 | _ => get_position (canvas_item n) end) →
  (∀ k x y, op = OpMove k x y → k = i) →
  link_ends s' = link_ends s → op_links op = [] → op_needs op = [] → effect op s s'.
Proof.
  intros [Hch Hc] Hsel Hpos Hop Hl Hl' Hn. split.
  - by rewrite Hl, Hl', app_nil_r.
  - intros [j|c]; unfold there; simpl; [|by rewrite Hc]. rewrite Hch. case_decide; [|done].
    destruct (dict_get (nodes s) j); [|done]. by eexists.
  - rewrite Hn. intros e He. by apply elem_of_nil in He.
  - intros j p. simpl. rewrite Hch. case_decide as Hj.
    + subst j. destruct (dict_get (nodes s) i) as [n|]; [|done]. simpl. rewrite Hpos.
      intros [= <-]. by destruct op.
    + intros ->. f_equal. destruct op as [| | |k x y| | | | | | |]; try done.
      rewrite (Hop k x y eq_refl). by rewrite decide_False.
  - intros Hs j n. rewrite Hch. case_decide; [|apply Hs]. destruct (dict_get (nodes s) j) as [m|] eqn:E; [|done].
    intros [= <-]. rewrite Hsel. by eapply Hs.
Qed.

Lemma set_color_selected c n : selected (appear (with_state (selected n) (highlighted n) c (size n) n)) = selected n.
Proof.
  unfold appear, show_label. destruct n as [? ? ? ? ? ? ? sv [l|] it]; [|done]. simpl.
  unfold placed, move_label, _update_svg_position. simpl. by destruct sv as [[? []]|].
Qed.
Lemma placed_keeps_selected x y n : selected (placed x y n) = selected n.
Proof.
  unfold placed, move_label, _update_svg_position. by destruct n as [? ? ? ? ? ? ? [[? []]|] ? [|]].
Qed.
Lemma get_end_effect e s :
  let s' := get_end e s in
  link_ends s' = link_ends s ∧ (∀ e', there s e' → there s' e') ∧ there s' e ∧
  (∀ j p, end_position s (ENode j) = Some p → end_position s' (ENode j) = Some p) ∧
  (unselected s → unselected s').
Proof.
  destruct (get_end_keeps e s) as (_ & _ & H1 & H2). destruct e as [i|c]; simpl.
  - destruct (get_node_keeps i s) as (_ & El & _). split_and!; [by unfold link_ends; rewrite El|done..| |].
    + intros j p. simpl. rewrite get_node_get. by destruct (dict_get (nodes s) j).
    + intros Hs j n. rewrite get_node_get. destruct (dict_get (nodes s) j) eqn:E; [intros [= <-]; by eapply Hs|].
      case_decide; [|done]. by intros [= <-].
  - destruct (get_channel_keeps c s) as (En & El & _). split_and!; [by unfold link_ends; rewrite El|done..| |].
    + intros j p. simpl. by rewrite En.
    + intros Hs j n. rewrite En. apply Hs.
Qed.
Lemma apply_scan_op op s :
  scan_op op → ∃ s', apply_op op s = Ok s' ∧ effect op s s'.
Proof.
  destruct op as [i|c|i e|i x y|c x y| | | |c i| |]; intros Hop; try done; (eexists; split; [reflexivity|]).
  - destruct (get_end_effect (ENode i) s) as (H1 & H2 & H3 & H4 & H5). cbn [get_end] in *.
    split; cbn [op_links op_needs]; [by rewrite H1, app_nil_r|done| |done..].
    by intros e ->%list_elem_of_singleton.
  - destruct (get_end_effect (EChannel c) s) as (H1 & H2 & H3 & H4 & H5). cbn [get_end] in *.
    split; cbn [op_links op_needs]; [by rewrite H1, app_nil_r|done| |done..].
    by intros e ->%list_elem_of_singleton.
  - destruct (get_end_effect (ENode i) s) as (A1 & A2 & A3 & A4 & A5). simpl in *.
    set (s1 := get_node i s) in *.
    destruct (get_end_effect e s1) as (B1 & B2 & B3 & B4 & B5). set (s2 := get_end e s1) in *.
    unfold create_link. set (k := length (all_links s2)). set (s3 := set_links _ s2).
    destruct (add_link_keeps k (ENode i) s3) as (C1 & _ & _ & P1).
    destruct (add_link_keeps k e (add_link k (ENode i) s3)) as (D1 & _ & _ & P2).
    set (s4 := add_link k e (add_link k (ENode i) s3)) in *.
    assert (∀ e', end_position s4 e' = end_position s2 e') as P.
    { intros e'. rewrite P2, P1. by destruct e'. }
    split; cbn [op_links op_needs].
    + unfold link_ends at 1. rewrite D1, C1. simpl. rewrite fmap_app. fold (link_ends s2). by rewrite B1, A1.
    + intros e' He. unfold there. rewrite P. by apply B2, A2.
    + unfold there. intros e' He. rewrite P. apply elem_of_cons in He as [->|He]; [by apply B2|].
      by apply list_elem_of_singleton in He as ->.
    + intros j p Hp. rewrite P. by apply B4, A4.
    + intros Hs. assert (∀ k e s, unselected s → unselected (add_link k e s)) as Hadd.
      { clear. intros k [i|c] s Hs; [|done]. intros j n. simpl. rewrite dict_get_upd. case_decide; [|apply Hs].
        destruct (dict_get (nodes s) j) as [m|] eqn:E; [|done]. intros [= <-]. by apply (Hs j m). }
      apply Hadd, Hadd. by apply B5, A5.
  - destruct (set_position_spec i x y s) as (Hch & _ & Hl).
    eapply node_change_effect; [done|apply placed_keeps_selected| | | |done..].
    + intros n. rewrite decide_True by done. by destruct (placed_item x y n) as [-> _].
    + by intros k ? ? [= -> _ _].
    + apply kept_ends. intros k. eexists. split; [apply Hl|]. intros l. case_decide; [apply moved_ends|done].
  - unfold channel_set_position. set (s1 := upd_channel c _ s).
    assert (∀ e, is_Some (end_position s1 e) ↔ is_Some (end_position s e)) as H1.
    { intros [j|j]; simpl; [done|]. rewrite dict_get_upd. case_decide; [|done].
      destruct (dict_get (channels s) j); simpl; [|done]. split; intros _; by eexists. }
    assert (∀ s', nodes s' = nodes s → channels s' = channels s1 → link_ends s' = link_ends s →
      effect (OpMoveChannel c x y) s s') as Heff.
    { intros s' Hn Hc Hl. assert (∀ e, end_position s' e = end_position s1 e) as He by (intros [j|j]; simpl; by rewrite ?Hn, ?Hc).
      split; simpl; [by rewrite Hl, app_nil_r| | | |].
      - intros e. unfold there. rewrite He. apply H1.
      - intros e Hin. by apply elem_of_nil in Hin.
      - intros j p. simpl. by rewrite Hn.
      - unfold unselected. by rewrite Hn. }
    destruct (dict_get (channels s1) c) as [ch|]; [|by apply Heff].
    destruct (update_links_spec (channel_links ch) s1) as (Hl & Hn & Hc & _). apply Heff; [done..|].
    apply kept_ends. intros k. eexists. split; [apply Hl|]. intros l. case_decide; [apply moved_ends|done].
  - unfold set_color. set (g := λ n : Node, _).
    destruct (update_appearance_spec i (upd_node i g s)) as (Hch & _ & Hl).
    eapply node_change_effect; [eapply node_change_trans; [apply upd_node_change|done]| | | | |done..].
    + intros n. apply set_color_selected.
    + intros n. unfold compose. by destruct (appear_keeps (g n)) as [-> _].
    + done.
    + apply kept_ends. intros k. destruct (Hl k) as [b Hb]. eexists. split; [apply Hb|].
      intros l. destruct b; [apply moved_ends|done].
Qed.

(** ** The names of the graph *)

Definition graph_names (l : list graph_call) : list string :=
  l ≫= λ c, match c with AddNode a => [a] | AddEdge a b => [a; b] end.
Lemma digits_no_space z : 0 ≤ z → " "%char ∉ chars (pretty z).
Proof.
  intros Hz Hin. destruct (pretty_Z_digits z Hz) as (_ & Hd & _).
  by pose proof (proj1 (Forall_forall _ _) Hd _ Hin).
Qed.
Lemma split_name (ty : string) z :
  0 ≤ z → " "%char ∉ chars ty → split_two " " (ty +:+ " " +:+ pretty z) = Ok (ty, pretty z).
Proof.
  intros Hz Hty. unfold split_two, split. rewrite !chars_app.
  change (chars " " ++ chars (pretty z)) with (" "%char :: chars (pretty z)).
  rewrite split_chars_sep, split_chars_none by (done || by apply digits_no_space).
  simpl. by rewrite !of_chars_chars.
Qed.
Lemma split_node_name i : 0 ≤ i → split_two " " (node_name i) = Ok ("Node", pretty i).
Proof. intros Hi. apply (split_name "Node" i Hi). vm_compute. set_solver. Qed.
Lemma split_channel_name c : 0 ≤ c → split_two " " (channel_name c) = Ok ("Channel", pretty c).
Proof. intros Hc. apply (split_name "Channel" c Hc). vm_compute. set_solver. Qed.

(** [3.0 * x] is a number. *)
Lemma scaled_num x : is_num x → is_num (fmul x PIXELS_PER_METER).
Proof.
  unfold is_num. intros Hx.
  assert (∀ y, y ≠ S754_nan → is_nan (PFloat y) = false) as Hy by (by intros []).
  assert (PIXELS_PER_METER = S754_finite false 6755399441055744 (-51)) as -> by (by vm_compute).
  destruct x as [s|s| |s m e]; try done. apply Hy. unfold fmul, SFmul.
  by apply binary_round_aux_not_nan.
Qed.

(** ** The invariant of the scan *)

(** The traits of a type, whether it is registered or not. *)
Definition trait_of (k : gmap string NetDeviceTraits) (ty : string) : NetDeviceTraits :=
  default {| is_wireless := Some true; is_virtual := false |} (k !! ty).
(** The links that a device makes on the node [i]. *)
Definition other_links (i j : Z) : list (Z * option link_end) :=
  if decide (j = i) then [] else [(i, Some (ENode j))].
Definition device_links (k : gmap string NetDeviceTraits) (i : Z) (d : device)
    : list (Z * option link_end) :=
  let tr := trait_of k (dev_type d) in
  if bool_decide (is_wireless tr = Some true) || is_virtual tr then []
  else match dev_channel d with
       | None => []
       | Some c => if decide (2 < length (ch_nodes c))%nat then [(i, Some (EChannel (ch_id c)))]
                   else ch_nodes c ≫= other_links i
       end.
(** A wired device has a channel; ids are not negative. *)
Definition device_ok (k : gmap string NetDeviceTraits) (d : device) : Prop :=
  let tr := trait_of k (dev_type d) in
  (is_wireless tr ≠ Some true → is_virtual tr = false → dev_channel d ≠ None) ∧
  ∀ c, dev_channel d = Some c → 0 ≤ ch_id c ∧ Forall (λ j, 0 ≤ j) (ch_nodes c).

Section correct.
Context (assign : bool) (k0 : gmap string NetDeviceTraits) (m0 : list (Z * (float * float))).
Context (m0_num : ∀ i p, dict_get m0 i = Some p → is_num p.1 ∧ is_num p.2).

(** A name of the graph stands for an object that is there; unless positions
    are assigned, a node in the graph has no mobility model. *)
Definition named (s : scene) (name : string) : Prop :=
  (∃ i, 0 ≤ i ∧ name = node_name i ∧ there s (ENode i) ∧ (assign = false → dict_get m0 i = None)) ∨
  (∃ c, 0 ≤ c ∧ name = channel_name c ∧ there s (EChannel c)).
Record scene_good (L : list (Z * option link_end)) (D : list Z) (s : scene) : Prop := {
  sg_inv : scene_inv s;
  sg_origin : origin_in_bounds s;
  sg_unselected : unselected s;
  sg_links : link_ends s = L;
  sg_there : ∀ i, i ∈ D → there s (ENode i);
  sg_place : assign = false → ∀ i px py, i ∈ D → dict_get m0 i = Some (px, py) →
    end_position s (ENode i) = Some (transform_point_simulation_to_canvas px py);
}.
Record scanning (L : list (Z * option link_end)) (D : list Z) (t : topo) : Prop := {
  sn_scene : scene_good L D (sc t);
  sn_mobile : mobile t = m0;
  sn_asked : ∀ i b, dict_get (asked t) i = Some b → b = bool_decide (is_Some (dict_get m0 i));
  sn_traits : ∀ ty, trait_of (known_traits t) ty = trait_of k0 ty;
  sn_graph : ∀ name, name ∈ graph_names (graph t) → named (sc t) name;
}.
(** What a step may do beyond the scan of its own. *)
Definition grows (t t' : topo) : Prop := ∀ e, there (sc t) e → there (sc t') e.
(** A move puts a node where its mobility model says; in the layout it is a
    node without one. *)
Definition op_fine (op : scene_op) : Prop :=
  scan_op op ∧ op_num op ∧
  match op with
  | OpMove i x y => assign = false → ∀ px py, dict_get m0 i = Some (px, py) →
      (x, y) = transform_point_simulation_to_canvas px py
  | _ => True
  end.

Lemma effect_good op s s' L D :
  op_fine op → apply_op op s = Ok s' → effect op s s' → scene_good L D s →
  scene_good (L ++ op_links op) D s'.
Proof.
  intros (Hs & Hn & Hm) Hop [E1 E2 E3 E4 E5] [H1 H2 H3 H4 H5 H6].
  destruct (apply_op_inv op s s' Hn Hop H1 H2) as [I1 I2]. split; auto; [by rewrite E1, H4|].
  intros Ha i px py Hi Hp. rewrite (E4 _ _ (H6 Ha i px py Hi Hp)).
  destruct op as [| | |k x y| | | | | | |]; try done. case_decide as Hk; [|done]. f_equal.
  apply (Hm Ha). by rewrite Hk.
Qed.
Lemma named_mono s s' name : (∀ e, there s e → there s' e) → named s name → named s' name.
Proof.
  intros H [(i & ? & ? & ? & ?)|(c & ? & ? & ?)]; [left; exists i|right; exists c]; auto.
Qed.
Lemma perform_ok op L D t :
  op_fine op → scanning L D t →
  ∃ t', perform op t = (t', Ok ()) ∧ scanning (L ++ op_links op) D t' ∧ grows t t' ∧
    (∀ e, e ∈ op_needs op → there (sc t') e) ∧ graph t' = graph t ∧ effect op (sc t) (sc t').
Proof.
  intros Hop [H1 H2 H3 H4 H5]. destruct (apply_scan_op op (sc t)) as (s' & Happ & Heff); [apply Hop|].
  exists (set_sc s' t). unfold perform. rewrite Happ. pose proof Heff as [_ E2 E3 _ _].
  split_and!; try done. split; simpl; [by eapply effect_good|done..|].
  intros name Hin. eapply named_mono; [apply E2|by apply H5].
Qed.
Lemma call_ok c L D t :
  (∀ name, name ∈ graph_names [c] → named (sc t) name) → scanning L D t →
  scanning L D (add_call c t).
Proof.
  intros Hc [H1 H2 H3 H4 H5]. split; simpl; try done. intros name Hin.
  unfold graph_names in Hin. rewrite bind_app in Hin. apply elem_of_app in Hin as [Hin|Hin]; auto.
Qed.
Lemma traits_ok ty L D t :
  scanning L D t → ∃ t', lookup_traits ty t = (t', Ok (trait_of k0 ty)) ∧ scanning L D t' ∧ sc t' = sc t.
Proof.
  intros [H1 H2 H3 H4 H5]. unfold lookup_traits, lookup_netdevice_traits. rewrite <-(H4 ty).
  unfold trait_of at 1. destruct (known_traits t !! ty) as [tr|] eqn:E.
  - exists (set_known (known_traits t) t). by destruct t.
  - eexists. split; [reflexivity|]. split; [|done]. split; simpl; try done. intros ty'. rewrite <-(H4 ty').
    unfold trait_of. destruct (decide (ty = ty')) as [<-|]; [by rewrite lookup_insert, decide_True, E|by rewrite lookup_insert_ne].
Qed.
Lemma asks_mobility_ok i L D t :
  scanning L D t →
  ∃ t', asks_mobility i t = (t', Ok (bool_decide (is_Some (dict_get m0 i)))) ∧ scanning L D t' ∧ sc t' = sc t.
Proof.
  intros [H1 H2 H3 H4 H5]. unfold asks_mobility. destruct (dict_get (asked t) i) as [b|] eqn:E.
  - exists t. split; [by rewrite (H3 i b E)|]. by split.
  - rewrite H2. eexists. split; [reflexivity|]. split; [|done]. split; simpl; try done.
    intros j b. rewrite dict_get_set. case_decide; [subst; by intros [= <-]|apply H3].
Qed.

(** A loop whose turns add links. *)
Lemma for_each_links {A} (f : A → tio unit) (g : A → list (Z * option link_end)) (l : list A) D t L (e : list link_end) :
  (∀ a L t, a ∈ l → scanning L D t → Forall (there (sc t)) e →
     ∃ t', f a t = (t', Ok ()) ∧ scanning (L ++ g a) D t' ∧ grows t t') →
  scanning L D t → Forall (there (sc t)) e →
  ∃ t', for_each f l t = (t', Ok ()) ∧ scanning (L ++ (l ≫= g)) D t' ∧ grows t t'.
Proof.
  revert t L. induction l as [|a l IH]; intros t L Hf Ht He.
  { exists t. simpl. rewrite app_nil_r. split_and!; [done..|by intros x]. }
  destruct (Hf a L t) as (t1 & Hrun & Ht1 & Hg1); [by left|done..|].
  destruct (IH t1 (L ++ g a)) as (t2 & Hrun2 & Ht2 & Hg2); [|done| |].
  - intros b L' t' Hb. apply Hf. by right.
  - eapply Forall_impl; [done|]. intros x Hx. by apply Hg1.
  - exists t2. cbn [for_each]. rewrite (bind_run _ _ _ _ _ Hrun). csimpl. rewrite app_assoc.
    split_and!; [done..|]. intros x Hx. by apply Hg2, Hg1.
Qed.

Lemma other_device_ok forced i j L D t :
  (forced = true → assign = true) → 0 ≤ i → 0 ≤ j → scanning L D t → there (sc t) (ENode i) →
  ∃ t', other_device forced i (dict_get m0 i) j t = (t', Ok ()) ∧
    scanning (L ++ other_links i j) D t' ∧ grows t t'.
Proof.
  intros Hf Hi Hj Ht Hti. unfold other_device.
  destruct (perform_ok (OpGetNode j) L D t) as (t1 & Hrun1 & Ht1 & Hg1 & Hn1 & _); [done|done|].
  rewrite (bind_run _ _ _ _ _ Hrun1). simpl in Ht1. rewrite app_nil_r in Ht1.
  assert (there (sc t1) (ENode j)) as Htj by (apply Hn1; by left).
  unfold other_links. case_decide as Hji.
  { exists t1. rewrite app_nil_r. done. }
  assert (∀ name : string, named (sc t1) (node_name i) → named (sc t1) (node_name j) →
    name ∈ graph_names [AddEdge (node_name i) (node_name j)] → named (sc t1) name) as Hedge.
  { intros name Ha Hb. simpl. intros Hin. apply elem_of_cons in Hin as [->|Hin]; [done|].
    by apply list_elem_of_singleton in Hin as ->. }
  assert (∀ k, 0 ≤ k → there (sc t1) (ENode k) → (assign = false → dict_get m0 k = None) →
    named (sc t1) (node_name k)) as Hnamed.
  { intros k ? ? ?. left. by exists k. }
  set (m := if forced then _ else _).
  assert (∃ t2, m t1 = (t2, Ok ()) ∧ scanning L D t2 ∧ sc t2 = sc t1) as (t2 & Hrun2 & Ht2 & Hs2).
  { unfold m. clear m. destruct forced.
    - exists (add_call (AddEdge (node_name i) (node_name j)) t1). split; [done|]. split; [|done].
      apply call_ok; [|done]. intros name. specialize (Hf eq_refl).
      apply Hedge; apply Hnamed; auto; congruence.
    - destruct (dict_get m0 i) as [p|] eqn:Em; [by exists t1|].
      destruct (asks_mobility_ok j L D t1 Ht1) as (t2 & Hrun & Ht2 & Hs2). rewrite (bind_run _ _ _ _ _ Hrun).
      case_bool_decide as Hmj; [by exists t2|].
      exists (add_call (AddEdge (node_name i) (node_name j)) t2). split; [done|]. split; [|done].
      apply call_ok; [|done]. rewrite Hs2. intros name. apply Hedge; apply Hnamed; auto.
      intros _. by apply eq_None_not_Some. }
  rewrite (bind_run _ _ _ _ _ Hrun2).
  destruct (perform_ok (OpLink i (ENode j)) L D t2) as (t3 & Hrun3 & Ht3 & Hg3 & _); [done|done|].
  exists t3. split_and!; [done..|]. intros e He. apply Hg3. rewrite Hs2. by apply Hg1.
Qed.
Lemma scan_device_ok i d L D t :
  0 ≤ i → device_ok k0 d → scanning L D t → there (sc t) (ENode i) →
  ∃ t', scan_device assign i (dict_get m0 i) d t = (t', Ok ()) ∧
    scanning (L ++ device_links k0 i d) D t' ∧ grows t t'.
Proof.
  intros Hi [Hchan Hids] Ht Hti. unfold scan_device, device_links.
  destruct (traits_ok (dev_type d) L D t Ht) as (t1 & Hrun1 & Ht1 & Hs1).
  rewrite (bind_run _ _ _ _ _ Hrun1). set (tr := trait_of k0 (dev_type d)) in *.
  assert (grows t t1) as Hg1 by (intros e; by rewrite Hs1).
  case_bool_decide as Hw; cbn [orb]; [exists t1; by rewrite app_nil_r|].
  destruct (is_virtual tr) eqn:Hv; [exists t1; by rewrite app_nil_r|].
  destruct (dev_channel d) as [c|] eqn:Ec; [|by destruct (Hchan Hw eq_refl)].
  destruct (Hids c eq_refl) as [Hc Hnodes]. rewrite <-Hs1 in Hti.
  assert (∀ forced, (forced = true → assign = true) →
    ∃ t', for_each (other_device forced i (dict_get m0 i)) (ch_nodes c) t1 = (t', Ok ()) ∧
      scanning (L ++ (ch_nodes c ≫= other_links i)) D t' ∧ grows t t') as Hloop.
  { intros forced Hf.
    destruct (for_each_links (other_device forced i (dict_get m0 i)) (other_links i) (ch_nodes c) D t1 L [ENode i])
      as (t' & H1 & H2 & H3); [|done|by apply Forall_singleton|].
    - intros j L' t' Hj Ht' Hti'. apply other_device_ok; [done|done| |done|by apply (proj1 (Forall_singleton _ _)) in Hti'].
      by eapply (proj1 (Forall_forall _ _)) in Hnodes.
    - exists t'. split_and!; [done..|]. intros e He. by apply H3, Hg1. }
  case_decide; [|by apply Hloop]. cbn [REPRESENT_CHANNELS_AS_NODES].
  destruct (perform_ok (OpGetChannel (ch_id c)) L D t1) as (t2 & Hrun2 & Ht2 & Hg2 & Hn2 & Hgr2 & _);
    [done|done|]. simpl in Ht2. rewrite app_nil_r in Ht2.
  assert (there (sc t2) (EChannel (ch_id c))) as Htc by (apply Hn2; by left).
  assert (∃ t3, ((match dict_get m0 i with
      | None => call_graph (AddEdge (node_name i) (channel_name (ch_id c))) | Some _ => mret () end : tio unit)
      ≫= λ _, perform (OpGetChannel (ch_id c))) t1 = (t3, Ok ()) ∧ scanning L D t3 ∧ sc t3 = sc t2)
    as (t3 & Hrun3 & Ht3 & Hs3).
  { destruct (dict_get m0 i) as [p|] eqn:Em; [by exists t2|].
    exists (add_call (AddEdge (node_name i) (channel_name (ch_id c))) t2). split_and!; [|apply call_ok; [|done]|done].
    - unfold call_graph. rewrite bind_modify. unfold perform in *. simpl in *.
      by destruct t1; injection Hrun2 as <-.
    - intros name. simpl. intros Hin. apply elem_of_cons in Hin as [->|Hin].
      + left. exists i. split_and!; [done..|by apply Hg2|done].
      + apply list_elem_of_singleton in Hin as ->. right. by exists (ch_id c). }
  unfold mbind, eff_bind in Hrun3 |- *.
  destruct ((match dict_get m0 i with
      | None => call_graph (AddEdge (node_name i) (channel_name (ch_id c))) | Some _ => mret () end : tio unit) t1)
    as [t1' [[]|]]; [|done]. rewrite Hrun3.
  destruct (perform_ok (OpLink i (EChannel (ch_id c))) L D t3) as (t4 & Hrun4 & Ht4 & Hg4 & _); [done|done|].
  exists t4. split_and!; [done..|]. intros e He. apply Hg4. rewrite Hs3. by apply Hg2, Hg1.
Qed.
Lemma scanning_more L D t i :
  scanning L D t → there (sc t) (ENode i) →
  (assign = false → ∀ px py, dict_get m0 i = Some (px, py) →
     end_position (sc t) (ENode i) = Some (transform_point_simulation_to_canvas px py)) →
  scanning L (D ++ [i]) t.
Proof.
  intros [[H1 H2 H3 H4 H5 H6] ? ? ? ?] Hi Hp. split; [|done..]. split; try done.
  - intros j Hj. apply elem_of_app in Hj as [Hj|Hj]; [auto|]. by apply list_elem_of_singleton in Hj as ->.
  - intros Ha j px py Hj Hm. apply elem_of_app in Hj as [Hj|Hj]; [by apply H6|].
    apply list_elem_of_singleton in Hj as ->. auto.
Qed.
Lemma scan_node_ok i ds L D t :
  0 ≤ i → Forall (device_ok k0) ds → scanning L D t →
  ∃ t', scan_node assign (i, ds) t = (t', Ok ()) ∧
    scanning (L ++ (ds ≫= device_links k0 i)) (D ++ [i]) t' ∧ grows t t'.
Proof.
  intros Hi Hds Ht. unfold scan_node.
  destruct (perform_ok (OpGetNode i) L D t) as (t1 & Hrun1 & Ht1 & Hg1 & Hn1 & _); [done|done|].
  rewrite (bind_run _ _ _ _ _ Hrun1). simpl in Ht1. rewrite app_nil_r in Ht1.
  assert (there (sc t1) (ENode i)) as Hti by (apply Hn1; by left).
  rewrite bind_gets, (sn_mobile _ _ _ Ht1).
  set (m := match dict_get m0 i with Some _ => _ | None => _ end).
  assert (∃ t2, m t1 = (t2, Ok ()) ∧ scanning L (D ++ [i]) t2 ∧ grows t1 t2) as (t2 & Hrun2 & Ht2 & Hg2).
  { unfold m. clear m. destruct (dict_get m0 i) as [[px py]|] eqn:Em.
    - destruct (perform_ok (OpColor red i) L D t1) as (t2 & Hrun2 & Ht2 & Hg2 & _); [done|done|].
      rewrite (bind_run _ _ _ _ _ Hrun2). simpl in Ht2. rewrite app_nil_r in Ht2.
      destruct (m0_num i (px, py) Em) as [Nx Ny].
      destruct (transform_point_simulation_to_canvas px py) as [x y] eqn:Exy.
      assert (x = fmul px PIXELS_PER_METER ∧ y = fmul py PIXELS_PER_METER) as [Ex Ey] by by injection Exy as <- <-.
      destruct (perform_ok (OpMove i x y) L D t2) as (t3 & Hrun3 & Ht3 & Hg3 & _ & _ & Heff).
      { split; [done|]. split; [rewrite Ex, Ey; split; by apply scaled_num|].
        intros _ px' py' Em'. rewrite Em in Em'. by injection Em' as <- <-. }
      { done. }
      simpl in Ht3. rewrite app_nil_r in Ht3. exists t3.
      destruct (Hg2 _ Hti) as [p Hp]. pose proof (ef_place _ _ _ Heff i p Hp) as Hp3.
      cbn beta iota in Hp3. rewrite decide_True in Hp3 by done. split_and!; [done| |intros e He; by apply Hg3, Hg2].
      apply scanning_more; [done|by exists (x, y)|]. intros _ px' py' Em'. rewrite Em in Em'.
      injection Em' as <- <-. by rewrite Exy.
    - exists (add_call (AddNode (node_name i)) t1). split_and!; [done| |by intros e].
      apply scanning_more; [|done|]; [|by rewrite Em]. apply call_ok; [|done].
      intros name ->%list_elem_of_singleton. left. by exists i. }
  rewrite (bind_run _ _ _ _ _ Hrun2).
  destruct (for_each_links (scan_device assign i (dict_get m0 i)) (device_links k0 i) ds (D ++ [i]) t2 L [ENode i])
    as (t3 & Hrun3 & Ht3 & Hg3); [|done|apply Forall_singleton; by apply Hg2|].
  - intros d L' t' Hd Ht' Hti'. apply scan_device_ok; [done| |done|by apply (proj1 (Forall_singleton _ _)) in Hti'].
    by eapply (proj1 (Forall_forall _ _)) in Hds.
  - exists t3. split_and!; [done..|]. intros e He. by apply Hg3, Hg2, Hg1.
Qed.
Lemma scan_nodes_ok l L D t :
  Forall (λ e : Z * list device, 0 ≤ e.1 ∧ Forall (device_ok k0) e.2) l → scanning L D t →
  ∃ t', for_each (scan_node assign) l t = (t', Ok ()) ∧
    scanning (L ++ (l ≫= λ e, e.2 ≫= device_links k0 e.1)) (D ++ l.*1) t'.
Proof.
  intros Hl. revert L D t. induction Hl as [|[i ds] l [Hi Hds] Hl IH]; intros L D t Ht.
  { exists t. simpl. by rewrite !app_nil_r. }
  destruct (scan_node_ok i ds L D t Hi Hds Ht) as (t1 & Hrun1 & Ht1 & _).
  destruct (IH _ _ t1 Ht1) as (t2 & Hrun2 & Ht2). exists t2. cbn [for_each].
  rewrite (bind_run _ _ _ _ _ Hrun1). split; [done|]. csimpl. by rewrite <-!app_assoc in Ht2.
Qed.

(** ** The layout *)

(** The layout answers nodes of the graph, at positions that are numbers. *)
Definition layout_ok (layout : list graph_call → list (string * string)) : Prop :=
  ∀ calls, Forall (λ e : string * string, e.1 ∈ graph_names calls ∧
    ∃ p, read_pos e.2 = Ok p ∧ is_num p.1 ∧ is_num p.2) (layout calls).
Lemma place_node_ok L D t name pos :
  named (sc t) name → (∃ p, read_pos pos = Ok p ∧ is_num p.1 ∧ is_num p.2) →
  scene_good L D (sc t) →
  ∃ t', place_node assign (name, pos) t = (t', Ok ()) ∧ scene_good L D (sc t') ∧ grows t t'.
Proof.
  intros Hn ([x y] & Hpos & Nx & Ny) Hg. unfold place_node.
  assert (∀ op t1, op_fine op → sc t1 = sc t → op_links op = [] →
    ∃ t', perform op t1 = (t', Ok ()) ∧ scene_good L D (sc t') ∧ grows t t') as Hperf.
  { intros op t1 Hop Hs Hl. destruct (apply_scan_op op (sc t1)) as (s' & Happ & Heff); [apply Hop|].
    exists (set_sc s' t1). unfold perform. rewrite Happ. rewrite Hs in *. split_and!; [done| |intros e; apply Heff].
    rewrite <-(app_nil_r L), <-Hl. by eapply effect_good. }
  destruct Hn as [(i & Hi & -> & Ht & Hm)|(c & Hc & -> & Ht)].
  - rewrite split_node_name, Hpos by done. rewrite !bind_lift_ok. cbn beta iota.
    destruct Ht as [q Hq]. simpl in Hq.
    destruct (dict_get (nodes (sc t)) i) as [n|] eqn:En; [|done].
    lazymatch goal with |- context [(?m ≫= _) t] =>
      assert (∃ t1, m t = (t1, Ok ()) ∧ sc t1 = sc t ∧ obj t1 = Some (ENode i)) as (t1 & Hm1 & Hs1 & Ho1) end.
    { rewrite decide_True, int_str_pretty, bind_lift_ok, bind_gets, En, bind_modify by done.
      destruct assign; [|by eexists]. destruct (dict_get (mobile t) i); by eexists. }
    rewrite (bind_run _ _ _ _ _ Hm1), bind_gets, Ho1. apply Hperf; [|done..].
    split; [done|]. split; [done|]. simpl. intros Ha px py Hp. by rewrite Hm in Hp.
  - rewrite split_channel_name, Hpos by done. rewrite !bind_lift_ok. cbn beta iota.
    destruct Ht as [q Hq]. simpl in Hq.
    destruct (dict_get (channels (sc t)) c) as [ch|] eqn:Ec; [|done].
    rewrite decide_False, decide_True by done.
    rewrite (bind_run _ _ t (set_obj (EChannel c) t) ())
      by (rewrite int_str_pretty, bind_lift_ok, bind_gets, Ec by done; done).
    rewrite bind_gets. apply Hperf; [|done..]. by split_and!.
Qed.
Lemma place_nodes_ok l L D t :
  Forall (λ e : string * string, named (sc t) e.1 ∧
    ∃ p, read_pos e.2 = Ok p ∧ is_num p.1 ∧ is_num p.2) l →
  scene_good L D (sc t) →
  ∃ t', for_each (place_node assign) l t = (t', Ok ()) ∧ scene_good L D (sc t').
Proof.
  revert t. induction l as [|[name pos] l IH]; intros t Hl Ht; [by exists t|].
  apply Forall_cons in Hl as [[Hn Hp] Hl].
  destruct (place_node_ok L D t name pos Hn Hp Ht) as (t1 & Hrun1 & Ht1 & Hg1).
  destruct (IH t1) as (t2 & Hrun2 & Ht2); [|done|].
  - eapply Forall_impl; [done|]. intros [name' pos'] [Hn' Hp']. split; [|done]. by eapply named_mono.
  - exists t2. cbn [for_each]. by rewrite (bind_run _ _ _ _ _ Hrun1).
Qed.

(** The state before the scan. *)
Definition before_scan (works : bool) : topo :=
  Topo (empty_scene works) k0 m0 [] [] None.
Definition all_device_links (sim_nodes : list (list device)) : list (Z * option link_end) :=
  imap (λ i devices, (Z.of_nat i, devices)) sim_nodes ≫= λ e, e.2 ≫= device_links k0 e.1.

Lemma scan_scene_good layout works sim_nodes :
  Forall (Forall (device_ok k0)) sim_nodes → layout_ok layout →
  ∃ t, scan_topology assign layout sim_nodes (before_scan works) = (t, Ok ()) ∧
    scene_good (all_device_links sim_nodes) (Z.of_nat <$> seq 0 (length sim_nodes)) (sc t).
Proof.
  intros Hdev Hlay. unfold scan_topology.
  set (l := imap (λ i devices, (Z.of_nat i, devices)) sim_nodes).
  assert (scanning [] [] (before_scan works)) as H0.
  { destruct (empty_scene_ok works). split; try done; [split; try done|].
    - intros i []%elem_of_nil.
    - intros _ i px py []%elem_of_nil.
    - intros name []%elem_of_nil. }
  destruct (scan_nodes_ok l [] [] (before_scan works)) as (t1 & Hrun1 & [Ht1 _ _ _ Hg1]); [|done|].
  { apply Forall_forall. intros [i ds] (k & ? & [= -> ->] & Hk)%elem_of_lookup_imap. split; simpl; [lia|].
    by eapply Forall_lookup_1 in Hdev. }
  rewrite (bind_run _ _ _ _ _ Hrun1), bind_gets. simpl in Ht1.
  destruct (place_nodes_ok (layout (graph t1)) (l ≫= λ e, e.2 ≫= device_links k0 e.1) l.*1 t1) as (t2 & Hrun2 & Hg2); [|done|].
  { eapply Forall_impl; [apply Hlay|]. intros [name pos] [? ?]. auto. }
  assert (l.*1 = Z.of_nat <$> seq 0 (length sim_nodes)) as <-; [|by exists t2].
  unfold l. rewrite fmap_imap. apply list_eq. intros k. rewrite list_lookup_imap, list_lookup_fmap.
  destruct (sim_nodes !! k) as [ds|] eqn:E; simpl.
  - rewrite lookup_seq_lt by (by eapply lookup_lt_Some). done.
  - by rewrite lookup_seq_ge by (by apply lookup_ge_None_1).
Qed.
(** The visualizer after the scan: what the user sees keeps following the state
    from there on. *)
Lemma scanned_inv `{VizLib} n_nodes under_ipython ch cv cz layout works sim_nodes c v :
  Forall (Forall (device_ok k0)) sim_nodes → layout_ok layout →
  rtc (viz_step n_nodes under_ipython ch cv cz)
    (started n_nodes (sc (scan_topology assign layout sim_nodes (before_scan works)).1) c m0) v →
  viz_inv n_nodes v.
Proof.
  intros Hdev Hlay Hrun. destruct (scan_scene_good layout works sim_nodes Hdev Hlay) as (t & Ht & [[] _ Hun _ _ _]).
  rewrite Ht in Hrun. cbn [fst] in Hrun.
  assert (scene_with None (sc t)) as Hs by (split; [done..| |done]; intros i n ->%Hun; done).
  eapply steps_inv; [by apply started_inv|done].
Qed.

(** C18: scan_topology: on a scene without nodes, with the traits known so
    far, when a wired device always has a channel, the mobility models hold
    numbers and the layout answers nodes of the graph with two numbers each,
    the scan ends; the canvas keeps its invariant (appearance of the nodes,
    links between the positions of their ends, nodes in bounds) and nothing is
    selected; the links are those of the wired devices, in order, one for
    every device and every device of another node on its channel, or one to
    the channel when it has more than two devices; every node is there, and unless NS_VIS_ASSIGN is set a node with a
    mobility model is drawn at the position that the model had. *)
Theorem scan_topology_ok layout works sim_nodes :
  Forall (Forall (device_ok k0)) sim_nodes → layout_ok layout →
  ∃ t, scan_topology assign layout sim_nodes (before_scan works) = (t, Ok ()) ∧
    scene_inv (sc t) ∧ unselected (sc t) ∧
    link_ends (sc t) = all_device_links sim_nodes ∧
    (∀ i, (i < length sim_nodes)%nat → there (sc t) (ENode (Z.of_nat i))) ∧
    (assign = false → ∀ i px py, (i < length sim_nodes)%nat → dict_get m0 (Z.of_nat i) = Some (px, py) →
       end_position (sc t) (ENode (Z.of_nat i)) = Some (transform_point_simulation_to_canvas px py)).
Proof.
  intros Hdev Hlay. destruct (scan_scene_good layout works sim_nodes Hdev Hlay) as (t & Hrun & [? _ ? ? Hin Hplace]).
  assert (∀ i : nat, (i < length sim_nodes)%nat → Z.of_nat i ∈ Z.of_nat <$> seq 0 (length sim_nodes)) as Hseq.
  { intros i Hi. apply list_elem_of_fmap. exists i. split; [done|]. apply elem_of_seq. lia. }
  exists t. split_and!; auto.
Qed.
End correct.

(** Three nodes on a bus; 0 also has a point-to-point link to each of the
    others, and 2 is a wireless node that moves. *)
Definition demo_known : gmap string NetDeviceTraits :=
  {["p2p" := {| is_wireless := Some false; is_virtual := false |};
    "csma" := {| is_wireless := Some false; is_virtual := false |};
    "wifi" := {| is_wireless := Some true; is_virtual := false |}]}.
Definition demo_nodes : list (list device) :=
  let p2p j := {| dev_type := "p2p"; dev_channel := Some {| ch_id := 70 + j; ch_nodes := [0; j] |} |} in
  let csma := {| dev_type := "csma"; dev_channel := Some {| ch_id := 70; ch_nodes := [0; 1; 2] |} |} in
  [[p2p 1; csma; p2p 2]; [csma; p2p 1]; [{| dev_type := "wifi"; dev_channel := None |}; csma; p2p 2]].
Definition demo_mobile : list (Z * (float * float)) := [(2, (float_int 10, float_int (-20)))].
(** A layout of the nodes of the graph in a triangle. *)
Definition demo_layout (l : list graph_call) : list (string * string) :=
  imap (λ k name, (name, default "27.5,18" (["0,-5"; "1e2,-5.0"] !! k))) (remove_dups (graph_names l)).
Lemma demo_layout_ok : layout_ok demo_layout.
Proof.
  intros calls. apply Forall_forall. intros [name pos] (k & x & [= -> ->] & Hk)%elem_of_lookup_imap.
  split; [by apply elem_of_remove_dups; eapply list_elem_of_lookup_2|].
  destruct k as [|[|k]]; (eexists; split; [by vm_compute|by vm_compute]).
Qed.
Definition demo_end (assign : bool) : topo :=
  (scan_topology assign demo_layout demo_nodes (before_scan demo_known demo_mobile true)).1.

Theorem scan_topology_ok_witness :
  link_ends (sc (demo_end false)) =
    [(0, Some (ENode 1)); (0, Some (EChannel 70)); (0, Some (ENode 2)); (1, Some (EChannel 70));
     (1, Some (ENode 0)); (2, Some (EChannel 70)); (2, Some (ENode 0))] ∧
  end_position (sc (demo_end false)) (ENode 2) = Some (float_int 30, float_int (-60)).
Proof.
  destruct (scan_topology_ok false demo_known demo_mobile) with (layout := demo_layout) (works := true)
    (sim_nodes := demo_nodes) as (t & Hrun & _ & _ & Hlinks & _ & Hplace).
  - intros i p. simpl. case_decide; [|done]. intros [= <-]. by vm_compute.
  - repeat (apply Forall_cons_2 || apply Forall_nil_2);
      (split; [vm_compute; congruence|]); intros c Hc; vm_compute in Hc; simplify_eq;
      (split; [done|by repeat (apply Forall_cons_2; [done|])]).
  - apply demo_layout_ok.
  - unfold demo_end. rewrite Hrun. cbn [fst]. split; [rewrite Hlinks; by vm_compute|].
    pose proof (Hplace eq_refl 2%nat _ _ ltac:(simpl; lia) eq_refl) as H2. etransitivity; [exact H2|by vm_compute].
Defined.

(** A point-to-point link is drawn from both of its ends; with NS_VIS_ASSIGN
    the moving node is laid out too, and the mobility model is told the place
    on the canvas, which is three times as far as the model's. *)
Example links_twice :
  filter (λ e, e.1 = 0 ∧ e.2 = Some (ENode 1) ∨ e.1 = 1 ∧ e.2 = Some (ENode 0)) (link_ends (sc (demo_end false))) =
    [(0, Some (ENode 1)); (1, Some (ENode 0))].
Proof. by vm_compute. Qed.
Example assigned_in_pixels :
  ∃ x y, dict_get (mobile (demo_end true)) 2 = Some (x, y) ∧
    end_position (sc (demo_end true)) (ENode 2) = Some (x, y) ∧
    transform_point_simulation_to_canvas x y ≠ (x, y).
Proof. do 2 eexists. split_and!; [by vm_compute..|]. by vm_compute. Qed.
