(* ===== verification/VizStats.v ===== *)
(** * visualizer/plugins/interface_statistics.py
    The samples of the counters of every network device, of which the last ten
    intervals are kept by node, the rates that are computed from them, and the
    table of the window.  The helper of the simulator that takes the samples
    and the names of the devices are parameters. *)
From Stdlib Require Import SpecFloat.
From S2P Require Import Prelude PyStr PyNum PyFloat VizFlows.
#[local] Open Scope Z_scope.

Definition NODE_STATISTICS_MEMORY : Z := 10.

(** [NetDeviceStatistics] of the helper: the counters of one device. *)
Record NetDeviceStatistics := {
  transmittedBytes : Z; receivedBytes : Z; transmittedPackets : Z; receivedPackets : Z;
}.
Record NetDevStats := {
  rxPackets : Z; rxBytes : Z; txPackets : Z; txBytes : Z;
  rxPacketRate : float; rxBitRate : float; txPacketRate : float; txBitRate : float;
}.
(** [self.node_statistics]: the samples of a node, the oldest first; a sample
    has the counters of every device of the node. *)
Abbreviation collector := (list (Z * list (list NetDeviceStatistics))).
Abbreviation cio := (eff collector exn unit).

Definition collect_node (stats : Z * list NetDeviceStatistics) : cio :=
  zoom (λ c : collector, default [] (dict_get c stats.1)) (λ l c, dict_set c stats.1 l)
    (remember NODE_STATISTICS_MEMORY stats.2).
Definition simulation_periodic_update (nodes_statistics : list (Z * list NetDeviceStatistics)) : cio :=
  for_each collect_node nodes_statistics.

(** [x/k] for an integer [x] *)
Definition int_rate (x : Z) (k : float) : res float := f ← as_float (PInt x); fdiv f k.
Definition out_stat (k : float) (oldest : list NetDeviceStatistics) (iface : nat)
    (stats : NetDeviceStatistics) : res NetDevStats :=
  a ← py_index (transmittedPackets <$> oldest) (Z.of_nat iface);
  txPacketRate ← int_rate (transmittedPackets stats - a) k;
  a ← py_index (receivedPackets <$> oldest) (Z.of_nat iface);
  rxPacketRate ← int_rate (receivedPackets stats - a) k;
  a ← py_index (transmittedBytes <$> oldest) (Z.of_nat iface);
  txBitRate ← int_rate ((transmittedBytes stats - a) * 8) k;
  a ← py_index (receivedBytes <$> oldest) (Z.of_nat iface);
  rxBitRate ← int_rate ((receivedBytes stats - a) * 8) k;
  Ok {| rxPackets := receivedPackets stats; rxBytes := receivedBytes stats;
        txPackets := transmittedPackets stats; txBytes := transmittedBytes stats;
        rxPacketRate := rxPacketRate; rxBitRate := rxBitRate;
        txPacketRate := txPacketRate; txBitRate := txBitRate |}.
(** [for iface, stats in enumerate(newest): ...; retval.append(outStat)] *)
Fixpoint out_stats (k : float) (oldest : list NetDeviceStatistics) (iface : nat)
    (newest : list NetDeviceStatistics) : res (list NetDevStats) :=
  match newest with
  | [] => Ok []
  | stats :: newest => s ← out_stat k oldest iface stats; l ← out_stats k oldest (S iface) newest; Ok (s :: l)
  end.
Definition get_interface_statistics (sample_period : float) (c : collector) (nodeId : Z)
    : res (list NetDevStats) :=
  match dict_get c nodeId with
  | None => Ok []
  | Some raw_stats_list =>
      if decide (Z.of_nat (length raw_stats_list) < NODE_STATISTICS_MEMORY) then Ok []
      else if decide (Z.of_nat (length raw_stats_list) ≠ NODE_STATISTICS_MEMORY) then Err AssertionError
      else
        oldest ← py_index raw_stats_list 0;
        newest ← py_index raw_stats_list (-1);
        out_stats (fmul sample_period (float_int (NODE_STATISTICS_MEMORY - 1))) oldest 0 newest
  end.

(** ** The window *)

(** A cell of the table: a text, or [str] of a number. *)
Inductive cell : Type := Text (s : string) | Str (x : num).
Definition interface_row (find_name : nat → string) (iface : nat) (stats : NetDevStats) : list cell :=
  let name := find_name iface in
  [Text (if decide (name = "") then "(interface " +:+ pretty (Z.of_nat iface) +:+ ")" else name);
   Str (PInt (txPackets stats)); Str (PInt (txBytes stats));
   Str (PFloat (txPacketRate stats)); Str (PFloat (txBitRate stats));
   Str (PInt (rxPackets stats)); Str (PInt (rxBytes stats));
   Str (PFloat (rxPacketRate stats)); Str (PFloat (rxBitRate stats))].
(** [ShowInterfaceStatistics.update]: the table, which is cleared after the
    statistics were computed. *)
Definition update_statistics (find_name : nat → string) (sample_period : float) (c : collector)
    (node_index : Z) : eff (list (list cell)) exn unit :=
  stats_list ← lift_res (get_interface_statistics sample_period c node_index);
  modify (λ _, imap (interface_row find_name) stats_list).

(** ** What is kept, and what it comes to *)

(** The samples of a node among those of the intervals. *)
Definition own_samples (id : Z) (ticks : list (list (Z * list NetDeviceStatistics)))
    : list (list NetDeviceStatistics) :=
  (filter (λ s : Z * list NetDeviceStatistics, s.1 = id) (mjoin ticks)).*2.
Definition last_ten (l : list (list NetDeviceStatistics)) : list (list NetDeviceStatistics) :=
  drop (length l - 10) l.
(** A collector that has seen the samples [h], node by node. *)
Definition has_seen (h : list (Z * list NetDeviceStatistics)) (c : collector) : Prop :=
  ∀ id, dict_get c id =
    match (filter (λ s : Z * list NetDeviceStatistics, s.1 = id) h).*2 with
    | [] => None
    | l => Some (last_ten l)
    end.

Lemma last_ten_snoc l x : last_ten (last_ten l ++ [x]) = last_ten (l ++ [x]).
Proof.
  unfold last_ten. destruct (decide (length l ≤ 10)%nat).
  - by replace (length l - 10)%nat with O by lia.
  - rewrite <-(drop_app_le l [x]) by lia. rewrite drop_drop, length_drop, !length_app. simpl. f_equal. lia.
Qed.
Lemma collect_node_ok h s c :
  has_seen h c → ∃ c', collect_node s c = (c', Ok ()) ∧ has_seen (h ++ [s]) c'.
Proof.
  intros Hc. destruct s as [i x].
  exists (dict_set c i (last_ten (default [] (dict_get c i) ++ [x]))). split.
  { unfold collect_node, zoom, remember. cbn [fst snd]. by rewrite (pop_front_ok 10). }
  intros id. rewrite dict_get_set, filter_app, fmap_app, filter_cons. simpl.
  case_decide as Hi; [|by rewrite app_nil_r, Hc]. subst id. rewrite Hc.
  destruct (filter _ h).*2 as [|y l]; [done|].
  transitivity (Some (last_ten ((y :: l) ++ [x]))); [|done]. f_equal. apply last_ten_snoc.
Qed.
Lemma collect_ok l h c :
  has_seen h c → ∃ c', simulation_periodic_update l c = (c', Ok ()) ∧ has_seen (h ++ l) c'.
Proof.
  revert h c. induction l as [|s l IH]; intros h c Hc; [exists c; by rewrite app_nil_r|].
  destruct (collect_node_ok h s c Hc) as (c1 & Hrun & Hc1).
  destruct (IH _ c1 Hc1) as (c2 & Hrun2 & Hc2). exists c2. rewrite <-app_assoc in Hc2. split; [|done].
  unfold simulation_periodic_update. cbn [for_each]. by rewrite (bind_run _ _ _ _ _ Hrun).
Qed.
Lemma collects_ok ticks h c :
  has_seen h c →
  ∃ c', for_each simulation_periodic_update ticks c = (c', Ok ()) ∧ has_seen (h ++ mjoin ticks) c'.
Proof.
  revert h c. induction ticks as [|l ticks IH]; intros h c Hc; [exists c; by rewrite app_nil_r|].
  destruct (collect_ok l h c Hc) as (c1 & Hrun & Hc1).
  destruct (IH _ c1 Hc1) as (c2 & Hrun2 & Hc2). exists c2. rewrite <-app_assoc in Hc2. split; [|done].
  cbn [for_each]. by rewrite (bind_run _ _ _ _ _ Hrun).
Qed.

(** The statistics between two samples, device by device. *)
Definition between (k : float) (a b : NetDeviceStatistics) (s : NetDevStats) : Prop :=
  rxPackets s = receivedPackets b ∧ rxBytes s = receivedBytes b ∧
  txPackets s = transmittedPackets b ∧ txBytes s = transmittedBytes b ∧
  int_rate (transmittedPackets b - transmittedPackets a) k = Ok (txPacketRate s) ∧
  int_rate (receivedPackets b - receivedPackets a) k = Ok (rxPacketRate s) ∧
  int_rate ((transmittedBytes b - transmittedBytes a) * 8) k = Ok (txBitRate s) ∧
  int_rate ((receivedBytes b - receivedBytes a) * 8) k = Ok (rxBitRate s).
Lemma py_index_fmap {A B} (f : A → B) l i : py_index (f <$> l) (Z.of_nat i) = 
  match l !! i with Some x => Ok (f x) | None => Err IndexError end.
Proof. rewrite py_index_nat, list_lookup_fmap. by destruct (l !! i). Qed.
Lemma out_stats_ok k oldest newest n l :
  out_stats k oldest n newest = Ok l →
  length l = length newest ∧
  ∀ i b s, newest !! i = Some b → l !! i = Some s → ∃ a, oldest !! (n + i)%nat = Some a ∧ between k a b s.
Proof.
  revert n l. induction newest as [|b0 newest IH]; intros n l; simpl; [by intros [= <-]|].
  intros (s0 & H0 & (l' & Hl & [= <-])%bind_ok)%bind_ok. destruct (IH _ _ Hl) as [Hlen Hi].
  split; [simpl; by f_equal|]. intros [|i] b s; simpl.
  - intros [= ->] [= ->]. unfold out_stat in H0. rewrite !py_index_fmap in H0. rewrite Nat.add_0_r.
    destruct (oldest !! n) as [a|]; [|done]. exists a. split; [done|]. simpl in H0. inv_bind.
    by simplify_eq/=.
  - intros Hb Hs. rewrite Nat.add_succ_r. by eapply (Hi i).
Qed.
(** The differences of the counters can be converted to floats. *)
Definition fits (z : Z) : Prop := ∃ f, as_float (PInt z) = Ok f.
Definition fit (a b : NetDeviceStatistics) : Prop :=
  fits (transmittedPackets b - transmittedPackets a) ∧ fits (receivedPackets b - receivedPackets a) ∧
  fits ((transmittedBytes b - transmittedBytes a) * 8) ∧ fits ((receivedBytes b - receivedBytes a) * 8).
Lemma fits_rate z k : is_zero_float k = false → fits z → ∃ x, int_rate z k = Ok x.
Proof. intros Hk [f Hf]. unfold int_rate. rewrite Hf. simpl. unfold fdiv. rewrite Hk. by eexists. Qed.
Lemma out_stats_end k oldest newest n :
  is_zero_float k = false → (n ≤ length oldest)%nat →
  (∀ i a b, oldest !! (n + i)%nat = Some a → newest !! i = Some b → fit a b) →
  (∃ l, out_stats k oldest n newest = Ok l) ∧ (n + length newest ≤ length oldest)%nat ∨
  out_stats k oldest n newest = Err IndexError ∧ (length oldest < n + length newest)%nat.
Proof.
  intros Hk. revert n. induction newest as [|b newest IH]; intros n Hn Hfit; simpl; [left; split; [by eexists|lia]|].
  unfold out_stat. rewrite !py_index_fmap. destruct (oldest !! n) as [a|] eqn:Ea.
  - destruct (Hfit O a b) as (F1 & F2 & F3 & F4); [by rewrite Nat.add_0_r|done|].
    destruct (fits_rate _ k Hk F1) as [x1 H1], (fits_rate _ k Hk F2) as [x2 H2].
    destruct (fits_rate _ k Hk F3) as [x3 H3], (fits_rate _ k Hk F4) as [x4 H4].
    apply lookup_lt_Some in Ea as Hlt. simpl. rewrite H1; simpl. rewrite H2; simpl. rewrite H3; simpl. rewrite H4; simpl.
    destruct (IH (S n)) as [[[l ->] ?]|[-> ?]]; [lia| |left|right].
    + intros i a' b' Ha' Hb'. apply (Hfit (S i) a' b'); [by rewrite Nat.add_succ_r|done].
    + split; [by eexists|lia].
    + split; [done|lia].
  - right. apply lookup_ge_None_1 in Ea. split; [done|lia].
Qed.

(** The interface statistics of a node.  Whatever was sampled, and for
    whatever other nodes, there are none before the tenth sample of the node;
    from then on they compare its last sample with the ninth before it: one
    entry for every device of the last sample, with its counters and the four
    rates over nine sample periods; a device that the older sample does not
    have is an IndexError.  Nothing is said for a sample period of 0 or a
    difference that is no float. *)
Theorem interface_statistics_rates ticks id sample_period :
  ∃ c, for_each simulation_periodic_update ticks [] = (c, Ok ()) ∧
  let h := own_samples id ticks in
  let k := fmul sample_period (float_int (NODE_STATISTICS_MEMORY - 1)) in
  ((length h < 10)%nat → get_interface_statistics sample_period c id = Ok []) ∧
  ∀ oldest newest,
    (10 ≤ length h)%nat → h !! (length h - 10)%nat = Some oldest → last h = Some newest →
    is_zero_float k = false →
    (∀ i a b, oldest !! i = Some a → newest !! i = Some b → fit a b) →
    if decide (length newest ≤ length oldest)%nat then
      ∃ l, get_interface_statistics sample_period c id = Ok l ∧ length l = length newest ∧
        ∀ i s, l !! i = Some s → ∃ a b, oldest !! i = Some a ∧ newest !! i = Some b ∧ between k a b s
    else get_interface_statistics sample_period c id = Err IndexError.
Proof.
  destruct (collects_ok ticks [] []) as (c & Hrun & Hc); [by intros id'|]. exists c. split; [done|].
  specialize (Hc id). cbn zeta. rewrite app_nil_l in Hc. fold (own_samples id ticks) in Hc. set (h := own_samples id ticks) in *.
  unfold get_interface_statistics. split.
  - intros Hlen. rewrite Hc. destruct h as [|x h']; [done|]. cbn iota. rewrite decide_True; [done|].
    unfold last_ten, NODE_STATISTICS_MEMORY. rewrite length_drop. lia.
  - intros oldest newest Hlen Hold%drop_S Hnew Hk Hfit. set (rest := drop (S _) h) in Hold.
    assert (dict_get c id = Some (oldest :: rest)) as ->.
    { rewrite Hc. destruct h; [done|]. unfold last_ten. by rewrite Hold. }
    assert (length (oldest :: rest) = 10%nat) as Hten by (rewrite <-Hold, length_drop; lia).
    rewrite Hten, (decide_False (P := Z.of_nat 10 < NODE_STATISTICS_MEMORY)),
      (decide_False (P := Z.of_nat 10 ≠ NODE_STATISTICS_MEMORY)) by (unfold NODE_STATISTICS_MEMORY; lia).
    assert (py_index (oldest :: rest) (-1) = Ok newest) as ->.
    { unfold py_index. cbn zeta. rewrite (decide_True (P := -1 < 0)), Hten, decide_False by lia.
      rewrite <-Hold, lookup_drop. rewrite last_lookup in Hnew.
      replace (length h - 10 + _)%nat with (Nat.pred (length h)) by lia. by rewrite Hnew. }
    change (py_index (oldest :: rest) 0) with (@Ok exn _ oldest). cbn [mbind result_bind].
    destruct (out_stats_end (fmul sample_period (float_int (NODE_STATISTICS_MEMORY - 1))) oldest newest 0)
      as [[[l Hl] Hlt]|[-> Hlt]]; [done|lia|done|..].
    + rewrite decide_True by lia. exists l. destruct (out_stats_ok _ _ _ _ _ Hl) as [Hlen' Hi].
      split_and!; [done..|]. intros i s Hs.
      destruct (lookup_lt_is_Some_2 newest i) as [b Hb]; [rewrite <-Hlen'; by eapply lookup_lt_Some|].
      destruct (Hi i b s Hb Hs) as (a & ? & ?). by exists a, b.
    + by rewrite decide_False by lia.
Qed.

(** Two devices that send 1000 bytes in 10 packets in an interval of 0.1
    seconds, and a node of one device that gets a second one. *)
Definition demo_stats (n : Z) : NetDeviceStatistics :=
  {| transmittedBytes := 1000 * n; receivedBytes := 0; transmittedPackets := 10 * n; receivedPackets := 0 |}.
Definition demo_samples : list (list (Z * list NetDeviceStatistics)) :=
  (λ n, [(0, [demo_stats n; demo_stats (2 * n)]);
         (1, demo_stats n :: if decide (n < 12) then [] else [demo_stats n])]) <$> (Z.of_nat <$> seq 0 13).
Definition demo_collector : collector := (for_each simulation_periodic_update demo_samples []).1.
(** The packets of the devices and their rates, without fractions. *)
Definition whole_rates (sample_period : float) (id : Z) : res (list (Z * res Z * res Z)) :=
  l ← get_interface_statistics sample_period demo_collector id;
  Ok (map (λ s, (txPackets s, py_int (PFloat (txPacketRate s)), py_int (PFloat (txBitRate s)))) l).
Example rates_of_two_devices :
  whole_rates (lit 1 (-1)) 0 = Ok [(120, Ok 100, Ok 80000); (240, Ok 200, Ok 160000)].
Proof. by vm_compute. Qed.
Example new_device_raises : whole_rates (lit 1 (-1)) 1 = Err IndexError.
Proof. by vm_compute. Qed.
(** Doubling the speed in the middle of the window halves every rate at once,
    though the nine intervals before it were half as long. *)
Example rate_after_speed_change :
  whole_rates (fmul (lit 1 (-1)) (float_int 2)) 0 = Ok [(120, Ok 50, Ok 40000); (240, Ok 100, Ok 80000)].
Proof. by vm_compute. Qed.
