(* ===== verification/VizWifi.v ===== *)
(** * visualizer/plugins/wifi_intrastructure_link.py
    The links that are drawn from the stations of a wireless network to their
    access points.  The devices of a node, the state of a station and its
    BSSID are asked from the simulator and are arguments here.  A [WifiLink]
    is also in the list [links] of its access point; that list holds wired
    links too, which do not meet those of this file, and [attached] is the part
    of it that does. *)
From Stdlib Require Import SpecFloat.
From S2P Require Import Prelude PyStr PyFloat VizNodes.
#[local] Open Scope Z_scope.

(** ** Links *)

(** [node1] is the station and [node2] the access point, if there is one; a
    destroyed link has neither. *)
Record WifiLink := {
  w_node1 : option Z; w_dev : Z; w_node2 : option Z;
  w_shown : bool;                                  (* visibility of the group *)
  w_points : option (float * float * float * float);   (* of both lines *)
}.
Record monitor := Monitor {
  w_scene : scene;
  wlinks : list WifiLink;               (* the objects that were made *)
  attached : list (Z * list nat);
  access_points : list (string * Z);    (* bssid -> node *)
  stations : list (Z * Z * nat);        (* (sta_netdevice, viz_node, wifi_link) *)
}.
Abbreviation wio := (eff monitor exn).

Definition set_w_scene (s : scene) (m : monitor) : monitor :=
  Monitor s (wlinks m) (attached m) (access_points m) (stations m).
Definition set_wlinks (l : list WifiLink) (m : monitor) : monitor :=
  Monitor (w_scene m) l (attached m) (access_points m) (stations m).
Definition set_attached (l : list (Z * list nat)) (m : monitor) : monitor :=
  Monitor (w_scene m) (wlinks m) l (access_points m) (stations m).
Definition set_access_points (l : list (string * Z)) (m : monitor) : monitor :=
  Monitor (w_scene m) (wlinks m) (attached m) l (stations m).
Definition set_stations (l : list (Z * Z * nat)) (m : monitor) : monitor :=
  Monitor (w_scene m) (wlinks m) (attached m) (access_points m) l.

Definition with_ap (ap : option Z) (l : WifiLink) : WifiLink :=
  {| w_node1 := w_node1 l; w_dev := w_dev l; w_node2 := ap; w_shown := w_shown l; w_points := w_points l |}.
Definition with_shown (b : bool) (l : WifiLink) : WifiLink :=
  {| w_node1 := w_node1 l; w_dev := w_dev l; w_node2 := w_node2 l; w_shown := b; w_points := w_points l |}.
Definition with_points (p : float * float * float * float) (l : WifiLink) : WifiLink :=
  {| w_node1 := w_node1 l; w_dev := w_dev l; w_node2 := w_node2 l; w_shown := w_shown l; w_points := Some p |}.
(** [canvas_item.destroy()] takes the lines from the canvas. *)
Definition destroyed (l : WifiLink) : WifiLink :=
  {| w_node1 := None; w_dev := w_dev l; w_node2 := None; w_shown := false; w_points := w_points l |}.

Definition change_link (k : nat) (f : WifiLink → WifiLink) : wio unit :=
  modify (λ m, set_wlinks (alter f k (wlinks m)) m).
(** [k] is the index of a link that was made. *)
Definition of_link (k : nat) (f : WifiLink → wio unit) : wio unit := λ m,
  match wlinks m !! k with Some l => f l m | None => (m, Ok ()) end.
Definition node_position (i : Z) : wio (float * float) := λ m,
  (m, match end_position (w_scene m) (ENode i) with Some p => Ok p | None => Err KeyError end).
Definition attached_to (m : monitor) (i : Z) : list nat := default [] (dict_get (attached m) i).
Definition add_link (i : Z) (k : nat) : wio unit :=
  modify (λ m, set_attached (dict_set (attached m) i (attached_to m i ++ [k])) m).
(** [list.remove]: the first one, or a ValueError *)
Fixpoint remove_first (k : nat) (l : list nat) : res (list nat) :=
  match l with
  | [] => Err (ValueError "list.remove(x): x not in list")
  | j :: l => if decide (j = k) then Ok l else l' ← remove_first k l; Ok (j :: l')
  end.
Definition remove_link (i : Z) (k : nat) : wio unit :=
  links ← gets (λ m, attached_to m i);
  links ← lift_res (remove_first k links);
  modify (λ m, set_attached (dict_set (attached m) i links) m).

Definition update_points (k : nat) : wio unit := of_link k (λ l,
  match w_node2 l with
  | None => mret ()
  | Some b =>
      match w_node1 l with
      | None => throw AttributeError
      | Some a =>
          '(x1, y1) ← node_position a;
          '(x2, y2) ← node_position b;
          change_link k (with_points (x1, y1, x2, y2))
      end
  end).
Definition set_ap (ap : option Z) (k : nat) : wio unit := of_link k (λ l,
  if decide (ap = w_node2 l) then mret ()
  else
    _ ← (match w_node2 l with Some b => remove_link b k | None => mret () end);
    _ ← change_link k (with_ap ap);
    _ ← (match ap with
         | None => change_link k (with_shown false)
         | Some b => _ ← add_link b k; change_link k (with_shown true)
         end);
    update_points k).
(** [WifiLink(...)]: [set_ap(None)] changes nothing, so the group is visible,
    but its lines have no points yet. *)
Definition new_wifi_link (sta dev : Z) : wio nat :=
  k ← gets (λ m, length (wlinks m));
  _ ← modify (λ m, set_wlinks (wlinks m ++
        [{| w_node1 := Some sta; w_dev := dev; w_node2 := None; w_shown := true; w_points := None |}]) m);
  _ ← set_ap None k;
  mret k.

(** ** The monitor *)

(** The devices of a node, as far as the scan tells them apart: the device of a
    station, the device of an access point with the text of its address, a
    wireless device of another kind, or a device that is not wireless. *)
Inductive net_device : Type := StaDev (dev : Z) | ApDev (bssid : string) | OtherMac | NotWifi.
Definition scan_device (i : Z) (d : net_device) : wio unit :=
  match d with
  | StaDev dev => k ← new_wifi_link i dev; modify (λ m, set_stations (stations m ++ [(dev, i, k)]) m)
  | ApDev bssid => modify (λ m, set_access_points (dict_set (access_points m) bssid i) m)
  | OtherMac | NotWifi => mret ()
  end.
Definition scan_nodes (devices : Z → list net_device) : wio unit :=
  old ← gets stations;
  _ ← for_each (λ s : Z * Z * nat, change_link s.2 destroyed) old;
  _ ← modify (set_access_points []);
  _ ← modify (set_stations []);
  ids ← gets (λ m, (nodes (w_scene m)).*1);
  for_each (λ i, for_each (scan_device i) (devices i)) ids.

(** [IsLinkUp] and the text of the BSSID, by device. *)
Definition no_bssid : string := "00:00:00:00:00:00".
Definition associate (state : Z → bool * string) (s : Z * Z * nat) : wio unit :=
  let '(dev, _, k) := s in
  let '(up, bssid) := state dev in
  if negb up then set_ap None k
  else if decide (bssid = no_bssid) then set_ap None k
  else
    aps ← gets access_points;
    match dict_get aps bssid with
    | None => throw KeyError
    | Some ap => set_ap (Some ap) k
    end.
Definition simulation_periodic_update (state : Z → bool * string) : wio unit :=
  l ← gets stations; for_each (associate state) l.
Definition update_view : wio unit := l ← gets stations; for_each (λ s : Z * Z * nat, update_points s.2) l.

(** [Node.set_position], as far as this file goes. *)
Definition move_node (i : Z) (x y : float) : wio unit :=
  _ ← modify (λ m, set_w_scene (set_position i x y (w_scene m)) m);
  l ← gets (λ m, attached_to m i);
  for_each update_points l.

(** What happens to the monitor.  An exception of a handler is printed and
    forgotten by the main loop. *)
Inductive wifi_event : Type :=
| EvScan (devices : Z → list net_device)
| EvPeriodic (state : Z → bool * string)
| EvView
| EvMove (i : Z) (x y : float)
| EvNode (i : Z).
Definition handle (e : wifi_event) : wio unit :=
  match e with
  | EvScan devices => scan_nodes devices
  | EvPeriodic state => simulation_periodic_update state
  | EvView => update_view
  | EvMove i x y => move_node i x y
  | EvNode i => modify (λ m, set_w_scene (get_node i (w_scene m)) m)
  end.
Definition run_events (es : list wifi_event) (m : monitor) : monitor :=
  foldl (λ m e, (handle e m).1) m es.
(** [WifiLinkMonitor(viz)] *)
Definition new_monitor (s : scene) : monitor := Monitor s [] [] [] [].

(** ** Steps *)

Definition is_there (s : scene) (i : Z) : Prop := is_Some (end_position s (ENode i)).
(** What [update_points] makes of a link. *)
Definition fresh (s : scene) (l : WifiLink) : WifiLink :=
  match w_node1 l ≫= λ a, end_position s (ENode a), w_node2 l ≫= λ b, end_position s (ENode b) with
  | Some (x1, y1), Some (x2, y2) => with_points (x1, y1, x2, y2) l
  | _, _ => l
  end.
Definition link_fine (s : scene) (l : WifiLink) : Prop :=
  match w_node2 l with
  | None => True
  | Some b => is_there s b ∧ ∃ a, w_node1 l = Some a ∧ is_there s a
  end.
(** Only links change, each in its own way. *)
Record changes (g : nat → WifiLink → WifiLink) (m m' : monitor) : Prop := {
  ch_scene : w_scene m' = w_scene m;
  ch_attached : attached m' = attached m;
  ch_aps : access_points m' = access_points m;
  ch_stations : stations m' = stations m;
  ch_links : ∀ k, wlinks m' !! k = g k <$> wlinks m !! k;
}.
Definition at_link (k : nat) (f : WifiLink → WifiLink) (j : nat) (l : WifiLink) : WifiLink :=
  if decide (j = k) then f l else l.

Lemma change_link_changes k f m : changes (at_link k f) m (set_wlinks (alter f k (wlinks m)) m).
Proof.
  split; try done. intros j. simpl. unfold at_link. destruct (decide (j = k)) as [->|].
  - apply list_lookup_alter_eq.
  - rewrite list_lookup_alter_ne by done. by destruct (wlinks m !! j).
Qed.
Lemma changes_trans g h m m' m'' :
  changes g m m' → changes h m' m'' → changes (λ k l, h k (g k l)) m m''.
Proof.
  intros [G1 G2 G3 G4 G5] [H1 H2 H3 H4 H5]. split; try congruence.
  intros k. rewrite H5, G5. by destruct (wlinks m !! k).
Qed.
Lemma changes_ext g h m m' :
  changes g m m' → (∀ k l, wlinks m !! k = Some l → g k l = h k l) → changes h m m'.
Proof.
  intros [G1 G2 G3 G4 G5] H. split; try done. intros k. rewrite G5.
  destruct (wlinks m !! k) eqn:E; [|done]. simpl. by rewrite (H _ _ E).
Qed.
Lemma changes_refl g m : (∀ k l, wlinks m !! k = Some l → g k l = l) → changes g m m.
Proof.
  intros H. split; try done. intros k. destruct (wlinks m !! k) eqn:E; [|done]. simpl. by rewrite (H _ _ E).
Qed.
Lemma fresh_ends s l : w_node1 (fresh s l) = w_node1 l ∧ w_node2 (fresh s l) = w_node2 l ∧
  w_dev (fresh s l) = w_dev l ∧ w_shown (fresh s l) = w_shown l.
Proof. unfold fresh. by repeat case_match. Qed.
Lemma fresh_fresh s l : fresh s (fresh s l) = fresh s l.
Proof.
  destruct (fresh_ends s l) as (E1 & E2 & _). unfold fresh at 1. rewrite E1, E2.
  unfold fresh. by repeat case_match.
Qed.
Lemma update_points_run k m :
  (∀ l, wlinks m !! k = Some l → link_fine (w_scene m) l) →
  ∃ m', update_points k m = (m', Ok ()) ∧ changes (at_link k (fresh (w_scene m))) m m'.
Proof.
  intros Hfine. unfold update_points, of_link. destruct (wlinks m !! k) as [l|] eqn:Ek.
  - specialize (Hfine l eq_refl). unfold link_fine in Hfine. destruct (w_node2 l) as [b|] eqn:Eb.
    + destruct Hfine as ([[x2 y2] Hb] & a & Ea & [[x1 y1] Ha]). rewrite Ea.
      eexists. split.
      * unfold mbind, eff_bind, node_position. rewrite Ha, Hb. reflexivity.
      * eapply changes_ext; [apply change_link_changes|]. intros j l' Hj. unfold at_link.
        case_decide; [|done]. subst j. rewrite Ek in Hj. injection Hj as <-.
        unfold fresh. rewrite Ea, Eb. cbn [mbind option_bind]. by rewrite Ha, Hb.
    + exists m. split; [done|]. apply changes_refl. intros j l' Hj. unfold at_link. case_decide; [|done].
      subst j. rewrite Ek in Hj. injection Hj as <-. unfold fresh. rewrite Eb. by repeat case_match.
  - exists m. split; [done|]. apply changes_refl. intros j l Hj. unfold at_link. case_decide; [|done]. congruence.
Qed.
Definition refreshed (s : scene) (ks : list nat) (k : nat) (l : WifiLink) : WifiLink :=
  if decide (k ∈ ks) then fresh s l else l.
Lemma update_all_run ks m :
  (∀ k l, wlinks m !! k = Some l → link_fine (w_scene m) l) →
  ∃ m', for_each update_points ks m = (m', Ok ()) ∧ changes (refreshed (w_scene m) ks) m m'.
Proof.
  revert m. induction ks as [|k ks IH]; intros m Hfine.
  { exists m. split; [done|]. by apply changes_refl. }
  destruct (update_points_run k m) as (m1 & Hrun1 & H1); [by apply Hfine|].
  destruct (IH m1) as (m2 & Hrun2 & H2).
  { intros j l. rewrite (ch_scene _ _ _ H1), (ch_links _ _ _ H1).
    destruct (wlinks m !! j) as [l0|] eqn:E; [|done]. intros [= <-]. specialize (Hfine j l0 E).
    unfold at_link. case_decide; [|done]. unfold link_fine in *.
    by destruct (fresh_ends (w_scene m) l0) as (-> & -> & _). }
  exists m2. cbn [for_each]. rewrite (bind_run _ _ _ _ _ Hrun1). split; [done|].
  eapply changes_ext; [by eapply changes_trans|]. intros j l _. rewrite (ch_scene _ _ _ H1).
  unfold at_link, refreshed. destruct (decide (j = k)) as [->|Hne].
  - rewrite (decide_True (P := k ∈ k :: ks)) by left. case_decide; [apply fresh_fresh|done].
  - destruct (decide (j ∈ ks)); [by rewrite decide_True by (by right)|].
    rewrite decide_False; [done|]. by intros [?|?]%elem_of_cons.
Qed.

(** ** The invariant *)

Definition live (m : monitor) : list nat := (stations m).*2.
Definition occurs (k : nat) (l : list nat) : nat := length (filter (λ j, j = k) l).
(** The drawn line ends where the access point is now. *)
Definition drawn (s : scene) (l : WifiLink) : Prop :=
  match w_node2 l with
  | None => w_shown l = false ∨ w_points l = None
  | Some b => w_shown l = true ∧ ∃ x1 y1 x2 y2,
      w_points l = Some (x1, y1, x2, y2) ∧ end_position s (ENode b) = Some (x2, y2)
  end.
(** The links of the stations are distinct; each runs from the node of its
    station, is once in the list of its access point and in no other list; the
    links that are left from earlier scans were destroyed. *)
Record wifi_core (m : monitor) : Prop := {
  wc_nodup : NoDup (live m);
  wc_station : ∀ dev a k, (dev, a, k) ∈ stations m →
    ∃ l, wlinks m !! k = Some l ∧ w_node1 l = Some a ∧ w_dev l = dev ∧ is_there (w_scene m) a;
  wc_dead : ∀ k l, wlinks m !! k = Some l → k ∉ live m →
    w_node1 l = None ∧ w_node2 l = None ∧ w_shown l = false;
  wc_ap : ∀ k l b, wlinks m !! k = Some l → w_node2 l = Some b → is_there (w_scene m) b;
  wc_attached : ∀ k l b, wlinks m !! k = Some l → k ∈ live m →
    occurs k (attached_to m b) = if decide (w_node2 l = Some b) then 1%nat else O;
  wc_range : ∀ b k, k ∈ attached_to m b → (k < length (wlinks m))%nat;
  wc_known : ∀ bssid b, dict_get (access_points m) bssid = Some b → is_there (w_scene m) b;
}.
Record wifi_inv (m : monitor) : Prop := {
  wi_core : wifi_core m;
  wi_drawn : ∀ k l, wlinks m !! k = Some l → drawn (w_scene m) l;
}.

Lemma core_fine m k l : wifi_core m → wlinks m !! k = Some l → link_fine (w_scene m) l.
Proof.
  intros Hm Hk. unfold link_fine. destruct (w_node2 l) as [b|] eqn:Eb; [|done].
  split; [by eapply wc_ap|]. destruct (decide (k ∈ live m)) as [Hl|Hl].
  - apply list_elem_of_fmap in Hl as ([[dev a] k'] & -> & Hs).
    destruct (wc_station m Hm _ _ _ Hs) as (l' & Hk' & Ha & _ & Ht). simpl in Hk. rewrite Hk in Hk'.
    injection Hk' as <-. by exists a.
  - destruct (wc_dead m Hm _ _ Hk Hl) as (_ & ? & _). congruence.
Qed.
(** Links that are drawn anew. *)
Lemma refresh_core ks m m' : changes (refreshed (w_scene m) ks) m m' → wifi_core m → wifi_core m'.
Proof.
  intros [C1 C2 C3 C4 C5] [I1 I2 I3 I4 I5 I6 I7].
  assert (∀ k l', wlinks m' !! k = Some l' → ∃ l, wlinks m !! k = Some l ∧ w_node1 l' = w_node1 l ∧
    w_node2 l' = w_node2 l ∧ w_dev l' = w_dev l ∧ w_shown l' = w_shown l) as H.
  { intros k l'. rewrite C5. destruct (wlinks m !! k) as [l|]; [|done]. intros [= <-]. exists l.
    split; [done|]. unfold refreshed. case_decide; [apply fresh_ends|done]. }
  assert (live m' = live m) as EL by (unfold live; by rewrite C4).
  assert (∀ b, attached_to m' b = attached_to m b) as EA by (intros b; unfold attached_to; by rewrite C2).
  split; rewrite ?EL; try done.
  - intros dev a k. rewrite C4, C1. intros Hs. destruct (I2 _ _ _ Hs) as (l & Hk & ? & ? & ?).
    exists (refreshed (w_scene m) ks k l). rewrite C5, Hk. split; [done|]. unfold refreshed.
    case_decide; [|done]. destruct (fresh_ends (w_scene m) l) as (-> & _ & -> & _). done.
  - intros k l' Hk Hl. destruct (H _ _ Hk) as (l & Hk' & -> & -> & _ & ->). eauto.
  - intros k l' b Hk. destruct (H _ _ Hk) as (l & Hk' & _ & -> & _ & _). rewrite C1. eauto.
  - intros k l' b Hk Hl. destruct (H _ _ Hk) as (l & Hk' & _ & -> & _ & _). rewrite EA. eauto.
  - intros b k. rewrite EA. intros Hb%I6. apply lookup_lt_is_Some in Hb as [l Hl].
    apply lookup_lt_is_Some. rewrite C5, Hl. by eexists.
  - rewrite C1, C3. done.
Qed.
Lemma fresh_drawn s l :
  link_fine s l → match w_node2 l with None => w_shown l = false ∨ w_points l = None | Some _ => w_shown l = true end →
  drawn s (fresh s l).
Proof.
  unfold link_fine, drawn. destruct (fresh_ends s l) as (_ & -> & _ & ->).
  destruct (w_node2 l) as [b|] eqn:Eb.
  - intros ([[x2 y2] Hb] & a & Ha & [[x1 y1] Hp]) Hs. split; [done|]. exists x1, y1, x2, y2.
    split; [|done]. unfold fresh. rewrite Ha, Eb. cbn [mbind option_bind]. by rewrite Hp, Hb.
  - intros _ Hs. assert (fresh s l = l) as ->; [|done]. unfold fresh. rewrite Eb. by repeat case_match.
Qed.
Lemma drawn_shown s l :
  drawn s l → match w_node2 l with None => w_shown l = false ∨ w_points l = None | Some _ => w_shown l = true end.
Proof. unfold drawn. destruct (w_node2 l); [by intros [? _]|done]. Qed.
Lemma refresh_inv ks m m' : changes (refreshed (w_scene m) ks) m m' → wifi_inv m → wifi_inv m'.
Proof.
  intros C [Hm Hd]. split; [by eapply refresh_core|]. destruct C as [-> _ _ _ C5]. intros k l'. rewrite C5.
  destruct (wlinks m !! k) as [l|] eqn:Ek; [|done]. intros [= <-]. unfold refreshed.
  case_decide; [|by eapply Hd]. apply fresh_drawn; [by eapply core_fine|]. by eapply drawn_shown, Hd.
Qed.
Lemma update_view_run m :
  wifi_inv m →
  ∃ m', update_view m = (m', Ok ()) ∧ wifi_inv m' ∧ changes (refreshed (w_scene m) (live m)) m m'.
Proof.
  intros Hm. destruct (update_all_run (live m) m) as (m' & Hrun & C).
  { intros k l. by apply core_fine, Hm. }
  exists m'. split_and!; [|by eapply refresh_inv|done]. rewrite <-Hrun. unfold update_view, live.
  rewrite bind_gets. generalize m at 2 4. induction (stations m) as [|s l IH]; intros m0; [done|].
  cbn [for_each fmap list_fmap]. unfold mbind, eff_bind. by destruct (update_points s.2 m0) as [m1 [[]|e]].
Qed.

(** A node that appears or is moved. *)
Lemma core_scene s m :
  (∀ i, is_there (w_scene m) i → is_there s i) → wifi_core m → wifi_core (set_w_scene s m).
Proof.
  intros H [I1 I2 I3 I4 I5 I6 I7]. split; try done.
  - intros dev a k Hs. destruct (I2 _ _ _ Hs) as (l & ? & ? & ? & ?). exists l. auto.
  - intros k l b Hk Hb. apply H. by eapply I4.
  - intros bssid b Hb. by eapply H, I7.
Qed.
Lemma new_node_inv i m : wifi_inv m → wifi_inv (set_w_scene (get_node i (w_scene m)) m).
Proof.
  intros [Hm Hd].
  assert (∀ j p, end_position (w_scene m) (ENode j) = Some p →
    end_position (get_node i (w_scene m)) (ENode j) = Some p) as H.
  { intros j p. simpl. rewrite get_node_get. by destruct (dict_get (nodes (w_scene m)) j). }
  split; [apply core_scene; [intros j [p Hp]; exists p; by apply H|done]|].
  intros k l Hk. specialize (Hd k l Hk). unfold drawn in *. destruct (w_node2 l); [|done].
  destruct Hd as [? (x1 & y1 & x2 & y2 & ? & ?)]. split; [done|]. exists x1, y1, x2, y2.
  split; [done|]. by apply H.
Qed.
Lemma occurs_elem k l : (0 < occurs k l)%nat → k ∈ l.
Proof.
  unfold occurs. intros H. destruct (filter (λ j, j = k) l) as [|j f] eqn:E; [simpl in H; lia|].
  assert (j ∈ filter (λ j, j = k) l) as [-> Hin]%list_elem_of_filter by (rewrite E; left). done.
Qed.
Lemma move_node_run i x y m :
  wifi_inv m →
  ∃ m', move_node i x y m = (m', Ok ()) ∧ wifi_inv m' ∧ w_scene m' = set_position i x y (w_scene m) ∧
    stations m' = stations m ∧ access_points m' = access_points m.
Proof.
  intros [Hm Hd]. set (m1 := set_w_scene (set_position i x y (w_scene m)) m).
  assert (wifi_core m1) as Hm1.
  { apply core_scene; [|done]. intros j. unfold is_there. rewrite set_position_place.
    case_decide; [|done]. intros [p ->]. by eexists. }
  destruct (update_all_run (attached_to m1 i) m1) as (m' & Hrun & C); [intros k l; by apply core_fine|].
  exists m'. split; [unfold move_node; rewrite bind_modify, bind_gets; exact Hrun|].
  split; [split; [by eapply refresh_core|]|by destruct C].
  destruct C as [-> _ _ _ C5]. intros k l'. rewrite C5. change (wlinks m1) with (wlinks m).
  destruct (wlinks m !! k) as [l|] eqn:Ek; [|done]. intros [= <-].
  pose proof (Hd k l Ek) as Hl. unfold refreshed. case_decide as Hin.
  - apply fresh_drawn; [by eapply (core_fine m1)|by eapply drawn_shown].
  - unfold drawn in *. destruct (w_node2 l) as [b|] eqn:Eb; [|done]. destruct Hl as [? (x1 & y1 & x2 & y2 & ? & ?)].
    split; [done|]. exists x1, y1, x2, y2. split; [done|]. unfold m1. simpl w_scene.
    rewrite set_position_place, decide_False; [done|]. intros <-. apply Hin, occurs_elem.
    change (attached_to m1 i) with (attached_to m i). destruct (decide (k ∈ live m)) as [Hk|Hk].
    + rewrite (wc_attached m Hm k l i Ek Hk), decide_True by done. lia.
    + destruct (wc_dead m Hm k l Ek Hk) as (_ & ? & _). congruence.
Qed.

(** ** Access points *)

Lemma occurs_cons k j l : occurs k (j :: l) = if decide (j = k) then S (occurs k l) else occurs k l.
Proof. unfold occurs. rewrite filter_cons. by case_decide. Qed.
Lemma occurs_snoc k j l : occurs k (l ++ [j]) = if decide (j = k) then S (occurs k l) else occurs k l.
Proof.
  induction l as [|i l IH]; [apply occurs_cons|]. simpl. rewrite !occurs_cons, IH. by repeat case_decide.
Qed.
Lemma not_occurs k l : k ∉ l → occurs k l = O.
Proof. intros H. destruct (occurs k l) eqn:E; [done|]. exfalso. apply H, occurs_elem. lia. Qed.
Lemma remove_first_ok k l :
  (0 < occurs k l)%nat →
  ∃ l', remove_first k l = Ok l' ∧ (∀ j, j ∈ l' → j ∈ l) ∧
    ∀ j, occurs j l' = if decide (j = k) then Nat.pred (occurs j l) else occurs j l.
Proof.
  induction l as [|i l IH]; [unfold occurs; simpl; lia|]. rewrite occurs_cons. cbn [remove_first].
  case_decide as Hi; intros Hk.
  - exists l. split_and!; [done|by right|]. intros j. rewrite occurs_cons. subst i. by repeat case_decide.
  - destruct (IH Hk) as (l' & -> & Hin & Ho). exists (i :: l'). split_and!; [done|set_solver|].
    intros j. rewrite !occurs_cons, Ho. by repeat case_decide; subst.
Qed.
Lemma attached_set m i l b :
  attached_to (set_attached (dict_set (attached m) i l) m) b = if decide (i = b) then l else attached_to m b.
Proof. unfold attached_to. simpl. rewrite dict_get_set. by case_decide. Qed.

(** The link [k] leaves the lists of all nodes. *)
Lemma leave_run k l m :
  wifi_core m → k ∈ live m → wlinks m !! k = Some l →
  ∃ m', (match w_node2 l with Some b => remove_link b k | None => mret () end) m = (m', Ok ()) ∧
    w_scene m' = w_scene m ∧ wlinks m' = wlinks m ∧ access_points m' = access_points m ∧
    stations m' = stations m ∧ (∀ b j, j ∈ attached_to m' b → j ∈ attached_to m b) ∧
    ∀ b j, occurs j (attached_to m' b) = if decide (j = k) then O else occurs j (attached_to m b).
Proof.
  intros Hm Hlive Hk. pose proof (λ b, wc_attached m Hm k l b Hk Hlive) as Ho.
  destruct (w_node2 l) as [b0|] eqn:Eb.
  - destruct (remove_first_ok k (attached_to m b0)) as (l' & Hr & Hin & Hocc).
    { rewrite Ho, decide_True by done. lia. }
    exists (set_attached (dict_set (attached m) b0 l') m).
    split; [unfold remove_link; by rewrite bind_gets, Hr|]. split_and!; [done..| |].
    + intros b j. rewrite attached_set. case_decide; [subst; apply Hin|done].
    + intros b j. rewrite attached_set. destruct (decide (b0 = b)) as [<-|Hne].
      * rewrite Hocc. case_decide; [|done]. subst j. by rewrite Ho, decide_True.
      * case_decide; [|done]. subst j. rewrite Ho, decide_False; [done|]. congruence.
  - exists m. split_and!; [done..|]. intros b j. case_decide; [|done]. subst j. by rewrite Ho.
Qed.
(** What [set_ap] makes of the link before its points are updated. *)
Definition associated (ap : option Z) (l : WifiLink) : WifiLink :=
  with_shown (bool_decide (is_Some ap)) (with_ap ap l).
Lemma join_run ap k m :
  ∃ m', (change_link k (with_ap ap) ≫= λ _,
      (match ap with
       | None => change_link k (with_shown false)
       | Some b => add_link b k ≫= λ _, change_link k (with_shown true)
       end)) m = (m', Ok ()) ∧
    w_scene m' = w_scene m ∧ access_points m' = access_points m ∧ stations m' = stations m ∧
    (∀ j, wlinks m' !! j = at_link k (associated ap) j <$> wlinks m !! j) ∧
    ∀ b, attached_to m' b = if decide (ap = Some b) then attached_to m b ++ [k] else attached_to m b.
Proof.
  pose proof (change_link_changes k (with_ap ap) m) as C1. set (m1 := set_wlinks _ m) in C1.
  assert (∀ m2 sh, bool_decide (is_Some ap) = sh →
    changes (at_link k (with_shown sh)) m2 (set_wlinks (alter (with_shown sh) k (wlinks m2)) m2) ∧
    (wlinks m2 = wlinks m1 → ∀ j, wlinks (set_wlinks (alter (with_shown sh) k (wlinks m2)) m2) !! j =
      at_link k (associated ap) j <$> wlinks m !! j)) as H.
  { intros m2 sh Hsh. pose proof (change_link_changes k (with_shown sh) m2) as C2. split; [done|]. intros E j.
    rewrite (ch_links _ _ _ C2), E, (ch_links _ _ _ C1). destruct (wlinks m !! j); [|done]. simpl. f_equal.
    unfold at_link, associated. rewrite Hsh. by case_decide. }
  destruct ap as [b0|].
  - set (m2 := set_attached (dict_set (attached m1) b0 (attached_to m1 b0 ++ [k])) m1).
    destruct (H m2 true eq_refl) as [_ Hl]. eexists. split; [reflexivity|]. split_and!; [done..|by apply Hl|].
    intros b. change (attached_to m2 b = if decide (Some b0 = Some b) then attached_to m b ++ [k] else attached_to m b).
    unfold m2. rewrite attached_set. destruct (decide (b0 = b)) as [<-|].
    + by rewrite decide_True.
    + rewrite decide_False by congruence. done.
  - destruct (H m1 false eq_refl) as [_ Hl]. eexists. split; [reflexivity|]. split_and!; [done..|by apply Hl|].
    intros b. by rewrite decide_False.
Qed.
Lemma set_ap_run ap k m :
  wifi_inv m → k ∈ live m → (∀ b, ap = Some b → is_there (w_scene m) b) →
  ∃ m', set_ap ap k m = (m', Ok ()) ∧ wifi_inv m' ∧ w_scene m' = w_scene m ∧
    access_points m' = access_points m ∧ stations m' = stations m ∧
    ∀ j, w_node2 <$> wlinks m' !! j = if decide (j = k) then Some ap else w_node2 <$> wlinks m !! j.
Proof.
  intros [Hm Hd] Hlive Hap. destruct (proj1 (list_elem_of_fmap _ _ _) Hlive) as ([[dev a] k'] & Ek & Hs).
  simpl in Ek. subst k'. destruct (wc_station m Hm _ _ _ Hs) as (l & Hk & Ha & Hdev & Hta).
  unfold set_ap, of_link. rewrite Hk. case_decide as Heq.
  { exists m. split_and!; [done..|]. intros j. case_decide; [|done]. subst j. rewrite Hk, Heq. done. }
  destruct (leave_run k l m Hm Hlive Hk) as (m1 & Hrun1 & S1 & L1 & A1 & T1 & I1 & O1).
  rewrite (bind_run _ _ _ _ _ Hrun1).
  destruct (join_run ap k m1) as (m2 & Hrun2 & S2 & A2 & T2 & L2 & AT2).
  assert (∀ K : unit → wio unit, (change_link k (with_ap ap) ≫= λ _,
      (match ap with
       | None => change_link k (with_shown false)
       | Some b => add_link b k ≫= λ _, change_link k (with_shown true)
       end) ≫= K) m1 = K () m2) as ->.
  { intros K. unfold mbind, eff_bind in *. destruct (change_link k (with_ap ap) m1) as [m1' [[]|e]]; [|done].
    by rewrite Hrun2. }
  assert (live m2 = live m) as EL by (unfold live; congruence).
  assert (∀ j l', wlinks m2 !! j = Some l' → ∃ l0, wlinks m !! j = Some l0 ∧
    l' = if decide (j = k) then associated ap l0 else l0) as HL.
  { intros j l'. rewrite L2, L1. destruct (wlinks m !! j) as [l0|]; [|done]. intros [= <-]. by exists l0. }
  assert (wifi_core m2) as Hm2.
  { split; rewrite ?EL; [by apply Hm|..].
    - intros dev' a' j. rewrite T2, T1, S2, S1. intros Hs'. destruct (wc_station m Hm _ _ _ Hs') as (l0 & Hj & ? & ? & ?).
      exists (at_link k (associated ap) j l0). rewrite L2, L1, Hj. split; [done|]. unfold at_link. by case_decide.
    - intros j l' Hj Hlj. destruct (HL _ _ Hj) as (l0 & Hj0 & ->). rewrite decide_False by congruence.
      by eapply (wc_dead m Hm).
    - intros j l' b Hj Hb. rewrite S2, S1. destruct (HL _ _ Hj) as (l0 & Hj0 & ->). case_decide; [by apply Hap|].
      by eapply (wc_ap m Hm).
    - intros j l' b Hj Hlj. destruct (HL _ _ Hj) as (l0 & Hj0 & ->). rewrite AT2.
      pose proof (wc_attached m Hm j l0 b Hj0 Hlj) as Ho. destruct (decide (j = k)) as [->|Hne].
      + simpl w_node2. destruct (decide (ap = Some b)).
        * by rewrite occurs_snoc, O1, !decide_True.
        * by rewrite O1, decide_True.
      + rewrite <-Ho. destruct (decide (ap = Some b)); [rewrite occurs_snoc, decide_False by congruence|];
          by rewrite O1, decide_False.
    - intros b j. rewrite AT2. intros Hin. assert (is_Some (wlinks m !! j)) as [l0 Hj].
      { destruct (decide (ap = Some b)); [|by eapply lookup_lt_is_Some_2, (wc_range m Hm), I1].
        apply elem_of_app in Hin as [Hin|Hin]; [|apply list_elem_of_singleton in Hin as ->; by eexists].
        by eapply lookup_lt_is_Some_2, (wc_range m Hm), I1. }
      apply lookup_lt_is_Some. rewrite L2, L1, Hj. by eexists.
    - intros bssid b. rewrite A2, A1, S2, S1. apply (wc_known m Hm). }
  destruct (update_points_run k m2) as (m3 & Hrun3 & C3); [intros l'; by apply core_fine|].
  exists m3. split; [done|].
  assert (changes (refreshed (w_scene m2) [k]) m2 m3) as C3'.
  { eapply changes_ext; [done|]. intros j l' _. unfold at_link, refreshed.
    by rewrite (decide_ext _ _ _ _ (list_elem_of_singleton j k)). }
  split; [|destruct C3 as [-> _ -> -> C3]; split_and!; [congruence..|]].
  - split; [by eapply refresh_core|]. destruct C3 as [-> _ _ _ C3]. intros j l'. rewrite C3.
    destruct (wlinks m2 !! j) as [l2|] eqn:Ej; [|done]. intros [= <-].
    destruct (HL _ _ Ej) as (l0 & Hj & El2). unfold at_link. case_decide as Hjk.
    + apply fresh_drawn; [by eapply core_fine|]. subst l2. simpl. destruct ap; [done|by left].
    + subst l2. rewrite S2, S1. by eapply Hd.
  - intros j. rewrite C3, L2, L1. case_decide as Hj.
    + subst j. rewrite Hk. simpl. f_equal. unfold at_link. rewrite !decide_True by done.
      by destruct (fresh_ends (w_scene m2) (associated ap l)) as (_ & -> & _).
    + destruct (wlinks m !! j); [|done]. simpl. unfold at_link. by rewrite !decide_False.
Qed.

(** ** The scan *)

Lemma destroy_run l m :
  ∃ m', for_each (λ s : Z * Z * nat, change_link s.2 destroyed) l m = (m', Ok ()) ∧
    changes (λ k lk, if decide (k ∈ l.*2) then destroyed lk else lk) m m'.
Proof.
  revert m. induction l as [|s l IH]; intros m; [exists m; split; [done|by apply changes_refl]|].
  pose proof (change_link_changes s.2 destroyed m) as C1. set (m1 := set_wlinks _ m) in C1.
  destruct (IH m1) as (m' & Hrun & C2). exists m'. split; [exact Hrun|].
  eapply changes_ext; [by eapply changes_trans|]. intros k lk _. unfold at_link. csimpl.
  destruct (decide (k = s.2)) as [->|Hne].
  - rewrite (decide_True (P := s.2 ∈ s.2 :: _)) by left. by case_decide.
  - destruct (decide (k ∈ l.*2)); [by rewrite decide_True by (by right)|].
    rewrite decide_False; [done|]. by intros [?|?]%elem_of_cons.
Qed.
(** Every link was destroyed and the lists of the monitor are empty. *)
Lemma cleared_inv m m' :
  wifi_inv m → changes (λ k lk, if decide (k ∈ live m) then destroyed lk else lk) m m' →
  wifi_inv (set_stations [] (set_access_points [] m')).
Proof.
  intros [Hm Hd] [C1 C2 C3 C4 C5]. unfold set_stations, set_access_points. simpl.
  assert (∀ k l', wlinks m' !! k = Some l' → w_node1 l' = None ∧ w_node2 l' = None ∧ w_shown l' = false) as H.
  { intros k l'. rewrite C5. destruct (wlinks m !! k) as [l|] eqn:Ek; [|done]. intros [= <-].
    case_decide; [done|by eapply (wc_dead m Hm)]. }
  split; [split; simpl|].
  - apply NoDup_nil_2.
  - intros dev a k Hk. by apply elem_of_nil in Hk.
  - intros k l' Hk _. by apply (H k).
  - intros k l' b Hk Hb. destruct (H _ _ Hk) as (_ & ? & _). congruence.
  - intros k l' b _ Hk. by apply elem_of_nil in Hk.
  - intros b k. unfold attached_to. simpl. rewrite C2. intros Hb%(wc_range m Hm).
    apply lookup_lt_is_Some in Hb as [l Hl]. apply lookup_lt_is_Some. rewrite C5, Hl. by eexists.
  - done.
  - simpl. intros k l' Hk. destruct (H _ _ Hk) as (_ & E & ?). unfold drawn. rewrite E. by left.
Qed.
(** What the scan finds on a node. *)
Definition own_stations (i : Z) (d : net_device) : list (Z * Z) :=
  match d with StaDev dev => [(dev, i)] | _ => [] end.
Definition note_ap (i : Z) (aps : list (string * Z)) (d : net_device) : list (string * Z) :=
  match d with ApDev bssid => dict_set aps bssid i | _ => aps end.
(** The scan goes on: nothing that was there changes. *)
Definition unassociated (m : monitor) : Prop :=
  ∀ k l, k ∈ live m → wlinks m !! k = Some l → w_node2 l = None.
Definition new_link (i dev : Z) : WifiLink :=
  {| w_node1 := Some i; w_dev := dev; w_node2 := None; w_shown := true; w_points := None |}.
Definition added (i dev : Z) (m : monitor) : monitor :=
  Monitor (w_scene m) (wlinks m ++ [new_link i dev]) (attached m) (access_points m)
    (stations m ++ [(dev, i, length (wlinks m))]).
Lemma added_link i dev m j l :
  wlinks (added i dev m) !! j = Some l ↔
  wlinks m !! j = Some l ∨ j = length (wlinks m) ∧ l = new_link i dev.
Proof.
  simpl. rewrite lookup_app_Some, list_lookup_singleton_Some. split.
  - intros [?|[? [? <-]]]; [by left|right]. split; [lia|done].
  - intros [?|[-> ->]]; [by left|right]. split; [lia|]. split; [lia|done].
Qed.
Lemma added_live i dev m : live (added i dev m) = live m ++ [length (wlinks m)].
Proof. unfold live. simpl. by rewrite fmap_app. Qed.
Lemma live_made m j : wifi_core m → j ∈ live m → (j < length (wlinks m))%nat.
Proof.
  intros Hm ([[dev a] k] & -> & Hs)%list_elem_of_fmap.
  destruct (wc_station m Hm _ _ _ Hs) as (l & Hj%lookup_lt_Some & _). done.
Qed.
Lemma added_inv i dev m : wifi_inv m → is_there (w_scene m) i → wifi_inv (added i dev m).
Proof.
  intros [Hm Hd] Hi. pose proof (live_made m) as Hlive.
  split; [split; rewrite ?added_live|].
  - apply NoDup_app. split_and!; [by apply Hm| |by apply NoDup_singleton].
    intros j Hj ->%list_elem_of_singleton. specialize (Hlive _ Hm Hj). lia.
  - intros dev' a j [Hs|Hs]%elem_of_app.
    + destruct (wc_station m Hm _ _ _ Hs) as (l & Hj & ?). exists l. split; [|done].
      apply added_link. by left.
    + apply list_elem_of_singleton in Hs as [= -> -> ->]. exists (new_link i dev).
      split; [apply added_link; by right|done].
  - intros j l [Hj|[-> ->]]%added_link Hn; rewrite elem_of_app, list_elem_of_singleton in Hn; [|tauto].
    eapply (wc_dead m Hm); [done|tauto].
  - intros j l b [Hj|[-> ->]]%added_link Hb; [by eapply (wc_ap m Hm)|done].
  - intros j l b [Hj|[-> ->]]%added_link Hn.
    + apply (wc_attached m Hm); [done|]. apply elem_of_app in Hn as [Hn|Hn]; [done|].
      apply list_elem_of_singleton in Hn as ->. apply lookup_lt_Some in Hj. lia.
    + rewrite decide_False by done. apply not_occurs. intros Hin%(wc_range m Hm). lia.
  - intros b j Hin%(wc_range m Hm). simpl. rewrite length_app. lia.
  - apply Hm.
  - intros j l [Hj|[-> ->]]%added_link; [by eapply Hd|by right].
Qed.
Lemma scan_device_run i d m :
  wifi_inv m → unassociated m → is_there (w_scene m) i →
  ∃ m', scan_device i d m = (m', Ok ()) ∧ wifi_inv m' ∧ unassociated m' ∧ w_scene m' = w_scene m ∧
    (stations m').*1 = (stations m).*1 ++ own_stations i d ∧ access_points m' = note_ap i (access_points m) d.
Proof.
  intros Hm Hu Hi. destruct d as [dev|bssid| |]; cbn [own_stations note_ap]; rewrite ?app_nil_r; [| |by exists m..].
  - exists (added i dev m). split.
    { unfold scan_device, new_wifi_link, mbind, eff_bind. simpl. unfold set_ap, of_link. simpl.
      by rewrite lookup_app_r, Nat.sub_diag by lia. }
    split_and!; [by apply added_inv| |done|simpl; by rewrite fmap_app|done].
    intros j l Hj [Hl|[-> ->]]%added_link; [|done]. apply (Hu j l); [|done]. rewrite added_live in Hj.
    apply elem_of_app in Hj as [Hj|Hj]; [done|]. apply list_elem_of_singleton in Hj as ->.
    apply lookup_lt_Some in Hl. lia.
  - eexists. split; [reflexivity|]. split_and!; [|done..]. destruct Hm as [[H1 H2 H3 H4 H5 H6 H7] Hd].
    split; [split; try done|done]. intros b' a. simpl. rewrite dict_get_set. case_decide; [by intros [= <-]|apply H7].
Qed.
Lemma scan_node_run i l m :
  wifi_inv m → unassociated m → is_there (w_scene m) i →
  ∃ m', for_each (scan_device i) l m = (m', Ok ()) ∧ wifi_inv m' ∧ unassociated m' ∧ w_scene m' = w_scene m ∧
    (stations m').*1 = (stations m).*1 ++ (l ≫= own_stations i) ∧
    access_points m' = foldl (note_ap i) (access_points m) l.
Proof.
  revert m. induction l as [|d l IH]; intros m Hm Hu Hi.
  { exists m. rewrite app_nil_r. done. }
  destruct (scan_device_run i d m Hm Hu Hi) as (m1 & Hrun1 & Hm1 & Hu1 & S1 & E1 & A1).
  destruct (IH m1 Hm1 Hu1) as (m2 & Hrun2 & Hm2 & Hu2 & S2 & E2 & A2); [by rewrite S1|].
  exists m2. cbn [for_each]. rewrite (bind_run _ _ _ _ _ Hrun1). csimpl. rewrite E2, E1, A2, A1, app_assoc.
  split_and!; [done..|congruence|done|done].
Qed.
Lemma scan_all_run devices l m :
  wifi_inv m → unassociated m → Forall (is_there (w_scene m)) l →
  ∃ m', for_each (λ i, for_each (scan_device i) (devices i)) l m = (m', Ok ()) ∧
    wifi_inv m' ∧ unassociated m' ∧ w_scene m' = w_scene m ∧
    (stations m').*1 = (stations m).*1 ++ (l ≫= λ i, devices i ≫= own_stations i) ∧
    access_points m' = foldl (λ aps i, foldl (note_ap i) aps (devices i)) (access_points m) l.
Proof.
  revert m. induction l as [|i l IH]; intros m Hm Hu Hl.
  { exists m. rewrite app_nil_r. done. }
  apply Forall_cons in Hl as [Hi Hl].
  destruct (scan_node_run i (devices i) m Hm Hu Hi) as (m1 & Hrun1 & Hm1 & Hu1 & S1 & E1 & A1).
  destruct (IH m1 Hm1 Hu1) as (m2 & Hrun2 & Hm2 & Hu2 & S2 & E2 & A2); [by rewrite S1|].
  exists m2. cbn [for_each]. rewrite (bind_run _ _ _ _ _ Hrun1). csimpl. rewrite E2, E1, A2, A1, app_assoc.
  split_and!; [done..|congruence|done|done].
Qed.
Lemma scan_nodes_run devices m :
  wifi_inv m →
  ∃ m', scan_nodes devices m = (m', Ok ()) ∧ wifi_inv m' ∧ unassociated m' ∧ w_scene m' = w_scene m ∧
    (stations m').*1 = (nodes (w_scene m)).*1 ≫= (λ i, devices i ≫= own_stations i) ∧
    access_points m' = foldl (λ aps i, foldl (note_ap i) aps (devices i)) [] (nodes (w_scene m)).*1.
Proof.
  intros Hm. destruct (destroy_run (stations m) m) as (m1 & Hrun1 & C). pose proof (ch_scene _ _ _ C) as S1.
  pose proof (cleared_inv m m1 Hm C) as Hm2. set (m2 := set_stations [] (set_access_points [] m1)) in Hm2.
  unfold scan_nodes. rewrite bind_gets, (bind_run _ _ _ _ _ Hrun1), !bind_modify, bind_gets. fold m2.
  change (w_scene m2) with (w_scene m1). rewrite <-S1.
  destruct (scan_all_run devices (nodes (w_scene m1)).*1 m2 Hm2) as (m3 & Hrun3 & ? & ? & S3 & E3 & A3).
  - intros k l Hk. by apply elem_of_nil in Hk.
  - apply Forall_forall. intros i Hi%dict_get_some. unfold is_there. simpl. destruct Hi as [n ->]. by eexists.
  - exists m3. split_and!; done.
Qed.

(** ** Associations *)

(** The access point that a station has now: [None] in the first place when
    its BSSID is unknown. *)
Definition association (m : monitor) (state : Z → bool * string) (dev : Z) : option (option Z) :=
  let '(up, bssid) := state dev in
  if negb up || bool_decide (bssid = no_bssid) then Some None
  else Some <$> dict_get (access_points m) bssid.
Definition ap_of (m : monitor) (s : Z * Z * nat) : option (option Z) := w_node2 <$> wlinks m !! s.2.
Lemma associate_run state s m ap :
  wifi_inv m → s ∈ stations m → association m state s.1.1 = Some ap →
  ∃ m', associate state s m = (m', Ok ()) ∧ wifi_inv m' ∧ w_scene m' = w_scene m ∧
    access_points m' = access_points m ∧ stations m' = stations m ∧
    ∀ s', ap_of m' s' = if decide (s'.2 = s.2) then Some ap else ap_of m s'.
Proof.
  intros Hm Hs Hap. destruct s as [[dev a] k]. simpl in Hap. unfold association in Hap.
  assert (k ∈ live m) as Hk by (apply list_elem_of_fmap; by exists (dev, a, k)).
  assert ((∀ b, ap = Some b → is_there (w_scene m) b) ∧ associate state (dev, a, k) m = set_ap ap k m) as [Hthere ->].
  { unfold associate. destruct (state dev) as [up bssid]. destruct up; cbn [negb orb] in *; [|by injection Hap as <-].
    destruct (decide (bssid = no_bssid)) as [Hno|Hno];
      [rewrite bool_decide_true in Hap by done; by injection Hap as <-|].
    rewrite bool_decide_false in Hap by done. destruct (dict_get (access_points m) bssid) as [b|] eqn:Eb; [|done].
    injection Hap as <-. split; [|by rewrite bind_gets, Eb]. intros b' [= <-]. by eapply wc_known; [apply Hm|]. }
  destruct (set_ap_run ap k m Hm Hk Hthere) as (m' & ? & ? & ? & ? & ? & Hn). exists m'. split_and!; [done..|].
  intros s'. unfold ap_of. by rewrite Hn.
Qed.
Lemma associates_run state pre m :
  wifi_inv m → NoDup pre.*2 →
  (∀ s, s ∈ pre → s ∈ stations m ∧ is_Some (association m state s.1.1)) →
  ∃ m', for_each (associate state) pre m = (m', Ok ()) ∧ wifi_inv m' ∧ w_scene m' = w_scene m ∧
    access_points m' = access_points m ∧ stations m' = stations m ∧
    (∀ s, s ∈ pre → ap_of m' s = association m state s.1.1) ∧
    ∀ s, s.2 ∉ pre.*2 → ap_of m' s = ap_of m s.
Proof.
  revert m. induction pre as [|s pre IH]; intros m Hm Hnd Hpre.
  { exists m. split_and!; [done..| |done]. intros s Hs. by apply elem_of_nil in Hs. }
  apply NoDup_cons in Hnd as [Hs Hnd]. destruct (Hpre s) as [Hst [ap Hap]]; [by left|].
  destruct (associate_run state s m ap Hm Hst Hap) as (m1 & Hrun1 & Hm1 & S1 & A1 & T1 & N1).
  assert (∀ d, association m1 state d = association m state d) as Has by (intros d; unfold association; by rewrite A1).
  destruct (IH m1 Hm1 Hnd) as (m2 & Hrun2 & Hm2 & S2 & A2 & T2 & N2 & O2).
  { intros s' Hs'. rewrite T1, Has. apply Hpre. by right. }
  exists m2. cbn [for_each]. rewrite (bind_run _ _ _ _ _ Hrun1). split_and!; [done..|congruence|congruence|congruence| |].
  - intros s' [->|Hs']%elem_of_cons; [|by rewrite N2, Has]. rewrite O2, N1, decide_True by done. done.
  - intros s'. csimpl. intros [Hne Hs']%not_elem_of_cons. by rewrite O2, N1, decide_False.
Qed.

Lemma unknown_run state s m :
  association m state s.1.1 = None → associate state s m = (m, Err KeyError).
Proof.
  destruct s as [[dev a] k]. unfold associate, association. simpl.
  destruct (state dev) as [up bssid]. destruct up; [|done]. cbn [negb orb].
  destruct (decide (bssid = no_bssid)) as [Hb|Hb]; [by rewrite bool_decide_true|].
  rewrite bool_decide_false by done. rewrite bind_gets. by destruct (dict_get (access_points m) bssid).
Qed.
(** A periodic update, up to the first unknown BSSID. *)
Lemma periodic_run state m pre post :
  wifi_inv m → stations m = pre ++ post →
  Forall (λ s, is_Some (association m state s.1.1)) pre →
  (∀ s, head post = Some s → ¬ is_Some (association m state s.1.1)) →
  ∃ m', simulation_periodic_update state m = (m', match post with [] => Ok () | _ => Err KeyError end) ∧
    wifi_inv m' ∧ stations m' = stations m ∧
    (∀ s, s ∈ pre → ap_of m' s = association m state s.1.1) ∧
    ∀ s, s.2 ∉ pre.*2 → ap_of m' s = ap_of m s.
Proof.
  intros Hm Hst Hpre Hpost. pose proof (wc_nodup m (wi_core m Hm)) as Hnd. unfold live in Hnd.
  rewrite Hst, fmap_app in Hnd. apply NoDup_app in Hnd as (Hnd & _ & _).
  destruct (associates_run state pre m Hm Hnd) as (m' & Hrun & Hm' & S' & A' & T' & N' & O').
  { intros s Hs. rewrite Hst. split; [apply elem_of_app; by left|]. by eapply (proj1 (Forall_forall _ _)) in Hpre. }
  exists m'. split_and!; [|done..].
  unfold simulation_periodic_update. rewrite bind_gets, Hst, for_each_app, (bind_run _ _ _ _ _ Hrun).
  destruct post as [|s post]; [done|]. cbn [for_each]. apply bind_run_err, unknown_run.
  specialize (Hpost s eq_refl). unfold association in *. rewrite A'. by apply eq_None_not_Some.
Qed.
Lemma wifi_handle_inv e m :
  wifi_inv m → ∃ m' r, handle e m = (m', r) ∧ wifi_inv m' ∧
    (r = Ok () ∨ r = Err KeyError ∧ ∃ state, e = EvPeriodic state).
Proof.
  intros Hm. destruct e as [devices|state| |i x y|i]; simpl.
  - destruct (scan_nodes_run devices m Hm) as (m' & Hrun & ? & _). exists m', (Ok ()). auto.
  - destruct (list_split_first (λ s, is_Some (association m state s.1.1)) (stations m)) as (pre & post & Hst & Hpre & Hpost).
    destruct (periodic_run state m pre post Hm Hst Hpre Hpost) as (m' & Hrun & ? & _).
    do 2 eexists. split_and!; [done..|]. destruct post; [by left|right]. eauto.
  - destruct (update_view_run m Hm) as (m' & Hrun & ? & _). exists m', (Ok ()). auto.
  - destruct (move_node_run i x y m Hm) as (m' & Hrun & ? & _). exists m', (Ok ()). auto.
  - do 2 eexists. split; [reflexivity|]. split; [by apply new_node_inv|by left].
Qed.
Lemma new_monitor_inv s : wifi_inv (new_monitor s).
Proof.
  split; [split|]; try done.
  - apply NoDup_nil_2.
  - intros ??? H. by apply elem_of_nil in H.
  - intros ? ? H. by apply elem_of_nil in H.
Qed.
Lemma run_events_inv es m : wifi_inv m → wifi_inv (run_events es m).
Proof.
  revert m. induction es as [|e es IH]; intros m Hm; [done|]. simpl. apply IH.
  destruct (wifi_handle_inv e m Hm) as (m' & r & -> & ? & _). done.
Qed.

(** ** What the links should be, from the simulator's answers *)
(** A station that is down or has no BSSID needs no access point; of any other
    one the BSSID must be that of an access point that the last scan found. *)
Definition known (m : monitor) (st : bool * string) : Prop :=
  st.1 = false ∨ st.2 = no_bssid ∨ st.2 ∈ (access_points m).*1.
Definition present_ap (m : monitor) (st : bool * string) : option Z :=
  if st.1 && bool_decide (st.2 ≠ no_bssid) then dict_get (access_points m) st.2 else None.
(** The access points of a scan, in its order: the last one with a BSSID counts. *)
Definition found_aps (devices : Z → list net_device) (ids : list Z) : list (string * Z) :=
  i ← ids; d ← devices i; match d with ApDev bssid => [(bssid, i)] | _ => [] end.
Definition found_stations (devices : Z → list net_device) (ids : list Z) : list (Z * Z) :=
  i ← ids; d ← devices i; match d with StaDev dev => [(dev, i)] | _ => [] end.

Lemma known_association m state dev :
  known m (state dev) ↔ is_Some (association m state dev).
Proof.
  unfold known, association. destruct (state dev) as [up bssid]. simpl.
  rewrite <-dict_get_some. destruct up; simpl; [|naive_solver].
  case_bool_decide; [naive_solver|]. rewrite fmap_is_Some. naive_solver.
Qed.
Lemma present_association m state dev :
  known m (state dev) → association m state dev = Some (present_ap m (state dev)).
Proof.
  unfold known, association, present_ap. destruct (state dev) as [up bssid]. simpl.
  rewrite <-dict_get_some. destruct up; simpl; [|done].
  destruct (decide (bssid = no_bssid)); [rewrite bool_decide_true, bool_decide_false by naive_solver; done|].
  rewrite bool_decide_false, bool_decide_true by done. intros [|[|[b ->]]]; done.
Qed.
Lemma note_aps_get i l aps bssid :
  dict_get (foldl (note_ap i) aps l) bssid =
  match last (filter (λ p, p.1 = bssid) (found_aps (λ _, l) [i])) with
  | Some p => Some p.2
  | None => dict_get aps bssid
  end.
Proof.
  unfold found_aps. csimpl. rewrite app_nil_r. induction l as [|d l IH] using rev_ind; [done|].
  rewrite foldl_app, bind_app, filter_app, last_app. cbn [foldl]. csimpl. rewrite app_nil_r.
  destruct d as [dev|b| |]; cbn [note_ap]; try exact IH.
  rewrite dict_get_set, filter_cons, filter_nil. cbn [fst].
  destruct (decide (b = bssid)) as [->|]; [done|exact IH].
Qed.
Lemma scan_aps_get devices ids aps bssid :
  dict_get (foldl (λ aps i, foldl (note_ap i) aps (devices i)) aps ids) bssid =
  match last (filter (λ p, p.1 = bssid) (found_aps devices ids)) with
  | Some p => Some p.2
  | None => dict_get aps bssid
  end.
Proof.
  induction ids as [|i ids IH] using rev_ind; [done|].
  rewrite foldl_app. cbn [foldl]. rewrite note_aps_get, IH. unfold found_aps.
  rewrite bind_app, filter_app, last_app. csimpl. rewrite !app_nil_r.
  by destruct (last (filter _ (devices i ≫= _))).
Qed.

(** C22: The links of a wireless network, after any scans, periodic updates
    (with exceptions), updates of the view and moves of nodes.  Every station
    has a link of its own, which is in the list of its access point once and in
    the list of no other node; without an access point nothing is drawn, with
    one the line ends where the access point is.  A scan raises nothing and
    finds the stations in order and the access points by their BSSID.  A
    periodic update gives every station the access point with its BSSID, or
    none when it is down or has no BSSID, up to the first station whose BSSID
    is of no access point that was found: there it ends with a KeyError, and
    the stations from there on keep what they had; without such a station it
    raises nothing.  Updates of the view and moves raise nothing; after an
    update of the view the lines run between the present positions of both
    nodes. *)
Theorem wifi_links s es :
  let m := run_events es (new_monitor s) in
  NoDup (live m) ∧
  (∀ dev a k, (dev, a, k) ∈ stations m → ∃ l, wlinks m !! k = Some l ∧ w_node1 l = Some a ∧ w_dev l = dev ∧
     (∀ b, occurs k (attached_to m b) = if decide (w_node2 l = Some b) then 1%nat else O) ∧
     drawn (w_scene m) l) ∧
  (∀ devices, let ids := (nodes (w_scene m)).*1 in
     ∃ m', handle (EvScan devices) m = (m', Ok ()) ∧ (stations m').*1 = found_stations devices ids ∧
       ∀ bssid, dict_get (access_points m') bssid =
         snd <$> last (filter (λ p, p.1 = bssid) (found_aps devices ids))) ∧
  (∀ state pre post, stations m = pre ++ post →
     (∀ s, s ∈ pre → known m (state s.1.1)) → (∀ s, head post = Some s → ¬ known m (state s.1.1)) →
     ∃ m', handle (EvPeriodic state) m = (m', match post with [] => Ok () | _ => Err KeyError end) ∧
       stations m' = stations m ∧
       (∀ s, s ∈ pre → ap_of m' s = Some (present_ap m (state s.1.1))) ∧
       (∀ s, s ∈ post → ap_of m' s = ap_of m s)) ∧
  (∀ i x y, (handle (EvMove i x y) m).2 = Ok ()) ∧
  (∃ m', handle EvView m = (m', Ok ()) ∧
     ∀ k, k ∈ live m → wlinks m' !! k = fresh (w_scene m) <$> wlinks m !! k).
Proof.
  cbn zeta. pose proof (run_events_inv es _ (new_monitor_inv s)) as Hm. set (m := run_events es (new_monitor s)) in *.
  pose proof Hm as [Hc Hd]. split; [apply Hc|]. split; [|split; [|split; [|split]]].
  - intros dev a k Hs. destruct (wc_station m Hc _ _ _ Hs) as (l & Hk & ? & ? & _). exists l.
    split_and!; [done..| |by eapply Hd]. intros b. apply (wc_attached m Hc); [done|].
    apply list_elem_of_fmap. by exists (dev, a, k).
  - intros devices. destruct (scan_nodes_run devices m Hm) as (m' & Hrun & _ & _ & _ & Hst & Haps).
    exists m'. split_and!; [done|done|]. intros bssid. rewrite Haps, scan_aps_get. by destruct (last _).
  - intros state pre post Hst Hpre Hpost. pose proof (wc_nodup m Hc) as Hnd. unfold live in Hnd.
    rewrite Hst, fmap_app in Hnd. apply NoDup_app in Hnd as (_ & Hdisj & _).
    destruct (periodic_run state m pre post Hm Hst) as (m' & Hrun & _ & T' & N' & O').
    { apply Forall_forall. intros s' Hs. by apply known_association, Hpre. }
    { intros s' Hs. rewrite <-known_association. by apply Hpost. }
    exists m'. split_and!; [done|done| |].
    + intros s' Hs. rewrite N' by done. by apply present_association, Hpre.
    + intros s' Hs. apply O'. intros Hin. apply (Hdisj s'.2); [done|]. apply list_elem_of_fmap. by exists s'.
  - intros i x y. destruct (move_node_run i x y m Hm) as (m' & Hrun & _). simpl. by rewrite Hrun.
  - destruct (update_view_run m Hm) as (m' & Hrun & _ & C). exists m'. split; [done|]. intros k Hk.
    rewrite (ch_links _ _ _ C). destruct (wlinks m !! k); [|done].
    simpl. unfold refreshed. by rewrite decide_True.
Qed.

(** Two stations and two access points; one of the access points goes away
    from the scan. *)
Definition demo_scene : scene :=
  set_position 2 (float_int 30) (float_int 40) (get_node 3 (get_node 2 (get_node 1 (get_node 0 (empty_scene true))))).
Definition demo_devices (i : Z) : list net_device :=
  if decide (i = 0) then [NotWifi; StaDev 10] else if decide (i = 1) then [StaDev 11; OtherMac]
  else if decide (i = 2) then [ApDev "00:00:00:00:00:02"] else [ApDev "00:00:00:00:00:03"].
Definition demo_state (dev : Z) : bool * string :=
  if decide (dev = 10) then (true, "00:00:00:00:00:02") else (true, "00:00:00:00:00:09").
Definition demo_monitor : monitor := run_events [EvScan demo_devices] (new_monitor demo_scene).
Lemma wifi_links_witness :
  ∃ m', handle (EvPeriodic demo_state) demo_monitor = (m', Err KeyError) ∧
    ap_of m' (10, 0, 0%nat) = Some (Some 2) ∧ ap_of m' (11, 1, 1%nat) = Some None.
Proof.
  destruct (wifi_links demo_scene [EvScan demo_devices]) as (_ & _ & _ & Hper & _).
  destruct (Hper demo_state [(10, 0, 0%nat)] [(11, 1, 1%nat)]) as (m' & Hrun & _ & Hpre & Hpost).
  - by vm_compute.
  - intros s ->%list_elem_of_singleton. right; right. apply dict_get_some. exists 2. by vm_compute.
  - intros s [= <-] [H|[H|H]]; [discriminate H..|]. apply dict_get_some in H as [b H].
    vm_compute in H. discriminate H.
  - exists m'. split; [exact Hrun|]. split.
    + rewrite Hpre by (by left). by vm_compute.
    + rewrite Hpost by (by left). by vm_compute.
Defined.
(** The link of a station without an access point is not hidden, but it has
    no points; after a move of the station its line is old until the view is
    updated. *)
Definition demo_moved : monitor :=
  run_events [EvPeriodic demo_state; EvMove 0 one one] demo_monitor.
Example line_behind_station :
  (w_points <$> wlinks demo_moved !! 0%nat) = Some (Some (fzero, fzero, float_int 30, float_int 40)) ∧
  (w_points <$> wlinks (update_view demo_moved).1 !! 0%nat) = Some (Some (one, one, float_int 30, float_int 40)) ∧
  (w_shown <$> wlinks demo_moved !! 1%nat) = Some true ∧ (w_points <$> wlinks demo_moved !! 1%nat) = Some None.
Proof. by vm_compute. Qed.
