(* ===== verification/VizHud.v ===== *)
(** * visualizer/hud.py: the axes
    The division of an axis, the ticks that are drawn, and the labels of the
    ticks, which are kept from one update to the next.  The canvas is that of
    the class [VizLib]; [math.log10] of a positive number and the negative
    powers of ten are behind a class of their own.  The lines are kept as the
    numbers that the code formats into a path, and a label as the number that
    it formats into its text. *)
From Stdlib Require Import SpecFloat.
From S2P Require Import Prelude PyStr PyNum PyFloat VizNodes VizFlows.
#[local] Open Scope Z_scope.

Class HudLib : Type := { log10_pos : float → float; pow10_neg : Z → float }.

(** ** Divisions *)

Definition py_floor (x : float) : res Z :=
  z ← py_int (PFloat x); Ok (if nlt (PFloat x) (PInt z) then z - 1 else z).
Definition py_ceil (x : float) : res Z :=
  z ← py_int (PFloat x); Ok (if nlt (PInt z) (PFloat x) then z + 1 else z).
Definition rint (x : float) : res Z := py_floor (fadd x (lit 5 (-1))).
(** [a/b] of Python 3 *)
Definition truediv (a b : num) : res float := x ← as_float a; y ← as_float b; fdiv x y.
(** [math.fabs(a - b)] *)
Definition distance (a b : num) : res float := d ← num_sub a b; x ← as_float d; Ok (SFabs x).

(** The loop does not end with the fuel that it has. *)
Definition NoFuel : exn := PyException "no fuel".

Section axes.
Context `{VizLib, HudLib}.

Definition math_log10 (x : float) : res float :=
  if fle x fzero then Err (ValueError "math domain error") else Ok (log10_pos x).
(** [pow(10, n)]: an int, or a float for a negative exponent *)
Definition pow10 (n : Z) : num := if decide (0 ≤ n) then PInt (10 ^ n) else PFloat (pow10_neg n).
(** One turn of the loop, up to the first tick. *)
Definition division (xi dx_over_ndiv : float) : res (num * num) :=
  tbe ← math_log10 dx_over_ndiv;
  n ← rint tbe;
  let div := pow10 n in
  half ← truediv div (PInt 2);
  a ← distance (PFloat half) (PFloat dx_over_ndiv);
  b ← distance div (PFloat dx_over_ndiv);
  div ← (if flt a b then Ok (PFloat half)
         else
           twice ← num_mul div (PInt 2);
           a ← distance twice (PFloat dx_over_ndiv);
           b ← distance div (PFloat dx_over_ndiv);
           Ok (if flt a b then twice else div));
  q ← truediv (PFloat xi) div;
  c ← py_ceil q;
  p ← num_mul div (PInt c);
  x0 ← num_sub p div;
  Ok (x0, div).
(** The turns [n], [n + 1], ... of the loop; the last division is answered. *)
Fixpoint divisions (xi size text_width dx_over_ndiv : float) (n : Z) (turns : nat) : res (num * num) :=
  match turns with
  | O => Err UnboundLocalError
  | S turns =>
      x0_div ← division xi dx_over_ndiv;
      _ ← (if decide (1 < n) then fdiv size text_width ≫= rint else Ok 0);
      match turns with
      | O => Ok x0_div
      | _ => divisions xi size text_width dx_over_ndiv (n + 1) turns
      end
  end.
Definition _compute_divisions (xi xf : float) : res (num * num) :=
  if negb (flt xi xf) then Err AssertionError
  else
    let dx := fsub xf xi in
    t ← truediv (PFloat dx) (PInt 5);
    text_width ← truediv (PFloat t) (PInt 2);
    dx_over_ndiv ← truediv (PFloat dx) (PInt 5);
    divisions xi dx text_width dx_over_ndiv 0 5.

(** ** Labels and lines *)

Record label := Label {
  lb_visible : bool; lb_text : option num; lb_font : Z; lb_x : float; lb_y : float;
}.
Definition new_label : label := Label true None 0 fzero fzero.
Definition show (b : bool) (l : label) : label := Label b (lb_text l) (lb_font l) (lb_x l) (lb_y l).
Record axis := { a_shown : bool; a_width : float; a_path : list (float * float * float * float) }.
Record hud := Hud {
  objects : list label;     (* the labels that were made *)
  labels : list nat;        (* [self.labels] *)
  visible : bool;
  hlines : axis; vlines : axis;
}.
Abbreviation hio := (eff hud exn).
Definition set_objects (l : list label) (h : hud) : hud := Hud l (labels h) (visible h) (hlines h) (vlines h).
Definition set_labels (l : list nat) (h : hud) : hud := Hud (objects h) l (visible h) (hlines h) (vlines h).
Definition set_axes (x y : axis) (h : hud) : hud := Hud (objects h) (labels h) (visible h) x y.
Definition change_label (k : nat) (f : label → label) : hio unit :=
  modify (λ h, set_objects (alter f k (objects h)) h).
Definition change_hlines (f : axis → axis) : hio unit := modify (λ h, set_axes (f (hlines h)) (vlines h) h).
Definition change_vlines (f : axis → axis) : hio unit := modify (λ h, set_axes (hlines h) (f (vlines h)) h).
Definition with_width (w : float) (a : axis) : axis := {| a_shown := a_shown a; a_width := w; a_path := a_path a |}.
Definition with_path (p : list (float * float * float * float)) (a : axis) : axis :=
  {| a_shown := a_shown a; a_width := a_width a; a_path := p |}.
Definition with_visibility (b : bool) (a : axis) : axis :=
  {| a_shown := b; a_width := a_width a; a_path := a_path a |}.

(** [get_label()], with the local list of the labels that are not used. *)
Definition get_label (unused : list nat) : hio (nat * list nat) :=
  '(k, unused) ← (match unused with
    | [] => k ← gets (λ h, length (objects h)); _ ← modify (λ h, set_objects (objects h ++ [new_label]) h);
            mret (k, [])
    | k :: unused => _ ← change_label k (show true); mret (k, unused)
    end);
  _ ← modify (λ h, set_labels (labels h ++ [k]) h);
  mret (k, unused).
(** One tick: [line] and [place] are the line and the place of its label. *)
Definition draw_tick (zoom : float) (line : float → float * float * float * float)
    (place : float → float * float) (x : num) (unused : list nat)
    : hio ((float * float * float * float) * list nat) :=
  f ← lift_res (as_float x);
  let p := fmul PIXELS_PER_METER f in
  '(k, unused) ← get_label unused;
  q ← lift_res (truediv (PInt 12) (PFloat zoom));
  font ← lift_res (py_int (PFloat q));
  let '(lx, ly) := place p in
  _ ← change_label k (λ l : label, Label (lb_visible l) (Some x) font lx ly);
  mret (line p, unused).
(** [while x < sim_x2: ...; x += xdiv] *)
Fixpoint draw_ticks (fuel : nat) (zoom : float) (line : float → float * float * float * float)
    (place : float → float * float) (x : num) (sim_x2 : float) (xdiv : num)
    (path : list (float * float * float * float)) (unused : list nat)
    : hio (list (float * float * float * float) * list nat) :=
  if negb (nlt x (PFloat sim_x2)) then mret (path, unused)
  else
    match fuel with
    | O => throw NoFuel
    | S fuel =>
        '(l, unused) ← draw_tick zoom line place x unused;
        x ← lift_res (num_add x xdiv);
        draw_ticks fuel zoom line place x sim_x2 xdiv (path ++ [l]) unused
    end.

(** [update_view]: [zoom] is the value of [viz.zoom], if there is one yet. *)
Definition update_view (fuel : nat) (zoom : option float) (c : controls) (b : float * float * float * float)
    : hio unit :=
  match zoom with
  | None => mret ()
  | Some zoom =>
      unused ← gets labels;
      _ ← modify (set_labels []);
      _ ← for_each (λ k, change_label k (show false)) unused;
      offset ← lift_res (truediv (PInt 10) (PFloat zoom));
      let '(x1, y1) := convert_from_pixels b (canvas_scale c) (value (hadj c)) (value (vadj c)) in
      let '(x2, y2) := convert_from_pixels b (canvas_scale c)
        (fadd (value (hadj c)) (page_size (hadj c))) (fadd (value (vadj c)) (page_size (vadj c))) in
      line_width ← lift_res (fdiv (float_int 5) zoom);
      _ ← change_hlines (with_width line_width);
      let yc := fsub y2 (fhalf line_width) in
      '(x0, xdiv) ← lift_res (_compute_divisions (fdiv_ppm x1) (fdiv_ppm x2));
      '(path, unused) ← draw_ticks fuel zoom (λ p, (p, fsub yc offset, p, yc)) (λ p, (p, fsub yc offset))
        x0 (fdiv_ppm x2) xdiv [(x1, yc, x2, yc)] unused;
      _ ← change_hlines (with_path path);
      _ ← change_vlines (with_width line_width);
      let xc := fadd x1 (fhalf line_width) in
      '(y0, ydiv) ← lift_res (_compute_divisions (fdiv_ppm y1) (fdiv_ppm y2));
      '(path, unused) ← draw_ticks fuel zoom (λ p, (xc, p, fadd xc offset, p)) (λ p, (fadd xc offset, p))
        y0 (fdiv_ppm y2) ydiv [(xc, y1, xc, y2)] unused;
      _ ← change_vlines (with_path path);
      modify (λ h, set_labels (labels h ++ unused) h)
  end.
(** The handler of the scroll bars. *)
Definition update (fuel : nat) (zoom : option float) (c : controls) (b : float * float * float * float) : hio unit :=
  v ← gets visible; if (v : bool) then update_view fuel zoom c b else mret ().
Definition set_visible (b : bool) : hio unit :=
  _ ← modify (λ h, Hud (objects h) (labels h) b (hlines h) (vlines h));
  _ ← change_hlines (with_visibility b);
  _ ← change_vlines (with_visibility b);
  if b then mret ()
  else l ← gets labels; for_each (λ k, change_label k (show false)) l.
End axes.

(** ** The divisions *)

Section proofs.
Context `{VizLib, HudLib}.

(** The division of an axis in one turn. *)
Definition divide_once (xi xf : float) : res (num * num) :=
  if negb (flt xi xf) then Err AssertionError
  else
    let dx := fsub xf xi in
    d ← truediv (PFloat dx) (PInt 5);
    text_width ← truediv (PFloat d) (PInt 2);
    x0_div ← division xi d;
    _ ← fdiv dx text_width ≫= rint;
    Ok x0_div.
Lemma divisions_rest xi size w d n turns r :
  1 < n → division xi d = Ok r →
  divisions xi size w d n (S turns) = (fdiv size w ≫= rint) ≫= λ _, Ok r.
Proof.
  intros Hn Hr. assert (∀ B (f : num * num → res B), division xi d ≫= f = f r) as Hb by (intros; by rewrite Hr).
  revert n Hn. induction turns as [|turns IH]; intros n Hn; cbn [divisions];
    rewrite Hb, (decide_True (P := 1 < n)) by exact Hn; [done|].
  specialize (IH (n + 1) ltac:(lia)). cbn [divisions] in IH.
  destruct (fdiv size w ≫= rint) as [z|e]; [exact IH|done].
Qed.
(** The loop that is to find the best division takes five turns over the
    same numbers: the length [dx_over_ndiv] that it starts from is not computed
    again, so all five turns give the division of the first one. *)
Lemma compute_divisions_once xi xf : _compute_divisions xi xf = divide_once xi xf.
Proof.
  unfold _compute_divisions, divide_once. destruct (negb _); [done|].
  destruct (truediv (PFloat (fsub xf xi)) (PInt 5)) as [d|e]; [|done]. cbn [mbind result_bind].
  destruct (truediv (PFloat d) (PInt 2)) as [w|e]; [|done]. cbn [mbind result_bind].
  set (size := fsub xf xi).
  assert (∀ n turns, divisions xi size w d n (S (S turns)) = division xi d ≫= λ _,
    (if decide (1 < n) then fdiv size w ≫= rint else Ok 0) ≫= λ _, divisions xi size w d (n + 1) (S turns)) as Hstep
    by done.
  rewrite Hstep. destruct (division xi d) as [r|e] eqn:Hr; [|done].
  rewrite (decide_False (P := 1 < 0)) by lia. cbn [mbind result_bind]. rewrite Hstep.
  rewrite (decide_False (P := 1 < 0 + 1)) by lia. cbn [mbind result_bind].
  apply divisions_rest; [lia|done].
Qed.


(** ** Ticks *)

(** The ticks from [x] on, without what is drawn. *)
Fixpoint ticks (fuel : nat) (x : num) (sim_x2 : float) (xdiv : num) : res (list num) :=
  if negb (nlt x (PFloat sim_x2)) then Ok []
  else
    match fuel with
    | O => Err NoFuel
    | S fuel => _ ← as_float x; x' ← num_add x xdiv; l ← ticks fuel x' sim_x2 xdiv; Ok (x :: l)
    end.

Lemma nlt_int_finite z s m e :
  nlt (PInt z) (PFloat (S754_finite s m e)) =
  (z * 2 ^ (- Z.min 0 e) <? cond_opp s (Z.pos m) * 2 ^ (e - Z.min 0 e)).
Proof. unfold nlt, num_cmp. simpl num_val. cbv iota zeta. rewrite Z.sub_0_l. unfold Z.ltb. by destruct (_ ?= _). Qed.
Lemma mul_lt_div z m d : 0 < d → (z * d < m ↔ z < m / d ∨ z = m / d ∧ (m / d) * d < m).
Proof.
  intros Hd. pose proof (Z.div_mod m d ltac:(lia)). pose proof (Z.mod_pos_bound m d Hd). nia.
Qed.
(** An integer is below a float when it is below its ceiling. *)
Lemma py_ceil_spec x c z : py_ceil x = Ok c → nlt (PInt z) (PFloat x) = (z <? c).
Proof.
  unfold py_ceil. destruct x as [s|s| |s m e]; [| |done..|]; try done.
  - intros [= <-]. unfold nlt, num_cmp. simpl num_val. cbv iota zeta.
    rewrite Z.min_id, Z.sub_diag, !Z.mul_1_r. done.
  - simpl py_int. cbn [mbind result_bind]. rewrite !nlt_int_finite. intros [= <-].
    destruct (Z.leb_spec 0 e).
    + rewrite Z.min_l, Z.sub_0_r, !Z.mul_1_r by lia. destruct s; simpl cond_opp;
        by rewrite ?Z.mul_opp_l, Z.ltb_irrefl.
    + rewrite Z.min_r, Z.sub_diag, !Z.mul_1_r by lia. set (d := 2 ^ (- e)).
      assert (0 < d) by (apply Z.pow_pos_nonneg; lia).
      pose proof (mul_lt_div z (Z.pos m) d ltac:(done)). pose proof (mul_lt_div (- z - 1) (Z.pos m) d ltac:(done)).
      pose proof (Z.div_mod (Z.pos m) d ltac:(lia)). pose proof (Z.mod_pos_bound (Z.pos m) d ltac:(lia)).
      destruct s; simpl cond_opp.
      * destruct (Z.ltb_spec (- (Z.pos m / d) * d) (- Z.pos m)); [nia|].
        apply eq_true_iff_eq. rewrite !Z.ltb_lt. nia.
      * destruct (Z.ltb_spec (Z.pos m / d * d) (Z.pos m)); apply eq_true_iff_eq; rewrite !Z.ltb_lt; nia.
Qed.

Lemma range_step x c d : 0 < d → py_range x c d =
  if decide (x < c) then l ← py_range (x + d) c d; Ok (x :: l) else Ok [].
Proof.
  intros Hd. unfold py_range. rewrite (proj2 (Z.eqb_neq d 0)), (proj2 (Z.ltb_lt 0 d)) by lia.
  cbn [mbind result_bind]. assert ((c - x + d - 1) / d = (c - (x + d) + d - 1) / d + 1) as ->.
  { rewrite <-Z.div_add by lia. f_equal. lia. }
  set (n := (c - (x + d) + d - 1) / d). case_decide as Hx.
  - assert (0 ≤ n) by (apply Z.div_pos; lia). rewrite !Z.max_r by lia.
    rewrite seqZ_cons by lia. f_equal. csimpl. f_equal; [lia|]. replace (Z.pred (n + 1)) with n by lia.
    change (Z.succ 0) with (1 + 0). rewrite <-(fmap_add_seqZ 1 0 n), <-list_fmap_compose. apply list_fmap_ext. intros i z _. simpl. lia.
  - assert (n < 0). { apply Z.div_lt_upper_bound; lia. }
    by rewrite Z.max_l by lia.
Qed.
Lemma int_ticks fuel x x2 c d :
  0 < d → py_ceil x2 = Ok c → (Z.to_nat (c - x) ≤ fuel)%nat →
  (∀ z, x ≤ z < c → ∃ f, as_float (PInt z) = Ok f) →
  ∃ l, py_range x c d = Ok l ∧ ticks fuel (PInt x) x2 (PInt d) = Ok (PInt <$> l).
Proof.
  intros Hd Hc. revert x. induction fuel as [|fuel IH]; intros x Hfuel Hfit; cbn [ticks];
    rewrite (py_ceil_spec _ _ _ Hc), range_step by done; destruct (Z.ltb_spec x c); cbn [negb].
  - lia.
  - exists []. by rewrite decide_False by lia.
  - rewrite decide_True by done. destruct (Hfit x) as [f ->]; [lia|].
    destruct (IH (x + d)) as (l & -> & Hl); [lia|intros z Hz; apply Hfit; lia|].
    exists (x :: l). split; [done|]. cbn [mbind result_bind]. change (num_add (PInt x) (PInt d)) with (@Ok exn _ (PInt (x + d))).
    cbn [mbind result_bind]. by rewrite Hl.
  - exists []. by rewrite decide_False by lia.
Qed.
Lemma division_int xi d x0 dv :
  division xi d = Ok (x0, PInt dv) →
  0 < dv ∧ ∃ q c, truediv (PFloat xi) (PInt dv) = Ok q ∧ py_ceil q = Ok c ∧ x0 = PInt (dv * c - dv).
Proof.
  unfold division. intros (tbe & _ & (n & _ & (half & _ & (a & _ & (b & _ & (dv' & Hdv & Hr)%bind_ok)%bind_ok)%bind_ok)%bind_ok)%bind_ok)%bind_ok.
  assert (∃ q c, truediv (PFloat xi) dv' = Ok q ∧ py_ceil q = Ok c ∧ 
    ∃ p, num_mul dv' (PInt c) = Ok p ∧ num_sub p dv' = Ok x0 ∧ dv' = PInt dv) as (q & c & Hq & Hc & p & Hp & Hx & ->).
  { apply bind_ok in Hr as (q & ? & (c & ? & (p & ? & (x & ? & [= -> ->])%bind_ok)%bind_ok)%bind_ok). eauto 10. }
  injection Hp as <-. injection Hx as <-. split; [|by exists q, c].
  unfold pow10 in Hdv. destruct (flt a b); [done|]. apply bind_ok in Hdv as (tw & Htw & (a' & _ & (b' & _ & [= Hd])%bind_ok)%bind_ok).
  assert (∀ m, 0 ≤ m → 0 < 10 ^ m) by (intros; apply Z.pow_pos_nonneg; lia).
  destruct (decide (0 ≤ n)); [injection Htw as <-|by apply bind_ok in Htw as (? & ? & (? & ? & [= <-])%bind_ok); destruct (flt a' b')].
  specialize (H1 n ltac:(done)). destruct (flt a' b'); injection Hd as <-; lia.
Qed.

(** ** Labels *)

Definition axis_point (x : num) : float :=
  fmul PIXELS_PER_METER (match as_float x with Ok f => f | Err _ => fzero end).
(** The label [k] shows the tick [x]. *)
Definition shows (font : Z) (place : float → float * float) (h : hud) (k : nat) (x : num) : Prop :=
  let '(lx, ly) := place (axis_point x) in objects h !! k = Some (Label true (Some x) font lx ly).
(** The labels that are held are distinct and were made. *)
Definition held (ks : list nat) (h : hud) : Prop := NoDup ks ∧ ∀ k, k ∈ ks → (k < length (objects h))%nat.
(** Labels [ks] were taken for ticks, from the unused ones first. *)
Record took (ks : list nat) (n : nat) (unused : list nat) (h h' : hud) : Prop := {
  tk_count : length ks = n;
  tk_unused : take (length unused) ks = take n unused;
  tk_labels : labels h' = labels h ++ ks;
  tk_held : held (labels h' ++ drop n unused) h';
  tk_length : (length (objects h) ≤ length (objects h'))%nat;
  tk_others : ∀ k, (k < length (objects h))%nat → k ∉ ks → objects h' !! k = objects h !! k;
  tk_rest : visible h' = visible h ∧ hlines h' = hlines h ∧ vlines h' = vlines h;
}.
Lemma get_label_run unused h :
  held (labels h ++ unused) h →
  ∃ k h', get_label unused h = (h', Ok (k, tail unused)) ∧ took [k] 1 unused h h' ∧
    is_Some (objects h' !! k) ∧ lb_visible <$> objects h' !! k = Some true.
Proof.
  intros [Hnd Hlt]. unfold get_label. destruct unused as [|k unused].
  - exists (length (objects h)). eexists. split; [reflexivity|]. rewrite app_nil_r in Hnd, Hlt.
    simpl. rewrite lookup_app_r, Nat.sub_diag by lia. split; [|by eexists].
    split; simpl; rewrite ?length_app; simpl; try done; [|lia|].
    + rewrite app_nil_r. split.
      * apply NoDup_app. split_and!; [done| |by apply NoDup_singleton].
        intros j Hj ->%list_elem_of_singleton. specialize (Hlt _ Hj). lia.
      * simpl. intros j. rewrite length_app, elem_of_app, list_elem_of_singleton. simpl.
        intros [Hj%Hlt| ->]; lia.
    + intros j Hj _. by rewrite lookup_app_l.
  - exists k. eexists. split; [reflexivity|]. simpl.
    assert (k < length (objects h))%nat as Hk by (apply Hlt, elem_of_app; right; left).
    destruct (lookup_lt_is_Some_2 _ _ Hk) as [l Hl]. rewrite list_lookup_alter_eq, Hl.
    split; [|split; [by eexists|done]]. split; simpl; rewrite ?length_alter; try done.
    + by rewrite take_nil, take_0.
    + rewrite drop_0, <-app_assoc. split; [done|]. simpl. by rewrite length_alter.
    + intros j _ Hj. apply list_lookup_alter_ne. intros ->. apply Hj. by left.
Qed.
Lemma draw_tick_run zoom line place x unused h f q font :
  held (labels h ++ unused) h → as_float x = Ok f → truediv (PInt 12) (PFloat zoom) = Ok q →
  py_int (PFloat q) = Ok font →
  ∃ k h', draw_tick zoom line place x unused h = (h', Ok (line (axis_point x), tail unused)) ∧
    took [k] 1 unused h h' ∧ shows font place h' k x.
Proof.
  intros Hh Hf Hq Hfont. destruct (get_label_run unused h Hh) as (k & h1 & Hrun & [T1 T2 T3 T4 T5 T6 T7] & [l Hl] & Hv).
  unfold draw_tick. rewrite Hf, bind_lift_ok. cbn zeta. rewrite (bind_run _ _ _ _ _ Hrun).
  cbn beta iota. rewrite Hq, bind_lift_ok, Hfont, bind_lift_ok.
  assert (axis_point x = fmul PIXELS_PER_METER f) as <- by (unfold axis_point; by rewrite Hf).
  destruct (place (axis_point x)) as [lx ly] eqn:Ep. unfold change_label. rewrite bind_modify.
  exists k. eexists. split; [reflexivity|]. rewrite Hl in Hv. injection Hv as Hv.
  split.
  - split; simpl; rewrite ?length_alter; try done.
    + by destruct T4 as [? ?]; split; [|simpl; rewrite length_alter].
    + intros j Hj Hne. rewrite list_lookup_alter_ne; [by apply T6|]. intros ->. apply Hne. by left.
  - unfold shows. rewrite Ep. simpl. rewrite list_lookup_alter_eq, Hl. simpl. by rewrite Hv.
Qed.
Lemma took_trans k ks n unused h h1 h2 :
  took [k] 1 unused h h1 → took ks n (tail unused) h1 h2 → took (k :: ks) (S n) unused h h2.
Proof.
  intros [A1 A2 A3 A4 A5 A6 A7] [B1 B2 B3 B4 B5 B6 B7]. split.
  - simpl. by f_equal.
  - destruct unused as [|j unused]; [done|]. simpl in *. rewrite take_0 in A2. injection A2 as ->. by f_equal.
  - by rewrite B3, A3, <-app_assoc.
  - by destruct unused; [rewrite drop_nil in *|].
  - lia.
  - intros j Hj [Hne Hks]%not_elem_of_cons. rewrite B6, A6; [done|done| |lia|done].
    by intros ->%list_elem_of_singleton.
  - intuition congruence.
Qed.
Lemma draw_ticks_run fuel zoom line place x x2 d ts path unused h q font :
  ticks fuel x x2 d = Ok ts → held (labels h ++ unused) h →
  truediv (PInt 12) (PFloat zoom) = Ok q → py_int (PFloat q) = Ok font →
  ∃ ks h', draw_ticks fuel zoom line place x x2 d path unused h =
      (h', Ok (path ++ ((λ x, line (axis_point x)) <$> ts), drop (length ts) unused)) ∧
    took ks (length ts) unused h h' ∧
    ∀ i k t, ks !! i = Some k → ts !! i = Some t → shows font place h' k t.
Proof.
  intros Hts Hh Hq Hfont. revert x ts path unused h Hts Hh.
  induction fuel as [|fuel IH]; intros x ts path unused h; cbn [ticks draw_ticks];
    destruct (nlt x (PFloat x2)); cbn [negb]; intros Hts Hh; try done;
    try (injection Hts as <-; exists [], h; rewrite app_nil_r, drop_0; split; [done|];
         split; [split; rewrite ?app_nil_r; try done; by rewrite take_nil|done]).
  apply bind_ok in Hts as (f & Hf & (x' & Hx' & (ts' & Hts & [= <-])%bind_ok)%bind_ok).
  destruct (draw_tick_run zoom line place x unused h f q font Hh Hf Hq Hfont) as (k & h1 & Hrun1 & T1 & S1).
  rewrite (bind_run _ _ _ _ _ Hrun1). cbn beta iota. rewrite Hx', bind_lift_ok.
  destruct (IH x' ts' (path ++ [line (axis_point x)]) (tail unused) h1 Hts) as (ks & h2 & Hrun2 & T2 & S2).
  { destruct T1 as [_ _ _ T4 _ _ _]. by destruct unused. }
  exists (k :: ks), h2. rewrite Hrun2. split; [|split].
  - rewrite <-app_assoc. destruct unused; simpl; by rewrite ?drop_nil.
  - by eapply took_trans.
  - intros [|i] j t; [|by apply S2]. intros [= <-] [= <-]. unfold shows in *.
    destruct (place (axis_point x)) as [lx ly]. rewrite (tk_others _ _ _ _ _ T2); [done| |].
    + by eapply lookup_lt_Some.
    + intros Hin. destruct (tk_held _ _ _ _ _ T2) as [Hnd _]. rewrite (tk_labels _ _ _ _ _ T2), (tk_labels _ _ _ _ _ T1) in Hnd.
      apply NoDup_app in Hnd as (Hnd & _ & _). apply NoDup_app in Hnd as (_ & Hd & _). apply (Hd k); [|done].
      apply elem_of_app. right. by left.
Qed.
Lemma hide_labels_run l h :
  ∃ h', for_each (λ k, change_label k (show false)) l h = (h', Ok ()) ∧ labels h' = labels h ∧
    visible h' = visible h ∧ hlines h' = hlines h ∧ vlines h' = vlines h ∧
    length (objects h') = length (objects h) ∧
    ∀ k, lb_visible <$> objects h' !! k =
      if decide (k ∈ l) then (λ _, false) <$> objects h !! k else lb_visible <$> objects h !! k.
Proof.
  unfold change_label. revert h. induction l as [|j l IH]; intros h; [by exists h|]. cbn [for_each].
  rewrite bind_modify. destruct (IH (set_objects (alter (show false) j (objects h)) h)) as (h' & Hrun & H1 & H2 & H3 & H4 & H5 & H6).
  exists h'. rewrite Hrun, H1, H2, H3, H4, H5. simpl. rewrite length_alter. split_and!; [done..|].
  intros k. rewrite H6. simpl. destruct (decide (j = k)) as [<-|Hne].
  - rewrite (decide_True (P := j ∈ j :: l)) by left. rewrite list_lookup_alter_eq. by destruct (decide _), (objects h !! j).
  - rewrite list_lookup_alter_ne by done. destruct (decide (k ∈ l)); [by rewrite decide_True by (by right)|].
    rewrite decide_False; [done|]. by intros [?|?]%elem_of_cons.
Qed.
(** Two axes in a row: between them only the axes change. *)
Record both (ks1 ks2 unused : list nat) (h h' : hud) : Prop := {
  bo_held : held (ks1 ++ ks2 ++ drop (length ks1 + length ks2) unused) h';
  bo_unused : ∀ k, k ∈ unused → k ∈ ks1 ++ ks2 ++ drop (length ks1 + length ks2) unused;
  bo_others : ∀ k, (k < length (objects h))%nat → k ∉ ks1 ++ ks2 → objects h' !! k = objects h !! k;
}.
Lemma took_both ks1 ks2 n1 n2 unused h h1 h1' h2 :
  labels h = [] → took ks1 n1 unused h h1 → objects h1' = objects h1 → labels h1' = labels h1 →
  took ks2 n2 (drop n1 unused) h1' h2 →
  both ks1 ks2 unused h h2 ∧
  ∀ font place i k x, ks1 !! i = Some k → shows font place h1 k x → shows font place h2 k x.
Proof.
  intros E [A1 A2 A3 A4 A5 A6 A7] Eo El [B1 B2 B3 B4 B5 B6 B7]. subst n1 n2.
  rewrite Eo in *. rewrite drop_drop, B3, El, A3, E, <-app_assoc in B4. simpl in B4. split.
  - split.
    + done.
    + intros k Hk. rewrite <-(take_drop (length ks1) unused) in Hk. rewrite !elem_of_app.
      apply elem_of_app in Hk as [Hk|Hk].
      * left. rewrite <-A2 in Hk. by apply elem_of_take in Hk as (i & Hk%list_elem_of_lookup_2 & _).
      * right. rewrite <-(take_drop (length ks2) (drop _ _)) in Hk. apply elem_of_app in Hk as [Hk|Hk].
        -- left. rewrite <-B2 in Hk. by apply elem_of_take in Hk as (i & Hk%list_elem_of_lookup_2 & _).
        -- right. by rewrite drop_drop in Hk.
    + intros k Hk Hn. rewrite B6, A6; [done|done| |lia|]; intros Hin; apply Hn, elem_of_app; auto.
  - intros font place i k x Hk Hs. unfold shows in *. destruct (place (axis_point x)) as [lx ly].
    rewrite B6, <-Hs; [done| |].
    + by eapply lookup_lt_Some.
    + intros Hin. destruct B4 as [(_ & Hd & _)%NoDup_app _]. apply (Hd k); [by eapply list_elem_of_lookup_2|].
      apply elem_of_app. by left.
Qed.

(** The ticks of an axis that is seen from [lo] to [hi]. *)
Definition axis_ticks (fuel : nat) (lo hi : float) : res (list num) :=
  '(x0, d) ← _compute_divisions lo hi; ticks fuel x0 hi d.

(** What an update does, in terms of the labels [ks1] and [ks2] that the two
    axes take. *)
Section update.
Context (fuel : nat) (zoom : float) (c : controls) (b : float * float * float * float) (font : Z) (h : hud).
Context (xs ys : list num) (x1 y1 x2 y2 : float).
Context (Hone : convert_from_pixels b (canvas_scale c) (value (hadj c)) (value (vadj c)) = (x1, y1)).
Context (Htwo : convert_from_pixels b (canvas_scale c)
  (fadd (value (hadj c)) (page_size (hadj c))) (fadd (value (vadj c)) (page_size (vadj c))) = (x2, y2)).
Let over (n : Z) := SFdiv prec64 emax64 (float_int n) zoom.
Let yc := fsub y2 (fhalf (over 5)).
Let xc := fadd x1 (fhalf (over 5)).
Let lineh (p : float) := (p, fsub yc (over 10), p, yc).
Let placeh (p : float) := (p, fsub yc (over 10)).
Let linev (p : float) := (xc, p, fadd xc (over 10), p).
Let placev (p : float) := (fadd xc (over 10), p).
Context (Hheld : held (labels h) h) (Hzoom : is_zero_float zoom = false) (Hfont : py_int (PFloat (over 12)) = Ok font).
Context (Hxs : axis_ticks fuel (fdiv_ppm x1) (fdiv_ppm x2) = Ok xs).
Context (Hys : axis_ticks fuel (fdiv_ppm y1) (fdiv_ppm y2) = Ok ys).

Lemma over_ok n f : as_float (PInt n) = Ok f → f = float_int n → truediv (PInt n) (PFloat zoom) = Ok (over n).
Proof. intros Hf ->. unfold truediv. rewrite Hf. cbn [mbind result_bind as_float]. unfold fdiv. by rewrite Hzoom. Qed.
Lemma axes_view_run :
  ∃ ks1 ks2 h2 h', update_view fuel (Some zoom) c b h = (h', Ok ()) ∧
    (length ks1 = length xs ∧ length ks2 = length ys ∧
     labels h' = ks1 ++ ks2 ++ drop (length ks1 + length ks2) (labels h)) ∧
    both ks1 ks2 (labels h) h2 h' ∧
    (∀ k, k ∈ labels h → lb_visible <$> objects h2 !! k = Some false) ∧
    length (objects h2) = length (objects h) ∧
    (∀ i k x, ks1 !! i = Some k → xs !! i = Some x → shows font placeh h' k x) ∧
    (∀ i k y, ks2 !! i = Some k → ys !! i = Some y → shows font placev h' k y) ∧
    hlines h' = {| a_shown := a_shown (hlines h); a_width := over 5;
      a_path := (x1, yc, x2, yc) :: ((λ x, lineh (axis_point x)) <$> xs) |} ∧
    vlines h' = {| a_shown := a_shown (vlines h); a_width := over 5;
      a_path := (xc, y1, xc, y2) :: ((λ y, linev (axis_point y)) <$> ys) |}.
Proof.
  destruct Hheld as [Hnd Hlt].
  apply bind_ok in Hxs as ([x0 xd] & Hdx & Hx), Hys as ([y0 yd] & Hdy & Hy).
  assert (fdiv (float_int 5) zoom = Ok (over 5)) as H5 by (unfold fdiv; by rewrite Hzoom).
  destruct (hide_labels_run (labels h) (set_labels [] h)) as (h1 & Hrun1 & L1 & V1 & X1 & Y1 & N1 & O1).
  set (h2 := set_axes (with_width (over 5) (hlines h1)) (vlines h1) h1).
  destruct (draw_ticks_run fuel zoom lineh placeh x0 (fdiv_ppm x2) xd xs [(x1, yc, x2, yc)] (labels h) h2 (over 12) font Hx)
    as (ks1 & h3 & Hrun3 & T1 & S1); [|exact (over_ok 12 _ eq_refl eq_refl)|done|].
  { split; simpl; rewrite L1; simpl; [done|]. intros k Hk. rewrite N1. by apply Hlt. }
  set (h4 := set_axes (with_path ([(x1, yc, x2, yc)] ++ ((λ x, lineh (axis_point x)) <$> xs)) (hlines h3))
    (with_width (over 5) (vlines h3)) h3).
  destruct (draw_ticks_run fuel zoom linev placev y0 (fdiv_ppm y2) yd ys [(xc, y1, xc, y2)] (drop (length xs) (labels h)) h4 (over 12) font Hy)
    as (ks2 & h5 & Hrun5 & T2 & S2); [by destruct T1 as [_ _ _ ? _ _ _]|exact (over_ok 12 _ eq_refl eq_refl)|done|].
  destruct (took_both _ _ _ _ _ h2 _ h4 _ L1 T1 eq_refl eq_refl T2) as [B Bs].
  destruct (tk_rest _ _ _ _ _ T1) as (_ & R1 & R2), (tk_rest _ _ _ _ _ T2) as (_ & R3 & R4).
  exists ks1, ks2, h2, (set_labels (labels h5 ++ drop (length ys) (drop (length xs) (labels h)))
    (set_axes (hlines h5) (with_path ([(xc, y1, xc, y2)] ++ ((λ y, linev (axis_point y)) <$> ys)) (vlines h5)) h5)).
  split.
  { unfold update_view. rewrite bind_gets, bind_modify, (bind_run _ _ _ _ _ Hrun1), (over_ok 10 _ eq_refl eq_refl), bind_lift_ok.
    rewrite Hone, Htwo, H5, bind_lift_ok. unfold change_hlines, change_vlines. rewrite bind_modify. fold h2.
    cbn zeta. fold yc. rewrite Hdx, bind_lift_ok. cbn beta iota.
    rewrite (bind_run _ _ _ _ _ Hrun3). cbn beta iota. rewrite !bind_modify. 
    match goal with |- context [set_axes (hlines ?m) (with_width (over 5) (vlines ?m)) ?m] =>
      change (set_axes (hlines m) (with_width (over 5) (vlines m)) m) with h4 end.
    fold xc. rewrite Hdy, bind_lift_ok. cbn beta iota. by rewrite (bind_run _ _ _ _ _ Hrun5). }
  pose proof (tk_count _ _ _ _ _ T1) as C1. pose proof (tk_count _ _ _ _ _ T2) as C2.
  split_and!; [done|done| |destruct B; by split| | | | | |].
  - simpl. rewrite (tk_labels _ _ _ _ _ T2). change (labels h4) with (labels h3).
    rewrite (tk_labels _ _ _ _ _ T1). change (labels h2) with (labels h1). rewrite L1. simpl.
    by rewrite drop_drop, C1, C2, <-app_assoc.
  - intros k Hk. change (objects h2) with (objects h1). rewrite O1, decide_True by done. simpl.
    by destruct (lookup_lt_is_Some_2 _ _ (Hlt k Hk)) as [l ->].
  - exact N1.
  - intros i k x Hk Hi. by eapply Bs, S1.
  - exact S2.
  - simpl. rewrite R3. simpl. unfold with_path. simpl. rewrite R1. simpl. by rewrite X1.
  - simpl. unfold with_path. rewrite R4. simpl. rewrite R2. simpl. by rewrite Y1.
Qed.
End update.

(** Updating the axes.  When the ticks of both axes are found, every
    label that there was is kept, no label is held twice, and there are as
    many as before or as many as there are ticks; the first ones are shown and
    are those of the ticks, from left to right and then from top to bottom,
    each at its tick; the others are hidden; and the lines are the axes with
    one dash for every tick. *)
Theorem axes_update fuel zoom c b font h xs ys :
  let '(x1, y1) := convert_from_pixels b (canvas_scale c) (value (hadj c)) (value (vadj c)) in
  let '(x2, y2) := convert_from_pixels b (canvas_scale c)
    (fadd (value (hadj c)) (page_size (hadj c))) (fadd (value (vadj c)) (page_size (vadj c))) in
  let over (n : Z) := SFdiv prec64 emax64 (float_int n) zoom in
  let yc := fsub y2 (fhalf (over 5)) in
  let xc := fadd x1 (fhalf (over 5)) in
  held (labels h) h → is_zero_float zoom = false → py_int (PFloat (over 12)) = Ok font →
  axis_ticks fuel (fdiv_ppm x1) (fdiv_ppm x2) = Ok xs →
  axis_ticks fuel (fdiv_ppm y1) (fdiv_ppm y2) = Ok ys →
  ∃ h', update_view fuel (Some zoom) c b h = (h', Ok ()) ∧ held (labels h') h' ∧
    (∀ k, k ∈ labels h → k ∈ labels h') ∧
    length (labels h') = Nat.max (length (labels h)) (length xs + length ys) ∧
    (∀ i k, labels h' !! i = Some k →
       match xs !! i, ys !! (i - length xs)%nat with
       | Some x, _ => shows font (λ p, (p, fsub yc (over 10))) h' k x
       | None, Some y => shows font (λ p, (fadd xc (over 10), p)) h' k y
       | None, None => lb_visible <$> objects h' !! k = Some false
       end) ∧
    hlines h' = {| a_shown := a_shown (hlines h); a_width := over 5;
      a_path := (x1, yc, x2, yc) :: ((λ x, let p := axis_point x in (p, fsub yc (over 10), p, yc)) <$> xs) |} ∧
    vlines h' = {| a_shown := a_shown (vlines h); a_width := over 5;
      a_path := (xc, y1, xc, y2) :: ((λ y, let p := axis_point y in (xc, p, fadd xc (over 10), p)) <$> ys) |}.
Proof.
  destruct (convert_from_pixels b (canvas_scale c) (value (hadj c)) (value (vadj c))) as [x1 y1] eqn:E1.
  destruct (convert_from_pixels b (canvas_scale c) (fadd _ _) (fadd _ _)) as [x2 y2] eqn:E2.
  intros over yc xc Hheld Hz Hfont Hxs Hys.
  destruct (axes_view_run fuel zoom c b font h xs ys x1 y1 x2 y2 E1 E2 Hheld Hz Hfont Hxs Hys)
    as (ks1 & ks2 & h2 & h' & Hrun & (C1 & C2 & Hl) & [B1 B2 B3] & Hhid & Hlen & S1 & S2 & Hh & Hv).
  exists h'. split_and!; [done|by rewrite Hl|intros k Hk; rewrite Hl; by apply B2| | |done|done].
  - rewrite Hl, !length_app, length_drop. lia.
  - intros i k. rewrite Hl, lookup_app_Some. intros [Hk|[Hge Hk]].
    + destruct (lookup_lt_is_Some_2 xs i) as [x Hx]; [rewrite <-C1; by eapply lookup_lt_Some|].
      rewrite Hx. by eapply S1.
    + rewrite (lookup_ge_None_2 xs i), <-C1 by lia. apply lookup_app_Some in Hk as [Hk|[Hge' Hk]].
      * destruct (lookup_lt_is_Some_2 ys (i - length ks1)%nat) as [y Hy]; [rewrite <-C2; by eapply lookup_lt_Some|].
        rewrite Hy. by eapply S2.
      * rewrite lookup_ge_None_2 by lia. apply list_elem_of_lookup_2 in Hk as Hin.
        assert (k ∈ labels h) as Hkl.
        { rewrite <-(take_drop (length ks1 + length ks2) (labels h)). apply elem_of_app. by right. }
        rewrite B3; [by apply Hhid|rewrite Hlen; by apply Hheld|]. intros Hks.
        destruct B1 as [Hnd _]. rewrite app_assoc in Hnd. apply NoDup_app in Hnd as (_ & Hd & _).
        by apply (Hd k).
Qed.

(** An axis whose division is an integer.  The loop over the ticks ends,
    with as many turns as there are units between its start and the right end
    at most; the ticks are [range(x0, ceil(xf), division)], all multiples of
    the division, from the one before the first that can be seen on. *)
Theorem axis_integer_ticks xi xf x0 dv c fuel :
  _compute_divisions xi xf = Ok (x0, PInt dv) → py_ceil xf = Ok c →
  0 < dv ∧ ∃ q first, truediv (PFloat xi) (PInt dv) = Ok q ∧ py_ceil q = Ok first ∧
    let start := dv * (first - 1) in
    x0 = PInt start ∧
    ((Z.to_nat (c - start) ≤ fuel)%nat → (∀ z, start ≤ z < c → ∃ f, as_float (PInt z) = Ok f) →
     ∃ l, py_range start c dv = Ok l ∧ axis_ticks fuel xi xf = Ok (PInt <$> l)).
Proof.
  intros Hdiv Hc. assert (∃ d, division xi d = Ok (x0, PInt dv)) as [d Hd].
  { rewrite compute_divisions_once in Hdiv. unfold divide_once in Hdiv. destruct (negb _); [done|].
    apply bind_ok in Hdiv as (d & _ & (w & _ & (r & Hd & (_z & _ & [= ->])%bind_ok)%bind_ok)%bind_ok). by exists d. }
  destruct (division_int _ _ _ _ Hd) as (Hpos & q & first & Hq & Hf & ->). split; [done|]. exists q, first.
  replace (dv * first - dv) with (dv * (first - 1)) in * by lia. cbn zeta. split_and!; [done..|].
  intros Hfuel Hfit. destruct (int_ticks fuel _ xf c dv Hpos Hc Hfuel Hfit) as (l & Hl & Ht).
  exists l. split; [done|]. unfold axis_ticks. by rewrite Hdiv.
Qed.
End proofs.

(** ** Examples *)

(** A canvas that does not scroll, and logarithms without their fractions. *)
#[local] Instance demo_lib : VizLib :=
  {| convert_from_pixels b s x y := (x, y); convert_to_pixels b s x y := (x, y);
     LineClipping b l := l; log_pos x := x; atan2 y x := fzero; set_transform_works := true |}.
#[local] Instance demo_logs : HudLib :=
  {| log10_pos x := if flt x one then float_int (-1) else if flt x (float_int 10) then fzero
                    else if flt x (float_int 100) then one else float_int 2;
     pow10_neg n := lit 1 n |}.
Definition demo_controls (w h : Z) : controls :=
  {| hadj := {| value := fzero; page_size := float_int w |};
     vadj := {| value := fzero; page_size := float_int h |};
     canvas_scale := one; node_size := one; smoothing := one; sample_period := one |}.
Definition demo_bounds : float * float * float * float :=
  (float_int (-10000), float_int (-10000), float_int 10000, float_int 10000).
Definition no_axis : axis := {| a_shown := true; a_width := fzero; a_path := [] |}.
Definition new_hud : hud := Hud [] [] true no_axis no_axis.
Definition demo_hud : hud := (update_view 20 (Some one) (demo_controls 450 450) demo_bounds new_hud).1.
Example demo_ticks :
  axis_ticks 10 fzero (float_int 500) = Ok (PInt <$> [-100; 0; 100; 200; 300; 400]) ∧
  axis_ticks 10 fzero (float_int 150) = Ok (PInt <$> [-20; 0; 20; 40; 60; 80; 100; 120; 140]) ∧
  length (labels demo_hud) = 18%nat.
Proof. by vm_compute. Qed.
(** The window grows: six and four ticks for the eighteen labels. *)
Theorem axes_update_witness :
  ∃ h', update_view 20 (Some one) (demo_controls 1500 1500) demo_bounds demo_hud = (h', Ok ()) ∧
    length (labels h') = 18%nat ∧ NoDup (labels h') ∧
    ∀ k, labels h' !! 12%nat = Some k → lb_visible <$> objects h' !! k = Some false.
Proof.
  pose (xs := PInt <$> [-100; 0; 100; 200; 300; 400]).
  destruct (axes_update 20 one (demo_controls 1500 1500) demo_bounds 12 demo_hud xs xs)
    as (h' & Hrun & [Hnd _] & _ & Hlen & Hall & _).
  - assert (labels demo_hud = seq 0 18) as -> by (by vm_compute). split; [apply NoDup_seq|].
    intros k Hk%elem_of_seq. assert (length (objects demo_hud) = 18%nat) as -> by (by vm_compute). lia.
  - done.
  - by vm_compute.
  - by vm_compute.
  - by vm_compute.
  - exists h'. split_and!; [done|rewrite Hlen; by vm_compute|done|].
    intros k Hk. exact (Hall 12%nat k Hk).
Defined.
(** Labels that were hidden stay hidden when the axes are shown again, until
    the next update. *)
Example labels_stay_hidden :
  let h := (set_visible true (set_visible false demo_hud).1).1 in
  visible h = true ∧ a_shown (hlines h) = true ∧ Forall (λ l, lb_visible l = false) (objects h).
Proof. split_and!; [by vm_compute..|]. vm_compute. by repeat constructor. Qed.
(** Where the floats are too far apart the loop over the ticks never ends. *)
Lemma ticks_stuck x f x2 d fuel :
  nlt x (PFloat x2) = true → as_float x = Ok f → num_add x d = Ok x → ticks fuel x x2 d = Err NoFuel.
Proof.
  intros H1 H2 H3. induction fuel as [|fuel IH]; cbn [ticks]; rewrite H1; [done|].
  cbn [negb]. rewrite H2, H3. cbn [mbind result_bind]. by rewrite IH.
Qed.
Example ticks_far_away fuel :
  axis_ticks fuel (float_int (2 ^ 54)) (float_int (2 ^ 54 + 4)) = Err NoFuel.
Proof.
  unfold axis_ticks. destruct (_compute_divisions _ _) as [[x0 d]|e] eqn:E; vm_compute in E; [|done].
  injection E as <- <-. cbn [mbind result_bind]. by eapply ticks_stuck; vm_compute.
Qed.
