(* ===== verification/VizTables.v ===== *)
(** * visualizer: information windows and the tables of the plugins
    The windows that core.py keeps and updates, against the interface
    [InformationWindow] of base.py, and the plugins whose windows copy a list
    of the simulator into a table: ipv4_routing_table.py, olsr.py and
    ndnsim_fib.py, _pit.py, _cs.py and _faces.py.  What the simulator answers
    is an argument; of a window only its table, and whether it is on the
    screen, is modelled. *)
From S2P Require Import Prelude PyStr.
#[local] Open Scope Z_scope.

(** ** Tables: [Gtk.ListStore] *)

Inductive gtype : Type := TStr | TInt.
(** [VNone] is the text of a cell that was never set. *)
Inductive value : Type := VNone | VStr (s : string) | VInt (z : Z).
Record list_store := ListStore { types : list gtype; rows : list (list value) }.
Abbreviation tio := (eff list_store exn).

#[export] Instance value_eq_dec : EqDecision value.
Proof. solve_decision. Defined.

Definition default_value (t : gtype) : value := match t with TStr => VNone | TInt => VInt 0 end.
(** What a cell of a column takes: an int of C. *)
Definition fits (t : gtype) (v : value) : res unit :=
  match t, v with
  | TStr, (VStr _ | VNone) => Ok ()
  | TInt, VInt z => if decide (- 2 ^ 31 ≤ z < 2 ^ 31) then Ok () else Err (PyException "OverflowError")
  | _, _ => Err TypeError
  end.
Definition set_rows (l : list (list value)) (t : list_store) : list_store := ListStore (types t) l.
Definition clear : tio unit := modify (set_rows []).
(** A new row at the end; the iterator is its position. *)
Definition append : tio nat := λ t,
  (set_rows (rows t ++ [default_value <$> types t]) t, Ok (length (rows t))).
Definition set_cell (tree_iter : nat) (c : nat * value) : tio unit :=
  ty ← gets (λ t, types t !! c.1);
  match ty with
  | None => throw (ValueError "invalid column")
  | Some ty =>
      _ ← lift_res (fits ty c.2);
      modify (λ t, set_rows (alter (λ r, <[c.1 := c.2]> r) tree_iter (rows t)) t)
  end.
(** [table_model.set(tree_iter, column, value, ...)] *)
Definition set_cells (tree_iter : nat) (cells : list (nat * value)) : tio unit :=
  for_each (set_cell tree_iter) cells.
(** The body of the loops over the entries: a row is made before the values
    of its cells are computed. *)
Definition add_row {A} (cells : A → res (list (nat * value))) (x : A) : tio unit :=
  tree_iter ← append; c ← lift_res (cells x); set_cells tree_iter c.

(** ** What the simulator answers *)

Record route := { GetDest : string; GetGateway : string; GetInterface : Z }.
(** A list of protocols inside a list is [OtherRouting]: no case is made of it. *)
Inductive protocol : Type :=
| Ipv4StaticRouting (routes : list route)
| Ipv4GlobalRouting (routes : list route)
| OtherRouting.
Inductive routing : Type :=
| Single (p : protocol)
| Ipv4ListRouting (protocols : list (protocol * Z)).
(** [GetNetDevice] answers the name of the device of an interface, as
    [Names.FindName] does: empty without a name; [None] is no device. *)
Record ipv4 := { GetNetDevice : Z → option string; GetRoutingProtocol : option routing }.
Record olsr_entry := { destAddr : string; nextAddr : string; interface : Z; distance : Z }.
Record next_hop := { face : string; face_id : Z; face_cost : Z }.
Record forwarder := {
  getFib : option (list (string * list next_hop)); getPit : option (list string);
  getCs : option (list string); getFaceTable : list (Z * string);
}.
(** The objects that are aggregated to a node. *)
Record ns_node := {
  node_ipv4 : option ipv4; node_olsr : option (list olsr_entry); node_ndn : option forwarder;
}.
Abbreviation simulator := (Z → ns_node).  (* NodeList.GetNode *)

(** ** The plugins *)

Definition interface_name (ip : ipv4) (i : Z) : string :=
  match GetNetDevice ip i with
  | None => "lo"
  | Some name => if decide (name = "") then "(interface " +:+ pretty i +:+ ")" else name
  end.
(** A method of an object that may be [None]. *)
Definition not_none {A} (o : option A) : res A :=
  match o with Some a => Ok a | None => Err AttributeError end.

(** *** ipv4_routing_table.py *)
Definition ipv4_columns : list gtype := [TStr; TStr; TStr; TStr; TInt].
Definition list_protocol (p : protocol * Z) : option (list route * string * Z) :=
  match p.1 with
  | Ipv4StaticRouting rs => Some (rs, "static", p.2)
  | Ipv4GlobalRouting rs => Some (rs, "global", p.2)
  | _ => None
  end.
(** [routing_protocols]: list of (protocol, type_string, priority) *)
Definition routing_protocols (r : routing) : list (list route * string * Z) :=
  match r with
  | Single (Ipv4StaticRouting rs) => [(rs, "static", 0)]
  | Ipv4ListRouting l => omap list_protocol l
  | Single _ => []
  end.
Definition ipv4_cells (ip : ipv4) (type_string : string) (prio : Z) (r : route)
    : res (list (nat * value)) :=
  Ok [(0, VStr (GetDest r)); (1, VStr (GetGateway r)); (2, VStr (interface_name ip (GetInterface r)));
      (3, VStr type_string); (4, VInt prio)]%nat.
Definition update_ipv4 (node : ns_node) : tio unit :=
  ip ← lift_res (not_none (node_ipv4 node));
  match GetRoutingProtocol ip with
  | None => mret ()
  | Some routing =>
      if decide (routing_protocols routing = []) then mret ()
      else
        _ ← clear;
        for_each (λ p : list route * string * Z, for_each (add_row (ipv4_cells ip p.1.2 p.2)) p.1.1)
          (routing_protocols routing)
  end.

(** *** olsr.py *)
Definition olsr_columns : list gtype := [TStr; TStr; TStr; TInt].
Definition olsr_cells (ip : option ipv4) (r : olsr_entry) : res (list (nat * value)) :=
  ip ← not_none ip;
  Ok [(0, VStr (destAddr r)); (1, VStr (nextAddr r)); (2, VStr (interface_name ip (interface r)));
      (3, VInt (distance r))]%nat.
Definition update_olsr (node : ns_node) : tio unit :=
  match node_olsr node with
  | None => mret ()
  | Some entries => _ ← clear; for_each (add_row (olsr_cells (node_ipv4 node))) entries
  end.

(** *** ndnsim_fib.py, ndnsim_pit.py, ndnsim_cs.py, ndnsim_faces.py
    [L3Protocol.getL3Protocol] of a node without ndnSIM answers None in a build
    without assertions, as here; a build with assertions aborts the program in
    its [NS_ASSERT_MSG]. *)
Definition ndn_columns : list gtype := [TStr; TStr; TInt].
Definition show_hop (nh : next_hop) : string :=
  face nh +:+ pretty (face_id nh) +:+ " (" +:+ pretty (face_cost nh) +:+ ")".
Definition fib_cells (item : string * list next_hop) : res (list (nat * value)) :=
  Ok [(0, VStr item.1); (1, VStr (join ", " (show_hop <$> item.2)))]%nat.
Definition name_cells (item : string) : res (list (nat * value)) := Ok [(0, VStr item)]%nat.
Definition face_cells (item : Z * string) : res (list (nat * value)) :=
  Ok [(0, VStr (pretty item.1)); (1, VStr item.2)]%nat.
(** [if ndnFib is None: return]; then the table is filled. *)
Definition update_entries {A} (cells : A → res (list (nat * value))) (entries : option (list A)) : tio unit :=
  match entries with
  | None => mret ()
  | Some l => _ ← clear; for_each (add_row cells) l
  end.
Definition update_fib (node : ns_node) : tio unit :=
  fw ← lift_res (not_none (node_ndn node)); update_entries fib_cells (getFib fw).
Definition update_pit (node : ns_node) : tio unit :=
  fw ← lift_res (not_none (node_ndn node)); update_entries name_cells (getPit fw).
Definition update_cs (node : ns_node) : tio unit :=
  fw ← lift_res (not_none (node_ndn node)); update_entries name_cells (getCs fw).
Definition update_faces (node : ns_node) : tio unit :=
  fw ← lift_res (not_none (node_ndn node));
  _ ← clear; for_each (add_row face_cells) (getFaceTable fw).

Inductive table_kind : Type := Ipv4Table | OlsrTable | FibTable | PitTable | CsTable | FacesTable.
Definition columns (k : table_kind) : list gtype :=
  match k with Ipv4Table => ipv4_columns | OlsrTable => olsr_columns | _ => ndn_columns end.
Definition update_table (k : table_kind) (node : ns_node) : tio unit :=
  match k with
  | Ipv4Table => update_ipv4 node
  | OlsrTable => update_olsr node
  | FibTable => update_fib node
  | PitTable => update_pit node
  | CsTable => update_cs node
  | FacesTable => update_faces node
  end.
(** The entries of the menu of a node: olsr.py adds one only where there is
    something to show. *)
Definition populate_node_menu (node : ns_node) (k : table_kind) : option string :=
  match k with
  | Ipv4Table => Some "Show IPv4 Routing Table"
  | OlsrTable => (λ _, "Show OLSR Routing Table") <$> node_olsr node
  | FibTable => Some "Show NDN FIB"
  | PitTable => Some "Show NDN PIT"
  | CsTable => Some "Show NDN CS"
  | FacesTable => Some "Show NDN Faces"
  end.

(** ** What a table shows of a node *)

Definition ipv4_row (ip : ipv4) (p : list route * string * Z) (r : route) : list value :=
  [VStr (GetDest r); VStr (GetGateway r); VStr (interface_name ip (GetInterface r)); VStr p.1.2; VInt p.2].
Definition olsr_row (ip : ipv4) (r : olsr_entry) : list value :=
  [VStr (destAddr r); VStr (nextAddr r); VStr (interface_name ip (interface r)); VInt (distance r)].
Definition fib_row (item : string * list next_hop) : list value :=
  [VStr item.1; VStr (join ", " (show_hop <$> item.2)); VInt 0].
Definition name_row (name : string) : list value := [VStr name; VNone; VInt 0].
Definition face_row (item : Z * string) : list value := [VStr (pretty item.1); VStr item.2; VInt 0].
(** [Ok None]: there is nothing to read and the table stays as it is. *)
Definition ipv4_contents (ip : ipv4) : option (list (list value)) :=
  match GetRoutingProtocol ip with
  | None => None
  | Some r =>
      match routing_protocols r with
      | [] => None
      | ps => Some (mjoin ((λ p, ipv4_row ip p <$> p.1.1) <$> ps))
      end
  end.
Definition entry_rows {A} (row : A → list value) (entries : option (list A)) : option (list (list value)) :=
  match entries with Some l => Some (map row l) | None => None end.
Definition contents (k : table_kind) (node : ns_node) : res (option (list (list value))) :=
  match k with
  | Ipv4Table => ip ← not_none (node_ipv4 node); Ok (ipv4_contents ip)
  | OlsrTable =>
      match node_olsr node, node_ipv4 node with
      | None, _ => Ok None
      | Some [], _ => Ok (Some [])
      | Some l, Some ip => Ok (Some (map (olsr_row ip) l))
      | Some _, None => Err AttributeError
      end
  | FibTable => fw ← not_none (node_ndn node); Ok (entry_rows fib_row (getFib fw))
  | PitTable => fw ← not_none (node_ndn node); Ok (entry_rows name_row (getPit fw))
  | CsTable => fw ← not_none (node_ndn node); Ok (entry_rows name_row (getCs fw))
  | FacesTable => fw ← not_none (node_ndn node); Ok (Some (map face_row (getFaceTable fw)))
  end.
(** The numbers of a node are those of C: priorities and distances. *)
Definition c_int (z : Z) : Prop := - 2 ^ 31 ≤ z < 2 ^ 31.
Definition c_node (node : ns_node) : Prop :=
  (∀ ip l, node_ipv4 node = Some ip → GetRoutingProtocol ip = Some (Ipv4ListRouting l) →
    Forall (λ p, c_int p.2) l) ∧
  (∀ l, node_olsr node = Some l → Forall (λ r, c_int (distance r)) l).
Definition well_typed (t : list_store) : Prop :=
  Forall (λ r, Forall2 (λ ty v, fits ty v = Ok ()) (types t) r) (rows t).

Lemma set_cell_last ty l r c t v :
  ty !! c = Some t → fits t v = Ok () →
  set_cell (length l) (c, v) (ListStore ty (l ++ [r])) = (ListStore ty (l ++ [<[c := v]> r]), Ok ()).
Proof.
  intros Ht Hv. unfold set_cell. autorewrite with eff. cbn [types fst snd]. rewrite Ht. cbn.
  rewrite Hv. autorewrite with eff. unfold modify, set_rows. cbn. do 2 f_equal.
  rewrite alter_app_r_alt by done. by rewrite Nat.sub_diag.
Qed.
Lemma add_row_run {A} (cells : A → res (list (nat * value))) x t :
  add_row cells x t =
  match cells x with
  | Ok c => set_cells (length (rows t)) c (set_rows (rows t ++ [default_value <$> types t]) t)
  | Err e => (set_rows (rows t ++ [default_value <$> types t]) t, Err e)
  end.
Proof. unfold add_row. by destruct (cells x). Qed.
(** Rows that can be filled are added at the end in their order. *)
Lemma add_rows {A} (cells : A → res (list (nat * value))) (row : A → list value) ty l0 l :
  Forall (λ x, ∃ c, cells x = Ok c ∧ ∀ l1,
    set_cells (length l1) c (ListStore ty (l1 ++ [default_value <$> ty])) = (ListStore ty (l1 ++ [row x]), Ok ())) l →
  for_each (add_row cells) l (ListStore ty l0) = (ListStore ty (l0 ++ (row <$> l)), Ok ()).
Proof.
  intros Hl. revert l0. induction Hl as [|x l (c & Hc & Hset) Hl IH]; intros l0; [by rewrite app_nil_r|].
  cbn [for_each]. erewrite bind_run by (rewrite add_row_run, Hc; apply Hset).
  by rewrite IH, <-app_assoc.
Qed.
(** The first row that cannot be filled is left as it was made. *)
Lemma add_row_err {A} (cells : A → res (list (nat * value))) e x l t :
  cells x = Err e →
  for_each (add_row cells) (x :: l) t = (set_rows (rows t ++ [default_value <$> types t]) t, Err e).
Proof. intros Hx. cbn [for_each]. apply bind_run_err. by rewrite add_row_run, Hx. Qed.

Ltac fill_row :=
  apply add_rows, Forall_forall; intros; eexists; split; [reflexivity|]; intros;
  unfold set_cells; cbn [for_each default_value fmap list_fmap ipv4_columns olsr_columns ndn_columns];
  repeat (erewrite bind_run by (eapply set_cell_last; [reflexivity|];
    first [reflexivity | simpl; apply decide_True; match goal with H : _ |- _ => by apply H end])); done.

Lemma fill_ipv4 ip p l0 :
  c_int p.2 →
  for_each (add_row (ipv4_cells ip p.1.2 p.2)) p.1.1 (ListStore ipv4_columns l0) =
  (ListStore ipv4_columns (l0 ++ (ipv4_row ip p <$> p.1.1)), Ok ()).
Proof. intros Hp. fill_row. Qed.
Lemma fill_olsr ip l l0 :
  Forall (λ r, c_int (distance r)) l →
  for_each (add_row (olsr_cells (Some ip))) l (ListStore olsr_columns l0) =
  (ListStore olsr_columns (l0 ++ (olsr_row ip <$> l)), Ok ()).
Proof. rewrite Forall_forall. intros Hl. fill_row. Qed.
Lemma fill_fib l l0 :
  for_each (add_row fib_cells) l (ListStore ndn_columns l0) = (ListStore ndn_columns (l0 ++ (fib_row <$> l)), Ok ()).
Proof. fill_row. Qed.
Lemma fill_name l l0 :
  for_each (add_row name_cells) l (ListStore ndn_columns l0) = (ListStore ndn_columns (l0 ++ (name_row <$> l)), Ok ()).
Proof. fill_row. Qed.
Lemma fill_face l l0 :
  for_each (add_row face_cells) l (ListStore ndn_columns l0) = (ListStore ndn_columns (l0 ++ (face_row <$> l)), Ok ()).
Proof. fill_row. Qed.

Lemma fill_protocols ip ps l0 :
  Forall (λ p : list route * string * Z, c_int p.2) ps →
  for_each (λ p : list route * string * Z, for_each (add_row (ipv4_cells ip p.1.2 p.2)) p.1.1) ps
    (ListStore ipv4_columns l0) =
  (ListStore ipv4_columns (l0 ++ mjoin ((λ p, ipv4_row ip p <$> p.1.1) <$> ps)), Ok ()).
Proof.
  intros Hps. revert l0. induction Hps as [|p ps Hp Hps IH]; intros l0; [by rewrite app_nil_r|].
  cbn [for_each]. erewrite bind_run by (by apply fill_ipv4). rewrite IH. cbn [fmap list_fmap mjoin list_join].
  by rewrite <-app_assoc.
Qed.
Lemma c_protocols r :
  (∀ l, r = Ipv4ListRouting l → Forall (λ p, c_int p.2) l) →
  Forall (λ p : list route * string * Z, c_int p.2) (routing_protocols r).
Proof.
  intros Hr. destruct r as [[]|l]; simpl; try by constructor.
  apply Forall_forall. intros q (p & Hp & Hq)%list_elem_of_omap.
  specialize (Hr l eq_refl). rewrite Forall_forall in Hr. specialize (Hr p Hp).
  unfold list_protocol in Hq. destruct p as [pr z]; simpl in *. destruct pr; by simplify_eq.
Qed.

(** A table after an update, its row that could not be filled included. *)
Definition updated (k : table_kind) (node : ns_node) (t : list_store) (r : list_store * res unit) : Prop :=
  match contents k node with
  | Ok None => r = (t, Ok ())
  | Ok (Some l) => r = (ListStore (columns k) l, Ok ())
  | Err e => r = (t, Err e) ∨ r = (ListStore (columns k) [default_value <$> columns k], Err e)
  end.
Lemma update_table_contents k node t :
  types t = columns k → c_node node → updated k node t (update_table k node t).
Proof.
  intros Ht [Hip Holsr]. destruct t as [ty l0]. simpl in Ht. subst ty. unfold updated.
  destruct k; simpl.
  - unfold update_ipv4. destruct (node_ipv4 node) as [ip|] eqn:E; cbn; autorewrite with eff; [|by left].
    unfold ipv4_contents. destruct (GetRoutingProtocol ip) as [r|] eqn:Er; [|done].
    specialize (Hip ip). rewrite Er in Hip. pose proof (c_protocols r) as Hc.
    destruct (routing_protocols r) as [|p ps]; [done|]. rewrite decide_False by done.
    unfold clear. autorewrite with eff. apply (fill_protocols ip (p :: ps) []). apply Hc. naive_solver.
  - unfold update_olsr. destruct (node_olsr node) as [[|r l]|] eqn:E; [by destruct (node_ipv4 node)| |by destruct (node_ipv4 node)].
    unfold clear. autorewrite with eff.
    destruct (node_ipv4 node) as [ip|] eqn:Eip.
    + apply (fill_olsr ip (r :: l) []). by apply Holsr.
    + right. by rewrite (add_row_err _ AttributeError).
  - unfold update_fib. destruct (node_ndn node) as [fw|]; cbn; autorewrite with eff; [|by left].
    destruct (getFib fw); [apply (fill_fib _ [])|done].
  - unfold update_pit. destruct (node_ndn node) as [fw|]; cbn; autorewrite with eff; [|by left].
    destruct (getPit fw); [apply (fill_name _ [])|done].
  - unfold update_cs. destruct (node_ndn node) as [fw|]; cbn; autorewrite with eff; [|by left].
    destruct (getCs fw); [apply (fill_name _ [])|done].
  - unfold update_faces. destruct (node_ndn node) as [fw|]; cbn; autorewrite with eff; [|by left].
    apply (fill_face _ []).
Qed.

(** Every call keeps the rows of the types of their columns, whatever it raises. *)
Definition keeps_types {A} (m : tio A) : Prop :=
  ∀ t, well_typed t → types (m t).1 = types t ∧ well_typed (m t).1.
Lemma types_bind {A B} (m : tio A) (f : A → tio B) : keeps_types m → (∀ a, keeps_types (f a)) → keeps_types (m ≫= f).
Proof.
  intros Hm Hf t Ht. destruct (Hm t Ht) as [Hty Hwt]. unfold mbind, eff_bind.
  destruct (m t) as [t1 [a|e]]; simpl in *; [|done]. destruct (Hf a t1 Hwt) as [-> ?]. by rewrite <-Hty.
Qed.
Lemma types_pure {A} (r : res A) : keeps_types (lift_res r).
Proof. by intros t. Qed.
Lemma types_gets {A} (f : list_store → A) : keeps_types (gets f).
Proof. by intros t. Qed.
Lemma types_for_each {A} (body : A → tio unit) l : (∀ x, keeps_types (body x)) → keeps_types (for_each body l).
Proof. intros Hb. induction l; [apply (types_pure (Ok ()))|]. by apply types_bind. Qed.
Lemma types_clear : keeps_types clear.
Proof. intros t Ht. split; [done|]. constructor. Qed.
Lemma types_append : keeps_types append.
Proof.
  intros t Ht. split; [done|]. apply Forall_app. split; [done|]. constructor; [|constructor].
  simpl. induction (types t) as [|[] l IH]; constructor; auto.
Qed.
Lemma types_set_cell i c : keeps_types (set_cell i c).
Proof.
  intros t Ht. unfold set_cell. autorewrite with eff. destruct (types t !! c.1) as [ty|] eqn:Hty; [|done].
  destruct (fits ty c.2) as [[]|e] eqn:Hfit; autorewrite with eff; [|done]. split; [done|].
  apply Forall_alter; [done|]. intros r _ Hr. cbn in *. 
  rewrite <-(list_insert_id (types t) c.1 ty Hty). by apply Forall2_insert.
Qed.
Lemma types_add_row {A} (cells : A → res (list (nat * value))) x : keeps_types (add_row cells x).
Proof.
  apply types_bind; [apply types_append|]. intros i. apply types_bind; [apply types_pure|].
  intros c. apply types_for_each, types_set_cell.
Qed.
Lemma types_update_table k node : keeps_types (update_table k node).
Proof.
  assert (keeps_types (mret () : tio unit)) as Hret by apply (types_pure (Ok ())).
  destruct k; simpl; unfold update_ipv4, update_olsr, update_fib, update_pit, update_cs, update_faces, update_entries;
    repeat first [done | apply types_bind | apply types_pure | apply types_clear | apply types_for_each
      | apply types_add_row | intros ? | case_match].
Qed.

(** ** Information windows: core.py *)

(** [InformationWindow] of base.py: what core.py expects of a window. *)
Class InformationWindow (S W : Type) : Type := update : S → eff W exn unit.

(** [objects] are the windows that were made, in their order; [shown] are
    those on the screen, which the user can close. *)
Record gui (W : Type) := Gui {
  objects : list W; information_windows : list nat; shown : list nat; locked : bool;
}.
Arguments Gui {W} objects information_windows shown locked.
Arguments objects {W} _. Arguments information_windows {W} _.
Arguments shown {W} _. Arguments locked {W} _.

Section windows.
Context {S W : Type} `{IW : !InformationWindow S W}.
Abbreviation gio := (eff (gui W) exn).

Definition set_objects (l : list W) (g : gui W) : gui W := Gui l (information_windows g) (shown g) (locked g).
Definition set_windows (l : list nat) (g : gui W) : gui W := Gui (objects g) l (shown g) (locked g).
Definition set_shown (l : list nat) (g : gui W) : gui W := Gui (objects g) (information_windows g) l (locked g).
Definition set_locked (b : bool) (g : gui W) : gui W := Gui (objects g) (information_windows g) (shown g) b.

(** The lock is not reentrant: a second acquire does not return. *)
Definition acquire : gio unit := λ g, if locked g then (g, Err Diverges) else (set_locked true g, Ok ()).
(** [try: m; finally: lock.release()] *)
Definition finally_release {A} (m : gio A) : gio A := λ g,
  let '(g', r) := m g in (set_locked false g', r).
Definition with_lock {A} (m : gio A) : gio A := _ ← acquire; finally_release m.
(** [info_win.update()] *)
Definition update_window (s : S) (i : nat) : gio unit := λ g,
  match objects g !! i with
  | Some w => let '(w', r) := update s w in (set_objects (<[i := w']> (objects g)) g, r)
  | None => (g, Ok ())
  end.
Definition add_information_window (s : S) (i : nat) : gio unit :=
  _ ← modify (λ g, set_windows (information_windows g ++ [i]) g);
  with_lock (update_window s i).
Definition remove_information_window (i : nat) : gio unit :=
  l ← gets information_windows;
  match list_find (λ j, j = i) l with
  | None => throw (ValueError "list.remove(x): x not in list")
  | Some (n, _) => modify (set_windows (delete n l))
  end.
(** The constructor of a window: [w] is the window before its first update. *)
Definition open_window (s : S) (w : W) : gio unit :=
  i ← gets (λ g, length (objects g));
  _ ← modify (λ g, set_objects (objects g ++ [w]) g);
  _ ← add_information_window s i;
  modify (λ g, set_shown (shown g ++ [i]) g).
Definition _response_cb (i : nat) : gio unit :=
  _ ← modify (λ g, set_shown (filter (λ j, j ≠ i) (shown g)) g);
  remove_information_window i.
(** The part of [update_view] that updates the windows; the timeout that calls
    it holds the lock. *)
Definition update_information_windows (s : S) : gio unit :=
  l ← gets information_windows; for_each (update_window s) l.
Definition update_view_timeout (s : S) : gio unit := with_lock (update_information_windows s).

(** What the user and the timer do; the simulator has gone on in between.
    Only a window on the screen can be closed. *)
Inductive win_event : Type :=
| EvOpen (s : S) (w : W)
| EvResponse (i : nat)
| EvTimeout (s : S).
Definition handle (e : win_event) : gio unit :=
  match e with
  | EvOpen s w => open_window s w
  | EvResponse i => _response_cb i
  | EvTimeout s => update_view_timeout s
  end.
Definition possible (g : gui W) (e : win_event) : Prop :=
  match e with EvResponse i => i ∈ shown g | _ => True end.
(** An exception ends the handler and leaves the program running. *)
Definition win_step (P : win_event → Prop) (g g' : gui W) : Prop :=
  ∃ e, possible g e ∧ P e ∧ g' = (handle e g).1.
Definition no_windows : gui W := Gui [] [] [] false.

(** *** What the handlers keep *)

(** The windows listed are made, once each; those on the screen are listed;
    between the handlers the lock is free. *)
Record windows_ok (g : gui W) : Prop := {
  ok_lock : locked g = false;
  ok_nodup : NoDup (information_windows g);
  ok_made : ∀ i, i ∈ information_windows g → (i < length (objects g))%nat;
  ok_shown : ∀ i, i ∈ shown g → i ∈ information_windows g;
}.

(** How far an update of the windows [l] gets. *)
Definition refreshed (s : S) (l : list nat) (g : gui W) (r : gui W * res unit) : Prop :=
  ∃ dn rest, l = dn ++ rest ∧
    r.1 = set_objects (objects r.1) g ∧ length (objects r.1) = length (objects g) ∧
    (∀ i, i ∈ dn → ∃ w w', objects g !! i = Some w ∧ update s w = (w', Ok ()) ∧ objects r.1 !! i = Some w') ∧
    match r.2 with
    | Ok _ => rest = [] ∧ ∀ j, j ∉ dn → objects r.1 !! j = objects g !! j
    | Err e => ∃ i l2 w w', rest = i :: l2 ∧ objects g !! i = Some w ∧ update s w = (w', Err e) ∧
        objects r.1 !! i = Some w' ∧ ∀ j, j ∉ dn → j ≠ i → objects r.1 !! j = objects g !! j
    end.
Lemma update_window_run s i w g :
  objects g !! i = Some w →
  update_window s i g = (set_objects (<[i := (update s w).1]> (objects g)) g, (update s w).2).
Proof. intros Hi. unfold update_window. rewrite Hi. by destruct (update s w). Qed.
Lemma refreshed_all s l g :
  NoDup l → (∀ i, i ∈ l → (i < length (objects g))%nat) →
  refreshed s l g (for_each (update_window s) l g).
Proof.
  intros Hl. revert g. induction Hl as [|i l Hi Hl IH]; intros g Hg.
  { exists [], []. repeat split; [by destruct g|]. by intros i ?%not_elem_of_nil. }
  destruct (lookup_lt_is_Some_2 (objects g) i) as [w Hw]; [apply Hg; left|].
  pose proof (update_window_run s i w g Hw) as Hrun. destruct (update s w) as [w' [[]|e]] eqn:Hu; simpl in Hrun.
  - cbn [for_each]. rewrite (bind_run _ _ _ _ _ Hrun).
    destruct (IH (set_objects (<[i := w']> (objects g)) g)) as (dn & rest & Hl' & Hr1 & Hlen & Hdn & Hres).
    { intros j Hj. simpl. rewrite length_insert. apply Hg. by right. }
    set (r := for_each _ _ _) in *. clearbody r. simpl in Hlen. rewrite length_insert in Hlen.
    assert (i ∉ dn) as Hidn by (intros ?; apply Hi; rewrite Hl'; apply elem_of_app; by left).
    assert (∀ j, j ≠ i → objects (set_objects (<[i := w']> (objects g)) g) !! j = objects g !! j) as Hne
      by (intros; by apply list_lookup_insert_ne).
    exists (i :: dn), rest. split; [by rewrite Hl'|]. split; [done|]. split; [done|]. split.
    + intros j [->|Hj]%elem_of_cons.
      * exists w, w'. repeat split; try done.
        destruct (r.2) as [|e].
        -- destruct Hres as [_ Hres]. rewrite (Hres i Hidn). apply list_lookup_insert_eq. by eapply lookup_lt_Some.
        -- destruct Hres as (k & l2 & v & v' & -> & _ & _ & _ & Hres).
           assert (i ≠ k) by (intros ->; apply Hi; rewrite Hl'; set_solver).
           rewrite Hres by done. apply list_lookup_insert_eq. by eapply lookup_lt_Some.
      * destruct (Hdn j Hj) as (v & v' & Hv & Hv'). rewrite Hne in Hv by (by intros ->). eauto.
    + destruct (r.2) as [|e].
      * destruct Hres as [-> Hres]. split; [done|]. intros j Hj.
        rewrite Hres by set_solver. apply Hne. set_solver.
      * destruct Hres as (k & l2 & v & v' & -> & Hv & Hv' & Hk & Hres).
        assert (k ≠ i) by (intros ->; apply Hi; rewrite Hl'; set_solver). rewrite Hne in Hv by done.
        exists k, l2, v, v'. repeat split; try done. intros j Hj Hjk.
        rewrite Hres by set_solver. apply Hne. set_solver.
  - cbn [for_each]. rewrite (bind_run_err _ _ _ _ _ Hrun).
    exists [], (i :: l). repeat split; [simpl; by rewrite length_insert|by intros j ?%not_elem_of_nil|].
    exists i, l, w, w'. repeat split; try done.
    + apply list_lookup_insert_eq. by eapply lookup_lt_Some.
    + intros j _ Hj. by apply list_lookup_insert_ne.
Qed.
Lemma with_lock_run {A} (m : gio A) g :
  locked g = false →
  with_lock m g = (set_locked false (m (set_locked true g)).1, (m (set_locked true g)).2).
Proof.
  intros Hg. unfold with_lock, acquire, mbind, eff_bind. rewrite Hg. unfold finally_release. by destruct (m _).
Qed.
Lemma timeout_refreshed s g :
  windows_ok g → refreshed s (information_windows g) g (handle (EvTimeout s) g).
Proof.
  intros [Hlock Hnd Hmade _]. simpl. unfold update_view_timeout. rewrite with_lock_run by done.
  unfold update_information_windows. autorewrite with eff. simpl.
  destruct (refreshed_all s _ (set_locked true g) Hnd Hmade) as (dn & rest & Hl & Hr & Hrest).
  exists dn, rest. split; [done|]. split; [|done]. simpl. rewrite Hr. destruct g. simpl in *. by subst.
Qed.
Lemma open_run s w g :
  windows_ok g →
  handle (EvOpen s w) g =
  (Gui (objects g ++ [(update s w).1]) (information_windows g ++ [length (objects g)])
     (match (update s w).2 with Ok _ => shown g ++ [length (objects g)] | Err _ => shown g end) false,
   (update s w).2).
Proof.
  intros [Hlock _ _ _]. simpl. unfold open_window, add_information_window. autorewrite with eff.
  assert (∀ h : gui W, locked h = false → objects h = objects g ++ [w] →
    with_lock (update_window s (length (objects g))) h =
    (set_locked false (set_objects (objects g ++ [(update s w).1]) h), (update s w).2)) as Hup.
  { intros h Hh Ho. rewrite with_lock_run by done.
    rewrite (update_window_run s _ w) by (simpl; rewrite Ho; apply list_lookup_middle; lia).
    simpl. rewrite Ho. by rewrite insert_app_r_alt, Nat.sub_diag. }
  unfold mbind at 1, eff_bind at 1. autorewrite with eff. rewrite Hup by done.
  destruct ((update s w).2) as [[]|e]; by destruct g.
Qed.
Lemma list_find_remove i (l : list nat) :
  NoDup l → i ∈ l → ∃ n, list_find (λ j, j = i) l = Some (n, i) ∧ delete n l = filter (λ j, j ≠ i) l.
Proof.
  induction 1 as [|j l Hj Hl IH]; [by intros ?%not_elem_of_nil|]. intros Hi. cbn [list_find].
  rewrite filter_cons. destruct (decide (j = i)) as [->|Hne].
  - exists O. rewrite decide_False by naive_solver. split; [done|]. symmetry. apply filter_all.
    apply Forall_forall. intros x Hx ->. done.
  - destruct IH as (n & Hn & Hd); [set_solver|]. exists (Datatypes.S n). rewrite Hn.
    rewrite decide_True by done. split; [done|]. simpl. by f_equal.
Qed.
Lemma response_run i g :
  windows_ok g → i ∈ shown g →
  handle (EvResponse i) g =
  (Gui (objects g) (filter (λ j, j ≠ i) (information_windows g)) (filter (λ j, j ≠ i) (shown g)) false, Ok ()).
Proof.
  intros [Hlock Hnd _ Hshown] Hi. simpl. unfold _response_cb, remove_information_window. autorewrite with eff.
  destruct (list_find_remove i (information_windows g)) as (n & Hn & Hd); [done|by apply Hshown|].
  simpl. rewrite Hn. unfold modify, set_windows. simpl. by rewrite Hd, Hlock.
Qed.
Lemma handle_ok e g : windows_ok g → possible g e → windows_ok (handle e g).1.
Proof.
  intros Hg He. pose proof Hg as [Hlock Hnd Hmade Hshown]. destruct e as [s w|i|s].
  - rewrite open_run by done. constructor; simpl.
    + done.
    + apply NoDup_app. split; [done|]. split; [|apply NoDup_singleton].
      intros i Hi ->%list_elem_of_singleton. specialize (Hmade _ Hi). lia.
    + intros i Hi. rewrite length_app. simpl.
      apply elem_of_app in Hi as [Hi| ->%list_elem_of_singleton]; [specialize (Hmade _ Hi)|]; lia.
    + intros i Hi. destruct ((update s w).2); set_solver.
  - rewrite response_run by done. constructor; simpl; [done|by apply NoDup_filter| |].
    + intros j [_ Hj]%list_elem_of_filter. by apply Hmade.
    + intros j. rewrite !list_elem_of_filter. intros [? ?%Hshown]. done.
  - destruct (timeout_refreshed s g Hg) as (dn & rest & _ & Hr & Hlen & _).
    remember (handle (EvTimeout s) g).1 as g' eqn:E. clear E. rewrite Hr. constructor; simpl; [done|done| |done].
    intros i Hi. rewrite Hlen. by apply Hmade.
Qed.
Lemma steps_ok P g g' : rtc (win_step P) g g' → windows_ok g → windows_ok g'.
Proof. induction 1 as [|g g1 g' (e & He & _ & ->)]; [done|]. intros Hg. by apply IHrtc, handle_ok. Qed.
Lemma no_windows_ok : windows_ok no_windows.
Proof. constructor; simpl; [done|constructor|..]; by intros ? ?%not_elem_of_nil. Qed.

Lemma stop_before (dn l2 m1 m2 : list nat) k i j :
  NoDup (m1 ++ i :: m2) → dn ++ k :: l2 = m1 ++ i :: m2 → i ∉ dn → j ∈ m2 → (j ∉ dn) ∧ j ≠ k.
Proof.
  intros Hnd Heq Hi Hj. apply NoDup_app in Hnd as (_ & Hd & Hnd); apply NoDup_cons in Hnd as [Him _].
  apply app_eq_inv in Heq as [(z & -> & Hz)|(z & -> & Hz)]; destruct z; simplify_eq/=; set_solver.
Qed.

(** Whatever the user does and whatever updates raise, between handlers the
    lock is free, the listed windows were made and are listed once, every
    window on the screen is listed, and closing it raises nothing and takes
    exactly it off the list and the screen. *)
Theorem information_windows_ok P g :
  rtc (win_step P) no_windows g →
  windows_ok g ∧
  ∀ i, i ∈ shown g →
    handle (EvResponse i) g =
    (Gui (objects g) (filter (λ j, j ≠ i) (information_windows g)) (filter (λ j, j ≠ i) (shown g)) false, Ok ()).
Proof.
  intros Hrun. pose proof (steps_ok _ _ _ Hrun no_windows_ok) as Hg. split; [done|].
  intros i Hi. by apply response_run.
Qed.

(** *** A window whose first update raises *)

(** [bad] windows raise whenever the simulator is as in [Q], and stay bad. *)
Section stuck.
Variables (Q : S → Prop) (bad : W → Prop).
Hypothesis bad_raises : ∀ s w, Q s → bad w → ∃ w' e, update s w = (w', Err e) ∧ bad w'.
Definition in_Q (e : win_event) : Prop :=
  match e with EvOpen s _ | EvTimeout s => Q s | EvResponse _ => True end.
Definition stuck (i : nat) (g : gui W) : Prop :=
  i ∈ information_windows g ∧ (i ∉ shown g) ∧ (∃ w, objects g !! i = Some w ∧ bad w).

Lemma open_stuck s w g :
  windows_ok g → Q s → bad w → stuck (length (objects g)) (handle (EvOpen s w) g).1.
Proof.
  intros Hg Hs Hw. rewrite open_run by done. destruct (bad_raises s w Hs Hw) as (w' & e & -> & Hw').
  split_and!; simpl; [set_solver| |exists w'; split; [by apply list_lookup_middle|done]].
  intros Hi. apply (ok_shown _ Hg), (ok_made _ Hg) in Hi. lia.
Qed.
Lemma refreshed_stuck s i l g r :
  Q s → refreshed s l g r → i ∈ l → (∃ w, objects g !! i = Some w ∧ bad w) →
  (∃ w, objects r.1 !! i = Some w ∧ bad w) ∧ (∃ e, r.2 = Err e) ∧
  ∀ l1 l2 j, l = l1 ++ i :: l2 → NoDup l → j ∈ l2 → objects r.1 !! j = objects g !! j.
Proof.
  intros Hs (dn & rest & Hl & _ & _ & Hdn & Hres) Hi (w & Hw & Hbad).
  destruct (bad_raises s w Hs Hbad) as (w' & e & Hu & Hbad').
  assert (i ∉ dn) as Hidn by (intros (? & ? & ? & ? & ?)%Hdn; congruence).
  destruct (r.2) as [|e'].
  { destruct Hres as [-> _]. rewrite app_nil_r in Hl. by subst. }
  destruct Hres as (k & l2 & v & v' & -> & Hv & Huv & Hk & Hrest). split; [|split; [by eexists|]].
  - destruct (decide (i = k)) as [->|Hik]; [exists v'; by assert (v' = w') as -> by congruence|].
    exists w. by rewrite Hrest.
  - intros m1 m2 j Hm Hnd Hj. subst l.
    assert (j ≠ i) as Hji.
    { intros ->. rewrite Hm in Hnd. apply NoDup_app in Hnd as (_ & _ & Hnd). by apply NoDup_cons in Hnd as [? _]. }
    apply elem_of_app in Hi as [?|Hi]; [done|].
    destruct (stop_before dn l2 m1 m2 k i j) as [Hjd Hjk]; [by rewrite <-Hm|done..|]. by apply Hrest.
Qed.
Lemma stuck_step i e g :
  windows_ok g → possible g e → in_Q e → stuck i g → stuck i (handle e g).1.
Proof.
  intros Hg He HQ (Hi & Hsh & w & Hw & Hbad). destruct e as [s v|j|s].
  - rewrite open_run by done. pose proof (ok_made _ Hg _ Hi) as Hlt.
    split_and!; simpl; [set_solver| |exists w; by rewrite lookup_app_l].
    destruct ((update s v).2); [|done]. intros [?| ->%list_elem_of_singleton]%elem_of_app; [done|lia].
  - rewrite response_run by done. simpl in He.
    split_and!; simpl; [|by intros [_ ?]%list_elem_of_filter|by exists w].
    apply list_elem_of_filter. split; [by intros ->|done].
  - pose proof (timeout_refreshed s g Hg) as Hr.
    destruct (refreshed_stuck s i _ g _ HQ Hr Hi) as ((w' & Hw' & Hbad') & _); [by exists w|].
    destruct Hr as (_ & _ & _ & Hr & _). unfold stuck.
    remember (handle (EvTimeout s) g).1 as g' eqn:E. clear E. rewrite Hr. split_and!; [done..|]. by exists w'.
Qed.
(** An information window whose first update raises is listed but never
    comes on the screen, so it can never be closed, whatever the user does; as
    long as it raises every update of the view ends with an exception at it or
    before it, and no window that was opened later is updated again. *)
Theorem stuck_window g s w g' s' :
  windows_ok g → Q s → bad w →
  rtc (win_step in_Q) (handle (EvOpen s w) g).1 g' → Q s' →
  let i := length (objects g) in
  i ∈ information_windows g' ∧ (i ∉ shown g') ∧
  (∃ e, (handle (EvTimeout s') g').2 = Err e) ∧
  ∀ l1 l2 j, information_windows g' = l1 ++ i :: l2 → j ∈ l2 →
    objects (handle (EvTimeout s') g').1 !! j = objects g' !! j.
Proof.
  intros Hg Hs Hw Hrun Hs' i.
  assert (windows_ok g' ∧ stuck i g') as [Hg' (Hi & Hsh & Hbad)].
  { pose proof (open_stuck s w g Hg Hs Hw) as Hst. pose proof (handle_ok (EvOpen s w) g Hg I) as Hok.
    subst i. induction Hrun as [|x y z (e & He & HQ & ->) _ IH]; [done|].
    apply IH; [by apply stuck_step|by apply handle_ok]. }
  destruct (refreshed_stuck s' i _ g' _ Hs' (timeout_refreshed s' g' Hg') Hi Hbad) as (_ & He & Hlater).
  split_and!; [done..|]. intros l1 l2 j Hl. apply (Hlater l1 l2 j Hl), ok_nodup, Hg'.
Qed.
End stuck.

(** *** All windows *)

Lemma refreshed_cases s l g r j w' :
  refreshed s l g r → objects r.1 !! j = Some w' →
  objects g !! j = Some w' ∨ ∃ w, objects g !! j = Some w ∧ w' = (update s w).1.
Proof.
  intros (dn & rest & _ & _ & _ & Hdn & Hres) Hj. destruct (decide (j ∈ dn)) as [Hin|Hnin].
  { right. destruct (Hdn j Hin) as (w & w1 & Hw & Hu & Hw1). exists w. rewrite Hu. by simplify_eq. }
  destruct (r.2) as [|e]; [left; destruct Hres as [_ Hres]; by rewrite <-Hres|].
  destruct Hres as (i & l2 & w & w1 & _ & Hw & Hu & Hw1 & Hres). destruct (decide (j = i)) as [->|Hne].
  - right. exists w. rewrite Hu. by simplify_eq.
  - left. by rewrite <-Hres.
Qed.
(** What the windows are made with and what their updates keep holds of all. *)
Lemma steps_forall (P : win_event → Prop) (good : W → Prop) g g' :
  (∀ s w, good w → good (update s w).1) → (∀ s w, P (EvOpen s w) → good w) →
  rtc (win_step P) g g' → windows_ok g → (∀ i w, objects g !! i = Some w → good w) →
  ∀ i w, objects g' !! i = Some w → good w.
Proof.
  intros Hup Hnew. induction 1 as [|g g1 g' (e & He & HP & ->) _ IH]; [done|]. intros Hg Hall.
  apply IH; [by apply handle_ok|]. intros i w. destruct e as [s v|j|s].
  - rewrite open_run by done. simpl. intros [Hi|[_ Hi]]%lookup_app_Some; [by eapply Hall|].
    apply list_lookup_singleton_Some in Hi as [_ <-]. by eapply Hup, Hnew.
  - rewrite response_run by done. apply Hall.
  - intros [Hi|(v & Hv & ->)]%(refreshed_cases _ _ _ _ _ _ (timeout_refreshed s g Hg)); [by eapply Hall|].
    by eapply Hup, Hall.
Qed.
(** Where no update raises the timeout does not, and updates the listed windows. *)
Lemma timeout_all s g :
  windows_ok g → (∀ i w, i ∈ information_windows g → objects g !! i = Some w → (update s w).2 = Ok ()) →
  (handle (EvTimeout s) g).2 = Ok () ∧
  ∀ i w, objects g !! i = Some w →
    objects (handle (EvTimeout s) g).1 !! i = Some (if decide (i ∈ information_windows g) then (update s w).1 else w).
Proof.
  intros Hg Hall. destruct (timeout_refreshed s g Hg) as (dn & rest & Hl & _ & _ & Hdn & Hres).
  set (r := handle _ g) in *. clearbody r. destruct (r.2) as [[]|e].
  - destruct Hres as [-> Hres]. rewrite app_nil_r in Hl. subst dn. split; [done|]. intros i w Hi.
    case_decide as Hin; [|by rewrite Hres].
    destruct (Hdn i Hin) as (v & v' & Hv & Hu & ->). simplify_eq. by rewrite Hu.
  - destruct Hres as (i & l2 & w & w' & -> & Hw & Hu & _). specialize (Hall i w).
    rewrite Hu in Hall. assert (i ∈ information_windows g) by (rewrite Hl; set_solver). naive_solver.
Qed.
End windows.
Arguments win_event : clear implicits.
Arguments handle {S W IW} e.

(** ** The windows of the plugins *)

Record table_window := TableWindow { kind : table_kind; node_index : Z; table_model : list_store }.
#[export] Instance table_information_window : InformationWindow simulator table_window := λ s w,
  let '(t, r) := update_table (kind w) (s (node_index w)) (table_model w) in
  (TableWindow (kind w) (node_index w) t, r).
Definition new_table (k : table_kind) (i : Z) : table_window := TableWindow k i (ListStore (columns k) []).
Definition typed_window (w : table_window) : Prop :=
  types (table_model w) = columns (kind w) ∧ well_typed (table_model w).
(** The window with what its table shows of the node. *)
Definition shows (s : simulator) (w : table_window) : table_window :=
  match contents (kind w) (s (node_index w)) with
  | Ok (Some l) => TableWindow (kind w) (node_index w) (ListStore (columns (kind w)) l)
  | _ => w
  end.
Lemma update_typed (s : simulator) w : typed_window w → typed_window (update s w).1.
Proof.
  intros [Hty Hwt]. unfold update, table_information_window, typed_window.
  destruct (types_update_table (kind w) (s (node_index w)) _ Hwt) as [Hty' Hwt'].
  destruct (update_table _ _ _) as [t r]. simpl in *. by rewrite Hty'.
Qed.
Lemma new_typed k i : typed_window (new_table k i).
Proof. split; [done|constructor]. Qed.

Lemma update_shows (s : simulator) w :
  typed_window w → c_node (s (node_index w)) → is_ok (contents (kind w) (s (node_index w))) →
  update s w = (shows s w, Ok ()).
Proof.
  intros [Hty _] Hc Hok. pose proof (update_table_contents _ _ _ Hty Hc) as Hu. unfold updated in Hu.
  unfold update, table_information_window, shows.
  destruct (contents _ _) as [[l|]|e]; [by rewrite Hu|rewrite Hu; by destruct w|done].
Qed.
Lemma shows_typed (s : simulator) w :
  typed_window w → c_node (s (node_index w)) → is_ok (contents (kind w) (s (node_index w))) → typed_window (shows s w).
Proof. intros Hw Hc Hok. replace (shows s w) with (update s w).1 by (by rewrite update_shows). by apply update_typed. Qed.

(** ** Examples *)

Definition sample_ipv4 : ipv4 := {|
  GetNetDevice := λ i, if decide (i = 0) then None else Some (if decide (i = 1) then "eth" else "");
  GetRoutingProtocol := Some (Ipv4ListRouting
    [(Ipv4StaticRouting [{| GetDest := "10.1.1.0"; GetGateway := "0.0.0.0"; GetInterface := 1 |};
        {| GetDest := "127.0.0.0"; GetGateway := "0.0.0.0"; GetInterface := 0 |}], 0);
     (OtherRouting, 5);
     (Ipv4GlobalRouting [{| GetDest := "10.1.2.0"; GetGateway := "10.1.1.2"; GetInterface := 2 |}], -10)]);
|}.
(** Node 0 routes IP, node 1 has names of data only. *)
Definition sample_simulator : simulator := λ i,
  if decide (i = 0) then {| node_ipv4 := Some sample_ipv4; node_olsr := None; node_ndn := None |}
  else {| node_ipv4 := None; node_olsr := None;
          node_ndn := Some {|
            getFib := Some [("/data", [{| face := "netdev://"; face_id := 257; face_cost := 1 |};
                                       {| face := "internal://"; face_id := 1; face_cost := 0 |}])];
            getPit := Some []; getCs := None; getFaceTable := [(1, "internal://")] |} |}.
Example shows_routes :
  shows sample_simulator (new_table Ipv4Table 0) =
  TableWindow Ipv4Table 0 (ListStore ipv4_columns
    [[VStr "10.1.1.0"; VStr "0.0.0.0"; VStr "eth"; VStr "static"; VInt 0];
     [VStr "127.0.0.0"; VStr "0.0.0.0"; VStr "lo"; VStr "static"; VInt 0];
     [VStr "10.1.2.0"; VStr "10.1.1.2"; VStr "(interface 2)"; VStr "global"; VInt (-10)]]).
Proof. reflexivity. Qed.
Example shows_fib :
  shows sample_simulator (new_table FibTable 1) =
  TableWindow FibTable 1 (ListStore ndn_columns [[VStr "/data"; VStr "netdev://257 (1), internal://1 (0)"; VInt 0]]).
Proof. reflexivity. Qed.

Definition sample_gui : gui table_window :=
  (handle (EvOpen sample_simulator (new_table FibTable 1))
     (handle (EvOpen sample_simulator (new_table Ipv4Table 0)) no_windows).1).1.
Lemma sample_gui_reached : rtc (win_step (λ _, True)) no_windows sample_gui.
Proof.
  eapply rtc_l; [by exists (EvOpen sample_simulator (new_table Ipv4Table 0))|].
  apply rtc_once. by exists (EvOpen sample_simulator (new_table FibTable 1)).
Qed.

(** A window for the PIT of node 0, which has none: every node offers it. *)
Lemma stuck_window_witness :
  populate_node_menu (sample_simulator 0) PitTable = Some "Show NDN PIT" ∧
  ∃ e, (handle (EvTimeout sample_simulator) (handle (EvOpen sample_simulator (new_table PitTable 0)) no_windows).1).2 = Err e.
Proof.
  split; [reflexivity|].
  apply (stuck_window (λ s : simulator, node_ndn (s 0) = None) (λ w, kind w = PitTable ∧ node_index w = 0))
    with (g := no_windows) (s := sample_simulator) (w := new_table PitTable 0).
  - intros s w Hs [Hk Hi]. unfold update, table_information_window. rewrite Hk, Hi. simpl. unfold update_pit.
    rewrite Hs. simpl. eexists _, _. split; [reflexivity|done].
  - apply no_windows_ok.
  - reflexivity.
  - done.
  - apply rtc_refl.
  - reflexivity.
Defined.
Lemma information_windows_witness :
  handle (EvResponse 0) sample_gui = (Gui (objects sample_gui) [1%nat] [1%nat] false, Ok ()).
Proof. apply (information_windows_ok (λ _, True) sample_gui sample_gui_reached). left. Defined.
