(* ===== verification/VizPackets.v ===== *)
(** * visualizer/plugins/show_last_packets.py
    The window of the last packets of a node: the list of packet headers and
    trailers that it offers, the options that it sends to the helper of the
    simulator at every change, and its three tables; then all information
    windows together.  The registry of types and the packets that the helper
    kept are arguments. *)
From S2P Require Import Prelude PyStr VizTables.
From S2P Require VizFlows VizView.
#[local] Open Scope Z_scope.

(** ** The packet filter *)

(** [ns.core.TypeId]: the registered types in order; the root of the types has
    no parent. *)
Record registry := {
  registered : list Z; GetParent : Z → option Z; GetName : Z → string;
  LookupByName : string → Z;
}.
Record TypeIdConfig := { name : string; selected : bool; typeid : Z }.
(** [while 1:] from a type to its ancestors *)
Fixpoint type_is_good (fuel : nat) (r : registry) (Header Trailer typeid_tmp : Z) : res bool :=
  match fuel with
  | O => Err Diverges
  | S fuel =>
      if decide (typeid_tmp = Header ∨ typeid_tmp = Trailer) then Ok true
      else
        match GetParent r typeid_tmp with
        | Some p => type_is_good fuel r Header Trailer p
        | None => Ok false
        end
  end.
Fixpoint filter_configs (fuel : nat) (r : registry) (Header Trailer : Z) (l : list Z) : res (list TypeIdConfig) :=
  match l with
  | [] => Ok []
  | t :: l =>
      good ← type_is_good fuel r Header Trailer t;
      cs ← filter_configs fuel r Header Trailer l;
      Ok (if good && negb (bool_decide (t ∈ [Header; Trailer]))
          then {| name := GetName r t; selected := true; typeid := t |} :: cs else cs)
  end.
Definition packet_filter_list (fuel : nat) (r : registry) : res (list TypeIdConfig) :=
  filter_configs fuel r (LookupByName r "ns3::Header") (LookupByName r "ns3::Trailer") (registered r).

(** ** The window *)

Inductive capture_mode : Type := FILTER_HEADERS_AND | FILTER_HEADERS_OR.
Record PacketCaptureOptions := { mode : capture_mode; numLastPackets : Z; headers : list Z }.
(** [packet_capture_options] is [None] as long as its mode is not set. *)
Record ShowLastPackets := {
  packets_node : Z;
  configs : list TypeIdConfig;
  op_AND_active : bool;
  packet_capture_options : option PacketCaptureOptions;
  tx_list : list_store; rx_list : list_store; drop_list : list_store;
}.
#[export] Instance capture_mode_eq_dec : EqDecision capture_mode.
Proof. solve_decision. Defined.
#[export] Instance options_eq_dec : EqDecision PacketCaptureOptions.
Proof. solve_decision. Defined.

Definition with_configs (l : list TypeIdConfig) (w : ShowLastPackets) : ShowLastPackets :=
  {| packets_node := packets_node w; configs := l; op_AND_active := op_AND_active w;
     packet_capture_options := packet_capture_options w;
     tx_list := tx_list w; rx_list := rx_list w; drop_list := drop_list w |}.
Definition with_op (b : bool) (w : ShowLastPackets) : ShowLastPackets :=
  {| packets_node := packets_node w; configs := configs w; op_AND_active := b;
     packet_capture_options := packet_capture_options w;
     tx_list := tx_list w; rx_list := rx_list w; drop_list := drop_list w |}.
Definition with_options (o : option PacketCaptureOptions) (w : ShowLastPackets) : ShowLastPackets :=
  {| packets_node := packets_node w; configs := configs w; op_AND_active := op_AND_active w;
     packet_capture_options := o; tx_list := tx_list w; rx_list := rx_list w; drop_list := drop_list w |}.
Definition with_tables (tx rx dr : list_store) (w : ShowLastPackets) : ShowLastPackets :=
  {| packets_node := packets_node w; configs := configs w; op_AND_active := op_AND_active w;
     packet_capture_options := packet_capture_options w; tx_list := tx; rx_list := rx; drop_list := dr |}.
Definition select (b : bool) (c : TypeIdConfig) : TypeIdConfig :=
  {| name := name c; selected := b; typeid := typeid c |}.

(** The options that the widgets of a window stand for. *)
Definition chosen (w : ShowLastPackets) : PacketCaptureOptions :=
  {| mode := if op_AND_active w then FILTER_HEADERS_AND else FILTER_HEADERS_OR;
     numLastPackets := 100;
     headers := typeid <$> filter (λ c, selected c) (configs w) |}.

(** *** Its tables *)

Definition packet_columns : list gtype := [TStr; TStr; TStr; TStr].
(** A sample: its texts, and its device by number and name, if it has one. *)
Record packet_sample := { time : string; device : option (Z * string); size : Z; packet : string }.
Record LastPackets := {
  lastTransmittedPackets : list packet_sample; lastReceivedPackets : list packet_sample;
  lastDroppedPackets : list packet_sample;
}.
Definition sample_interface (s : packet_sample) : string :=
  match device s with
  | None => "(unknown)"
  | Some (i, name) => if decide (name = "") then "(interface " +:+ pretty i +:+ ")" else name
  end.
Definition packet_cells (s : packet_sample) : res (list (nat * value)) :=
  Ok [(0, VStr (time s)); (1, VStr (sample_interface s)); (2, VStr (pretty (size s))); (3, VStr (packet s))]%nat.
(** [PacketList.update] *)
Definition packet_list_update (l : list packet_sample) : tio unit :=
  _ ← clear; for_each (add_row packet_cells) l.

(** What the simulator and its helper answer. *)
Record viz_simulator := { sim_nodes : simulator; GetLastPackets : Z → LastPackets }.
Definition on_tx (m : tio unit) : eff ShowLastPackets exn unit :=
  zoom tx_list (λ t w, with_tables t (rx_list w) (drop_list w) w) m.
Definition on_rx (m : tio unit) : eff ShowLastPackets exn unit :=
  zoom rx_list (λ t w, with_tables (tx_list w) t (drop_list w) w) m.
Definition on_drop (m : tio unit) : eff ShowLastPackets exn unit :=
  zoom drop_list (λ t w, with_tables (tx_list w) (rx_list w) t w) m.
Definition update_packets (s : viz_simulator) : eff ShowLastPackets exn unit :=
  last_packets ← gets (λ w, GetLastPackets s (packets_node w));
  _ ← on_tx (packet_list_update (lastTransmittedPackets last_packets));
  _ ← on_rx (packet_list_update (lastReceivedPackets last_packets));
  on_drop (packet_list_update (lastDroppedPackets last_packets)).

(** ** All windows *)

(** The tables of the other plugins, and the windows of this one. *)
Abbreviation any_window := (table_window + ShowLastPackets)%type.
#[export] Instance any_information_window : InformationWindow viz_simulator any_window := λ s w,
  match w with
  | inl t => let '(t', r) := update (sim_nodes s) t in (inl t', r)
  | inr p => let '(p', r) := update_packets s p in (inr p', r)
  end.
(** The options that the helper keeps by node, with the windows. *)
Record visualizer := Visualizer { windows : gui any_window; capture_options : list (Z * PacketCaptureOptions) }.
Abbreviation pio := (eff visualizer exn).
Definition on_windows {A} (m : eff (gui any_window) exn A) : pio A :=
  zoom windows (λ g v, Visualizer g (capture_options v)) m.
(** A call of the helper under the lock. *)
Definition SetPacketCaptureOptions (node : Z) (o : PacketCaptureOptions) : pio unit :=
  _ ← on_windows acquire;
  _ ← modify (λ v, Visualizer (windows v) (dict_set (capture_options v) node o));
  on_windows (modify (set_locked false)).
Definition packets_window (i : nat) : pio (option ShowLastPackets) :=
  gets (λ v, match objects (windows v) !! i with Some (inr p) => Some p | _ => None end).
Definition put_packets_window (i : nat) (p : ShowLastPackets) : pio unit :=
  on_windows (modify (λ g, set_objects (<[i := inr p]> (objects g)) g)).
(** The closure [update_capture_options] of a window that is already made. *)
Definition update_capture_options (i : nat) : pio unit :=
  w ← packets_window i;
  match w with
  | Some p =>
      _ ← put_packets_window i (with_options (Some (chosen p)) p);
      SetPacketCaptureOptions (packets_node p) (chosen p)
  | None => mret ()
  end.
Definition change_configs (i : nat) (f : list TypeIdConfig → list TypeIdConfig) : pio unit :=
  w ← packets_window i;
  match w with Some p => put_packets_window i (with_configs (f (configs p)) p) | None => mret () end.
Definition sel_all_cb (i : nat) : pio unit :=
  _ ← change_configs i (fmap (select true)); update_capture_options i.
Definition sel_none_cb (i : nat) : pio unit :=
  _ ← change_configs i (fmap (select false)); update_capture_options i.
(** The widget has stored the new value of the cell. *)
Definition cell_edited (i j : nat) (b : bool) : pio unit :=
  _ ← change_configs i (alter (select b) j); update_capture_options i.
(** "toggled" of the button AND, which is set or unset by then. *)
Definition op_toggled (i : nat) (b : bool) : pio unit :=
  w ← packets_window i;
  match w with
  | Some p => _ ← put_packets_window i (with_op b p); update_capture_options i
  | None => mret ()
  end.
(** The constructor: the button OR is active, all types are selected. *)
Definition new_packets (node : Z) (cs : list TypeIdConfig) : ShowLastPackets :=
  let empty := ListStore packet_columns [] in
  {| packets_node := node; configs := cs; op_AND_active := false;
     packet_capture_options := None;
     tx_list := empty; rx_list := empty; drop_list := empty |}.
Definition show_last_packets (fuel : nat) (r : registry) (s : viz_simulator) (node : Z) : pio unit :=
  cs ← lift_res (packet_filter_list fuel r);
  let p := new_packets node cs in
  _ ← SetPacketCaptureOptions node (chosen p);
  on_windows (open_window s (inr (with_options (Some (chosen p)) p))).

(** Only the widgets of a window on the screen can be used. *)
Inductive viz_event : Type :=
| PWindow (e : win_event viz_simulator any_window)
| PShow (s : viz_simulator) (node : Z)
| PAll (i : nat) | PNone (i : nat) | PEdit (i j : nat) (b : bool) | PToggle (i : nat) (b : bool).
Definition packets_handle (fuel : nat) (r : registry) (e : viz_event) : pio unit :=
  match e with
  | PWindow e => on_windows (handle e)
  | PShow s node => show_last_packets fuel r s node
  | PAll i => sel_all_cb i
  | PNone i => sel_none_cb i
  | PEdit i j b => cell_edited i j b
  | PToggle i b => op_toggled i b
  end.
Definition packets_possible (v : visualizer) (e : viz_event) : Prop :=
  match e with
  | PWindow e => possible (windows v) e
  | PShow _ _ => True
  | PAll i | PNone i | PEdit i _ _ | PToggle i _ => i ∈ shown (windows v)
  end.
(** A table is opened from an entry of the menu of its node, which was made
    when the simulator was as in [s0]; a window of this plugin by its
    constructor. *)
Definition packets_allowed (e : viz_event) : Prop :=
  match e with
  | PWindow (EvOpen _ (inl t)) =>
      ∃ (s0 : simulator) k i, is_Some (populate_node_menu (s0 i) k) ∧ t = new_table k i
  | PWindow (EvOpen _ (inr _)) => False
  | _ => True
  end.
Definition no_visualizer : visualizer := Visualizer no_windows [].
Definition packets_step (fuel : nat) (r : registry) (v v' : visualizer) : Prop :=
  ∃ e, packets_possible v e ∧ packets_allowed e ∧ v' = (packets_handle fuel r e v).1.

(** ** The filter *)

(** [t] has [a] among its ancestors, or is it. *)
Definition descends (r : registry) (t a : Z) : Prop := rtc (λ x y, GetParent r x = Some y) t a.
(** The parents end: every step up lowers the rank. *)
Definition ranked (rank : Z → nat) (r : registry) : Prop := ∀ t p, GetParent r t = Some p → (rank p < rank t)%nat.
Lemma type_is_good_ok rank r H T fuel t :
  ranked rank r → (rank t < fuel)%nat →
  ∃ b, type_is_good fuel r H T t = Ok b ∧ (b ↔ descends r t H ∨ descends r t T).
Proof.
  intros Hr. revert t. induction fuel as [|fuel IH]; intros t Hf; [lia|]. cbn [type_is_good]. case_decide as Ht.
  { exists true. split; [done|]. split; [intros _|done]. destruct Ht as [->| ->]; [left|right]; apply rtc_refl. }
  destruct (GetParent r t) as [p|] eqn:Hp.
  - destruct (IH p) as (b & Hb & Hdesc); [apply Hr in Hp; lia|]. exists b. split; [done|]. rewrite Hdesc.
    assert (∀ a, t ≠ a → descends r t a ↔ descends r p a) as Hup.
    { intros a Hta. split; [|by apply rtc_l]. intros [?|(y & Hy & Hya)]%rtc_inv; [done|]. by simplify_eq. }
    rewrite !Hup by naive_solver. done.
  - exists false. split; [done|]. split; [done|].
    intros [Hd|Hd]; apply rtc_inv in Hd as [->|(y & Hy & _)]; try congruence; tauto.
Qed.
Definition config (r : registry) (t : Z) : TypeIdConfig := {| name := GetName r t; selected := true; typeid := t |}.

(** When the parents of types end, the window offers exactly the
    registered types that descend from the headers or the trailers, these two
    left out, in the order of registration, with their names and all selected;
    the search up the ancestors ends. *)
Theorem packet_filter_types fuel r rank :
  ranked rank r → Forall (λ t, rank t < fuel)%nat (registered r) →
  let H := LookupByName r "ns3::Header" in let T := LookupByName r "ns3::Trailer" in
  ∃ offered : Z → bool,
    packet_filter_list fuel r = Ok (config r <$> filter offered (registered r)) ∧
    ∀ t, t ∈ registered r → offered t ↔ (descends r t H ∨ descends r t T) ∧ t ≠ H ∧ t ≠ T.
Proof.
  intros Hr Hfuel H T.
  exists (λ t, (match type_is_good fuel r H T t with Ok b => b | Err _ => false end)
               && negb (bool_decide (t ∈ [H; T]))).
  unfold packet_filter_list. fold H T. induction Hfuel as [|t l Ht Hl [IH1 IH2]]; [by split; [|intros ? ?%not_elem_of_nil]|].
  destruct (type_is_good_ok rank r H T fuel t Hr Ht) as (b & Hb & Hdesc). split.
  - cbn [filter_configs]. rewrite Hb, IH1. simpl. rewrite filter_cons, Hb.
    by destruct b, (bool_decide (t ∈ [H; T])).
  - intros t' [->|Ht']%elem_of_cons; [|by apply IH2].
    rewrite Hb, andb_True, Hdesc, negb_True, bool_decide_spec. set_solver.
Qed.

(** ** The tables of packets *)

Definition packet_row (s : packet_sample) : list value :=
  [VStr (time s); VStr (sample_interface s); VStr (pretty (size s)); VStr (packet s)].
Definition packet_tables (p : ShowLastPackets) : Prop :=
  ∀ t, t ∈ [tx_list p; rx_list p; drop_list p] → types t = packet_columns.
Definition packet_table (l : list packet_sample) : list_store := ListStore packet_columns (packet_row <$> l).
Definition shows_packets (s : viz_simulator) (p : ShowLastPackets) : ShowLastPackets :=
  let l := GetLastPackets s (packets_node p) in
  with_tables (packet_table (lastTransmittedPackets l)) (packet_table (lastReceivedPackets l))
    (packet_table (lastDroppedPackets l)) p.
Lemma packet_list_run l t : types t = packet_columns → packet_list_update l t = (packet_table l, Ok ()).
Proof.
  intros Ht. destruct t as [ty l0]. simpl in Ht. subst ty. unfold packet_list_update, clear. autorewrite with eff.
  assert (for_each (add_row packet_cells) l (ListStore packet_columns []) =
    (ListStore packet_columns ([] ++ (packet_row <$> l)), Ok ())) as Hrun; [|exact Hrun].
  unfold packet_columns. fill_row.
Qed.
Lemma update_packets_run s p : packet_tables p → update_packets s p = (shows_packets s p, Ok ()).
Proof.
  intros Hp. unfold update_packets, on_tx, on_rx, on_drop, zoom. autorewrite with eff.
  unfold mbind, eff_bind. rewrite !packet_list_run; [done|apply Hp; set_solver..].
Qed.

(** What a window shows when nothing raises. *)
Definition shows_any (s : viz_simulator) (w : any_window) : any_window :=
  match w with inl t => inl (shows (sim_nodes s) t) | inr p => inr (shows_packets s p) end.
Definition readable (s : viz_simulator) (w : any_window) : Prop :=
  match w with
  | inl t => is_ok (contents (kind t) (sim_nodes s (node_index t)))
  | inr _ => True
  end.
Definition typed_any (w : any_window) : Prop :=
  match w with inl t => typed_window t | inr p => packet_tables p end.
Lemma update_any s w :
  typed_any w → (∀ i, c_node (sim_nodes s i)) → readable s w → update s w = (shows_any s w, Ok ()).
Proof.
  intros Hw Hc Hr. destruct w as [t|p]; unfold update, any_information_window.
  - by rewrite update_shows.
  - by rewrite update_packets_run.
Qed.
Lemma update_any_typed s w : typed_any w → typed_any (update s w).1.
Proof.
  intros Hw. destruct w as [t|p]; unfold update, any_information_window.
  - pose proof (update_typed (sim_nodes s) t Hw). by destruct (update (sim_nodes s) t).
  - rewrite update_packets_run by done. intros t. set_solver.
Qed.

(** ** What the helper is told *)

Definition options_of (v : visualizer) (n : Z) : option PacketCaptureOptions := dict_get (capture_options v) n.
(** The node of a window of packets, what its widgets stand for and what it sent last. *)
Definition sent (w : any_window) : option (Z * PacketCaptureOptions * option PacketCaptureOptions) :=
  match w with inl _ => None | inr p => Some (packets_node p, chosen p, packet_capture_options p) end.
Record captures_ok (v : visualizer) : Prop := {
  cap_windows : windows_ok (windows v);
  cap_typed : ∀ i w, objects (windows v) !! i = Some w → typed_any w;
  cap_sent : ∀ i w n c o, objects (windows v) !! i = Some w → sent w = Some (n, c, o) →
    o = Some c ∧ is_Some (options_of v n);
  cap_from : ∀ n c, options_of v n = Some c →
    ∃ i w, objects (windows v) !! i = Some w ∧ sent w = Some (n, c, Some c);
}.
Lemma SetPacketCaptureOptions_run n o v :
  locked (windows v) = false →
  SetPacketCaptureOptions n o v = (Visualizer (windows v) (dict_set (capture_options v) n o), Ok ()).
Proof.
  intros Hv. unfold SetPacketCaptureOptions, on_windows, zoom, acquire, mbind, eff_bind. rewrite Hv. simpl.
  destruct v as [[]]. simpl in *. by subst.
Qed.
(** A window of packets after a change of its widgets. *)
Definition touched (i : nat) (f : ShowLastPackets → ShowLastPackets) (v : visualizer) : visualizer :=
  match objects (windows v) !! i with
  | Some (inr p) =>
      Visualizer (set_objects (<[i := inr (with_options (Some (chosen (f p))) (f p))]> (objects (windows v))) (windows v))
        (dict_set (capture_options v) (packets_node (f p)) (chosen (f p)))
  | _ => v
  end.
Lemma update_capture_run i v :
  locked (windows v) = false → update_capture_options i v = (touched i id v, Ok ()).
Proof.
  intros Hv. unfold update_capture_options, packets_window, touched. autorewrite with eff.
  destruct (objects (windows v) !! i) as [[t|p]|]; [done| |done].
  unfold put_packets_window, on_windows, zoom, modify. unfold mbind, eff_bind.
  by rewrite SetPacketCaptureOptions_run.
Qed.
Lemma touched_put i f v p :
  objects (windows v) !! i = Some (inr p) →
  touched i id (Visualizer (set_objects (<[i := inr (f p)]> (objects (windows v))) (windows v)) (capture_options v)) =
  touched i f v.
Proof.
  intros Hi. unfold touched. simpl. rewrite Hi, list_lookup_insert_eq by (by eapply lookup_lt_Some).
  unfold set_objects. simpl. by rewrite list_insert_insert_eq.
Qed.
Definition widget_event (e : viz_event) : option (nat * (ShowLastPackets → ShowLastPackets)) :=
  match e with
  | PAll i => Some (i, λ p, with_configs (select true <$> configs p) p)
  | PNone i => Some (i, λ p, with_configs (select false <$> configs p) p)
  | PEdit i j b => Some (i, λ p, with_configs (alter (select b) j (configs p)) p)
  | PToggle i b => Some (i, with_op b)
  | _ => None
  end.
Lemma widget_run fuel r e i f v :
  widget_event e = Some (i, f) → locked (windows v) = false →
  packets_handle fuel r e v = (touched i f v, Ok ()).
Proof.
  intros He Hv. destruct e; simpl in He; simplify_eq; simpl;
    unfold sel_all_cb, sel_none_cb, cell_edited, op_toggled, change_configs, packets_window;
    unfold mbind, eff_bind, gets; destruct (objects (windows v) !! i) as [[t|p]|] eqn:Hi.
  all: unfold put_packets_window, on_windows, zoom, modify; rewrite ?update_capture_run by done.
  all: try match goal with |- _ = (touched ?i ?f ?v, _) => by rewrite <-(touched_put i f v p Hi) end.
  all: unfold mret, eff_ret; rewrite ?update_capture_run by done; unfold touched; by rewrite !Hi.
Qed.
Lemma sent_update s w : typed_any w → sent (update s w).1 = sent w.
Proof.
  intros Hw. destruct w as [t|p]; unfold update, any_information_window.
  - by destruct (update (sim_nodes s) t).
  - by rewrite update_packets_run.
Qed.
(** What an event on the windows must keep for the helper to agree with them. *)
Lemma captures_windows v g' :
  captures_ok v → windows_ok g' →
  (∀ i w, objects g' !! i = Some w → typed_any w) →
  (∀ i w', objects g' !! i = Some w' → sent w' = None ∨ ∃ w, objects (windows v) !! i = Some w ∧ sent w' = sent w) →
  (∀ i w, objects (windows v) !! i = Some w → ∃ w', objects g' !! i = Some w' ∧ sent w' = sent w) →
  captures_ok (Visualizer g' (capture_options v)).
Proof.
  intros Hv Hg Htyped Hback Hforth. constructor; simpl; [done|done| |].
  - intros i w n c o Hi Hs. destruct (Hback i w Hi) as [Hn|(w0 & Hw0 & Hs0)]; [congruence|].
    apply (cap_sent v Hv i w0 n c o Hw0). congruence.
  - intros n c Hc. destruct (cap_from v Hv n c Hc) as (i & w & Hw & Hs).
    destruct (Hforth i w Hw) as (w' & Hw' & Hs'). exists i, w'. by rewrite Hs'.
Qed.
Lemma window_event_ok e v :
  captures_ok v → possible (windows v) e → packets_allowed (PWindow e) →
  captures_ok (Visualizer (handle e (windows v)).1 (capture_options v)).
Proof.
  intros Hv He Hal. pose proof (cap_windows v Hv) as Hg. pose proof (handle_ok e _ Hg He) as Hg'.
  destruct e as [s [t|p]|i|s]; [|done| |].
  - destruct Hal as (_ & k & n & _ & ->). rewrite open_run in * by done. simpl.
    set (w := (update s (inl (new_table k n) : any_window)).1) in *.
    assert (sent w = None) as Hw by (subst w; by rewrite sent_update by apply new_typed).
    assert (typed_any w) as Htw by (apply update_any_typed, new_typed). clearbody w.
    apply captures_windows; simpl; [done|done|..].
    + intros i w' [Hi|[_ Hi]]%lookup_app_Some; [by eapply cap_typed|].
      by apply list_lookup_singleton_Some in Hi as [_ <-].
    + intros i w' [Hi|[_ Hi]]%lookup_app_Some; [right; eauto|].
      left. by apply list_lookup_singleton_Some in Hi as [_ <-].
    + intros i w' Hi. exists w'. split; [by apply lookup_app_l_Some|done].
  - rewrite response_run in * by done. simpl in *.
    apply captures_windows; simpl; [done|done|by apply cap_typed|eauto|eauto].
  - pose proof (timeout_refreshed s _ Hg) as Hr.
    assert (∀ j w', objects (handle (EvTimeout s) (windows v)).1 !! j = Some w' →
      ∃ w, objects (windows v) !! j = Some w ∧ sent w' = sent w ∧ typed_any w') as Hcase.
    { intros j w' [Hj|(w & Hj & ->)]%(refreshed_cases _ _ _ _ _ _ Hr).
      - exists w'. pose proof (cap_typed v Hv j w' Hj). done.
      - exists w. pose proof (cap_typed v Hv j w Hj) as Hw.
        split; [done|]. split; [by apply sent_update|by apply update_any_typed]. }
    destruct Hr as (_ & _ & _ & _ & Hlen & _).
    apply captures_windows; [done|done|..].
    + intros i w (w0 & _ & _ & ?)%Hcase. done.
    + intros i w (w0 & ? & ? & _)%Hcase. right. eauto.
    + intros i w Hi. destruct (lookup_lt_is_Some_2 (objects (handle (EvTimeout s) (windows v)).1) i) as [w' Hw'].
      { rewrite Hlen. by eapply lookup_lt_Some. }
      exists w'. split; [done|]. apply Hcase in Hw' as (w0 & ? & ? & _). by simplify_eq.
Qed.
Lemma show_run fuel r s node v cs :
  captures_ok v → packet_filter_list fuel r = Ok cs →
  show_last_packets fuel r s node v =
  let p := with_options (Some (chosen (new_packets node cs))) (new_packets node cs) in
  (Visualizer (Gui (objects (windows v) ++ [inr (shows_packets s p)])
       (information_windows (windows v) ++ [length (objects (windows v))])
       (shown (windows v) ++ [length (objects (windows v))]) false)
     (dict_set (capture_options v) node (chosen (new_packets node cs))), Ok ()).
Proof.
  intros Hv Hcs. unfold show_last_packets. rewrite Hcs, bind_lift_ok.
  erewrite bind_run by (apply SetPacketCaptureOptions_run, ok_lock, cap_windows, Hv).
  unfold on_windows, zoom. simpl windows.
  pose proof (open_run s (inr (with_options (Some (chosen (new_packets node cs))) (new_packets node cs)) : any_window)
    (windows v) (cap_windows v Hv)) as Hrun. simpl in Hrun. rewrite Hrun.
  unfold update, any_information_window.
  rewrite update_packets_run; [done|]. intros t. set_solver.
Qed.
Lemma show_ok fuel r s node v : captures_ok v → captures_ok (show_last_packets fuel r s node v).1.
Proof.
  intros Hv. destruct (packet_filter_list fuel r) as [cs|e] eqn:Hcs; cycle 1.
  { unfold show_last_packets. by rewrite Hcs. }
  rewrite (show_run _ _ _ _ _ _ Hv Hcs). set (p := with_options _ _). simpl.
  set (c := chosen (new_packets node cs)) in *. destruct Hv as [Hg Htyped Hsent Hfrom].
  assert (sent (inr (shows_packets s p)) = Some (node, c, Some c)) as Hp by done.
  constructor; simpl.
  - pose proof (handle_ok (EvOpen s (inr p : any_window)) (windows v) Hg I) as Hok. rewrite open_run in Hok by done.
    unfold update, any_information_window in Hok.
    rewrite update_packets_run in Hok by (intros t; set_solver). done.
  - intros i w [Hi|[_ Hi]]%lookup_app_Some; [by eapply Htyped|].
    apply list_lookup_singleton_Some in Hi as [_ <-]. intros t. set_solver.
  - intros i w n c' o [Hi|[_ Hi]]%lookup_app_Some Hw; unfold options_of; simpl; rewrite dict_get_set.
    + destruct (Hsent i w n c' o Hi Hw) as [-> ?]. by case_decide.
    + apply list_lookup_singleton_Some in Hi as [_ <-]. rewrite Hp in Hw. simplify_eq. by rewrite decide_True.
  - intros n c'. unfold options_of. simpl. rewrite dict_get_set. case_decide as Hn.
    + intros [= <-]. subst n. exists (length (objects (windows v))), (inr (shows_packets s p)).
      split; [by apply list_lookup_middle|done].
    + intros Hc. destruct (Hfrom n c' Hc) as (i & w & Hw & Hs). exists i, w.
      split; [by apply lookup_app_l_Some|done].
Qed.
Lemma touched_ok i f v :
  captures_ok v →
  (∀ p, packets_node (f p) = packets_node p ∧ (packet_tables p → packet_tables (f p))) →
  captures_ok (touched i f v).
Proof.
  intros Hv Hf. unfold touched. destruct (objects (windows v) !! i) as [[t|p]|] eqn:Hi; try done.
  destruct (Hf p) as [Hnode Htab]. destruct Hv as [[Hlock Hnd Hmade Hshown] Htyped Hsent Hfrom].
  set (w' := inr (with_options (Some (chosen (f p))) (f p)) : any_window).
  assert (sent w' = Some (packets_node (f p), chosen (f p), Some (chosen (f p)))) as Hw' by done.
  assert (objects (windows v) !! i = Some (inr p)) as Hlook by done.
  constructor; simpl.
  - constructor; simpl; try done. intros j Hj. rewrite length_insert. by apply Hmade.
  - intros j w [(<- & <- & _)|[_ Hj]]%list_lookup_insert_Some; [|by eapply Htyped].
    apply Htab, (Htyped i _ Hi).
  - intros j w n c o [(<- & <- & _)|[Hij Hj]]%list_lookup_insert_Some Hw; unfold options_of; simpl; rewrite dict_get_set.
    + rewrite Hw' in Hw. simplify_eq. by rewrite decide_True.
    + destruct (Hsent j w n c o Hj Hw) as [-> ?]. by case_decide.
  - intros n c. unfold options_of. simpl. rewrite dict_get_set. case_decide as Hn.
    + intros [= <-]. exists i, w'. subst n. split; [|done]. apply list_lookup_insert_eq. by eapply lookup_lt_Some.
    + intros Hc. destruct (Hfrom n c Hc) as (j & w & Hw & Hs). exists j, w. split; [|done].
      rewrite list_lookup_insert_ne; [done|]. intros ->. rewrite Hi in Hw. simplify_eq. simpl in Hs. naive_solver.
Qed.
Lemma packets_handle_ok fuel r e v :
  captures_ok v → packets_possible v e → packets_allowed e → captures_ok (packets_handle fuel r e v).1.
Proof.
  intros Hv He Hal. pose proof (ok_lock _ (cap_windows v Hv)) as Hlock.
  destruct (widget_event e) as [[i f]|] eqn:Hw.
  - rewrite (widget_run _ _ _ _ _ _ Hw Hlock). apply touched_ok; [done|].
    intros p. by destruct e; simpl in Hw; simplify_eq.
  - destruct e as [e|s node| | | |]; try done; [|by apply show_ok].
    pose proof (window_event_ok e v Hv He Hal) as Hok. simpl. unfold on_windows, zoom.
    by destruct (handle e (windows v)).
Qed.
Lemma packets_steps_ok fuel r v v' : rtc (packets_step fuel r) v v' → captures_ok v → captures_ok v'.
Proof. induction 1 as [|v v1 v' (e & He & Hal & ->)]; [done|]. intros Hv. by apply IHrtc, packets_handle_ok. Qed.
Lemma no_visualizer_ok : captures_ok no_visualizer.
Proof. constructor; simpl; [apply no_windows_ok|by intros..]. Qed.

(** C23: Whatever windows are opened, used and closed and whatever updates
    raised: every window of packets has sent the options that its widgets
    stand for; the options that the helper has for a node are those of one of
    its windows; and a change of any widget raises nothing, tells the helper
    what all widgets of that window now stand for, and nothing about other nodes. *)
Theorem capture_options_follow fuel r v :
  rtc (packets_step fuel r) no_visualizer v →
  (∀ i p, objects (windows v) !! i = Some (inr p) →
     packet_capture_options p = Some (chosen p) ∧ is_Some (options_of v (packets_node p))) ∧
  (∀ n c, options_of v n = Some c →
     ∃ i p, objects (windows v) !! i = Some (inr p) ∧ packets_node p = n ∧ chosen p = c) ∧
  (∀ e i f p, widget_event e = Some (i, f) → objects (windows v) !! i = Some (inr p) →
     (packets_handle fuel r e v).2 = Ok () ∧
     ∀ n, options_of (packets_handle fuel r e v).1 n =
       if decide (packets_node p = n) then Some (chosen (f p)) else options_of v n).
Proof.
  intros Hrun. pose proof (packets_steps_ok _ _ _ _ Hrun no_visualizer_ok) as Hv. split_and!.
  - intros i p Hi. by apply (cap_sent v Hv i (inr p)).
  - intros n c Hc. destruct (cap_from v Hv n c Hc) as (i & [t|p] & Hi & Hs); simpl in Hs; simplify_eq. eauto.
  - intros e i f p He Hi. rewrite (widget_run _ _ _ _ _ _ He (ok_lock _ (cap_windows v Hv))).
    split; [done|]. intros n. unfold touched, options_of. rewrite Hi. simpl. rewrite dict_get_set.
    assert (packets_node (f p) = packets_node p) as -> by (by destruct e; simpl in He; simplify_eq). done.
Qed.

(** C24: Whatever was opened and used, an update of the view, when every listed
    table has what it shows, raises nothing and leaves in every listed window
    exactly what the simulator says of its node, or its table as it was when
    there is nothing to read; other windows and the options stay as they are.
    The rows of the tables have the types of their columns at any time. *)
Theorem windows_refreshed fuel r v s :
  rtc (packets_step fuel r) no_visualizer v →
  (∀ i t, objects (windows v) !! i = Some (inl t) → typed_window t) ∧
  ((∀ i, c_node (sim_nodes s i)) →
   (∀ i w, i ∈ information_windows (windows v) → objects (windows v) !! i = Some w → readable s w) →
   let out := packets_handle fuel r (PWindow (EvTimeout s)) v in
   out.2 = Ok () ∧ capture_options out.1 = capture_options v ∧
   ∀ i w, objects (windows v) !! i = Some w →
     objects (windows out.1) !! i =
       Some (if decide (i ∈ information_windows (windows v)) then shows_any s w else w)).
Proof.
  intros Hrun. pose proof (packets_steps_ok _ _ _ _ Hrun no_visualizer_ok) as [Hg Htyped _ _].
  split; [intros i t Hi; exact (Htyped i _ Hi)|]. intros Hc Hread. simpl. unfold on_windows, zoom.
  destruct (timeout_all s (windows v) Hg) as [Hr Hobj].
  { intros i w Hi Hw. by rewrite update_any by eauto. }
  destruct (handle (EvTimeout s) (windows v)) as [g' r'] eqn:E. simpl in *. rewrite E. simpl.
  split; [done|]. split; [done|]. intros i w Hw. rewrite (Hobj i w Hw).
  case_decide; [by rewrite update_any by eauto|done].
Qed.

(** ** A window of ndnSIM on a node without it
    In a build of ns-3 without assertions: with them [getL3Protocol] aborts the
    program at the first update of such a window. *)

Definition ndn_kind (k : table_kind) : bool :=
  match k with FibTable | PitTable | CsTable | FacesTable => true | _ => false end.
Definition without_ndn (n : Z) (s : viz_simulator) : Prop := node_ndn (sim_nodes s n) = None.
Definition ndn_window (n : Z) (w : any_window) : Prop :=
  match w with inl t => ndn_kind (kind t) ∧ node_index t = n | inr _ => False end.
Lemma ndn_raises n s w :
  without_ndn n s → ndn_window n w → ∃ w' e, update s w = (w', Err e) ∧ ndn_window n w'.
Proof.
  destruct w as [[k i t]|p]; [|done]. intros Hs [Hk Hi]. simpl in Hk, Hi. subst i.
  exists (inl (TableWindow k n t)), AttributeError. split; [|done].
  unfold update, any_information_window, update, table_information_window. simpl.
  by destruct k; try done; simpl; unfold update_fib, update_pit, update_cs, update_faces; rewrite Hs.
Qed.
(** The events while node [n] has no ndnSIM. *)
Definition still_without (n : Z) (e : viz_event) : Prop :=
  match e with
  | PWindow e => in_Q (without_ndn n) e
  | PShow s _ => without_ndn n s
  | _ => True
  end.
Definition quiet_step (fuel : nat) (r : registry) (n : Z) (v v' : visualizer) : Prop :=
  ∃ e, packets_possible v e ∧ packets_allowed e ∧ still_without n e ∧ v' = (packets_handle fuel r e v).1.
Lemma quiet_stuck fuel r n i e v :
  captures_ok v → packets_possible v e → packets_allowed e → still_without n e →
  stuck (ndn_window n) i (windows v) → stuck (ndn_window n) i (windows (packets_handle fuel r e v).1).
Proof.
  intros Hv He Hal HQ Hst. pose proof (cap_windows v Hv) as Hg.
  assert (∀ e', possible (windows v) e' → in_Q (without_ndn n) e' → stuck (ndn_window n) i (handle e' (windows v)).1) as Hstep.
  { intros e' He' HQ'. by apply (stuck_step (without_ndn n) (ndn_window n) (ndn_raises n)). }
  destruct (widget_event e) as [[j f]|] eqn:Hw.
  - rewrite (widget_run _ _ _ _ _ _ Hw (ok_lock _ Hg)). unfold touched. simpl.
    destruct (objects (windows v) !! j) as [[t|p]|] eqn:Hj; try done.
    destruct Hst as (Hi & Hsh & w & Hlook & Hbad). split_and!; [done|done|]. exists w. split; [|done]. simpl.
    rewrite list_lookup_insert_ne; [done|]. intros ->. rewrite Hj in Hlook. by simplify_eq.
  - destruct e as [e|s node| | | |]; try done.
    + simpl. unfold on_windows, zoom. specialize (Hstep e He HQ). by destruct (handle e (windows v)).
    + simpl. destruct (packet_filter_list fuel r) as [cs|e] eqn:Hcs.
      * rewrite (show_run _ _ _ _ _ _ Hv Hcs). simpl.
        specialize (Hstep (EvOpen s (inr (with_options (Some (chosen (new_packets node cs))) (new_packets node cs)))) I HQ).
        rewrite open_run in Hstep by done. unfold update, any_information_window in Hstep.
        by rewrite update_packets_run in Hstep by (intros t; set_solver).
      * unfold show_last_packets. by rewrite Hcs.
Qed.

(** The flows, all but the positions of the nodes. *)
Definition frozen {A} (m : VizView.vio A) : Prop :=
  ∀ v, ∃ sc, VizView.flow (m v).1 = VizFlows.set_f_scene sc (VizView.flow v).
Lemma frozen_same {A} (m : VizView.vio A) : (∀ v, VizView.flow (m v).1 = VizView.flow v) → frozen m.
Proof. intros Hm v. exists (VizFlows.f_scene (VizView.flow v)). rewrite Hm. by destruct (VizView.flow v). Qed.
Lemma frozen_bind {A B} (m : VizView.vio A) (f : A → VizView.vio B) : frozen m → (∀ a, frozen (f a)) → frozen (m ≫= f).
Proof.
  intros Hm Hf v. destruct (Hm v) as [sc Hsc]. unfold mbind, eff_bind.
  destruct (m v) as [v1 [a|e]]; simpl in *; [|by exists sc]. destruct (Hf a v1) as [sc' ->].
  exists sc'. by rewrite Hsc.
Qed.
Section composed.
Context `{VizFlows.VizLib} (clamp_h clamp_v : PyFloat.float → PyFloat.float).
Lemma frozen_positions : frozen (VizView._update_node_positions clamp_h clamp_v).
Proof.
  intros v. unfold VizView._update_node_positions, VizView.for_nodes.
  generalize ((VizNodes.nodes (VizView.views v)).*1). intros l.
  revert v. change (frozen (for_each (VizView.update_node_position clamp_h clamp_v) l)).
  induction l as [|i l IH]; [by apply frozen_same|]. apply frozen_bind; [|done].
  unfold VizView.update_node_position. apply frozen_bind.
  { apply frozen_same. intros v. unfold VizView.has_mobility. by destruct (dict_get _ _). }
  intros [|]; [|by apply frozen_same]. apply frozen_bind; [by apply frozen_same|].
  intros [[px py]|]; [|by apply frozen_same]. destruct (VizNodes.transform_point_simulation_to_canvas px py).
  apply frozen_bind; [intros v; by eexists|]. intros _. apply frozen_bind; [by apply frozen_same|]. intros follow.
  case_decide; [|by apply frozen_same]. unfold VizView.center_on, VizView.set_scroll.
  apply frozen_bind; [by apply frozen_same|]. intros c. apply frozen_bind; [by apply frozen_same|]. intros b.
  destruct (VizFlows.convert_to_pixels _ _ _ _). by apply frozen_same.
Qed.

(** [update_view], which meets the exception of an information window. *)
Definition raised (r : res unit) : option exn := match r with Err e => Some e | Ok _ => None end.

(** Every node offers the windows of ndnSIM.  In a build without assertions, once
    one was opened on a node without ndnSIM it stays listed and off the screen whatever the user does;
    every update of the view then raises and, from the flows, moves nothing but
    the nodes: no arrow, sample or pool of arrows changes, and the windows
    that were opened after it are not updated. *)
Theorem ndn_window_stops_view fuel r v n k s v' s' (view : VizView.viz) :
  rtc (packets_step fuel r) no_visualizer v →
  ndn_kind k → without_ndn n s → without_ndn n s' →
  let i := length (objects (windows v)) in
  rtc (quiet_step fuel r n) (packets_handle fuel r (PWindow (EvOpen s (inl (new_table k n)))) v).1 v' →
  is_Some (populate_node_menu (sim_nodes s n) k) ∧
  i ∈ information_windows (windows v') ∧ (i ∉ shown (windows v')) ∧
  let out := packets_handle fuel r (PWindow (EvTimeout s')) v' in
  let drawn := VizView.update_view clamp_h clamp_v (raised out.2) view in
  (∃ e, out.2 = Err e) ∧ (∃ e, drawn.2 = Err e) ∧
  (∃ sc, VizView.flow drawn.1 = VizFlows.set_f_scene sc (VizView.flow view)) ∧
  ∀ l1 l2 j, information_windows (windows v') = l1 ++ i :: l2 → j ∈ l2 →
    objects (windows out.1) !! j = objects (windows v') !! j.
Proof.
  intros Hrun Hk Hs Hs' i Hsteps.
  pose proof (packets_steps_ok _ _ _ _ Hrun no_visualizer_ok) as Hv.
  assert (packets_allowed (PWindow (EvOpen s (inl (new_table k n))))) as Hal.
  { exists (sim_nodes s), k, n. split; [destruct k; simpl in Hk; try done; by eexists|done]. }
  assert (captures_ok v' ∧ stuck (ndn_window n) i (windows v')) as [Hv' (Hi & Hsh & Hbad)].
  { assert (stuck (ndn_window n) i (windows (packets_handle fuel r (PWindow (EvOpen s (inl (new_table k n)))) v).1)) as Hst.
    { unfold packets_handle, on_windows, zoom.
      pose proof (open_stuck (without_ndn n) (ndn_window n) (ndn_raises n) s (inl (new_table k n)) (windows v)
        (cap_windows v Hv) Hs (conj Hk eq_refl)) as Hst. by destruct (handle _ (windows v)). }
    pose proof (packets_handle_ok fuel r (PWindow (EvOpen s (inl (new_table k n)))) v Hv I Hal) as Hok.
    clearbody i. induction Hsteps as [|x y z (e & He & HP & HQ & ->) _ IH]; [done|].
    apply IH; [by apply quiet_stuck|by apply packets_handle_ok]. }
  split; [destruct k; simpl in Hk; try done; by eexists|]. split; [done|]. split; [done|].
  destruct (refreshed_stuck (without_ndn n) (ndn_window n) (ndn_raises n) s' i _ (windows v') _ Hs'
    (timeout_refreshed s' _ (cap_windows v' Hv')) Hi Hbad) as (_ & [e He] & Hlater).
  assert (windows (packets_handle fuel r (PWindow (EvTimeout s')) v').1 = (handle (EvTimeout s') (windows v')).1 ∧
          (packets_handle fuel r (PWindow (EvTimeout s')) v').2 = (handle (EvTimeout s') (windows v')).2) as [Ew Er].
  { unfold packets_handle, on_windows, zoom. by destruct (handle _ (windows v')). }
  cbv zeta. rewrite Ew, Er, He. simpl raised. split; [by eexists|].
  unfold VizView.update_view, mbind, eff_bind.
  destruct (frozen_positions view) as [sc Hsc].
  destruct (VizView._update_node_positions clamp_h clamp_v view) as [view1 [[]|e1]]; simpl in Hsc; simpl.
  all: split; [by eexists|]; split; [by exists sc|].
  all: intros l1 l2 j Hl; apply (Hlater l1 l2 j Hl), ok_nodup, cap_windows, Hv'.
Qed.
End composed.

(** ** Examples *)

Definition sample_registry : registry := {|
  registered := [0; 1; 2; 3; 4; 5; 6];
  GetParent := λ t, if decide (t = 1 ∨ t = 6) then Some 0 else if decide (t = 2 ∨ t = 3) then Some 1
                    else if decide (t = 4) then Some 2 else if decide (t = 5) then Some 3 else None;
  GetName := λ t, default "" (["ns3::ObjectBase"; "ns3::Chunk"; "ns3::Header"; "ns3::Trailer";
                               "ns3::Ipv4Header"; "ns3::EthernetTrailer"; "ns3::Node"] !! Z.to_nat t);
  LookupByName := λ s, if decide (s = "ns3::Header") then 2 else 3;
|}.
Definition sample_configs : list TypeIdConfig := [config sample_registry 4; config sample_registry 5].
Example sample_filter : packet_filter_list 4 sample_registry = Ok sample_configs.
Proof. reflexivity. Qed.
Definition sample_rank (t : Z) : nat := default 0%nat ([0; 1; 2; 2; 3; 3; 1]%nat !! Z.to_nat t).
Lemma packet_filter_types_witness :
  ∃ offered : Z → bool,
    packet_filter_list 4 sample_registry = Ok (config sample_registry <$> filter offered [0; 1; 2; 3; 4; 5; 6]) ∧ offered 4.
Proof.
  destruct (packet_filter_types 4 sample_registry sample_rank) as (offered & Hrun & Hoff).
  - intros t p. simpl. repeat case_decide; intros [= <-]; destruct_or?; subst; vm_compute; lia.
  - apply (bool_decide_unpack _). vm_compute. exact I.
  - exists offered. split; [exact Hrun|]. apply Hoff; [set_solver|].
    split; [|done]. left. apply rtc_once. reflexivity.
Defined.

Definition sample_last : LastPackets := {|
  lastTransmittedPackets := [{| time := "1.5"; device := Some (0, ""); size := 84; packet := "ns3::Ipv4Header ()" |}];
  lastReceivedPackets := [];
  lastDroppedPackets := [{| time := "2.0"; device := None; size := 20; packet := "" |}];
|}.
Definition sample_viz : viz_simulator := {| sim_nodes := sample_simulator; GetLastPackets := λ _, sample_last |}.
(** The user opens the packets of node 0 and keeps one header of them. *)
Definition sample_opened : visualizer := (packets_handle 4 sample_registry (PShow sample_viz 0) no_visualizer).1.
Definition sample_visualizer : visualizer := (packets_handle 4 sample_registry (PEdit 0 1 false) sample_opened).1.
Lemma sample_opened_reached : rtc (packets_step 4 sample_registry) no_visualizer sample_opened.
Proof. apply rtc_once. by exists (PShow sample_viz 0). Qed.
Lemma sample_visualizer_reached : rtc (packets_step 4 sample_registry) no_visualizer sample_visualizer.
Proof.
  eapply rtc_r; [apply sample_opened_reached|]. exists (PEdit 0 1 false). split; [|done]. by left.
Qed.
Lemma capture_options_follow_witness :
  options_of sample_visualizer 0 = Some {| mode := FILTER_HEADERS_OR; numLastPackets := 100; headers := [4] |}.
Proof.
  destruct (capture_options_follow 4 sample_registry sample_opened sample_opened_reached) as (_ & _ & Hw).
  destruct (Hw (PEdit 0 1 false) 0%nat _ (shows_packets sample_viz (with_options (Some (chosen (new_packets 0 sample_configs)))
    (new_packets 0 sample_configs))) eq_refl eq_refl) as [_ Hopt].
  apply (Hopt 0).
Defined.
Definition sample_window : ShowLastPackets :=
  match objects (windows sample_visualizer) !! 0%nat with Some (inr p) => p | _ => new_packets 0 [] end.
Lemma sample_c_node i : c_node (sample_simulator i).
Proof.
  split; unfold sample_simulator; case_decide; simpl; try done.
  intros ip l [= <-] [= <-]. by repeat constructor.
Qed.
Lemma windows_refreshed_witness :
  objects (windows (packets_handle 4 sample_registry (PWindow (EvTimeout sample_viz)) sample_visualizer).1) !! 0%nat =
  Some (inr (shows_packets sample_viz sample_window)).
Proof.
  assert (objects (windows sample_visualizer) !! 0%nat = Some (inr sample_window)) as Hw by (vm_compute; reflexivity).
  assert (information_windows (windows sample_visualizer) = [0%nat]) as Hl by (vm_compute; reflexivity).
  destruct (windows_refreshed 4 sample_registry sample_visualizer sample_viz sample_visualizer_reached) as [_ Hup].
  destruct Hup as (_ & _ & Hobj).
  - exact sample_c_node.
  - intros i w Hi Hi'. rewrite Hl in Hi. apply list_elem_of_singleton in Hi as ->.
    rewrite Hw in Hi'. injection Hi' as <-. exact I.
  - specialize (Hobj 0%nat _ Hw). rewrite decide_True in Hobj by (rewrite Hl; left). exact Hobj.
Defined.

(** The PIT of node 0, which has none, and the view of VizView's example. *)
Definition sample_stuck : visualizer :=
  (packets_handle 4 sample_registry (PWindow (EvOpen sample_viz (inl (new_table PitTable 0)))) sample_visualizer).1.
Lemma ndn_window_stops_view_witness :
  ∃ e, (VizView.update_view (H := VizFlows.demo_lib) id id
          (raised (packets_handle 4 sample_registry (PWindow (EvTimeout sample_viz)) sample_stuck).2)
          VizView.demo_started).2 = Err e.
Proof.
  destruct (ndn_window_stops_view (H := VizFlows.demo_lib) id id 4 sample_registry sample_visualizer 0 PitTable
    sample_viz sample_stuck sample_viz VizView.demo_started sample_visualizer_reached I eq_refl eq_refl
    (rtc_refl _ _)) as (_ & _ & _ & _ & He & _).
  exact He.
Defined.
