(* ===== verification/VizConsole.v ===== *)
(** * visualizer/ipython_view.py
    The console of the visualizer: the text of a GTK buffer with its command
    line, the history and the completion of lines, and the keys.  IPython is
    behind a class.  The file is Python 2 (StringIO, reduce); the names Gtk,
    Gdk and GObject are taken to be those of gi.repository: the file imports
    gtk and gobject instead, so that it cannot be loaded as it is.  The
    replacement of system calls and the editor for syntax errors are left out. *)
From Stdlib Require Import Ascii.
From S2P Require Import Prelude PyStr.
#[local] Open Scope Z_scope.

(** ** The buffer *)

(** Characters with the names of their tags; [line_start] keeps its place when
    text is inserted there, the cursor and the other end of the selection move
    behind it. *)
Record buffer := Buffer {
  text : list (ascii * list string);
  line_start : nat; insert_mark : nat; selection_bound : nat;
}.
Definition get_end (b : buffer) : nat := length (text b).
Definition tagged (tags : list string) (s : string) : list (ascii * list string) := (λ a, (a, tags)) <$> chars s.
(** [insert(get_end_iter(), ...)] *)
Definition insert_end (l : list (ascii * list string)) (b : buffer) : buffer :=
  let move m := if decide (m = get_end b) then (m + length l)%nat else m in
  Buffer (text b ++ l) (line_start b) (move (insert_mark b)) (move (selection_bound b)).
Definition apply_tag (tag : string) (i j : nat) (b : buffer) : buffer :=
  Buffer (imap (λ n c, if decide (i ≤ n < j)%nat then (c.1, c.2 ++ [tag]) else c) (text b))
    (line_start b) (insert_mark b) (selection_bound b).
Definition delete_range (i j : nat) (b : buffer) : buffer :=
  let move m := if decide (m ≤ i)%nat then m else if decide (m ≤ j)%nat then i else (m - (j - i))%nat in
  Buffer (take i (text b) ++ drop j (text b)) (move (line_start b)) (move (insert_mark b)) (move (selection_bound b)).
Definition move_line_start (i : nat) (b : buffer) : buffer :=
  Buffer (text b) i (insert_mark b) (selection_bound b).
Definition move_insert (i : nat) (b : buffer) : buffer := Buffer (text b) (line_start b) i (selection_bound b).
Definition move_selection (i : nat) (b : buffer) : buffer := Buffer (text b) (line_start b) (insert_mark b) i.
Definition place_cursor (i : nat) (b : buffer) : buffer := Buffer (text b) (line_start b) i i.
Fixpoint to_newline (l : list (ascii * list string)) : nat :=
  match l with
  | [] => O
  | c :: l => if decide (c.1 = newline) then O else S (to_newline l)
  end.
(** [iter.forward_to_line_end()]: from the end of a line it goes to the end of
    the next one. *)
Definition forward_to_line_end (i : nat) (b : buffer) : nat :=
  match drop i (text b) with
  | [] => i
  | c :: l => if decide (c.1 = newline) then (S i + to_newline l)%nat else (i + to_newline (c :: l))%nat
  end.
(** [iter.editable(True)] *)
Definition editable (i : nat) (b : buffer) : bool :=
  match text b !! i with Some c => negb (bool_decide ("notouch" ∈ c.2)) | None => true end.

(** ** Text with colors *)

Definition ANSI_COLORS : list string :=
  ["0;30"; "0;31"; "0;32"; "0;33"; "0;34"; "0;35"; "0;36"; "0;37";
   "1;30"; "1;31"; "1;32"; "1;33"; "1;34"; "1;35"; "1;36"; "1;37"].
Definition known_tags : list string := ANSI_COLORS ++ ["0"; "notouch"].
Definition ESC : ascii := "027"%char.
(** [(.*?)m]: up to the first m, on one line. *)
Fixpoint up_to_m (l : list ascii) : option (list ascii * list ascii) :=
  match l with
  | [] => None
  | a :: l =>
      if decide (a = "m"%char) then Some ([], l)
      else if decide (a = newline) then None
      else match up_to_m l with Some (g, r) => Some (a :: g, r) | None => None end
  end.
Definition skip (c : ascii) (l : list ascii) : list ascii :=
  match l with a :: l' => if decide (a = c) then l' else l | [] => [] end.
(** A match of the pattern of colors at the start of a text: its group and what follows. *)
Definition color_match (l : list ascii) : option (list ascii * list ascii) :=
  match skip "001" l with
  | a :: b :: l =>
      if decide (a = ESC ∧ b = "["%char) then
        match up_to_m l with Some (g, r) => Some (g, skip "002" r) | None => None end
      else None
  | _ => None
  end.
(** [color_pat.split(text)]: the text before the first match, then the groups
    and the texts that follow them.  A turn consumes a character. *)
Fixpoint color_split (fuel : nat) (l : list ascii) : list ascii * list (list ascii * list ascii) :=
  match fuel, l with
  | O, _ | _, [] => (l, [])
  | S fuel, a :: l' =>
      match color_match l with
      | Some (g, r) => let '(t, ps) := color_split fuel r in ([], (g, t) :: ps)
      | None => let '(t, ps) := color_split fuel l' in (a :: t, ps)
      end
  end.
Definition pieces (s : string) : string * list (string * string) :=
  let '(t, ps) := color_split (String.length s) (chars s) in
  (of_chars t, (λ p, (of_chars p.1, of_chars p.2)) <$> ps).

Abbreviation bio := (eff buffer exn unit).
Definition index_of (x : string) (l : list string) : res nat :=
  match list_find (λ y, y = x) l with
  | Some (i, _) => Ok i
  | None => Err (ValueError "is not in list")
  end.
Definition insert_with_tags_by_name (s tag : string) : bio := λ b,
  if decide (tag ∈ known_tags) then (insert_end (tagged [tag] s) b, Ok ())
  else (b, Err (ValueError "unknown text tag")).
(** [for tag in ansi_tags: ...], over the list of segments that it changes *)
Fixpoint write_segments (ansi_tags segments : list string) : bio :=
  match ansi_tags with
  | [] => mret ()
  | tag :: ansi_tags =>
      i ← lift_res (index_of tag segments);
      s ← lift_res (py_index segments (Z.of_nat (S i)));
      _ ← insert_with_tags_by_name s tag;
      write_segments ansi_tags (delete i segments)
  end.
Definition _write (s : string) (edit : bool) : bio :=
  start_mark ← gets get_end;
  let '(segment, ps) := pieces s in
  _ ← modify (insert_end (tagged [] segment));
  _ ← write_segments ps.*1 (mjoin ((λ p, [p.1; p.2]) <$> ps));
  if edit then mret () else modify (λ b, apply_tag "notouch" start_mark (get_end b) b).
Definition _showPrompt (prompt : string) : bio :=
  _ ← _write prompt false; modify (λ b, move_line_start (get_end b) b).
Definition _changeLine (s : string) : bio :=
  _ ← modify (λ b, delete_range (line_start b) (forward_to_line_end (line_start b) b) b);
  _write s true.
Definition getCurrentLine (b : buffer) : string := of_chars (drop (line_start b) (text b)).*1.

(** ** The shell *)

(** What is asked of IPython: the list [In] of its namespace, the matches of a
    word, the prompts, its splitter of input, and a run of what was pushed with
    what that writes. *)
Class IPython : Type := {
  shell : Type;
  In_ : shell → list string;
  ip_complete : shell → string → string * list string;
  generatePrompt : shell → bool → string;
  push : string → shell → shell;
  push_accepts_more : shell → bool;
  splitter_reset : shell → shell;
  run_cell : shell → shell * string;
  indent_spaces : shell → nat;
  autoindent : shell → bool;
}.

(** The calls that wait for the event loop ([GObject.idle_add]), in order. *)
Inductive idle_call : Type :=
| IdleWrite (s : string) (edit : bool)
| IdleShowPrompt (prompt : string)
| IdleChangeLine (s : string)
| IdleShowReturned (s : string).

Section shell.
Context `{IPython}.

Record console := Console {
  IP : shell;
  buf : buffer;
  idle : list idle_call;
  prompt : string;
  interrupt : bool;
  iter_more : bool;
  history_level : Z;
  rl_do_indent : bool;
  cout : string;
}.
Abbreviation cio := (eff console exn).
Definition set_ip (i : shell) (c : console) : console :=
  Console i (buf c) (idle c) (prompt c) (interrupt c) (iter_more c) (history_level c) (rl_do_indent c) (cout c).
Definition set_buf (b : buffer) (c : console) : console :=
  Console (IP c) b (idle c) (prompt c) (interrupt c) (iter_more c) (history_level c) (rl_do_indent c) (cout c).
Definition set_idle (l : list idle_call) (c : console) : console :=
  Console (IP c) (buf c) l (prompt c) (interrupt c) (iter_more c) (history_level c) (rl_do_indent c) (cout c).
Definition set_prompt (s : string) (c : console) : console :=
  Console (IP c) (buf c) (idle c) s (interrupt c) (iter_more c) (history_level c) (rl_do_indent c) (cout c).
Definition set_interrupt (i : bool) (c : console) : console :=
  Console (IP c) (buf c) (idle c) (prompt c) i (iter_more c) (history_level c) (rl_do_indent c) (cout c).
Definition set_more (m : bool) (c : console) : console :=
  Console (IP c) (buf c) (idle c) (prompt c) (interrupt c) m (history_level c) (rl_do_indent c) (cout c).
Definition set_level (n : Z) (c : console) : console :=
  Console (IP c) (buf c) (idle c) (prompt c) (interrupt c) (iter_more c) n (rl_do_indent c) (cout c).
Definition set_indent (i : bool) (c : console) : console :=
  Console (IP c) (buf c) (idle c) (prompt c) (interrupt c) (iter_more c) (history_level c) i (cout c).
Definition set_cout (s : string) (c : console) : console :=
  Console (IP c) (buf c) (idle c) (prompt c) (interrupt c) (iter_more c) (history_level c) (rl_do_indent c) s.

Definition later (i : idle_call) : cio unit := modify (λ c, set_idle (idle c ++ [i]) c).
Definition write (s : string) (edit : bool) : cio unit := later (IdleWrite s edit).
Definition showPrompt (p : string) : cio unit := later (IdleShowPrompt p).
Definition changeLine (s : string) : cio unit := later (IdleChangeLine s).
Definition showReturned (s : string) : cio unit := later (IdleShowReturned s).

(** *** History *)

Definition strip_newlines (s : string) : string := of_chars (strip_chars (λ a, bool_decide (a = newline)) (chars s)).
Definition _getHistory : cio string :=
  level ← gets history_level;
  l ← gets (λ c, In_ (IP c));
  mret (match py_index l level with Ok s => strip_newlines s | Err _ => "" end).
Definition historyBack : cio string :=
  _ ← modify (λ c, set_level (history_level c - 1) c);
  s ← _getHistory;
  _ ← (if decide (s = "") then modify (λ c, set_level (history_level c + 1) c) else mret ());
  _getHistory.
Definition historyForward : cio string :=
  level ← gets history_level;
  _ ← (if decide (level < 0) then modify (set_level (level + 1)) else mret ());
  _getHistory.

(** *** Completion *)

Definition complete_sep (a : ascii) : bool := is_cspace a || bool_decide (a ∈ chars "{}[]()").
(** The last piece of [complete_sep.split(line)]. *)
Fixpoint last_word (l : list ascii) : list ascii :=
  match l with
  | [] => []
  | a :: l' => if forallb (λ b, negb (complete_sep b)) l then l else last_word l'
  end.
Fixpoint _commonPrefix (str1 str2 : list ascii) : list ascii :=
  match str1, str2 with
  | a :: l1, b :: l2 => if decide (a = b) then a :: _commonPrefix l1 l2 else []
  | _, _ => []
  end.
(** [reduce(_commonPrefix, possibilities[1])] *)
Definition reduce_prefix (s : string) (l : list string) : list ascii :=
  foldl (λ p t, _commonPrefix p (chars t)) (chars s) l.
Definition complete (sh : shell) (line : string) : string * list string :=
  let word := last_word (chars line) in
  if decide (word = []) then (line, [])
  else
    match (ip_complete sh (of_chars word)).2 with
    | [] => (line, [])
    | s :: l =>
        let common_prefix :=
          match reduce_prefix s l with [] => match last (chars line) with Some a => [a] | None => [] end | p => p end in
        (of_chars (take (length (chars line) - length word) (chars line) ++ common_prefix), s :: l)
    end.

(** *** Lines *)

Definition blank (line : string) : bool := forallb is_cspace (chars line).   (* not line.strip() *)
Definition raw_input : cio string :=
  i ← gets interrupt;
  if (i : bool) then _ ← modify (set_interrupt false); throw (PyException "KeyboardInterrupt")
  else gets (λ c, getCurrentLine (buf c)).
Definition new_prompt : cio unit := modify (λ c, set_prompt (generatePrompt (IP c) (iter_more c)) c).
Definition on_line (line : string) : cio unit :=
  _ ← modify (λ c, set_ip (push line (IP c)) c);
  _ ← modify (λ c, set_more (push_accepts_more (IP c)) c);
  _ ← new_prompt;
  more ← gets iter_more;
  if (more : bool) then modify (set_indent true)
  else
    _ ← modify (λ c, let '(i, out) := run_cell (IP c) in set_cout (cout c +:+ out) (set_ip i c));
    modify (set_indent false).
Definition on_interrupt : cio unit :=
  _ ← modify (λ c, set_cout (cout c +:+ String newline "" +:+ "KeyboardInterrupt" +:+ String newline "") c);
  modify (λ c, set_ip (splitter_reset (IP c)) c).
(** [try: line = raw_input(...)], with its except and else. *)
Definition read_line : cio unit := λ c,
  match raw_input c with
  | (c', Ok line) => on_line line c'
  | (c', Err _) => on_interrupt c'
  end.
Definition execute : cio unit :=
  _ ← modify (set_level 0);
  _ ← new_prompt;
  more ← gets iter_more;
  a ← gets (λ c, autoindent (IP c));
  _ ← (if more && a then modify (set_indent true) else mret ());
  read_line.
Definition _processLine : cio unit :=
  _ ← execute;
  rv ← gets cout;
  _ ← showReturned (strip_newlines rv);
  modify (set_cout "").

(** The constructor of the view: a first execution without a line. *)
Definition start_console (sh : shell) : console := Console sh (Buffer [] 0 0 0) [] "" false false 0 false "".
Definition init : cio unit :=
  _ ← execute;
  _ ← modify (λ c, set_prompt (generatePrompt (IP c) false) c);
  _ ← modify (set_cout "");
  p ← gets prompt; showPrompt p.

(** *** The idle calls *)

Definition on_buf (m : bio) : cio unit := zoom buf set_buf m.
Definition _showReturned (s : string) : cio unit :=
  _ ← on_buf (modify (λ b, apply_tag "notouch" (line_start b) (forward_to_line_end (line_start b) b) b));
  _ ← on_buf (_write (String newline s) false);
  _ ← (if decide (s = "") then mret () else on_buf (_write (String newline "") false));
  p ← gets prompt;
  _ ← on_buf (_showPrompt p);
  _ ← on_buf (modify (λ b, move_line_start (get_end b) b));
  _ ← on_buf (modify (λ b, place_cursor (get_end b) b));
  i ← gets rl_do_indent;
  n ← gets (λ c, indent_spaces (IP c));
  if (i : bool) then on_buf (modify (insert_end (tagged [] (of_chars (replicate n " "%char))))) else mret ().
Definition idle_run (i : idle_call) : cio unit :=
  match i with
  | IdleWrite s edit => on_buf (_write s edit)
  | IdleShowPrompt p => on_buf (_showPrompt p)
  | IdleChangeLine s => on_buf (_changeLine s)
  | IdleShowReturned s => _showReturned s
  end.
(** The event loop runs all that waits; an exception ends only its call. *)
Definition run_idle (c : console) : console :=
  foldl (λ c i, (idle_run i c).1) (set_idle [] c) (idle c).

(** *** Keys *)

Inductive keyval : Type := KHome | KLeft | KReturn | KUp | KDown | KTab | KOther (code : Z).
Record key := { val : keyval; ctrl : bool; mod1 : bool; shift : bool; printable : bool }.
Definition onKeyPressExtend (k : key) : cio bool :=
  if ctrl k && match val k with KOther c => bool_decide (c = 99) | _ => false end then
    _ ← modify (set_interrupt true); _ ← _processLine; mret true
  else
    match val k with
    | KReturn => _ ← _processLine; mret true
    | KUp => s ← historyBack; _ ← changeLine s; mret true
    | KDown => s ← historyForward; _ ← changeLine s; mret true
    | KTab =>
        line ← gets (λ c, getCurrentLine (buf c));
        if blank line then mret false
        else
          c ← gets (λ c, complete (IP c) line);
          _ ← (if decide (1 < length c.2)%nat then
                 _ ← write (String newline "") false;
                 _ ← for_each (λ s, write (s +:+ String newline "") false) c.2;
                 p ← gets prompt; showPrompt p
               else mret ());
          _ ← (if decide (c.1 = "") then
                 (* completed or slice: the builtin slice where none was taken *)
                 if decide (1 < length c.2)%nat then changeLine line else throw TypeError
               else changeLine c.1);
          mret true
    | _ => mret false
    end.
Definition onKeyPress (k : key) : cio bool :=
  b ← gets buf;
  let start := line_start b in
  let go := onKeyPressExtend k in
  let on f := _ ← on_buf (modify f); go in
  match val k with
  | KHome =>
      if ctrl k || mod1 k then go
      else if shift k then _ ← on_buf (modify (move_insert start)); mret true
      else _ ← on_buf (modify (place_cursor start)); mret true
  | KLeft => if editable (insert_mark b - 1) b then go else mret true
  | _ =>
      if negb (printable k) then go
      else if decide (start ≤ insert_mark b ∧ start ≤ selection_bound b)%nat then go
      else if decide (insert_mark b < start ∧ selection_bound b < start)%nat then on (place_cursor start)
      else if decide (insert_mark b < selection_bound b)%nat then on (move_insert start)
      else if decide (selection_bound b < insert_mark b)%nat then on (move_selection start)
      else go
  end.
End shell.

(** ** What is written *)

(** Text without escape characters is one segment. *)
Definition plain (s : string) : Prop := ESC ∉ chars s.
Lemma color_match_plain l : ESC ∉ l → color_match l = None.
Proof.
  intros Hl. unfold color_match.
  assert (∀ k, ESC ∉ k → match k with
    | a :: b :: k => if decide (a = ESC ∧ b = "["%char)
        then match up_to_m k with Some (g, r) => Some (g, skip "002" r) | None => None end else None
    | _ => None end = None) as Hk.
  { intros [|a [|b k]] Ha; [done|done|]. rewrite decide_False; [done|]. intros [-> _]. set_solver. }
  apply Hk. destruct l as [|a l]; [done|]. simpl. case_decide; set_solver.
Qed.
Lemma color_split_plain fuel l : ESC ∉ l → color_split fuel l = (l, []).
Proof.
  revert l. induction fuel as [|fuel IH]; intros [|a l] Hl; [done|done|done|]. cbn [color_split].
  rewrite color_match_plain by done. rewrite IH by set_solver. done.
Qed.
Lemma pieces_plain s : plain s → pieces s = (s, []).
Proof. intros Hs. unfold pieces. rewrite color_split_plain by done. by rewrite of_chars_chars. Qed.

(** The colors are known, and no text between two of them is the code of a
    later one. *)
Fixpoint colors_ok (ts : list string) (ps : list (string * string)) : Prop :=
  match ps with
  | [] => True
  | (g, t) :: ps => g ∈ known_tags ∧ (g ∉ ts) ∧ colors_ok (ts ++ [t]) ps
  end.
Definition writable (s : string) : Prop := colors_ok [] (pieces s).2.
Definition colored (s : string) : list (ascii * list string) :=
  tagged [] (pieces s).1 ++ mjoin ((λ p, tagged [p.1] p.2) <$> (pieces s).2).
Definition add_tag (tag : string) (c : ascii * list string) : ascii * list string := (c.1, c.2 ++ [tag]).
Definition written (s : string) (edit : bool) : list (ascii * list string) :=
  if edit then colored s else add_tag "notouch" <$> colored s.

Lemma plain_writable s : plain s → writable s.
Proof. intros Hs. unfold writable. by rewrite pieces_plain. Qed.
Lemma plain_colored s : plain s → colored s = tagged [] s.
Proof. intros Hs. unfold colored. rewrite pieces_plain by done. apply app_nil_r. Qed.
(** The marks are inside of the text. *)
Definition buffer_ok (b : buffer) : Prop :=
  (line_start b ≤ get_end b ∧ insert_mark b ≤ get_end b ∧ selection_bound b ≤ get_end b)%nat.
Lemma insert_end_nil b : insert_end [] b = b.
Proof. destruct b. unfold insert_end, get_end. simpl. rewrite app_nil_r. f_equal; case_decide; lia. Qed.
Lemma insert_end_ok l b : buffer_ok b → buffer_ok (insert_end l b).
Proof. unfold buffer_ok, insert_end, get_end. simpl. rewrite length_app. intros. repeat case_decide; lia. Qed.
Lemma insert_end_app l k b : buffer_ok b → insert_end k (insert_end l b) = insert_end (l ++ k) b.
Proof.
  unfold buffer_ok. intros Hb.
  unfold insert_end, get_end in *. destruct b as [t ls i s]. simpl in *. rewrite <-app_assoc, !length_app.
  f_equal; repeat case_decide; lia.
Qed.
Lemma index_of_first x l k : x ∉ l → index_of x (l ++ x :: k) = Ok (length l).
Proof.
  intros Hx. unfold index_of. rewrite list_find_app_r; [|apply list_find_None, Forall_forall; by intros y Hy ->].
  simpl. rewrite decide_True by done. cbn. f_equal; lia.
Qed.
Lemma write_segments_ok ts ps b :
  buffer_ok b → colors_ok ts ps →
  write_segments ps.*1 (ts ++ mjoin ((λ p, [p.1; p.2]) <$> ps)) b =
  (insert_end (mjoin ((λ p, tagged [p.1] p.2) <$> ps)) b, Ok ()).
Proof.
  revert ts b. induction ps as [|[g t] ps IH]; intros ts b Hb Hps.
  { cbn. by rewrite insert_end_nil. }
  destruct Hps as (Hg & Hts & Hps). cbn [fmap list_fmap write_segments mjoin list_join fst snd app].
  rewrite index_of_first by done. erewrite bind_run by reflexivity. rewrite py_index_nat.
  rewrite lookup_app_r by lia. replace (S (length ts) - length ts)%nat with 1%nat by lia. simpl lookup.
  erewrite bind_run by reflexivity.
  erewrite bind_run by (unfold insert_with_tags_by_name; by rewrite decide_True).
  rewrite delete_middle. specialize (IH (ts ++ [t]) (insert_end (tagged [g] t) b) (insert_end_ok _ b Hb) Hps).
  rewrite <-app_assoc in IH. etransitivity; [exact IH|]. by rewrite insert_end_app by done.
Qed.
Lemma apply_tag_end tag l k ls i s :
  apply_tag tag (length l) (length (l ++ k)) (Buffer (l ++ k) ls i s) = Buffer (l ++ (add_tag tag <$> k)) ls i s.
Proof.
  unfold apply_tag. simpl. f_equal. rewrite imap_app. f_equal.
  - transitivity (imap (const id) l); [|by rewrite imap_const, list_fmap_id].
    apply imap_ext. intros n x Hn. apply lookup_lt_Some in Hn. by rewrite decide_False by lia.
  - rewrite <-imap_const. apply imap_ext. intros n x Hn. apply lookup_lt_Some in Hn. rewrite length_app.
    by rewrite decide_True by lia.
Qed.
Lemma console_write_ok s edit b :
  buffer_ok b → writable s → _write s edit b = (insert_end (written s edit) b, Ok ()).
Proof.
  intros Hb Hs. unfold _write, written, colored, writable in *. autorewrite with eff.
  destruct (pieces s) as [t0 ps]. simpl in *. autorewrite with eff.
  pose proof (write_segments_ok [] ps (insert_end (tagged [] t0) b) (insert_end_ok _ b Hb) Hs) as Hrun.
  simpl in Hrun. rewrite (bind_run _ _ _ _ _ Hrun), insert_end_app by done. destruct edit; [done|].
  set (k := _ ++ _). unfold modify. f_equal. unfold insert_end, get_end. simpl. rewrite apply_tag_end.
  by rewrite length_fmap.
Qed.

(** ** The command line *)

Definition line_chars (b : buffer) : list ascii := (drop (line_start b) (text b)).*1.
(** The text that is written, without its tags. *)
Definition shown_chars (s : string) : list ascii := chars (pieces s).1 ++ mjoin ((λ p, chars p.2) <$> (pieces s).2).
Lemma tagged_fst tags s : (tagged tags s).*1 = chars s.
Proof. unfold tagged. rewrite <-list_fmap_compose. apply list_fmap_id. Qed.
Lemma written_fst s edit : (written s edit).*1 = shown_chars s.
Proof.
  assert ((colored s).*1 = shown_chars s) as Hc.
  { unfold colored, shown_chars. rewrite fmap_app, tagged_fst. f_equal.
    induction (pieces s).2 as [|p ps IH]; [done|]. csimpl. by rewrite fmap_app, tagged_fst, IH. }
  unfold written. destruct edit; [done|]. by rewrite <-Hc, <-list_fmap_compose.
Qed.
Lemma shown_plain s : plain s → shown_chars s = chars s.
Proof. intros Hs. unfold shown_chars. rewrite pieces_plain by done. apply app_nil_r. Qed.
Lemma to_newline_all l : newline ∉ l.*1 → to_newline l = length l.
Proof. induction l as [|c l IH]; [done|]. cbn. intros Hl. rewrite decide_False by set_solver. rewrite IH; [done|set_solver]. Qed.
Lemma line_end b : buffer_ok b → newline ∉ line_chars b → forward_to_line_end (line_start b) b = get_end b.
Proof.
  unfold buffer_ok, forward_to_line_end, line_chars, get_end. intros [Hb _] Hl.
  pose proof (length_drop (text b) (line_start b)) as Hlen.
  destruct (drop (line_start b) (text b)) as [|c l]; [simpl in Hlen; lia|].
  rewrite decide_False by (cbn in Hl; set_solver). rewrite to_newline_all by done. lia.
Qed.
Lemma delete_line b :
  buffer_ok b →
  delete_range (line_start b) (get_end b) b =
    Buffer (take (line_start b) (text b)) (line_start b)
      (insert_mark b `min` line_start b) (selection_bound b `min` line_start b).
Proof.
  unfold buffer_ok, delete_range, get_end. intros Hb. rewrite drop_all, app_nil_r.
  f_equal; repeat case_decide; lia.
Qed.
Lemma change_line_ok s b :
  buffer_ok b → newline ∉ line_chars b → writable s →
  ∃ b', _changeLine s b = (b', Ok ()) ∧ buffer_ok b' ∧ line_start b' = line_start b ∧
    text b' = take (line_start b) (text b) ++ written s true.
Proof.
  intros Hb Hl Hs. unfold _changeLine. autorewrite with eff. rewrite line_end, delete_line by done.
  assert (buffer_ok (Buffer (take (line_start b) (text b)) (line_start b)
      (insert_mark b `min` line_start b) (selection_bound b `min` line_start b))) as Hb'.
  { unfold buffer_ok, get_end in *. simpl. rewrite length_take. lia. }
  rewrite console_write_ok by done. eexists. split; [done|]. split; [by apply insert_end_ok|done].
Qed.
Lemma prompt_ok p b :
  buffer_ok b → writable p →
  ∃ b', _showPrompt p b = (b', Ok ()) ∧ buffer_ok b' ∧ line_start b' = get_end b' ∧
    text b' = text b ++ written p false.
Proof.
  intros Hb Hp. unfold _showPrompt. erewrite bind_run by (by apply console_write_ok).
  eexists. split; [done|]. pose proof (insert_end_ok (written p false) b Hb) as Hi. split; [|done].
  unfold buffer_ok, get_end in *. simpl in *. rewrite length_app in *. lia.
Qed.
Lemma line_at_end b : line_start b = get_end b → line_chars b = [].
Proof. intros E. unfold line_chars. by rewrite E; unfold get_end; rewrite drop_all. Qed.
Lemma line_of b l k : text b = l ++ k → line_start b = length l → line_chars b = k.*1.
Proof. intros E1 E2. unfold line_chars. by rewrite E1, E2, drop_app_length. Qed.

(** ** Completion *)

Lemma last_word_suffix l : ∃ k, l = k ++ last_word l.
Proof.
  induction l as [|a l [k IH]]; [by exists []|]. cbn [last_word]. destruct (forallb _ _); [by exists []|].
  exists (a :: k). simpl. by f_equal.
Qed.
Lemma commonPrefix_prefix l k : _commonPrefix l k `prefix_of` l ∧ _commonPrefix l k `prefix_of` k.
Proof.
  revert k. induction l as [|a l IH]; intros [|b k]; simpl; try (split; apply prefix_nil).
  case_decide as Hab; [|split; apply prefix_nil]. subst b. destruct (IH k). split; by apply prefix_cons.
Qed.
Lemma commonPrefix_longest l k p : p `prefix_of` l → p `prefix_of` k → p `prefix_of` _commonPrefix l k.
Proof.
  revert l k. induction p as [|a p IH]; intros l k Hl Hk; [apply prefix_nil|].
  destruct l as [|b l]; [by apply prefix_nil_not in Hl|]. destruct k as [|c k]; [by apply prefix_nil_not in Hk|].
  apply prefix_cons_inv_1 in Hl as Hb. apply prefix_cons_inv_1 in Hk as Hc. subst. simpl. rewrite decide_True by done.
  apply prefix_cons. apply IH; by eapply prefix_cons_inv_2.
Qed.
(** The longest common prefix of a list of texts. *)
Definition longest_common (p : list ascii) (ts : list string) : Prop :=
  (∀ t, t ∈ ts → p `prefix_of` chars t) ∧ ∀ q, (∀ t, t ∈ ts → q `prefix_of` chars t) → q `prefix_of` p.
Lemma reduce_prefix_spec s ts : longest_common (reduce_prefix s ts) (s :: ts).
Proof.
  unfold reduce_prefix.
  assert (∀ p, (foldl (λ p t, _commonPrefix p (chars t)) p ts) `prefix_of` p ∧
    (∀ t, t ∈ ts → foldl (λ p t, _commonPrefix p (chars t)) p ts `prefix_of` chars t) ∧
    ∀ q, q `prefix_of` p → (∀ t, t ∈ ts → q `prefix_of` chars t) →
      q `prefix_of` foldl (λ p t, _commonPrefix p (chars t)) p ts) as Hfold.
  { induction ts as [|t ts IH]; intros p; simpl; [split_and!; [done|by intros t ?%not_elem_of_nil|done]|].
    destruct (IH (_commonPrefix p (chars t))) as (H1 & H2 & H3).
    destruct (commonPrefix_prefix p (chars t)) as [Hp Ht]. split_and!.
    - by etransitivity.
    - intros u [->|Hu]%elem_of_cons; [by etransitivity|by apply H2].
    - intros q Hq Hall. apply H3; [apply commonPrefix_longest; [done|apply Hall; left]|].
      intros u Hu. apply Hall. by right. }
  destruct (Hfold (chars s)) as (H1 & H2 & H3). split.
  - intros t [->|Ht]%elem_of_cons; [done|by apply H2].
  - intros q Hq. apply H3; [apply Hq; left|]. intros t Ht. apply Hq. by right.
Qed.

Section console.
Context `{IPython}.
Implicit Types (c : console) (sh : shell).

(** What a completion is: the longest common prefix of the matches takes the
    place of the last word, or the last character of the line does when the
    matches have nothing in common. *)
Definition completion (sh : shell) (line completed : string) (matches : list string) : Prop :=
  let word := last_word (chars line) in
  match (if decide (word = []) then [] else (ip_complete sh (of_chars word)).2) with
  | [] => completed = line ∧ matches = []
  | l => matches = l ∧ ∃ head p, chars line = head ++ word ∧ longest_common p l ∧
      (p ≠ [] → chars completed = head ++ p) ∧
      (p = [] → ∃ a, last (chars line) = Some a ∧ chars completed = head ++ [a])
  end.
Lemma complete_spec sh line : completion sh line (complete sh line).1 (complete sh line).2.
Proof.
  unfold completion, complete.
  destruct (last_word_suffix (chars line)) as [head Hhead]. set (word := last_word (chars line)) in *. clearbody word.
  case_decide as Hw; [done|]. destruct (ip_complete sh (of_chars word)).2 as [|s l]; [done|].
  pose proof (reduce_prefix_spec s l) as Hlong. simpl. split; [done|]. exists head, (reduce_prefix s l).
  split; [done|]. split; [done|]. rewrite chars_of_chars.
  replace (length (chars line) - length word)%nat with (length head) by (rewrite Hhead, length_app; lia).
  rewrite Hhead at 1. rewrite take_app_length. split; [by destruct (reduce_prefix s l)|]. intros ->.
  destruct (last (chars line)) as [a|] eqn:Ha.
  - exists a. split; [done|]. rewrite Hhead at 1. by rewrite take_app_length.
  - apply last_None in Ha. rewrite Ha in Hhead. symmetry in Hhead. by apply app_eq_nil in Hhead as [_ ?].
Qed.
(** Matches that go on from the word keep what was typed. *)
Lemma completion_extends sh line completed matches :
  completion sh line completed matches →
  (∀ t, t ∈ matches → last_word (chars line) `prefix_of` chars t) → chars line `prefix_of` chars completed.
Proof.
  unfold completion. case_decide as Hw; [by intros [-> _]|].
  destruct (ip_complete sh _).2 as [|s l]; [by intros [-> _]|].
  intros (-> & head & p & Hl & Hp & Hne & _) Hm. pose proof (proj2 Hp _ Hm) as Hword.
  assert (p ≠ []) as Hp0.
  { intros ->. destruct (last_word (chars line)); [done|by apply prefix_nil_not in Hword]. }
  rewrite Hne by done. rewrite Hl at 1. by apply prefix_app.
Qed.

(** The cursor and the other end of the selection are in the command line. *)
Definition in_line (b : buffer) : Prop := (line_start b ≤ insert_mark b ∧ line_start b ≤ selection_bound b)%nat.
(** Before a key other than Home and Left is looked at only the marks move,
    into the command line when the key writes. *)
Lemma key_cursor k c :
  val k ≠ KHome → val k ≠ KLeft → buffer_ok (buf c) →
  ∃ b, onKeyPress k c = onKeyPressExtend k (set_buf b c) ∧ text b = text (buf c) ∧
    line_start b = line_start (buf c) ∧ buffer_ok b ∧ (printable k → in_line b).
Proof.
  intros H1 H2 Hb.
  assert (∃ b, (if negb (printable k) then onKeyPressExtend k
      else if decide (line_start (buf c) ≤ insert_mark (buf c) ∧ line_start (buf c) ≤ selection_bound (buf c))%nat
        then onKeyPressExtend k
      else if decide (insert_mark (buf c) < line_start (buf c) ∧ selection_bound (buf c) < line_start (buf c))%nat
        then (_ ← on_buf (modify (place_cursor (line_start (buf c)))); onKeyPressExtend k)
      else if decide (insert_mark (buf c) < selection_bound (buf c))%nat
        then (_ ← on_buf (modify (move_insert (line_start (buf c)))); onKeyPressExtend k)
      else if decide (selection_bound (buf c) < insert_mark (buf c))%nat
        then (_ ← on_buf (modify (move_selection (line_start (buf c)))); onKeyPressExtend k)
      else onKeyPressExtend k) c = onKeyPressExtend k (set_buf b c) ∧ text b = text (buf c) ∧
    line_start b = line_start (buf c) ∧ buffer_ok b ∧ (printable k → in_line b)) as Hgo.
  { unfold in_line, buffer_ok, get_end in *. destruct c as [ip [t ls i s] id p int more lev ind out]. simpl in *.
    destruct (printable k); simpl; [|exists (Buffer t ls i s); simpl; split_and!; (done || lia)].
    repeat case_decide; eexists; (split; [reflexivity|]); simpl; split_and!; (done || lia). }
  unfold onKeyPress. autorewrite with eff. destruct (val k); done.
Qed.
Lemma complete_nonempty sh line : line ≠ "" → (complete sh line).1 ≠ "".
Proof.
  intros Hl. unfold complete. case_decide as Hw; [done|]. destruct (ip_complete _ _).2 as [|s l]; [done|].
  simpl. intros E. apply (f_equal chars) in E. rewrite chars_of_chars in E. apply app_eq_nil in E as [_ E].
  destruct (reduce_prefix s l); [|done].
  destruct (chars line) as [|a k] eqn:El; [by destruct line|].
  destruct (last (a :: k)) eqn:Elast; [done|]. by apply last_None in Elast.
Qed.
Lemma for_each_later {A} (f : A → idle_call) (l : list A) c :
  for_each (λ x, later (f x)) l c = (set_idle (idle c ++ (f <$> l)) c, Ok ()).
Proof.
  revert c. induction l as [|x l IH]; intros c; [destruct c; cbn; by rewrite app_nil_r|].
  cbn [for_each]. erewrite bind_run by reflexivity. rewrite IH. destruct c. csimpl. by rewrite <-app_assoc.
Qed.
Definition writes (l : list string) : list idle_call := (λ s, IdleWrite (s +:+ String newline "") false) <$> l.
Definition tab_calls (c : console) (r : string * list string) : list idle_call :=
  (if decide (1 < length r.2)%nat then writes ("" :: r.2) ++ [IdleShowPrompt (prompt c)] else []) ++ [IdleChangeLine r.1].
Lemma tab_listing l c :
  (_ ← write (String newline "") false;
   _ ← for_each (λ s, write (s +:+ String newline "") false) l;
   p ← gets prompt; showPrompt p) c =
  (set_idle (idle c ++ writes ("" :: l) ++ [IdleShowPrompt (prompt c)]) c, Ok ()).
Proof.
  erewrite bind_run by reflexivity.
  erewrite bind_run by apply (for_each_later (λ s, IdleWrite (s +:+ String newline "") false)).
  rewrite bind_gets. unfold showPrompt, later, modify. destruct c. csimpl. by rewrite <-!app_assoc.
Qed.
Lemma tab_extend k c :
  val k = KTab → blank (getCurrentLine (buf c)) = false →
  onKeyPressExtend k c =
  (set_idle (idle c ++ tab_calls c (complete (IP c) (getCurrentLine (buf c)))) c, Ok true).
Proof.
  intros Hk Hl. unfold onKeyPressExtend, tab_calls. rewrite Hk, andb_false_r. autorewrite with eff.
  rewrite Hl. autorewrite with eff.
  assert ((complete (IP c) (getCurrentLine (buf c))).1 ≠ "") as Hne.
  { apply complete_nonempty. by intros E; rewrite E in Hl. }
  set (r := complete _ _) in *. clearbody r.
  destruct (decide (r.1 = "")) as [|_]; [done|]. destruct (decide (1 < length r.2)%nat).
  - rewrite (bind_run _ _ _ _ _ (tab_listing _ _)).
    unfold changeLine, later. autorewrite with eff. unfold mret, eff_ret. destruct c as [? ? id ? ? ? ? ? ?].
    unfold set_idle. cbn [idle IP buf prompt interrupt iter_more history_level rl_do_indent cout]. do 2 f_equal.
    by rewrite !app_assoc.
  - autorewrite with eff. by destruct c.
Qed.

(** What does not change while the calls run. *)
Lemma on_buf_run m c b : m (buf c) = (b, Ok ()) → on_buf m c = (set_buf b c, Ok ()).
Proof. intros Hm. unfold on_buf, zoom. by rewrite Hm. Qed.
Lemma idle_writes l c :
  buffer_ok (buf c) → Forall plain l →
  ∃ b, foldl (λ c i, (idle_run i c).1) c (writes l) = set_buf b c ∧ buffer_ok b ∧
    (text b).*1 = (text (buf c)).*1 ++ mjoin ((λ s, chars s ++ [newline]) <$> l).
Proof.
  intros Hb Hl. revert c Hb. induction Hl as [|s l Hs Hl IH]; intros c Hb.
  { exists (buf c). split; [by destruct c|]. split; [done|]. cbn. by rewrite app_nil_r. }
  assert (plain (s +:+ String newline "")) as Hsn.
  { unfold plain. rewrite chars_app. intros [Hin|Hin]%elem_of_app; [done|by apply list_elem_of_singleton in Hin]. }
  pose proof (console_write_ok _ false (buf c) Hb (plain_writable _ Hsn)) as Hrun.
  pose proof (on_buf_run _ _ _ Hrun) as Hrun'.
  destruct (IH (set_buf (insert_end (written (s +:+ String newline "") false) (buf c)) c)) as (b & Hfold & Hok & Ht).
  { by apply insert_end_ok. }
  exists b. split.
  - cbn [writes fmap list_fmap foldl]. unfold idle_run at 2. rewrite Hrun'. simpl fst.
    etransitivity; [exact Hfold|]. by destruct c.
  - split; [done|]. rewrite Ht. cbn [buf set_buf text insert_end]. rewrite fmap_app, written_fst, shown_plain by done.
    rewrite chars_app, <-app_assoc. by csimpl.
Qed.
Lemma idle_prompt p c :
  buffer_ok (buf c) → writable p →
  ∃ b, (idle_run (IdleShowPrompt p) c).1 = set_buf b c ∧ buffer_ok b ∧ line_start b = get_end b ∧
    (text b).*1 = (text (buf c)).*1 ++ shown_chars p.
Proof.
  intros Hb Hp. destruct (prompt_ok p (buf c) Hb Hp) as (b & Hrun & Hok & Hend & Ht).
  exists b. pose proof (on_buf_run _ _ _ Hrun) as Hrun'. split; [unfold idle_run; by rewrite Hrun'|].
  split; [done|]. split; [done|]. by rewrite Ht, fmap_app, written_fst.
Qed.
Lemma idle_change s c :
  buffer_ok (buf c) → newline ∉ line_chars (buf c) → plain s →
  ∃ b, (idle_run (IdleChangeLine s) c).1 = set_buf b c ∧ buffer_ok b ∧ line_start b = line_start (buf c) ∧
    take (line_start b) (text b) = take (line_start b) (text (buf c)) ∧ getCurrentLine b = s.
Proof.
  intros Hb Hl Hs. destruct (change_line_ok s (buf c) Hb Hl (plain_writable s Hs)) as (b & Hrun & Hok & Hls & Ht).
  exists b. pose proof (on_buf_run _ _ _ Hrun) as Hrun'. split; [unfold idle_run; by rewrite Hrun'|].
  assert (length (take (line_start (buf c)) (text (buf c))) = line_start (buf c)) as Hlen.
  { rewrite length_take. unfold buffer_ok, get_end in Hb. lia. }
  split; [done|]. split; [done|]. rewrite Hls. split.
  - rewrite Ht, take_app_le by lia. apply take_take_idemp_le || by rewrite take_take, Nat.min_id.
  - unfold getCurrentLine. fold (line_chars b).
    rewrite (line_of b _ _ Ht) by lia. rewrite written_fst, shown_plain by done. apply of_chars_chars.
Qed.
(** Where the command line starts after a completion: after the listing of the
    matches and a new prompt, if there are several. *)
Definition before_line (c : console) (r : string * list string) : list ascii :=
  if decide (1 < length r.2)%nat then
    (text (buf c)).*1 ++ mjoin ((λ s, chars s ++ [newline]) <$> "" :: r.2) ++ shown_chars (prompt c)
  else (take (line_start (buf c)) (text (buf c))).*1.

(** C25: When Tab is pressed on a command line of one line and the event loop
    has run, the line is the completion: in place of the last word the longest
    common prefix of the matches, or, when they have nothing in common, the
    last character of the line; without matches the line as it was.  When every
    match goes on from the typed word, nothing that was typed is lost.  Before
    the line is the text that was there, with a list of the matches and a new
    prompt when there are several.  The line that is written and the matches
    have no escape characters, and the prompt has known colors. *)
Theorem tab_completes k c :
  val k = KTab → idle c = [] → buffer_ok (buf c) → newline ∉ line_chars (buf c) →
  let line := getCurrentLine (buf c) in
  let r := complete (IP c) line in
  blank line = false → Forall plain (r.1 :: r.2) → writable (prompt c) →
  let c' := run_idle (onKeyPress k c).1 in
  (onKeyPress k c).2 = Ok true ∧
  completion (IP c) line r.1 r.2 ∧
  ((∀ t, t ∈ r.2 → last_word (chars line) `prefix_of` chars t) → chars line `prefix_of` chars r.1) ∧
  getCurrentLine (buf c') = r.1 ∧ (take (line_start (buf c')) (text (buf c'))).*1 = before_line c r.
Proof.
  intros Hk Hidle Hb Hnl line r Hl [Hp1 Hp2]%Forall_cons Hprompt c'.
  pose proof (complete_spec (IP c) line) as Hcomp. fold r in Hcomp.
  destruct (key_cursor k c) as (b & Hkey & Ht & Hls & Hbok & _); [by rewrite Hk|by rewrite Hk|done|].
  assert (getCurrentLine b = line) as Hline by (unfold getCurrentLine; by rewrite Ht, Hls).
  assert (line_chars b = line_chars (buf c)) as Hlc by (unfold line_chars; by rewrite Ht, Hls).
  pose proof (tab_extend k (set_buf b c) Hk) as Htab. simpl in Htab. rewrite Hline in Htab. specialize (Htab Hl).
  fold r in Htab. subst c'. rewrite Hkey, Htab. split; [done|]. split; [done|].
  split; [by eapply completion_extends|]. simpl fst. unfold run_idle. simpl. rewrite Hidle. simpl.
  set (c0 := set_idle [] _). assert (buf c0 = b) as Hc0 by done. assert (prompt c0 = prompt c) as Hpr by done.
  unfold tab_calls, before_line. change (prompt (set_buf b c)) with (prompt c). case_decide as Hmany.
  - rewrite !foldl_app. cbn [foldl].
    destruct (idle_writes ("" :: r.2) c0) as (b1 & H1 & Hok1 & Ht1); [by rewrite Hc0|by constructor; [apply not_elem_of_nil|]|].
    rewrite H1. destruct (idle_prompt (prompt c) (set_buf b1 c0)) as (b2 & H2 & Hok2 & Hend2 & Ht2); [done|done|].
    rewrite H2. destruct (idle_change r.1 (set_buf b2 (set_buf b1 c0))) as (b3 & H3 & Hok3 & Hls3 & Htake3 & Hcur3).
    { done. } { simpl. rewrite line_at_end by done. apply not_elem_of_nil. } { done. }
    rewrite H3. split; [done|]. cbn [buf set_buf] in *. rewrite Htake3, Hls3, Hend2. unfold get_end.
    rewrite take_ge by lia. rewrite Ht2, Ht1, Hc0, Ht. by rewrite app_assoc.
  - cbn [foldl app]. destruct (idle_change r.1 c0) as (b3 & H3 & Hok3 & Hls3 & Htake3 & Hcur3).
    { by rewrite Hc0. } { by rewrite Hc0, Hlc. } { done. }
    rewrite H3. split; [done|]. cbn [buf set_buf] in *. by rewrite Htake3, Hls3, Hc0, Ht, Hls.
Qed.

(** ** History *)

(** The lines of the history, the latest first. *)
Definition entries (c : console) : list string := strip_newlines <$> reverse (In_ (IP c)).
(** How many of them can be reached: those before the first empty one. *)
Fixpoint nonempty (l : list string) : nat :=
  match l with [] => O | s :: l => if decide (s = "") then O else S (nonempty l) end.
(** What is shown [n] lines back; at the start the first of the list. *)
Definition entry_at (c : console) (n : nat) : string :=
  match n with O => default "" (strip_newlines <$> head (In_ (IP c))) | S k => default "" (entries c !! k) end.
Definition walk (m n : nat) (back : bool) : nat := if back then S n `min` m else pred n.
Fixpoint positions (m n : nat) (moves : list bool) : list nat :=
  match moves with [] => [] | b :: moves => walk m n b :: positions m (walk m n b) moves end.
Fixpoint run_moves (moves : list bool) : eff console exn (list string) :=
  match moves with
  | [] => mret []
  | b :: moves =>
      s ← (if (b : bool) then historyBack else historyForward);
      l ← run_moves moves; mret (s :: l)
  end.

Lemma get_history_run n c : history_level c = - Z.of_nat n → _getHistory c = (c, Ok (entry_at c n)).
Proof.
  intros Hn. unfold _getHistory. autorewrite with eff. rewrite Hn. unfold mret, eff_ret. do 2 f_equal.
  destruct n as [|n]; unfold entry_at, entries.
  - simpl. rewrite (py_index_nat _ 0). by destruct (In_ (IP c)).
  - rewrite list_lookup_fmap. unfold py_index. cbv zeta.
    rewrite (decide_True (P := (- Z.of_nat (S n) < 0))) by lia.
    destruct (decide (n < length (In_ (IP c)))%nat) as [Hlt|Hge].
    + rewrite decide_False by lia. rewrite reverse_lookup by done.
      replace (Z.to_nat (Z.of_nat (length (In_ (IP c))) + - Z.of_nat (S n)))
        with (length (In_ (IP c)) - S n)%nat by lia. by destruct (In_ (IP c) !! _).
    + rewrite decide_True by lia. rewrite (lookup_ge_None_2 (reverse _)); [done|]. rewrite length_reverse. lia.
Qed.
Lemma nonempty_lookup l k : (k < nonempty l)%nat ↔ ∀ j, (j ≤ k)%nat → ∃ s, l !! j = Some s ∧ s ≠ "".
Proof.
  revert k. induction l as [|s l IH]; intros k; simpl.
  { split; [lia|]. intros Hk. destruct (Hk O) as (s & ? & _); [lia|done]. }
  case_decide as Hs.
  { split; [lia|]. intros Hk. destruct (Hk O) as (s' & ? & ?); [lia|]. by simplify_eq/=. }
  destruct k as [|k].
  { split; [|lia]. intros _ j Hj. assert (j = O) as -> by lia. by exists s. }
  rewrite <-Nat.succ_lt_mono, IH. split.
  - intros Hk [|j] Hj; [by exists s|]. apply Hk. lia.
  - intros Hk j Hj. apply (Hk (S j)). lia.
Qed.
Lemma entry_nonempty c n : (n ≤ nonempty (entries c))%nat → entry_at c (S n) = "" ↔ n = nonempty (entries c).
Proof.
  intros Hn. simpl. split.
  - intros E. destruct (decide (n < nonempty (entries c))%nat) as [Hlt|]; [|lia].
    apply nonempty_lookup with (j := n) in Hlt as (s & Hs & Hne); [|done]. by rewrite Hs in E.
  - intros ->. destruct (entries c !! nonempty (entries c)) as [s|] eqn:Es; [|done]. simpl.
    destruct (decide (s = "")) as [|Hne]; [done|].
    assert (nonempty (entries c) < nonempty (entries c))%nat; [|lia].
    apply nonempty_lookup. intros j Hj. destruct (decide (j = nonempty (entries c))) as [->|]; [by exists s|].
    assert (j < nonempty (entries c))%nat as Hlt by lia. by apply nonempty_lookup with (j := j) in Hlt.
Qed.
Lemma set_level_twice i j c : set_level i (set_level j c) = set_level i c.
Proof. by destruct c. Qed.
Lemma same_level c' n c :
  c' = set_level (- Z.of_nat n) c → (c', Ok (entry_at c' n)) = (set_level (- Z.of_nat n) c, Ok (entry_at c n) : res string).
Proof. by intros ->. Qed.
Lemma move_run b n c :
  history_level c = - Z.of_nat n → (n ≤ nonempty (entries c))%nat →
  let n' := walk (nonempty (entries c)) n b in
  (if b then historyBack else historyForward) c = (set_level (- Z.of_nat n') c, Ok (entry_at c n')).
Proof.
  intros Hlev Hn n'. subst n'. destruct b; cbn [walk].
  - unfold historyBack. autorewrite with eff. erewrite bind_run by (apply (get_history_run (S n)); cbn -[Z.of_nat]; lia).
    destruct (decide (n = nonempty (entries c))) as [E|Hne].
    + rewrite decide_True by (by apply entry_nonempty). autorewrite with eff.
      rewrite Nat.min_r, <-E by lia. erewrite (get_history_run n) by (cbn -[Z.of_nat]; lia). apply same_level. rewrite set_level_twice. f_equal. cbn -[Z.of_nat]. lia.
    + rewrite decide_False by (intros E; by apply entry_nonempty in E). autorewrite with eff.
      rewrite Nat.min_l by lia. erewrite (get_history_run (S n)) by (cbn -[Z.of_nat]; lia).
      apply same_level. f_equal. lia.
  - unfold historyForward. autorewrite with eff. case_decide as Hneg.
    + autorewrite with eff. erewrite (get_history_run (pred n)) by (cbn -[Z.of_nat]; lia).
      apply same_level. f_equal. lia.
    + autorewrite with eff. assert (n = O) as -> by lia. rewrite (get_history_run 0) by lia.
      destruct c; simpl in *; by subst.
Qed.

(** ** Lines that are entered *)

(** A line that is entered goes to IPython: when it completes a cell the cell
    is run and its output is shown with a new prompt.  The prompt is the one
    that IPython gives before the run, which still has the number of the
    cell that was entered. *)
Theorem process_line c :
  interrupt c = false →
  let sh := push (getCurrentLine (buf c)) (IP c) in
  let out := cout c +:+ (if push_accepts_more sh then "" else (run_cell sh).2) in
  ∃ c', _processLine c = (c', Ok ()) ∧
    IP c' = (if push_accepts_more sh then sh else (run_cell sh).1) ∧
    iter_more c' = push_accepts_more sh ∧ prompt c' = generatePrompt sh (push_accepts_more sh) ∧
    idle c' = idle c ++ [IdleShowReturned (strip_newlines out)] ∧
    buf c' = buf c ∧ history_level c' = 0 ∧ cout c' = "".
Proof.
  intros Hi sh out. destruct c as [ip b id p i more lev ind co]. simpl in Hi. subst i. simpl in sh, out.
  unfold _processLine, execute, read_line, raw_input, on_line, new_prompt, showReturned, later. autorewrite with eff.
  unfold mbind, eff_bind; simpl. destruct (more && autoindent ip); simpl; fold sh; subst out; clearbody sh;
    destruct (push_accepts_more sh); simpl; rewrite ?append_nil_r; try destruct (run_cell sh) as [sh' o];
    eexists; simpl; (split; [reflexivity|]); by split_and!.
Qed.
(** An interrupt empties the splitter but leaves [iter_more]: after an
    unfinished cell the prompt is still the one that continues it. *)
Theorem interrupted_line c :
  interrupt c = true →
  ∃ c', _processLine c = (c', Ok ()) ∧ IP c' = splitter_reset (IP c) ∧ interrupt c' = false ∧
    iter_more c' = iter_more c ∧ prompt c' = generatePrompt (IP c) (iter_more c).
Proof.
  intros Hi. destruct c as [ip b id p i more lev ind co]. simpl in Hi. subst i.
  unfold _processLine, execute, read_line, raw_input, on_interrupt, new_prompt, showReturned, later. autorewrite with eff.
  unfold mbind, eff_bind; simpl. destruct (more && autoindent ip); simpl; eexists; (split; [reflexivity|]); by split_and!.
Qed.
End console.

(** ** Examples *)

(** A shell that only knows two names, and reads a line at a time. *)
#[local] Instance demo_shell : IPython := {|
  shell := list string; In_ l := l;
  ip_complete _ w := (w, filter (λ s, startswith s w) ["print"; "property"; "range"]);
  generatePrompt l more := if more then "...: " else String ESC ("[0;32mIn [" +:+ pretty (Z.of_nat (length l)) +:+ "]: ");
  push s l := l ++ [s]; push_accepts_more _ := false; splitter_reset l := l;
  run_cell l := (l, "done" +:+ String newline ""); indent_spaces _ := 4%nat; autoindent _ := true;
|}.
Definition demo_console (line : string) : console :=
  Console ["" ; "a = 1"; ""; "b = 2"] (Buffer (tagged ["notouch"] ">>> " ++ tagged [] line) 4 4 4) [] "In: " false false 0 false "".
Definition tab_key : key := {| val := KTab; ctrl := false; mod1 := false; shift := false; printable := true |}.
Definition after (k : key) (c : console) : console := run_idle (onKeyPress k c).1.
Example tab_one : getCurrentLine (buf (after tab_key (demo_console "x = ran"))) = "x = range".
Proof. vm_compute. reflexivity. Qed.
Lemma tab_completes_witness :
  getCurrentLine (buf (after tab_key (demo_console "x = (p"))) = "x = (pr".
Proof.
  refine (proj1 (proj2 (proj2 (proj2 (tab_completes tab_key (demo_console "x = (p") eq_refl eq_refl _ _ _ _ _))))).
  - vm_compute. lia.
  - apply (bool_decide_unpack _). vm_compute. exact I.
  - apply (bool_decide_unpack _). vm_compute. exact I.
  - apply (bool_decide_unpack _). vm_compute. exact I.
  - apply plain_writable. apply (bool_decide_unpack _). vm_compute. exact I.
Defined.
(** A shell whose magic names start with a percent sign: the match does not go
    on from the word, and takes its place.  With two matches that have nothing
    in common the typed word is lost but for its last character. *)
Definition magic_shell (names : list string) : IPython := {|
  shell := list string; In_ l := l; ip_complete _ w := (w, names); generatePrompt _ _ := "In: ";
  push s l := l ++ [s]; push_accepts_more _ := false; splitter_reset l := l;
  run_cell l := (l, ""); indent_spaces _ := 4%nat; autoindent _ := true;
|}.
Example tab_replaces_word :
  complete (H := magic_shell ["%time"; "%timeit"]) [] "x = ti" = ("x = %time", ["%time"; "%timeit"]) ∧
  complete (H := magic_shell ["time"; "%time"]) [] "x = ti" = ("x = i", ["time"; "%time"]).
Proof. split; vm_compute; reflexivity. Qed.
(** A colored text that is the code of the next color is written for it, and
    the rest is lost. *)
Definition red (s : string) : string := String ESC ("[1;31m" +:+ s +:+ String ESC "[0m").
Definition empty_buffer : buffer := Buffer [] 0 0 0.
Example red_one : of_chars (text (_write (red "1" +:+ "!") true empty_buffer).1).*1 = "1!".
Proof. vm_compute. reflexivity. Qed.
Example red_zero : of_chars (text (_write (red "0" +:+ "!") true empty_buffer).1).*1 = "00".
Proof. vm_compute. reflexivity. Qed.
Example prompt_writable : bool_decide (colors_ok [] (pieces (generatePrompt (["a"] : shell) false)).2).
Proof. vm_compute. exact I. Qed.
