(* ===== verification/VizPlugins.v ===== *)
(** * visualizer/base.py and core.py: plugins and the start
    The registration and the loading of the plugins, the hooks that run after
    the start, and [start] itself as the calls that it makes.  What a module
    comes to when it is imported, and the listing of the directory, are
    arguments. *)
From Stdlib Require Import Ascii.
From S2P Require Import Prelude PyStr PyFormat PyPath PyFloat VizNodes.
#[local] Open Scope Z_scope.

(** ** Plugins *)

(** What [__import__] of a name comes to; [func] is the function [register]
    of the module, if it has one. *)
Inductive imported : Type :=
| Module_ (func : option nat)
| ImportError (msg : string)
| Raises (e : exn).
Record base := Base {
  plugins : list nat;
  plugin_modules : list (string * nat);   (* by the name of the plugin *)
  plugins_loaded : bool;
  sys_path : list string;
  messages : list string;                  (* on the standard error output *)
}.
Abbreviation lio := (eff base exn unit).
Definition register_plugin (plugin_init_func : nat) (plugin_name : string) : lio := modify (λ b,
  Base (plugins b ++ [plugin_init_func]) (dict_set (plugin_modules b) plugin_name plugin_init_func)
    (plugins_loaded b) (sys_path b) (messages b)).
Definition set_path (p : list string) : lio := modify (λ b,
  Base (plugins b) (plugin_modules b) (plugins_loaded b) p (messages b)).
Definition set_loaded : lio := modify (λ b,
  Base (plugins b) (plugin_modules b) true (sys_path b) (messages b)).
Definition warn (s : string) : lio := modify (λ b,
  Base (plugins b) (plugin_modules b) (plugins_loaded b) (sys_path b) (messages b ++ [s])).
(** One turn of the loop over the files. *)
Definition load_file (import : string → imported) (filename : string) : lio :=
  let '(name, ext) := splitext filename in
  if decide (ext ≠ ".py") then mret ()
  else
    match import name with
    | ImportError msg => warn ("Could not load plugin " +:+ repr_string filename +:+ ": " +:+ msg)
    | Raises e => throw e
    | Module_ None => warn ("Plugin " +:+ repr_string name +:+ " has no 'register' function")
    | Module_ (Some func) => register_plugin func name
    end.
Definition load_plugins (plugins_dir : string) (listdir : list string) (import : string → imported) : lio :=
  loaded ← gets plugins_loaded;
  if (loaded : bool) then mret ()
  else
    _ ← set_loaded;
    old_path ← gets sys_path;
    _ ← set_path (plugins_dir :: old_path);
    _ ← for_each (load_file import) listdir;
    set_path old_path.

(** ** Hooks and start *)

(** The calls of [start], in order. *)
Inductive call : Type :=
| NoSupport (msg : string)        (* printed; the simulation runs without a view *)
| SimulatorRun
| Initialize (plugin : nat)       (* plugin(visualizer) *)
| IdleAdd (hook : nat)
| EnablePrinting
| StartVisualizer.
(** The bounds of [set_bounds] become a hook that sets those of the canvas. *)
Definition set_bounds (x1 y1 x2 y2 : float) : res (float * float * float * float) :=
  if flt x1 x2 then
    if flt y1 y2 then
      let '(cx1, cy1) := transform_point_simulation_to_canvas x1 y1 in
      let '(cx2, cy2) := transform_point_simulation_to_canvas x2 y2 in
      Ok (cx1, cy1, cx2, cy2)
    else Err AssertionError
  else Err AssertionError.
(** [instance] tells that there is a visualizer already. *)
Definition start (instance : bool) (import_error : option string) (hooks : list nat)
    (plugins_dir : string) (listdir : list string) (import : string → imported)
    : eff (base * list call) exn unit :=
  if instance then throw AssertionError
  else
    match import_error with
    | Some msg => modify (λ s, (s.1, s.2 ++ [NoSupport ("No visualization support (" +:+ msg +:+ ")."); SimulatorRun]))
    | None =>
        _ ← zoom_fst (load_plugins plugins_dir listdir import);
        ps ← gets (λ s, plugins s.1);
        modify (λ s, (s.1, s.2 ++ (Initialize <$> ps) ++ (IdleAdd <$> hooks) ++ [EnablePrinting; StartVisualizer]))
    end.

(** ** What is loaded *)

(** The functions of the files that can be imported and have one, by name. *)
Definition registers (import : string → imported) (filename : string) : option (string * nat) :=
  let '(name, ext) := splitext filename in
  if decide (ext ≠ ".py") then None
  else match import name with Module_ (Some f) => Some (name, f) | _ => None end.
Definition fails (import : string → imported) (filename : string) : option exn :=
  let '(name, ext) := splitext filename in
  if decide (ext ≠ ".py") then None else match import name with Raises e => Some e | _ => None end.
Lemma load_file_run import f b :
  match fails import f with
  | Some e => load_file import f b = (b, Err e)
  | None => ∃ b', load_file import f b = (b', Ok ()) ∧ sys_path b' = sys_path b ∧
      plugins_loaded b' = plugins_loaded b ∧
      plugins b' = plugins b ++ option_list (snd <$> registers import f)
  end.
Proof.
  unfold load_file, fails, registers. destruct (splitext f) as [name ext]. case_decide.
  { exists b. by rewrite app_nil_r. }
  destruct (import name) as [[g|]|m|e]; [..|done]; eexists; (split; [reflexivity|]); simpl; by rewrite ?app_nil_r.
Qed.
(** The files up to the first whose import raises are loaded. *)
Lemma load_files_run import l b :
  ∃ b' dn rest, l = dn ++ rest ∧ sys_path b' = sys_path b ∧ plugins_loaded b' = plugins_loaded b ∧
    plugins b' = plugins b ++ (omap (registers import) dn).*2 ∧ Forall (λ f, fails import f = None) dn ∧
    ((rest = [] ∧ for_each (load_file import) l b = (b', Ok ())) ∨
     ∃ f l2 e, rest = f :: l2 ∧ fails import f = Some e ∧ for_each (load_file import) l b = (b', Err e)).
Proof.
  revert b. induction l as [|f l IH]; intros b.
  { exists b, [], []. split_and!; try done; [by rewrite app_nil_r|by left]. }
  pose proof (load_file_run import f b) as Hf. destruct (fails import f) as [e|] eqn:Ef.
  - exists b, [], (f :: l). split_and!; try done; [by rewrite app_nil_r|]. right. exists f, l, e.
    split; [done|]. split; [done|]. cbn [for_each]. by rewrite (bind_run_err _ _ _ _ _ Hf).
  - destruct Hf as (b1 & Hrun & Hp & Hld & Hpl). destruct (IH b1) as (b2 & dn & rest & -> & Hp2 & Hld2 & Hpl2 & Hdn & Hcase).
    exists b2, (f :: dn), rest. cbn [for_each]. rewrite (bind_run _ _ _ _ _ Hrun). split_and!.
    + done.
    + congruence.
    + congruence.
    + rewrite Hpl2, Hpl, <-app_assoc. f_equal. csimpl. by destruct (registers import f) as [[]|].
    + by constructor.
    + destruct Hcase as [?|(g & l2 & e & ? & ? & ?)]; [by left|right]. by exists g, l2, e.
Qed.

(** Loading registers the plugins of the directory in the order of its
    listing, up to the first module whose import raises something else than an
    ImportError; then the path of the modules is not put back.  It is done
    once: a second call changes nothing, also after an exception. *)
Theorem load_plugins_once dir listdir import b :
  plugins_loaded b = false →
  ∃ b' dn rest r, load_plugins dir listdir import b = (b', r) ∧ listdir = dn ++ rest ∧
    plugins b' = plugins b ++ (omap (registers import) dn).*2 ∧ Forall (λ f, fails import f = None) dn ∧
    match rest with
    | [] => r = Ok () ∧ sys_path b' = sys_path b
    | f :: _ => (∃ e, fails import f = Some e ∧ r = Err e) ∧ sys_path b' = dir :: sys_path b
    end ∧
    ∀ dir' listdir' import', load_plugins dir' listdir' import' b' = (b', Ok ()).
Proof.
  intros Hb. unfold load_plugins at 1. rewrite bind_gets, Hb. unfold set_loaded, set_path. autorewrite with eff.
  set (b0 := Base _ _ _ (dir :: _) _).
  destruct (load_files_run import listdir b0) as (b1 & dn & rest & Hl & Hp & Hld & Hpl & Hdn & [[-> Hrun]|(f & l2 & e & -> & He & Hrun)]).
  - rewrite (bind_run _ _ _ _ _ Hrun). eexists _, dn, [], _. split; [reflexivity|]. simpl.
    split_and!; try done. intros. unfold load_plugins. by rewrite bind_gets, Hld.
  - rewrite (bind_run_err _ _ _ _ _ Hrun). exists b1, dn, (f :: l2), (Err e).
    split_and!; try done; [by exists e|]. intros. unfold load_plugins. by rewrite bind_gets, Hld.
Qed.

(** ** Examples *)

Definition demo_listing : list string := ["olsr.py"; ".py"; "README"; "mesh.py"; "hook.py"; "late.py"].
Definition demo_import (name : string) : imported :=
  if decide (name = "olsr") then Module_ (Some 1%nat)
  else if decide (name = "mesh") then ImportError "No module named ns.mesh"
  else if decide (name = "hook") then Raises (PyException "RuntimeError")
  else Module_ (Some 2%nat).
Definition demo_base : base := Base [] [] false ["/usr/lib"] [].
Example demo_load :
  load_plugins "plugins" demo_listing demo_import demo_base =
  (Base [1%nat] [("olsr", 1%nat)] true ["plugins"; "/usr/lib"]
     ["Could not load plugin 'mesh.py': No module named ns.mesh"], Err (PyException "RuntimeError")).
Proof. vm_compute. reflexivity. Qed.
Lemma load_plugins_once_witness :
  ∃ b', load_plugins "plugins" demo_listing demo_import demo_base = (b', Err (PyException "RuntimeError")) ∧
    load_plugins "plugins" demo_listing demo_import b' = (b', Ok ()).
Proof.
  destruct (load_plugins_once "plugins" demo_listing demo_import demo_base eq_refl)
    as (b' & dn & rest & r & Hrun & _ & _ & _ & _ & Hagain).
  exists b'. split; [|apply Hagain]. rewrite demo_load in Hrun |- *. by simplify_eq.
Defined.
