(* ===== verification/VizTooltips.v ===== *)
(** * visualizer/core.py: tooltips and screenshots
    The search of the object under the pointer, the text of the tooltip of a
    node, the tooltip of a wireless link, and the file that a screenshot is
    written to, as the calls on cairo.  What the simulator and the canvas
    answer is an argument. *)
From Stdlib Require Import Ascii SpecFloat.
From S2P Require Import Prelude PyStr PyPath PyNum PyFloat VizNodes VizFlows VizPlugins.
#[local] Open Scope Z_scope.

(** ** The object under the pointer: [_canvas_tooltip_cb] *)

(** Items of the canvas by number: the object of the visualizer that is set on
    an item, and its parent. *)
Record items := { pyviz_object : nat → option nat; item_parent : nat → option nat }.
(** [while item is not None]: the answer is the object that is asked. *)
Fixpoint object_of (fuel : nat) (it : items) (item : option nat) : res (option nat) :=
  match fuel with
  | O => Err Diverges
  | S fuel =>
      match item with
      | None => Ok None
      | Some i =>
          match pyviz_object it i with
          | Some o => Ok (Some o)
          | None => object_of fuel it (item_parent it i)
          end
      end
  end.
(** [at_point] is the item at the position of the pointer in the canvas. *)
Definition _canvas_tooltip_cb `{VizLib} (fuel : nat) (c : controls) (bounds : float * float * float * float)
    (it : items) (at_point : float → float → option nat) (x y : float) : res (option nat) :=
  let '(x, y) := convert_from_pixels bounds (canvas_scale c)
    (fadd (value (hadj c)) x) (fadd (value (vadj c)) y) in
  match at_point x y with
  | None => Ok None
  | Some i => object_of fuel it (Some i)
  end.

(** ** Tooltips *)

(** A device: its name, type and address, and its addresses with their masks
    or prefixes where it is an interface of IPv4 or IPv6. *)
Record tip_device := {
  tip_name : string; tip_type : string; tip_address : string;
  tip_ipv4 : option (list (string * string)); tip_ipv6 : option (list (string * string));
}.
Record tip_node := {
  node_name : string; has_ipv4 : bool; has_ipv6 : bool; mobility_type : option string;
  devices : list tip_device;
}.
Definition addresses (title : string) (has : bool) (l : option (list (string * string))) : list string :=
  match has, l with
  | true, Some l => ["    <b>" +:+ title +:+ " Addresses:</b> " +:+ join "; " ((λ a, a.1 +:+ "/" +:+ a.2) <$> l)]
  | _, _ => []
  end.
(** One turn of the loop over the devices. *)
Definition device_lines (n : tip_node) (devI : nat) (d : tip_device) : list string :=
  [""; "  <u>NetDevice " +:+ pretty (Z.of_nat devI) +:+ ":</u>"] ++
  (if decide (tip_name d = "") then [] else ["    <b>Name:</b> " +:+ tip_name d]) ++
  ["    <b>Type:</b> " +:+ tip_type d] ++
  addresses "IPv4" (has_ipv4 n) (tip_ipv4 d) ++ addresses "IPv6" (has_ipv6 n) (tip_ipv6 d) ++
  ["    <b>MAC Address:</b> " +:+ tip_address d].
(** [Node.tooltip_query]; [extra] is what the handlers of the signal
    query-extra-tooltip-info append. *)
Definition tooltip_query (node_index : Z) (n : tip_node) (extra : list string) : string :=
  let name := "<b><u>Node " +:+ pretty node_index +:+ "</u></b>" in
  let name := if decide (node_name n = "") then name else name +:+ " <b>(" +:+ node_name n +:+ ")</b>" in
  let lines := [name; ""] ++ extra in
  let lines := match mobility_type n with
               | Some t => lines ++ ["  <b>Mobility Model</b>: " +:+ t] | None => lines end in
  join (String newline "") (lines ++ mjoin (imap (device_lines n) (devices n))).
(** [WifiLink.tooltip_query]: a link without an access point has no second
    node. *)
Definition link_tooltip (station : Z * (float * float)) (ap : option (Z * (float * float)))
    (ssid bssid : string) : res string :=
  match ap with
  | None => Err AttributeError
  | Some (j, (x2, y2)) =>
      let '(i, (x1, y1)) := station in
      let dx := fsub x2 x1 in let dy := fsub y2 y1 in
      let d := transform_distance_canvas_to_simulation (SFsqrt prec64 emax64 (fadd (fmul dx dx) (fmul dy dy))) in
      Ok ("WiFi link between STA Node " +:+ pretty i +:+ " and AP Node " +:+ pretty j +:+
          "; distance=" +:+ format_fixed 2 d +:+ " m." +:+ String newline "" +:+
          "SSID: " +:+ ssid +:+ String newline "" +:+ "BSSID: " +:+ bssid)
  end.

(** ** Screenshots: [_take_screenshot] *)

Inductive surface : Type := PSSurface | PDFSurface | SVGSurface.
Inductive draw_call : Type :=
| NewSurface (k : surface) (file_name : string) (width height : float)
| Translate (x y : float)
| Render (x1 y1 x2 y2 zoom : float)
| ShowPage
| Finish
| ErrorDialog (text : string).
Definition lower_char (a : ascii) : ascii :=
  let n := nat_of_ascii a in if ((65 <=? n) && (n <=? 90))%nat then ascii_of_nat (n + 32) else a.
Definition lower (s : string) : string := of_chars (lower_char <$> chars s).
Definition surface_of (extension : string) : option surface :=
  if decide (extension = ".eps") then Some PSSurface
  else if decide (extension = ".pdf") then Some PDFSurface
  else if decide (extension = ".svg") then Some SVGSurface
  else None.
(** [answer] is the name that was chosen in the dialog, if any. *)
Definition _take_screenshot `{VizLib} (c : controls) (bounds : float * float * float * float) (zoom : float)
    (answer : option string) : list draw_call :=
  match answer with
  | None => []
  | Some file_name =>
      let x1 := value (hadj c) in let y1 := value (vadj c) in
      let x2 := fadd x1 (page_size (hadj c)) in let y2 := fadd y1 (page_size (vadj c)) in
      let '(bx1, by1) := convert_from_pixels bounds (canvas_scale c) x1 y1 in
      let '(bx2, by2) := convert_from_pixels bounds (canvas_scale c) x2 y2 in
      let extension := lower (splitext file_name).2 in
      match surface_of extension with
      | Some k =>
          [NewSurface k file_name (fsub bx2 bx1) (fsub by2 by1); Translate (fneg bx1) (fneg by1);
           Render bx1 by1 bx2 by2 zoom; ShowPage; Finish]
      | None => [ErrorDialog ("Unknown extension '" +:+ extension +:+
                   "' (valid extensions are '.eps', '.svg', and '.pdf')")]
      end
  end.

(** ** What is found and written *)

(** The object of the nearest item, from [i] up, that has one. *)
Inductive nearest (it : items) : nat → option nat → Prop :=
| nearest_here i o : pyviz_object it i = Some o → nearest it i (Some o)
| nearest_up i p r : pyviz_object it i = None → item_parent it i = Some p → nearest it p r → nearest it i r
| nearest_none i : pyviz_object it i = None → item_parent it i = None → nearest it i None.
(** Where parents have a smaller rank the search under the pointer ends and
    answers the object of the nearest item that has one. *)
Theorem object_found rank fuel it i :
  (∀ i p, item_parent it i = Some p → (rank p < rank i)%nat) → (rank i + 1 < fuel)%nat →
  ∃ r, object_of fuel it (Some i) = Ok r ∧ nearest it i r.
Proof.
  intros Hr. revert i. induction fuel as [|fuel IH]; intros i Hf; [lia|]. cbn [object_of].
  destruct (pyviz_object it i) as [o|] eqn:Ho; [exists (Some o); split; [done|by constructor]|].
  destruct (item_parent it i) as [p|] eqn:Hp.
  - destruct (IH p) as (r & Hrun & Hn); [apply Hr in Hp; lia|]. exists r. split; [done|]. by eapply nearest_up.
  - exists None. split; [destruct fuel; [lia|done]|by constructor].
Qed.
(** A screenshot is one drawing, to the file that was chosen, exactly when its
    extension is known in any case of its letters; otherwise nothing is drawn. *)
Theorem screenshot_file `{VizLib} c bounds zoom file_name :
  (∃ k w h, NewSurface k file_name w h ∈ _take_screenshot c bounds zoom (Some file_name)) ↔
  lower (splitext file_name).2 ∈ [".eps"; ".pdf"; ".svg"].
Proof.
  unfold _take_screenshot. destruct (convert_from_pixels _ _ _ _) as [bx1 by1].
  destruct (convert_from_pixels _ _ _ _) as [bx2 by2]. unfold surface_of. rewrite !elem_of_cons, elem_of_nil.
  repeat case_decide; (split; [intros _; tauto|intros _; eexists _, _, _; left]) || split; try naive_solver.
  intros (k & w & h & Hin%list_elem_of_singleton). done.
Qed.
Example screenshot_extensions :
  surface_of ∘ lower ∘ snd ∘ splitext <$> ["a.PDF"; "b.eps"; "dir.svg/c"; ".pdf"; "d.png"] =
  [Some PDFSurface; Some PSSurface; None; None; None].
Proof. reflexivity. Qed.
Example tooltip_text :
  tooltip_query 3 {| node_name := "ap"; has_ipv4 := true; has_ipv6 := false; mobility_type := None;
    devices := [{| tip_name := ""; tip_type := "ns3::WifiNetDevice"; tip_address := "00:01";
                   tip_ipv4 := Some [("10.0.0.1", "255.0.0.0")]; tip_ipv6 := None |}] |} [] =
  join (String newline "") ["<b><u>Node 3</u></b> <b>(ap)</b>"; ""; ""; "  <u>NetDevice 0:</u>";
    "    <b>Type:</b> ns3::WifiNetDevice"; "    <b>IPv4 Addresses:</b> 10.0.0.1/255.0.0.0";
    "    <b>MAC Address:</b> 00:01"].
Proof. reflexivity. Qed.
