(* ===== verification/NfdStatus.v ===== *)
(** * ndnSIM/NFD/tools/nfd-status-http-server.py
    The page of the status of NFD: what a request is answered, over what a run
    of nfdc came to, and the check of the port.  An answer is the list of the
    calls on the handler of http.server; files are served by that handler. *)
From Stdlib Require Import Ascii.
From S2P Require Import Prelude PyStr PyRe PyFormat PyFloat.
#[local] Open Scope Z_scope.

(** ** [urlsplit(target).path] *)

Definition is_alpha (a : ascii) : bool := let a := upper_char a in
  bool_decide (65 ≤ Z.of_N (Ascii.N_of_ascii a) ≤ 90).
Definition is_scheme_char (a : ascii) : bool := is_alpha a || is_digit a || bool_decide (a ∈ chars "+-.").
(** A scheme is letters, digits and three signs before the first colon. *)
Definition strip_scheme (l : list ascii) : list ascii :=
  match split1_chars ":" l with
  | ((c :: s) as scheme, Some rest) => if is_alpha c && forallb is_scheme_char scheme then rest else l
  | _ => l
  end.
Fixpoint take_netloc (l : list ascii) : list ascii * list ascii :=
  match l with
  | [] => ([], [])
  | a :: l' => if decide (a ∈ chars "/?#") then ([], l) else let '(n, r) := take_netloc l' in (a :: n, r)
  end.
Definition strip_netloc (l : list ascii) : res (list ascii) :=
  match l with
  | "/"%char :: "/"%char :: l =>
      let '(netloc, r) := take_netloc l in
      if bool_decide ("["%char ∈ netloc) && negb (bool_decide ("]"%char ∈ netloc)) ||
         bool_decide ("]"%char ∈ netloc) && negb (bool_decide ("["%char ∈ netloc))
      then Err (ValueError "Invalid IPv6 URL") else Ok r
  | _ => Ok l
  end.
Definition urlsplit_path (target : string) : res string :=
  l ← strip_netloc (strip_scheme (chars target));
  Ok (of_chars (split1_chars "?" (split1_chars "#" l).1).1).

(** ** The handler *)

(** What [check_output] of "nfdc status report xml" came to: the program could
    not be started, or its exit status and its output. *)
Inductive nfdc : Type := NotStarted (err : string) | Exited (returncode : Z) (output : string).
Record server := { allowRobots : bool; verbose : bool }.
Inductive action : Type :=
| LogLine (text : string)            (* a line on the standard error output *)
| SendError (code : Z) (message : option string)
| SendResponse (code : Z)
| SendHeader (key : string) (content : string)
| EndHeaders
| Write (body : string)
| ServeFile (path : string).         (* SimpleHTTPRequestHandler.do_GET *)
#[export] Instance action_eq_dec : EqDecision action.
Proof. solve_decision. Defined.
Abbreviation hio := (eff (list action) exn unit).

Definition say (a : action) : hio := modify (λ l, l ++ [a]).
(** [BaseHTTPRequestHandler.log_message(text)]: the text is a format without
    arguments. *)
Definition super_log_message (text : string) : hio :=
  t ← lift_res (percent_loop (S (String.length text)) "" true (chars text)); say (LogLine (of_chars t)).
(** The override, which the inherited methods log through. *)
Definition log_message (srv : server) (text : string) : hio :=
  if verbose srv then say (LogLine text) else mret ().
Definition send_error (srv : server) (code : Z) (message : option string) : hio :=
  _ ← log_message srv ("code " +:+ pretty code);
  _ ← log_message srv ("request " +:+ pretty code);
  say (SendError code message).
Definition send_response (srv : server) (code : Z) : hio :=
  _ ← log_message srv ("request " +:+ pretty code); say (SendResponse code).

Definition stylesheet : string :=
  "<?xml-stylesheet type=" +:+ String dquote ("text/xsl" +:+ String dquote (" href=" +:+
    String dquote ("nfd-status.xsl" +:+ String dquote "?>"))).
Definition __serveReport (srv : server) (n : nfdc) : hio :=
  match n with
  | NotStarted err =>
      _ ← super_log_message ("error invoking nfdc: " +:+ err);
      send_error srv 500 None
  | Exited code output =>
      if decide (code = 0) then
        match split1 ">" output with
        | (_, None) => throw (ValueError "substring not found")
        | (a, Some b) =>
            let xml := a +:+ ">" +:+ stylesheet +:+ b in
            _ ← send_response srv 200;
            _ ← say (SendHeader "Content-Type" "text/xml; charset=UTF-8");
            _ ← say EndHeaders;
            say (Write xml)
        end
      else
        _ ← super_log_message ("error invoking nfdc: command exited with status " +:+ pretty code);
        send_error srv 504 (Some ("Cannot connect to NFD (code " +:+ pretty code +:+ ")"))
  end.
Definition do_GET (srv : server) (n : nfdc) (target : string) : hio :=
  path ← lift_res (urlsplit_path target);
  if decide (path = "/") then __serveReport srv n
  else if bool_decide (path = "/robots.txt") && allowRobots srv then send_error srv 404 None
  else say (ServeFile path).

(** ** The port: [portNumber] of [main] *)
Definition portNumber (arg : string) : res Z :=
  let value := match int_str arg with Ok v => v | Err _ => -1 end in
  if decide (value < 0 ∨ value > 65535)
  then Err (PyException ("ArgumentTypeError: " +:+ repr_string arg +:+ " is not a valid port number"))
  else Ok value.

(** ** What is answered *)

Definition is_status (a : action) : bool :=
  match a with SendError _ _ | SendResponse _ | ServeFile _ => true | _ => false end.
Definition is_log (a : action) : bool := match a with LogLine _ => true | _ => false end.
Definition replies (l : list action) : list action := filter (λ a, negb (is_log a)) l.
(** What a request for a path is answered: nothing when the handler raises. *)
Definition answer (srv : server) (n : nfdc) (path : string) : list action :=
  if decide (path = "/") then
    match n with
    | NotStarted _ => [SendError 500 None]
    | Exited code output =>
        if decide (code = 0) then
          match split1 ">" output with
          | (a, Some b) => [SendResponse 200; SendHeader "Content-Type" "text/xml; charset=UTF-8"; EndHeaders;
                            Write (a +:+ ">" +:+ stylesheet +:+ b)]
          | (_, None) => []
          end
        else [SendError 504 (Some ("Cannot connect to NFD (code " +:+ pretty code +:+ ")"))]
    end
  else if bool_decide (path = "/robots.txt") && allowRobots srv then [SendError 404 None] else [ServeFile path].
Lemma percent_plain fuel l :
  (length l < fuel)%nat → "%"%char ∉ l → percent_loop fuel "" true l = Ok l.
Proof.
  revert l. induction fuel as [|fuel IH]; intros [|a l] Hf Hl; simpl in Hf; try lia; [done|]. cbn [percent_loop].
  rewrite decide_False by set_solver. rewrite IH; [done|lia|set_solver].
Qed.
Lemma super_log_plain text l : "%"%char ∉ chars text → super_log_message text l = (l ++ [LogLine text], Ok ()).
Proof.
  intros Ht. unfold super_log_message. rewrite percent_plain by (done || rewrite length_chars; lia).
  by rewrite bind_lift_ok, of_chars_chars.
Qed.
Lemma replies_app l k : replies (l ++ k) = replies l ++ replies k.
Proof. apply filter_app. Qed.
Lemma log_message_run srv text l : ∃ l', log_message srv text l = (l', Ok ()) ∧ replies l' = replies l.
Proof.
  unfold log_message. destruct (verbose srv); [|by exists l].
  exists (l ++ [LogLine text]). split; [done|]. rewrite replies_app. apply app_nil_r.
Qed.
Lemma send_error_run srv code m l :
  ∃ l', send_error srv code m l = (l', Ok ()) ∧ replies l' = replies l ++ [SendError code m].
Proof.
  unfold send_error. destruct (log_message_run srv ("code " +:+ pretty code) l) as (l1 & H1 & E1).
  destruct (log_message_run srv ("request " +:+ pretty code) l1) as (l2 & H2 & E2).
  rewrite (bind_run _ _ _ _ _ H1), (bind_run _ _ _ _ _ H2). eexists. split; [done|].
  by rewrite replies_app, E2, E1.
Qed.
Lemma send_response_run srv code l :
  ∃ l', send_response srv code l = (l', Ok ()) ∧ replies l' = replies l ++ [SendResponse code].
Proof.
  unfold send_response. destruct (log_message_run srv ("request " +:+ pretty code) l) as (l1 & H1 & E1).
  rewrite (bind_run _ _ _ _ _ H1). eexists. split; [done|]. by rewrite replies_app, E1.
Qed.
Lemma pretty_no_percent (z : Z) : "%"%char ∉ chars (pretty z).
Proof.
  assert (∀ z : Z, 0 ≤ z → "%"%char ∉ chars (pretty z)) as Hpos.
  { intros y Hy Hin. destruct (pretty_Z_digits y Hy) as (_ & Hd & _).
    unfold all_digits in Hd. rewrite Forall_forall in Hd. by apply Hd in Hin. }
  destruct z as [|p|p]; [by apply Hpos..|].
  change (pretty (Zneg p)) with ("-" +:+ pretty (Zpos p)). rewrite chars_app.
  intros [Hin|Hin]%elem_of_app; [by apply list_elem_of_singleton in Hin|by apply (Hpos (Zpos p)) in Hin].
Qed.

Definition no_percent (n : nfdc) : Prop := match n with NotStarted err => "%"%char ∉ chars err | Exited _ _ => True end.
(** Whatever is logged, a request is answered what its path and the run of
    nfdc ask for, once; only a report without the character > is not answered,
    with a ValueError: no exception comes after a part of an answer. *)
Theorem do_GET_answer srv n target path :
  urlsplit_path target = Ok path → no_percent n →
  replies (do_GET srv n target []).1 = answer srv n path ∧
  (do_GET srv n target []).2 =
    (if decide (answer srv n path = []) then Err (ValueError "substring not found") else Ok ()).
Proof.
  intros Hp Hn. unfold do_GET, answer. rewrite Hp, bind_lift_ok. case_decide as Hroot.
  - destruct n as [err|code output]; cbn [__serveReport].
    + erewrite bind_run by (apply super_log_plain; rewrite chars_app; set_solver).
      destruct (send_error_run srv 500 None ([] ++ [LogLine ("error invoking nfdc: " +:+ err)])) as (l & Hl & El).
      by rewrite decide_False, Hl.
    + destruct (decide (code = 0)) as [->|Hcode].
      * destruct (split1 ">" output) as [a [b|]]; [|by rewrite decide_True].
        destruct (send_response_run srv 200 []) as (l & Hl & El).
        rewrite decide_False by done. rewrite (bind_run _ _ _ _ _ Hl). unfold say. autorewrite with eff.
        simpl. by rewrite !replies_app, El.
      * erewrite bind_run by (apply super_log_plain; rewrite chars_app;
          intros [Hin|Hin]%elem_of_app; [by vm_compute in Hin; set_solver|by apply pretty_no_percent in Hin]).
        destruct (send_error_run srv 504 (Some ("Cannot connect to NFD (code " +:+ pretty code +:+ ")"))
          ([] ++ [LogLine ("error invoking nfdc: command exited with status " +:+ pretty code)])) as (l & Hl & El).
        by rewrite decide_False, Hl.
  - destruct (bool_decide _ && _); [|done].
    destruct (send_error_run srv 404 None []) as (l & Hl & El). by rewrite Hl.
Qed.

(** The report that is sent is the output with the stylesheet after its first
    [>]: what a browser reads without the instruction is what nfdc wrote. *)
Theorem report_body srv n body :
  Write body ∈ answer srv n "/" →
  ∃ a b, n = Exited 0 (a +:+ ">" +:+ b) ∧ (">"%char ∉ chars a) ∧ body = a +:+ ">" +:+ stylesheet +:+ b.
Proof.
  unfold answer. rewrite decide_True by done. destruct n as [err|code output].
  { intros ?%list_elem_of_singleton. done. }
  case_decide as Hc; [|by intros ?%list_elem_of_singleton]. subst code.
  pose proof (split1_chars_spec ">" (chars output)) as Hs. unfold split1.
  destruct (split1_chars ">" (chars output)) as [a [b|]]; cbn; [|by intros ?%not_elem_of_nil].
  destruct Hs as [Ho Ha]. rewrite !elem_of_cons. intros [?|[?|[?|[[= ->]|?%not_elem_of_nil]]]]; try done.
  exists (of_chars a), (of_chars b). rewrite chars_of_chars. split; [|done].
  f_equal. apply chars_inj. rewrite !chars_app, !chars_of_chars, Ho. done.
Qed.
(** [portNumber] takes the decimal digits of every port and nothing outside
    of 0 to 65535. *)
Theorem portNumber_ok p arg :
  (0 ≤ p ≤ 65535 → portNumber (pretty p) = Ok p) ∧ (portNumber arg = Ok p → 0 ≤ p ≤ 65535 ∧ int_str arg = Ok p).
Proof.
  unfold portNumber. split.
  - intros Hp. rewrite int_str_pretty by lia. by rewrite decide_False by lia.
  - destruct (int_str arg) as [v|e]; case_decide; intros [= <-]; split; (lia || done).
Qed.

(** ** Examples *)

Definition crawlers : server := {| allowRobots := true; verbose := false |}.
Lemma do_GET_answer_witness :
  replies (do_GET crawlers (Exited 0 "<?xml?><nfdStatus/>") "/?now=1" []).1 =
  [SendResponse 200; SendHeader "Content-Type" "text/xml; charset=UTF-8"; EndHeaders;
   Write ("<?xml?>" +:+ stylesheet +:+ "<nfdStatus/>")].
Proof. by apply (do_GET_answer crawlers (Exited 0 "<?xml?><nfdStatus/>") "/?now=1" "/"). Defined.
(** An output without a document ends the handler without an answer. *)
Example empty_report : do_GET crawlers (Exited 0 "") "/" [] = ([], Err (ValueError "substring not found")).
Proof. reflexivity. Qed.
(** A percent sign in the text of an error is taken for a conversion. *)
Example percent_in_error :
  do_GET crawlers (NotStarted "50%d") "/" [] = ([], Err TypeError).
Proof. reflexivity. Qed.
Example robots : (do_GET crawlers (NotStarted "") "/robots.txt" []).1 = [SendError 404 None].
Proof. reflexivity. Qed.
