(* ===== verification/ApiScan.v ===== *)
(** * bindings/python: the scan of the API
    ns3modulescan-modular.py: the path of a header inside of ns3 and the hook
    that annotates a declaration before it is scanned; ns3modulescan.py: the
    table of annotations, and the sections of the generated file in the order
    of Topsort (that program is Python 2, as topsort.py is).  The scanner
    itself, pygccxml and pybindgen, is behind the arguments of the hook: what a
    declaration is, what its template arguments are and where they are
    declared. *)
From Stdlib Require Import Ascii.
From S2P Require Import Prelude PyStr PyFormat Topsort.
#[local] Open Scope Z_scope.

(** ** Paths *)

(** The characters up to the next slash, and the rest from it on. *)
Fixpoint to_slash (l : list ascii) : list ascii * list ascii :=
  match l with
  | [] => ([], [])
  | a :: k => if decide (a = "/"%char) then ([], l) else let '(t, h) := to_slash k in (a :: t, h)
  end.
Definition is_slash (a : ascii) : bool := bool_decide (a = "/"%char).
(** [os.path.split]: the slashes at the end of the head go, unless it has
    nothing else. *)
Definition path_split (p : string) : string * string :=
  let '(t, h) := to_slash (reverse (chars p)) in
  (of_chars (reverse (if forallb is_slash h then h else lstrip_chars is_slash h)), of_chars (reverse t)).
Example path_split_ok :
  path_split <$> ["/usr/x.h"; "/usr"; "/"; "a//b"; "a/"; "x.h"; ""] =
  [("/usr", "x.h"); ("/", "usr"); ("/", ""); ("a", "b"); ("a", ""); ("", "x.h"); ("", "")].
Proof. reflexivity. Qed.
(** [os.path.join] of the elements of a list. *)
Definition path_join_all (l : list string) : res string :=
  match l with [] => Err TypeError | a :: l => Ok (foldl path_join a l) end.

(** The loop of [get_ns3_relative_path]; [fuel] bounds its turns. *)
Fixpoint relative_loop (fuel : nat) (head : string) (l : list string) : res string :=
  if decide (head = "") then Err AssertionError
  else
    match fuel with
    | O => Err Diverges
    | S fuel =>
        let '(new_head, tail) := path_split head in
        if decide (new_head = head) then Err (ValueError "")
        else if decide (tail = "ns3") then path_join_all l
        else relative_loop fuel new_head (tail :: l)
    end.
Definition get_ns3_relative_path (path : string) : res (option string) :=
  if decide (path = "") then Ok None
  else Some <$> relative_loop (String.length path) path [].
(** The function of the same name in ns3modulescan.py does not compare the
    heads. *)
Fixpoint scan_relative_loop (fuel : nat) (head : string) (l : list string) : res string :=
  if decide (head = "") then Err AssertionError
  else
    match fuel with
    | O => Err Diverges
    | S fuel =>
        let '(head, tail) := path_split head in
        if decide (tail = "ns3") then path_join_all l else scan_relative_loop fuel head (tail :: l)
    end.

(** ** Annotations *)

(** The value of an annotation; [params] of the table has a dict for each
    parameter that it names. *)
Definition params : Type := list (string * list (string * string)).
Inductive ann : Type :=
| ANone
| ATrue
| AStr (s : string)
| AParams (p : params).
Definition annotations : Type := list (string * ann).
Definition dict_del {V} (d : list (string * V)) (k : string) : list (string * V) := filter (λ e, e.1 ≠ k) d.
(** [d.update(e)] *)
Definition update {V} (d e : list (string * V)) : list (string * V) := foldl (λ d kv, dict_set d kv.1 kv.2) d e.

Definition attribute_narrowing : annotations :=
  [("automatic_type_narrowing", AStr "true"); ("allow_subclassing", AStr "false")].
Definition ignore_none : annotations := [("ignore", ANone)].
Definition ignore_true : annotations := [("ignore", AStr "true")].
Definition param_note (param key value : string) : annotations := [("params", AParams [(param, [(key, value)])])].
Definition type_annotations : list (string * annotations) :=
  [("::ns3::AttributeChecker", attribute_narrowing);
   ("::ns3::AttributeValue", attribute_narrowing);
   ("::ns3::CommandLine", [("allow_subclassing", AStr "true")]);
   ("::ns3::NscTcpL4Protocol", ignore_true);
   ("ns3::RandomVariable::RandomVariable(ns3::RandomVariableBase const & variable) [constructor]", ignore_none);
   ("ns3::RandomVariableBase * ns3::RandomVariable::Peek() const [member function]", ignore_none);
   ("void ns3::RandomVariable::GetSeed(uint32_t * seed) const [member function]",
     [("params", AParams [("seed", [("direction", "out"); ("array_length", "6")])])]);
   ("bool ns3::TypeId::LookupAttributeByName(std::string name, ns3::TypeId::AttributeInformation * info) const [member function]",
     param_note "info" "transfer_ownership" "false");
   ("static bool ns3::TypeId::LookupByNameFailSafe(std::string name, ns3::TypeId * tid) [member function]", ignore_none);
   ("bool ns3::TraceSourceAccessor::ConnectWithoutContext(ns3::ObjectBase * obj, ns3::CallbackBase const & cb) const [member function]",
     param_note "obj" "transfer_ownership" "false");
   ("bool ns3::TraceSourceAccessor::Connect(ns3::ObjectBase * obj, std::string context, ns3::CallbackBase const & cb) const [member function]",
     param_note "obj" "transfer_ownership" "false");
   ("bool ns3::TraceSourceAccessor::DisconnectWithoutContext(ns3::ObjectBase * obj, ns3::CallbackBase const & cb) const [member function]",
     param_note "obj" "transfer_ownership" "false");
   ("bool ns3::TraceSourceAccessor::Disconnect(ns3::ObjectBase * obj, std::string context, ns3::CallbackBase const & cb) const [member function]",
     param_note "obj" "transfer_ownership" "false");
   ("bool ns3::AttributeAccessor::Set(ns3::ObjectBase * object, ns3::AttributeValue const & value) const [member function]",
     param_note "object" "transfer_ownership" "false");
   ("ns3::EmpiricalVariable::EmpiricalVariable(ns3::RandomVariableBase const & variable) [constructor]", ignore_none);
   ("static ns3::AttributeList * ns3::AttributeList::GetGlobal() [member function]",
     [("caller_owns_return", AStr "false")]);
   ("void ns3::CommandLine::Parse(int argc, char * * argv) const [member function]", ignore_none);
   ("extern void ns3::PythonCompleteConstruct(ns3::Ptr<ns3::Object> object, ns3::TypeId typeId, ns3::AttributeList const & attributes) [free function]",
     ignore_none);
   ("ns3::Ptr<ns3::Ipv4RoutingProtocol> ns3::Ipv4ListRouting::GetRoutingProtocol(uint32_t index, int16_t & priority) const [member function]",
     param_note "priority" "direction" "out");
   ("ns3::Ipv4RoutingTableEntry * ns3::GlobalRouter::GetInjectedRoute(uint32_t i) [member function]",
     param_note "return" "caller_owns_return" "false");
   ("ns3::Ipv4RoutingTableEntry * ns3::Ipv4GlobalRouting::GetRoute(uint32_t i) const [member function]",
     param_note "return" "caller_owns_return" "false");
   ("::ns3::TestCase", ignore_true);
   ("::ns3::TestRunner", ignore_true);
   ("::ns3::TestSuite", ignore_true)].

(** ** The hook *)

(** The classes of pygccxml that the hook asks for; a member function has a
    class, by its name. *)
Inductive decl_kind : Type :=
| Class_
| Enumeration
| FreeFunction
| MemberFunction (parent : string)
| Constructor_
| OtherCalldef          (* destructors and operators *)
| OtherDecl.
#[export] Instance decl_kind_eq_dec : EqDecision decl_kind.
Proof. solve_decision. Defined.
Record decl := Decl {
  file_name : string;                      (* of its location *)
  kind : decl_kind;
  decl_name : string;
  decl_string : string;
  printed : string;                        (* str(decl) *)
}.
Definition is_calldef (k : decl_kind) : bool :=
  match k with FreeFunction | MemberFunction _ | Constructor_ | OtherCalldef => true | _ => false end.
Definition in_table (k : decl_kind) : bool :=
  match k with FreeFunction | MemberFunction _ | Constructor_ => true | _ => false end.
(** What a call of the hook can change: the table, the two dicts of the call,
    the default values of the arguments of the declaration, and the standard
    error output. *)
Record scan := Scan {
  table : list (string * annotations);
  global_annotations : annotations;
  parameter_annotations : params;
  default_values : list (option string);
  stderr : list string;
}.
Abbreviation hook := (eff scan exn unit).
Definition annotate (k : string) (a : ann) : hook := modify (λ s,
  Scan (table s) (dict_set (global_annotations s) k a) (parameter_annotations s) (default_values s) (stderr s)).
Definition update_annotations (e : annotations) : hook := modify (λ s,
  Scan (table s) (update (global_annotations s) e) (parameter_annotations s) (default_values s) (stderr s)).
Definition set_defaults (f : option string → option string) : hook := modify (λ s,
  Scan (table s) (global_annotations s) (parameter_annotations s) (f <$> default_values s) (stderr s)).
Definition print_stderr (line : string) : hook := modify (λ s,
  Scan (table s) (global_annotations s) (parameter_annotations s) (default_values s) (stderr s ++ [line])).
Definition fix_default (v : option string) : option string :=
  if decide (v = Some "ns3::MilliSeconds( )") then Some "ns3::MilliSeconds(0)"
  else if decide (v = Some "ns3::Seconds( )") then Some "ns3::Seconds(0)" else v.
(** [s.replace('-', '_')] *)
Definition no_dashes (s : string) : string :=
  of_chars ((λ a, if decide (a = "-"%char) then "_"%char else a) <$> chars s).

(** The loop over the annotations of a function: [params] leaves the table,
    whose dict is the one that is looped over, for the dict of the call. *)
Definition take_params (key : string) (e : string * ann) : hook :=
  if decide (e.1 = "params") then
    match e.2 with
    | AParams p => modify (λ s,
        Scan (dict_set (table s) key (dict_del (default [] (dict_get (table s) key)) "params"))
          (global_annotations s) (update (parameter_annotations s) p) (default_values s) (stderr s))
    | _ => throw TypeError
    end
  else mret ().
Definition table_lookup (key : string) (found : annotations → hook) : hook :=
  t ← gets table;
  match dict_get t key with None => mret () | Some a => found a end.
Definition customize_function (d : decl) : hook :=
  table_lookup (printed d) (λ a,
    _ ← for_each (take_params (printed d)) a;
    t ← gets table;
    update_annotations (default [] (dict_get t (printed d)))).

Section hook.
(** pygccxml's [templates.is_instantiation], [split] and [args], and the file
    where a name is declared, if it is. *)
Context (is_instantiation : string → bool) (templates_split : string → string * list string)
  (templates_args : string → list string) (find_declaration_from_name : string → option string).
(** [PreScanHook(headers_map, module)] *)
Context (headers_map : list (string * string)) (module : string).

Definition module_of (header : option string) : res string :=
  match header with
  | None => Err KeyError
  | Some h => match dict_get headers_map h with Some m => Ok m | None => Err KeyError end
  end.
(** [template_parameters_modules] *)
Fixpoint parameters_modules (params : list string) : res (list string) :=
  match params with
  | [] => Ok []
  | p :: params =>
      match find_declaration_from_name p with
      | None => parameters_modules params
      | Some file =>
          match get_ns3_relative_path file with
          | Err (ValueError _) => parameters_modules params
          | Err e => Err e
          | Ok h => m ← module_of h; ms ← parameters_modules params; mret (m :: ms)
          end
      end
  end.
Definition class_module (d : decl) (definition_module : string) : res string :=
  if is_instantiation (decl_string d) then
    ms ← parameters_modules (templates_split (decl_name d)).2;
    Ok (if bool_decide (module ∈ ms) then module else definition_module)
  else Ok definition_module.
Definition hook_class (d : decl) (definition_module : string) : hook :=
  _ ← print_stderr (printed d);
  definition_module ← lift_res (class_module d definition_module);
  _ ← (if decide (definition_module = module) then mret ()
       else annotate "import_from_module" (AStr ("ns." +:+ no_dashes definition_module)));
  if startswith (decl_string d) "::ns3::SimpleRefCount<" then
    _ ← annotate "incref_method" (AStr "Ref");
    _ ← annotate "decref_method" (AStr "Unref");
    _ ← annotate "peekref_method" (AStr "GetReferenceCount");
    annotate "automatic_type_narrowing" (AStr "true")
  else if startswith (decl_string d) "::ns3::Callback<" then annotate "ignore" ANone
  else if startswith (decl_string d) "::ns3::TracedCallback<" then annotate "ignore" ANone
  else if startswith (decl_string d) "::ns3::Ptr<" then annotate "ignore" ANone
  else table_lookup (decl_string d) update_annotations.
Definition hook_free_function (d : decl) (definition_module : string) : hook :=
  if decide (definition_module ≠ module) then annotate "ignore" ANone
  else if decide (decl_name d = "PeekPointer") then annotate "ignore" ANone
  else customize_function d.
(** What is special of a member function. *)
Definition hook_member (d : decl) (parent : string) : hook :=
  _ ← (if decide (parent = "Object" ∧ decl_name d = "GetObject" ∧ templates_args (printed d) = ["ns3::Object"])
       then annotate "template_instance_names" (AStr "ns3::Object=>GetObject") else mret ());
  _ ← (if bool_decide (parent = "Simulator") && startswith (decl_name d) "Schedule"
       then annotate "ignore" ANone else mret ());
  if decide (parent = "Simulator" ∧ decl_name d = "Run") then annotate "ignore" ATrue else mret ().
Definition pre_scan_hook (d : decl) : hook :=
  match get_ns3_relative_path (file_name d) with
  | Err (ValueError _) => mret ()
  | Err e => throw e
  | Ok h =>
      if decide (default "" h = "") then mret ()
      else
        definition_module ← lift_res (module_of h);
        _ ← annotate "pygen_comment" (AStr (default "" h +:+ " (module " +:+ repr_string definition_module +:+ "): " +:+ printed d));
        _ ← (match kind d with MemberFunction parent => hook_member d parent | _ => mret () end);
        _ ← (if is_calldef (kind d) then set_defaults fix_default else mret ());
        match kind d with
        | Class_ => hook_class d definition_module
        | Enumeration =>
            if decide (definition_module = module) then mret ()
            else annotate "import_from_module" (AStr ("ns." +:+ definition_module))
        | FreeFunction => hook_free_function d definition_module
        | MemberFunction _ | Constructor_ => customize_function d
        | OtherCalldef | OtherDecl => mret ()
        end
  end.
End hook.

(** ** The callbacks and the sections *)

Section callbacks.
Context (is_instantiation : string → bool) (templates_split : string → string * list string).
Fixpoint callback_lines (classes : list (string * string)) : list string * res unit :=
  match classes with
  | [] => (["]" +:+ String newline ""], Ok ())
  | (name, decl_string) :: classes =>
      if negb (startswith name "Callback<") then callback_lines classes
      else if negb (is_instantiation decl_string) then ([], Err AssertionError)
      else
        let '(ls, r) := callback_lines classes in
        (("    " +:+ repr_list (templates_split decl_string).2 +:+ "," +:+ String newline "") :: ls, r)
  end.
(** What is written to the file, by the classes (name and declaration) of the
    namespace. *)
Definition scan_callback_classes (classes : list (string * string)) : list string * res unit :=
  let '(ls, r) := callback_lines classes in (("callback_classes = [" +:+ String newline "") :: ls, r).
End callbacks.

Section sections.
Context `{!DictOrder string}.
(** The modules by name: the modules that they depend on, and their headers. *)
Definition modules : Type := list (string * (list string * list string)).
Definition module_graph (ms : modules) : list (string * string) :=
  names ← sort_strings ms.*1;
  dep ← sort_strings (default ([], []) (dict_get ms names)).1;
  [(dep, names)].
Definition section_of (ns3_module : string) : string := "ns3_module_" +:+ no_dashes ns3_module.
(** The sections with the names of their files, and the two dicts of
    [MyPygenClassifier]. *)
Record classifier := Classifier {
  section_files : list (string * string);
  headers_map_ : list (string * string);
  section_precendences : list (string * Z);
}.
Definition section_step (ms : modules) (dirname : string) (c : classifier) (pm : Z * string) : res classifier :=
  let '(prec, ns3_module) := pm in
  match dict_get ms ns3_module with
  | None => Err KeyError
  | Some (_, headers) =>
      let section := section_of ns3_module in
      Ok (Classifier (section_files c ++ [(section, path_join dirname (section +:+ ".py"))])
        (foldl (λ d h, dict_set d h section) (headers_map_ c) headers)
        (dict_set (section_precendences c) section prec))
  end.
Fixpoint section_steps (ms : modules) (dirname : string) (prec : Z) (l : list string) (c : classifier) : res classifier :=
  match l with
  | [] => Ok c
  | m :: l => c ← section_step ms dirname c (prec, m); section_steps ms dirname (prec + 1) l c
  end.
Definition run_topsort (pairs : list (string * string)) : res (list string) :=
  match topsort pairs with
  | None => Err Diverges
  | Some (Ok l) => Ok l
  | Some (Err TopKeyError) => Err KeyError
  | Some (Err (CycleError _ _ _)) => Err (PyException "CycleError")
  end.
(** The part of [ns3_module_scan] that prepares the sections. *)
Definition scan_sections (ms : modules) (pygen_file_name : string) : res classifier :=
  sorted_ns3_modules ← run_topsort (module_graph ms);
  section_steps ms (path_split pygen_file_name).1 0 sorted_ns3_modules
    (Classifier [("__main__", pygen_file_name)] [] []).
Definition classify (c : classifier) (location : string) : string :=
  default "__main__" (dict_get (headers_map_ c) (basename location)).
Definition get_section_precedence (c : classifier) (section_name : string) : res Z :=
  if decide (section_name = "__main__") then Ok (-1)
  else match dict_get (section_precendences c) section_name with Some p => Ok p | None => Err KeyError end.
End sections.

(** The calls of [ns3_module_scan] of ns3modulescan-modular.py; the file may
    be refused when it is removed, its directory when it is made. *)
Inductive scan_call : Type :=
| Unlink (file : string)
| Makedirs (dir : string)
| OpenOut (file : string)
| ParseInit (header : string) (castxml_cflags : string)
| ScanTypes
| WriteCallbacks (file : string)
| ScanMethods
| ScanFunctions
| ParseFinalize
| Chmod (file : string) (mode : Z).
Definition ns3_module_scan (exists_ : string → bool) (top_builddir module_name output_file_name cflags : string) : list scan_call :=
  let dir := (path_split output_file_name).1 in
  let scan_header := path_join dir "scan-header.h" in
  let scan_header := if exists_ scan_header then scan_header
    else path_join (path_join top_builddir "ns3") (module_name +:+ "-module.h") in
  [Unlink output_file_name; Makedirs dir; OpenOut output_file_name;
   ParseInit scan_header ("-std=c++14 " +:+ cflags); ScanTypes; WriteCallbacks (path_join dir "callbacks_list.py");
   ScanMethods; ScanFunctions; ParseFinalize; Chmod output_file_name 256].

(** ** The path of a header *)

Definition component (p : string) : Prop := p ≠ "" ∧ "/"%char ∉ chars p.
(** A path without empty components, absolute or not. *)
Definition path_of (absolute : bool) (cs : list string) : string :=
  (if absolute then "/" else "") +:+ join "/" cs.

Lemma to_slash_app l k : "/"%char ∉ l → (∀ a, head k = Some a → a = "/"%char) → to_slash (l ++ k) = (l, k).
Proof.
  intros Hl Hk. induction l as [|a l IH]; simpl.
  - destruct k as [|a k]; [done|]. simpl. rewrite decide_True; [done|]. by apply Hk.
  - apply not_elem_of_cons in Hl as [? ?]. rewrite decide_False by done. by rewrite IH.
Qed.
Lemma to_slash_spec l : let '(t, h) := to_slash l in l = t ++ h.
Proof. induction l as [|a l IH]; simpl; [done|]. case_decide; [done|]. destruct (to_slash l). simpl. by f_equal. Qed.
Lemma join_snoc sep cs c : join sep (cs ++ [c]) = (if decide (cs = []) then "" else join sep cs +:+ sep) +:+ c.
Proof.
  induction cs as [|a [|b cs] IH]; [done|by simpl; rewrite append_assoc|].
  change (join sep ((a :: b :: cs) ++ [c])) with (a +:+ sep +:+ join sep ((b :: cs) ++ [c])).
  rewrite IH. cbn [decide]. rewrite !decide_False by done. simpl. by rewrite !append_assoc.
Qed.
Lemma path_of_snoc b cs c :
  path_of b (cs ++ [c]) = (if decide (cs = []) then path_of b [] else path_of b cs +:+ "/") +:+ c.
Proof. unfold path_of. rewrite join_snoc. case_decide; simpl; by rewrite ?append_nil_r, ?append_assoc. Qed.
Lemma component_chars c : component c → ∃ a l, chars c = l ++ [a] ∧ a ≠ "/"%char ∧ "/"%char ∉ l.
Proof.
  intros [Hne Hs]. destruct (chars c) as [|x l _] eqn:E using rev_ind.
  - by apply (f_equal of_chars) in E; rewrite of_chars_chars in E.
  - exists x, l. apply not_elem_of_app in Hs as [? ?%not_elem_of_cons]. naive_solver.
Qed.
Lemma strip_slashes_component s c : component c →
  forallb is_slash (reverse (chars (s +:+ c))) = false ∧
  lstrip_chars is_slash ("/"%char :: reverse (chars (s +:+ c))) = reverse (chars (s +:+ c)).
Proof.
  intros (a & l & E & Ha & _)%component_chars. rewrite chars_app, E, !reverse_app. simpl.
  unfold is_slash. by rewrite !bool_decide_false by done.
Qed.
Lemma path_split_snoc b cs c :
  Forall component (cs ++ [c]) → path_split (path_of b (cs ++ [c])) = (path_of b cs, c).
Proof.
  intros [Hcs [Hc _]%Forall_cons]%Forall_app. unfold path_split. rewrite path_of_snoc, chars_app, reverse_app.
  assert (∀ h, (∀ a, head (reverse (chars h)) = Some a → a = "/"%char) →
    to_slash (reverse (chars c) ++ reverse (chars h)) = (reverse (chars c), reverse (chars h))) as Hto.
  { intros h Hh. apply to_slash_app; [|done]. rewrite elem_of_reverse. apply Hc. }
  destruct cs as [|c' cs _] using rev_ind; cbn [decide].
  - rewrite decide_True by done. rewrite Hto by (destruct b; vm_compute; congruence).
    rewrite reverse_involutive, of_chars_chars. by destruct b.
  - rewrite decide_False by (by destruct cs). apply Forall_app in Hcs as [_ [Hc' _]%Forall_cons].
    rewrite Hto by (rewrite chars_app, reverse_app; simpl; congruence).
    rewrite chars_app, reverse_app. change (reverse (chars "/")) with ["/"%char]. cbn [app forallb].
    rewrite path_of_snoc. destruct (strip_slashes_component (if decide (cs = []) then path_of b [] else path_of b cs +:+ "/") c' Hc') as [E1 E2].
    change (is_slash "/") with true. cbn [andb]. rewrite E1, E2. by rewrite !reverse_involutive, !of_chars_chars.
Qed.
Lemma path_of_snoc_nonempty b cs c : component c → path_of b (cs ++ [c]) ≠ "" ∧ path_of b cs ≠ path_of b (cs ++ [c]).
Proof.
  intros (a & l & E & _)%component_chars. rewrite path_of_snoc.
  assert (∀ p q : string, p = q → length (chars p) = length (chars q)) as Hlen by (by intros ?? ->).
  split; intros Heq%Hlen; rewrite chars_app, E, !length_app in Heq; [simpl in Heq; lia|].
  case_decide; subst; rewrite ?chars_app, ?length_app in Heq; simpl in Heq; lia.
Qed.
(** A path ends with a component: what is joined to it follows a slash. *)
Lemma path_join_component p c c' : component c → component c' → path_join (p +:+ c) c' = (p +:+ c) +:+ "/" +:+ c'.
Proof.
  intros Hc [Hne Hs]. destruct (strip_slashes_component p c Hc) as [Hf _].
  destruct (component_chars c Hc) as (a & l & E & Ha & _). unfold path_join.
  replace (startswith c' "/") with false; [|destruct c' as [|x c']; [done|]].
  2:{ unfold startswith. cbn [String.prefix]. destruct (ascii_dec "/" x) as [<-|]; [|done]. destruct Hs. left. }
  rewrite bool_decide_false. 2:{ intros Heq%(f_equal chars). rewrite chars_app, E in Heq. by destruct (chars p), l. }
  unfold endswith. rewrite bool_decide_false; [done|]. rewrite chars_app, E. intros [k Hk].
  rewrite app_assoc in Hk. by apply app_inj_tail in Hk as [_ ?].
Qed.
Lemma path_join_components l a :
  component a → Forall component l → foldl path_join a l = join "/" (a :: l).
Proof.
  intros Ha Hl. induction l as [|c l IH] using rev_ind; [done|].
  apply Forall_app in Hl as [Hl [Hc _]%Forall_cons]. rewrite foldl_app, IH by done. cbn [foldl].
  rewrite app_comm_cons, (join_snoc "/" (a :: l) c), decide_False by done.
  destruct (exists_last (l := a :: l)) as (cs & c' & E); [done|]. rewrite E.
  assert (component c').
  { assert (Forall component (a :: l)) as Hal by (by apply Forall_cons). rewrite E in Hal.
    by apply Forall_app in Hal as [_ [? _]%Forall_cons]. }
  rewrite (join_snoc "/" cs c'), path_join_component by done. by rewrite !append_assoc.
Qed.

(** What the loop does, from the end of the path to its last [ns3]. *)
Lemma relative_loop_found b pre post fuel l :
  Forall component (pre ++ "ns3" :: post) → ("ns3" ∉ post) → (length (pre ++ "ns3" :: post) ≤ fuel)%nat →
  relative_loop fuel (path_of b (pre ++ "ns3" :: post)) l = path_join_all (post ++ l).
Proof.
  revert fuel l. induction post as [|c post IH] using rev_ind; intros fuel l Hall Hin Hfuel.
  - assert (Hns3 : component "ns3") by (apply Forall_app in Hall as [_ Hall]; by apply Forall_cons in Hall as [? _]).
    destruct (path_of_snoc_nonempty b pre "ns3" Hns3). destruct fuel as [|fuel]; [rewrite length_app in Hfuel; simpl in Hfuel; lia|].
    cbn [relative_loop]. rewrite decide_False by done. rewrite path_split_snoc, decide_False by done. by rewrite decide_True.
  - rewrite app_comm_cons, app_assoc in Hall, Hfuel |- *.
    assert (Hc : component c) by (apply Forall_app in Hall as [_ Hall]; by apply Forall_cons in Hall as [? _]).
    destruct (path_of_snoc_nonempty b (pre ++ "ns3" :: post) c Hc). rewrite length_app in Hfuel. simpl in Hfuel.
    destruct fuel as [|fuel]; [lia|]. cbn [relative_loop]. rewrite decide_False by done.
    rewrite path_split_snoc, decide_False by done. rewrite decide_False by set_solver.
    rewrite IH; [by rewrite <-app_assoc| |set_solver|lia]. by apply Forall_app in Hall as [? _].
Qed.
Lemma relative_loop_missing (b : bool) cs fuel l :
  Forall component cs → ("ns3" ∉ cs) → (length cs + (if b then 1 else 0) ≤ fuel)%nat →
  relative_loop fuel (path_of b cs) l = Err (if b then ValueError "" else AssertionError).
Proof.
  revert fuel l. induction cs as [|c cs IH] using rev_ind; intros fuel l Hall Hin Hfuel.
  - destruct b; [|by destruct fuel]. destruct fuel as [|fuel]; [simpl in Hfuel; lia|done].
  - assert (Hc : component c) by (apply Forall_app in Hall as [_ Hall]; by apply Forall_cons in Hall as [? _]).
    destruct (path_of_snoc_nonempty b cs c Hc). rewrite length_app in Hfuel. simpl in Hfuel.
    destruct fuel as [|fuel]; [lia|]. cbn [relative_loop]. rewrite decide_False by done.
    rewrite path_split_snoc, decide_False by done. rewrite decide_False by set_solver.
    apply IH; [by apply Forall_app in Hall as [? _]|set_solver|lia].
Qed.

(** A head that is not the path itself is shorter. *)
Lemma path_split_shorter p : (path_split p).1 = p ∨ (String.length (path_split p).1 < String.length p)%nat.
Proof.
  unfold path_split. pose proof (to_slash_spec (reverse (chars p))) as Hs.
  destruct (to_slash (reverse (chars p))) as [t h]. simpl.
  assert (∃ k, h = k ++ (if forallb is_slash h then h else lstrip_chars is_slash h)) as [k Hk].
  { destruct (forallb is_slash h); [by exists []|]. clear Hs. induction h as [|a h [k IH]]; [by exists []|]. simpl.
    destruct (is_slash a); [exists (a :: k); simpl; by f_equal|by exists []]. }
  rewrite Hk in Hs. set (h' := if forallb _ _ then _ else _) in Hs |- *.
  rewrite <-!length_chars, chars_of_chars, length_reverse.
  assert (chars p = reverse h' ++ reverse (t ++ k)) as E.
  { by rewrite <-(reverse_involutive (chars p)), Hs, app_assoc, reverse_app. }
  destruct (t ++ k) as [|x k'] eqn:Ek.
  - left. apply chars_inj. by rewrite chars_of_chars, E, app_nil_r.
  - right. rewrite E, length_app, !length_reverse. simpl. lia.
Qed.
Lemma relative_loop_ends fuel head l : (String.length head ≤ fuel)%nat → relative_loop fuel head l ≠ Err Diverges.
Proof.
  revert head l. induction fuel as [|fuel IH]; intros head l Hfuel; cbn [relative_loop]; case_decide as He; try done.
  - destruct head; [done|]. simpl in Hfuel. lia.
  - pose proof (path_split_shorter head) as Hs. destruct (path_split head) as [new_head tail]. simpl in Hs.
    case_decide as Hn; [done|]. case_decide; [by destruct l|]. apply IH. destruct Hs; [done|lia].
Qed.
Lemma length_path_of (b : bool) cs : Forall component cs → (length cs + (if b then 1 else 0) ≤ String.length (path_of b cs))%nat.
Proof.
  induction cs as [|c cs IH] using rev_ind; [by destruct b|]. intros [Hcs [Hc _]%Forall_cons]%Forall_app.
  specialize (IH Hcs). destruct (component_chars c Hc) as (a & l & E & _).
  rewrite <-length_chars in IH |- *. rewrite path_of_snoc, chars_app, E, !length_app.
  case_decide; subst; rewrite ?chars_app, ?length_app; simpl in *; lia.
Qed.

(** C35: the path of a header always comes to an end.  A file below a directory ns3
    has the path inside of the last one (and raises a TypeError when it is
    that directory); otherwise an absolute path raises a ValueError, which
    tells the hook that the header is not of ns-3, and a relative one an
    AssertionError. *)
Theorem ns3_relative_path :
  (∀ path, get_ns3_relative_path path ≠ Err Diverges) ∧
  ∀ absolute cs, Forall component cs → cs ≠ [] →
    (∀ pre post, cs = pre ++ "ns3" :: post → ("ns3" ∉ post) →
       get_ns3_relative_path (path_of absolute cs) = if decide (post = []) then Err TypeError else Ok (Some (join "/" post))) ∧
    (("ns3" ∉ cs) →
       get_ns3_relative_path (path_of absolute cs) = Err (if absolute then ValueError "" else AssertionError)).
Proof.
  unfold get_ns3_relative_path. split.
  { intros path. case_decide; [done|]. pose proof (relative_loop_ends (String.length path) path [] (le_n _)) as He.
    by destruct (relative_loop _ _ _) as [|e]; [|intros [= ->]]. }
  intros b cs Hall Hne. pose proof (length_path_of b cs Hall) as Hlen.
  rewrite (decide_False (P := path_of b cs = "")).
  2:{ destruct (exists_last Hne) as (cs' & c & ->). apply Forall_app in Hall as [_ [Hc _]%Forall_cons]. by apply path_of_snoc_nonempty. }
  split.
  - intros pre post -> Hin. rewrite relative_loop_found, app_nil_r by (done || lia).
    destruct post as [|c post]; [done|]. cbn [decide]. rewrite decide_False by done. simpl.
    apply Forall_app in Hall as [_ [_ [Hc Hpost]%Forall_cons]%Forall_cons]. f_equal. f_equal. by apply path_join_components.
  - intros Hin. by rewrite relative_loop_missing by (done || lia).
Qed.

(** The loop of ns3modulescan.py does not stop at the root: outside of ns3 it
    never ends. *)
Lemma scan_relative_root fuel l : scan_relative_loop fuel "/" l = Err Diverges.
Proof. revert l. induction fuel as [|fuel IH]; intros l; [done|]. simpl. by apply IH. Qed.
Theorem scan_relative_diverges cs fuel l :
  Forall component cs → ("ns3" ∉ cs) → scan_relative_loop fuel (path_of true cs) l = Err Diverges.
Proof.
  revert fuel l. induction cs as [|c cs IH] using rev_ind; intros fuel l Hall Hin; [apply scan_relative_root|].
  pose proof Hall as [Hcs [Hc _]%Forall_cons]%Forall_app. destruct (path_of_snoc_nonempty true cs c Hc) as [Hne _].
  destruct fuel as [|fuel]; cbn [scan_relative_loop]; rewrite decide_False by done; [done|].
  rewrite path_split_snoc, decide_False by set_solver. apply IH; [done|set_solver].
Qed.

(** ** Sections *)

Section order.
Context `{!DictOrder string}.
Implicit Types (ms : modules) (c : classifier).
(** In the table of the modules [m] depends on [d]; [h] is a header of [m]. *)
Definition depends ms (m d : string) : Prop := ∃ deps hs, dict_get ms m = Some (deps, hs) ∧ d ∈ deps.
Definition owns ms (m h : string) : Prop := ∃ deps hs, dict_get ms m = Some (deps, hs) ∧ h ∈ hs.

Lemma module_graph_edge ms m d : edge (module_graph ms) d m ↔ depends ms m d.
Proof.
  unfold edge, module_graph, depends, sort_strings. rewrite list_elem_of_bind. split.
  - intros (m' & Hd & Hm). apply list_elem_of_bind in Hd as (d' & ?%list_elem_of_singleton & Hd). simplify_eq.
    rewrite merge_sort_Permutation in Hm, Hd. apply dict_get_some in Hm as [[deps hs] E]. rewrite E in Hd. eauto.
  - intros (deps & hs & E & Hd). exists m. split.
    + apply list_elem_of_bind. exists d. rewrite merge_sort_Permutation, E. set_solver.
    + rewrite merge_sort_Permutation. apply dict_get_some. eauto.
Qed.

Lemma dict_get_sets {V} (d : list (string * V)) (hs : list string) (v : V) h :
  dict_get (foldl (λ d h, dict_set d h v) d hs) h = if decide (h ∈ hs) then Some v else dict_get d h.
Proof.
  revert d. induction hs as [|a hs IH]; intros d; simpl; [done|]. rewrite IH, dict_get_set.
  repeat case_decide; set_solver.
Qed.

Lemma section_steps_ok ms dir p l c :
  Forall (λ m, m ∈ ms.*1) l → ∃ c', section_steps ms dir p l c = Ok c'.
Proof.
  intros Hl. revert p c. induction Hl as [|m l Hm _ IH]; intros p c; simpl; [eauto|].
  apply dict_get_some in Hm as [[deps hs] ->]. simpl. apply IH.
Qed.
(** The sections that the loop makes: their places, and the headers that only
    one of them has. *)
Lemma section_steps_spec ms dir p l c c' :
  section_steps ms dir p l c = Ok c' → NoDup (section_of <$> l) →
  (∀ i m, l !! i = Some m → dict_get (section_precendences c') (section_of m) = Some (p + Z.of_nat i)) ∧
  (∀ s, (s ∉ section_of <$> l) → dict_get (section_precendences c') s = dict_get (section_precendences c) s) ∧
  (∀ h m, m ∈ l → owns ms m h → (∀ m', owns ms m' h → m' = m) → dict_get (headers_map_ c') h = Some (section_of m)) ∧
  (∀ h, (∀ m, m ∈ l → ¬ owns ms m h) → dict_get (headers_map_ c') h = dict_get (headers_map_ c) h).
Proof.
  revert p c. induction l as [|m l IH]; intros p c; simpl.
  { intros [= <-] _. split_and!; [done|done|set_solver|done]. }
  destruct (dict_get ms m) as [[deps hs]|] eqn:E; simpl; [|done]. intros Hrun [Hm Hnd]%NoDup_cons.
  destruct (IH _ _ Hrun Hnd) as (Hp & Hp' & Hh & Hh'). cbn [section_precendences headers_map_] in *. split_and!.
  - intros [|i] m' Hi; simpl in Hi; [simplify_eq|]; [|rewrite (Hp i m' Hi); f_equal; lia].
    rewrite Hp' by done. rewrite dict_get_set, decide_True by done. f_equal. lia.
  - intros s [Hs Hs']%not_elem_of_cons. by rewrite Hp', dict_get_set, decide_False by done.
  - intros h m' Hin Hown Huniq. destruct (decide (m' ∈ l)) as [|Hnin]; [by apply Hh|].
    apply elem_of_cons in Hin as [->|?]; [|done].
    rewrite Hh' by (intros m2 Hm2 Hown2; apply Huniq in Hown2; congruence).
    rewrite dict_get_sets, decide_True; [done|]. destruct Hown as (? & ? & E' & ?). congruence.
  - intros h Hno. rewrite Hh' by set_solver. rewrite dict_get_sets, decide_False; [done|].
    intros Hin. apply (Hno m); [set_solver|]. by exists deps, hs.
Qed.

(** The names of the sections are as different as those of the modules, and
    every module that is named exists. *)
Definition good_modules ms : Prop :=
  (∀ m m', m ∈ ms.*1 → m' ∈ ms.*1 → section_of m = section_of m' → m = m') ∧
  (∀ m d, depends ms m d → d ∈ ms.*1).
(** A header of [m] alone. *)
Definition only_owner ms (m h : string) : Prop := owns ms m h ∧ ∀ m', owns ms m' h → m' = m.

Lemma graph_vertex_key ms m : good_modules ms → vertex (module_graph ms) m → m ∈ ms.*1.
Proof.
  intros [_ Hdeps] [y [Hy%module_graph_edge|Hy%module_graph_edge]]; [by eapply Hdeps|].
  destruct Hy as (deps & hs & E & _). apply dict_get_some. eauto.
Qed.
Lemma graph_sections ms l : good_modules ms → top_sorted (module_graph ms) l → NoDup (section_of <$> l).
Proof.
  intros Hg (Hnd & Hv & _). apply NoDup_fmap_2_strong; [|done].
  intros x y Hx%Hv Hy%Hv. apply Hg; by apply graph_vertex_key.
Qed.

(** C34: of a table whose modules have sections of their own (no two names
    differ in a dash only) and name only modules of the table: if the
    dependencies have no cycle, and only then, the scan makes the sections, as a
    script of Python 2.  Of two modules, the declarations of a header that only
    the depending one has get a section of higher precedence than those of a
    header that only the other has, and all of them one above the main section;
    a module without dependencies on either side has no section: its headers go
    to the main section.  If the dependencies have a cycle, and only then,
    CycleError is raised. *)
Theorem section_order ms file : good_modules ms →
  ((∀ m, ¬ tc (λ d m, depends ms m d) m m) ∧ ∃ c, scan_sections ms file = Ok c ∧
     (∀ m d loc loc', depends ms m d → only_owner ms m (basename loc) → only_owner ms d (basename loc') →
        ∃ i j, get_section_precedence c (classify c loc') = Ok i ∧ get_section_precedence c (classify c loc) = Ok j ∧
          -1 < i < j) ∧
     (∀ m loc, only_owner ms m (basename loc) → (∀ m', ¬ depends ms m m' ∧ ¬ depends ms m' m) →
        classify c loc = "__main__")) ∨
  (∃ m, tc (λ d m, depends ms m d) m m ∧ scan_sections ms file = Err (PyException "CycleError")).
Proof.
  intros Hg. unfold scan_sections, run_topsort.
  destruct (topsort_ends (module_graph ms)) as [(l & -> & Hs)|(a & np & ch & -> & Hnp & Hdict & Hwait)].
  - left. pose proof (graph_sections ms l Hg Hs) as Hnd. split.
    { intros m Hm. apply (top_sorted_acyclic _ _ m Hs). revert Hm. apply (tc_congruence id).
      intros d m'. apply module_graph_edge. }
    destruct Hs as (_ & Hv & Hord).
    set (c0 := Classifier [("__main__", file)] [] []). set (dir := (path_split file).1).
    destruct (section_steps_ok ms dir 0 l c0) as [c Hc].
    { apply Forall_forall. intros x Hx%Hv. by apply graph_vertex_key. }
    exists c. split; [exact Hc|]. destruct (section_steps_spec _ _ _ _ _ _ Hc Hnd) as (Hp & _ & Hh & Hh').
    assert (∀ m loc i, l !! i = Some m → only_owner ms m (basename loc) →
      get_section_precedence c (classify c loc) = Ok (Z.of_nat i)) as Hprec.
    { intros m loc i Hi [Ho Hu]. unfold get_section_precedence, classify.
      rewrite (Hh _ m (list_elem_of_lookup_2 _ _ _ Hi) Ho Hu). simpl. rewrite (Hp i m Hi). by f_equal. }
    split.
    + intros m d loc loc' Hd Hm Hm'. apply module_graph_edge in Hd.
      assert (m ∈ l) as [j Hj]%list_elem_of_lookup by (apply Hv; by eapply edge_vertex_r).
      pose proof (Hord j m d Hj Hd) as [i Hi]%list_elem_of_lookup. apply lookup_take_Some in Hi as [Hi Hij].
      exists (Z.of_nat i), (Z.of_nat j). split_and!; [by eapply Hprec|by eapply Hprec|lia..].
    + intros m loc [Ho Hu] Hno. unfold classify. rewrite Hh'; [done|].
      intros m' [y [Hy%module_graph_edge|Hy%module_graph_edge]]%Hv Hown; apply Hu in Hown as ->; by destruct (Hno y).
  - right. destruct (stuck_cycle _ _ _ _ Hdict Hwait Hnp) as (y & _ & Hcyc). exists y. split; [|done].
    revert Hcyc. apply (tc_congruence id). intros d m. apply module_graph_edge.
Qed.
End order.

(** ** The hook *)

Section hook_facts.
Context (is_instantiation : string → bool) (templates_split : string → string * list string)
  (templates_args : string → list string) (find_declaration_from_name : string → option string).
Context (headers_map : list (string * string)) (module : string).
Local Abbreviation hook_of :=
  (pre_scan_hook is_instantiation templates_split templates_args find_declaration_from_name headers_map module).
Implicit Types (d : decl) (s : scan).

(** A declaration of a header of the module [m]. *)
Definition declared_in d (m : string) : Prop :=
  ∃ h, get_ns3_relative_path (file_name d) = Ok (Some h) ∧ h ≠ "" ∧ dict_get headers_map h = Some m.
(** The declarations that are looked up in the table as functions. *)
Definition customized d (m : string) : Prop :=
  match kind d with
  | FreeFunction => m = module ∧ decl_name d ≠ "PeekPointer"
  | k => in_table k
  end.

(** The first steps of the hook change neither the table nor what is noted of
    the parameters. *)
Definition same_params s s' : Prop := table s' = table s ∧ parameter_annotations s' = parameter_annotations s.
Definition keeps_params (m : hook) : Prop := ∀ s, ∃ s', m s = (s', Ok ()) ∧ same_params s s'.
Lemma keeps_params_ret : keeps_params (mret ()).
Proof. by intros s; exists s. Qed.
Lemma keeps_annotate k a : keeps_params (annotate k a).
Proof. by intros s; eexists. Qed.
Lemma bind_annotate {B} k a (f : unit → eff scan exn B) s : (annotate k a ≫= f) s =
  f () (Scan (table s) (dict_set (global_annotations s) k a) (parameter_annotations s) (default_values s) (stderr s)).
Proof. done. Qed.
Lemma keeps_if P `{!Decision P} m1 m2 : keeps_params m1 → keeps_params m2 → keeps_params (if decide P then m1 else m2).
Proof. intros. by case_decide. Qed.
Lemma keeps_params_bind m1 m2 : keeps_params m1 → keeps_params m2 → keeps_params (m1 ≫= λ _, m2).
Proof.
  intros H1 H2 s. destruct (H1 s) as (s1 & E1 & Ht & Hp). destruct (H2 s1) as (s2 & E2 & Ht' & Hp').
  exists s2. rewrite (bind_run _ _ _ _ _ E1). split; [done|]. unfold same_params. by rewrite Ht', Hp'.
Qed.
Lemma keeps_member d parent : keeps_params (hook_member templates_args d parent).
Proof.
  unfold hook_member. repeat first [apply keeps_params_bind | apply keeps_if | apply keeps_annotate | apply keeps_params_ret].
  destruct (_ && _); [apply keeps_annotate|apply keeps_params_ret].
Qed.

(** What comes before the table is asked. *)
Lemma hook_customize d m s : declared_in d m → customized d m →
  ∃ s', hook_of d s = customize_function d s' ∧ same_params s s'.
Proof.
  intros (h & Hpath & Hne & Hm) Hc. unfold pre_scan_hook. rewrite Hpath. cbn [default].
  rewrite decide_False by done. unfold module_of. rewrite Hm, bind_lift_ok, bind_annotate.
  set (s1 := Scan _ _ _ _ _). unfold customized in Hc.
  assert (∃ s2, same_params s1 s2 ∧
    (match kind d with MemberFunction parent => hook_member templates_args d parent | _ => mret () end) s1 = (s2, Ok ()))
    as (s2 & [Ht Hp] & E).
  { destruct (kind d); try (by exists s1). destruct (keeps_member d parent s1) as (s2 & ? & ?). by exists s2. }
  rewrite (bind_run _ _ _ _ _ E).
  destruct (kind d) as [| | |parent| | |] eqn:Hk; try by destruct Hc.
  all: cbn [is_calldef]; unfold set_defaults; rewrite bind_modify.
  - destruct Hc as [-> Hname]. unfold hook_free_function. rewrite decide_False, decide_False by naive_solver. by eexists.
  - by eexists.
  - by eexists.
Qed.

(** ** Parameters *)

Lemma take_params_other key a s : Forall (λ e, e.1 ≠ "params") a → for_each (take_params key) a s = (s, Ok ()).
Proof.
  induction 1 as [|e a Hk _ IH]; [done|]. cbn [for_each].
  assert (take_params key e s = (s, Ok ())) as E by (unfold take_params; by rewrite decide_False).
  by rewrite (bind_run _ _ _ _ _ E).
Qed.
Lemma dict_get_params (a : annotations) v : dict_get a "params" = Some v → NoDup a.*1 →
  ∃ a1 a2, a = a1 ++ ("params", v) :: a2 ∧ Forall (λ e, e.1 ≠ "params") a1 ∧ Forall (λ e, e.1 ≠ "params") a2.
Proof.
  induction a as [|[k w] a IH]; simpl; [done|]. intros Hget [Hk Hnd]%NoDup_cons. case_decide; simplify_eq.
  - exists [], a. split_and!; [done|done|]. apply Forall_forall. intros [k w] Hin Hk'. simpl in Hk'. subst k. destruct Hk.
    apply list_elem_of_fmap. by exists ("params", w).
  - destruct (IH Hget Hnd) as (a1 & a2 & -> & ? & ?). exists ((k, w) :: a1), a2. by split_and!; [|apply Forall_cons|].
Qed.
Lemma dict_del_others (a : annotations) k : Forall (λ e, e.1 ≠ k) (dict_del a k).
Proof. apply Forall_forall. intros e [? _]%list_elem_of_filter. done. Qed.

(** The annotations of a function: those of its parameters go to the dict of
    the call, the others to the dict of the declaration. *)
Lemma customize_function_params d s a p :
  dict_get (table s) (printed d) = Some a → NoDup a.*1 → dict_get a "params" = Some (AParams p) →
  customize_function d s =
    (Scan (dict_set (table s) (printed d) (dict_del a "params")) (update (global_annotations s) (dict_del a "params"))
       (update (parameter_annotations s) p) (default_values s) (stderr s), Ok ()).
Proof.
  intros E Hnd (a1 & a2 & -> & H1 & H2)%dict_get_params; [|done].
  unfold customize_function, table_lookup. rewrite bind_gets, E.
  set (a := a1 ++ ("params", AParams p) :: a2) in *.
  set (s1 := Scan (dict_set (table s) (printed d) (dict_del a "params")) (global_annotations s)
    (update (parameter_annotations s) p) (default_values s) (stderr s)).
  assert (take_params (printed d) ("params", AParams p) s = (s1, Ok ())) as Htake.
  { unfold take_params. cbn [fst snd]. rewrite decide_True by done. unfold modify, s1. by rewrite E. }
  assert (for_each (take_params (printed d)) a s = (s1, Ok ())) as Hrun.
  { unfold a. rewrite for_each_app, (bind_run _ _ _ _ _ (take_params_other _ _ _ H1)). cbn [for_each].
    by rewrite (bind_run _ _ _ _ _ Htake), take_params_other. }
  rewrite (bind_run _ _ _ _ _ Hrun), bind_gets. unfold s1 at 1. cbn [table]. by rewrite dict_get_set, decide_True by done.
Qed.
Lemma customize_function_plain d s a :
  dict_get (table s) (printed d) = Some a → Forall (λ e, e.1 ≠ "params") a →
  ∃ s', customize_function d s = (s', Ok ()) ∧ same_params s s'.
Proof.
  intros E Hno. unfold customize_function, table_lookup. rewrite bind_gets, E.
  rewrite (bind_run _ _ _ _ _ (take_params_other _ _ _ Hno)), bind_gets. by eexists.
Qed.

(** The hook notes what the table says of the parameters of a function when it
    is called for it the first time: that part then leaves the table, and a
    second call notes nothing. *)
Theorem params_once d m s a p :
  declared_in d m → customized d m →
  dict_get (table s) (printed d) = Some a → NoDup a.*1 → dict_get a "params" = Some (AParams p) →
  ∃ s', hook_of d s = (s', Ok ()) ∧ parameter_annotations s' = update (parameter_annotations s) p ∧
    ∀ s2, table s2 = table s' →
      ∃ s2', hook_of d s2 = (s2', Ok ()) ∧ table s2' = table s' ∧ parameter_annotations s2' = parameter_annotations s2.
Proof.
  intros Hd Hc E Hnd Hp. destruct (hook_customize d m s Hd Hc) as (s1 & -> & Ht & Hpa).
  rewrite (customize_function_params d s1 a p) by (by rewrite ?Ht). eexists. split; [done|].
  cbn [table parameter_annotations]. split; [by rewrite Hpa|]. intros s2 Hs2.
  destruct (hook_customize d m s2 Hd Hc) as (s3 & -> & Ht3 & Hpa3).
  destruct (customize_function_plain d s3 (dict_del a "params")) as (s4 & -> & Ht4 & Hpa4).
  { by rewrite Ht3, Hs2, dict_get_set, decide_True. }
  { apply dict_del_others. }
  exists s4. by rewrite Ht4, Ht3, Hpa4, Hpa3.
Qed.

(** ** Imports *)

(** A class is declared in this module if its header is of this module, or if
    it is an instance of a template with an argument of this module. *)
Lemma class_module_spec d dm ms :
  parameters_modules find_declaration_from_name headers_map (templates_split (decl_name d)).2 = Ok ms →
  ∃ cm, class_module is_instantiation templates_split find_declaration_from_name headers_map module d dm = Ok cm ∧
    (cm = module ↔ dm = module ∨ is_instantiation (decl_string d) = true ∧ module ∈ ms) ∧ (cm = module ∨ cm = dm).
Proof.
  intros Hms. unfold class_module. destruct (is_instantiation _); [rewrite Hms; simpl; case_bool_decide|];
    eexists; (split; [done|]); naive_solver.
Qed.
Lemma dict_get_update {V} (d e : list (string * V)) k : (k ∉ e.*1) → dict_get (update d e) k = dict_get d k.
Proof.
  unfold update. revert d. induction e as [|[k' v] e IH]; intros d; simpl; [done|].
  intros [? ?]%not_elem_of_cons. by rewrite IH, dict_get_set, decide_False by done.
Qed.
(** A step that leaves one annotation as it is. *)
Definition leaves (k : string) (m : hook) : Prop := ∀ s, ∃ s', m s = (s', Ok ()) ∧
  table s' = table s ∧ dict_get (global_annotations s') k = dict_get (global_annotations s) k.
Lemma leaves_annotate k k' a : k' ≠ k → leaves k (annotate k' a).
Proof. intros ? s. eexists. split; [done|]. cbn. by rewrite dict_get_set, decide_False. Qed.
Lemma leaves_bind k m1 m2 : leaves k m1 → leaves k m2 → leaves k (m1 ≫= λ _, m2).
Proof.
  intros H1 H2 s. destruct (H1 s) as (s1 & E1 & Ht & Hk). destruct (H2 s1) as (s2 & E2 & Ht' & Hk').
  exists s2. rewrite (bind_run _ _ _ _ _ E1). split_and!; [done|congruence..].
Qed.

(** A class is imported from the module of its header, unless it is declared
    in this one: whatever else is noted of it, that is what decides. *)
Theorem class_import d dm cm s :
  declared_in d dm → kind d = Class_ →
  class_module is_instantiation templates_split find_declaration_from_name headers_map module d dm = Ok cm →
  dict_get (global_annotations s) "import_from_module" = None →
  (∀ a, dict_get (table s) (decl_string d) = Some a → "import_from_module" ∉ a.*1) →
  ∃ s', hook_of d s = (s', Ok ()) ∧
    dict_get (global_annotations s') "import_from_module" =
      if decide (cm = module) then None else Some (AStr ("ns." +:+ no_dashes cm)).
Proof.
  intros (h & Hpath & Hne & Hm) Hk Hcm Hs Htable. unfold pre_scan_hook. rewrite Hpath, Hk. cbn [default].
  rewrite decide_False by done. unfold module_of. rewrite Hm, bind_lift_ok, bind_annotate, bind_mret. cbn [is_calldef].
  rewrite bind_mret. unfold hook_class, print_stderr. rewrite bind_modify, Hcm, bind_lift_ok.
  set (s1 := Scan _ _ _ _ _).
  assert (∃ s2, (if decide (cm = module) then mret () else annotate "import_from_module" (AStr ("ns." +:+ no_dashes cm))) s1
      = (s2, Ok ()) ∧ table s2 = table s ∧ dict_get (global_annotations s2) "import_from_module" =
        (if decide (cm = module) then None else Some (AStr ("ns." +:+ no_dashes cm)))) as (s2 & E & Ht & <-).
  { case_decide; eexists; (split; [done|]); (split; [done|]); cbn; rewrite ?dict_get_set; by simplify_option_eq. }
  rewrite (bind_run _ _ _ _ _ E). clear E s1.
  assert (∀ m, leaves "import_from_module" m → ∃ s', m s2 = (s', Ok ()) ∧
    dict_get (global_annotations s') "import_from_module" = dict_get (global_annotations s2) "import_from_module") as Hend.
  { intros m Hl. destruct (Hl s2) as (s' & ? & _ & ?). by exists s'. }
  repeat case_match; try (apply Hend; repeat apply leaves_bind; by apply leaves_annotate).
  unfold table_lookup. rewrite bind_gets, Ht. destruct (dict_get (table s) (decl_string d)) as [a|] eqn:Ea; [|by exists s2].
  eexists. split; [done|]. cbn. apply dict_get_update. by eapply Htable.
Qed.
End hook_facts.

(** ** Examples *)

Definition demo_modules : modules :=
  [("wifi", (["network"; "core"], ["wifi-net-device.h"]));
   ("core", ([], ["object.h"; "nstime.h"]));
   ("csma-layout", (["network"], ["csma-star.h"]));
   ("network", (["core"], ["node.h"]));
   ("alone", ([], ["alone.h"]))].
Example demo_sections :
  (λ c, (section_files c).*1) <$> scan_sections demo_modules "gen/ns3modulegen.py" =
  Ok ["__main__"; "ns3_module_core"; "ns3_module_network"; "ns3_module_csma_layout"; "ns3_module_wifi"].
Proof. vm_compute. reflexivity. Qed.
Example demo_alone :
  (λ c, (classify c "/x/ns3/alone.h", classify c "/x/ns3/node.h")) <$> scan_sections demo_modules "gen/ns3modulegen.py" =
  Ok ("__main__", "ns3_module_network").
Proof. vm_compute. reflexivity. Qed.
(** Two modules that only differ in a dash share a section, and a module that
    is named but not there is a KeyError. *)
Example shared_section :
  section_precendences <$> scan_sections [("a-b", (["core"], [])); ("a_b", (["core"; "a-b"], [])); ("core", ([], []))] "g.py" =
  Ok [("ns3_module_core", 0); ("ns3_module_a_b", 2)].
Proof. vm_compute. reflexivity. Qed.
Example missing_module : scan_sections [("wifi", (["core"], []))] "g.py" = Err KeyError.
Proof. vm_compute. reflexivity. Qed.

(** The hypotheses on a table, tried on each of its entries. *)
Lemma dict_get_in {V} (d : list (string * V)) k v : dict_get d k = Some v → (k, v) ∈ d.
Proof. induction d as [|[k' w] d IH]; simpl; [done|]. case_decide; intros; simplify_eq; [left|right; auto]. Qed.
Lemma good_modules_check (ms : modules) :
  Forall (λ m, Forall (λ m', section_of m = section_of m' → m = m') ms.*1) ms.*1 →
  Forall (λ e, Forall (λ d, d ∈ ms.*1) e.2.1) ms → good_modules ms.
Proof.
  rewrite !Forall_forall. intros Hs Hd. split.
  - intros m m' Hm%Hs. rewrite Forall_forall in Hm. auto.
  - intros m d (deps & hs & E%dict_get_in & Hin). specialize (Hd _ E). rewrite Forall_forall in Hd. by apply Hd.
Qed.
Lemma only_owner_check (ms : modules) m h :
  owns ms m h → Forall (λ e, h ∈ e.2.2 → e.1 = m) ms → only_owner ms m h.
Proof. rewrite Forall_forall. intros Ho Hu. split; [done|]. intros m' (deps & hs & E%dict_get_in & Hin). by apply (Hu _ E). Qed.
Lemma section_order_witness : good_modules demo_modules ∧ ∃ c i j,
  scan_sections demo_modules "gen/ns3modulegen.py" = Ok c ∧
  get_section_precedence c (classify c "build/ns3/node.h") = Ok i ∧
  get_section_precedence c (classify c "build/ns3/wifi-net-device.h") = Ok j ∧ -1 < i < j.
Proof.
  assert (good_modules demo_modules) as Hg
    by (apply good_modules_check; apply (bool_decide_unpack _); vm_compute; done).
  assert (depends demo_modules "wifi" "network") by (by exists ["network"; "core"], ["wifi-net-device.h"]; split; [|left]).
  assert (only_owner demo_modules "wifi" "wifi-net-device.h").
  { apply only_owner_check; [by exists ["network"; "core"], ["wifi-net-device.h"]; split; [|left]|].
    apply (bool_decide_unpack _); vm_compute; done. }
  assert (only_owner demo_modules "network" "node.h").
  { apply only_owner_check; [by exists ["core"], ["node.h"]; split; [|left]|].
    apply (bool_decide_unpack _); vm_compute; done. }
  split; [done|]. destruct (section_order demo_modules "gen/ns3modulegen.py" Hg) as [(_ & c & Hc & Hord & _)|(m & _ & E)].
  - exists c. destruct (Hord "wifi" "network" "build/ns3/wifi-net-device.h" "build/ns3/node.h") as (i & j & Hi & Hj & Hij); [assumption..|].
    exists i, j. exact (conj Hc (conj Hi (conj Hj Hij))).
  - vm_compute in E. discriminate E.
Defined.

(** The directory of the headers of a build, and one outside of ns-3. *)
Example demo_paths :
  get_ns3_relative_path <$> ["/root/ns3/build/ns3/node.h"; "/usr/include/string"; "ns3/x/y.h"; "node.h"; "/b/ns3"; ""] =
  [Ok (Some "node.h"); Err (ValueError ""); Ok (Some "x/y.h"); Err AssertionError; Err TypeError; Ok None].
Proof. vm_compute. reflexivity. Qed.

Definition demo_map : list (string * string) := [("random-variable.h", "core"); ("csma-star.h", "csma-layout")].
Definition demo_hook (module : string) (d : decl) : hook :=
  pre_scan_hook (λ s, endswith s ">") (λ s, (s, [])) (λ _, []) (λ _, None) demo_map module d.
Definition demo_seed : decl := Decl "/b/ns3/random-variable.h" (MemberFunction "RandomVariable") "GetSeed" ""
  "void ns3::RandomVariable::GetSeed(uint32_t * seed) const [member function]".
Definition demo_scan : scan := Scan type_annotations [] [] [None; Some "ns3::Seconds( )"] [].
Example demo_seed_run :
  (λ s, (global_annotations s, parameter_annotations s, default_values s)) (demo_hook "core" demo_seed demo_scan).1 =
  ([("pygen_comment", AStr "random-variable.h (module 'core'): void ns3::RandomVariable::GetSeed(uint32_t * seed) const [member function]")],
   [("seed", [("direction", "out"); ("array_length", "6")])], [None; Some "ns3::Seconds(0)"]).
Proof. vm_compute. reflexivity. Qed.
(** An enumeration of a module with a dash in its name is imported from a name
    that no module of Python has; a class is not. *)
Definition demo_of (k : decl_kind) : decl := Decl "/b/ns3/csma-star.h" k "X" "::ns3::X" "ns3::X".
Example dashed_modules :
  (λ k, dict_get (global_annotations (demo_hook "core" (demo_of k) demo_scan).1) "import_from_module") <$> [Enumeration; Class_] =
  [Some (AStr "ns.csma-layout"); Some (AStr "ns.csma_layout")].
Proof. vm_compute. reflexivity. Qed.

Lemma params_once_witness : ∃ s',
  demo_hook "core" demo_seed demo_scan = (s', Ok ()) ∧
  parameter_annotations s' = [("seed", [("direction", "out"); ("array_length", "6")])] ∧
  parameter_annotations (demo_hook "core" demo_seed (Scan (table s') [] [] [] [])).1 = [].
Proof.
  destruct (params_once (λ s, endswith s ">") (λ s, (s, [])) (λ _, []) (λ _, None) demo_map "core" demo_seed "core" demo_scan
    [("params", AParams [("seed", [("direction", "out"); ("array_length", "6")])])]
    [("seed", [("direction", "out"); ("array_length", "6")])]) as (s' & Hrun & Hp & Hagain).
  - exists "random-variable.h". by split_and!; [vm_compute| |].
  - done.
  - vm_compute. reflexivity.
  - apply NoDup_singleton.
  - reflexivity.
  - exists s'. split_and!; [done|done|].
    destruct (Hagain (Scan (table s') [] [] [] []) eq_refl) as (s2 & E & _ & Hs2). unfold demo_hook. by rewrite E.
Defined.
Lemma class_import_witness : ∃ s',
  demo_hook "core" (demo_of Class_) demo_scan = (s', Ok ()) ∧
  dict_get (global_annotations s') "import_from_module" = Some (AStr "ns.csma_layout").
Proof.
  apply (class_import (λ s, endswith s ">") (λ s, (s, [])) (λ _, []) (λ _, None) demo_map "core" (demo_of Class_)
    "csma-layout" "csma-layout" demo_scan).
  - exists "csma-star.h". by split_and!; [vm_compute| |].
  - reflexivity.
  - vm_compute. reflexivity.
  - reflexivity.
  - intros a E. vm_compute in E. discriminate E.
Defined.
Lemma ns3_relative_path_witness :
  Forall component ["root"; "ns3"; "build"; "ns3"; "node.h"] ∧
  get_ns3_relative_path "/root/ns3/build/ns3/node.h" = Ok (Some "node.h") ∧
  get_ns3_relative_path "/usr/include/string" = Err (ValueError "").
Proof.
  assert (∀ c, c ≠ "" → bool_decide ("/"%char ∉ chars c) = true → component c) as Hc.
  { intros c ? ?%bool_decide_eq_true. by split. }
  destruct ns3_relative_path as [_ Hpath]. split_and!.
  - repeat constructor; by apply Hc.
  - destruct (Hpath true ["root"; "ns3"; "build"; "ns3"; "node.h"]) as [Hfound _]; [repeat constructor; by apply Hc|done|].
    apply (Hfound ["root"; "ns3"; "build"] ["node.h"]); [done|set_solver].
  - destruct (Hpath true ["usr"; "include"; "string"]) as [_ Hmissing]; [repeat constructor; by apply Hc|done|].
    apply Hmissing. set_solver.
Defined.
