(* ===== verification/ApiGen.v ===== *)
(** * bindings/python: the generation of the bindings
    ns3modulegen_core_customizations.py: the names of smart pointers, the
    classes of callbacks and the handlers that use them, the construction of
    objects and the default values of attributes; ns3modulegen-modular.py: the
    errors of wrappers and the program itself.  What pybindgen knows of a type,
    and what it writes, is behind arguments. *)
From Stdlib Require Import Ascii.
From S2P Require Import Prelude PyStr PyRe PyFormat PyPath ApiScan.
#[local] Open Scope Z_scope.

(** ** Smart pointers *)

(** [(ns3::|::ns3::|)Ptr<([^>]+)>\s*$], matched at the start: the second
    group. *)
Definition ptr_start (l : list ascii) : option (list ascii) :=
  match drop_prefix (chars "ns3::Ptr<") l with
  | Some k => Some k
  | None =>
      match drop_prefix (chars "::ns3::Ptr<") l with
      | Some k => Some k
      | None => drop_prefix (chars "Ptr<") l
      end
  end.
Definition not_gt (a : ascii) : bool := negb (bool_decide (a = ">"%char)).
Definition rx_match (name : string) : option string :=
  match ptr_start (chars name) with
  | None => None
  | Some l =>
      let '(inner, rest) := span not_gt l in
      if bool_decide (inner ≠ []) && forallb is_space (tail rest) && bool_decide (head rest = Some ">"%char)
      then Some (of_chars inner) else None
  end.
(** [s[n:]] and [s[:-n]] *)
Definition drop_chars (n : nat) (s : string) : string := of_chars (drop n (chars s)).
Definition drop_end (n : nat) (s : string) : string := of_chars (take (String.length s - n) (chars s)).
Definition _get_untransformed_type_traits (name : string) : option string * bool :=
  match rx_match name with
  | None => (None, false)
  | Some inner =>
      let name1 := strip inner in
      let '(name1, is_const) := if startswith name1 "const " then (drop_chars 6 name1, true) else (name1, false) in
      let '(name1, is_const) := if endswith name1 " const" then (drop_end 6 name1, true) else (name1, is_const) in
      let new_name := name1 +:+ " *" in
      (Some (if startswith new_name "::" then drop_chars 2 new_name else new_name), is_const)
  end.
Definition get_untransformed_name (name : string) : option string := (_get_untransformed_type_traits name).1.

Inductive handler_kind : Type := IsParameter | IsReturnValue | IsOther.
(** A handler that is made: its C type, the type it was made from, and the
    argument that says who owns the object. *)
Record type_handler := TypeHandler {
  ctype : string;
  untransformed_ctype : string;
  ownership : string * bool;
}.
Definition create_type_handler (kind : handler_kind) (name : string) : res type_handler :=
  own ← (match kind with
         | IsParameter => Ok ("transfer_ownership", false)
         | IsReturnValue => Ok ("caller_owns_return", false)
         | IsOther => Err AssertionError
         end);
  match _get_untransformed_type_traits name with
  | (None, _) => Err TypeError
  | (Some orig_ctype, is_const) =>
      let c := drop_end 2 orig_ctype in
      Ok (TypeHandler (if (is_const : bool) then "ns3::Ptr< " +:+ c +:+ " const >" else "ns3::Ptr< " +:+ c +:+ " >") orig_ctype own)
  end.
Definition untransform (h : type_handler) (expression : string) : string :=
  "const_cast<" +:+ untransformed_ctype h +:+ "> (ns3::PeekPointer (" +:+ expression +:+ "))".
Definition transform (h : type_handler) (expression : string) : res string :=
  last ← py_index (chars (untransformed_ctype h)) (-1);
  _ ← py_assert (bool_decide (last = "*"%char));
  Ok ("ns3::Ptr< " +:+ drop_end 1 (untransformed_ctype h) +:+ " > (" +:+ expression +:+ ")").

(** ** Handlers of callbacks *)

(** The calls on a wrapper. *)
Inductive wcall : Type :=
| NewVariable (type name : string) (value : option string)
| AddParameter (fmt : string) (vars : list string) (name : string) (optional : bool)
| WriteCode (code : string)
| ErrorCheck (condition : string) (cleanup : option string)
| CleanupCode (code : string)
| Indent
| Unindent
| CallParam (code : string).
Definition say_w (c : wcall) : eff (list wcall) exn unit := modify (λ w, w ++ [c]).
Definition callback_class (template_parameters : list string) : string :=
  "ns3::Callback< " +:+ join ", " template_parameters +:+ " >".
Definition impl_name (num : nat) : string := "PythonCallbackImpl" +:+ pretty num.
(** The classes that [register_callback_classes] makes: the type that each is
    registered for, the class it creates and its template arguments. *)
Definition register_callback_classes (callbacks : list (list string)) : list (string * string * list string) :=
  imap (λ num template_parameters, (callback_class template_parameters, impl_name num, template_parameters)) callbacks.
(** A parameter of a wrapper; [handler_num] is the class that
    [register_callback_classes] made for the callback of that number. *)
Record callback_param := CallbackParam {
  param_name : string;
  default_value : option string;
  handler_num : nat;
  template_args : list string;
}.

Definition quoted (s : string) : string := String dquote (s +:+ String dquote "").

Section handlers.
(** The name that a declared variable gets, by what was declared before. *)
Context (declared : list wcall → string → string).
Definition declare_variable (type name : string) (value : option string) : eff (list wcall) exn string :=
  n ← gets (λ w, declared w name);
  _ ← say_w (NewVariable type n value);
  mret n.
Definition not_callable (p : callback_param) (py_callback : string) : wcall :=
  ErrorCheck ("!PyCallable_Check(" +:+ py_callback +:+ ")")
    (Some ("PyErr_SetString(PyExc_TypeError, " +:+ quoted ("parameter '" +:+ param_name p +:+ "' must be callbale") +:+ ");")).
(** [PythonCallbackParameter.convert_python_to_c] *)
Definition convert_python_to_c (disabled : nat → bool) (p : callback_param) : eff (list wcall) exn unit :=
  let impl := impl_name (handler_num p) in
  let args := join ", " (template_args p) in
  if disabled (handler_num p) then throw (PyException "CodeGenerationError: wrapper could not be generated")
  else
    match default_value p with
    | None =>
        py_callback ← declare_variable "PyObject*" (param_name p) None;
        _ ← say_w (AddParameter "O" ["&" +:+ py_callback] (param_name p) false);
        _ ← say_w (not_callable p py_callback);
        callback_impl ← declare_variable ("ns3::Ptr<" +:+ impl +:+ ">") (param_name p +:+ "_cb_impl") None;
        _ ← say_w (WriteCode (callback_impl +:+ " = ns3::Create<" +:+ impl +:+ "> (" +:+ py_callback +:+ ");"));
        say_w (CallParam ("ns3::Callback<" +:+ args +:+ "> (" +:+ callback_impl +:+ ")"))
    | Some default =>
        py_callback ← declare_variable "PyObject*" (param_name p) (Some "NULL");
        _ ← say_w (AddParameter "O" ["&" +:+ py_callback] (param_name p) true);
        value ← declare_variable ("ns3::Callback<" +:+ args +:+ ">") (param_name p +:+ "_value") (Some default);
        _ ← say_w (WriteCode ("if (" +:+ py_callback +:+ ") {"));
        _ ← say_w Indent;
        _ ← say_w (not_callable p py_callback);
        _ ← say_w (WriteCode (value +:+ " = ns3::Callback<" +:+ args +:+ "> (ns3::Create<" +:+ impl +:+ "> (" +:+ py_callback +:+ "));"));
        _ ← say_w Unindent;
        _ ← say_w (WriteCode "}");
        say_w (CallParam value)
    end.
(** [PythonCallbackParameter.convert_c_to_python] *)
Definition convert_c_to_python : eff (list wcall) exn unit :=
  throw (PyException ("NotSupportedError: Reverse wrappers for ns3::Callback<...> types "
    +:+ "(python using callbacks defined in C++) not implemented.")).
(** [CallbackImplProxyMethod.generate_python_call] *)
Definition generate_python_call (build_params : list string) : eff (list wcall) exn unit :=
  p ← lift_res (py_index build_params 0);
  first ← lift_res (py_index (chars p) 0);
  let build_params := if decide (first = dquote) then ("(char *) " +:+ p) :: tail build_params else build_params in
  args ← declare_variable "PyObject*" "args" None;
  _ ← say_w (WriteCode (args +:+ " = Py_BuildValue(" +:+ join ", " build_params +:+ ");"));
  _ ← say_w (CleanupCode ("Py_DECREF(" +:+ args +:+ ");"));
  _ ← say_w (WriteCode ("py_retval = PyObject_CallObject(m_callback, " +:+ args +:+ ");"));
  _ ← say_w (ErrorCheck "py_retval == NULL" None);
  say_w (CleanupCode "Py_DECREF(py_retval);").
End handlers.

(** ** Classes of callbacks *)

Definition nl : string := String newline "".
(** The text of a class up to its operator. *)
Definition class_text (class_name : string) (template_parameters : list string) : string :=
  join nl [""; "class " +:+ class_name +:+ " : public ns3::CallbackImpl<" +:+ join ", " template_parameters +:+ ">";
    "{";
    "public:";
    "    PyObject *m_callback;";
    "    " +:+ class_name +:+ "(PyObject *callback)";
    "    {";
    "        Py_INCREF(callback);";
    "        m_callback = callback;";
    "    }";
    "    virtual ~" +:+ class_name +:+ "()";
    "    {";
    "        PyGILState_STATE __py_gil_state;";
    "        __py_gil_state = (PyEval_ThreadsInitialized() ? PyGILState_Ensure() : (PyGILState_STATE) 0);";
    "        Py_DECREF(m_callback);";
    "        m_callback = NULL;";
    "        PyGILState_Release(__py_gil_state);";
    "    }";
    "";
    "    virtual bool IsEqual(ns3::Ptr<const ns3::CallbackImplBase> other_base) const";
    "    {";
    "        const " +:+ class_name +:+ " *other = dynamic_cast<const " +:+ class_name +:+ "*> (ns3::PeekPointer (other_base));";
    "        if (other != NULL)";
    "            return (other->m_callback == m_callback);";
    "        else";
    "            return false;";
    "    }";
    "";
    ""].
(** What pybindgen says of a C type: its normal form and whether it is const;
    whether there is a handler for it as a return value, and as a parameter,
    then with the class of the parameter if it is one. *)
Record types := Types {
  parse_type : string → string * bool;
  new_return : string → bool → option string;              (* the error, if any *)
  new_param : string → string → bool → string + option string;
}.
(** The helper class of a class: [cannot_be_constructed] is known once its
    forward declarations are generated. *)
Record gstate := GState {
  emitted : list (nat * list string * list string);  (* number, template arguments, types of the parameters *)
  warnings : list string;
  disabled : list nat;                                (* handlers *)
  no_helper : list string;                            (* classes that lost their helper *)
}.
Section generate.
Context (ty : types) (has_bad_helper : string → bool).
(** The handler that the matcher of return values, and that of parameters, has
    for a class of callbacks. *)
Context (lookup_return lookup_param : string → option nat).
(** What [generate] of pybindgen raises for a return type and parameters, if it
    does: what [convert_c_to_python] of a parameter raises, for one. *)
Context (generate_error : string → list string → option exn).

Definition warn_callback (what why : string) (cls_name : string) : eff gstate exn unit := modify (λ s,
  GState (emitted s) (warnings s ++ ["***** Unable to register callback; " +:+ what +:+ " error (used in " +:+ cls_name +:+ "): " +:+ why])
    (disabled s) (no_helper s)).
Definition disable (handler : option nat) : eff gstate exn unit := modify (λ s,
  GState (emitted s) (warnings s) (disabled s ++ option_list handler) (no_helper s)).
Definition drop_helper (cls : string) : eff gstate exn unit := modify (λ s,
  GState (emitted s) (warnings s) (disabled s) (if decide (cls ∈ no_helper s) then no_helper s else no_helper s ++ [cls])).
Definition arg_name (arg_num : nat) : string := "arg" +:+ pretty (arg_num + 1)%nat.
(** The loop over the parameters: their types, and whether all are known. *)
Fixpoint make_arguments (cls_name : string) (arg_num : nat) (types_ : list string) (arguments : list string) (ok : bool)
    : eff gstate exn (list string * bool) :=
  match types_ with
  | [] => mret (arguments, ok)
  | arg_type :: types_ =>
      let '(c, const) := parse_type ty arg_type in
      match new_param ty c (arg_name arg_num) const with
      | inl why =>
          _ ← warn_callback ("parameter '" +:+ arg_type +:+ " " +:+ arg_name arg_num +:+ "'") why cls_name;
          make_arguments cls_name (S arg_num) types_ arguments false
      | inr cpp_class =>
          _ ← (match cpp_class with
               | Some cls => if has_bad_helper cls then drop_helper cls else mret ()
               | None => mret ()
               end);
          make_arguments cls_name (S arg_num) types_ (arguments ++ [c]) ok
      end
  end.
Definition emit (num : nat) (template_parameters arguments : list string) : eff gstate exn unit := modify (λ s,
  GState (emitted s ++ [(num, template_parameters, arguments)]) (warnings s) (disabled s) (no_helper s)).
Definition callback_parameters (template_parameters : list string) : list string :=
  filter (λ arg, arg ≠ "ns3::empty") (tail template_parameters).
(** One turn of the loop of [generate_callback_classes]. *)
Definition generate_callback_class (num : nat) (template_parameters : list string) : eff gstate exn unit :=
  let cls_name := callback_class template_parameters in
  callback_return ← lift_res (py_index template_parameters 0);
  let '(c, const) := parse_type ty callback_return in
  match new_return ty c const with
  | Some why => warn_callback ("Return value '" +:+ callback_return +:+ "'") why cls_name
  | None =>
      r ← make_arguments cls_name 0 (callback_parameters template_parameters) [] true;
      if negb r.2 then _ ← disable (lookup_return cls_name); disable (lookup_param cls_name)
      else
        match generate_error c r.1 with
        | Some e => throw e
        | None => emit num template_parameters r.1
        end
  end.
Fixpoint generate_from (num : nat) (callbacks : list (list string)) : eff gstate exn unit :=
  match callbacks with
  | [] => mret ()
  | template_parameters :: callbacks => _ ← generate_callback_class num template_parameters; generate_from (S num) callbacks
  end.
Definition generate_callback_classes (callbacks : list (list string)) : eff gstate exn unit := generate_from 0 callbacks.
End generate.

(** ** Objects and attributes *)

Record cpp_class := CppClass {
  class_name : string;
  full_name : string;
  cannot_be_constructed : bool;
  incomplete_type : bool;
}.
(** [ns3_object_instance_creation_function]; the message for a class that
    cannot be constructed has two places and is given one value. *)
Definition instance_creation (c : cpp_class) (lvalue construct_type_name parameters : string) : eff (list wcall) exn unit :=
  _ ← lift_res (py_assert (bool_decide (lvalue ≠ "")));
  _ ← lift_res (py_assert (negb (startswith lvalue "None")));
  if cannot_be_constructed c then
    msg ← lift_res (percent "%s cannot be constructed (%s)" (full_name c));
    throw (PyException ("CodeGenerationError: " +:+ msg))
  else if incomplete_type c then
    msg ← lift_res (percent "%s cannot be constructed (incomplete type)" (full_name c));
    throw (PyException ("CodeGenerationError: " +:+ msg))
  else
    _ ← say_w (WriteCode (lvalue +:+ " = new " +:+ construct_type_name +:+ "(" +:+ parameters +:+ ");"));
    say_w (WriteCode (lvalue +:+ "->Ref ();")).
Definition post_instance_creation (lvalue : string) : eff (list wcall) exn unit :=
  say_w (WriteCode ("ns3::CompleteConstruct(" +:+ lvalue +:+ ");")).
(** The method and the registration that a helper class gets. *)
Definition helper_class_hook (name class_full_name : string) : string * string :=
  (join nl [""; "static ns3::TypeId GetTypeId (void)"; "{";
     "  static ns3::TypeId tid = ns3::TypeId (" +:+ quoted name +:+ ")";
     "    .SetParent< " +:+ class_full_name +:+ " > ()"; "    ;"; "  return tid;"; "}"],
   "NS_OBJECT_ENSURE_REGISTERED (" +:+ name +:+ ");").

(** A parameter of a method: its class, if it is a reference to one. *)
Record method_param := MethodParam {
  ref_class : option string;
  p_default : option string;
  default_value_type : option string;
}.
Definition fix_param (p : method_param) : method_param :=
  if decide (ref_class p = Some "AttributeValue" ∧ p_default p ≠ None ∧ default_value_type p = None)
  then MethodParam (ref_class p) (p_default p) (Some "ns3::EmptyAttributeValue") else p.
(** [Attribute_customizations], over the classes, their methods and the
    parameters of these. *)
Definition Attribute_customizations (classes : list (list (list method_param))) : list (list (list method_param)) :=
  fmap (M:=list) (fmap (M:=list) (fmap (M:=list) fix_param)) classes.

Definition add_std_ios_openmode : list string :=
  (λ flag, "PyModule_AddIntConstant(m, (char *) " +:+ quoted ("STD_IOS_" +:+ upper flag) +:+ ", std::ios::" +:+ flag +:+ ");")
    <$> ["in"; "out"; "ate"; "app"; "trunc"; "binary"].
(** [IosOpenmodeParam.convert_python_to_c]; an empty default is none. *)
Definition ios_openmode_param (declared : list wcall → string → string) (name : string) (default_ : option string)
    : eff (list wcall) exn unit :=
  n ← declare_variable declared "std::ios_base::openmode" name default_;
  _ ← say_w (AddParameter "i" ["&" +:+ n] name (bool_decide (default "" default_ ≠ "")));
  say_w (CallParam n).

(** ** ns3modulegen-modular.py *)

(** The frames of a wrapper: file and line, from the call of the module on. *)
Definition frames : Type := list (string * Z).
Inductive wrapper_warning : Type :=
| WarnAt (msg file : string) (line : Z)
| WarnHere (msg : string).
(** [ErrorHandler.handle_error]; the list of the wrapper is reversed in place. *)
Definition handle_error (apidefs_file : string) (msg : string) (stack_where_defined : frames) : frames * wrapper_warning :=
  let stack := reverse stack_where_defined in
  (stack,
   match list_find (λ l, l.1 = apidefs_file) stack with
   | Some (_, (file, line)) => WarnAt msg file line
   | None => WarnHere msg
   end).

(** What an import comes to. *)
Inductive import_of (A : Type) : Type :=
| Imported (a : A)
| NotFound (msg : string)               (* ImportError *)
| ImportRaises (e : exn).
Arguments Imported {A} a.
Arguments NotFound {A} msg.
Arguments ImportRaises {A} e.
Inductive gen_step : Type :=
| OpenSinks (main header : string)
| PrintErr (line : string)
| ModuleInit
| SetName (name : string)
| AddInclude (header : string)
| AddOpenmode
| Register (what : string)              (* module_apidefs.register_*)
| Post (what : string)                  (* module_customization.post_register_* *)
| RegisterCallbacks (callbacks : list (list string))
| ObjectCustomizations
| AttributeCustomizations
| GenerateCallbacks (callbacks : list (list string))
| Generate.
Record gen := Gen { gen_path : list string; steps : list gen_step }.
Abbreviation gio := (eff gen exn).
Section main.
(** What a call raises, if it does. *)
Context (raises : gen_step → option exn).
Definition do_step (x : gen_step) : gio unit := λ g,
  (Gen (gen_path g) (steps g ++ [x]), match raises x with Some e => Err e | None => Ok () end).
(** [sys.path.insert(0, p)], and [sys.path.pop(0)] whatever happens. *)
Definition with_path {A} (p : string) (m : gio A) : gio A := λ g,
  let '(g', r) := m (Gen (p :: gen_path g) (steps g)) in (Gen (tail (gen_path g')) (steps g'), r).
(** The module with the definitions (the file it comes from), the functions
    that the module with the customizations has, and the list of callbacks. *)
Definition gen_imports (apidefs : import_of string) (customization : import_of (list string))
    (callbacks : import_of (list (list string))) : gio (string * list string * list (list string)) :=
  file ← lift_res (match apidefs with
                   | Imported file => Ok file
                   | NotFound msg => Err (PyException msg)
                   | ImportRaises e => Err e
                   end);
  custom ← lift_res (match customization with
                     | Imported l => Ok l
                     | NotFound _ => Ok []
                     | ImportRaises e => Err e
                     end);
  cbs ← (match callbacks with
         | Imported l => _ ← do_step (PrintErr (">>>>>>>>>>>>>>>> [" +:+ join ", " (repr_list <$> l) +:+ "]")); mret l
         | NotFound msg => _ ← do_step (PrintErr ("*************** " +:+ msg)); mret []
         | ImportRaises e => throw e
         end);
  mret (file, custom, cbs).
Definition post (custom : list string) (what : string) : list gen_step :=
  if bool_decide (("post_register_" +:+ what) ∈ custom) then [Post what] else [].
(** What follows the imports, in order. *)
Definition gen_plan (module_name extension_name : string) (custom : list string) (callback_classes : list (list string)) : list gen_step :=
  [ModuleInit; SetName extension_name; AddInclude (quoted ("ns3/" +:+ module_name +:+ "-module.h")); AddOpenmode;
   Register "types"] ++ post custom "types" ++ [RegisterCallbacks callback_classes; Register "methods"] ++
  post custom "methods" ++ [ObjectCustomizations; AttributeCustomizations; GenerateCallbacks callback_classes;
   Register "functions"] ++ post custom "functions" ++ [Generate].
Definition main (argv : list string) (apidefs : import_of string) (customization : import_of (list string))
    (callbacks : import_of (list (list string))) : gio string :=
  match argv with
  | [_; module_abs_src_path; target; extension_name; output_cc_file_name] =>
      let module_name := basename module_abs_src_path in
      _ ← do_step (OpenSinks output_cc_file_name (path_join (path_split output_cc_file_name).1 "ns3module.h"));
      r ← with_path (path_join module_abs_src_path "bindings") (gen_imports apidefs customization callbacks);
      let '(file, custom, callback_classes) := r in
      let apidefs_file := (splitext file).1 +:+ ".py" in
      _ ← for_each do_step (gen_plan module_name extension_name custom callback_classes);
      mret apidefs_file
  | _ => throw (ValueError "values to unpack")
  end.
End main.

(** ** What is shown *)

Lemma do_steps_run raises l g :
  ∃ dn rest, l = dn ++ rest ∧ (for_each (do_step raises) l g).1 = Gen (gen_path g) (steps g ++ dn) ∧
    match (for_each (do_step raises) l g).2 with
    | Ok _ => rest = [] ∧ Forall (λ x, raises x = None) l
    | Err e => ∃ x, last dn = Some x ∧ raises x = Some e
    end.
Proof.
  revert g. induction l as [|x l IH]; intros g.
  - exists [], []. split_and!; [done| |done]. cbn. rewrite app_nil_r. by destruct g.
  - cbn [for_each]. unfold mbind, eff_bind. unfold do_step at 1 3. destruct (raises x) as [e|] eqn:Hx.
    + exists [x], l. split_and!; [done|done|]. by exists x.
    + destruct (IH (Gen (gen_path g) (steps g ++ [x]))) as (dn & rest & -> & E & Hr). exists (x :: dn), rest.
      rewrite E. split_and!; [done|cbn; by rewrite <-app_assoc|]. destruct ((for_each _ _ _).2) as [|e].
      * destruct Hr as [-> ?]. split; [done|by apply Forall_cons].
      * destruct Hr as (y & Hy & ?). exists y. split; [|done]. destruct dn; [done|]. by rewrite last_cons_cons.
Qed.

(** ** Smart pointers *)

(** A name that is written without spaces around it, and without const. *)
Definition bounded (s : string) : Prop :=
  ∃ a l k b, chars s = a :: l ∧ chars s = k ++ [b] ∧ is_space a = false ∧ is_space b = false.
Definition plain_class (c : string) : Prop :=
  bounded c ∧ (">"%char ∉ chars c) ∧ startswith (c +:+ " ") "const " = false ∧ endswith (" " +:+ c) " const" = false ∧
  startswith c "::" = false.
(** The ways to write a class, const or not, in a smart pointer to it. *)
Inductive spelled (c : string) : bool → string → Prop :=
| SpelledPlain : spelled c false c
| SpelledBefore : spelled c true ("const " +:+ c)
| SpelledAfter : spelled c true (c +:+ " const").
Definition blank (s : string) : Prop := Forall (λ a, is_space a = true) (chars s).

Lemma lstrip_blank l k a : Forall (λ a, is_space a = true) l → is_space a = false → lstrip_chars is_space (l ++ a :: k) = a :: k.
Proof. intros Hl Ha. induction Hl as [|x l Hx _ IH]; simpl; [by rewrite Ha|by rewrite Hx]. Qed.
Lemma strip_blank sp1 s sp2 : bounded s → blank sp1 → blank sp2 → strip (sp1 +:+ s +:+ sp2) = s.
Proof.
  intros (a & l & k & b & E1 & E2 & Ha & Hb) H1 H2. unfold strip, strip_chars. rewrite !chars_app, E1.
  rewrite <-app_comm_cons, lstrip_blank by done. rewrite app_comm_cons, <-E1, E2, !reverse_app. cbn [reverse rev_append app].
  change (reverse [b] ++ reverse k) with (b :: reverse k).
  rewrite lstrip_blank by (by apply Forall_reverse || done). change (b :: reverse k) with (reverse [b] ++ reverse k).
  by rewrite <-reverse_app, <-E2, reverse_involutive, of_chars_chars.
Qed.
#[local] Ltac prefix_step :=
  repeat match goal with |- context [String ?a ?c +:+ ?t] => change (String a c +:+ t) with (String a (c +:+ t)) end;
  cbn [String.prefix]; match goal with |- context [ascii_dec ?a ?b] => destruct (ascii_dec a b); [|done] end.
Lemma startswith_const_after c : startswith (c +:+ " const") "const " = startswith (c +:+ " ") "const ".
Proof. unfold startswith. do 6 (destruct c as [|? c]; [reflexivity|prefix_step]). by destruct c. Qed.
Lemma startswith_star c : c ≠ "" → startswith (c +:+ " *") "::" = startswith c "::".
Proof. unfold startswith. intros Hc. destruct c as [|? [|? c]]; [done|by prefix_step|]. do 2 prefix_step. by destruct c. Qed.
Lemma startswith_space c : startswith (c +:+ " ") "const " = false → startswith c "const " = false.
Proof. unfold startswith. do 6 (destruct c as [|? c]; [done|prefix_step]). by destruct c. Qed.
Lemma drop_chars_app p c : drop_chars (String.length p) (p +:+ c) = c.
Proof. unfold drop_chars. by rewrite chars_app, <-length_chars, drop_app_length, of_chars_chars. Qed.
Lemma drop_end_app c p : drop_end (String.length p) (c +:+ p) = c.
Proof.
  unfold drop_end. rewrite <-!length_chars, chars_app, length_app. replace (_ + _ - _)%nat with (length (chars c)) by lia.
  by rewrite take_app_length, of_chars_chars.
Qed.
Lemma bounded_spelled c k w : bounded c → spelled c k w → bounded w.
Proof.
  intros (a & l & j & b & E1 & E2 & Ha & Hb) [| |]; [by exists a, l, j, b|..].
  - exists "c"%char, (chars "onst " ++ chars c), (chars "const " ++ j), b. rewrite chars_app. split_and!; [done| |done|done].
    by rewrite E2, app_assoc.
  - exists a, (l ++ chars " const"), (chars c ++ chars " cons"), "t"%char. rewrite chars_app. split_and!; [by rewrite E1| |done|done].
    by rewrite <-app_assoc.
Qed.
Lemma spelled_no_gt c k w : (">"%char ∉ chars c) → spelled c k w → ">"%char ∉ chars w.
Proof. intros Hc [| |]; [done|..]; rewrite chars_app; set_solver. Qed.

Lemma bounded_nonempty sp1 s sp2 : bounded s → sp1 +:+ s +:+ sp2 ≠ "".
Proof. intros (a & l & k & b & E & _) Heq%(f_equal (λ s, length (chars s))). rewrite !chars_app, E, !length_app in Heq. simpl in Heq. lia. Qed.
Lemma between_blanks sp1 s sp2 : blank sp1 → blank sp2 → (">"%char ∉ chars s) → ">"%char ∉ chars (sp1 +:+ s +:+ sp2).
Proof.
  unfold blank. rewrite !Forall_forall, !chars_app. intros H1 H2 Hs [Hin|[?|Hin]%elem_of_app]%elem_of_app; [|done|].
  - by apply H1 in Hin.
  - by apply H2 in Hin.
Qed.
Lemma rx_match_ptr pre inner sp :
  pre ∈ ["Ptr<"; "ns3::Ptr<"; "::ns3::Ptr<"] → inner ≠ "" → (">"%char ∉ chars inner) → blank sp →
  rx_match (pre +:+ inner +:+ ">" +:+ sp) = Some inner.
Proof.
  intros Hpre Hne Hgt Hsp. unfold rx_match.
  assert (∀ k, span not_gt (chars inner ++ ">"%char :: k) = (chars inner, ">"%char :: k)) as Hspan.
  { intros k. apply span_app; [|by intros a y' [= <- _]]. apply Forall_forall. intros a Ha. unfold not_gt. apply negb_true_iff, bool_decide_false.
    by intros ->. }
  assert (bool_decide (chars inner ≠ []) && forallb is_space (chars sp) = true) as Hok.
  { apply andb_true_iff. split; [apply bool_decide_true; by destruct inner|]. by apply List.forallb_forall, List.Forall_forall. }
  rewrite !chars_app. change (chars ">" ++ chars sp) with (">"%char :: chars sp).
  set (k := chars inner ++ _) in *. specialize (Hspan (chars sp)). fold k in Hspan.
  assert (ptr_start (chars pre ++ k) = Some k) as ->.
  { clearbody k. rewrite !elem_of_cons in Hpre. by destruct Hpre as [->|[->|[->|[]%elem_of_nil]]]. }
  rewrite Hspan. cbn [tail head]. rewrite Hok. by rewrite of_chars_chars.
Qed.

(** What the hook reads of a smart pointer, however it is written. *)
Lemma traits_spelled pre sp1 c k w sp2 sp3 :
  pre ∈ ["Ptr<"; "ns3::Ptr<"; "::ns3::Ptr<"] → plain_class c → spelled c k w → blank sp1 → blank sp2 → blank sp3 →
  _get_untransformed_type_traits (pre +:+ (sp1 +:+ w +:+ sp2) +:+ ">" +:+ sp3) = (Some (c +:+ " *"), k).
Proof.
  intros Hpre (Hb & Hgt & Hc1 & Hc2 & Hc3) Hw H1 H2 H3. unfold _get_untransformed_type_traits.
  pose proof (bounded_spelled _ _ _ Hb Hw) as Hbw.
  rewrite rx_match_ptr; [|done|by apply bounded_nonempty|by apply between_blanks; [..|eapply spelled_no_gt]|done]. rewrite strip_blank by done.
  assert (c ≠ "") as Hne by (intros ->; by destruct Hb as (? & ? & ? & ? & ? & _)).
  assert (endswith c " const" = false) as Hend.
  { apply bool_decide_false. apply bool_decide_eq_false in Hc2. intros Hs. apply Hc2. rewrite chars_app. by apply suffix_cons_r. }
  destruct Hw.
  - rewrite startswith_space, Hend, startswith_star, Hc3 by done. done.
  - replace (startswith ("const " +:+ c) "const ") with true by (by destruct c).
    rewrite (drop_chars_app "const "), Hend, startswith_star, Hc3 by done. done.
  - rewrite startswith_const_after, Hc1. replace (endswith (c +:+ " const") " const") with true.
    2:{ symmetry. apply bool_decide_true. rewrite chars_app. by exists (chars c). }
    assert (drop_end 6 (c +:+ " const") = c) as -> by exact (drop_end_app c " const").
    by rewrite startswith_star, Hc3.
Qed.

(** However a smart pointer to a class is written (with or without the name
    space, blanks and const), its handler gets the same normal form, and the
    type of the object without a star; the normal form is read as itself. *)
Theorem smart_pointer_forms pre sp1 c k w sp2 sp3 kind own :
  pre ∈ ["Ptr<"; "ns3::Ptr<"; "::ns3::Ptr<"] → plain_class c → spelled c k w → blank sp1 → blank sp2 → blank sp3 →
  (kind = IsParameter ∧ own = "transfer_ownership" ∨ kind = IsReturnValue ∧ own = "caller_owns_return") →
  let form := if k then "ns3::Ptr< " +:+ c +:+ " const >" else "ns3::Ptr< " +:+ c +:+ " >" in
  create_type_handler kind (pre +:+ (sp1 +:+ w +:+ sp2) +:+ ">" +:+ sp3) = Ok (TypeHandler form (c +:+ " *") (own, false)) ∧
  create_type_handler kind form = Ok (TypeHandler form (c +:+ " *") (own, false)).
Proof.
  intros Hpre Hc Hw H1 H2 H3 Hkind form.
  assert (∀ name, _get_untransformed_type_traits name = (Some (c +:+ " *"), k) →
    create_type_handler kind name = Ok (TypeHandler form (c +:+ " *") (own, false))) as Hmake.
  { intros name E. unfold create_type_handler. rewrite E. assert (drop_end 2 (c +:+ " *") = c) as -> by exact (drop_end_app c " *").
    by destruct Hkind as [[-> ->]|[-> ->]]; destruct k. }
  split; apply Hmake; [by apply traits_spelled|].
  assert (blank " ") by (by apply Forall_singleton). assert (blank "") by by apply Forall_nil.
  destruct k.
  - rewrite <-(traits_spelled "ns3::Ptr<" " " c true (c +:+ " const") " " ""); [|set_solver|done|constructor|done..].
    f_equal. unfold form. by rewrite !append_assoc.
  - rewrite <-(traits_spelled "ns3::Ptr<" " " c false c " " ""); [|set_solver|done|constructor|done..].
    f_equal. unfold form. by rewrite !append_assoc.
Qed.
(** A template inside of the brackets is no smart pointer to the pattern: its
    own bracket ends the name too early. *)
Example nested_template : rx_match "Ptr<ns3::Callback<void, int> >" = None.
Proof. reflexivity. Qed.
Example doubly_const :
  _get_untransformed_type_traits <$> ["Ptr<const const A>"; "ns3::Ptr< const A const >"; "Ptr<::ns3::A>"] =
  [(Some "const A *", true); (Some "A *", true); (Some "ns3::A *", false)].
Proof. reflexivity. Qed.

(** ** Callbacks *)

Section callback_facts.
Context (ty : types) (has_bad_helper : string → bool).
Context (lookup_return lookup_param : string → option nat).
Context (generate_error : string → list string → option exn).
Local Abbreviation generate_class := (generate_callback_class ty has_bad_helper lookup_return lookup_param generate_error).
Local Abbreviation generate_classes := (generate_callback_classes ty has_bad_helper lookup_return lookup_param generate_error).
Implicit Types (cb : list string) (s : gstate).

(** pybindgen knows the return type of a callback; it knows the types of its
    parameters, as they are numbered. *)
Definition return_known cb : bool :=
  match cb with
  | [] => false
  | c :: _ => bool_decide (new_return ty (parse_type ty c).1 (parse_type ty c).2 = None)
  end.
Fixpoint params_known_from (n : nat) (l : list string) : bool :=
  match l with
  | [] => true
  | t :: l =>
      match new_param ty (parse_type ty t).1 (arg_name n) (parse_type ty t).2 with inr _ => true | inl _ => false end &&
      params_known_from (S n) l
  end.
Definition params_known cb : bool := params_known_from 0 (callback_parameters cb).

Definition c_types (l : list string) : list string := (λ t, (parse_type ty t).1) <$> l.
(** What is raised instead of writing the class, all of whose types are known. *)
Definition refused cb : option exn :=
  if return_known cb && params_known cb
  then generate_error (parse_type ty (default "" (head cb))).1 (c_types (callback_parameters cb)) else None.

(** The loop over the parameters changes only warnings and helpers. *)
Lemma make_arguments_run cls_name n l args ok s : ∃ s' args',
  make_arguments ty has_bad_helper cls_name n l args ok s = (s', Ok (args', ok && params_known_from n l)) ∧
  emitted s' = emitted s ∧ disabled s' = disabled s ∧
  (params_known_from n l = true → args' = args ++ c_types l).
Proof.
  revert n args ok s. induction l as [|t l IH]; intros n args ok s; cbn [make_arguments params_known_from].
  { exists s, args. rewrite andb_true_r. csimpl. by rewrite app_nil_r. }
  csimpl. destruct (parse_type ty t) as [c const]. cbn [fst snd].
  destruct (new_param ty c (arg_name n) const) as [why|cls].
  - unfold warn_callback. rewrite bind_modify.
    match goal with |- context [make_arguments _ _ _ _ _ _ _ ?x] => destruct (IH (S n) args false x) as (s' & args' & -> & ? & ? & _) end.
    exists s', args'. by rewrite andb_false_r.
  - assert (∃ s1, (match cls with Some cls => if has_bad_helper cls then drop_helper cls else mret () | None => mret () end : eff gstate exn unit) s
      = (s1, Ok ()) ∧ emitted s1 = emitted s ∧ disabled s1 = disabled s) as (s1 & E & He & Hd).
    { destruct cls as [cls|]; [destruct (has_bad_helper cls)|]; by eexists. }
    rewrite (bind_run _ _ _ _ _ E). destruct (IH (S n) (args ++ [c]) ok s1) as (s' & args' & -> & ? & ? & Hargs).
    exists s', args'. split_and!; [done|congruence..|]. intros Hk. rewrite Hargs by done. by rewrite <-app_assoc.
Qed.

(** What a turn adds: the class, or the handlers that are turned off. *)
Definition new_class (n : nat) cb : list nat := if return_known cb && params_known cb then [n] else [].
Definition turned_off cb : list nat :=
  if return_known cb && negb (params_known cb)
  then option_list (lookup_return (callback_class cb)) ++ option_list (lookup_param (callback_class cb)) else [].
Definition numbers s : list nat := (λ e : nat * list string * list string, e.1.1) <$> emitted s.
Lemma generate_class_run n cb s : cb ≠ [] → ∃ s',
  match refused cb with
  | Some e => generate_class n cb s = (s', Err e) ∧ numbers s' = numbers s ∧ disabled s' = disabled s
  | None => generate_class n cb s = (s', Ok ()) ∧ numbers s' = numbers s ++ new_class n cb ∧ disabled s' = disabled s ++ turned_off cb
  end.
Proof.
  intros Hcb. unfold generate_callback_class, refused, new_class, turned_off, numbers.
  destruct cb as [|c0 cb0]; [done|]. set (cb := c0 :: cb0).
  change (py_index cb 0) with (Ok c0 : res string). rewrite bind_lift_ok. 
  change (return_known cb) with (bool_decide (new_return ty (parse_type ty c0).1 (parse_type ty c0).2 = None)).
  change (default "" (head cb)) with c0.
  destruct (parse_type ty c0) as [c const]. cbn [fst snd].
  destruct (new_return ty c const) as [why|].
  - rewrite bool_decide_false by done. cbn [andb]. rewrite !app_nil_r. by eexists.
  - destruct (make_arguments_run (callback_class cb) 0 (callback_parameters cb) [] true s) as (s1 & args & E & He & Hd & Ha).
    rewrite (bind_run _ _ _ _ _ E). cbn [snd fst]. rewrite bool_decide_true by done. fold (params_known cb) in Ha |- *. cbn [andb].
    destruct (params_known cb); cbn [negb].
    + rewrite Ha by done. cbn [app]. destruct (generate_error c (c_types (callback_parameters cb))) as [e|]; eexists; (split; [done|]); cbn.
      * by rewrite He, Hd.
      * by rewrite fmap_app, He, Hd, app_nil_r.
    + unfold disable. rewrite bind_modify. eexists. split; [done|]. cbn. by rewrite He, Hd, app_nil_r, <-app_assoc.
Qed.
(** The loop: the turns before the first callback whose generation raises. *)
Lemma generate_from_run n cbs s : Forall (λ cb, cb ≠ []) cbs → ∃ s' k r,
  generate_from ty has_bad_helper lookup_return lookup_param generate_error n cbs s = (s', r) ∧
  (k = length cbs ∧ r = Ok () ∨ ∃ cb e, cbs !! k = Some cb ∧ refused cb = Some e ∧ r = Err e) ∧
  Forall (λ cb, refused cb = None) (take k cbs) ∧
  numbers s' = numbers s ++ mjoin (imap (λ i cb, new_class (n + i) cb) (take k cbs)) ∧
  disabled s' = disabled s ++ mjoin (turned_off <$> take k cbs).
Proof.
  intros Hcbs. revert n s. induction Hcbs as [|cb cbs Hcb _ IH]; intros n s; cbn [generate_from].
  { exists s, 0%nat, (Ok ()). cbn. rewrite !app_nil_r. split_and!; auto. }
  destruct (generate_class_run n cb s Hcb) as [s1 H]. destruct (refused cb) as [e|] eqn:Er; destruct H as (E & Hn & Hd).
  { rewrite (bind_run_err _ _ _ _ _ E). exists s1, 0%nat, (Err e). cbn. rewrite !app_nil_r. split_and!; eauto 10. }
  rewrite (bind_run _ _ _ _ _ E). destruct (IH (S n) s1) as (s2 & k & r & -> & Hr & Hk & Hn2 & Hd2).
  exists s2, (S k), r. cbn. split_and!; [done| |by constructor| |by rewrite Hd2, Hd, <-app_assoc].
  { destruct Hr as [[-> ->]|?]; [left|right]; auto. }
  rewrite Hn2, Hn, Nat.add_0_r, <-!app_assoc. do 3 f_equal. apply imap_ext. intros i x _. cbn. f_equal. lia.
Qed.

Lemma convert_ok declared disabled_ p w :
  is_ok (convert_python_to_c declared disabled_ p w).2 = negb (disabled_ (handler_num p)).
Proof. unfold convert_python_to_c. destruct (disabled_ (handler_num p)); [done|]. by destruct (default_value p). Qed.

(** C36: let every callback be looked up as the handler that was registered for it,
    which is one of parameters.  Writing the classes ends with the first
    callback all of whose types are known and whose class cannot be generated
    (it takes a callback itself, for one), with the exception raised there, or
    goes through all of them.  Of the callbacks gone through, the classes of
    exactly those whose types are all known are written, and the handler is
    turned off only where a parameter is not known.  So where the type that is
    returned is not known, a wrapper is written all the same and uses a class
    that does not exist. *)
Theorem callback_handlers callbacks declared :
  Forall (λ cb, cb ≠ []) callbacks →
  (∀ cls, lookup_return cls = None) → (∀ n cb, callbacks !! n = Some cb → lookup_param (callback_class cb) = Some n) →
  ∃ s' k r, generate_classes callbacks (GState [] [] [] []) = (s', r) ∧
    (k = length callbacks ∧ r = Ok () ∨ ∃ cb e, callbacks !! k = Some cb ∧ refused cb = Some e ∧ r = Err e) ∧
    ∀ n cb p w, callbacks !! n = Some cb → handler_num p = n →
      ((n < k)%nat → refused cb = None) ∧
      (n ∈ numbers s' ↔ (n < k)%nat ∧ return_known cb = true ∧ params_known cb = true) ∧
      (is_ok (convert_python_to_c declared (λ h, bool_decide (h ∈ disabled s')) p w).2 = true ↔
         (k ≤ n)%nat ∨ return_known cb = false ∨ params_known cb = true).
Proof.
  intros Hcbs Hret Hpar. unfold generate_callback_classes.
  destruct (generate_from_run 0 callbacks (GState [] [] [] []) Hcbs) as (s' & k & r & E & Hr & Hk & Hn & Hd).
  exists s', k, r. split_and!; [done..|]. intros n cb p w Hcb <-.
  rewrite convert_ok, Hn, Hd. cbn [numbers emitted disabled fmap list_fmap app].
  set (n := handler_num p) in *.
  assert (∀ i, (i < k)%nat → take k callbacks !! i = callbacks !! i) as Htake by (intros; by apply lookup_take_lt).
  split_and!.
  - intros Hlt. rewrite <-Htake in Hcb by done. by apply (Forall_lookup_1 _ _ _ _ Hk Hcb).
  - rewrite list_elem_of_join. split.
    + intros (l & Hin & (i & x & -> & Hx)%elem_of_lookup_imap). unfold new_class in Hin.
      destruct (return_known x && params_known x) eqn:Ex; [|by apply elem_of_nil in Hin].
      apply list_elem_of_singleton in Hin. simpl in Hin. rewrite <-Hin in Hx.
      apply lookup_take_Some in Hx as [Hx Hlt]. rewrite Hcb in Hx. simplify_eq.
      split; [done|]. by apply andb_true_iff.
    + intros (Hlt & Hrk & Hp). exists (new_class n cb). unfold new_class at 1. rewrite Hrk, Hp. split; [by left|].
      apply elem_of_lookup_imap. exists n, cb. by rewrite Htake.
  - assert (n ∈ mjoin (turned_off <$> take k callbacks) ↔ (n < k)%nat ∧ return_known cb = true ∧ params_known cb = false) as Hoff.
    { rewrite list_elem_of_join. split.
      - intros (l & Hin & (x & -> & [i Hx]%list_elem_of_lookup)%list_elem_of_fmap). unfold turned_off in Hin.
        apply lookup_take_Some in Hx as [Hx Hlt].
        rewrite Hret, (Hpar i x Hx) in Hin. destruct (return_known x && negb (params_known x)) eqn:Ex; [|by apply elem_of_nil in Hin].
        apply list_elem_of_singleton in Hin. subst i. rewrite Hcb in Hx. simplify_eq.
        split; [done|]. by rewrite andb_true_iff, negb_true_iff in Ex.
      - intros (Hlt & Hrk & Hp). exists (turned_off cb). split.
        + unfold turned_off. rewrite Hrk, Hp, Hret, (Hpar n cb Hcb). by left.
        + rewrite <-Htake in Hcb by done. by apply list_elem_of_lookup_2, (list_elem_of_fmap_2 turned_off) in Hcb. }
    rewrite negb_true_iff, bool_decide_eq_false, Hoff. destruct (return_known cb), (params_known cb), (decide (n < k)%nat); naive_solver lia.
Qed.
End callback_facts.

(** ** Objects, errors and the program *)

(** The error that a class cannot be constructed is not the one meant: its
    message cannot be made. *)
Theorem unconstructible_type_error c lvalue t ps w :
  cannot_be_constructed c = true → lvalue ≠ "" → startswith lvalue "None" = false →
  instance_creation c lvalue t ps w = (w, Err TypeError).
Proof.
  intros Hc Hl Hs. unfold instance_creation. rewrite bool_decide_true by done. rewrite Hs, Hc. reflexivity.
Qed.
Lemma fix_param_idem p : fix_param (fix_param p) = fix_param p.
Proof. unfold fix_param. by repeat case_decide. Qed.

(** The frames of the definitions of the API. *)
Definition api_frames (file : string) (stack : list (string * Z)) : list (string * Z) := filter (λ l, l.1 = file) stack.
Definition warn_at (msg : string) (frame : option (string * Z)) : wrapper_warning :=
  match frame with Some (file, line) => WarnAt msg file line | None => WarnHere msg end.
Lemma list_find_filter file (l : list (string * Z)) : snd <$> list_find (λ x, x.1 = file) l = head (api_frames file l).
Proof.
  induction l as [|x l IH]; [done|]. unfold api_frames in *. rewrite filter_cons. cbn [list_find]. case_decide; [done|].
  rewrite <-IH. by destruct (list_find _ l) as [[]|].
Qed.
(** An error is reported at the innermost frame of the definitions; the next
    error of the same wrapper at the outermost, because the frames have been
    reversed in place, and so on in turn. *)
Theorem error_location file msg stack :
  let '(stack1, w1) := handle_error file msg stack in
  let '(stack2, w2) := handle_error file msg stack1 in
  w1 = warn_at msg (last (api_frames file stack)) ∧ w2 = warn_at msg (head (api_frames file stack)) ∧ stack2 = stack.
Proof.
  unfold handle_error. rewrite reverse_involutive.
  assert (∀ l, match list_find (λ x, x.1 = file) l with Some (_, (f, line)) => WarnAt msg f line | None => WarnHere msg end =
    warn_at msg (head (api_frames file l))) as Hw.
  { intros l. rewrite <-list_find_filter. by destruct (list_find _ l) as [[? []]|]. }
  rewrite !Hw. split_and!; [|done..]. f_equal. unfold api_frames. by rewrite filter_reverse, head_reverse.
Qed.

Definition keeps_path {A} (m : gio A) : Prop := ∀ g, gen_path (m g).1 = gen_path g.
Lemma keeps_path_bind {A B} (m : gio A) (k : A → gio B) : keeps_path m → (∀ a, keeps_path (k a)) → keeps_path (m ≫= k).
Proof.
  intros Hm Hk g. unfold mbind, eff_bind. specialize (Hm g). destruct (m g) as [g' [a|e]]; [|done]. by rewrite (Hk a g').
Qed.
Lemma keeps_path_do raises x : keeps_path (do_step raises x).
Proof. done. Qed.
Lemma keeps_path_res {A} (r : res A) : keeps_path (lift_res r).
Proof. done. Qed.
Lemma keeps_path_with {A} p (m : gio A) : keeps_path m → keeps_path (with_path p m).
Proof. intros Hm g. unfold with_path. specialize (Hm (Gen (p :: gen_path g) (steps g))). destruct (m _) as [g' r]. simpl in *. by rewrite Hm. Qed.
Lemma keeps_path_steps raises l : keeps_path (for_each (do_step raises) l).
Proof. induction l as [|x l IH]; [done|]. cbn [for_each]. by apply keeps_path_bind. Qed.

(** Whatever the imports come to and whatever call raises, the path of the
    modules is what it was in the end. *)
Theorem main_restores raises argv apidefs custom callbacks : keeps_path (main raises argv apidefs custom callbacks).
Proof.
  unfold main. destruct argv as [|? [|path [|target [|ext [|out [|? ?]]]]]]; try done.
  apply keeps_path_bind; [apply keeps_path_do|intros _]. apply keeps_path_bind.
  - apply keeps_path_with. unfold gen_imports. repeat (apply keeps_path_bind; [|intros]); try apply keeps_path_res.
    by destruct callbacks; [apply keeps_path_bind|apply keeps_path_bind|].
  - intros [[file cs] cbs]. apply keeps_path_bind; [apply keeps_path_steps|done].
Qed.

(** When the program ends well, the definitions were found; what the other two
    modules lack is empty; and all calls of the plan were made, in its order. *)
Theorem main_steps raises prog path target ext out apidefs custom callbacks g g' file :
  main raises [prog; path; target; ext; out] apidefs custom callbacks g = (g', Ok file) →
  ∃ f cs cbs line, apidefs = Imported f ∧ file = (splitext f).1 +:+ ".py" ∧
    (custom = Imported cs ∨ ∃ msg, custom = NotFound msg ∧ cs = []) ∧
    (callbacks = Imported cbs ∨ ∃ msg, callbacks = NotFound msg ∧ cbs = []) ∧
    steps g' = steps g ++ [OpenSinks out (path_join (path_split out).1 "ns3module.h"); PrintErr line] ++
      gen_plan (basename path) ext cs cbs.
Proof.
  unfold main. intros (? & g1 & E1 & H)%bind_run_inv. unfold do_step in E1. case_match; simplify_eq.
  apply bind_run_inv in H as ([[f cs] cbs] & g2 & E2 & H). apply bind_run_inv in H as (? & g3 & E3 & [= <- <-]).
  unfold with_path in E2. set (g1 := Gen (path_join _ _ :: _) _) in E2.
  destruct (gen_imports _ _ _ _ g1) as [g4 r] eqn:E4. simplify_eq.
  unfold gen_imports in E4. apply bind_run_inv in E4 as (? & ? & [= <- Ha] & E4).
  apply bind_run_inv in E4 as (? & ? & [= <- Hc] & E4). apply bind_run_inv in E4 as (? & ? & Hb & [= -> -> -> ->]).
  destruct apidefs as [f0| |]; simplify_eq.
  assert (∃ line, steps g4 = steps g1 ++ [PrintErr line] ∧
    (callbacks = Imported cbs ∨ ∃ msg, callbacks = NotFound msg ∧ cbs = [])) as (line & Hs & Hcb).
  { destruct callbacks as [l|msg|e]; [| |done]; apply bind_run_inv in Hb as (? & ? & Hp & [= <- <-]); unfold do_step in Hp;
      case_match; simplify_eq/=; eexists; (split; [done|]); eauto. }
  exists f, cs, cbs, line. split_and!; [done|done| |done|].
  - destruct custom; simplify_eq; eauto.
  - destruct (do_steps_run raises (gen_plan (basename path) ext cs cbs) (Gen (tail (gen_path g4)) (steps g4)))
      as (dn & rest & Hl & Hst & Hr). rewrite E3 in Hst, Hr. cbn [fst snd] in Hst, Hr. destruct Hr as [-> _].
    rewrite app_nil_r in Hl. subst dn. rewrite Hst. cbn [steps]. rewrite Hs. unfold g1. cbn [steps]. by rewrite <-!app_assoc.
Qed.

(** ** Examples *)

Definition demo_types : types := Types (λ c, (c, false))
  (λ c _, if decide (c = "ns3::Hidden") then Some "TypeLookupError" else None)
  (λ c _ _, if decide (c = "ns3::Hidden") then inl "TypeLookupError" else inr (Some c)).
Definition demo_callbacks : list (list string) :=
  [["void"; "int"; "ns3::empty"]; ["ns3::Hidden"]; ["void"; "int"; "ns3::Hidden"];
   ["void"; "ns3::Callback< ns3::Hidden >"]; ["void"]].
Definition demo_lookup (cls : string) : option nat :=
  fst <$> list_find (λ e, e.1.1 = cls) (register_callback_classes demo_callbacks).
(** What the handler of a callback that is a parameter of another raises. *)
Definition demo_error (c : string) (args : list string) : option exn :=
  if existsb (λ a, bool_decide (is_Some (demo_lookup a))) args
  then match (convert_c_to_python []).2 with Err e => Some e | Ok _ => None end else None.
Definition demo_generate : gstate * res unit :=
  generate_callback_classes demo_types (λ c, bool_decide (c = "int")) (λ _, None) demo_lookup demo_error
    demo_callbacks (GState [] [] [] []).
(** The last callback is not reached. *)
Example demo_generated :
  (emitted demo_generate.1, disabled demo_generate.1, no_helper demo_generate.1, length (warnings demo_generate.1),
   is_ok demo_generate.2) =
  ([(0%nat, ["void"; "int"; "ns3::empty"], ["int"])], [2%nat], ["int"], 2%nat, false).
Proof. vm_compute. reflexivity. Qed.
Definition demo_param (n : nat) : callback_param := CallbackParam "cb" None n [].
Lemma callback_handlers_witness : ∃ s' r,
  generate_callback_classes demo_types (λ c, bool_decide (c = "int")) (λ _, None) demo_lookup demo_error
    demo_callbacks (GState [] [] [] []) = (s', r) ∧
  (1%nat ∉ numbers s') ∧
  is_ok (convert_python_to_c (λ _ n, n) (λ h, bool_decide (h ∈ disabled s')) (demo_param 1) []).2 = true.
Proof.
  destruct (callback_handlers demo_types (λ c, bool_decide (c = "int")) (λ _, None) demo_lookup demo_error
    demo_callbacks (λ _ n, n)) as (s' & k & r & Hrun & _ & Hall).
  - by repeat constructor.
  - done.
  - intros [|[|[|[|[|n]]]]] cb Hcb; vm_compute in Hcb; simplify_eq; vm_compute; reflexivity.
  - exists s', r. split; [exact Hrun|].
    destruct (Hall 1%nat ["ns3::Hidden"] (demo_param 1) [] eq_refl eq_refl) as (_ & Hn & Hok). split.
    + intros Hin. apply Hn in Hin as (_ & E & _). vm_compute in E. discriminate E.
    + apply Hok. right; left. vm_compute. reflexivity.
Defined.
Lemma smart_pointer_forms_witness :
  create_type_handler IsParameter "::ns3::Ptr< const ns3::Packet>  " =
    Ok (TypeHandler "ns3::Ptr< ns3::Packet const >" "ns3::Packet *" ("transfer_ownership", false)) ∧
  create_type_handler IsParameter "ns3::Ptr< ns3::Packet const >" =
    Ok (TypeHandler "ns3::Ptr< ns3::Packet const >" "ns3::Packet *" ("transfer_ownership", false)).
Proof.
  apply (smart_pointer_forms "::ns3::Ptr<" " " "ns3::Packet" true "const ns3::Packet" "" "  " IsParameter "transfer_ownership").
  - right. right. left.
  - split_and!; [|by apply (bool_decide_unpack _)|reflexivity..].
    exists "n"%char, (chars "s3::Packet"), (chars "ns3::Packe"), "t"%char. split_and!; reflexivity.
  - apply (SpelledBefore "ns3::Packet").
  - by apply Forall_singleton.
  - by apply Forall_nil.
  - by repeat constructor.
  - by left.
Defined.
Example demo_conversion :
  (convert_python_to_c (λ _ n, n) (λ _, false) (CallbackParam "cb" None 3 ["void"; "int"]) []).1 =
  [NewVariable "PyObject*" "cb" None; AddParameter "O" ["&cb"] "cb" false;
   ErrorCheck "!PyCallable_Check(cb)"
     (Some ("PyErr_SetString(PyExc_TypeError, " +:+ quoted "parameter 'cb' must be callbale" +:+ ");"));
   NewVariable "ns3::Ptr<PythonCallbackImpl3>" "cb_cb_impl" None;
   WriteCode "cb_cb_impl = ns3::Create<PythonCallbackImpl3> (cb);"; CallParam "ns3::Callback<void, int> (cb_cb_impl)"].
Proof. reflexivity. Qed.
