(* ===== verification/CompileDb.v ===== *)
(** * waf-tools/clang_compilation_database.py
    The compilation database: the tasks of the generators are collected, and
    after the build their commands are merged into what the file held before.
    Tasks, nodes and the JSON reader are those of waf and of the Python
    library: a task is what the code asks of it, the file a list of dicts. *)
From Stdlib Require Import Ascii.
From S2P Require Import Prelude PyStr PyShlex PyPath.
#[local] Open Scope Z_scope.

(** ** shlex.quote *)

Definition is_safe (a : ascii) : bool :=
  let n := nat_of_ascii a in
  ((48 <=? n) && (n <=? 57) || (65 <=? n) && (n <=? 90) || (97 <=? n) && (n <=? 122))%nat ||
  bool_decide (a ∈ chars "_@%+=:,./-").
Definition squote : ascii := "'"%char.
Definition dquote : ascii := "034"%char.
Definition quote_char (a : ascii) : list ascii :=
  if decide (a = squote) then [squote; dquote; squote; dquote; squote] else [a].
Definition quote (s : string) : string :=
  if decide (s = "") then of_chars [squote; squote]
  else if forallb is_safe (chars s) then s
  else of_chars ([squote] ++ mjoin (quote_char <$> chars s) ++ [squote]).

(** ** The database *)

(** A dict of the file; [entry_of] is the one that a task gets. *)
Definition entry : Type := list (string * string).
Record task := Task {
  last_cmd : option (list string);
  cwd : option string;
  inputs : list string;                    (* absolute paths *)
  is_compiled : bool;                      (* an instance of c or cxx *)
}.
(** What the build context holds for this tool. *)
Record build := Build {
  clang_compilation_database_tasks : option (list task);
  post_funs : nat;                         (* times that the writer was added *)
}.
(** [compiled_tasks] of a task generator may be unset. *)
Definition collect_compilation_db_tasks (compiled_tasks : option (list task)) (bld : build) : build :=
  let bld := match clang_compilation_database_tasks bld with
             | Some _ => bld
             | None => Build (Some []) (S (post_funs bld))
             end in
  Build (Some (default [] (clang_compilation_database_tasks bld) ++
               filter (λ t, is_compiled t = true) (default [] compiled_tasks)))
    (post_funs bld).

Section write.
Context (getcwd variant_dir : string).
Definition entry_of (t : task) (cmd : list string) : res (string * entry) :=
  let directory := default variant_dir (cwd t) in
  f_node ← py_index (inputs t) 0;
  filename ← relpath getcwd f_node directory;
  Ok (filename, [("directory", directory); ("command", join " " (quote <$> cmd)); ("file", filename)]).
(** [dict((x["file"], x) for x in root)] *)
Fixpoint by_file (root : list entry) (db : list (string * entry)) : res (list (string * entry)) :=
  match root with
  | [] => Ok db
  | x :: root =>
      match dict_get x "file" with
      | None => Err KeyError
      | Some f => by_file root (dict_set db f x)
      end
  end.
Fixpoint add_tasks (tasks : list task) (db : list (string * entry)) : res (list (string * entry)) :=
  match tasks with
  | [] => Ok db
  | t :: tasks =>
      match last_cmd t with
      | None => add_tasks tasks db
      | Some cmd => e ← entry_of t cmd; add_tasks tasks (dict_set db e.1 e.2)
      end
  end.
(** [load] is what reading the file comes to; the result is what is written. *)
Definition write_compilation_database (load : res (list entry)) (tasks : option (list task)) : res (list entry) :=
  root ← (match load with
          | Err (OSError | FileNotFoundError) => Ok []
          | r => r
          end);
  clang_db ← by_file root [];
  clang_db ← add_tasks (default [] tasks) clang_db;
  Ok clang_db.*2.
End write.

(** ** Commands are read back *)

(** What the parser of [shlex.split] does with a quoted word. *)
Lemma in_quotes token qd l k :
  shlex_chars (SQuote squote) token qd (mjoin (quote_char <$> l) ++ squote :: k) =
  shlex_chars SWord (token ++ l) true k.
Proof.
  revert token qd. induction l as [|a l IH]; intros token qd; [by rewrite app_nil_r|].
  cbn [fmap list_fmap mjoin list_join foldr]. unfold quote_char at 1. case_decide as Ha.
  - subst. simpl. rewrite IH. by rewrite <-app_assoc.
  - cbn [app shlex_chars]. rewrite decide_False by done. rewrite decide_False by (by intros [_ ?]).
    rewrite IH, <-app_assoc. done.
Qed.
Lemma safe_plain a : is_safe a = true → shlex_white a = false ∧ shlex_quote a = false ∧ a ≠ "\"%char.
Proof.
  unfold is_safe, shlex_white, shlex_quote. rewrite !bool_decide_eq_false. intros Ha.
  split_and!; [intros [->|[->|[->| ->]]]|intros [->| ->]|intros ->]; by vm_compute in Ha.
Qed.
Lemma safe_word token qd l k :
  Forall (λ a, is_safe a = true) l → shlex_chars SWord token qd (l ++ k) = shlex_chars SWord (token ++ l) qd k.
Proof.
  intros Hl. revert token. induction Hl as [|a l Ha _ IH]; intros token; [by rewrite app_nil_r|].
  destruct (safe_plain a Ha) as (H1 & H2 & H3). cbn [app shlex_chars]. rewrite H1, H2, decide_False by done.
  rewrite IH, <-app_assoc. done.
Qed.
Lemma quote_read w k : ∃ qd, shlex_chars SWhite [] false (chars (quote w) ++ k) = shlex_chars SWord (chars w) qd k ∧
  (w = "" → qd = true).
Proof.
  unfold quote. case_decide as Hw; [subst; by exists true|]. destruct (forallb is_safe (chars w)) eqn:Hs.
  - exists false. split; [|done].
    destruct (chars w) as [|a l] eqn:E; [by apply (f_equal of_chars) in E; rewrite of_chars_chars in E|].
    cbn [forallb] in Hs. apply andb_true_iff in Hs as [Ha Hl]. destruct (safe_plain a Ha) as (H1 & H2 & H3).
    cbn [app shlex_chars]. rewrite H1, decide_False, H2 by done. rewrite safe_word; [done|].
    apply List.Forall_forall. by apply List.forallb_forall.
  - exists true. split; [|done]. rewrite chars_of_chars, <-!app_assoc. cbn [app shlex_chars].
    change (shlex_white squote) with false. change (shlex_quote squote) with true. cbn iota. rewrite decide_False by done.
    by rewrite in_quotes.
Qed.
(** The command of an entry, split as a shell splits it, is the list of
    arguments that the task ran. *)
Lemma join_quote_split cmd : shlex_split (join " " (quote <$> cmd)) = Ok cmd.
Proof.
  unfold shlex_split. induction cmd as [|w [|w' cmd] IH]; [done|..].
  - cbn [fmap list_fmap join]. destruct (quote_read w []) as (qd & E & Hqd). rewrite app_nil_r in E. rewrite E. cbn.
    rewrite decide_True; [by rewrite of_chars_chars|]. destruct w; [right; auto|by left].
  - change (join " " (quote <$> w :: w' :: cmd)) with (quote w +:+ " " +:+ join " " (quote <$> w' :: cmd)).
    rewrite !chars_app. destruct (quote_read w (chars " " ++ chars (join " " (quote <$> w' :: cmd)))) as (qd & E & Hqd).
    rewrite E. cbn [chars String.list_ascii_of_string app shlex_chars]. change (shlex_white " ") with true. cbn iota.
    rewrite IH. cbn. rewrite decide_True; [by rewrite of_chars_chars|]. destruct w; [right; auto|by left].
Qed.

(** ** Entries *)

Definition file_of (x : entry) : option string := dict_get x "file".

Section entries.
Context (getcwd variant_dir : string).
Local Abbreviation add_all := (add_tasks getcwd variant_dir).

(** The last task that was compiled for a file, and the entry it gets. *)
Definition entry_for (f : string) (t : task) : option entry :=
  match last_cmd t with
  | None => None
  | Some cmd =>
      match entry_of getcwd variant_dir t cmd with
      | Ok (f', e) => if decide (f' = f) then Some e else None
      | Err _ => None
      end
  end.
Definition last_entry (f : string) (tasks : list task) : option entry := last (omap (entry_for f) tasks).
Definition old_entry (f : string) (root : list entry) : option entry :=
  last (filter (λ x, file_of x = Some f) root).

Lemma by_file_get root db db' f :
  by_file root db = Ok db' → dict_get db' f = match old_entry f root with Some x => Some x | None => dict_get db f end.
Proof.
  unfold old_entry. revert db. induction root as [|x root IH]; intros db; simpl; [by intros [= ->]|].
  change (dict_get x "file") with (file_of x). destruct (file_of x) as [f'|] eqn:E; [|done]. intros Hrun. rewrite (IH _ Hrun), filter_cons, dict_get_set.
  destruct (decide (f' = f)) as [->|Hf].
  - rewrite decide_True by done. rewrite last_cons. by destruct (last _).
  - rewrite decide_False by congruence. done.
Qed.
Lemma add_tasks_get tasks db db' f :
  add_all tasks db = Ok db' → dict_get db' f = match last_entry f tasks with Some x => Some x | None => dict_get db f end.
Proof.
  unfold last_entry. revert db. induction tasks as [|t tasks IH]; intros db; simpl; [by intros [= ->]|].
  unfold entry_for at 1. destruct (last_cmd t) as [cmd|] eqn:Ec; [|by apply IH].
  intros ([f' e] & E & Hrun)%bind_ok. rewrite (IH _ Hrun), E. cbn [fst snd]. rewrite dict_get_set.
  destruct (decide (f' = f)) as [->|Hf]; [|done].
  rewrite last_cons. by destruct (last _).
Qed.
Lemma by_file_keys root db db' : by_file root db = Ok db' → NoDup db.*1 → NoDup db'.*1.
Proof.
  revert db. induction root as [|x root IH]; intros db; simpl; [by intros [= ->]|].
  destruct (dict_get x "file"); [|done]. intros Hrun Hnd. by eapply IH, dict_set_keys.
Qed.
Lemma add_tasks_keys tasks db db' : add_all tasks db = Ok db' → NoDup db.*1 → NoDup db'.*1.
Proof.
  revert db. induction tasks as [|t tasks IH]; intros db; simpl; [by intros [= ->]|].
  destruct (last_cmd t); [|by apply IH]. intros (e & E & Hrun)%bind_ok Hnd. by eapply IH, dict_set_keys.
Qed.
Lemma entry_of_file t cmd f e : entry_of getcwd variant_dir t cmd = Ok (f, e) → dict_get e "file" = Some f ∧
  dict_get e "command" = Some (join " " (quote <$> cmd)).
Proof. unfold entry_of. intros (n & ? & (g & ? & [= <- <-])%bind_ok)%bind_ok. done. Qed.

(** Every entry is under the name of its file. *)
Definition filed (db : list (string * entry)) : Prop := Forall (λ kx, file_of kx.2 = Some kx.1) db.
Lemma filed_set db f x : filed db → dict_get x "file" = Some f → filed (dict_set db f x).
Proof.
  intros Hdb Hx. induction Hdb as [|[k y] db Hy Hdb IH]; simpl; [by repeat constructor|].
  case_decide; subst; by constructor.
Qed.
Lemma by_file_filed root db db' : by_file root db = Ok db' → filed db → filed db'.
Proof.
  revert db. induction root as [|x root IH]; intros db; simpl; [by intros [= ->]|].
  destruct (dict_get x "file") eqn:E; [|done]. intros Hrun Hdb. by eapply IH, filed_set.
Qed.
Lemma add_tasks_filed tasks db db' : add_all tasks db = Ok db' → filed db → filed db'.
Proof.
  revert db. induction tasks as [|t tasks IH]; intros db; simpl; [by intros [= ->]|].
  destruct (last_cmd t); [|by apply IH]. intros ([f e] & E & Hrun)%bind_ok Hdb.
  eapply IH; [done|]. apply filed_set; [done|]. by apply entry_of_file in E as [? _].
Qed.
Lemma filed_files db : filed db → file_of <$> db.*2 = Some <$> db.*1.
Proof. induction 1 as [|[k x] db Hx _ IH]; [done|].
  change (file_of x :: (file_of <$> db.*2) = Some k :: (Some <$> db.*1)). rewrite IH. by f_equal.
Qed.
Lemma filed_entry db f : filed db → NoDup db.*1 → old_entry f db.*2 = dict_get db f.
Proof.
  unfold old_entry. induction 1 as [|[k x] db Hx Hdb IH]; [done|]. simpl. intros [Hk Hnd]%NoDup_cons. simpl in Hx.
  rewrite filter_cons. destruct (decide (k = f)) as [->|Hf].
  - rewrite decide_True by done. rewrite filter_none; [done|]. apply Forall_forall. intros y Hy Hyf.
    destruct Hk. apply (list_elem_of_fmap_2 file_of) in Hy. rewrite filed_files, Hyf in Hy by done.
    apply list_elem_of_fmap in Hy as (k & [= <-] & ?). done.
  - rewrite decide_False by congruence. by apply IH.
Qed.

(** C37: what is written has one entry for each file: that of the last task that
    was compiled for it, and where there is none the last one that the file
    held before.  The command of a task, split as a shell does, is what the
    task ran. *)
Theorem database_entries load tasks new :
  write_compilation_database getcwd variant_dir load tasks = Ok new →
  NoDup (file_of <$> new) ∧
  (∀ f, old_entry f new =
     match last_entry f (default [] tasks) with
     | Some e => Some e
     | None => old_entry f (match load with Ok root => root | Err _ => [] end)
     end) ∧
  ∀ t cmd f e, last_cmd t = Some cmd → entry_of getcwd variant_dir t cmd = Ok (f, e) →
    ∃ line, dict_get e "command" = Some line ∧ shlex_split line = Ok cmd.
Proof.
  unfold write_compilation_database. intros (root & Hroot & (db & Hdb & (db' & Hdb' & [= <-])%bind_ok)%bind_ok)%bind_ok.
  assert (root = match load with Ok root => root | Err _ => [] end) as <-.
  { destruct load as [r|[]]; simpl in Hroot; try done; by injection Hroot as <-. }
  assert (filed db') as Hf by (eapply add_tasks_filed, by_file_filed; [done..|constructor]).
  assert (NoDup db'.*1) as Hnd by (eapply add_tasks_keys, by_file_keys; [done..|constructor]).
  split_and!.
  - rewrite filed_files by done. apply NoDup_fmap_2; [apply _|done].
  - intros f. rewrite filed_entry by done. rewrite (add_tasks_get _ _ _ f Hdb'), (by_file_get _ _ _ f Hdb). simpl.
    destruct (last_entry _ _); [done|]. by destruct (old_entry f root).
  - intros t cmd f e _ [_ Hc]%entry_of_file. exists (join " " (quote <$> cmd)). by rewrite join_quote_split.
Qed.
End entries.

(** The writer is added once, before the first tasks, and the tasks come in
    the order of the generators. *)
Theorem collect_all gens bld :
  clang_compilation_database_tasks bld = None → gens ≠ [] →
  foldl (λ b g, collect_compilation_db_tasks g b) bld gens =
    Build (Some (mjoin ((λ g, filter (λ t, is_compiled t = true) (default [] g)) <$> gens))) (S (post_funs bld)).
Proof.
  intros Hb Hg.
  set (new := λ g : option (list task), filter (λ t, is_compiled t = true) (default [] g)).
  set (f := λ b g, collect_compilation_db_tasks g b).
  assert (∀ g ts n, f (Build (Some ts) n) g = Build (Some (ts ++ new g)) n) as Hf by done.
  assert (∀ l ts n, foldl f (Build (Some ts) n) l = Build (Some (ts ++ mjoin (new <$> l))) n) as Hall.
  { induction l as [|g l IH]; intros ts n; [cbn; by rewrite app_nil_r|].
    cbn [foldl]. rewrite Hf, IH, <-app_assoc. done. }
  destruct gens as [|g gens]; [done|]. cbn [foldl].
  replace (f bld g) with (Build (Some (new g)) (S (post_funs bld))); [apply Hall|].
  unfold f, collect_compilation_db_tasks. by rewrite Hb.
Qed.

(** ** Examples *)

Definition demo_task (file : string) (cmd : list string) : task := Task (Some cmd) None [file] true.
Definition demo_old : list entry :=
  [[("directory", "/b"); ("command", "cc x.c"); ("file", "x.c")]; [("directory", "/b"); ("command", "cc y.c"); ("file", "../y.cc")]].
Definition demo_tasks : list task :=
  [demo_task "/y.cc" ["g++"; "-DV=1"; "a b"; ""]; Task None None ["/z.cc"] true; demo_task "/w.cc" ["g++"; "it's"]].
Example demo_database :
  write_compilation_database "/b" "/b" (Ok demo_old) (Some demo_tasks) =
  Ok [[("directory", "/b"); ("command", "cc x.c"); ("file", "x.c")];
      [("directory", "/b"); ("command", "g++ -DV=1 'a b' ''"); ("file", "../y.cc")];
      [("directory", "/b"); ("command", "g++ 'it'" +:+ String dquote "'" +:+ String dquote "'s'"); ("file", "../w.cc")]].
Proof. vm_compute. reflexivity. Qed.
(** A file that is no JSON is not taken for a missing one: nothing is written,
    and it stays. *)
Example broken_file :
  write_compilation_database "/b" "/b" (Err (ValueError "Expecting value")) (Some demo_tasks) = Err (ValueError "Expecting value").
Proof. reflexivity. Qed.
Lemma database_entries_witness : ∃ new,
  write_compilation_database "/b" "/b" (Ok demo_old) (Some demo_tasks) = Ok new ∧
  old_entry "../y.cc" new = Some [("directory", "/b"); ("command", "g++ -DV=1 'a b' ''"); ("file", "../y.cc")] ∧
  old_entry "x.c" new = old_entry "x.c" demo_old.
Proof.
  eexists. split; [exact demo_database|].
  destruct (database_entries "/b" "/b" (Ok demo_old) (Some demo_tasks) _ demo_database) as (_ & Hnew & _).
  split; rewrite Hnew; vm_compute; reflexivity.
Defined.
