(* ===== verification/WafMisc.v ===== *)
(** * waf-tools/misc.py
    The variables of a template file, files that are copied, and commands as
    build tasks: what is looked up, what a task gets and what it runs.  Nodes,
    the look-up of files and the variables of the environment are those of waf
    and are arguments; an error of waf is a [PyException]. *)
From Stdlib Require Import Ascii.
From S2P Require Import Prelude PyStr PyRe PyFormat.
#[local] Open Scope Z_scope.

(** ** Templates *)

(** [@(\w+)@] *)
Definition at_sign : ascii := "@"%char.
Definition is_word (a : ascii) : bool :=
  let n := nat_of_ascii a in
  ((48 <=? n) && (n <=? 57) || (65 <=? n) && (n <=? 90) || (97 <=? n) && (n <=? 122) || (n =? 95))%nat.
Definition m4_at (l : list ascii) : option (list ascii * list ascii) :=
  match l with
  | [] => None
  | a :: l =>
      if decide (a = at_sign) then
        match span is_word l with
        | (n :: name, b :: r) => if decide (b = at_sign) then Some (n :: name, r) else None
        | _ => None
        end
      else None
  end.
(** The text as characters and names, as the pattern cuts it from the left. *)
Inductive piece : Type :=
| PChar (a : ascii)
| PName (name : list ascii).
Fixpoint m4_scan (fuel : nat) (l : list ascii) : list piece :=
  match fuel, l with
  | _, [] => []
  | O, _ => []
  | S fuel, a :: k =>
      match m4_at l with
      | Some (name, r) => PName name :: m4_scan fuel r
      | None => PChar a :: m4_scan fuel k
      end
  end.
Definition m4_pieces (l : list ascii) : list piece := m4_scan (length l) l.
(** [m4_re.sub(r'%(\1)s', code)] *)
Definition sub_piece (p : piece) : list ascii :=
  match p with PChar a => [a] | PName n => chars "%(" ++ n ++ chars ")s" end.
Definition m4_sub (code : list ascii) : list ascii := mjoin (sub_piece <$> m4_pieces code).
(** [m4_re.findall(code)] *)
Definition name_of (p : piece) : option string := match p with PChar _ => None | PName n => Some (of_chars n) end.
Definition m4_findall (code : list ascii) : list string := omap name_of (m4_pieces code).
(** [code.replace('%', '%%')] *)
Definition double_percent (l : list ascii) : list ascii :=
  mjoin ((λ a, if decide (a = "%"%char) then ["%"%char; "%"%char] else [a]) <$> l).
(** [template % d] for a dict of strings, as far as [%%] and [%(name)s]. *)
Definition not_paren (a : ascii) : bool := negb (bool_decide (a = ")"%char)).
Fixpoint percent_dict (fuel : nat) (d : list (string * string)) (l : list ascii) : res (list ascii) :=
  match fuel, l with
  | _, [] => Ok []
  | O, _ => Err Diverges
  | S fuel, a :: l =>
      if decide (a = "%"%char) then
        match l with
        | [] => Err (ValueError "incomplete format")
        | b :: l =>
            if decide (b = "%"%char) then r ← percent_dict fuel d l; Ok ("%"%char :: r)
            else if decide (b = "("%char) then
              match span not_paren l with
              | (name, _ :: c :: l) =>
                  if decide (c = "s"%char) then
                    match dict_get d (of_chars name) with
                    | None => Err KeyError
                    | Some v => r ← percent_dict fuel d l; Ok (chars v ++ r)
                    end
                  else Err (ValueError "unsupported format character")
              | _ => Err (ValueError "incomplete format key")
              end
            else Err TypeError
        end
      else r ← percent_dict fuel d l; Ok (a :: r)
  end.

(** [subst_func]: the dict of the task, or that of its generator, or a new one;
    an empty one is filled from the environment, and it may be that of the
    generator.  The result is the dict of the generator and the text. *)
Definition py_or (a b : string) : string := if decide (a = "") then b else a.
Definition fill (get_flat : string → string) (names : list string) (d : list (string * string)) : list (string * string) :=
  foldl (λ d i, dict_set d i (py_or (get_flat i) (get_flat (upper i)))) d names.
Definition subst_func (get_flat : string → string) (tsk_dict gen_dict : option (list (string * string))) (input : string)
    : option (list (string * string)) * res string :=
  let code := double_percent (chars input) in
  let s := m4_sub code in
  let show d := of_chars <$> percent_dict (length s) d s in
  match default [] tsk_dict with
  | (_ :: _) as di => (gen_dict, show di)
  | [] =>
      match default [] gen_dict with
      | (_ :: _) as di => (gen_dict, show di)
      | [] =>
          let di := fill get_flat (m4_findall code) [] in
          (match gen_dict with Some _ => Some di | None => None end, show di)
      end
  end.

(** ** Copies *)

(** [copy_func]: whether the copy fails; then the mode, if it is not 0. *)
Definition copy_func (fails : bool) (chmod : Z) : Z * option Z :=
  if fails then (1, None) else (0, if decide (chmod = 0) then None else Some chmod).
Record node := Node { name : string; abspath : string; srcpath : string; bldpath : string }.
Section lookups.
(** [self.path.find_resource], [find_or_declare] and [find_dir] of waf. *)
Context (find_resource find_or_declare find_dir : string → option node).
Definition waf_error {A} (msg : string) : res A := Err (PyException ("WafError: " +:+ msg)).
(** The tasks of [apply_copy]: the node and the name of the copy. *)
Fixpoint copy_loop (target : string) (many : bool) (lst : list string) : res (list (node * option node)) :=
  match lst with
  | [] => Ok []
  | filename :: lst =>
      match find_resource filename with
      | None => waf_error ("cannot find input file " +:+ filename +:+ " for processing")
      | Some n =>
          let t := if bool_decide (target = "") || many then name n else target in
          rest ← copy_loop target many lst;
          Ok ((n, find_or_declare t) :: rest)
      end
  end.
Definition apply_copy (target : string) (lst : list string) : res (list (node * option node)) :=
  copy_loop target (bool_decide (1 < length lst)%nat) lst.

(** ** Commands *)

Inductive arg_kind : Type := InputFile | OutputFile | InputDir | OutputDir.
#[export] Instance arg_kind_eq_dec : EqDecision arg_kind.
Proof. solve_decision. Defined.
Record cmd_arg := CmdArg { arg_of : arg_kind; arg_file : string; template : string; arg_node : option node }.
Inductive argument : Type :=
| Str (s : string)
| Arg (a : cmd_arg).
(** [find_node] of the classes of arguments; the message for a file that is
    missing has one place and is given two values. *)
Definition find_node (a : cmd_arg) : res cmd_arg :=
  let found := match arg_of a with
               | InputFile => find_resource (arg_file a)
               | OutputFile => find_or_declare (arg_file a)
               | InputDir | OutputDir => find_dir (arg_file a)
               end in
  match found with
  | None => Err TypeError
  | Some n => Ok (CmdArg (arg_of a) (arg_file a) (template a) (Some n))
  end.
Definition get_path (a : cmd_arg) (absolute : bool) : res string :=
  match arg_node a with
  | None => Err AttributeError
  | Some n =>
      percent (template a)
        (match arg_of a with
         | InputFile => if absolute then abspath n else srcpath n
         | OutputFile => if absolute then abspath n else bldpath n
         | InputDir | OutputDir => abspath n
         end)
  end.

(** The attributes of a generator; [g_cwd] is the directory that it asks for. *)
Record cmd_gen := CmdGen {
  command : option string;
  command_is_external : bool;
  argv : list argument;
  g_stdin : option string;
  g_stdout : option string;
  g_stderr : option string;
  hidden_inputs : list string;
  hidden_outputs : list string;
  g_cwd : option string;
  no_inputs : bool;
  no_outputs : bool;
}.
Inductive program : Type := External (s : string) | InTree (n : node).
Record command_output := CommandOutput {
  t_command : program;
  command_args : list argument;
  t_stdin : option node;
  t_stdout : option node;
  t_stderr : option node;
  t_cwd : option string;
  t_inputs : list node;
  t_outputs : list node;
  always_run : bool;
}.
(** The loop over the arguments: they get their nodes, those of files are
    inputs or outputs. *)
Fixpoint find_arguments (l : list argument) : res (list argument * list node * list node) :=
  match l with
  | [] => Ok ([], [], [])
  | Str s :: l => r ← find_arguments l; let '(args, i, o) := r in Ok (Str s :: args, i, o)
  | Arg a :: l =>
      a ← find_node a;
      r ← find_arguments l;
      let '(args, i, o) := r in
      Ok (Arg a :: args,
          (if decide (arg_of a = InputFile) then option_list (arg_node a) else []) ++ i,
          (if decide (arg_of a = OutputFile) then option_list (arg_node a) else []) ++ o)
  end.
Definition find_opt (find : string → option node) (file : option string) : res (option node) :=
  match file with
  | None => Ok None
  | Some f => match find f with Some n => Ok (Some n) | None => waf_error ("File " +:+ f +:+ " not found") end
  end.
Fixpoint find_all (find : string → option node) (files : list string) : res (list node) :=
  match files with
  | [] => Ok []
  | f :: files =>
      match find f with
      | None => waf_error ("File " +:+ f +:+ " not found in dir")
      | Some n => rest ← find_all find files; Ok (n :: rest)
      end
  end.
Definition apply_cmd_output (variant_dir : string) (g : cmd_gen) : res command_output :=
  match command g with
  | None => waf_error "command-output missing command"
  | Some c =>
      cmd ← (if command_is_external g then Ok (External c)
             else match find_resource c with Some n => Ok (InTree n) | None => Err AssertionError end);
      r ← find_arguments (argv g);
      let '(args, inputs, outputs) := r in
      stdout ← find_opt find_or_declare (g_stdout g);
      stderr ← find_opt find_or_declare (g_stderr g);
      stdin ← find_opt find_resource (g_stdin g);
      hidden_i ← find_all find_resource (hidden_inputs g);
      hidden_o ← find_all find_or_declare (hidden_outputs g);
      let inputs := inputs ++ option_list stdin ++ hidden_i in
      let outputs := outputs ++ option_list stdout ++ option_list stderr ++ hidden_o in
      if bool_decide (inputs = []) && negb (no_inputs g) then waf_error "command-output objects must have at least one input file"
      else if bool_decide (outputs = []) && negb (no_outputs g) then waf_error "command-output objects must have at least one output file"
      else Ok (CommandOutput cmd args stdin stdout stderr (Some variant_dir) inputs outputs (bool_decide (inputs = [])))
  end.
End lookups.

(** What [command_output.run] starts; opening its files is left to the system. *)
Record popen := Popen {
  p_argv : list string;
  p_stdin : option string;
  p_stdout : option string;
  p_stderr : option string;
  p_cwd : option string;
}.
Definition node_path (cwd : option string) (n : node) : string :=
  match cwd with None => bldpath n | Some _ => abspath n end.
Fixpoint arg_paths (absolute : bool) (l : list argument) : res (list string) :=
  match l with
  | [] => Ok []
  | Str s :: l => rest ← arg_paths absolute l; Ok (s :: rest)
  | Arg a :: l => p ← get_path a absolute; rest ← arg_paths absolute l; Ok (p :: rest)
  end.
Definition run (t : command_output) : res popen :=
  args ← arg_paths (bool_decide (t_cwd t ≠ None)) (command_args t);
  Ok (Popen ((match t_command t with External s => s | InTree n => node_path (t_cwd t) n end) :: args)
    (node_path (t_cwd t) <$> t_stdin t) (node_path (t_cwd t) <$> t_stdout t) (node_path (t_cwd t) <$> t_stderr t) (t_cwd t)).

(** ** Templates: what is written *)

(** The text with every name replaced; a name without a value is a KeyError. *)
Fixpoint expand (value : string → option string) (ps : list piece) : res (list ascii) :=
  match ps with
  | [] => Ok []
  | PChar a :: ps => r ← expand value ps; Ok (a :: r)
  | PName n :: ps =>
      match value (of_chars n) with
      | None => Err KeyError
      | Some v => r ← expand value ps; Ok (chars v ++ r)
      end
  end.
Definition text_of (p : piece) : list ascii := match p with PChar a => [a] | PName n => at_sign :: n ++ [at_sign] end.
Definition named (p : piece) : Prop := match p with PChar _ => True | PName n => n ≠ [] ∧ Forall (λ a, is_word a = true) n end.

Lemma m4_at_spec l n r : m4_at l = Some (n, r) → l = text_of (PName n) ++ r ∧ named (PName n).
Proof.
  destruct l as [|a l]; [done|]. simpl. case_decide; [|done].
  destruct (span is_word l) as [[|x name] [|b k]] eqn:E; try done. case_decide; [|done]. intros [= <- <-].
  apply span_spec in E as (-> & Hw & _). subst. split; [|done]. by rewrite <-app_assoc.
Qed.
Lemma m4_at_double l : m4_at (double_percent l) = (λ nr, (nr.1, double_percent nr.2)) <$> m4_at l.
Proof.
  assert (∀ m, span is_word (double_percent m) = let '(x, y) := span is_word m in (x, double_percent y)) as Hspan.
  { clear l. intros m. induction m as [|a l' IH]; [done|]. change (double_percent (a :: l')) with
      ((if decide (a = "%"%char) then ["%"%char; "%"%char] else [a]) ++ double_percent l').
    cbn [span]. destruct (is_word a) eqn:Ha.
    - rewrite decide_False by (by intros ->). cbn. rewrite Ha, IH. by destruct (span is_word l').
    - case_decide; subst; cbn; rewrite ?Ha; [done|]. unfold double_percent. cbn. by rewrite decide_False. }
  destruct l as [|a l]; [done|]. change (double_percent (a :: l)) with
    ((if decide (a = "%"%char) then ["%"%char; "%"%char] else [a]) ++ double_percent l).
  destruct (decide (a = "%"%char)) as [->|Ha]; [done|]. cbn [app m4_at]. case_decide; [|done].
  rewrite Hspan. destruct (span is_word l) as [[|x name] k]; [done|]. destruct k as [|b k]; [done|].
  change (double_percent (b :: k)) with ((if decide (b = "%"%char) then ["%"%char; "%"%char] else [b]) ++ double_percent k).
  destruct (decide (b = "%"%char)) as [->|Hb]; [done|]. cbn. by case_decide.
Qed.
Lemma m4_at_shorter l n r : m4_at l = Some (n, r) → (length r < length l)%nat.
Proof. intros [-> _]%m4_at_spec. rewrite length_app. simpl. lia. Qed.
Lemma m4_scan_enough f g l : (length l ≤ f)%nat → (length l ≤ g)%nat → m4_scan f l = m4_scan g l.
Proof.
  revert g l. induction f as [|f IH]; intros [|g] [|a k] Hf Hg; simpl in Hf, Hg; try done; try lia.
  cbn [m4_scan]. destruct (m4_at (a :: k)) as [[n r]|] eqn:E.
  - apply m4_at_shorter in E. simpl in E. f_equal. apply IH; lia.
  - f_equal. apply IH; lia.
Qed.
Lemma m4_pieces_cons a k : m4_pieces (a :: k) =
  match m4_at (a :: k) with Some (n, r) => PName n :: m4_pieces r | None => PChar a :: m4_pieces k end.
Proof.
  unfold m4_pieces at 1. cbn [length m4_scan]. destruct (m4_at (a :: k)) as [[n r]|] eqn:E; [|done].
  apply m4_at_shorter in E. simpl in E. f_equal. apply m4_scan_enough; lia.
Qed.
Lemma m4_ind (P : list ascii → Prop) :
  P [] → (∀ a k, (∀ l, (length l ≤ length k)%nat → P l) → P (a :: k)) → ∀ l, P l.
Proof.
  intros H0 HS l. remember (length l) as n eqn:Hn. assert (length l ≤ n)%nat as Hle by lia. clear Hn. revert l Hle.
  induction n as [|n IH]; intros [|a k] Hle; simpl in Hle; try done; try lia; apply HS; intros l Hl; apply IH; lia.
Qed.
Lemma m4_pieces_named l : Forall named (m4_pieces l).
Proof.
  induction l as [|a k IH] using m4_ind; [constructor|]. rewrite m4_pieces_cons.
  destruct (m4_at (a :: k)) as [[n r]|] eqn:E; [|constructor; [done|by apply IH]].
  pose proof (m4_at_shorter _ _ _ E). apply m4_at_spec in E as [_ Hn]. constructor; [done|]. apply IH. simpl in *. lia.
Qed.
(** The pieces are the text. *)
Lemma m4_pieces_text l : mjoin (text_of <$> m4_pieces l) = l.
Proof.
  induction l as [|a k IH] using m4_ind; [done|]. rewrite m4_pieces_cons.
  destruct (m4_at (a :: k)) as [[n r]|] eqn:E.
  - pose proof (m4_at_shorter _ _ _ E). apply m4_at_spec in E as [-> _]. rewrite fmap_cons. cbn [mjoin list_join].
    change (mjoin (text_of (PName n) :: (text_of <$> m4_pieces r))) with (text_of (PName n) ++ mjoin (text_of <$> m4_pieces r)).
    rewrite IH; [done|]. simpl in *. lia.
  - change (mjoin (text_of <$> (PChar a :: m4_pieces k))) with (a :: mjoin (text_of <$> m4_pieces k)). by rewrite IH.
Qed.
Definition doubled (p : piece) : list piece :=
  match p with PChar a => if decide (a = "%"%char) then [p; p] else [p] | PName _ => [p] end.
Lemma m4_pieces_double l : m4_pieces (double_percent l) = mjoin (doubled <$> m4_pieces l).
Proof.
  induction l as [|a k IH] using m4_ind; [done|]. pose proof (m4_at_double (a :: k)) as Hat.
  rewrite (m4_pieces_cons a k).
  change (double_percent (a :: k)) with ((if decide (a = "%"%char) then ["%"%char; "%"%char] else [a]) ++ double_percent k) in *.
  destruct (m4_at (a :: k)) as [[n r]|] eqn:E; simpl in Hat.
  - pose proof (m4_at_shorter _ _ _ E) as Hr. destruct (decide (a = "%"%char)) as [->|Ha]; [done|].
    cbn [app] in Hat |- *. rewrite m4_pieces_cons, Hat. cbn. rewrite IH; [done|]. simpl in Hr. lia.
  - change (mjoin (doubled <$> (PChar a :: m4_pieces k))) with (doubled (PChar a) ++ mjoin (doubled <$> m4_pieces k)).
    rewrite <-IH by done. cbn [doubled]. destruct (decide (a = "%"%char)) as [->|Ha]; cbn [app] in Hat |- *.
    + rewrite m4_pieces_cons. cbn [m4_at]. rewrite decide_False by done. by f_equal.
    + by rewrite m4_pieces_cons, Hat.
Qed.

(** The format of the pieces, with percent signs doubled, is their expansion. *)
Lemma percent_dict_pieces d ps fuel :
  Forall named ps → (length (mjoin (sub_piece <$> mjoin (doubled <$> ps))) ≤ fuel)%nat →
  percent_dict fuel d (mjoin (sub_piece <$> mjoin (doubled <$> ps))) = expand (dict_get d) ps.
Proof.
  intros Hps. revert fuel. induction Hps as [|p ps Hp _ IH]; intros fuel; [by destruct fuel|].
  change (mjoin (doubled <$> p :: ps)) with (doubled p ++ mjoin (doubled <$> ps)).
  rewrite fmap_app, join_app. set (rest := mjoin (sub_piece <$> mjoin (doubled <$> ps))) in *. rewrite length_app.
  destruct p as [a|n].
  - cbn [doubled expand]. destruct (decide (a = "%"%char)) as [->|Ha]; cbn; intros Hf; (destruct fuel as [|fuel]; [lia|]);
      cbn [percent_dict].
    + rewrite !decide_True by done. by rewrite IH by lia.
    + rewrite decide_False by done. by rewrite IH by lia.
  - cbn [doubled]. change (mjoin (sub_piece <$> [PName n]) ++ rest) with ((("%"%char :: "("%char :: n ++ chars ")s") ++ []) ++ rest).
    change (length (mjoin (sub_piece <$> [PName n]))) with (length (("%"%char :: "("%char :: n ++ chars ")s") ++ [])).
    rewrite app_nil_r, <-!app_comm_cons. simpl length. rewrite length_app. simpl. intros Hf.
    destruct fuel as [|fuel]; [lia|]. cbn [percent_dict]. rewrite decide_True, decide_False, decide_True by done.
    destruct Hp as [_ Hn]. rewrite <-app_assoc, span_app.
    + cbn [chars String.list_ascii_of_string app]. rewrite decide_True by done.
      destruct (dict_get d (of_chars n)); [|done]. by rewrite IH by lia.
    + eapply Forall_impl; [done|]. intros a Ha. apply negb_true_iff, bool_decide_eq_false. by intros ->.
    + by intros a y' [= <- _].
Qed.

Section templates.
Context (get_flat : string → string).
(** The value that the environment gives to a name. *)
Definition value (i : string) : string := py_or (get_flat i) (get_flat (upper i)).
Lemma fill_get names d i : dict_get (fill get_flat names d) i = if decide (i ∈ names) then Some (value i) else dict_get d i.
Proof.
  unfold fill. revert d. induction names as [|n names IH]; intros d; simpl; [done|].
  rewrite IH, dict_get_set. unfold value. repeat case_decide; subst; set_solver.
Qed.
Lemma expand_values f g ps : (∀ n, n ∈ omap name_of ps → f n = g n) → expand f ps = expand g ps.
Proof.
  induction ps as [|[a|n] ps IH]; intros Hfg; [done|cbn..].
  - by rewrite IH.
  - rewrite Hfg by (by left). rewrite IH; [done|]. intros m Hm. apply Hfg. by right.
Qed.
Lemma expand_total (f : string → string) ps : ∃ out, expand (λ n, Some (f n)) ps = Ok out.
Proof. induction ps as [|[a|n] ps [out IH]]; [by exists []|cbn; rewrite IH; eauto..]. Qed.
Lemma names_doubled ps : omap name_of (mjoin (doubled <$> ps)) = omap name_of ps.
Proof.
  induction ps as [|p ps IH]; [done|]. change (mjoin (doubled <$> p :: ps)) with (doubled p ++ mjoin (doubled <$> ps)).
  rewrite omap_app, IH. destruct p as [a|n]; [|done]. cbn. by case_decide.
Qed.
Lemma show_template d input :
  of_chars <$> percent_dict (length (m4_sub (double_percent (chars input)))) d (m4_sub (double_percent (chars input))) =
  of_chars <$> expand (dict_get d) (m4_pieces (chars input)).
Proof.
  unfold m4_sub. rewrite m4_pieces_double, percent_dict_pieces; [done|apply m4_pieces_named|done].
Qed.

End templates.

(** Two tasks of a generator whose dict is empty: the first fills it, and the
    second finds the names of the first only. *)
Example shared_dict :
  let get_flat i := if decide (i = "VERSION") then "3" else "" in
  let '(d, r) := subst_func get_flat None (Some []) "v@VERSION@ 5% @version@" in
  (r, (subst_func get_flat None d "@OTHER@").2, (subst_func get_flat None (Some []) "@OTHER@").2) =
  (Ok "v3 5% 3", Err KeyError, Ok "").
Proof. vm_compute. reflexivity. Qed.

(** ** Commands: what is run *)

Section commands.
Context (find_resource find_or_declare find_dir : string → option node).
Local Abbreviation apply_output := (apply_cmd_output find_resource find_or_declare find_dir).

(** The directory that the generator asks for is not used: every task runs in
    that of the variant, and so it names its files by absolute paths. *)
Theorem command_runs_in_variant variant_dir g t :
  apply_output variant_dir g = Ok t →
  t_cwd t = Some variant_dir ∧
  ∀ p, run t = Ok p → p_cwd p = Some variant_dir ∧ p_stdin p = abspath <$> t_stdin t ∧ p_stdout p = abspath <$> t_stdout t ∧
    p_stderr p = abspath <$> t_stderr t ∧
    ∃ args, arg_paths true (command_args t) = Ok args ∧
      p_argv p = (match t_command t with External s => s | InTree n => abspath n end) :: args.
Proof.
  intros Happ. assert (t_cwd t = Some variant_dir) as Hcwd.
  { unfold apply_cmd_output in Happ. destruct (command g); [|done].
    apply bind_ok in Happ as (cmd & _ & ([[args i] o] & _ & Happ)%bind_ok).
    apply bind_ok in Happ as (out & _ & (err & _ & (inp & _ & (hi & _ & (ho & _ & Happ)%bind_ok)%bind_ok)%bind_ok)%bind_ok).
    case_match; [done|]. case_match; [done|]. by injection Happ as <-. }
  split; [done|]. intros p (args & Hargs & [= <-])%bind_ok. rewrite Hcwd in *. cbn.
  split_and!; [done..|]. exists args. by destruct (t_command t).
Qed.

(** The inputs and outputs of a task are what its arguments, its streams and
    the hidden files say, in that order; a file that is missing is an error
    before the task exists. *)
Theorem command_files variant_dir g t :
  apply_output variant_dir g = Ok t → ∃ args i o hi ho,
  find_arguments find_resource find_or_declare find_dir (argv g) = Ok (args, i, o) ∧ command_args t = args ∧
  t_inputs t = i ++ option_list (t_stdin t) ++ hi ∧ t_outputs t = o ++ option_list (t_stdout t) ++ option_list (t_stderr t) ++ ho ∧
  length hi = length (hidden_inputs g) ∧ length ho = length (hidden_outputs g) ∧
  (t_inputs t = [] → no_inputs g = true ∧ always_run t = true) ∧ (t_outputs t = [] → no_outputs g = true).
Proof.
  assert (∀ f l k, find_all f l = Ok k → length k = length l) as Hall.
  { intros f l. induction l as [|x l IH]; intros k; simpl; [by intros [= <-]|]. destruct (f x); [|done].
    intros (r & Hr & [= <-])%bind_ok. simpl. f_equal. by apply IH. }
  unfold apply_cmd_output. destruct (command g); [|done].
  intros (cmd & _ & ([[args i] o] & Hargs & Happ)%bind_ok)%bind_ok.
  apply bind_ok in Happ as (out & _ & (err & _ & (inp & _ & (hi & Hhi & (ho & Hho & Happ)%bind_ok)%bind_ok)%bind_ok)%bind_ok).
  exists args, i, o, hi, ho. destruct (bool_decide _ && _) eqn:E1; [done|]. destruct (bool_decide (_ ++ _ = []) && negb (no_outputs g)) eqn:E2; [done|].
  injection Happ as <-. cbn. split_and!; try done; [by eapply Hall|by eapply Hall|..].
  - intros Hi. rewrite bool_decide_true in E1 |- * by done. by destruct (no_inputs g).
  - intros Ho. rewrite bool_decide_true in E2 by done. by destruct (no_outputs g).
Qed.
End commands.

Definition demo_node (s : string) : node := Node s ("/src/" +:+ s) ("../" +:+ s) s.
Definition demo_gen : cmd_gen := CmdGen (Some "gen.py") false
  [Str "-v"; Arg (CmdArg InputFile "a.in" "--in=%s" None); Arg (CmdArg OutputFile "a.out" "%s" None)]
  None (Some "log") None ["dep.h"] [] (Some "elsewhere") false false.
Example demo_run :
  (t ← apply_cmd_output (λ f, Some (demo_node f)) (λ f, Some (demo_node f)) (λ _, None) "/src/build" demo_gen; run t) =
  Ok (Popen ["/src/gen.py"; "-v"; "--in=/src/a.in"; "/src/a.out"] None (Some "/src/log") None (Some "/src/build")).
Proof. vm_compute. reflexivity. Qed.
Example missing_input :
  apply_cmd_output (λ f, if decide (f = "gen.py") then Some (demo_node f) else None) (λ f, Some (demo_node f)) (λ _, None) "/b" demo_gen =
  Err TypeError.
Proof. reflexivity. Qed.
Lemma command_runs_in_variant_witness : ∃ t p,
  apply_cmd_output (λ f, Some (demo_node f)) (λ f, Some (demo_node f)) (λ _, None) "/src/build" demo_gen = Ok t ∧
  run t = Ok p ∧ p_cwd p = Some "/src/build".
Proof.
  eexists _, _. split; [vm_compute; reflexivity|]. split; [vm_compute; reflexivity|].
  eapply (command_runs_in_variant (λ f, Some (demo_node f)) (λ f, Some (demo_node f)) (λ _, None) "/src/build" demo_gen);
    vm_compute; reflexivity.
Defined.
