(* ===== verification/Boost.v ===== *)
(** * waf-tools/boost.py
    The search for Boost: headers, the directory of the libraries, the toolset,
    and the library files by patterns from the strictest to the loosest; then
    what [check_boost] puts into the environment.  Directories, files and the
    compiler are those of waf and are arguments.  The branch that tries flags
    for the Microsoft compiler is left out. *)
From Stdlib Require Import Ascii.
From S2P Require Import Prelude PyStr PyRe.
#[local] Open Scope Z_scope.

Definition fatal {A} : res A := Err (PyException "ConfigurationError: The configuration failed").
Definition BOOST_LIBS : list string :=
  ["/usr/lib/x86_64-linux-gnu"; "/usr/lib/i386-linux-gnu"; "/usr/lib"; "/usr/local/lib"; "/opt/local/lib"; "/sw/lib"; "/lib"].
Definition BOOST_INCLUDES : list string := ["/usr/include"; "/usr/local/include"; "/opt/local/include"; "/sw/include"].

(** ** Toolsets *)

Inductive toolset_rule : Type := Toolset (s : string) | DetectIntel | DetectClang | DetectMingw.
Definition BOOST_TOOLSETS : list (string * toolset_rule) :=
  [("borland", Toolset "bcb"); ("clang", DetectClang); ("como", Toolset "como"); ("cw", Toolset "cw");
   ("darwin", Toolset "xgcc"); ("edg", Toolset "edg"); ("g++", DetectMingw); ("gcc", DetectMingw);
   ("icpc", DetectIntel); ("intel", DetectIntel); ("kcc", Toolset "kcc"); ("kylix", Toolset "bck");
   ("mipspro", Toolset "mp"); ("mingw", Toolset "mgw"); ("msvc", Toolset "vc"); ("qcc", Toolset "qcc");
   ("sun", Toolset "sw"); ("sunc++", Toolset "sw"); ("tru64cxx", Toolset "tru"); ("vacpp", Toolset "xlc")].
(** The platform, and of the environment the name and the command of the
    compiler. *)
Record platform := Platform { sys_platform : string; CXX_NAME : string; CXX : string; CC_NAME : string;
  cxxshlib_PATTERN : string; cxxstlib_PATTERN : string }.
Definition detect (p : platform) (r : toolset_rule) : string :=
  match r with
  | Toolset s => s
  | DetectIntel => if decide (sys_platform p = "win32") then "iw" else "il"
  | DetectClang => if decide (sys_platform p = "darwin") then "clang-darwin" else "clang"
  | DetectMingw => if contains (CXX p) "MinGW" then "mgw" else "gcc"
  end.
(** [boost_get_toolset]; a name that is not in the table and empty is called
    like a function. *)
Definition boost_get_toolset (p : platform) (cc : string) : res string :=
  let key := if decide (cc = "") then
               match dict_get BOOST_TOOLSETS (sys_platform p) with Some _ => sys_platform p | None => CXX_NAME p end
             else cc in
  match dict_get BOOST_TOOLSETS key with
  | Some r => Ok (detect p r)
  | None => if decide (cc = "") then Err TypeError else Ok cc
  end.

(** ** Directories *)

Section search.
(** Whether a directory has the header of the version; and the names of the
    files of a directory that match [*boost_*], if it exists. *)
Context (version_file : string → bool) (find_dir : string → option (list string)).
Definition __boost_get_version_file (d : string) : bool := bool_decide (d ≠ "") && version_file d.
Definition boost_get_includes (INCLUDE includes : string) : res string :=
  if bool_decide (includes ≠ "") && __boost_get_version_file includes then Ok includes
  else
    match list_find (λ d, __boost_get_version_file d = true) (split ";" INCLUDE ++ BOOST_INCLUDES) with
    | Some (_, d) => Ok d
    | None => fatal
    end.

(** The variables [path] and [files]; the latter may not be set. *)
Record found := Found { path : option string; files : option (list string) }.
Definition try_dir (d : string) (s : found) : found * bool :=
  match find_dir d with
  | None => (Found None (files s), false)
  | Some fs => (Found (Some d) (Some fs), bool_decide (fs ≠ []))
  end.
Fixpoint libs_loop (ds : list string) (s : found) : found :=
  match ds with
  | [] => s
  | d :: ds =>
      if decide (d = "") then libs_loop ds s
      else
        let '(s, stop) := try_dir d s in
        if (stop : bool) then s
        else
          let '(s, stop) := try_dir (d +:+ "64") s in
          if (stop : bool) then s else libs_loop ds s
  end.
Definition __boost_get_libs_path (LIB libs : string) (required : bool) : res (option string * list string) :=
  s ← (if decide (libs = "") then Ok (Found None None)
       else match find_dir libs with
            | None => Err AttributeError
            | Some fs => Ok (Found (Some libs) (Some fs))
            end);
  let s := if bool_decide (libs = "") || bool_decide (files s = Some [])
           then libs_loop (split ";" LIB ++ BOOST_LIBS) s else s in
  if bool_decide (path s = None) && required then fatal
  else match files s with Some fs => Ok (path s, fs) | None => Err UnboundLocalError end.
End search.

(** ** Libraries *)

(** A pattern: text, in which a dot is any character, the toolset with up to
    three digits, and the end of the name. *)
Inductive part : Type :=
| Text (s : string)
| ToolsetDigits (toolset : string)
| EndOfName.
Definition pattern_text (ps : list part) : string :=
  cat ((λ p, match p with Text s => s | ToolsetDigits t => "(-" +:+ t +:+ "[0-9]{0,3})" | EndOfName => "$" end) <$> ps).
Definition special (a : ascii) : bool := bool_decide (a ∈ chars "^$*+?{}[]\|()").
Definition plain_part (p : part) : bool :=
  match p with
  | Text s | ToolsetDigits s => forallb (λ a, negb (special a)) (chars s)
  | EndOfName => true
  end.
(** [re.match] of the text of a part, with what is left of the name. *)
Fixpoint match_text (p l : list ascii) : option (list ascii) :=
  match p, l with
  | [], _ => Some l
  | a :: p, b :: l =>
      if (bool_decide (a = b) || bool_decide (a = "."%char ∧ b ≠ newline)) then match_text p l else None
  | _ :: _, [] => None
  end.
(** Up to [n] digits may be taken. *)
Fixpoint digits_upto (n : nat) (l : list ascii) : list (list ascii) :=
  l :: match n, l with
       | S n, a :: l => if is_digit a then digits_upto n l else []
       | _, _ => []
       end.
Definition match_part (p : part) (l : list ascii) : list (list ascii) :=
  match p with
  | Text s => option_list (match_text (chars s) l)
  | ToolsetDigits t =>
      match match_text (chars ("-" +:+ t)) l with Some k => digits_upto 3 k | None => [] end
  | EndOfName => if bool_decide (l = [] ∨ l = [newline]) then [[]] else []
  end.
Fixpoint match_parts (ps : list part) (l : list ascii) : bool :=
  match ps with
  | [] => true
  | p :: ps => existsb (match_parts ps) (match_part p l)
  end.
Fixpoint search_parts (ps : list part) (l : list ascii) : bool :=
  match_parts ps l || match l with [] => false | _ :: l => search_parts ps l end.

Section libs.
(** [re.search] for a pattern with other operators: those of a library whose
    name has them, and of the library python. *)
Context (search_other : string → string → bool) (python_tags : string → string).
Definition re_search (ps : list part) (name : string) : bool :=
  if forallb plain_part ps then search_parts ps (chars name) else search_other (pattern_text ps) name.
Definition find_lib (ps : list part) (files : list string) : option string :=
  snd <$> list_find (λ f, re_search ps f = true) files.
(** [s.rfind('.')] *)
Fixpoint rfind_dot (l : list ascii) (i last : Z) : Z :=
  match l with
  | [] => last
  | a :: l => rfind_dot l (i + 1) (if decide (a = "."%char) then i else last)
  end.
Definition format_lib_name (CC_NAME name : string) : string :=
  let name := if startswith name "lib" && bool_decide (CC_NAME ≠ "msvc") then of_chars (drop 3 (chars name)) else name in
  of_chars (slice_to (chars name) (rfind_dot (chars name) 0 (-1))).
Record lib_params := LibParams { mt : bool; abi : string; required : bool; BOOST_VERSION : string; toolset : string }.
(** [ext.partition('%s')[2]] *)
Fixpoint after_s (l : list ascii) : list ascii :=
  match l with
  | [] => []
  | a :: k =>
      match k with
      | b :: k' => if decide (a = "%"%char ∧ b = "s"%char) then k' else after_s k
      | [] => []
      end
  end.
Definition tags_pattern (k : lib_params) (is_static : bool) : string :=
  (if mt k then "-mt" else "") +:+
  (if decide (abi k ≠ "") then (if is_static then "-s" else "-") +:+ abi k else if is_static then "-s" else "").
Definition patterns (k : lib_params) (lib tags ext : string) : list (list part) :=
  let version := "-" +:+ BOOST_VERSION k in
  [[Text ("boost_" +:+ lib); ToolsetDigits (toolset k); Text (tags +:+ version +:+ ext); EndOfName];
   [Text ("boost_" +:+ lib +:+ tags +:+ version +:+ ext); EndOfName];
   [Text ("boost_" +:+ lib); ToolsetDigits (toolset k); Text (tags +:+ ext); EndOfName];
   [Text ("boost_" +:+ lib +:+ tags +:+ ext); EndOfName];
   [Text ("boost_" +:+ lib +:+ ext); EndOfName];
   [Text ("boost_" +:+ lib)]].
Fixpoint first_match (ps : list (list part)) (files : list string) : option string :=
  match ps with
  | [] => None
  | p :: ps => match find_lib p files with Some f => Some f | None => first_match ps files end
  end.
Definition match_lib (p : platform) (k : lib_params) (files : list string) (is_static : bool) (lib : string) : option string :=
  let ext := of_chars (after_s (chars (if is_static then cxxstlib_PATTERN p else cxxshlib_PATTERN p))) in
  let tags := if decide (lib = "python") then python_tags (tags_pattern k is_static) else tags_pattern k is_static in
  first_match (patterns k lib tags ext) files.
Fixpoint match_libs (p : platform) (k : lib_params) (files : list string) (is_static : bool) (lib_names : list string)
    : res (list string) :=
  match lib_names with
  | [] => Ok []
  | lib :: lib_names =>
      match match_lib p k files is_static lib with
      | Some f => rest ← match_libs p k files is_static lib_names; Ok (format_lib_name (CC_NAME p) f :: rest)
      | None => if required k then fatal else match_libs p k files is_static lib_names
      end
  end.
(** [sorted(files, key=lambda f: (len(f.name), f.name), reverse=True)] *)
Definition longer (a b : string) : Prop :=
  (String.length b < String.length a)%nat ∨ String.length a = String.length b ∧ String.le b a.
#[export] Instance longer_dec a b : Decision (longer a b) := _.
Definition sort_files (files : list string) : list string := merge_sort longer files.
Definition boost_get_libs (p : platform) (k : lib_params) (dir : option string) (files : list string) (lib stlib : list string)
    : res (string * list string * list string) :=
  let files := sort_files files in
  match dir with
  | None => Err AttributeError
  | Some d =>
      libs ← match_libs p k files false lib;
      stlibs ← match_libs p k files true stlib;
      Ok (d, libs, stlibs)
  end.
End libs.

(** ** The whole check *)

Section check.
Context (version_file : string → bool) (find_dir : string → option (list string))
  (search_other : string → string → bool) (python_tags : string → string).
(** The version that the headers or the compiler tell, by their directory, and
    whether a fragment links with what the environment holds. *)
Context (get_version : string → option string) (links : string → bool).
Record check_params := CheckParams {
  c_includes : string; c_libs : string; c_lib : list string; c_stlib : list string; c_required : bool;
  c_mt : bool; c_abi : string; c_toolset : string;
}.
(** The variables that are set, for the name of the library in waf. *)
Record boost_env := BoostEnv {
  INCLUDES : string; VERSION : string; LIB_ : option (string * list string); STLIB_ : option (string * list string);
}.
Definition fragments (c : check_params) : list string :=
  (if bool_decide ("system" ∈ c_lib c ++ c_stlib c) then ["boost/system/error_code.hpp"] else []) ++
  (if bool_decide ("thread" ∈ c_lib c ++ c_stlib c) then ["boost/thread.hpp"] else []).
Definition check_boost (p : platform) (INCLUDE LIB : string) (c : check_params) : res boost_env :=
  if decide (CXX p = "") then fatal
  else
    inc ← boost_get_includes version_file INCLUDE (c_includes c);
    match get_version inc with
    | None => Err TypeError
    | Some v =>
        if bool_decide (c_lib c = []) && bool_decide (c_stlib c = []) then Ok (BoostEnv inc v None None)
        else
          df ← __boost_get_libs_path find_dir LIB (c_libs c) (c_required c);
          ts ← boost_get_toolset p (c_toolset c);
          r ← boost_get_libs search_other python_tags p (LibParams (c_mt c) (c_abi c) (c_required c) v ts) df.1 df.2
                (c_lib c) (c_stlib c);
          let '(path, libs, stlibs) := r in
          if forallb links (fragments c) then
            Ok (BoostEnv inc v (if decide (libs = []) then None else Some (path, libs))
                  (if decide (stlibs = []) then None else Some (path, stlibs)))
          else fatal
    end.
End check.

(** ** Which file is taken *)

#[export] Instance longer_trans : Transitive longer.
Proof.
  intros a b c [?|[? ?]] [?|[? ?]]; [left; lia..|]. right. split; [lia|]. by transitivity b.
Qed.
#[export] Instance longer_total : Total longer.
Proof.
  intros a b. destruct (lt_eq_lt_dec (String.length a) (String.length b)) as [[?|?]|?]; [right; by left| |left; by left].
  destruct (total String.le a b); [right|left]; right; split; (done || lia).
Qed.
Lemma find_first {A} (P : A → bool) l x : snd <$> list_find (λ y, P y = true) l = Some x →
  ∃ l1 l2, l = l1 ++ x :: l2 ∧ P x = true ∧ Forall (λ y, P y = false) l1.
Proof.
  intros ([i y] & E & [= <-])%fmap_Some. apply list_find_Some in E as (Hi & HP & Hbefore).
  exists (take i l), (drop (S i) l). split_and!; [by rewrite take_drop_middle|done|].
  apply Forall_lookup. intros j z Hj. apply lookup_take_Some in Hj as [Hj ?].
  apply not_true_iff_false. by eapply Hbefore.
Qed.
Section choice.
Context (search_other : string → string → bool) (python_tags : string → string).
Local Abbreviation search := (re_search search_other).
Lemma find_lib_longest ps files f : find_lib search_other ps (sort_files files) = Some f →
  f ∈ files ∧ search ps f = true ∧ ∀ g, g ∈ files → search ps g = true → longer f g.
Proof.
  intros (l1 & l2 & E & Hf & Hl1)%find_first.
  assert (∀ g, g ∈ files ↔ g ∈ l1 ++ f :: l2) as Hin.
  { intros g. rewrite <-E. unfold sort_files. by rewrite merge_sort_Permutation. }
  split_and!; [apply Hin; set_solver|done|]. intros g Hg%Hin Hs.
  apply elem_of_app in Hg as [Hg|Hg]; [by rewrite Forall_forall in Hl1; rewrite Hl1 in Hs|].
  apply elem_of_cons in Hg as [->|Hg]; [right; by split|].
  pose proof (StronglySorted_merge_sort longer files) as Hsort. fold (sort_files files) in Hsort. rewrite E in Hsort.
  apply StronglySorted_app in Hsort as (_ & _ & Hsort). apply StronglySorted_inv in Hsort as [_ Hsort].
  rewrite Forall_forall in Hsort. by apply Hsort.
Qed.
Lemma find_lib_none ps files : find_lib search_other ps files = None → Forall (λ f, search ps f = false) files.
Proof.
  unfold find_lib. intros E. apply fmap_None, list_find_None in E. eapply Forall_impl; [done|].
  intros f. simpl. by destruct (search ps f).
Qed.

(** A library is the file with the longest name, and the last in order, of
    those that the first of the patterns fits that fits any file; there is
    none exactly when no pattern fits a file. *)
Theorem match_lib_first p k files is_static lib tags ext :
  tags = (if decide (lib = "python") then python_tags (tags_pattern k is_static) else tags_pattern k is_static) →
  ext = of_chars (after_s (chars (if is_static then cxxstlib_PATTERN p else cxxshlib_PATTERN p))) →
  match match_lib search_other python_tags p k (sort_files files) is_static lib with
  | Some f => ∃ before ps after, patterns k lib tags ext = before ++ ps :: after ∧
      (∀ qs g, qs ∈ before → g ∈ files → search qs g = false) ∧
      f ∈ files ∧ search ps f = true ∧ ∀ g, g ∈ files → search ps g = true → longer f g
  | None => ∀ ps g, ps ∈ patterns k lib tags ext → g ∈ files → search ps g = false
  end.
Proof.
  intros -> ->. unfold match_lib. set (tags := if decide _ then _ else _). set (ext := of_chars _).
  generalize (patterns k lib tags ext). intros pats. induction pats as [|ps pats IH]; cbn [first_match].
  { intros ps g ?%elem_of_nil. done. }
  destruct (find_lib search_other ps (sort_files files)) as [f|] eqn:E.
  - apply find_lib_longest in E. exists [], ps, pats. split_and!; [done| |apply E..]. by intros ? ? ?%elem_of_nil.
  - apply find_lib_none in E. rewrite Forall_forall in E.
    assert (∀ g, g ∈ files → search ps g = false) as Hps.
    { intros g Hg. apply E. unfold sort_files. by rewrite merge_sort_Permutation. }
    destruct (first_match _ pats _) as [f|].
    + destruct IH as (before & qs & after & -> & Hb & IH). exists (ps :: before), qs, after. split_and!; [done| |apply IH..].
      intros qs' g [->|?]%elem_of_cons Hg; [by apply Hps|by eapply Hb].
    + intros qs g [->|?]%elem_of_cons Hg; [by apply Hps|by eapply IH].
Qed.
End choice.

(** ** Names and directories *)

Lemma rfind_dot_none l i last : ("."%char ∉ l) → rfind_dot l i last = last.
Proof.
  revert i last. induction l as [|a l IH]; intros i last; [done|]. intros [? ?]%not_elem_of_cons. simpl.
  rewrite decide_False by done. by apply IH.
Qed.
Lemma rfind_dot_last l k i last : ("."%char ∉ k) → rfind_dot (l ++ "."%char :: k) i last = i + Z.of_nat (length l).
Proof.
  intros Hk. revert i last. induction l as [|a l IH]; intros i last; cbn [app rfind_dot].
  - rewrite decide_True by done. rewrite rfind_dot_none by done. simpl. lia.
  - rewrite IH. simpl length. lia.
Qed.
(** The name that is linked with: the file without [lib] and without what
    follows its last dot. *)
Theorem format_lib_name_file CC base ext :
  CC ≠ "msvc" → ("."%char ∉ chars ext) → format_lib_name CC ("lib" +:+ base +:+ "." +:+ ext) = base.
Proof.
  intros HCC Hext. unfold format_lib_name. replace (startswith ("lib" +:+ base +:+ "." +:+ ext) "lib") with true by (by destruct base).
  rewrite bool_decide_true by done. cbn [andb]. rewrite !chars_app.
  change (drop 3 (chars "lib" ++ chars base ++ chars "." ++ chars ext)) with (chars base ++ "."%char :: chars ext).
  rewrite chars_of_chars, rfind_dot_last by done. rewrite Z.add_0_l, slice_to_nat, take_app_length. apply of_chars_chars.
Qed.

Section dirs.
Context (find_dir : string → option (list string)).
(** Files of Boost are in the directory, or in that of 64 bit next to it. *)
Definition boost_in (d : string) : option (string * list string) :=
  match find_dir d with
  | Some (f :: fs) => Some (d, f :: fs)
  | _ => match find_dir (d +:+ "64") with Some (f :: fs) => Some (d +:+ "64", f :: fs) | _ => None end
  end.
Lemma libs_loop_first ds s d fs :
  head (omap boost_in (filter (λ d, d ≠ "") ds)) = Some (d, fs) → libs_loop find_dir ds s = Found (Some d) (Some fs).
Proof.
  revert s. induction ds as [|d0 ds IH]; intros s; [done|]. cbn [libs_loop]. rewrite filter_cons.
  destruct (decide (d0 = "")) as [->|Hd]; [rewrite decide_False by tauto; apply IH|]. rewrite decide_True by done.
  cbn [omap list_omap]. unfold boost_in, try_dir.
  destruct (find_dir d0) as [[|f fs0]|]; cbn; [|by intros [= <- <-]|];
    (destruct (find_dir (d0 +:+ "64")) as [[|f' fs']|]; cbn; [|by intros [= <- <-]|]; apply IH).
Qed.
Lemma libs_loop_none ds s :
  omap boost_in (filter (λ d, d ≠ "") ds) = [] → default [] (files s) = [] → default [] (files (libs_loop find_dir ds s)) = [].
Proof.
  revert s. induction ds as [|d0 ds IH]; intros s; [done|]. cbn [libs_loop]. rewrite filter_cons.
  destruct (decide (d0 = "")) as [->|Hd]; [rewrite decide_False by tauto; apply IH|]. rewrite decide_True by done.
  cbn [omap list_omap]. unfold boost_in, try_dir. intros Ho Hs.
  destruct (find_dir d0) as [[|f fs0]|]; cbn in *; try done;
    (destruct (find_dir (d0 +:+ "64")) as [[|f' fs']|]; cbn in *; try done; by apply IH).
Qed.

(** Where the libraries are looked for: the directory that was asked for, if
    it has files of Boost, and else the first of the others that has, or its
    64 bit neighbour; a directory that is asked for and does not exist is an
    AttributeError.  Where no directory has files the result has none. *)
Theorem libs_path LIB libs required :
  let others := omap boost_in (filter (λ d, d ≠ "") (split ";" LIB ++ BOOST_LIBS)) in
  match libs, find_dir libs with
  | String _ _, None => __boost_get_libs_path find_dir LIB libs required = Err AttributeError
  | String _ _, Some (f :: fs) => __boost_get_libs_path find_dir LIB libs required = Ok (Some libs, f :: fs)
  | _, _ =>
      match others with
      | (d, fs) :: _ => __boost_get_libs_path find_dir LIB libs required = Ok (Some d, fs)
      | [] => ∀ path fs, __boost_get_libs_path find_dir LIB libs required = Ok (path, fs) → fs = [] ∧ (required = true → path ≠ None)
      end
  end.
Proof.
  intros others. unfold __boost_get_libs_path. set (ds := split ";" LIB ++ BOOST_LIBS) in *.
  assert (∀ s, default [] (files s) = [] →
    match others with
    | (d, fs) :: _ => libs_loop find_dir ds s = Found (Some d) (Some fs)
    | [] => default [] (files (libs_loop find_dir ds s)) = []
    end) as Hloop.
  { intros s Hs. destruct others as [|[d fs] rest] eqn:E; [by apply libs_loop_none|].
    apply libs_loop_first. fold others. by rewrite E. }
  assert (∀ s, default [] (files s) = [] → match others with
    | (d, fs) :: _ => (if bool_decide (path (libs_loop find_dir ds s) = None) && required then fatal
        else match files (libs_loop find_dir ds s) with Some fs => Ok (path (libs_loop find_dir ds s), fs) | None => Err UnboundLocalError end)
        = Ok (Some d, fs)
    | [] => ∀ p fs, (if bool_decide (path (libs_loop find_dir ds s) = None) && required then fatal
        else match files (libs_loop find_dir ds s) with Some fs => Ok (path (libs_loop find_dir ds s), fs) | None => Err UnboundLocalError end)
        = Ok (p, fs) → fs = [] ∧ (required = true → p ≠ None)
    end) as Hend.
  { intros s Hs. specialize (Hloop s Hs). destruct others as [|[d fs] rest]; [|by rewrite Hloop].
    intros p fs. destruct (libs_loop find_dir ds s) as [path [fs'|]]; simpl in *; destruct required; rewrite ?andb_true_r, ?andb_false_r;
      repeat case_bool_decide; intros; by simplify_eq. }
  destruct libs as [|a libs]; [apply (Hend (Found None None)); done|]. cbn [decide].
  rewrite decide_False by done. destruct (find_dir (String a libs)) as [[|f fs]|]; cbn [mbind result_bind].
  - rewrite (bool_decide_false (String a libs = "")) by done. cbn [orb files].
    rewrite (bool_decide_true (@Some (list string) [] = Some [])) by done. by apply Hend.
  - rewrite (bool_decide_false (String a libs = "")) by done. cbn [orb files].
    rewrite (bool_decide_false (Some (f :: fs) = Some [])) by done. done.
  - done.
Qed.
End dirs.

(** ** Examples *)

Definition demo_platform : platform := Platform "linux" "g++" "g++" "gcc" "lib%s.so" "lib%s.a".
Definition demo_params : lib_params := LibParams false "" true "1_65_1" "gcc".
Definition demo_files : list string :=
  ["libboost_system.so"; "libboost_system.so.1.65.1"; "libboost_log_setup.so"; "libboost_log.so"; "libboost_thread-gcc54-1_65_1.so";
   "libboost_thread.so"; "libboost_regex.so.1.65.1"].
Definition demo_libs (is_static : bool) (names : list string) : res (list string) :=
  match_libs (λ _ _, false) id demo_platform demo_params (sort_files demo_files) is_static names.
(** A library that is only there with its version is linked by a name that is
    none; a static library that is missing becomes a shared one, also one of
    another library whose name only starts like it. *)
Example demo_shared : demo_libs false ["system"; "log"; "thread"; "regex"] =
  Ok ["boost_system"; "boost_log"; "boost_thread-gcc54-1_65_1"; "boost_regex.so.1.65"].
Proof. vm_compute. reflexivity. Qed.
Example demo_static : demo_libs true ["log"] = Ok ["boost_log_setup"].
Proof. vm_compute. reflexivity. Qed.
Example demo_missing : (demo_libs false ["python3"], boost_get_toolset demo_platform "", boost_get_toolset (Platform "plan9" "" "" "" "" "") "") =
  (fatal, Ok "gcc", Err TypeError).
Proof. vm_compute. reflexivity. Qed.
Lemma match_lib_first_witness :
  match_lib (λ _ _, false) id demo_platform demo_params (sort_files demo_files) false "log" = Some "libboost_log.so" ∧
  ∃ before ps after, patterns demo_params "log" "" ".so" = before ++ ps :: after ∧
    re_search (λ _ _, false) ps "libboost_log.so" = true.
Proof.
  assert (match_lib (λ _ _, false) id demo_platform demo_params (sort_files demo_files) false "log" = Some "libboost_log.so") as E
    by (vm_compute; reflexivity).
  pose proof (match_lib_first (λ _ _, false) id demo_platform demo_params demo_files false "log" "" ".so" eq_refl eq_refl) as H.
  rewrite E in H. destruct H as (before & ps & after & Hp & _ & _ & Hs & _). split; [exact E|]. by exists before, ps, after.
Defined.
Lemma format_lib_name_file_witness : format_lib_name "gcc" "libboost_system.so" = "boost_system".
Proof. apply (format_lib_name_file "gcc" "boost_system" "so"); [done|by apply (bool_decide_unpack _)]. Defined.
